(* ===== verification/_CoqProject ===== *)
-Q . S2P
Prelude.v
CryptoVec.v
MemoryLock.v
Encoding.v
Text.v
LibInner.v
Msg.v
Pty.v
SshRead.v
Channels.v
ChannelHandles.v
Wakeups.v
Parsing.v
Cipher.v
CipherImpls.v
NameList.v
Compression.v
PacketWriter.v
Negotiation.v
KexKeys.v
Suites.v
Dh.v
KexAlgorithms.v
PendingInbound.v
Session.v
Kex.v
KexRun.v
ChannelStream.v
ChannelIds.v
SessionWriter.v
ServerSession.v
ServerFrames.v
ServerInbound.v
ChannelOpen.v
Auth.v
ServerAuth.v
ClientAuth.v
AuthExchange.v
ChannelRequests.v
ServerEncrypted.v
ServerRequests.v
Supervisor.v
CommonSession.v
ServerReply.v
ServerLoop.v
ServerRun.v
ClientSession.v
ClientFrames.v
Forwarding.v
ClientReply.v
ClientConnection.v
ClientRun.v
SessionMethods.v
Defaults.v
Handles.v
Agent.v
AgentClient.v
AgentExchange.v
Pageant.v
KnownHosts.v
SecretKeys.v
SshConfig.v
