(* ===== verification/Prelude.v ===== *)
(** * Verification of russh, an SSH 2 transport, client and server library

    This development models the crate [russh] ([src/russh/src/]) with the crates
    beside it ([cryptovec], [pageant], [russh-config]) and proves what makes them
    correct.  It follows the program:
    a file per part, a [Record] for each struct, a [Definition] for each function
    with its guards and early returns, in the order of the source.  Code that can
    fail or changes state is in the monad [st S E A] of this file
    ([S -> res E A * S], where [res] has [Ok], [Err] and [Panic]): after an error the
    changes made so far are kept, as in the program, and an operation that would
    panic (an index out of range, [unreachable!()], an arithmetic overflow in
    a checked build) is [Panic].

    ** The parts, and the code they stand for

    Data and encodings
    - [Prelude]: machine integers as [Z] with their wrap-around, results, the state
      monad, and the generic lemmas; [framed] and [leads] are the two notions by
      which "this code leaves that alone" is lifted along the structure of code.
    - [CryptoVec] ([cryptovec/src/]), vectors for secrets over a heap of blocks, and
      [MemoryLock] ([cryptovec/src/platform/]), the pages that are locked.
    - [Encoding]: the crate [ssh_encoding] as an interface with the laws of RFC 4251.
    - [Text]: the strings of the standard library that the parsers of files use.
    - [LibInner] ([lib_inner.rs]), [Msg] ([msg.rs]), [Pty] ([pty.rs]), [NameList]
      ([helpers.rs]), [Parsing] ([parsing.rs]).

    The transport
    - [SshRead] ([ssh_read.rs]), [Cipher] ([cipher/mod.rs], [cipher/clear.rs]), [CipherImpls]
      ([cipher/block.rs], [cbc.rs], [gcm.rs], [chacha20poly1305.rs], [mac/]), [Suites] (the
      tables of ciphers and MACs, and how they make keys), [Compression]
      ([compression.rs]), [PacketWriter] ([sshbuffer.rs]).
    - [Negotiation] ([negotiation.rs]), [KexKeys] and [Dh] ([kex/mod.rs], [kex/dh/]),
      [KexAlgorithms] (the rest of [kex/]: X25519, NIST curves, the hybrid with ML-KEM,
      none, and their dispatch), [Kex] ([client/kex.rs], [server/kex.rs]) and [KexRun],
      in which both sides meet.

    Channels, shared by both kinds of session
    - [Session] ([Encrypted] of [session.rs]), with its specification in
      [ChannelStream] (a queue of tagged bytes and the events on the wire), the
      allocation of numbers in [ChannelIds], and [SessionWriter], which relates
      the staged and the direct way of sending.
    - [Channels] and [ChannelHandles] ([channels/]): what the application holds, the
      halves with the polls of readers and writers, and the channels and streams
      made of them.
    - [Wakeups] (the shared window of [channels/mod.rs] and [io/tx.rs]): the writers of a
      channel as tasks that interleave, and who is woken when the window opens.
    - [PendingInbound] ([pending_inbound.rs]), [ChannelOpen] and [ChannelRequests]
      (the packets that open channels and make requests on them).
    - [CommonSession] ([CommonSession] of [session.rs]).

    A server connection
    - [ServerSession] and [ServerInbound] (data, windows, delivery),
      [ServerFrames], [Auth] and [ServerAuth] ([auth.rs], [cert.rs], the first half of
      [server/encrypted.rs]), [ServerEncrypted] (the dispatch of packets) with
      [ServerRequests] (its packets as steps of [ServerInbound]),
      [ServerReply] ([reply] of [server/mod.rs] and the key exchange of a connection),
      [Supervisor] ([server/supervisor.rs] and the timers of the run loop).
    - [ServerLoop] (a turn of the run loop of [server/session.rs]) and [ServerRun] (the
      whole run, and the server that accepts connections, of [server/mod.rs]).

    A client connection
    - [ClientAuth] ([client/encrypted.rs] and the authentication methods of
      [client/mod.rs]), [ClientSession] and [ClientFrames] (the packets of an
      authenticated session, [client/session.rs]), [ClientReply] (one turn of
      [run_inner] of [client/mod.rs]), [ClientConnection] (its invariants) and [ClientRun]
      (the whole run, and what [connect_stream] hands out).

    Client and server together, and the application
    - [AuthExchange] (authentication), [Forwarding] (global requests), [KexRun].
    - [SessionMethods] (what a session offers to callbacks), [Defaults] (the handler and
      the configuration that override nothing), [Handles] (the [Handle] of both sides).

    Keys and files
    - [Agent] ([keys/agent/server.rs]), [AgentClient] ([keys/agent/client.rs]) and
      [AgentExchange], in which they meet; [Pageant] (the crate [pageant]).
    - [KnownHosts] ([keys/known_hosts.rs]), [SecretKeys] ([keys/format/]), [SshConfig] (the
      crate [russh-config]).

    ** What the theorems show

    The claims are numbered [C1], [C2], ... in the order of their importance; the
    groups are these.
    - Streams: the bytes that applications write on a channel come out in order
      and once, within the window and the packet size, whatever way they are
      sent ([ChannelStream], [SessionWriter], [PacketWriter], [ChannelHandles]); what a
      server receives is delivered in order, bounded, and paid for by the
      window only when it reaches the application ([ServerInbound]).
    - Packets: what is sealed is opened, for every cipher and MAC that the program
      has; opening does not accept a forged packet, and reading ends with a packet
      or an error whatever the peer sends, one configuration without a MAC
      excepted ([Cipher], [CipherImpls], [Suites]); decompression is bounded ([Compression]).
    - Keys: both sides of an exchange agree on the algorithms, the hash and
      the keys, with every algorithm ([Negotiation], [KexKeys], [KexAlgorithms],
      [KexRun]); over a whole connection a client has keys only from a host that its
      application accepted, and hands out a connection only then
      ([ClientConnection], [ClientRun]), and a server lets in nobody without the consent
      of its application ([ServerReply], [ServerRun]); an application that decides nothing
      lets nobody in ([Defaults]).
    - Requests: what one application asks for is what the other is asked, and the
      answer finds its way back to the call ([AuthExchange], [ChannelRequests],
      [ServerEncrypted], [Forwarding], [ChannelOpen], [Handles]).
    - Time: a stalled peer, a late re-exchange and an idle connection are noticed
      exactly when they should be ([Supervisor], [ServerReply]); a shutdown reaches the
      connections that are served ([ServerRun]); writers come to rest, and none waits
      beside an open window ([Wakeups]).
    - The agent refines an abstract key store, keeps lifetimes and does nothing
      while it is locked ([Agent], [AgentExchange]); Pageant's answers come back in
      order ([Pageant]).
    - Memory and files: freed memory is wiped and vectors refine lists ([CryptoVec]),
      pages are unlocked with their last user ([MemoryLock]); a host that was learned
      is known, a key or a configuration that was written is read back
      ([KnownHosts], [SecretKeys], [SshConfig]).
    Each claim with hypotheses has a witness in the module [Example] of its file (or
    of the file that brings the parts together), evaluated on concrete packets.
    Examples also show, on concrete inputs, where the program does not do what it
    means to; theorems that would be false for that reason are stated as the
    program behaves.

    ** Parameters, fuel and bounds

    What is not code of the repository is a parameter: [ssh_encoding]
    ([Encoding.SshEncoding], with an instance [rfc4251]), ciphers, MACs and hashes
    ([Suites.Primitives]), curves and ML-KEM ([Curve25519], [NistCurve], [MlKem768] of
    [KexAlgorithms]), [ssh_key] (host keys, user keys, certificates, signatures;
    [AgentKeys], [KnownKeys], [KeyFiles] for the agent and the files), [flate2], the queues
    and [copy] of [tokio] ([TokioCopy], [Broadcast], [AgentStream], [Notify]), globs and the
    environment ([SshConfig]), the allocator and the system calls that lock memory
    ([CryptoVec], [MemoryLock]), Windows ([Windows], [Pipes] of [Pageant]), the order in
    which a [HashMap] is walked, and random numbers, which are arguments.  Their
    documented behaviour is in classes of laws, and each class has a concrete instance
    in an [Example] module.  The callbacks of the application are classes as well
    ([Handler], [AuthHandler], [ClientHandler], ...); where an invariant needs that
    they leave the session's own fields alone, that is a class too ([HandlerFrame]).
    Loops with fuel have as fuel the length of what they consume, or a number
    that the program bounds the loop by, and a theorem that it suffices
    ([ChannelIds.new_channel_fresh], [SshRead.read_ssh_id_spec], [Session.flush_loop] and
    so on); running out of fuel is [Panic], which the theorems exclude.  The endless
    loops of sessions run over a list of what they wake up for, of any length.

    ** Not modelled

    Tasks and locks of [tokio] (the order in which their events reach a
    session is arbitrary in the model), the opening of sockets and pipes
    ([client::connect], [run_on_address], the streams of [russh-config/src/proxy.rs]),
    the runtime of [russh-util], logging, [Debug] and [Display], the examples, benchmarks and tests, and the hooks of the test features.
    The field [pending_reads] of both sessions is never filled by the program. *)

From stdpp Require Import base list numbers option gmap strings.
From Stdlib Require Import ZArith Lia.

(** ** Machine integers

    [u8], [u32], [u64] and [usize] values are [Z]; a definition writes out the
    wrap-around, saturation or truncation that the source performs.  [usize] is
    the 64-bit one. *)

Declare Scope russh_scope.
Delimit Scope russh_scope with russh.
#[global] Open Scope Z_scope.

Abbreviation bytes := (list Z).

Definition U8_MAX : Z := 255.
Definition U32_MOD : Z := 4294967296.
Definition U32_MAX : Z := 4294967295.
Definition USIZE_MAX : Z := 18446744073709551615.

(** [x as u32] of an unsigned value: truncation. *)
Definition to_u32 (x : Z) : Z := x mod U32_MOD.

(** [Wrapping<u32>] addition. *)
Definition wrapping_add32 (x y : Z) : Z := (x + y) mod U32_MOD.

(** [usize::saturating_add], [usize::saturating_mul] and, for any unsigned
    type, [saturating_sub]. *)
Definition saturating_add (x y : Z) : Z := Z.min (x + y) USIZE_MAX.
Definition saturating_mul (x y : Z) : Z := Z.min (x * y) USIZE_MAX.
Definition saturating_sub (x y : Z) : Z := Z.max (x - y) 0.

(** [usize::checked_add], [usize::checked_sub]. *)
Definition checked_add (x y : Z) : option Z :=
  if x + y <=? USIZE_MAX then Some (x + y) else None.
Definition checked_sub (x y : Z) : option Z :=
  if y <=? x then Some (x - y) else None.

(** [usize::div_ceil]. *)
Definition div_ceil (x y : Z) : Z :=
  if x mod y =? 0 then x / y else x / y + 1.

Definition is_u8 (x : Z) : Prop := 0 <= x < 256.
Definition is_u32 (x : Z) : Prop := 0 <= x < U32_MOD.
Definition is_usize (x : Z) : Prop := 0 <= x <= USIZE_MAX.

(** ** Slices and vectors *)

(** [v.len()]. *)
Definition zlen {A} (l : list A) : Z := Z.of_nat (length l).

(** [&v[..n]], [&v[n..]]; callers check the bounds (or model the panic). *)
Definition ztake {A} (n : Z) (l : list A) : list A := take (Z.to_nat n) l.
Definition zdrop {A} (n : Z) (l : list A) : list A := drop (Z.to_nat n) l.

(** [Vec::resize(n, x)]: truncation or extension with [x]. *)
Definition vec_resize (n x : Z) (l : bytes) : bytes :=
  ztake n l ++ replicate (Z.to_nat (n - zlen l)) x.

(** [Vec::truncate(n)]. *)
Definition vec_truncate {A} (n : Z) (l : list A) : list A := ztake n l.

(** [v.get(i)] / [v[i]]. *)
Definition znth {A} (l : list A) (i : Z) : option A :=
  if (0 <=? i) then l !! Z.to_nat i else None.

(** [u32::to_be_bytes] (and [BigEndian::write_u32] into a four-byte slice). *)
Definition be32 (n : Z) : bytes :=
  [(n / 16777216) mod 256; (n / 65536) mod 256; (n / 256) mod 256; n mod 256].

(** [BigEndian::read_u32]: reads the first four bytes; panics on a shorter
    slice ([None]). *)
Definition read_u32 (b : bytes) : option Z :=
  match b with
  | x0 :: x1 :: x2 :: x3 :: _ => Some (x0 * 16777216 + x1 * 65536 + x2 * 256 + x3)
  | _ => None
  end.

(** [BigEndian::write_u32(&mut buf[i..], v)]: panics ([None]) when fewer than
    four bytes follow position [i]. *)
Definition write_u32_at (i v : Z) (buf : bytes) : option bytes :=
  if i + 4 <=? zlen buf
  then Some (ztake i buf ++ be32 v ++ zdrop (i + 4) buf)
  else None.

(** The bytes of a string literal. *)
Fixpoint str (s : string) : bytes :=
  match s with
  | EmptyString => []
  | String a s' => Z.of_N (Ascii.N_of_ascii a) :: str s'
  end.

(** [a == b] on slices and on [str]. *)
Definition beq (a b : bytes) : bool := bool_decide (a = b).

(** [v.contains(&x)]. *)
Definition memb {A} `{EqDecision A} (x : A) (l : list A) : bool :=
  existsb (fun y => bool_decide (x = y)) l.

(** ** Results

    [Result<A, E>] with a third outcome for a panic (an index out of bounds, a
    failed [assert!], an [unwrap] of [None]). *)
Inductive res (E A : Type) : Type :=
| Ok (a : A)
| Err (e : E)
| Panic.
Arguments Ok {E A} a.
Arguments Err {E A} e.
Arguments Panic {E A}.

Definition res_bind {E A B} (m : res E A) (k : A -> res E B) : res E B :=
  match m with
  | Ok a => k a
  | Err e => Err e
  | Panic => Panic
  end.

(** The [?] operator. *)
Notation "'let?' x ':=' m 'in' k" := (res_bind m (fun x => k))
  (at level 10, x pattern, m at level 100, k at level 200) : russh_scope.
#[global] Open Scope russh_scope.

(** [Result::map_err]. *)
Definition map_err {E F A} (f : E -> F) (m : res E A) : res F A :=
  match m with
  | Ok a => Ok a
  | Err e => Err (f e)
  | Panic => Panic
  end.

Definition is_ok {E A} (m : res E A) : bool :=
  match m with Ok _ => true | _ => false end.

(** [Option::ok_or]. *)
Definition ok_or {E A} (o : option A) (e : E) : res E A :=
  match o with Some a => Ok a | None => Err e end.

(** An index or an [unwrap] that panics. *)
Definition or_panic {E A} (o : option A) : res E A :=
  match o with Some a => Ok a | None => Panic end.

(** ** Stateful fallible code

    [st S E A] is code that owns a mutable [S] and returns a [Result]: the state
    reached is kept on the error path too, as in Rust. *)
Definition st (S E A : Type) : Type := S -> res E A * S.

Definition st_ret {S E A} (a : A) : st S E A := fun s => (Ok a, s).
Definition st_err {S E A} (e : E) : st S E A := fun s => (Err e, s).
Definition st_panic {S E A} : st S E A := fun s => (Panic, s).
Definition st_lift {S E A} (m : res E A) : st S E A := fun s => (m, s).
Definition st_get {S E} : st S E S := fun s => (Ok s, s).
Definition st_put {S E} (s : S) : st S E unit := fun _ => (Ok tt, s).
Definition st_mod {S E} (f : S -> S) : st S E unit := fun s => (Ok tt, f s).

Definition st_bind {S E A B} (m : st S E A) (k : A -> st S E B) : st S E B :=
  fun s =>
    match m s with
    | (Ok a, s') => k a s'
    | (Err e, s') => (Err e, s')
    | (Panic, s') => (Panic, s')
    end.

Notation "'do' x '<-' m ';;' k" := (st_bind m (fun x => k))
  (at level 10, x pattern, m at level 99, k at level 200) : russh_scope.
Notation "m ';;;' k" := (st_bind m (fun _ => k))
  (at level 199, right associativity) : russh_scope.

Definition st_map_err {S E F A} (f : E -> F) (m : st S E A) : st S F A :=
  fun s => let '(r, s') := m s in (map_err f r, s').

(** ** Code that respects a relation

    [framed R m]: however [m] ends, the state it leaves is related to the one it
    started from.  For a preorder this follows the structure of the code. *)
Definition framed {S E A} (R : S -> S -> Prop) (m : st S E A) : Prop := forall s, R s (m s).2.

Create HintDb framed discriminated.

Section Framed.
Context {S : Type} (R : S -> S -> Prop) `{!PreOrder R}.

Lemma framed_bind {E A B} (m : st S E A) (k : A -> st S E B) :
  framed R m -> (forall a, framed R (k a)) -> framed R (st_bind m k).
Proof.
  intros Hm Hk s. unfold st_bind. specialize (Hm s).
  destruct (m s) as [[a|x|] s1]; cbn [snd] in *; [|done|done]. by etransitivity; [|apply Hk].
Qed.

Lemma framed_map_err {E F A} (f : E -> F) (m : st S E A) : framed R m -> framed R (st_map_err f m).
Proof. intros Hm s. specialize (Hm s). unfold st_map_err. by destruct (m s). Qed.

Lemma framed_ret {E A} (a : A) : framed R (st_ret a : st S E A).
Proof. by intros s. Qed.
Lemma framed_err {E A} (x : E) : framed R (st_err x : st S E A).
Proof. by intros s. Qed.
Lemma framed_lift {E A} (r : res E A) : framed R (st_lift r : st S E A).
Proof. by intros s. Qed.
Lemma framed_mod {E} (f : S -> S) : (forall s, R s (f s)) -> framed R (st_mod f : st S E unit).
Proof. by intros Hf s. Qed.

(** Code that reads the state before it acts. *)
Lemma framed_read {E A B} (f : S -> B) (m : B -> st S E A) :
  (forall b, framed R (m b)) -> framed R (fun s => m (f s) s).
Proof. intros Hm s. apply Hm. Qed.
Lemma framed_if {E A} (b : S -> bool) (m k : st S E A) :
  framed R m -> framed R k -> framed R (fun s => if b s then m s else k s).
Proof. intros Hm Hk s. by destruct (b s). Qed.

Lemma framed_result {E A} (m : st S E A) s r s' : framed R m -> m s = (r, s') -> R s s'.
Proof. intros Hm Hr. specialize (Hm s). by rewrite Hr in Hm. Qed.
End Framed.

#[export] Hint Resolve framed_bind framed_map_err framed_ret framed_err framed_lift : framed.

(** [leads R m]: when [m] succeeds, the state it leaves is related to the one it
    started from; what it leaves after an error does not matter. *)
Definition leads {S E A} (R : S -> S -> Prop) (m : st S E A) : Prop :=
  forall s a s', m s = (Ok a, s') -> R s s'.

Section Leads.
Context {S : Type} (R : S -> S -> Prop) `{!PreOrder R}.

Lemma leads_bind {E A B} (m : st S E A) (k : A -> st S E B) :
  leads R m -> (forall a, leads R (k a)) -> leads R (st_bind m k).
Proof.
  intros Hm Hk s b s' H. unfold st_bind in H. destruct (m s) as [[a|x|] s1] eqn:H1; try done.
  transitivity s1; [by eapply Hm|by eapply Hk].
Qed.

Lemma leads_ret {E A} (a : A) : leads R (st_ret a : st S E A).
Proof. by intros s b s' [= _ <-]. Qed.
Lemma leads_err {E A} (x : E) : leads R (st_err x : st S E A).
Proof. by intros s b s'. Qed.
Lemma leads_panic {E A} : leads R (st_panic : st S E A).
Proof. by intros s b s'. Qed.
Lemma leads_map_err {E F A} (f : E -> F) (m : st S E A) : leads R m -> leads R (st_map_err f m).
Proof. intros Hm s a s'. unfold st_map_err. destruct (m s) as [[] s1] eqn:H1; intros [= <- <-]. by eapply Hm. Qed.
Lemma leads_mod {E} (f : S -> S) : (forall s, R s (f s)) -> leads R (st_mod f : st S E unit).
Proof. by intros Hf s a s' [= _ <-]. Qed.

Lemma framed_leads {E A} (R' : S -> S -> Prop) (m : st S E A) :
  (forall s s', R' s s' -> R s s') -> framed R' m -> leads R m.
Proof. intros Hi Hm s a s' H. apply Hi. specialize (Hm s). by rewrite H in Hm. Qed.
End Leads.

(** ** Generic lemmas *)

Section Lists.
Context {A : Type}.
Implicit Types l : list A.

Lemma zlen_nonneg l : 0 <= zlen l.
Proof. unfold zlen. lia. Qed.

Lemma zlen_nil : zlen ([] : list A) = 0.
Proof. done. Qed.

Lemma zlen_cons x l : zlen (x :: l) = 1 + zlen l.
Proof. unfold zlen. simpl. lia. Qed.

Lemma zlen_app l1 l2 : zlen (l1 ++ l2) = zlen l1 + zlen l2.
Proof. unfold zlen. rewrite length_app. lia. Qed.

Lemma zlen_ztake n l : zlen (ztake n l) = Z.max 0 (Z.min n (zlen l)).
Proof. unfold zlen, ztake. rewrite length_take. lia. Qed.

Lemma zlen_zdrop n l : zlen (zdrop n l) = Z.max 0 (zlen l - Z.max 0 n).
Proof. unfold zlen, zdrop. rewrite length_drop. lia. Qed.

Lemma zlen_replicate n (x : A) : zlen (replicate (Z.to_nat n) x) = Z.max 0 n.
Proof. unfold zlen. rewrite length_replicate. lia. Qed.

Lemma zlen_0_nil l : zlen l = 0 -> l = [].
Proof. unfold zlen. destruct l; simpl; [done|lia]. Qed.

Lemma zlen_pos_cons l : 0 < zlen l -> exists x l', l = x :: l'.
Proof. destruct l as [|x l']; [rewrite zlen_nil; lia|]. eauto. Qed.

Lemma ztake_zdrop n l : ztake n l ++ zdrop n l = l.
Proof. apply take_drop. Qed.

Lemma ztake_all n l : zlen l <= n -> ztake n l = l.
Proof. unfold zlen, ztake. intros. apply take_ge. lia. Qed.

Lemma zdrop_all n l : zlen l <= n -> zdrop n l = [].
Proof. unfold zlen, zdrop. intros. apply drop_ge. lia. Qed.

Lemma ztake_0 l : ztake 0 l = [].
Proof. done. Qed.

Lemma zdrop_0 l : zdrop 0 l = l.
Proof. done. Qed.

Lemma ztake_app_exact n l1 l2 : n = zlen l1 -> ztake n (l1 ++ l2) = l1.
Proof. intros ->. unfold ztake, zlen. rewrite Nat2Z.id. apply take_app_length. Qed.

Lemma zdrop_app_exact n l1 l2 : n = zlen l1 -> zdrop n (l1 ++ l2) = l2.
Proof. intros ->. unfold zdrop, zlen. rewrite Nat2Z.id. apply drop_app_length. Qed.

Lemma ztake_app_le n l1 l2 : n <= zlen l1 -> ztake n (l1 ++ l2) = ztake n l1.
Proof. unfold ztake, zlen. intros. apply take_app_le. lia. Qed.

Lemma zdrop_app_le n l1 l2 : n <= zlen l1 -> zdrop n (l1 ++ l2) = zdrop n l1 ++ l2.
Proof. unfold zdrop, zlen. intros. apply drop_app_le. lia. Qed.

Lemma ztake_app_ge n l1 l2 :
  zlen l1 <= n -> ztake n (l1 ++ l2) = l1 ++ ztake (n - zlen l1) l2.
Proof.
  unfold ztake, zlen. intros. rewrite take_app_ge by lia. do 2 f_equal. lia.
Qed.

Lemma zdrop_app_ge n l1 l2 : zlen l1 <= n -> zdrop n (l1 ++ l2) = zdrop (n - zlen l1) l2.
Proof. unfold zdrop, zlen. intros. rewrite drop_app_ge by lia. f_equal. lia. Qed.

Lemma zdrop_zdrop n m l : 0 <= n -> 0 <= m -> zdrop n (zdrop m l) = zdrop (m + n) l.
Proof. unfold zdrop. intros. rewrite drop_drop. f_equal. lia. Qed.

Lemma zdrop_ztake n m l : 0 <= n -> zdrop n (ztake (n + m) l) = ztake m (zdrop n l).
Proof.
  intros Hn. unfold zdrop, ztake. destruct (Z_le_gt_dec 0 m).
  - rewrite Z2Nat.inj_add by lia. by rewrite take_drop_commute.
  - rewrite skipn_firstn_comm. f_equal. lia.
Qed.

Lemma ztake_ztake n m l : ztake n (ztake m l) = ztake (Z.min n m) l.
Proof. unfold ztake. rewrite take_take. f_equal. lia. Qed.

Lemma znth_head l : znth l 0 = head l.
Proof. by destruct l. Qed.
End Lists.

(** Linear arithmetic with division and remainder by constants. *)
Ltac dlia := Z.to_euclidean_division_equations; lia.

(** Split an equality of explicit lists into those of their elements. *)
Ltac cons_eq := repeat (apply (f_equal2 cons)); [..|done].

Create Rewrite HintDb zlen.
#[export] Hint Rewrite @zlen_nil @zlen_cons @zlen_app @zlen_ztake @zlen_zdrop
  @zlen_replicate : zlen.

(** Linear arithmetic over lengths of slices. *)
Ltac zlia :=
  autorewrite with zlen in *;
  unfold zlen in *; lia.

Lemma zlen_be32 n : zlen (be32 n) = 4.
Proof. done. Qed.
#[export] Hint Rewrite zlen_be32 : zlen.

Lemma be32_to_u32 n : be32 (to_u32 n) = be32 n.
Proof. unfold be32, to_u32, U32_MOD. cons_eq; dlia. Qed.

Lemma read_u32_be32 n r : read_u32 (be32 n ++ r) = Some (to_u32 n).
Proof. unfold be32, to_u32, U32_MOD. simpl. f_equal. dlia. Qed.

Lemma to_u32_small n : is_u32 n -> to_u32 n = n.
Proof. unfold is_u32, to_u32. intros. by apply Z.mod_small. Qed.

Lemma to_u32_range n : is_u32 (to_u32 n).
Proof. unfold is_u32, to_u32, U32_MOD. dlia. Qed.

Lemma be32_read_u32 b : Forall is_u8 b -> zlen b = 4 ->
  exists n, read_u32 b = Some n /\ is_u32 n /\ be32 n = b.
Proof.
  intros Hb Hl. unfold zlen in Hl.
  destruct b as [|x0 [|x1 [|x2 [|x3 [|]]]]]; simpl in Hl; try lia.
  rewrite !Forall_cons_iff in Hb. unfold is_u8 in Hb.
  eexists; split; [done|]. unfold is_u32, U32_MOD, be32.
  split; [lia|]. cons_eq; dlia.
Qed.

Lemma be32_is_u8 n : Forall is_u8 (be32 n).
Proof. unfold be32. rewrite !Forall_cons_iff. unfold is_u8. repeat split; dlia || done. Qed.

Lemma write_u32_at_app i v a b c :
  i = zlen a -> zlen b = 4 -> write_u32_at i v (a ++ b ++ c) = Some (a ++ be32 v ++ c).
Proof.
  intros -> Hb. unfold write_u32_at.
  replace (zlen a + 4 <=? zlen (a ++ b ++ c)) with true by (symmetry; apply Z.leb_le; zlia).
  rewrite ztake_app_exact by done.
  rewrite (app_assoc a b c), (zdrop_app_exact _ (a ++ b)) by zlia. done.
Qed.

Lemma vec_resize_grow n x l :
  zlen l <= n -> vec_resize n x l = l ++ replicate (Z.to_nat (n - zlen l)) x.
Proof. intros. unfold vec_resize. by rewrite ztake_all. Qed.

Lemma vec_resize_shrink n x l : 0 <= n <= zlen l -> vec_resize n x l = ztake n l.
Proof.
  intros. unfold vec_resize.
  replace (Z.to_nat (n - zlen l)) with 0%nat by lia. apply app_nil_r.
Qed.

Lemma zlen_vec_resize n x l : 0 <= n -> zlen (vec_resize n x l) = n.
Proof. intros. unfold vec_resize. zlia. Qed.

Lemma beq_true a b : beq a b = true <-> a = b.
Proof. apply bool_decide_eq_true. Qed.

Lemma beq_false a b : beq a b = false <-> a <> b.
Proof. apply bool_decide_eq_false. Qed.

Lemma beq_refl a : beq a a = true.
Proof. by apply beq_true. Qed.

Lemma memb_true {A} `{EqDecision A} (x : A) l : memb x l = true <-> x ∈ l.
Proof.
  unfold memb. rewrite existsb_exists. setoid_rewrite bool_decide_eq_true.
  rewrite list_elem_of_In. split; [by intros (y & ? & ->)|eauto].
Qed.

Lemma memb_false {A} `{EqDecision A} (x : A) l : memb x l = false <-> x ∉ l.
Proof. rewrite <- memb_true. by destruct (memb x l). Qed.

Lemma is_ok_inv {E A} (m : res E A) : is_ok m = true -> exists a, m = Ok a.
Proof. destruct m; eauto; done. Qed.

Lemma res_bind_ok {E A B} (m : res E A) (k : A -> res E B) b :
  res_bind m k = Ok b -> exists a, m = Ok a /\ k a = Ok b.
Proof. destruct m; eauto; done. Qed.

Lemma map_err_ok {E F A} (f : E -> F) (m : res E A) a : map_err f m = Ok a <-> m = Ok a.
Proof. destruct m; simpl; split; congruence. Qed.

(** Case analysis on the outermost [match] or [if] of a hypothesis or goal. *)
Ltac case_match_in H :=
  match type of H with
  | context [match ?x with _ => _ end] => destruct x eqn:?
  end.

(** Peel the [?]s of a computation known to succeed. *)
Ltac inv_ok H :=
  repeat match type of H with
  | res_bind ?m ?k = Ok _ =>
      let a := fresh "a" in let E := fresh "E" in
      apply res_bind_ok in H as (a & E & H)
  end.

(** Stateful code that succeeded. *)
Lemma st_bind_ok {S X A B} (m : st S X A) (k : A -> st S X B) s b s' :
  st_bind m k s = (Ok b, s') -> exists a s1, m s = (Ok a, s1) /\ k a s1 = (Ok b, s').
Proof. unfold st_bind. destruct (m s) as [[a|x|] s1]; [eauto|done..]. Qed.

Lemma st_lift_ok {S X A} (m : res X A) (s : S) a s' : st_lift m s = (Ok a, s') -> m = Ok a /\ s' = s.
Proof. unfold st_lift. by intros [= -> ->]. Qed.

Lemma st_ret_ok {S X A} (x : A) (s : S) a s' : (st_ret x : st S X A) s = (Ok a, s') -> a = x /\ s' = s.
Proof. unfold st_ret. by intros [= -> ->]. Qed.

(** Peel the steps of stateful code known to succeed. *)
Ltac inv_st H :=
  repeat match type of H with
  | st_bind _ _ _ = (Ok _, _) =>
      let a := fresh "a" in let s1 := fresh "s1" in let E := fresh "E" in
      apply st_bind_ok in H as (a & s1 & E & H);
      try (apply st_lift_ok in E as [E ->])
  | (let '(_, _) := ?x in _) _ = _ => let y := fresh "y" in destruct x as [? y]
  | st_ret _ _ = (Ok _, _) => apply st_ret_ok in H as [H ->]
  | st_err _ _ = _ => discriminate H
  end.
