(* ===== verification/CryptoVec.v ===== *)
(** * Buffers for secrets ([cryptovec/src/cryptovec.rs])

    The vector works on raw memory.  The heap is a map from the addresses of the
    allocated blocks to their bytes; what it deallocates is kept, as it was at
    that moment, in [freed].  An access outside of a block is undefined behaviour
    ([UB]), a refused allocation ends the process ([OutOfMemory]). *)

From stdpp Require Import base list numbers option gmap.
From Stdlib Require Import ZArith Lia.
From S2P Require Import Prelude.

(** ** Parameters *)

(** The global allocator, which sees the blocks in use. *)
Class Allocator : Type := { malloc : gmap Z bytes -> Z -> option Z }.
Class AllocatorLaws (A : Allocator) : Prop := {
  malloc_fresh b n p : malloc b n = Some p -> b !! p = None;
}.

(** What a platform does to keep memory from being swapped out ([platform/]); it
    can fail. *)
Class MemoryLock (L : Type) : Type := {
  mlock : Z -> Z -> L -> res unit unit * L;
  munlock : Z -> Z -> L -> res unit unit * L;
}.

Inductive Fault : Type := UB | OutOfMemory.

(** What a reader leaves in the slice that it is given, and what it answers. *)
Record Reader (E : Type) : Type := mkReader { fills : bytes -> bytes; answers : res E Z }.
Arguments mkReader {_} _ _.
Arguments fills {_} _.
Arguments answers {_} _.


Section CryptoVec.
Context {A : Allocator} {L : Type} {ML : MemoryLock L}.

(** ** Memory *)
Record Heap : Type := mkHeap {
  blocks : gmap Z bytes;
  freed : list bytes;
  locks : L;
}.

Definition set_blocks (b : gmap Z bytes) (h : Heap) : Heap := mkHeap b h.(freed) h.(locks).
Definition set_locks (l : L) (h : Heap) : Heap := mkHeap h.(blocks) h.(freed) l.

Definition lock_memory (p len : Z) : st Heap Fault unit :=
  st_mod (fun h => set_locks (mlock p len h.(locks)).2 h).
Definition unlock_memory (p len : Z) : st Heap Fault unit :=
  st_mod (fun h => set_locks (munlock p len h.(locks)).2 h).

(** [len] bytes from [off] on in the block at [p]; no byte is in no block. *)
Definition load (p off len : Z) : st Heap Fault bytes := fun h =>
  if len =? 0 then (Ok [], h)
  else
    match h.(blocks) !! p with
    | Some c => if off + len <=? zlen c then (Ok (ztake len (zdrop off c)), h) else (Err UB, h)
    | None => (Err UB, h)
    end.
Definition store (p off : Z) (b : bytes) : st Heap Fault unit := fun h =>
  if zlen b =? 0 then (Ok tt, h)
  else
    match h.(blocks) !! p with
    | Some c =>
        if off + zlen b <=? zlen c
        then (Ok tt, set_blocks (<[p := ztake off c ++ b ++ zdrop (off + zlen b) c]> h.(blocks)) h)
        else (Err UB, h)
    | None => (Err UB, h)
    end.

Definition zeroes (n : Z) : bytes := replicate (Z.to_nat n) 0.

Definition alloc_zeroed (capacity : Z) : st Heap Fault Z := fun h =>
  match malloc h.(blocks) capacity with
  | Some p => (lock_memory p capacity ;;; st_ret p) (set_blocks (<[p := zeroes capacity]> h.(blocks)) h)
  | None => (Err OutOfMemory, h)
  end.

(** [dealloc] is given the layout of the allocation. *)
Definition dealloc (p capacity : Z) : st Heap Fault unit := fun h =>
  match h.(blocks) !! p with
  | Some c =>
      if zlen c =? capacity then (Ok tt, mkHeap (delete p h.(blocks)) (c :: h.(freed)) h.(locks)) else (Err UB, h)
  | None => (Err UB, h)
  end.

Definition zeroize (p off size : Z) : st Heap Fault unit := store p off (zeroes size).

(** ** The vector *)
Record CryptoVec : Type := mkCryptoVec { p : Z; size : Z; capacity : Z }.

(** [NonNull::dangling()]. *)
Definition dangling : Z := 1.
Definition default_vec : CryptoVec := mkCryptoVec dangling 0 0.

Definition MAX_CAPACITY : Z := 2 ^ 62.

Definition next_power_of_two (n : Z) : Z := 2 ^ Z.log2_up n.

Definition checked_capacity {S} (len : Z) : st S Fault Z :=
  if MAX_CAPACITY <? len then st_panic else st_ret (next_power_of_two len).
Definition checked_len_sum {S} (lhs rhs : Z) : st S Fault Z :=
  if USIZE_MAX <? lhs + rhs then st_panic else st_ret (lhs + rhs).

Definition new_zeroed (size : Z) : st Heap Fault CryptoVec :=
  if size =? 0 then st_ret default_vec
  else
    do capacity <- checked_capacity size ;;
    do p <- alloc_zeroed capacity ;;
    st_ret (mkCryptoVec p size capacity).

Definition with_capacity (capacity : Z) : st Heap Fault CryptoVec :=
  if capacity =? 0 then st_ret default_vec
  else
    do capacity <- checked_capacity capacity ;;
    do p <- alloc_zeroed capacity ;;
    st_ret (mkCryptoVec p 0 capacity).

(** *** [&mut self]: the heap and the vector *)
Definition State : Type := (Heap * CryptoVec)%type.
Definition mem {A} (m : st Heap Fault A) : st State Fault A := fun s => let '(r, h) := m s.1 in (r, (h, s.2)).
Definition self : st State Fault CryptoVec := fun s => (Ok s.2, s).
Definition set_self (v : CryptoVec) : st State Fault unit := fun s => (Ok tt, (s.1, v)).

Definition resize (size : Z) : st State Fault unit :=
  do v <- self ;;
  if (size <=? v.(capacity)) && (v.(CryptoVec.size) <? size) then
    set_self (mkCryptoVec v.(p) size v.(capacity))
  else if size <=? v.(CryptoVec.size) then
    mem (zeroize v.(p) size (v.(CryptoVec.size) - size)) ;;;
    set_self (mkCryptoVec v.(p) size v.(capacity))
  else
    do next_capacity <- checked_capacity size ;;
    do next_ptr <- mem (alloc_zeroed next_capacity) ;;
    (if 0 <? v.(capacity) then
       do old <- mem (load v.(p) 0 v.(CryptoVec.size)) ;;
       mem (store next_ptr 0 old) ;;;
       mem (zeroize v.(p) 0 v.(CryptoVec.size)) ;;;
       mem (unlock_memory v.(p) v.(capacity)) ;;;
       mem (dealloc v.(p) v.(capacity))
     else st_ret tt) ;;;
    set_self (mkCryptoVec next_ptr size next_capacity).

Definition clear : st State Fault unit := resize 0.

Definition push (s : Z) : st State Fault unit :=
  do v <- self ;;
  do sum <- checked_len_sum v.(size) 1 ;;
  resize sum ;;;
  do v' <- self ;;
  mem (store v'.(p) v.(size) [s]).

Definition read {E} (n_bytes : Z) (r : Reader E) : st State Fault (res E Z) :=
  do v <- self ;;
  do target_size <- checked_len_sum v.(size) n_bytes ;;
  resize target_size ;;;
  (do v' <- self ;;
   do s <- mem (load v'.(p) v.(size) n_bytes) ;;
   mem (store v'.(p) v.(size) (vec_resize n_bytes 0 (r.(fills) s)))) ;;;
  match r.(answers) with
  | Ok n => (if USIZE_MAX <? v.(size) + n then st_panic else resize (v.(size) + n)) ;;; st_ret (Ok n)
  | Err e => resize v.(size) ;;; st_ret (Err e)
  | Panic => st_panic
  end.

(** [w] is one [Write::write]. *)
Definition write_all_from {R} (offset : Z) (w : bytes -> R) : st State Fault R :=
  do v <- self ;;
  if offset <? v.(size) then
    do s <- mem (load v.(p) offset (v.(size) - offset)) ;;
    st_ret (w s)
  else st_panic.

(** What the borrower writes into the extra bytes. *)
Definition resize_mut (n : Z) (written : bytes) : st State Fault unit :=
  do v <- self ;;
  do sum <- checked_len_sum v.(size) n ;;
  resize sum ;;;
  do v' <- self ;;
  mem (store v'.(p) v.(size) (vec_resize n 0 written)).

Definition extend (s : bytes) : st State Fault unit :=
  do v <- self ;;
  do sum <- checked_len_sum v.(size) (zlen s) ;;
  resize sum ;;;
  do v' <- self ;;
  mem (store v'.(p) v.(size) s).

(** [io::Write] and [ssh_encoding::Writer]. *)
Definition io_write (buf : bytes) : st State Fault Z := extend buf ;;; st_ret (zlen buf).
Definition ssh_write (buf : bytes) : st State Fault unit := extend buf.

(** [&self]: the slice, and its index operations. *)
Definition deref (v : CryptoVec) : st Heap Fault bytes := load v.(p) 0 v.(size).
Definition index_range (v : CryptoVec) (a b : Z) : st Heap Fault bytes :=
  do s <- deref v ;;
  if (a <=? b) && (b <=? zlen s) then st_ret (ztake (b - a) (zdrop a s)) else st_panic.
Definition index_from (v : CryptoVec) (a : Z) : st Heap Fault bytes := index_range v a v.(size).
Definition index_to (v : CryptoVec) (b : Z) : st Heap Fault bytes := index_range v 0 b.
Definition index_at (v : CryptoVec) (i : Z) : st Heap Fault Z :=
  do s <- deref v ;; st_lift (or_panic (znth s i)).

(** A vector that is made and then changed. *)
Definition build (m : st Heap Fault CryptoVec) (f : st State Fault unit) : st Heap Fault CryptoVec :=
  do v <- m ;;
  fun h => let '(r, (h, v)) := f (h, v) in (let? _ := r in Ok v, h).

Definition from_slice (s : bytes) : st Heap Fault CryptoVec :=
  build (st_ret default_vec)
    (resize (zlen s) ;;; do v <- self ;; mem (store v.(p) 0 s)).
Definition from_vec (e : bytes) : st Heap Fault CryptoVec :=
  build (new_zeroed (zlen e)) (do v <- self ;; mem (store v.(p) 0 e)).
Definition clone (v : CryptoVec) : st Heap Fault CryptoVec :=
  do s <- deref v ;; build (st_ret default_vec) (extend s).

Definition drop_vec (v : CryptoVec) : st Heap Fault unit :=
  if 0 <? v.(capacity) then
    zeroize v.(p) 0 v.(size) ;;; unlock_memory v.(p) v.(capacity) ;;; dealloc v.(p) v.(capacity)
  else st_ret tt.
End CryptoVec.

(** ** What the operations do *)

Section Spec.
Context {A : Allocator} `{!AllocatorLaws A} {L : Type} {ML : MemoryLock L}.

Abbreviation State := (@State L).

(** In the blocks [b] the vector holds the bytes [l]; [F] are the blocks that are
    not its own.  What lies between its size and its capacity is zero. *)
Definition holds (v : CryptoVec) (l : bytes) (F b : gmap Z bytes) : Prop :=
  v.(size) = zlen l /\
  ((v.(capacity) = 0 /\ l = [] /\ b = F) \/
   (0 < v.(capacity) <= MAX_CAPACITY /\ zlen l <= v.(capacity) /\ F !! v.(p) = None /\
    b = <[v.(p) := l ++ zeroes (v.(capacity) - zlen l)]> F)).

Definition all_zero (c : bytes) : Prop := Forall (eq 0) c.

(** Since [h] only blocks full of zeros were given back. *)
Definition wiped (h h' : @Heap L) : Prop := exists new, h'.(freed) = new ++ h.(freed) /\ Forall all_zero new.

(** The outcome [r] of an operation that began with the heap [h]: the vector holds
    some bytes [l'] of which, and of the result, [Q] holds; nothing undefined was
    done, a panic only happened when [P], the blocks of others are as they were and
    no secret was given back. *)
Definition sat {X} (F : gmap Z bytes) (h : @Heap L) (r : res Fault X * State) (Q : X -> bytes -> Prop) (P : Prop) : Prop :=
  let '(x, (h', v')) := r in
  wiped h h' /\
  (exists l', holds v' l' F h'.(blocks) /\ match x with Ok a => Q a l' | _ => True end) /\
  match x with Ok _ | Err OutOfMemory => True | Err UB => False | Panic => P end.

(** So [m] behaves on every vector that holds [l]. *)
Definition triple {X} (F : gmap Z bytes) (l : bytes) (m : st State Fault X) (Q : X -> bytes -> Prop) (P : Prop) : Prop :=
  forall h v, holds v l F h.(blocks) -> sat F h (m (h, v)) Q P.

Lemma wiped_refl h : wiped h h.
Proof. by exists []. Qed.
Lemma wiped_trans h1 h2 h3 : wiped h1 h2 -> wiped h2 h3 -> wiped h1 h3.
Proof.
  intros (n1 & H1 & Z1) (n2 & H2 & Z2). exists (n2 ++ n1). rewrite H2, H1, app_assoc. split; [done|by apply Forall_app].
Qed.

Lemma triple_ret {X} F l (a : X) (Q : X -> bytes -> Prop) P : Q a l -> triple F l (st_ret a) Q P.
Proof. intros HQ h v Hv. cbn. split; [apply wiped_refl|]. split; [by exists l|done]. Qed.

Lemma triple_panic {X} F l (Q : X -> bytes -> Prop) (P : Prop) : P -> triple F l st_panic Q P.
Proof. intros HP h v Hv. cbn. split; [apply wiped_refl|]. split; [by exists l|done]. Qed.

Lemma triple_bind {X Y} F l (m : st State Fault X) (k : X -> st State Fault Y) Q Q' (P : Prop) :
  triple F l m Q P -> (forall a l', Q a l' -> triple F l' (k a) Q' P) -> triple F l (do a <- m ;; k a) Q' P.
Proof.
  intros Hm Hk h v Hv. unfold st_bind. specialize (Hm h v Hv). unfold sat in *. destruct (m (h, v)) as [x [h1 v1]].
  destruct Hm as (Hw & (l1 & H1 & HQ) & Hx). destruct x as [a|e|].
  - specialize (Hk a l1 HQ h1 v1 H1). unfold sat in Hk. destruct (k a (h1, v1)) as [y [h2 v2]].
    destruct Hk as (Hw2 & H2 & Hy). split; [by eapply wiped_trans|done].
  - split; [done|]. split; [by exists l1|done].
  - split; [done|]. split; [by exists l1|done].
Qed.

Lemma triple_self {Y} F l (k : CryptoVec -> st State Fault Y) Q P :
  (forall v, v.(size) = zlen l -> triple F l (k v) Q P) -> triple F l (do v <- self ;; k v) Q P.
Proof. intros Hk h v Hv. cbn. apply (Hk v); [apply Hv|done]. Qed.

Lemma triple_weaken {X} F l (m : st State Fault X) (Q Q' : X -> bytes -> Prop) (P P' : Prop) :
  triple F l m Q P -> (forall a l', Q a l' -> Q' a l') -> (P -> P') -> triple F l m Q' P'.
Proof.
  intros Hm HQ HP h v Hv. specialize (Hm h v Hv). unfold sat in *. destruct (m (h, v)) as [x [h1 v1]].
  destruct Hm as (Hw & (l1 & H1 & H2) & Hx). split; [done|]. split.
  - exists l1. split; [done|]. destruct x; auto.
  - destruct x as [|[]|]; auto.
Qed.

(** *** Memory *)
Lemma zlen_zeroes n : 0 <= n -> zlen (zeroes n) = n.
Proof. intros. unfold zeroes. rewrite zlen_replicate. lia. Qed.
Lemma zeroes_app a b : 0 <= a -> 0 <= b -> zeroes a ++ zeroes b = zeroes (a + b).
Proof. intros. unfold zeroes. rewrite <- replicate_add. f_equal. lia. Qed.
Lemma all_zero_zeroes n : all_zero (zeroes n).
Proof. apply Forall_replicate. done. Qed.

Lemma store_block p off b (h : @Heap L) c : h.(blocks) !! p = Some c -> 0 <= off -> off + zlen b <= zlen c ->
  store p off b h = (Ok tt, set_blocks (<[p := ztake off c ++ b ++ zdrop (off + zlen b) c]> h.(blocks)) h).
Proof.
  intros Hp Ho Hl. unfold store. rewrite Hp. destruct (Z.eqb_spec (zlen b) 0) as [Hb|Hb].
  - apply zlen_0_nil in Hb as ->. rewrite zlen_nil, Z.add_0_r. cbn [app]. rewrite ztake_zdrop, insert_id by done.
    by destruct h.
  - destruct (Z.leb_spec (off + zlen b) (zlen c)); [done|lia].
Qed.

Lemma load_block p off len (h : @Heap L) c : h.(blocks) !! p = Some c -> 0 <= len -> off + len <= zlen c ->
  load p off len h = (Ok (ztake len (zdrop off c)), h).
Proof.
  intros Hp Hlen Hl. unfold load. rewrite Hp. destruct (Z.eqb_spec len 0) as [->|Hb]; [done|].
  destruct (Z.leb_spec (off + len) (zlen c)); [done|lia].
Qed.

Lemma holds_block v l F b : holds v l F b -> 0 < v.(capacity) ->
  b !! v.(p) = Some (l ++ zeroes (v.(capacity) - zlen l)) /\ zlen l <= v.(capacity).
Proof. intros (_ & [(H & _)|(_ & Hl & _ & ->)]) Hc; [lia|]. by rewrite lookup_insert_eq. Qed.

Lemma holds_empty v l F b : holds v l F b -> v.(capacity) <= 0 -> l = [] /\ b = F.
Proof. intros (_ & [(_ & H)|(H & _)]) Hc; [done|lia]. Qed.

(** Writing within the size. *)
Lemma store_spec F l off b P : 0 <= off -> off + zlen b <= zlen l ->
  triple F l (do v <- self ;; mem (store v.(p) off b))
    (fun _ l' => l' = ztake off l ++ b ++ zdrop (off + zlen b) l) P.
Proof.
  intros Ho Hl h v Hv. cbn. unfold mem. cbn [fst snd]. pose proof (zlen_nonneg b).
  destruct (Z.ltb_spec 0 v.(capacity)) as [Hc|Hc].
  - destruct (holds_block v l F _ Hv Hc) as [Hb Hlc]. pose proof Hv as (Hs & [(H0 & _)|(Hcap & _ & HF & Hblk)]); [lia|].
    rewrite (store_block _ off b h _ Hb); [|done|rewrite zlen_app, zlen_zeroes; lia].
    split; [by exists []|]. split; [|done]. eexists. split; [|done].
    cbn [blocks set_blocks]. split; [rewrite Hs, !zlen_app, zlen_ztake, zlen_zdrop; lia|]. right.
    rewrite !zlen_app, zlen_ztake, zlen_zdrop. split; [done|]. split; [lia|]. split; [done|].
    rewrite Hblk, insert_insert_eq. f_equal. rewrite ztake_app_le, zdrop_app_le by lia. rewrite <- !app_assoc.
    do 4 f_equal. lia.
  - destruct (holds_empty v l F _ Hv Hc) as [-> HF]. rewrite zlen_nil in Hl.
    assert (b = []) as -> by (apply zlen_0_nil; lia). cbn. split; [apply wiped_refl|]. split; [|done].
    exists []. split; [|unfold ztake, zdrop; by rewrite firstn_nil, skipn_nil]. done.
Qed.

Lemma load_spec F l off len P : 0 <= off -> 0 <= len -> off + len <= zlen l ->
  triple F l (do v <- self ;; mem (load v.(p) off len)) (fun s l' => s = ztake len (zdrop off l) /\ l' = l) P.
Proof.
  intros Ho Hlen Hl h v Hv. cbn. unfold mem. cbn [fst snd]. destruct (Z.ltb_spec 0 v.(capacity)) as [Hc|Hc].
  - destruct (holds_block v l F _ Hv Hc) as [Hb Hlc].
    rewrite (load_block _ off len h _ Hb); [|done|rewrite zlen_app, zlen_zeroes; lia].
    split; [apply wiped_refl|]. split; [|done]. exists l. split; [done|]. split; [|done].
    rewrite zdrop_app_le, ztake_app_le by (rewrite ?zlen_zdrop; lia). done.
  - destruct (holds_empty v l F _ Hv Hc) as [-> HF]. rewrite zlen_nil in Hl.
    assert (len = 0) as -> by lia. cbn. split; [apply wiped_refl|]. split; [|done]. by exists [].
Qed.

Lemma load_heap p off len (h : @Heap L) : (load p off len h).2 = h.
Proof. unfold load. by repeat case_match. Qed.

(** Reading and overwriting in place. *)
Lemma modify_spec F l off len f P : 0 <= off -> 0 <= len -> off + len <= zlen l -> (forall s, zlen (f s) = len) ->
  triple F l (do v <- self ;; do s <- mem (load v.(p) off len) ;; mem (store v.(p) off (f s)))
    (fun _ l' => l' = ztake off l ++ f (ztake len (zdrop off l)) ++ zdrop (off + len) l) P.
Proof.
  intros Ho Hlen Hl Hf h v Hv. pose proof (load_spec F l off len P Ho Hlen Hl h v Hv) as Hr.
  cbn in *. unfold st_bind, mem in *. cbn [fst snd] in *. pose proof (load_heap v.(p) off len h) as Hh.
  destruct (load v.(p) off len h) as [x h1]. cbn [snd] in Hh. subst h1. destruct Hr as (Hw & (l' & Hl' & Hx) & Hok).
  destruct x as [s|e|]; [|split; [done|]; split; [by exists l'|done]..]. destruct Hx as [-> ->].
  pose proof (store_spec F l off (f (ztake len (zdrop off l))) P Ho ltac:(rewrite Hf; lia) h v Hv) as Hs.
  rewrite Hf in Hs. exact Hs.
Qed.

Lemma npt_bounds n : 0 < n <= MAX_CAPACITY -> n <= next_power_of_two n <= MAX_CAPACITY.
Proof.
  intros Hn. unfold next_power_of_two, MAX_CAPACITY in *. pose proof (Z.log2_up_nonneg n). split.
  - destruct (Z.eq_dec n 1) as [->|]; [done|]. apply Z.log2_up_spec. lia.
  - apply Z.pow_le_mono_r; [lia|]. pose proof (Z.log2_up_le_mono n (2 ^ 62) ltac:(lia)) as H1.
    rewrite Z.log2_up_pow2 in H1; lia.
Qed.

(** Within the capacity the bytes past the size are there, as zeros. *)
Lemma resize_within F l n P : zlen l < n -> forall h v, holds v l F h.(blocks) -> n <= v.(capacity) ->
  sat F h (set_self (mkCryptoVec v.(p) n v.(capacity)) (h, v)) (fun _ l' => l' = vec_resize n 0 l) P.
Proof.
  intros Hn h v Hv Hc. cbn. split; [apply wiped_refl|]. split; [|done]. exists (vec_resize n 0 l).
  pose proof (zlen_nonneg l). split; [|done].
  destruct Hv as (Hs & [(H0 & _)|(Hcap & Hlc & HF & ->)]); [lia|]. rewrite vec_resize_grow by lia.
  change (replicate (Z.to_nat (n - zlen l)) 0) with (zeroes (n - zlen l)).
  split; cbn; rewrite zlen_app, zlen_zeroes by lia; [lia|]. right. split; [done|]. split; [lia|]. split; [done|].
  f_equal. rewrite <- app_assoc, zeroes_app by lia. do 2 f_equal. lia.
Qed.

(** Truncation wipes what is cut off. *)
Lemma resize_truncate F l n P : 0 <= n <= zlen l -> forall h v, holds v l F h.(blocks) ->
  sat F h ((mem (zeroize v.(p) n (zlen l - n)) ;;; set_self (mkCryptoVec v.(p) n v.(capacity))) (h, v))
    (fun _ l' => l' = vec_resize n 0 l) P.
Proof.
  intros Hn h v Hv. unfold st_bind, mem, zeroize. cbn [fst snd].
  destruct (Z.ltb_spec 0 v.(capacity)) as [Hc|Hc].
  - destruct (holds_block v l F _ Hv Hc) as [Hb Hlc]. pose proof Hv as (Hs & [(H0 & _)|(Hcap & _ & HF & Hblk)]); [lia|].
    rewrite (store_block _ n _ h _ Hb) by (rewrite ?zlen_app, ?zlen_zeroes by lia; lia). cbn.
    split; [by exists []|]. split; [|done]. exists (vec_resize n 0 l). split; [|done].
    rewrite vec_resize_shrink by lia. split; cbn; rewrite zlen_ztake; [lia|]. right. split; [done|]. split; [lia|].
    split; [done|]. rewrite Hblk, insert_insert_eq. f_equal. rewrite zlen_zeroes, ztake_app_le, zdrop_app_ge by lia.
    replace (n + (zlen l - n) - zlen l) with 0 by lia. rewrite zdrop_0, zeroes_app by lia. do 2 f_equal. lia.
  - destruct (holds_empty v l F _ Hv Hc) as [-> HF]. rewrite zlen_nil in *. assert (n = 0) as -> by lia. cbn.
    split; [apply wiped_refl|]. split; [|done]. exists []. split; [|done]. destruct Hv as (Hs & [(H0 & _)|(H & _)]); [|lia].
    split; [done|]. by left.
Qed.

(** Growing moves the bytes and wipes the block that is given back. *)
Definition move (n : Z) (v : CryptoVec) (next_capacity next_ptr : Z) : st State Fault unit :=
  (if 0 <? v.(capacity) then
     do old <- mem (load v.(p) 0 v.(CryptoVec.size)) ;;
     mem (store next_ptr 0 old) ;;;
     mem (zeroize v.(p) 0 v.(CryptoVec.size)) ;;;
     mem (unlock_memory v.(p) v.(capacity)) ;;;
     mem (dealloc v.(p) v.(capacity))
   else st_ret tt) ;;;
  set_self (mkCryptoVec next_ptr n next_capacity).

Lemma move_spec F l n cap q P h v b : holds v l F b -> b !! q = None -> zlen l <= n <= cap -> 0 < cap <= MAX_CAPACITY ->
  h.(blocks) = <[q := zeroes cap]> b ->
  sat F h (move n v cap q (h, v)) (fun _ l' => l' = vec_resize n 0 l) P.
Proof.
  intros Hv Hq Hn Hcap Hh. pose proof (zlen_nonneg l).
  assert (Hnew : forall F', F' !! q = None ->
    holds (mkCryptoVec q n cap) (vec_resize n 0 l) F' (<[q := l ++ zeroes (cap - zlen l)]> F')).
  { intros F' HF'. rewrite vec_resize_grow by lia. change (replicate (Z.to_nat (n - zlen l)) 0) with (zeroes (n - zlen l)).
    split; cbn; rewrite zlen_app, zlen_zeroes by lia; [lia|]. right. split; [done|]. split; [lia|]. split; [done|].
    f_equal. rewrite <- app_assoc, zeroes_app by lia. do 2 f_equal. lia. }
  unfold move. destruct (Z.ltb_spec 0 v.(capacity)) as [Hc|Hc].
  - destruct (holds_block v l F _ Hv Hc) as [Hb Hlc]. pose proof Hv as (Hs & [(H0 & _)|(Hvc & _ & HF & Hblk)]); [lia|].
    assert (Hpq : q <> v.(p)) by (intros ->; congruence).
    assert (HFq : F !! q = None) by (rewrite Hblk, lookup_insert_ne in Hq by done; done).
    assert (Hold : blocks h !! v.(p) = Some (l ++ zeroes (v.(capacity) - zlen l))) by (rewrite Hh, lookup_insert_ne by done; done).
    unfold st_bind, mem. cbn [fst snd].
    rewrite Hs, (load_block _ 0 _ h _ Hold); [|lia|rewrite zlen_app, zlen_zeroes; lia]. cbn [fst snd].
    rewrite zdrop_0, ztake_app_exact by done.
    rewrite (store_block q 0 _ h (zeroes cap)); [|by rewrite Hh, lookup_insert_eq|lia|rewrite zlen_zeroes; lia].
    cbn [fst snd]. unfold zeroize. rewrite ztake_0. cbn [app].
    rewrite (store_block v.(p) 0 _ _ (l ++ zeroes (v.(capacity) - zlen l)));
      [|cbn; rewrite lookup_insert_ne by done; exact Hold|lia|rewrite zlen_app, !zlen_zeroes; lia].
    cbn [fst snd set_blocks blocks freed locks]. rewrite ztake_0, zlen_zeroes, zdrop_app_exact, zeroes_app by lia. cbn [app].
    unfold unlock_memory, st_mod, dealloc. cbn [fst snd set_locks set_blocks blocks freed locks].
    rewrite lookup_insert_eq, zlen_zeroes by lia. replace (zlen l + (v.(capacity) - zlen l)) with v.(capacity) by lia.
    rewrite Z.eqb_refl. cbn [fst snd]. split.
    { eexists [_]. split; [done|]. apply Forall_singleton, all_zero_zeroes. }
    split; [|done]. exists (vec_resize n 0 l). split; [|done]. cbn [blocks].
    replace (delete _ _) with (<[q := l ++ zeroes (cap - zlen l)]> F); [by apply Hnew|].
    rewrite delete_insert_eq, Hh, insert_insert_eq, Hblk, delete_insert_ne, delete_insert_id by done.
    do 2 f_equal. unfold zdrop, zeroes. rewrite drop_replicate. f_equal. pose proof (zlen_nonneg l). lia.
  - destruct (holds_empty v l F _ Hv Hc) as [-> ->]. cbn. split; [apply wiped_refl|]. split; [|done].
    exists (vec_resize n 0 []). split; [|done]. rewrite Hh.
    replace (zeroes cap) with ([] ++ zeroes (cap - zlen (@nil Z))) by (cbn [app]; f_equal; rewrite zlen_nil; lia).
    by apply Hnew.
Qed.

Lemma resize_spec F l n : 0 <= n -> triple F l (resize n) (fun _ l' => l' = vec_resize n 0 l) (zlen l < n /\ MAX_CAPACITY < n).
Proof.
  intros Hn h v Hv. pose proof (zlen_nonneg l). unfold resize. cbn [st_bind self fst snd].
  pose proof Hv as (Hs & Hcase). rewrite Hs.
  destruct (Z.leb_spec n v.(capacity)) as [Hc|Hc], (Z.ltb_spec (zlen l) n) as [Hl|Hl]; cbn [andb].
  - by apply resize_within.
  - replace (n <=? zlen l) with true by lia. by apply resize_truncate; [lia|].
  - replace (n <=? zlen l) with false by lia. unfold checked_capacity.
    destruct (Z.ltb_spec MAX_CAPACITY n) as [Hm|Hm]; cbn [st_bind st_panic st_ret].
    { split; [apply wiped_refl|]. split; [by exists l|done]. }
    destruct (npt_bounds n) as [Hb1 Hb2]; [lia|]. rewrite <- Hs.
    unfold st_bind at 1. unfold mem at 1, alloc_zeroed. cbn [fst snd].
    destruct (malloc h.(blocks) (next_power_of_two n)) as [q|] eqn:Hq.
    + apply malloc_fresh in Hq. cbn [lock_memory st_mod st_bind st_ret].
      match goal with |- sat _ _ (?m ?s) _ _ => change (m s) with (move n v (next_power_of_two n) q s) end.
      set (h1 := set_locks _ _). change (sat F h1 (move n v (next_power_of_two n) q (h1, v))
        (fun _ l' => l' = vec_resize n 0 l) (size v < n /\ MAX_CAPACITY < n)).
      eapply (move_spec F l n _ q _ _ v); [exact Hv|done|lia|lia|done].
    + split; [apply wiped_refl|]. split; [by exists l|done].
  - replace (n <=? zlen l) with true by lia. by apply resize_truncate; [lia|].
Qed.

(** *** The operations on lists *)

(** What they need to hold at most. *)
Definition too_long (n : Z) : Prop := MAX_CAPACITY < n.

Lemma checked_len_sum_spec F l a b : triple F l (checked_len_sum a b) (fun n l' => n = a + b /\ l' = l) (too_long (a + b)).
Proof.
  unfold checked_len_sum. destruct (Z.ltb_spec USIZE_MAX (a + b)).
  - apply triple_panic. unfold too_long, MAX_CAPACITY, USIZE_MAX in *. lia.
  - by apply triple_ret.
Qed.

(** The common part of [push], [extend] and [resize_mut]. *)
Lemma grow_spec F l b : triple F l
  (do v <- self ;;
   do sum <- checked_len_sum v.(size) (zlen b) ;;
   resize sum ;;;
   do v' <- self ;;
   mem (store v'.(p) v.(size) b))
  (fun _ l' => l' = l ++ b) (too_long (zlen l + zlen b)).
Proof.
  pose proof (zlen_nonneg l). pose proof (zlen_nonneg b). apply triple_self. intros v ->.
  eapply triple_bind; [apply checked_len_sum_spec|]. intros n l1 [-> ->].
  eapply triple_bind; [eapply triple_weaken; [apply resize_spec; lia|intros a l'; exact id|by intros []]|].
  intros _ l2 ->.
  eapply triple_weaken; [apply store_spec; rewrite ?zlen_vec_resize by lia; lia| |done].
  intros _ l' ->. rewrite vec_resize_grow, ztake_app_exact by lia. f_equal.
  rewrite zdrop_all; [by rewrite app_nil_r|]. rewrite zlen_app, zlen_replicate. lia.
Qed.

Lemma push_spec F l x : triple F l (push x) (fun _ l' => l' = l ++ [x]) (too_long (zlen l + 1)).
Proof. apply (grow_spec F l [x]). Qed.
Lemma extend_spec F l b : triple F l (extend b) (fun _ l' => l' = l ++ b) (too_long (zlen l + zlen b)).
Proof. apply grow_spec. Qed.

Lemma resize_mut_spec F l n b : 0 <= n ->
  triple F l (resize_mut n b) (fun _ l' => l' = l ++ vec_resize n 0 b) (too_long (zlen l + n)).
Proof.
  intros Hn. pose proof (grow_spec F l (vec_resize n 0 b)) as H. rewrite zlen_vec_resize in H by done. exact H.
Qed.

(** A reader that keeps to its slice ([n <= n_bytes]) has what it read appended;
    after an error the vector is as before. *)
Definition after_read {E} (n_bytes : Z) (r : Reader E) (l : bytes) : bytes :=
  let s := vec_resize n_bytes 0 (r.(fills) (zeroes n_bytes)) in
  match r.(answers) with Ok n => vec_resize (zlen l + n) 0 (l ++ s) | _ => l end.
Definition read_panics {E} (n_bytes : Z) (r : Reader E) (l : bytes) : Prop :=
  too_long (zlen l + n_bytes) \/ match r.(answers) with Ok n => too_long (zlen l + n) | Err _ => False | Panic => True end.

Lemma vec_read_spec {E} F l n_bytes (r : Reader E) :
  0 <= n_bytes -> match r.(answers) with Ok n => 0 <= n | _ => True end ->
  triple F l (read n_bytes r) (fun a l' => a = r.(answers) /\ l' = after_read n_bytes r l) (read_panics n_bytes r l).
Proof.
  intros Hn Hr. pose proof (zlen_nonneg l). unfold read, read_panics, after_read. apply triple_self. intros v Hv.
  eapply triple_bind; [eapply triple_weaken; [apply checked_len_sum_spec|intros a l'; exact id|rewrite Hv; tauto]|].
  intros ? l1 [-> ->]. rewrite Hv.
  eapply triple_bind; [eapply triple_weaken; [apply resize_spec; lia|intros a l'; exact id|unfold too_long; tauto]|].
  intros _ l2 ->. set (l2 := vec_resize (zlen l + n_bytes) 0 l). assert (Hl2 : l2 = l ++ zeroes n_bytes)
    by (unfold l2, zeroes; rewrite vec_resize_grow by lia; f_equal; f_equal; lia).
  assert (Hlen : zlen l2 = zlen l + n_bytes) by (by apply zlen_vec_resize; lia).
  rewrite Hl2 in *.
  eapply triple_bind; [apply (modify_spec _ _ _ _ (fun s => vec_resize n_bytes 0 (fills r s))); try lia; intros; by apply zlen_vec_resize|].
  intros _ l3 ->. rewrite ztake_app_exact, zdrop_app_exact by done. rewrite (ztake_all n_bytes) by (rewrite zlen_zeroes; lia).
  rewrite (zdrop_all (zlen l + n_bytes)) by lia. rewrite app_nil_r. set (s := vec_resize n_bytes 0 _).
  destruct r.(answers) as [n|e|].
  - unfold too_long. destruct (Z.ltb_spec USIZE_MAX (zlen l + n)).
    + apply (triple_bind _ _ _ _ (fun _ _ => False)); [|done]. apply triple_panic. unfold MAX_CAPACITY, USIZE_MAX in *. lia.
    + eapply triple_bind; [eapply triple_weaken; [apply resize_spec; lia|intros a l'; exact id|tauto]|].
      intros _ l4 ->. by apply triple_ret.
  - eapply triple_bind; [eapply triple_weaken; [apply resize_spec; lia|intros a l'; exact id|]|].
    + rewrite zlen_app. unfold s. rewrite zlen_vec_resize by done. lia.
    + intros _ l4 ->. apply triple_ret. split; [done|]. rewrite vec_resize_shrink, ztake_app_exact; [done..|]. zlia.
  - apply triple_panic. by right.
Qed.

Lemma write_all_from_spec {R} F l off (w : bytes -> R) : 0 <= off ->
  triple F l (write_all_from off w) (fun a l' => a = w (zdrop off l) /\ l' = l) (zlen l <= off).
Proof.
  intros Ho h v Hv. pose proof Hv as (Hs & _). unfold write_all_from. cbn [st_bind self fst snd]. rewrite Hs.
  destruct (Z.ltb_spec off (zlen l)) as [Hl|Hl]; [|split; [apply wiped_refl|]; split; [by exists l|done]].
  pose proof (load_spec F l off (zlen l - off) (zlen l <= off) Ho ltac:(lia) ltac:(lia) h v Hv) as H.
  cbn in H. unfold st_bind, mem in *. cbn [fst snd] in *. destruct (load _ _ _ h) as [[s|e|] h1]; cbn in *; [|done..].
  destruct H as (Hw & (l' & Hl' & -> & ->) & _). split; [done|]. split; [|done]. exists l. split; [done|]. split; [|done].
  by rewrite ztake_all by (rewrite zlen_zdrop; lia).
Qed.

(** *** Making and dropping vectors *)

(** The outcome of making a vector that holds [l], next to the blocks [F]. *)
Definition makes (F : gmap Z bytes) (h : @Heap L) (r : res Fault CryptoVec * @Heap L) (l : bytes) (P : Prop) : Prop :=
  let '(x, h') := r in
  wiped h h' /\
  match x with Ok v => holds v l F h'.(blocks) | Err UB => False | Err OutOfMemory => True | Panic => P end.

Lemma default_makes h P : makes h.(blocks) h (st_ret default_vec h) [] P.
Proof. split; [apply wiped_refl|]. split; [done|]. by left. Qed.

Lemma alloc_makes h n m l : 0 < n -> l = zeroes m -> 0 <= m <= n ->
  makes h.(blocks) h ((do capacity <- checked_capacity n ;; do p <- alloc_zeroed capacity ;;
    st_ret (mkCryptoVec p m capacity)) h) l (too_long n).
Proof.
  intros Hn -> Hm. unfold checked_capacity. destruct (Z.ltb_spec MAX_CAPACITY n) as [Hx|Hx]; cbn [st_bind st_panic st_ret].
  { split; [apply wiped_refl|done]. }
  destruct (npt_bounds n) as [Hb1 Hb2]; [lia|]. unfold alloc_zeroed. unfold st_bind, st_ret.
  unfold makes. destruct (malloc h.(blocks) (next_power_of_two n)) as [q|] eqn:Hq; [|cbn; split; [apply wiped_refl|done]].
  apply malloc_fresh in Hq. cbn. split; [by exists []|]. split; [by rewrite zlen_zeroes by lia|]. right.
  cbn. rewrite zlen_zeroes, zeroes_app by lia. split_and!; [lia..|done|]. do 2 f_equal. lia.
Qed.

Lemma new_zeroed_makes h n : 0 <= n -> makes h.(blocks) h (new_zeroed n h) (zeroes n) (too_long n).
Proof.
  intros Hn. unfold new_zeroed. destruct (Z.eqb_spec n 0) as [->|]; [apply default_makes|].
  apply alloc_makes; [lia|done|lia].
Qed.

Lemma with_capacity_makes h n : 0 <= n -> makes h.(blocks) h (with_capacity n h) [] (too_long n).
Proof.
  intros Hn. unfold with_capacity. destruct (Z.eqb_spec n 0) as [->|]; [apply default_makes|].
  apply alloc_makes; [lia|done|lia].
Qed.

Lemma build_makes F h m f l l2 P : makes F h (m h) l P -> triple F l f (fun _ l' => l' = l2) P ->
  makes F h (build m f h) l2 P.
Proof.
  unfold build, makes, st_bind. destruct (m h) as [[v|e|] h1]; intros [Hw Hv] Hf; [|done..].
  specialize (Hf h1 v Hv). unfold sat in Hf. destruct (f (h1, v)) as [x [h2 v2]]. destruct Hf as (Hw2 & (l' & Hl' & Hx) & Hp).
  destruct x as [u|f1|]; cbn; (split; [by eapply wiped_trans|]); [by subst l'|by destruct f1|done].
Qed.

Lemma from_slice_makes h b : makes h.(blocks) h (from_slice b h) b (too_long (zlen b)).
Proof.
  pose proof (zlen_nonneg b). eapply (build_makes _ _ _ _ []); [apply default_makes|].
  eapply triple_bind; [eapply triple_weaken; [by apply resize_spec|intros a l'; exact id|by intros []]|]. intros _ l' ->.
  eapply triple_weaken; [apply store_spec; rewrite ?zlen_vec_resize by done; lia| |done].
  intros _ l' ->. rewrite ztake_0, zdrop_all by (rewrite zlen_vec_resize; lia). by rewrite app_nil_r.
Qed.

Lemma from_vec_makes h b : makes h.(blocks) h (from_vec b h) b (too_long (zlen b)).
Proof.
  pose proof (zlen_nonneg b). eapply build_makes; [by apply new_zeroed_makes|].
  eapply triple_weaken; [apply store_spec; rewrite ?zlen_zeroes by done; lia| |done].
  intros _ l' ->. rewrite ztake_0, zdrop_all by (rewrite zlen_zeroes; lia). by rewrite app_nil_r.
Qed.

Lemma deref_holds v l F (h : @Heap L) : holds v l F h.(blocks) -> deref v h = (Ok l, h).
Proof.
  intros Hv. pose proof Hv as (Hs & _). unfold deref. rewrite Hs. pose proof (zlen_nonneg l).
  destruct (Z.ltb_spec 0 v.(capacity)) as [Hc|Hc].
  - destruct (holds_block v l F _ Hv Hc) as [Hb Hl].
    rewrite (load_block _ 0 _ h _ Hb); [|done|rewrite zlen_app, zlen_zeroes; lia]. by rewrite zdrop_0, ztake_app_exact.
  - by destruct (holds_empty v l F _ Hv Hc) as [-> _].
Qed.

Lemma clone_makes v l F (h : @Heap L) : holds v l F h.(blocks) -> makes h.(blocks) h (clone v h) l (too_long (zlen l)).
Proof.
  intros Hv. unfold clone, st_bind. rewrite (deref_holds _ _ _ _ Hv).
  eapply (build_makes _ _ _ _ []); [apply default_makes|]. apply extend_spec.
Qed.

Lemma drop_holds v l F (h : @Heap L) : holds v l F h.(blocks) ->
  exists h', drop_vec v h = (Ok tt, h') /\ wiped h h' /\ h'.(blocks) = F.
Proof.
  intros Hv. unfold drop_vec. destruct (Z.ltb_spec 0 v.(capacity)) as [Hc|Hc].
  - destruct (holds_block v l F _ Hv Hc) as [Hb Hl]. pose proof Hv as (Hs & [(H0 & _)|(Hvc & _ & HF & Hblk)]); [lia|].
    pose proof (zlen_nonneg l). unfold st_bind, zeroize. rewrite Hs.
    rewrite (store_block v.(p) 0 _ h _ Hb); [|lia|rewrite zlen_app, !zlen_zeroes; lia].
    rewrite ztake_0, zlen_zeroes, zdrop_app_exact, zeroes_app by lia. cbn [app].
    unfold unlock_memory, st_mod, dealloc. cbn [blocks set_blocks set_locks].
    rewrite lookup_insert_eq, zlen_zeroes by lia. replace (zlen l + (v.(capacity) - zlen l)) with v.(capacity) by lia.
    rewrite Z.eqb_refl. eexists. split; [done|]. split.
    + eexists [_]. split; [done|]. apply Forall_singleton, all_zero_zeroes.
    + cbn. by rewrite Hblk, insert_insert_eq, delete_insert_id.
  - destruct (holds_empty v l F _ Hv Hc) as [_ HF]. eexists. split; [done|]. split; [apply wiped_refl|done].
Qed.

(** Index operations are those of the slice. *)
Lemma index_range_holds v l F (h : @Heap L) a b : holds v l F h.(blocks) ->
  index_range v a b h = ((if (a <=? b) && (b <=? zlen l) then Ok (ztake (b - a) (zdrop a l)) else Panic), h).
Proof. intros Hv. unfold index_range, st_bind. rewrite (deref_holds _ _ _ _ Hv). by case_match. Qed.
End Spec.

(** ** Programs over several vectors *)
Section Programs.
Context {A : Allocator} `{!AllocatorLaws A} {L : Type} {ML : MemoryLock L} {E : Type}.

(** The operations on the variables [0], [1], ...; a dropped one is [None]. *)
Inductive Op : Type :=
| ONew
| ONewZeroed (n : Z)
| OWithCapacity (n : Z)
| OFromSlice (b : bytes)
| OFromVec (b : bytes)
| OClone (i : nat)
| ODrop (i : nat)
| OResize (i : nat) (n : Z)
| OPush (i : nat) (x : Z)
| OExtend (i : nat) (b : bytes)
| OResizeMut (i : nat) (n : Z) (b : bytes)
| ORead (i : nat) (n : Z) (r : Reader E).

Definition World : Type := (@Heap L * list (option CryptoVec))%type.

Definition create (m : st (@Heap L) Fault CryptoVec) : st World Fault unit := fun w =>
  let '(x, h) := m w.1 in
  match x with
  | Ok v => (Ok tt, (h, w.2 ++ [Some v]))
  | Err e => (Err e, (h, w.2))
  | Panic => (Panic, (h, w.2))
  end.

Definition with_var (i : nat) (k : CryptoVec -> st World Fault unit) : st World Fault unit := fun w =>
  match w.2 !! i with Some (Some v) => k v w | _ => (Ok tt, w) end.

Definition change {X} (i : nat) (f : st (@State L) Fault X) : st World Fault unit :=
  with_var i (fun v w =>
    let '(x, (h, v)) := f (w.1, v) in (let? _ := x in Ok tt, (h, <[i := Some v]> w.2))).

Definition exec (o : Op) : st World Fault unit :=
  match o with
  | ONew => create (st_ret default_vec)
  | ONewZeroed n => create (new_zeroed n)
  | OWithCapacity n => create (with_capacity n)
  | OFromSlice b => create (from_slice b)
  | OFromVec b => create (from_vec b)
  | OClone i => with_var i (fun v => create (clone v))
  | ODrop i => with_var i (fun v w =>
      let '(x, h) := drop_vec v w.1 in (x, (h, <[i := None]> w.2)))
  | OResize i n => change i (resize n)
  | OPush i x => change i (push x)
  | OExtend i b => change i (extend b)
  | OResizeMut i n b => change i (resize_mut n b)
  | ORead i n r => change i (read n r)
  end.

Fixpoint run (ops : list Op) : st World Fault unit :=
  match ops with
  | [] => st_ret tt
  | o :: ops => exec o ;;; run ops
  end.

(** *** The same on lists of bytes *)
Definition on_var (i : nat) (f : bytes -> bytes) (ls : list (option bytes)) : list (option bytes) :=
  match ls !! i with Some (Some l) => <[i := Some (f l)]> ls | _ => ls end.

Definition spec_exec (o : Op) (ls : list (option bytes)) : list (option bytes) :=
  match o with
  | ONew | OWithCapacity _ => ls ++ [Some []]
  | ONewZeroed n => ls ++ [Some (zeroes n)]
  | OFromSlice b | OFromVec b => ls ++ [Some b]
  | OClone i => match ls !! i with Some (Some l) => ls ++ [Some l] | _ => ls end
  | ODrop i => match ls !! i with Some (Some _) => <[i := None]> ls | _ => ls end
  | OResize i n => on_var i (vec_resize n 0) ls
  | OPush i x => on_var i (fun l => l ++ [x]) ls
  | OExtend i b => on_var i (fun l => l ++ b) ls
  | OResizeMut i n b => on_var i (fun l => l ++ vec_resize n 0 b) ls
  | ORead i n r => on_var i (after_read n r) ls
  end.

Definition of_var (i : nat) (ls : list (option bytes)) (P : bytes -> Prop) : Prop :=
  match ls !! i with Some (Some l) => P l | _ => False end.

(** When an operation may panic: what it asks for does not fit into the address
    space, or the reader panics. *)
Definition spec_panics (o : Op) (ls : list (option bytes)) : Prop :=
  match o with
  | ONew | ODrop _ => False
  | ONewZeroed n | OWithCapacity n => too_long n
  | OFromSlice b | OFromVec b => too_long (zlen b)
  | OClone i => of_var i ls (fun l => too_long (zlen l))
  | OResize i n => of_var i ls (fun _ => too_long n)
  | OPush i _ => of_var i ls (fun l => too_long (zlen l + 1))
  | OExtend i b => of_var i ls (fun l => too_long (zlen l + zlen b))
  | OResizeMut i n _ => of_var i ls (fun l => too_long (zlen l + n))
  | ORead i n r => of_var i ls (read_panics n r)
  end.

Fixpoint spec_run (ops : list Op) (ls : list (option bytes)) : list (option bytes) :=
  match ops with [] => ls | o :: ops => spec_run ops (spec_exec o ls) end.
Fixpoint some_panics (ops : list Op) (ls : list (option bytes)) : Prop :=
  match ops with [] => False | o :: ops => spec_panics o ls \/ some_panics ops (spec_exec o ls) end.

(** [usize] arguments are not negative. *)
Definition valid (o : Op) : Prop :=
  match o with
  | ONewZeroed n | OWithCapacity n | OResize _ n | OResizeMut _ n _ => 0 <= n
  | ORead _ n r => 0 <= n /\ match r.(answers) with Ok k => 0 <= k | _ => True end
  | _ => True
  end.

(** *** Variables and blocks *)

(** The variables hold these bytes, each in a block of its own, and there are no
    other blocks. *)
Fixpoint represents (vs : list (option CryptoVec)) (ls : list (option bytes)) (b : gmap Z bytes) : Prop :=
  match vs, ls with
  | [], [] => b = ∅
  | Some v :: vs, Some l :: ls => exists F, holds v l F b /\ represents vs ls F
  | None :: vs, None :: ls => represents vs ls b
  | _, _ => False
  end.

Lemma holds_swap v1 l1 v2 l2 b F1 F2 : holds v1 l1 F1 b -> holds v2 l2 F2 F1 ->
  exists G, holds v2 l2 G b /\ holds v1 l1 F2 G.
Proof.
  intros (S1 & [(C1 & -> & ->)|(C1 & L1 & N1 & ->)]) (S2 & H2).
  - exists F2. split; [by split|]. split; [done|]. by left.
  - destruct H2 as [(C2 & -> & ->)|(C2 & L2 & N2 & ->)].
    + eexists. split; [split; [done|by left]|]. split; [done|]. by right.
    + assert (v1.(p) <> v2.(p)) by (intros Hp; rewrite Hp, lookup_insert_eq in N1; done).
      rewrite lookup_insert_ne in N1 by done. exists (<[v1.(p) := l1 ++ zeroes (v1.(capacity) - zlen l1)]> F2).
      split; split; try done; right; split_and!; try done; try lia.
      * by rewrite lookup_insert_ne.
      * by rewrite insert_insert_ne.
Qed.

Lemma represents_app v l vs : forall ls b b', represents vs ls b -> holds v l b b' ->
  represents (vs ++ [Some v]) (ls ++ [Some l]) b'.
Proof.
  induction vs as [|[v0|] vs IH]; intros [|[l0|] ls] b b' Hr Hv; cbn in *; try done.
  - subst b. by exists ∅.
  - destruct Hr as (F & H0 & Hr). destruct (holds_swap _ _ _ _ _ _ _ Hv H0) as (G & HG & HG2). exists G.
    split; [done|]. by apply (IH ls F).
  - by apply (IH ls b).
Qed.

(** One variable taken out. *)
Lemma represents_focus i : forall vs ls b v, represents vs ls b -> vs !! i = Some (Some v) ->
  exists l F, ls !! i = Some (Some l) /\ holds v l F b /\ represents (<[i := None]> vs) (<[i := None]> ls) F /\
    forall v' l' b', holds v' l' F b' -> represents (<[i := Some v']> vs) (<[i := Some l']> ls) b'.
Proof.
  induction i as [|i IH]; intros [|[v0|] vs] [|[l0|] ls] b v Hr Hi; try done; cbn in Hr.
  - destruct Hr as (F & H0 & Hr). injection Hi as ->. exists l0, F. split_and!; [done..|].
    intros v' l' b' Hv'. cbn. by exists F.
  - destruct Hr as (F & H0 & Hr). destruct (IH vs ls F v Hr Hi) as (l & G & Hl & Hv & Hn & Hs).
    destruct (holds_swap _ _ _ _ _ _ _ H0 Hv) as (K & HK & HK0). exists l, K. split_and!; [done|done|by exists G|].
    intros v' l' b' Hv'. destruct (holds_swap _ _ _ _ _ _ _ Hv' HK0) as (M & HM & HM'). cbn. exists M.
    split; [done|]. by apply Hs.
  - destruct (IH vs ls b v Hr Hi) as (l & G & Hl & Hv & Hn & Hs). exists l, G. by split_and!.
Qed.

Lemma represents_absent i : forall vs ls b, represents vs ls b -> (forall v, vs !! i <> Some (Some v)) ->
  forall l, ls !! i <> Some (Some l).
Proof.
  induction i as [|i IH]; intros [|[v0|] vs] [|[l0|] ls] b Hr Hi l; try done; cbn in Hr.
  - by destruct (Hi v0).
  - destruct Hr as (F & _ & Hr). exact (IH vs ls F Hr Hi l).
  - exact (IH vs ls b Hr Hi l).
Qed.

(** The outcome of a part of a program that began with the heap [h]. *)
Definition runs_to (h : @Heap L) (r : res Fault unit * World) (ls : list (option bytes)) (P : Prop) : Prop :=
  let '(x, (h', vs')) := r in
  wiped h h' /\
  match x with
  | Ok _ => represents vs' ls h'.(blocks)
  | Err UB => False
  | Err OutOfMemory => True
  | Panic => P
  end.

Lemma create_spec (m : st Heap Fault CryptoVec) w ls l P : represents w.2 ls w.1.(blocks) ->
  makes w.1.(blocks) w.1 (m w.1) l P -> runs_to w.1 (create m w) (ls ++ [Some l]) P.
Proof.
  unfold create, makes. destruct (m w.1) as [[v|f|] h']; intros Hr [Hw Hv]; split; try done. by eapply represents_app.
Qed.

Lemma with_var_spec i (k : CryptoVec -> st World Fault unit) w ls ls' (P : bytes -> Prop) :
  represents w.2 ls w.1.(blocks) ->
  (forall l, ls !! i <> Some (Some l)) \/
  (forall v l F, w.2 !! i = Some (Some v) -> ls !! i = Some (Some l) -> holds v l F w.1.(blocks) ->
    represents (<[i := None]> w.2) (<[i := None]> ls) F ->
    (forall v' l' b', holds v' l' F b' -> represents (<[i := Some v']> w.2) (<[i := Some l']> ls) b') ->
    runs_to w.1 (k v w) (ls' l) (P l)) ->
  runs_to w.1 (with_var i k w) (match ls !! i with Some (Some l) => ls' l | _ => ls end) (of_var i ls P).
Proof.
  intros Hr Hk. unfold with_var, of_var.
  assert (Hno : (forall v, w.2 !! i <> Some (Some v)) -> runs_to w.1 (Ok tt, w)
    (match ls !! i with Some (Some l) => ls' l | _ => ls end)
    (match ls !! i with Some (Some l) => P l | _ => False end)).
  { intros Hv. pose proof (represents_absent i _ _ _ Hr Hv) as Hl. destruct w as [h vs]. split; [apply wiped_refl|].
    destruct (ls !! i) as [[l|]|] eqn:Hi; [by destruct (Hl l)|done..]. }
  destruct (w.2 !! i) as [[v|]|] eqn:Hi; [|by apply Hno..].
  destruct (represents_focus i _ _ _ v Hr Hi) as (l & F & Hl & Hv & Hn & Hs). rewrite Hl.
  destruct Hk as [Hk|Hk]; [by destruct (Hk l)|]. by eapply Hk.
Qed.

Lemma change_spec {X} i (f : st State Fault X) g w ls (P : bytes -> Prop) :
  represents w.2 ls w.1.(blocks) -> (forall F l, triple F l f (fun _ l' => l' = g l) (P l)) ->
  runs_to w.1 (change i f w) (on_var i g ls) (of_var i ls P).
Proof.
  intros Hr Hf. apply (with_var_spec i _ w ls (fun l => <[i := Some (g l)]> ls) P Hr). right.
  intros v l F _ _ Hv _ Hs. specialize (Hf F l w.1 v Hv). unfold sat in Hf.
  destruct (f (w.1, v)) as [x [h' v']]. destruct Hf as (Hw & (l' & Hl' & Hx) & Hp).
  split; [done|]. destruct x as [u|e|]; cbn; [subst l'; by apply Hs|by destruct e|done].
Qed.

Lemma exec_spec o w ls : valid o -> represents w.2 ls w.1.(blocks) ->
  runs_to w.1 (exec o w) (spec_exec o ls) (spec_panics o ls).
Proof.
  intros Hok Hr. destruct o as [|n|n|b|b|i|i|i n|i x|i b|i n b|i n r]; cbn [exec spec_exec spec_panics valid] in *.
  - apply create_spec; [done|apply default_makes].
  - apply create_spec; [done|by apply new_zeroed_makes].
  - apply create_spec; [done|by apply with_capacity_makes].
  - apply create_spec; [done|apply from_slice_makes].
  - apply create_spec; [done|apply from_vec_makes].
  - apply (with_var_spec i _ w ls (fun l => ls ++ [Some l]) (fun l => too_long (zlen l)) Hr). right.
    intros v l F _ _ Hv _ _. apply create_spec; [done|by eapply clone_makes].
  - pose proof (with_var_spec i (fun v w => let '(x, h) := drop_vec v w.1 in (x, (h, <[i := None]> w.2)))
      w ls (fun _ => <[i := None]> ls) (fun _ => False) Hr) as H.
    assert (Hf : of_var i ls (fun _ => False) -> False) by (unfold of_var; by repeat case_match).
    match goal with |- runs_to ?h ?r ?l _ => assert (Hg : runs_to h r l (of_var i ls (fun _ => False))) end.
    { apply H. right. intros v l F _ _ Hv Hn _. destruct (drop_holds v l F w.1 Hv) as (h' & -> & Hw & Hb).
      split; [done|]. by rewrite Hb. }
    unfold runs_to in *. destruct (with_var _ _ _) as [x [h' vs']]. destruct Hg as [Hw Hx]. split; [done|].
    destruct x as [|[]|]; auto.
  - apply change_spec; [done|]. intros F l. eapply triple_weaken; [by apply resize_spec|done|by intros []].
  - apply change_spec; [done|]. intros F l. apply push_spec.
  - apply change_spec; [done|]. intros F l. apply extend_spec.
  - apply change_spec; [done|]. intros F l. by apply resize_mut_spec.
  - apply change_spec; [done|]. intros F l. destruct Hok. eapply triple_weaken; [by apply vec_read_spec|by intros ? ? []|done].
Qed.

Lemma run_spec ops : forall w ls, Forall valid ops -> represents w.2 ls w.1.(blocks) ->
  runs_to w.1 (run ops w) (spec_run ops ls) (some_panics ops ls).
Proof.
  induction ops as [|o ops IH]; intros w ls Hok Hr; cbn [run spec_run some_panics].
  - destruct w as [h vs]. split; [apply wiped_refl|done].
  - apply Forall_cons_iff in Hok as [Ho Hok]. pose proof (exec_spec o w ls Ho Hr) as H. unfold st_bind.
    destruct (exec o w) as [[u|e|] w1]; destruct w1 as [h1 vs1]; destruct H as [Hw H].
    + pose proof (IH (h1, vs1) _ Hok H) as H2. unfold runs_to in *. destruct (run ops (h1, vs1)) as [x [h2 vs2]].
      destruct H2 as [Hw2 H2]. cbn [fst snd] in *. split; [by eapply wiped_trans|]. destruct x as [|[]|]; auto.
    + split; [done|]. by destruct e.
    + split; [done|]. by left.
Qed.

Definition empty_heap (l : L) : @Heap L := mkHeap ∅ [] l.

(** C28. Whatever a program does with vectors for secrets - make, copy, drop, resize,
    write and read them, in any order, under any allocator and whether memory can be
    locked or not - it accesses no memory outside of its blocks, every vector holds
    what the same operations on lists give, each in a block of its own, and no other
    memory is in use; it panics only where an operation asks for more than the
    address space or its reader panics. *)
Theorem cryptovec_refines ops l : Forall valid ops ->
  match run ops (empty_heap l, []) with
  | (Ok _, (h, vs)) => represents vs (spec_run ops []) h.(blocks)
  | (Err UB, _) => False
  | (Err OutOfMemory, _) => True
  | (Panic, _) => some_panics ops []
  end.
Proof.
  intros Hok. pose proof (run_spec ops (empty_heap l, []) [] Hok eq_refl) as H. unfold runs_to in H.
  destruct (run ops (empty_heap l, [])) as [[u|e|] [h vs]]; by destruct H.
Qed.

(** C27. No secret is left in memory that is given back: every block that such a
    program has returned to the allocator, at any time and also when it failed later,
    was full of zeros. *)
Theorem freed_memory_wiped ops l : Forall valid ops ->
  Forall all_zero (run ops (empty_heap l, [])).2.1.(freed).
Proof.
  intros Hok. pose proof (run_spec ops (empty_heap l, []) [] Hok eq_refl) as H. unfold runs_to in H.
  destruct (run ops (empty_heap l, [])) as [x [h vs]]. destruct H as [(new & Hf & Hz) _]. cbn in *.
  by rewrite Hf, app_nil_r.
Qed.
End Programs.

(** On WebAssembly there is nothing to lock ([platform/wasm.rs]). *)
Definition wasm : MemoryLock unit := {| mlock _ _ l := (Ok tt, l); munlock _ _ l := (Ok tt, l) |}.

Module Example.
#[local] Existing Instance wasm.
#[local] Instance fresh_allocator : Allocator := {| malloc b n := Some (fresh (dom b)) |}.
#[local] Instance fresh_allocator_laws : AllocatorLaws fresh_allocator.
Proof. split. intros b n p [= <-]. apply not_elem_of_dom, is_fresh. Qed.

(** The second vector is a copy of the secret of the first, which is cut and
    refilled. *)
Definition ops : list (@Op unit) :=
  [OFromSlice [1; 2; 3]; OExtend 0 [4; 5]; OClone 0; OResize 0 2; OResize 0 4; ODrop 1;
   ORead 0 3 (mkReader (fun _ => [9; 9; 9]) (Ok 2))].

Lemma ops_valid : Forall valid ops.
Proof. repeat constructor; vm_compute; congruence. Qed.

Lemma cryptovec_refines_witness :
  match run ops (empty_heap tt, []) with
  | (Ok _, (h, vs)) => represents vs [Some [1; 2; 0; 0; 9; 9]; None] h.(blocks)
  | _ => False
  end.
Proof.
  pose proof (cryptovec_refines ops tt ops_valid) as H. destruct (run ops (empty_heap tt, [])) as [[u|e|] [h vs]] eqn:Hr.
  - exact H.
  - vm_compute in Hr. discriminate Hr.
  - vm_compute in Hr. discriminate Hr.
Defined.

Lemma freed_memory_wiped_witness :
  Forall all_zero (run ops (empty_heap tt, [])).2.1.(freed) /\
  map zlen (run ops (empty_heap tt, [])).2.1.(freed) = [8; 4].
Proof. split; [exact (freed_memory_wiped ops tt ops_valid)|vm_compute; reflexivity]. Defined.
End Example.
