(* ===== verification/MemoryLock.v ===== *)
(** * Locking pages in memory ([cryptovec/src/platform/windows.rs], [unix.rs])

    A table counts for every page how many buffers lie on it, since the system
    does not nest its locks.  The lock around the table, which only one thread
    holds at a time, is never poisoned: nothing panics while it is held. *)

From stdpp Require Import base list numbers option gmap.
From Stdlib Require Import ZArith Lia.
From S2P Require Import Prelude CryptoVec.

(** ** The system, in a state [W] *)
Class Win32 (W : Type) : Type := {
  page_size : Z;
  (** whether the call succeeded *)
  VirtualLock : Z -> Z -> W -> bool * W;
  VirtualUnlock : Z -> Z -> W -> bool * W;
  GetLastError : W -> Z;
  GetProcessWorkingSetSizeEx : W -> option (Z * Z * Z);
  SetProcessWorkingSetSizeEx : Z -> Z -> Z -> W -> bool * W;
}.

Section MemoryLock.
Context {W : Type} {OS : Win32 W}.

Record Locks : Type := mkLocks { locked_pages : gmap Z Z; os : W }.
Definition set_locked_pages (m : gmap Z Z) (t : Locks) : Locks := mkLocks m t.(os).
Definition set_os (w : W) (t : Locks) : Locks := mkLocks t.(locked_pages) w.

Definition MAX_LOCKED_PAGES : Z := 256.
Definition ERROR_WORKING_SET_QUOTA : Z := 0x5ad.
Definition KNOWN_WS_FLAGS : Z := Z.lor (Z.lor (Z.lor 0x01 0x02) 0x04) 0x08.

(** The text of a [MemoryLockError] is not kept. *)
Abbreviation M A := (st Locks unit A).

Definition sys {A} (f : W -> A * W) : M A := fun t => let '(a, w) := f t.(os) in (Ok a, set_os w t).
Definition ask {A} (f : W -> A) : M A := fun t => (Ok (f t.(os)), t).

Definition checked_mul (x y : Z) : option Z := if x * y <=? USIZE_MAX then Some (x * y) else None.

Definition get_page_range (ptr len : Z) : res unit (Z * Z) :=
  let start := ptr / page_size in
  if len =? 0 then Ok (start, start)
  else if USIZE_MAX <? ptr + len then Panic
  else Ok (start, (ptr + len - 1) / page_size + 1).

Definition grow_working_set : M unit :=
  do sizes <- ask GetProcessWorkingSetSizeEx ;;
  match sizes with
  | None => st_err tt
  | Some (min_ws, max_ws, flags) =>
      let new_min := saturating_add min_ws page_size in
      let new_max := Z.max max_ws (saturating_add new_min page_size) in
      let safe_flags := Z.land flags KNOWN_WS_FLAGS in
      do ok <- sys (SetProcessWorkingSetSizeEx new_min new_max safe_flags) ;;
      if ok then st_ret tt else st_err tt
  end.

Definition lock_page (page_idx current_locked_count : Z) : M unit :=
  if MAX_LOCKED_PAGES <=? current_locked_count then st_err tt
  else
    do addr <- st_lift (ok_or (checked_mul page_idx page_size) tt) ;;
    do ok <- sys (VirtualLock addr page_size) ;;
    if ok : bool then st_ret tt
    else
      do err <- ask GetLastError ;;
      if negb (err =? ERROR_WORKING_SET_QUOTA) then st_err tt
      else
        grow_working_set ;;;
        do ok <- sys (VirtualLock addr page_size) ;;
        if ok : bool then st_ret tt else st_err tt.

Definition unlock_page (page_idx : Z) : M unit :=
  do addr <- st_lift (ok_or (checked_mul page_idx page_size) tt) ;;
  do ok <- sys (VirtualUnlock addr page_size) ;;
  if ok : bool then st_ret tt else st_err tt.

(** [let _ = m]. *)
Definition ignore {A} (m : M A) : M unit := fun t =>
  match m t with (Panic, t) => (Panic, t) | (_, t) => (Ok tt, t) end.

Fixpoint unbump (ps : list Z) : M unit :=
  match ps with
  | [] => st_ret tt
  | p :: ps =>
      st_mod (fun t => match t.(locked_pages) !! p with
                       | Some n => set_locked_pages (<[p := n - 1]> t.(locked_pages)) t
                       | None => t
                       end) ;;;
      unbump ps
  end.
Fixpoint unlock_new (ps : list Z) : M unit :=
  match ps with
  | [] => st_ret tt
  | p :: ps =>
      st_mod (fun t => set_locked_pages (delete p t.(locked_pages)) t) ;;;
      ignore (unlock_page p) ;;;
      unlock_new ps
  end.

Fixpoint lock_pages (pages newly_locked refcount_bumped : list Z) : M unit :=
  match pages with
  | [] => st_ret tt
  | page_idx :: pages =>
      do t <- st_get ;;
      let count := Z.of_nat (base.size t.(locked_pages)) in
      match t.(locked_pages) !! page_idx with
      | Some n =>
          st_mod (set_locked_pages (<[page_idx := n + 1]> t.(locked_pages))) ;;;
          lock_pages pages newly_locked (refcount_bumped ++ [page_idx])
      | None => fun t =>
          match lock_page page_idx count t with
          | (Ok _, t) =>
              (st_mod (fun t => set_locked_pages (<[page_idx := 1]> t.(locked_pages)) t) ;;;
               lock_pages pages (newly_locked ++ [page_idx]) refcount_bumped) t
          | (Err e, t) => (unbump refcount_bumped ;;; unlock_new newly_locked ;;; st_err e) t
          | (Panic, t) => (Panic, t)
          end
      end
  end.

Definition pages_of (range : Z * Z) : list Z := seqZ range.1 (range.2 - range.1).

Definition mlock (ptr len : Z) : M unit :=
  do page_range <- st_lift (get_page_range ptr len) ;;
  lock_pages (pages_of page_range) [] [].

Fixpoint unlock_pages (pages : list Z) : M unit :=
  match pages with
  | [] => st_ret tt
  | page_idx :: pages =>
      do t <- st_get ;;
      match t.(locked_pages) !! page_idx with
      | Some n =>
          (if n - 1 =? 0 then
             st_mod (set_locked_pages (delete page_idx t.(locked_pages))) ;;; unlock_page page_idx
           else st_mod (set_locked_pages (<[page_idx := n - 1]> t.(locked_pages)))) ;;;
          unlock_pages pages
      | None => st_err tt
      end
  end.

Definition munlock (ptr len : Z) : M unit :=
  do page_range <- st_lift (get_page_range ptr len) ;;
  unlock_pages (pages_of page_range).

(** The platform of the vectors. *)
#[global] Instance windows : MemoryLock Locks := {| CryptoVec.mlock := mlock; CryptoVec.munlock := munlock |}.
End MemoryLock.

(** ** What is locked *)

(** The pages that the system keeps in memory. *)
Class Win32Laws {W : Type} (OS : Win32 W) : Type := {
  resident : W -> gset Z;
  page_size_pos : 0 < page_size;
  lock_resident p w : let '(ok, w') := VirtualLock (p * page_size) page_size w in
    resident w' = (if ok then {[p]} ∪ resident w else resident w);
  unlock_resident p w : p ∈ resident w -> let '(ok, w') := VirtualUnlock (p * page_size) page_size w in
    ok = true /\ resident w' = resident w ∖ {[p]};
  working_set_resident a b c w : resident (SetProcessWorkingSetSizeEx a b c w).2 = resident w;
}.

Section Counting.
Context {W : Type} {OS : Win32 W} {OL : Win32Laws OS}.

(** The table has the pages with a positive number, and these are the ones locked. *)
Definition counted (f : Z -> Z) (m : gmap Z Z) : Prop := forall p, m !! p = if f p =? 0 then None else Some (f p).
Definition consistent (t : @Locks W) : Prop :=
  resident t.(os) = dom t.(locked_pages) /\ Z.of_nat (base.size t.(locked_pages)) <= MAX_LOCKED_PAGES.

Definition bump (f : Z -> Z) (ps : list Z) (p : Z) : Z := f p + (if decide (p ∈ ps) then 1 else 0).

Lemma counted_ext f g m : counted f m -> (forall p, f p = g p) -> counted g m.
Proof. intros H Hfg p. by rewrite <- Hfg. Qed.
Lemma counted_eq f m m' : counted f m -> counted f m' -> m = m'.
Proof. intros H H'. apply map_eq. intros p. by rewrite H, H'. Qed.

Lemma counted_insert f g m p : counted f m -> g p <> 0 -> (forall q, q <> p -> g q = f q) -> counted g (<[p := g p]> m).
Proof.
  intros H Hp Hg q. destruct (decide (q = p)) as [->|Hq].
  - rewrite lookup_insert_eq. by destruct (Z.eqb_spec (g p) 0).
  - rewrite lookup_insert_ne by done. by rewrite H, Hg.
Qed.
Lemma counted_delete f g m p : counted f m -> g p = 0 -> (forall q, q <> p -> g q = f q) -> counted g (delete p m).
Proof.
  intros H Hp Hg q. destruct (decide (q = p)) as [->|Hq].
  - by rewrite lookup_delete_eq, Hp.
  - rewrite lookup_delete_ne by done. by rewrite H, Hg.
Qed.

Lemma bump_nil f p : bump f [] p = f p.
Proof. unfold bump. rewrite decide_False by apply not_elem_of_nil. lia. Qed.
Lemma bump_in f ps p : p ∈ ps -> bump f ps p = f p + 1.
Proof. intros H. unfold bump. by rewrite decide_True. Qed.
Lemma bump_notin f ps p : p ∉ ps -> bump f ps p = f p.
Proof. intros H. unfold bump. rewrite decide_False by done. lia. Qed.
Lemma bump_ext f ps ps' : (forall p, p ∈ ps <-> p ∈ ps') -> forall p, bump f ps p = bump f ps' p.
Proof. intros H p. unfold bump. f_equal. by rewrite (decide_ext _ _ _ _ (H p)). Qed.
(** Away from one page two lists agree. *)
Lemma bump_other f ps ps' p : (forall q, q <> p -> (q ∈ ps <-> q ∈ ps')) -> forall q, q <> p -> bump f ps q = bump f ps' q.
Proof. intros H q Hq. unfold bump. f_equal. by rewrite (decide_ext _ _ _ _ (H q Hq)). Qed.

(** *** One page *)
Lemma lock_page_spec p count (t : @Locks W) : p * page_size <= USIZE_MAX ->
  let '(x, t') := lock_page p count t in
  t'.(locked_pages) = t.(locked_pages) /\
  match x with
  | Ok _ => resident t'.(os) = {[p]} ∪ resident t.(os) /\ count < MAX_LOCKED_PAGES
  | Err _ => resident t'.(os) = resident t.(os)
  | Panic => False
  end.
Proof.
  intros Hp. unfold lock_page. destruct (Z.leb_spec MAX_LOCKED_PAGES count); [done|].
  unfold checked_mul. replace (p * page_size <=? USIZE_MAX) with true by lia.
  unfold st_bind, st_lift, sys, ask. cbn [ok_or]. pose proof (lock_resident p t.(os)) as H1.
  destruct (VirtualLock _ _ t.(os)) as [[] w1]; [cbn; by split_and!|]. cbn [os set_os].
  destruct (negb _); [cbn; by split_and!|]. unfold grow_working_set, st_bind, sys, ask. cbn [os set_os fst snd].
  destruct (GetProcessWorkingSetSizeEx w1) as [[[mn mx] fl]|]; [|cbn; by split_and!]. cbv zeta. cbn [os set_os].
  match goal with |- context [SetProcessWorkingSetSizeEx ?a ?b ?c w1] =>
    pose proof (working_set_resident a b c w1) as H2; destruct (SetProcessWorkingSetSizeEx a b c w1) as [[] w2] end;
    cbn in H2 |- *; [|split; [done|]; by rewrite H2].
  pose proof (lock_resident p w2) as H3. destruct (VirtualLock _ _ w2) as [[] w3]; cbn; rewrite H3, H2, H1; by split_and!.
Qed.

Lemma unlock_page_spec p (t : @Locks W) : p * page_size <= USIZE_MAX -> p ∈ resident t.(os) ->
  exists w, unlock_page p t = (Ok tt, set_os w t) /\ resident w = resident t.(os) ∖ {[p]}.
Proof.
  intros Hp Hr. unfold unlock_page, checked_mul. replace (p * page_size <=? USIZE_MAX) with true by lia.
  unfold st_bind, st_lift, sys. cbn [ok_or]. pose proof (unlock_resident p t.(os) Hr) as H1. destruct (VirtualUnlock _ _ _) as [ok w1].
  destruct H1 as [-> H1]. cbn. by exists w1.
Qed.

(** *** Rolling back *)
Lemma unbump_spec f newly ps : forall t : @Locks W, NoDup ps -> (forall p, p ∈ ps -> (p ∉ newly) /\ f p <> 0) -> (forall p, 0 <= f p) ->
  counted (bump f (newly ++ ps)) t.(locked_pages) ->
  exists m, unbump ps t = (Ok tt, set_locked_pages m t) /\ counted (bump f newly) m /\ dom m = dom t.(locked_pages).
Proof.
  induction ps as [|p ps IH]; intros t Hnd Hps Hf Hc; cbn [unbump].
  - exists t.(locked_pages). rewrite app_nil_r in Hc. split; [by destruct t|done].
  - apply NoDup_cons in Hnd as [Hp Hnd]. destruct (Hps p) as [Hnew Hfp]; [by left|]. specialize (Hf p) as Hf0.
    cbn. rewrite Hc, bump_in by set_solver. destruct (Z.eqb_spec (f p + 1) 0) as [?|_]; [lia|].
    replace (f p + 1 - 1) with (bump f (newly ++ ps) p) by (rewrite bump_notin by set_solver; lia).
    edestruct (IH (set_locked_pages (<[p := bump f (newly ++ ps) p]> t.(locked_pages)) t)) as (m & Hm & Hcm & Hd); try done.
    + intros q Hq. apply Hps. by right.
    + eapply counted_insert; [exact Hc|rewrite bump_notin by set_solver; lia|].
      apply bump_other. set_solver.
    + exists m. split; [exact Hm|]. split; [done|]. rewrite Hd. cbn. rewrite dom_insert_lookup_L; [done|].
      rewrite Hc, bump_in by set_solver. destruct (Z.eqb_spec (f p + 1) 0); [lia|by eexists].
Qed.

Lemma unlock_new_spec f ps : forall t : @Locks W, NoDup ps -> (forall p, p ∈ ps -> f p = 0 /\ p * page_size <= USIZE_MAX) ->
  counted (bump f ps) t.(locked_pages) -> resident t.(os) = dom t.(locked_pages) ->
  exists t', unlock_new ps t = (Ok tt, t') /\ counted f t'.(locked_pages) /\ resident t'.(os) = dom t'.(locked_pages).
Proof.
  induction ps as [|p ps IH]; intros t Hnd Hps Hc Hr; cbn [unlock_new].
  - exists t. split; [done|]. split; [|done]. eapply counted_ext; [exact Hc|apply bump_nil].
  - apply NoDup_cons in Hnd as [Hp Hnd]. destruct (Hps p) as [Hfp Hsz]; [by left|]. unfold st_bind, st_mod, ignore.
    set (t1 := set_locked_pages _ t).
    assert (Hin : p ∈ resident t1.(os)).
    { cbn. rewrite Hr. apply elem_of_dom. rewrite Hc, bump_in by set_solver. rewrite Hfp. by eexists. }
    destruct (unlock_page_spec p t1 Hsz Hin) as (w & -> & Hw).
    apply (IH (set_os w t1)); [done|intros q Hq; apply Hps; by right| |].
    + cbn. eapply counted_delete; [exact Hc|by rewrite bump_notin by set_solver|]. apply bump_other. set_solver.
    + cbn. rewrite Hw. cbn. by rewrite Hr, dom_delete_L.
Qed.

(** *** A range of pages *)
Definition fits (p : Z) : Prop := p * page_size <= USIZE_MAX.

Lemma lock_pages_spec f m0 pages : (forall p, 0 <= f p) -> counted f m0 -> Z.of_nat (base.size m0) <= MAX_LOCKED_PAGES ->
  forall newly bumped (t : @Locks W),
  NoDup (newly ++ bumped ++ pages) -> (forall p, p ∈ newly -> f p = 0) -> (forall p, p ∈ bumped -> f p <> 0) ->
  (forall p, p ∈ newly ++ pages -> fits p) -> counted (bump f (newly ++ bumped)) t.(locked_pages) -> consistent t ->
  let '(x, t') := lock_pages pages newly bumped t in
  consistent t' /\
  match x with
  | Ok _ => counted (bump f (newly ++ bumped ++ pages)) t'.(locked_pages)
  | Err _ => counted f t'.(locked_pages)
  | Panic => False
  end.
Proof.
  intros Hf Hm0 Hs0. induction pages as [|p pages IH]; intros newly bumped t Hnd Hnew Hbump Hsz Hc [Hr Hs]; cbn [lock_pages].
  { by rewrite !app_nil_r in *. }
  assert (Hp : (p ∉ newly ++ bumped) /\ (p ∉ pages)).
  { rewrite app_assoc in Hnd. apply NoDup_app in Hnd as (_ & Hd & Hn). apply NoDup_cons in Hn as [Hn _].
    split; [|done]. intros Hi. apply (Hd p Hi). by left. }
  destruct Hp as [Hp Hpp]. pose proof (Hc p) as Hlook. rewrite bump_notin in Hlook by done.
  unfold st_bind at 1, st_get. destruct (Z.eqb_spec (f p) 0) as [Hfp|Hfp]; rewrite Hlook.
  - pose proof (lock_page_spec p (Z.of_nat (base.size t.(locked_pages))) t (Hsz p ltac:(set_solver))) as Hl.
    destruct (lock_page p _ t) as [[u|e|] t1]; destruct Hl as [Hlp Hres]; [|clear IH|done].
    + destruct Hres as [Hres Hlt]. unfold st_bind, st_mod.
      specialize (IH (newly ++ [p]) bumped (set_locked_pages (<[p:=1]> t1.(locked_pages)) t1)).
      destruct (lock_pages _ _ _ _) as [x t2]. destruct IH as [Hcon Hx].
      * rewrite <- app_assoc. cbn. by rewrite (Permutation_middle bumped pages p).
      * intros q. rewrite elem_of_app, list_elem_of_singleton. intros [?| ->]; auto.
      * done.
      * intros q Hq. apply Hsz. set_solver.
      * cbn. rewrite Hlp. replace 1 with (bump f ((newly ++ [p]) ++ bumped) p) by (rewrite bump_in by set_solver; lia).
        eapply counted_insert; [exact Hc|rewrite bump_in by set_solver; lia|]. apply bump_other. set_solver.
      * split; cbn; rewrite Hlp; [by rewrite Hres, Hr, dom_insert_L|]. rewrite map_size_insert_None by done. lia.
      * split; [done|]. destruct x; [|done..]. eapply counted_ext; [exact Hx|]. apply bump_ext. set_solver.
    + assert (Hnd' : NoDup newly /\ NoDup bumped).
      { apply NoDup_app in Hnd as (? & _ & Hnd). apply NoDup_app in Hnd as (? & _ & _). done. }
      destruct Hnd' as [Hnd1 Hnd2].
      destruct (unbump_spec f newly bumped t1) as (m & Hm & Hcm & Hd); [done| |done|by rewrite Hlp|].
      { intros q Hq. split; [|by apply Hbump]. intros Hq'. by destruct (Hbump q Hq), (Hnew q Hq'). }
      unfold st_bind. rewrite Hm.
      destruct (unlock_new_spec f newly (set_locked_pages m t1)) as (t2 & -> & Hc2 & Hr2); [done| |done| |].
      { intros q Hq. split; [by apply Hnew|]. apply Hsz. set_solver. }
      { cbn. by rewrite Hres, Hd, Hlp, Hr. }
      cbn. split; [|done]. split; [done|]. by rewrite (counted_eq f _ _ Hc2 Hm0).
  - unfold st_bind, st_mod.
    specialize (IH newly (bumped ++ [p]) (set_locked_pages (<[p:=f p + 1]> t.(locked_pages)) t)).
    destruct (lock_pages _ _ _ _) as [x t2]. destruct IH as [Hcon Hx].
    + by rewrite <- app_assoc.
    + done.
    + intros q. rewrite elem_of_app, list_elem_of_singleton. intros [?| ->]; auto.
    + intros q Hq. apply Hsz. set_solver.
    + cbn. replace (f p + 1) with (bump f (newly ++ bumped ++ [p]) p) by (rewrite bump_in by set_solver; lia).
      specialize (Hf p). eapply counted_insert; [exact Hc|rewrite bump_in by set_solver; lia|]. apply bump_other. set_solver.
    + split; cbn; [rewrite dom_insert_lookup_L by (by rewrite Hlook); done|]. rewrite map_size_insert_Some by (by rewrite Hlook). done.
    + split; [done|]. destruct x; [|done..]. eapply counted_ext; [exact Hx|]. apply bump_ext. set_solver.
Qed.

Lemma unlock_pages_spec f pages : NoDup pages -> (forall p, 0 <= f p) ->
  forall t : @Locks W, (forall p, p ∈ pages -> fits p) -> counted (bump f pages) t.(locked_pages) -> consistent t ->
  exists t', unlock_pages pages t = (Ok tt, t') /\ consistent t' /\ counted f t'.(locked_pages).
Proof.
  intros Hnd Hf. induction pages as [|p pages IH]; intros t Hsz Hc [Hr Hs]; cbn [unlock_pages].
  { exists t. split; [done|]. split; [done|]. eapply counted_ext; [exact Hc|apply bump_nil]. }
  apply NoDup_cons in Hnd as [Hp Hnd]. specialize (IH Hnd). specialize (Hf p) as Hf0.
  pose proof (Hc p) as Hlook. rewrite bump_in in Hlook by set_solver.
  destruct (Z.eqb_spec (f p + 1) 0) as [?|_]; [lia|]. unfold st_bind at 1, st_get. rewrite Hlook.
  assert (Hoth : forall q, q <> p -> bump f pages q = bump f (p :: pages) q) by (apply bump_other; set_solver).
  destruct (Z.eqb_spec (f p + 1 - 1) 0) as [Hz|Hz].
  - unfold st_bind, st_mod. set (t1 := set_locked_pages _ t).
    assert (Hin : p ∈ resident t1.(os)) by (cbn; rewrite Hr; apply elem_of_dom; by rewrite Hlook).
    destruct (unlock_page_spec p t1 (Hsz p ltac:(set_solver)) Hin) as (w & -> & Hw).
    apply (IH (set_os w t1)); [intros q Hq; apply Hsz; by right| |split].
    + cbn. eapply counted_delete; [exact Hc|rewrite bump_notin by done; lia|done].
    + cbn. rewrite Hw. cbn. by rewrite Hr, dom_delete_L.
    + cbn. rewrite map_size_delete_Some by (by rewrite Hlook). lia.
  - unfold st_bind, st_mod. apply IH; [intros q Hq; apply Hsz; by right| |split].
    + cbn. replace (f p + 1 - 1) with (bump f pages p) by (rewrite bump_notin by done; lia).
      eapply counted_insert; [exact Hc|rewrite bump_notin by done; lia|done].
    + cbn. rewrite dom_insert_lookup_L by (by rewrite Hlook). done.
    + cbn. rewrite map_size_insert_Some by (by rewrite Hlook). done.
Qed.

(** *** Calls in pairs *)

(** A buffer in the address space. *)
Definition in_memory (r : Z * Z) : Prop := 0 <= r.1 /\ 0 <= r.2 /\ r.1 + r.2 <= USIZE_MAX.
Definition pages (r : Z * Z) : list Z :=
  match get_page_range r.1 r.2 with Ok x => pages_of x | _ => [] end.

(** [live] are the buffers whose lock succeeded and was not given back; a lock
    is given back once, for a buffer that has one. *)
Inductive reach : list (Z * Z) -> @Locks W -> Prop :=
| reach_start w : resident w = ∅ -> reach [] (mkLocks ∅ w)
| reach_locked live t ptr len t' : reach live t -> in_memory (ptr, len) -> mlock ptr len t = (Ok tt, t') ->
    reach ((ptr, len) :: live) t'
| reach_refused live t ptr len e t' : reach live t -> in_memory (ptr, len) -> mlock ptr len t = (Err e, t') -> reach live t'
| reach_unlocked live1 live2 t ptr len x t' : reach (live1 ++ (ptr, len) :: live2) t ->
    munlock ptr len t = (x, t') -> reach (live1 ++ live2) t'.

Fixpoint count (live : list (Z * Z)) (p : Z) : Z :=
  match live with [] => 0 | r :: live => count live p + (if decide (p ∈ pages r) then 1 else 0) end.

Lemma count_nonneg live p : 0 <= count live p.
Proof. induction live as [|r live IH]; cbn; [lia|]. destruct (decide _); lia. Qed.

Lemma count_middle live1 r live2 p : count (live1 ++ r :: live2) p = bump (count (live1 ++ live2)) (pages r) p.
Proof. induction live1 as [|s live1 IH]; cbn; [done|]. rewrite IH. unfold bump. cbn. lia. Qed.

Lemma count_pos live p : count live p <> 0 <-> exists r, r ∈ live /\ p ∈ pages r.
Proof.
  induction live as [|s live IH]; cbn; [set_solver|]. pose proof (count_nonneg live p). destruct (decide _) as [Hp|Hp].
  - split; [|lia]. intros _. exists s. split; [by left|done].
  - rewrite Z.add_0_r, IH. set_solver.
Qed.

Lemma range_ok r : in_memory r -> get_page_range r.1 r.2 = Ok (r.1 / page_size,
  if r.2 =? 0 then r.1 / page_size else (r.1 + r.2 - 1) / page_size + 1).
Proof.
  intros (H1 & H2 & H3). unfold get_page_range. destruct (Z.eqb_spec r.2 0); [done|].
  by replace (USIZE_MAX <? r.1 + r.2) with false by lia.
Qed.

Lemma pages_fit r p : in_memory r -> p ∈ pages r -> fits p.
Proof.
  intros Hr. unfold pages. rewrite range_ok by done. unfold pages_of, fits. cbn [fst snd].
  rewrite elem_of_seqZ. destruct Hr as (H1 & H2 & H3). assert (Hpos : 0 < page_size) by apply page_size_pos.
  destruct (Z.eqb_spec r.2 0); [lia|]. intros [Ha Hb].
  set (q := (r.1 + r.2 - 1) / page_size) in *. pose proof (Z.mul_div_le (r.1 + r.2 - 1) page_size Hpos) as Hq. fold q in Hq.
  assert (p * page_size <= q * page_size) by (apply Z.mul_le_mono_nonneg_r; lia). lia.
Qed.

Lemma pages_NoDup r : NoDup (pages r).
Proof. unfold pages. destruct (get_page_range _ _); [apply NoDup_seqZ|constructor..]. Qed.

Definition invariant (live : list (Z * Z)) (t : @Locks W) : Prop :=
  Forall in_memory live /\ consistent t /\ counted (count live) t.(locked_pages).

Lemma mlock_spec live t ptr len : invariant live t -> in_memory (ptr, len) ->
  let '(x, t') := mlock ptr len t in
  match x with
  | Ok _ => invariant ((ptr, len) :: live) t'
  | Err _ => invariant live t' /\ t'.(locked_pages) = t.(locked_pages)
  | Panic => False
  end.
Proof.
  intros (Hl & Hcon & Hc) Hr. unfold mlock, st_bind, st_lift. change (get_page_range ptr len) with (get_page_range (ptr, len).1 (ptr, len).2). rewrite range_ok by done.
  set (ps := pages_of _). assert (Hps : ps = pages (ptr, len)) by (unfold pages; by rewrite range_ok).
  pose proof (lock_pages_spec (count live) t.(locked_pages) ps (count_nonneg live) Hc (proj2 Hcon) [] [] t) as H.
  destruct (lock_pages ps [] [] t) as [x t']. destruct H as [Hcon' Hx].
  - cbn. rewrite Hps. apply pages_NoDup.
  - set_solver.
  - set_solver.
  - cbn. rewrite Hps. intros p. by apply pages_fit.
  - eapply counted_ext; [exact Hc|]. intros p. by rewrite bump_nil.
  - done.
  - destruct x; [|split; [done|by eapply counted_eq]|done]. split; [by constructor|]. split; [done|].
    cbn in Hx. rewrite Hps in Hx. exact Hx.
Qed.

Lemma munlock_spec live1 live2 t ptr len : invariant (live1 ++ (ptr, len) :: live2) t ->
  exists t', munlock ptr len t = (Ok tt, t') /\ invariant (live1 ++ live2) t'.
Proof.
  intros (Hl & Hcon & Hc). apply Forall_app in Hl as [Hl1 Hl2]. apply Forall_cons_iff in Hl2 as [Hr Hl2].
  unfold munlock, st_bind, st_lift. change (get_page_range ptr len) with (get_page_range (ptr, len).1 (ptr, len).2). rewrite range_ok by done.
  set (ps := pages_of _). assert (Hps : ps = pages (ptr, len)) by (unfold pages; by rewrite range_ok).
  destruct (unlock_pages_spec (count (live1 ++ live2)) ps) with (t := t) as (t' & Ht & Hcon' & Hc').
  - rewrite Hps. apply pages_NoDup.
  - apply count_nonneg.
  - rewrite Hps. intros p. by apply pages_fit.
  - rewrite Hps. eapply counted_ext; [exact Hc|]. intros p. apply count_middle.
  - done.
  - exists t'. split; [exact Ht|]. split; [by apply Forall_app|done].
Qed.

Lemma reach_invariant live t : reach live t -> invariant live t.
Proof.
  induction 1 as [w Hw|live t ptr len t' _ IH Hr Ht|live t ptr len e t' _ IH Hr Ht|live1 live2 t ptr len x t' _ IH Ht].
  - split; [done|]. split; [|done]. split; [cbn; by rewrite Hw, dom_empty_L|done].
  - pose proof (mlock_spec live t ptr len IH Hr) as H. by rewrite Ht in H.
  - pose proof (mlock_spec live t ptr len IH Hr) as H. rewrite Ht in H. by destruct H.
  - destruct (munlock_spec _ _ _ _ _ IH) as (t1 & Ht1 & H). rewrite Ht1 in Ht. by injection Ht as <- <-.
Qed.

(** C29. As long as a lock is given back only where it was granted, the system keeps
    exactly the pages of the buffers whose lock was granted in memory, however
    they share pages, and never more than [MAX_LOCKED_PAGES]; giving a lock back
    succeeds, and a lock that is refused half-way leaves the table as it was. *)
Theorem locks_counted live t : reach live t ->
  (forall p, p ∈ resident t.(os) <-> exists r, r ∈ live /\ p ∈ pages r) /\
  Z.of_nat (base.size (resident t.(os))) <= MAX_LOCKED_PAGES /\
  (forall ptr len, (ptr, len) ∈ live -> (munlock ptr len t).1 = Ok tt) /\
  (forall ptr len, in_memory (ptr, len) ->
    (mlock ptr len t).1 = Ok tt \/
    (mlock ptr len t).1 = Err tt /\ (mlock ptr len t).2.(locked_pages) = t.(locked_pages)).
Proof.
  intros H%reach_invariant. pose proof H as (Hl & [Hr Hs] & Hc). split; [|split; [|split]].
  - intros p. rewrite Hr, elem_of_dom, <- count_pos, Hc. destruct (Z.eqb_spec (count live p) 0) as [->|]; [|by split].
    split; [by intros []|done].
  - by rewrite Hr, size_dom.
  - intros ptr len (l1 & l2 & ->)%list_elem_of_split. by destruct (munlock_spec _ _ _ _ _ H) as (t' & -> & _).
  - intros ptr len Hin. pose proof (mlock_spec live t ptr len H Hin) as Hm.
    destruct (mlock ptr len t) as [[[]|[]|] t']; [by left|right; by destruct Hm|done].
Qed.
End Counting.

(** ** A system that keeps two pages in memory *)
Module Example.
Definition VirtualLock2 (addr len : Z) (w : gset Z) : bool * gset Z :=
  if Z.of_nat (base.size w) <? 2 then (true, {[addr / 4096]} ∪ w) else (false, w).

#[local] Instance two_pages : Win32 (gset Z) := {|
  page_size := 4096;
  VirtualLock := VirtualLock2;
  VirtualUnlock addr _ w := (bool_decide (addr / 4096 ∈ w), w ∖ {[addr / 4096]});
  GetLastError _ := 5;
  GetProcessWorkingSetSizeEx _ := None;
  SetProcessWorkingSetSizeEx _ _ _ w := (false, w);
|}.

#[local] Instance two_pages_laws : Win32Laws two_pages.
Proof.
  refine {| resident := fun w => w : gset Z |}.
  - done.
  - intros p w. cbn -[Z.mul]. unfold VirtualLock2. rewrite Z.div_mul by done. by destruct (_ <? _).
  - intros p w Hp. cbn -[Z.mul]. rewrite Z.div_mul by done. by rewrite bool_decide_true.
  - done.
Defined.

(** Two buffers on page 1, and one on pages 1 to 5 that is refused; then the first
    is unlocked. *)
Definition start : @Locks (gset Z) := mkLocks ∅ ∅.
Definition t3 := (mlock 5000 16384 (mlock 4200 64 (mlock 4096 64 start).2).2).2.
Definition t4 := (munlock 4096 64 t3).2.

Lemma locks_counted_witness : reach [(4200, 64)] t4 /\ (munlock 4200 64 t4).1 = Ok tt.
Proof.
  assert (H : reach [(4200, 64)] t4).
  { apply (reach_unlocked [(4200, 64)] [] t3 4096 64 (Ok tt)); [|vm_compute; reflexivity].
    apply (reach_refused _ (mlock 4200 64 (mlock 4096 64 start).2).2 5000 16384 tt); [|repeat split; vm_compute; congruence|vm_compute; reflexivity].
    apply (reach_locked _ (mlock 4096 64 start).2 4200 64); [|repeat split; vm_compute; congruence|vm_compute; reflexivity].
    apply (reach_locked _ start 4096 64); [|repeat split; vm_compute; congruence|vm_compute; reflexivity].
    by apply reach_start. }
  split; [exact H|]. apply (locks_counted _ _ H). by left.
Defined.

(** Vectors give locks back that were never granted: when the lock of a vector was
    refused, dropping it unlocks the page of its neighbour. *)
#[local] Instance bump_allocator : Allocator :=
  {| malloc b n := Some (map_fold (fun p c m => Z.max m (p + zlen c)) 4096 b) |}.

Example neighbour_unlocked :
  let '(x, (h, vs)) := run (E := unit) [OFromSlice (zeroes 64); ONewZeroed 16384; ODrop 1] (empty_heap start, []) in
  x = Ok tt /\ vs = [Some (mkCryptoVec 4096 64 64); None] /\ resident h.(CryptoVec.locks).(os) = ∅ /\
  resident (run (E := unit) [OFromSlice (zeroes 64)] (empty_heap start, [])).2.1.(CryptoVec.locks).(os) = {[1]}.
Proof. vm_compute. repeat split; reflexivity. Qed.
End Example.

(** ** [platform/unix.rs]

    The system calls are made as they come; nothing counts who else is on a page. *)
Module Unix.
(** [nix::sys::mman]; whether the call succeeded. *)
Class Mman (W : Type) : Type := {
  sys_mlock : Z -> Z -> W -> bool * W;
  sys_munlock : Z -> Z -> W -> bool * W;
}.

Section Unix.
Context {W : Type} {OS : Mman W}.

Definition sys_call (f : W -> bool * W) : st W unit unit := fun w =>
  let '(ok, w) := f w in (if ok then Ok tt else Err tt, w).

Definition unix_munlock (ptr len : Z) : st W unit unit :=
  if len =? 0 then st_ret tt
  else if ptr =? 0 then st_err tt
  else sys_call (sys_munlock ptr len).

Definition unix_mlock (ptr len : Z) : st W unit unit :=
  if len =? 0 then st_ret tt
  else if ptr =? 0 then st_err tt
  else sys_call (sys_mlock ptr len).

#[global] Instance unix_lock : CryptoVec.MemoryLock W := {|
  CryptoVec.mlock := unix_mlock;
  CryptoVec.munlock := unix_munlock;
|}.

(** The manual: both calls are about every page that the range touches, they
    change nothing when they fail, and locks do not stack. *)
Class MmanLaws : Type := {
  on_page : Z -> Z -> gset Z;
  locked : W -> gset Z;
  sys_mlock_spec ptr len w :
    locked (sys_mlock ptr len w).2 =
      if (sys_mlock ptr len w).1 then on_page ptr len ∪ locked w else locked w;
  sys_munlock_spec ptr len w :
    locked (sys_munlock ptr len w).2 =
      if (sys_munlock ptr len w).1 then locked w ∖ on_page ptr len else locked w;
}.

Context {HL : MmanLaws}.

(** What was granted is locked; what is given back is locked for nobody any
    more, also not for another buffer on the same page. *)
Lemma unix_mlock_spec ptr len w : len <> 0 -> (unix_mlock ptr len w).1 = Ok tt ->
  locked (unix_mlock ptr len w).2 = on_page ptr len ∪ locked w.
Proof.
  intros Hl. unfold unix_mlock, sys_call. destruct (Z.eqb_spec len 0); [done|].
  destruct (ptr =? 0); [done|]. pose proof (sys_mlock_spec ptr len w) as H.
  by destruct (sys_mlock ptr len w) as [[|] w'].
Qed.

Lemma unix_munlock_shared ptr len ptr' len' w : len <> 0 -> (unix_munlock ptr len w).1 = Ok tt ->
  on_page ptr len ∩ on_page ptr' len' ∩ locked (unix_munlock ptr len w).2 = ∅.
Proof.
  intros Hl. unfold unix_munlock, sys_call. destruct (Z.eqb_spec len 0); [done|].
  destruct (ptr =? 0); [done|]. pose proof (sys_munlock_spec ptr len w) as H.
  destruct (sys_munlock ptr len w) as [[|] w']; [|done]. cbn in H |- *. rewrite H. set_solver.
Qed.
End Unix.

End Unix.

Module UnixExample.
#[local] Existing Instance Example.bump_allocator.

Definition touched (ptr len : Z) : gset Z :=
  list_to_set (seqZ (ptr / 4096) ((ptr + len - 1) / 4096 - ptr / 4096 + 1)).

#[local] Instance pages_of_4096 : Unix.Mman (gset Z) := {|
  Unix.sys_mlock ptr len w := (true, touched ptr len ∪ w);
  Unix.sys_munlock ptr len w := (true, w ∖ touched ptr len);
|}.

#[local] Instance pages_of_4096_laws : @Unix.MmanLaws (gset Z) pages_of_4096.
Proof. by refine {| Unix.on_page := touched; Unix.locked := fun w => w : gset Z |}. Defined.

(** Two vectors on one page; the second is dropped, and the first, which lives
    on, is no longer kept in memory. *)
Example shared_page_unlocked :
  let before := run (E := unit) [OFromSlice (zeroes 64); OFromSlice (zeroes 64)] (empty_heap (∅ : gset Z), []) in
  let '(x, (h, vs)) := run (E := unit) [OFromSlice (zeroes 64); OFromSlice (zeroes 64); ODrop 1] (empty_heap (∅ : gset Z), []) in
  CryptoVec.locks before.2.1 = {[1]} /\
  x = Ok tt /\ vs = [Some (mkCryptoVec 4096 64 64); None] /\ h.(CryptoVec.locks) = ∅.
Proof. vm_compute. repeat split; reflexivity. Qed.
End UnixExample.
