(* ===== verification/Encoding.v ===== *)
(** * The [ssh_encoding] crate as an interface

    russh reads and writes SSH data types through the third-party crate
    [ssh_encoding].  Its code is not part of the repository, so it is a
    parameter of every component: [SshEncoding] lists the operations the source
    calls, [SshEncodingLaws] the documented behaviour (RFC 4251 section 5) that
    the theorems rely on.  [rfc4251] is a concrete instance that satisfies the
    laws; the witnesses evaluate the model with it.

    The file also holds the writer vocabulary shared by the components: a packet
    body is code of type [writer E], and [appends m p] says that [m] succeeds
    and appends exactly [p] to the output. *)

From stdpp Require Import base list numbers option strings.
From Stdlib Require Import ZArith Lia.
From S2P Require Import Prelude.

(** ** Writers *)

(** [FnOnce(&mut Vec<u8>) -> Result<(), E>]. *)
Abbreviation writer E := (st bytes E unit).

(** [Vec::push], [Vec::extend_from_slice]. *)
Definition push_byte {E} (v : Z) : writer E := st_mod (fun w => w ++ [v]).
Definition push_bytes {E} (p : bytes) : writer E := st_mod (fun w => w ++ p).

Definition appends {E} (m : writer E) (p : bytes) : Prop :=
  forall w, m w = (Ok tt, w ++ p).

Create HintDb wire discriminated.

Lemma appends_ret {E} : appends (st_ret tt : writer E) [].
Proof. intros w. unfold st_ret. by rewrite app_nil_r. Qed.

Lemma appends_push_byte {E} v : appends (push_byte v : writer E) [v].
Proof. done. Qed.

Lemma appends_push_bytes {E} p : appends (push_bytes p : writer E) p.
Proof. done. Qed.

Lemma appends_bind {E} (m : writer E) k p q :
  appends m p -> appends (k tt) q -> appends (st_bind m k) (p ++ q).
Proof. intros Hm Hk w. unfold st_bind. rewrite Hm, Hk. by rewrite app_assoc. Qed.

Lemma appends_map_err {E F} (f : E -> F) (m : writer E) p :
  appends m p -> appends (st_map_err f m) p.
Proof. intros Hm w. unfold st_map_err. by rewrite Hm. Qed.

#[export] Hint Resolve appends_ret appends_push_byte appends_push_bytes appends_bind
  appends_map_err : wire.

(** ** UTF-8

    [std::str::from_utf8(b).is_ok()]: the well-formed byte sequences of the
    Unicode standard (table 3-7). *)
Definition in_range (lo hi x : Z) : bool := (lo <=? x) && (x <=? hi).

Fixpoint is_utf8 (b : bytes) : bool :=
  match b with
  | [] => true
  | x :: b1 =>
      if in_range 0 127 x then is_utf8 b1
      else match b1 with
      | [] => false
      | y :: b2 =>
          if in_range 194 223 x then in_range 128 191 y && is_utf8 b2
          else match b2 with
          | [] => false
          | z :: b3 =>
              if x =? 224 then in_range 160 191 y && in_range 128 191 z && is_utf8 b3
              else if in_range 225 236 x || in_range 238 239 x then
                in_range 128 191 y && in_range 128 191 z && is_utf8 b3
              else if x =? 237 then in_range 128 159 y && in_range 128 191 z && is_utf8 b3
              else match b3 with
              | [] => false
              | t :: b4 =>
                  if x =? 240 then
                    in_range 144 191 y && in_range 128 191 z && in_range 128 191 t && is_utf8 b4
                  else if in_range 241 243 x then
                    in_range 128 191 y && in_range 128 191 z && in_range 128 191 t && is_utf8 b4
                  else if x =? 244 then
                    in_range 128 143 y && in_range 128 191 z && in_range 128 191 t && is_utf8 b4
                  else false
              end
          end
      end
  end.

(** [u8::is_ascii] / [str::is_ascii]. *)
Definition is_ascii (b : bytes) : bool := forallb (in_range 0 127) b.

Lemma is_ascii_utf8 b : is_ascii b = true -> is_utf8 b = true.
Proof.
  induction b as [|x b IH]; [done|]. cbn [is_ascii forallb is_utf8].
  intros [-> Hb]%andb_true_iff. auto.
Qed.

Lemma is_ascii_app a b : is_ascii (a ++ b) = is_ascii a && is_ascii b.
Proof. apply forallb_app. Qed.

(** ** The interface *)

(** [ssh_encoding::Error]: the variants the repository names, and the rest. *)
Inductive EncError : Type :=
| CharacterEncoding
| Length
| TrailingData (remaining : Z)
| EncOther (code : Z).

#[global] Instance EncError_eq_dec : EqDecision EncError.
Proof. solve_decision. Defined.

(** A reader is the slice that is left; a decoder returns the value and the
    rest of the slice. *)
Class SshEncoding : Type := {
  encode_u8 : Z -> writer EncError;
  encode_u32 : Z -> writer EncError;
  (** [usize], as a [u32] *)
  encode_usize : Z -> writer EncError;
  (** [[u8]], [Vec<u8>], [Bytes], [str], [String] *)
  encode_bytes : bytes -> writer EncError;
  (** [Vec<String>] *)
  encode_strings : list bytes -> writer EncError;
  decode_u8 : bytes -> res EncError (Z * bytes);
  decode_u32 : bytes -> res EncError (Z * bytes);
  (** [Vec<u8>], [Bytes] *)
  decode_bytes : bytes -> res EncError (bytes * bytes);
  decode_string : bytes -> res EncError (bytes * bytes);
  (** [Reader::read_prefixed]: the nested reader and what follows it *)
  read_prefixed : bytes -> res EncError (bytes * bytes);
}.

(** The largest length that the decoders are relied on to accept. *)
Definition MAX_ENCODED_LEN : Z := 1048575.

Class SshEncodingLaws (enc : SshEncoding) : Prop := {
  encode_u8_appends v : is_u8 v -> appends (encode_u8 v) [v];
  encode_u32_appends v : is_u32 v -> appends (encode_u32 v) (be32 v);
  encode_usize_appends v : is_u32 v -> appends (encode_usize v) (be32 v);
  encode_bytes_appends b :
    zlen b < U32_MOD -> appends (encode_bytes b) (be32 (zlen b) ++ b);
  encode_strings_nil : appends (encode_strings []) (be32 0);
  decode_u8_cons v r : decode_u8 (v :: r) = Ok (v, r);
  decode_u8_nil : exists x, decode_u8 [] = Err x;
  decode_u32_be32 v r : is_u32 v -> decode_u32 (be32 v ++ r) = Ok (v, r);
  decode_bytes_prefixed b r :
    zlen b <= MAX_ENCODED_LEN -> decode_bytes (be32 (zlen b) ++ b ++ r) = Ok (b, r);
  decode_string_prefixed b r :
    zlen b <= MAX_ENCODED_LEN -> is_utf8 b = true ->
    decode_string (be32 (zlen b) ++ b ++ r) = Ok (b, r);
  read_prefixed_prefixed b r :
    zlen b <= MAX_ENCODED_LEN -> read_prefixed (be32 (zlen b) ++ b ++ r) = Ok (b, r);
  decode_u8_no_panic r : decode_u8 r <> Panic;
  decode_u32_no_panic r : decode_u32 r <> Panic;
  decode_bytes_no_panic r : decode_bytes r <> Panic;
  decode_string_no_panic r : decode_string r <> Panic;
  read_prefixed_no_panic r : read_prefixed r <> Panic;
}.

#[export] Hint Resolve encode_u8_appends encode_u32_appends encode_usize_appends encode_bytes_appends
  encode_strings_nil : wire.

(** ** A concrete instance *)

Definition rfc_prefixed (r : bytes) : res EncError (bytes * bytes) :=
  match read_u32 r with
  | None => Err Length
  | Some n =>
      let body := zdrop 4 r in
      if n <=? zlen body then Ok (ztake n body, zdrop n body) else Err Length
  end.

Definition rfc4251 : SshEncoding := {|
  encode_u8 := push_byte;
  encode_u32 v := push_bytes (be32 v);
  encode_usize v := if (0 <=? v) && (v <? U32_MOD) then push_bytes (be32 v) else st_err Length;
  encode_bytes b :=
    if zlen b <? U32_MOD then push_bytes (be32 (zlen b) ++ b) else st_err Length;
  encode_strings l :=
    push_bytes (be32 (zlen (concat (map (fun b => be32 (zlen b) ++ b) l)))) ;;;
    push_bytes (concat (map (fun b => be32 (zlen b) ++ b) l));
  decode_u8 r := match r with v :: r' => Ok (v, r') | [] => Err Length end;
  decode_u32 r := match read_u32 r with Some v => Ok (v, zdrop 4 r) | None => Err Length end;
  decode_bytes := rfc_prefixed;
  decode_string r :=
    let? (b, r') := rfc_prefixed r in
    if is_utf8 b then Ok (b, r') else Err CharacterEncoding;
  read_prefixed := rfc_prefixed;
|}.

Lemma rfc_prefixed_ok b r :
  zlen b <= MAX_ENCODED_LEN -> rfc_prefixed (be32 (zlen b) ++ b ++ r) = Ok (b, r).
Proof.
  intros Hb. unfold rfc_prefixed. rewrite read_u32_be32, to_u32_small.
  2: { unfold is_u32, U32_MOD, MAX_ENCODED_LEN in *. pose proof (zlen_nonneg b). lia. }
  rewrite zdrop_app_exact by done.
  replace (zlen b <=? zlen (b ++ r)) with true by (symmetry; apply Z.leb_le; zlia).
  by rewrite ztake_app_exact, zdrop_app_exact.
Qed.

Lemma rfc_prefixed_no_panic r : rfc_prefixed r <> Panic.
Proof. unfold rfc_prefixed. destruct (read_u32 r); [|done]. by case_match. Qed.

#[export] Instance rfc4251_laws : SshEncodingLaws rfc4251.
Proof.
  constructor; cbn [rfc4251 encode_u8 encode_u32 encode_usize encode_bytes encode_strings decode_u8 decode_u32
    decode_bytes decode_string read_prefixed]; auto with wire.
  - intros v [H1 H2]. apply Z.leb_le in H1. apply Z.ltb_lt in H2. rewrite H1, H2. apply appends_push_bytes.
  - intros b Hb. replace (zlen b <? U32_MOD) with true by (symmetry; by apply Z.ltb_lt).
    auto with wire.
  - intros w. unfold st_bind, push_bytes, st_mod. cbn [map concat]. by rewrite app_nil_r.
  - by exists Length.
  - intros v r Hv. rewrite read_u32_be32, to_u32_small by done.
    by rewrite zdrop_app_exact.
  - apply rfc_prefixed_ok.
  - intros b r Hb Hu. rewrite rfc_prefixed_ok by done. cbn [res_bind]. by rewrite Hu.
  - apply rfc_prefixed_ok.
  - by intros [].
  - intros r. by destruct (read_u32 r).
  - apply rfc_prefixed_no_panic.
  - intros r. pose proof (rfc_prefixed_no_panic r).
    destruct (rfc_prefixed r) as [[b r']| |]; cbn [res_bind]; [by case_match|done|done].
  - apply rfc_prefixed_no_panic.
Qed.
