(* ===== verification/Text.v ===== *)
(** * Text: what the standard library does with strings

    Strings are their bytes, in UTF-8.  The characters that the code splits at are
    ASCII, so that bytes and characters come to the same; what is trimmed is white
    space of Unicode, of one, two or three bytes. *)

From Stdlib Require Import ZArith Lia.
From stdpp Require Import base list numbers option sets.
From S2P Require Import Prelude Encoding.

Definition SPACE : Z := 32.
Definition NEWLINE : Z := 10.
Definition RETURN : Z := 13.

(** [str::split(c)]: there is always at least one part. *)
Fixpoint split (c : Z) (b : bytes) : list bytes :=
  match b with
  | [] => [[]]
  | x :: b =>
      if x =? c then [] :: split c b
      else match split c b with
           | p :: ps => (x :: p) :: ps
           | [] => [[x]]
           end
  end.

(** Successive [BufRead::read_line]s: each line has its newline, the last one may
    have none. *)
Fixpoint split_lines (b : bytes) : list bytes :=
  match b with
  | [] => []
  | x :: b =>
      if x =? NEWLINE then [x] :: split_lines b
      else match split_lines b with
           | l :: ls => (x :: l) :: ls
           | [] => [[x]]
           end
  end.

(** [str::lines]: without the newline, and without a carriage return before it. *)
Definition strip_newline (l : bytes) : bytes :=
  match rev l with
  | 10 :: 13 :: r => rev r
  | 10 :: r => rev r
  | _ => l
  end.
Definition lines (b : bytes) : list bytes := map strip_newline (split_lines b).

(** [char::is_whitespace], in the bytes of UTF-8: the characters of one byte, of
    two and of three. *)
Definition is_space (x : Z) : bool := (9 <=? x) && (x <=? 13) || (x =? 32).
Definition is_space2 (x y : Z) : bool := (x =? 194) && ((y =? 133) || (y =? 160)).
Definition is_space3 (x y z : Z) : bool :=
  (x =? 225) && (y =? 154) && (z =? 128) ||
  (x =? 226) && ((y =? 128) && (in_range 128 138 z || (z =? 168) || (z =? 169) || (z =? 175)) ||
                 (y =? 129) && (z =? 159)) ||
  (x =? 227) && (y =? 128) && (z =? 128).

(** [split_whitespace], [w] being the word that was begun. *)
Definition end_word (w : bytes) (ws : list bytes) : list bytes := match w with [] => ws | _ => w :: ws end.
Fixpoint words_from (b w : bytes) : list bytes :=
  match b with
  | [] => end_word w []
  | x :: b1 =>
      if is_space x then end_word w (words_from b1 [])
      else
        match b1 with
        | y :: b2 =>
            if is_space2 x y then end_word w (words_from b2 [])
            else
              match b2 with
              | z :: b3 => if is_space3 x y z then end_word w (words_from b3 []) else words_from b1 (w ++ [x])
              | [] => words_from b1 (w ++ [x])
              end
        | [] => words_from b1 (w ++ [x])
        end
  end.
Definition split_whitespace (b : bytes) : list bytes := words_from b [].

(** [trim_start], [trim_end] and [trim]: [two] and [three] tell white space of more
    than a byte in the direction of reading. *)
Section Trim.
Variables (two : Z -> Z -> bool) (three : Z -> Z -> Z -> bool).
Fixpoint skip_space (b : bytes) : bytes :=
  match b with
  | [] => []
  | x :: b1 =>
      if is_space x then skip_space b1
      else
        match b1 with
        | y :: b2 =>
            if two x y then skip_space b2
            else match b2 with z :: b3 => if three x y z then skip_space b3 else b | [] => b end
        | [] => b
        end
  end.
End Trim.
Definition trim_start (b : bytes) : bytes := skip_space is_space2 is_space3 b.
Definition trim_end (b : bytes) : bytes :=
  rev (skip_space (fun y x => is_space2 x y) (fun z y x => is_space3 x y z) (rev b)).
Definition trim (b : bytes) : bytes := trim_end (trim_start b).

Definition starts_with (p b : bytes) : bool := beq (ztake (zlen p) b) p.
Definition ends_with (p b : bytes) : bool := (zlen p <=? zlen b) && beq (zdrop (zlen b - zlen p) b) p.

(** A number in decimal, as [Display] writes it. *)
Fixpoint digits (fuel : nat) (n : Z) (b : bytes) : bytes :=
  match fuel with
  | O => b
  | S fuel =>
      let b := (48 + n mod 10) :: b in
      if n / 10 =? 0 then b else digits fuel (n / 10) b
  end.
(** Five digits are enough for a [u16]. *)
Definition decimal16 (n : Z) : bytes := digits 5 n [].

(** [str::splitn(2, c)], when it gives two parts. *)
Fixpoint split_once (c : Z) (b : bytes) : option (bytes * bytes) :=
  match b with
  | [] => None
  | x :: b =>
      if x =? c then Some ([], b)
      else match split_once c b with Some (p, q) => Some (x :: p, q) | None => None end
  end.

(** [str::split_ascii_whitespace]: a vertical tab is no such space. *)
Definition is_ascii_space (x : Z) : bool := is_space x && negb (x =? 11).
Fixpoint ascii_words_from (b w : bytes) : list bytes :=
  match b with
  | [] => match w with [] => [] | _ => [w] end
  | x :: b =>
      if is_ascii_space x then match w with [] => ascii_words_from b [] | _ => w :: ascii_words_from b [] end
      else ascii_words_from b (w ++ [x])
  end.
Definition split_ascii_whitespace (b : bytes) : list bytes := ascii_words_from b [].

(** [str::to_lowercase], as far as a comparison with an ASCII word can tell: the
    Kelvin sign is the one other letter that becomes a letter of ASCII alone. *)
Fixpoint to_lowercase (b : bytes) : bytes :=
  match b with
  | 226 :: 132 :: 170 :: b => 107 :: to_lowercase b
  | x :: b => (if (65 <=? x) && (x <=? 90) then x + 32 else x) :: to_lowercase b
  | [] => []
  end.

(** [str::replace] of a pattern that is not empty: [skip] bytes of the last match
    are still to pass. *)
Fixpoint replace_from (p v : bytes) (skip : nat) (b : bytes) : bytes :=
  match b with
  | [] => []
  | x :: b' =>
      match skip with
      | S k => replace_from p v k b'
      | O => if starts_with p b then v ++ replace_from p v (length p - 1) b' else x :: replace_from p v 0 b'
      end
  end.
Definition replace (p v b : bytes) : bytes := replace_from p v 0 b.

(** [str::parse::<u16>]. *)
Fixpoint parse_digits (acc : Z) (b : bytes) : option Z :=
  match b with
  | [] => Some acc
  | x :: b =>
      if (48 <=? x) && (x <=? 57) then
        let acc := acc * 10 + (x - 48) in
        if acc <=? 65535 then parse_digits acc b else None
      else None
  end.
Definition parse_u16 (b : bytes) : option Z :=
  let b := match b with 43 :: r => r | _ => b end in
  match b with [] => None | _ => parse_digits 0 b end.

(** ** Lemmas *)
Definition ends_line (b : bytes) : Prop := list.last b = Some NEWLINE.

Lemma split_app_notin c a b : c ∉ a ->
  split c (a ++ b) = match split c b with p :: ps => (a ++ p) :: ps | [] => [a] end.
Proof.
  induction a as [|x a IH]; intros Ha; cbn [split app].
  - destruct (split c b) eqn:Hs; [|done]. destruct b as [|y b]; cbn in Hs; [done|].
    destruct (y =? c); [done|]. by destruct (split c b).
  - destruct (Z.eqb_spec x c) as [->|Hx]; [by destruct Ha; left|]. rewrite IH by set_solver. by destruct (split c b).
Qed.

Lemma split_notin c a : c ∉ a -> split c a = [a].
Proof. intros Ha. pose proof (split_app_notin c a [] Ha) as H. rewrite !app_nil_r in H. rewrite H. cbn. by rewrite app_nil_r. Qed.

Lemma split_sep c a b : c ∉ a -> split c (a ++ c :: b) = a :: split c b.
Proof. intros Ha. rewrite split_app_notin by done. cbn [split]. by rewrite Z.eqb_refl, app_nil_r. Qed.

Lemma split_nonempty c b : exists p ps, split c b = p :: ps.
Proof.
  destruct b as [|x b]; [by eexists _, _|]. cbn. destruct (x =? c); [by eexists _, _|].
  destruct (split c b); by eexists _, _.
Qed.

(** One more character at the end. *)
Lemma split_snoc c b x : x <> c -> exists ps p, split c b = ps ++ [p] /\ split c (b ++ [x]) = ps ++ [p ++ [x]].
Proof.
  intros Hx. induction b as [|y b (ps & p & IH1 & IH2)].
  - exists [], []. cbn. by destruct (Z.eqb_spec x c).
  - cbn [split app]. destruct (y =? c).
    + exists ([] :: ps), p. by rewrite IH1, IH2.
    + rewrite IH1, IH2. destruct ps as [|q ps]; cbn; [by exists [], (y :: p)|by exists ((y :: q) :: ps), p].
Qed.

Lemma split_lines_cons b : b <> [] -> exists l ls, split_lines b = l :: ls.
Proof.
  destruct b as [|x b]; [done|]. intros _. cbn. destruct (x =? NEWLINE); [by eexists _, _|].
  destruct (split_lines b); by eexists _, _.
Qed.

Lemma split_lines_app a b : ends_line a -> split_lines (a ++ b) = split_lines a ++ split_lines b.
Proof.
  unfold ends_line. induction a as [|x a IH]; [done|]. intros Ha. cbn [split_lines app].
  destruct a as [|y a].
  - injection Ha as ->. done.
  - rewrite IH by done. destruct (x =? NEWLINE); [done|].
    destruct (split_lines_cons (y :: a)) as (l & ls & ->); [done|]. done.
Qed.

Lemma split_lines_step x b : split_lines (x :: b) =
  if x =? NEWLINE then [x] :: split_lines b
  else match split_lines b with l :: ls => (x :: l) :: ls | [] => [[x]] end.
Proof. done. Qed.

(** A last line that has no newline gets one. *)
Lemma split_lines_end a b : a <> [] -> list.last a <> Some NEWLINE ->
  exists ls l, split_lines a = ls ++ [l] /\ (l <> []) /\ (NEWLINE ∉ l) /\
    split_lines (a ++ NEWLINE :: b) = ls ++ [l ++ [NEWLINE]] ++ split_lines b.
Proof.
  induction a as [|x a IH]; [done|]. intros _ Ha. destruct a as [|y a].
  - exists [], [x]. assert (x <> NEWLINE) by (intros ->; by apply Ha). cbn. destruct (Z.eqb_spec x NEWLINE); [done|].
    split_and!; [done|done|set_solver|]. done.
  - destruct IH as (ls & l & H1 & H2 & H3 & H4); [done|done|].
    rewrite (split_lines_step x (y :: a)), H1. cbn [app] in H4 |- *. rewrite (split_lines_step x (y :: _)), H4.
    destruct (Z.eqb_spec x NEWLINE) as [->|Hx]; [by exists ([NEWLINE] :: ls), l|].
    destruct ls as [|k ls]; [|by exists ((x :: k) :: ls), l].
    exists [], (x :: l). split_and!; [done|done|set_solver|done].
Qed.

Lemma split_lines_one l : NEWLINE ∉ l -> split_lines (l ++ [NEWLINE]) = [l ++ [NEWLINE]].
Proof.
  induction l as [|x l IH]; intros Hl; [done|]. cbn [split_lines app].
  destruct (Z.eqb_spec x NEWLINE) as [->|Hx]; [by destruct Hl; left|]. rewrite IH by set_solver. done.
Qed.

Lemma split_lines_nonempty b : Forall (fun l => l <> []) (split_lines b).
Proof.
  induction b as [|x b IH]; [done|]. cbn [split_lines]. destruct (x =? NEWLINE); [by constructor|].
  destruct IH; by repeat constructor.
Qed.

Lemma is_utf8_app a b : is_utf8 a = true -> is_utf8 (a ++ b) = is_utf8 b.
Proof.
  remember (length a) as n eqn:Hn. revert a Hn. induction n as [n IH] using lt_wf_ind. intros a Hn Ha.
  destruct a as [|x a1]; [done|]. cbn [app is_utf8] in *. destruct (in_range 0 127 x); [by eapply IH; [|done|]; [subst; cbn; lia|]|].
  destruct a1 as [|y a2]; [done|]. cbn [app].
  destruct (in_range 194 223 x).
  { apply andb_true_iff in Ha as [-> Ha]. cbn [andb]. by eapply IH; [|done|]; [subst; cbn; lia|]. }
  destruct a2 as [|z a3]; [done|]. cbn [app].
  destruct (x =? 224); [apply andb_true_iff in Ha as [-> Ha]; cbn [andb]; by eapply IH; [|done|]; [subst; cbn; lia|]|].
  destruct (_ || _); [apply andb_true_iff in Ha as [-> Ha]; cbn [andb]; by eapply IH; [|done|]; [subst; cbn; lia|]|].
  destruct (x =? 237); [apply andb_true_iff in Ha as [-> Ha]; cbn [andb]; by eapply IH; [|done|]; [subst; cbn; lia|]|].
  destruct a3 as [|t a4]; [done|]. cbn [app].
  destruct (x =? 240); [apply andb_true_iff in Ha as [-> Ha]; cbn [andb]; by eapply IH; [|done|]; [subst; cbn; lia|]|].
  destruct (in_range 241 243 x); [apply andb_true_iff in Ha as [-> Ha]; cbn [andb]; by eapply IH; [|done|]; [subst; cbn; lia|]|].
  destruct (x =? 244); [apply andb_true_iff in Ha as [-> Ha]; cbn [andb]; by eapply IH; [|done|]; [subst; cbn; lia|]|done].
Qed.

(** A line that is no text does not become one by its newline. *)
Lemma is_utf8_newline a : is_utf8 (a ++ [NEWLINE]) = is_utf8 a.
Proof.
  remember (length a) as n eqn:Hn. revert a Hn. induction n as [n IH] using lt_wf_ind. intros a Hn.
  assert (Hrec : forall b, (length b < length a)%nat -> is_utf8 (b ++ [NEWLINE]) = is_utf8 b)
    by (intros b Hb; by apply (IH (length b)); [lia|]).
  clear IH Hn n.
  destruct a as [|x a1]; [done|]. cbn [app is_utf8]. rewrite Hrec by (cbn; lia). destruct (in_range 0 127 x); [done|].
  destruct a1 as [|y a2]; cbn [app].
  { change (is_utf8 []) with true. by repeat case_match. }
  rewrite Hrec by (cbn; lia). destruct (in_range 194 223 x); [done|].
  destruct a2 as [|z a3]; cbn [app].
  { change (in_range 128 191 NEWLINE) with false. rewrite !andb_false_r. cbn [andb]. by repeat case_match. }
  rewrite Hrec by (cbn; lia). destruct (x =? 224), (in_range 225 236 x || in_range 238 239 x), (x =? 237); try done.
  destruct a3 as [|t a4]; cbn [app]; [|by rewrite Hrec by (cbn; lia)].
  change (in_range 128 191 NEWLINE) with false. rewrite !andb_false_r. cbn [andb]. by repeat case_match.
Qed.

Lemma digits_range fuel : forall n b, Forall (in_range 48 57) b -> Forall (in_range 48 57) (digits fuel n b).
Proof.
  induction fuel as [|fuel IH]; intros n b Hb; [done|]. cbn [digits]. cbv zeta.
  assert (Forall (in_range 48 57) ((48 + n mod 10) :: b)).
  { constructor; [|done]. unfold in_range. pose proof (Z.mod_pos_bound n 10 ltac:(lia)).
    apply Is_true_true, andb_true_iff; split; apply Z.leb_le; lia. }
  destruct (_ =? 0); [done|by apply IH].
Qed.

(** ** Words and numbers *)
Lemma split_once_sep c a b : c ∉ a -> split_once c (a ++ c :: b) = Some (a, b).
Proof.
  induction a as [|x a IH]; intros Ha; cbn; [by rewrite Z.eqb_refl|].
  destruct (Z.eqb_spec x c) as [->|_]; [by destruct Ha; left|]. rewrite IH by set_solver. done.
Qed.

Lemma ascii_words_app w b acc : Forall (fun x => is_ascii_space x = false) w ->
  ascii_words_from (w ++ b) acc = ascii_words_from b (acc ++ w).
Proof.
  intros Hw. revert acc. induction Hw as [|x w Hx Hw IH]; intros acc; cbn [app ascii_words_from]; [by rewrite app_nil_r|].
  by rewrite Hx, IH, <- app_assoc.
Qed.

Lemma split_ascii_whitespace_word w : w <> [] -> Forall (fun x => is_ascii_space x = false) w ->
  split_ascii_whitespace w = [w].
Proof.
  intros Hn Hw. unfold split_ascii_whitespace. rewrite <- (app_nil_r w) at 1. rewrite ascii_words_app by done.
  cbn. by destruct w.
Qed.

Lemma split_ascii_whitespace_cons w b : w <> [] -> Forall (fun x => is_ascii_space x = false) w ->
  split_ascii_whitespace (w ++ SPACE :: b) = w :: split_ascii_whitespace b.
Proof. intros Hn Hw. unfold split_ascii_whitespace. rewrite ascii_words_app by done. cbn. by destruct w. Qed.

(** A text that [trim] leaves alone. *)
Definition trimmed (b : bytes) : Prop := b <> [] /\ trim_start b = b /\ trim_end b = b.

(** Whether there is white space at the start. *)
Definition space_ahead (two : Z -> Z -> bool) (three : Z -> Z -> Z -> bool) (b : bytes) : bool :=
  match b with
  | [] => false
  | x :: b1 => is_space x || match b1 with
      | [] => false
      | y :: b2 => two x y || match b2 with z :: _ => three x y z | [] => false end
      end
  end.

Lemma skip_space_id two three b : space_ahead two three b = false -> skip_space two three b = b.
Proof.
  destruct b as [|x [|y [|z b]]]; cbn; try done; destruct (is_space x); try done; destruct (two x y); try done.
  cbn. by intros ->.
Qed.

Lemma skip_space_suffix two three b : exists p, b = p ++ skip_space two three b.
Proof.
  induction b as [b IH] using (induction_ltof1 _ (@length Z)). unfold ltof in IH.
  destruct b as [|x b1]; [by exists []|]. cbn [skip_space].
  assert (Hrec : forall q r, x :: b1 = q ++ r -> q <> [] -> exists p, x :: b1 = p ++ skip_space two three r).
  { intros q r Hqr Hq. destruct (IH r) as [p Hp]; [rewrite Hqr, length_app; destruct q; [done|]; cbn; lia|].
    exists (q ++ p). by rewrite Hqr, <- app_assoc, <- Hp. }
  destruct (is_space x); [by apply (Hrec [x])|]. destruct b1 as [|y b2]; [by exists []|].
  destruct (two x y); [by apply (Hrec [x; y])|]. destruct b2 as [|z b3]; [by exists []|].
  destruct (three x y z); [by apply (Hrec [x; y; z])|by exists []].
Qed.

Lemma skip_space_stays two three b : skip_space two three b = b -> space_ahead two three b = false.
Proof.
  assert (Hno : forall q r, q <> [] -> skip_space two three r <> q ++ r).
  { intros q r Hq Hr. destruct (skip_space_suffix two three r) as [p Hp]. rewrite Hr in Hp.
    apply (f_equal length) in Hp. rewrite !length_app in Hp. destruct q; [done|]. cbn in Hp. lia. }
  destruct b as [|x b1]; [done|]. cbn [skip_space space_ahead]. destruct (is_space x); [by intros H%(Hno [x])|].
  destruct b1 as [|y b2]; [done|]. destruct (two x y); [by intros H%(Hno [x; y])|].
  destruct b2 as [|z b3]; [done|]. by destruct (three x y z); [intros H%(Hno [x; y; z])|].
Qed.

Lemma head_rev {A} (l : list A) : head (rev l) = list.last l.
Proof. rewrite rev_alt. apply head_reverse. Qed.

Abbreviation space_behind := (space_ahead (fun y x => is_space2 x y) (fun z y x => is_space3 x y z)).

Lemma trim_start_id b : space_ahead is_space2 is_space3 b = false -> trim_start b = b.
Proof. apply skip_space_id. Qed.

Lemma trim_end_stays b : trim_end b = b <-> space_behind (rev b) = false.
Proof.
  unfold trim_end. split.
  - intros H. apply skip_space_stays. apply (f_equal (@rev Z)) in H. by rewrite rev_involutive in H.
  - intros H. by rewrite skip_space_id, rev_involutive.
Qed.

(** Characters of ASCII that are printed: no part of white space. *)
Definition printed (x : Z) : Prop := 33 <= x <= 126.

Lemma printed_no_space x : printed x -> is_space x = false.
Proof. unfold printed, is_space. lia. Qed.

Lemma trim_start_word x b : printed x -> trim_start (x :: b) = x :: b.
Proof.
  intros Hx. apply trim_start_id. cbn. rewrite printed_no_space by done. destruct b as [|y b]; [done|].
  unfold printed, is_space2, is_space3 in *. destruct b; lia.
Qed.

(** What comes after a character of ASCII is trimmed for itself. *)
Lemma trim_end_after a x b : 0 <= x <= 127 -> (b = [] -> is_space x = false) -> trim_end b = b ->
  trim_end (a ++ x :: b) = a ++ x :: b.
Proof.
  intros Hx Hb. rewrite !trim_end_stays, rev_app_distr. cbn [rev]. rewrite <- app_assoc. cbn [app].
  assert (Hl : b = [] <-> rev b = []).
  { split; [by intros ->|]. intros H. by rewrite <- (rev_involutive b), H. }
  destruct (rev b) as [|u [|v [|w r]]]; cbn; intros H.
  - rewrite Hb by (by apply Hl). destruct (rev a) as [|y [|z q]]; cbn; unfold is_space2, is_space3, in_range; lia.
  - destruct (is_space u); [done|]. destruct (rev a); cbn; unfold is_space2, is_space3, in_range; lia.
  - destruct (is_space u), (is_space2 v u); try done. cbn. unfold is_space3, in_range. lia.
  - done.
Qed.

Lemma trim_indented p b : trimmed b -> Forall (fun x => is_space x = true) p -> trim (p ++ b) = b.
Proof.
  intros (_ & Hs & He) Hp. unfold trim, trim_start in *. induction Hp as [|x p Hx Hp IH]; cbn [app skip_space].
  - by rewrite Hs.
  - by rewrite Hx.
Qed.

Lemma trimmed_start b : trimmed b -> trim_start b = b.
Proof. by intros (_ & H & _). Qed.

Lemma word_trimmed b : b <> [] -> Forall printed b -> trimmed b.
Proof.
  intros Hn Hb. split; [done|]. split; [destruct Hb; [done|by apply trim_start_word]|].
  destruct b as [|x b _] using rev_ind; [done|]. apply Forall_app in Hb as [_ Hx]. apply Forall_cons in Hx as [Hx _].
  apply (trim_end_after b x []); [unfold printed in Hx; lia|by intros _; apply printed_no_space|done].
Qed.

(** A line of which [lines] takes away no more than the newline. *)
Definition whole_line (l : bytes) : Prop :=
  (NEWLINE ∉ l) /\ match list.last l with Some y => is_space y = false | None => False end.

Lemma trimmed_last b : b <> [] -> trim_end b = b -> match list.last b with Some y => is_space y = false | None => False end.
Proof.
  intros Hn. rewrite trim_end_stays, <- head_rev. destruct (rev b) as [|x r] eqn:Hr; cbn [head space_ahead].
  - by rewrite <- (rev_involutive b), Hr in Hn.
  - by intros [H _]%orb_false_iff.
Qed.

Lemma lines_app a b : ends_line a -> lines (a ++ b) = lines a ++ lines b.
Proof. intros Ha. unfold lines. by rewrite split_lines_app, map_app. Qed.

(** A line with the line end of Windows, or with that of Unix. *)
Lemma lines_crlf l : NEWLINE ∉ l -> lines (l ++ [RETURN; NEWLINE]) = [l].
Proof.
  intros Hl. unfold lines. change [RETURN; NEWLINE] with ([RETURN] ++ [NEWLINE]). rewrite app_assoc, split_lines_one.
  - cbn. unfold strip_newline. rewrite !rev_app_distr. cbn. by rewrite rev_involutive.
  - unfold RETURN, NEWLINE in *. set_solver.
Qed.

Lemma strip_newline_lf l : list.last l <> Some RETURN -> strip_newline (l ++ [NEWLINE]) = l.
Proof.
  intros Hl. unfold strip_newline. rewrite rev_app_distr. cbn [rev app]. unfold NEWLINE.
  rewrite <- head_rev in Hl. rewrite <- (rev_involutive l) at 2. destruct (rev l) as [|x r]; [done|]. cbn [head] in Hl.
  destruct x as [|q|q]; [done| |done].
  repeat (done || match goal with q : positive |- _ => destruct q end).
Qed.

Lemma lines_lf l : NEWLINE ∉ l -> list.last l <> Some RETURN -> lines (l ++ [NEWLINE]) = [l].
Proof. intros Hl Hr. unfold lines. rewrite split_lines_one by done. cbn [map]. by rewrite strip_newline_lf. Qed.

Lemma lines_of ls : Forall whole_line ls -> lines (concat (map (fun l => l ++ [NEWLINE]) ls)) = ls.
Proof.
  induction 1 as [|l ls [Hn Ht] Hls IH]; [done|]. cbn [map concat]. rewrite lines_app by apply last_snoc.
  rewrite lines_lf, IH; [done|done|]. intros Hl. by rewrite Hl in Ht.
Qed.

Lemma trim_end_prefix b : exists s, b = trim_end b ++ s.
Proof.
  unfold trim_end. set (two := fun y x => _). set (three := fun z y x => _).
  destruct (skip_space_suffix two three (rev b)) as [p Hp]. exists (rev p).
  by rewrite <- rev_app_distr, <- Hp, rev_involutive.
Qed.

(** Trimming does not take away a first character that is no white space. *)
Lemma trim_head b : trim_start b = b -> trim b = [] \/ head (trim b) = head b.
Proof.
  intros Hx. unfold trim. rewrite Hx. destruct (trim_end_prefix b) as [s Hs].
  destruct (trim_end b) as [|y r]; [by left|]. right. by rewrite Hs.
Qed.

Lemma parse_decimal16_digits fuel : forall n b, 0 <= n < 10 ^ Z.of_nat fuel -> n <= 65535 ->
  parse_digits 0 (digits fuel n b) = parse_digits n b.
Proof.
  induction fuel as [|fuel IH]; intros n b Hn Hm; [cbn in *; by replace n with 0 by lia|]. cbn [digits].
  assert (Hd : 0 <= n mod 10 < 10) by (apply Z.mod_pos_bound; lia). pose proof (Z.div_mod n 10 ltac:(lia)) as Hdm.
  assert (Hstep : forall acc, acc * 10 + n mod 10 = n -> parse_digits acc (48 + n mod 10 :: b) = parse_digits n b).
  { intros acc Ha. cbn [parse_digits]. rewrite (proj2 (andb_true_iff _ _)) by (split; apply Z.leb_le; lia).
    replace (acc * 10 + (48 + n mod 10 - 48)) with n by lia. by rewrite (proj2 (Z.leb_le n 65535)) by lia. }
  destruct (Z.eqb_spec (n / 10) 0) as [H0|H0]; [apply Hstep; lia|].
  rewrite IH; [apply Hstep; lia| |apply Z.div_le_upper_bound; lia].
  split; [apply Z.div_pos; lia|apply Z.div_lt_upper_bound; [lia|]].
  rewrite Nat2Z.inj_succ, Z.pow_succ_r in Hn by lia. lia.
Qed.

Lemma digits_nonempty fuel : forall n b, digits (S fuel) n b <> [].
Proof.
  induction fuel as [|fuel IH]; intros n b H; [by cbn in H; destruct (_ =? 0) in H|].
  change (digits (S (S fuel)) n b)
    with (if n / 10 =? 0 then 48 + n mod 10 :: b else digits (S fuel) (n / 10) (48 + n mod 10 :: b)) in H.
  destruct (n / 10 =? 0); [done|by apply IH in H].
Qed.

Lemma parse_decimal16 n : 0 <= n <= 65535 -> parse_u16 (decimal16 n) = Some n.
Proof.
  intros Hn. pose proof (digits_range 5 n [] ltac:(constructor)) as Hr.
  assert (Hne : decimal16 n <> []) by (apply digits_nonempty).
  assert (H : parse_digits 0 (decimal16 n) = Some n) by (unfold decimal16; rewrite parse_decimal16_digits; done || lia).
  unfold decimal16, parse_u16 in *. destruct (digits 5 n []) as [|x r]; [done|].
  apply Forall_cons in Hr as [Hx _]. destruct (decide (x = 43)) as [->|Hne']; [done|].
  destruct x as [|q|q]; [done| |done].
  repeat (done || match goal with q : positive |- _ => destruct q end).
Qed.
