(* ===== verification/LibInner.v ===== *)
(** * Crate-wide types ([russh/src/lib_inner.rs])

    The error type, the framing macro [push_packet!], disconnect reasons,
    signals, channel-open failures, rekey limits, the per-channel record
    [ChannelParams] and the reply handle given to channel-open callbacks. *)

From stdpp Require Import base list numbers option strings pretty.
From Stdlib Require Import ZArith Lia.
From S2P Require Import Prelude Encoding.

(** ** Errors *)

Inductive AlgorithmKind : Type := KindKex | KindKey | KindCipher | KindCompression | KindMac.

(** ** Reasons for not opening a channel *)
Module ChannelOpenFailure.

Inductive failure : Type :=
| AdministrativelyProhibited
| ConnectFailed
| UnknownChannelType
| ResourceShortage
| Other (code : Z) (reason : bytes).

Definition from_u32 (x : Z) : option failure :=
  if x =? 1 then Some AdministrativelyProhibited
  else if x =? 2 then Some ConnectFailed
  else if x =? 3 then Some UnknownChannelType
  else if x =? 4 then Some ResourceShortage
  else Some (Other x (str ("Unknown code " +:+ pretty x))).

Definition code (f : failure) : Z :=
  match f with
  | AdministrativelyProhibited => 1
  | ConnectFailed => 2
  | UnknownChannelType => 3
  | ResourceShortage => 4
  | Other code _ => code
  end.

Definition description (f : failure) : bytes :=
  match f with
  | AdministrativelyProhibited => str "Administratively prohibited"
  | ConnectFailed => str "Connect failed"
  | UnknownChannelType => str "Unknown channel type"
  | ResourceShortage => str "Resource shortage"
  | Other _ reason => reason
  end.
End ChannelOpenFailure.

Module Error.
(** [crate::Error].  The payloads that are errors of other crates are opaque
    codes. *)
Inductive error : Type :=
| CouldNotReadKey
| KexInit
| UnknownAlgo
| NoCommonAlgo (kind : AlgorithmKind) (ours theirs : list bytes)
| Version
| Kex
| PacketAuth
| Inconsistent
| NotAuthenticated
| UnsupportedAuthMethod
| IndexOutOfBounds
| UnknownKey
| WrongServerSig
| PacketSize (n : Z)
| WrongChannel
| ChannelOpenFailure (f : ChannelOpenFailure.failure)
| Disconnect
| NoHomeDir
| KeyChanged (line : Z)
| HUP
| ConnectionTimeout
| KeepaliveTimeout
| InactivityTimeout
| WriteStalled
| RekeyTimeout (generation : Z)
| HandshakeTimeout
| NoAuthMethod
| SendError
| Pending
| DecryptionError
| RequestDenied
| Keys (code : Z)
| IO (kind : Z)
| Utf8
| Compress (code : Z)
| Decompress (code : Z)
| Join
| Elapsed
| StrictKeyExchangeViolation (message_type sequence_number : Z)
| Signature (code : Z)
| SshKey (code : Z)
| SshEncoding (e : EncError)
| InvalidConfig (msg : bytes)
| RecvError.
End Error.

Abbreviation Result A := (res Error.error A).

Definition strict_kex_violation (message_type sequence_number : Z) : Error.error :=
  Error.StrictKeyExchangeViolation message_type sequence_number.

(** [?] on a result of [ssh_encoding] in a function that returns
    [Result<_, crate::Error>], and the [map_err!] macro. *)
Definition enc_err {A} (m : res EncError A) : Result A := map_err Error.SshEncoding m.
Definition enc_w {S A} (m : st S EncError A) : st S Error.error A := st_map_err Error.SshEncoding m.

(** ** The [push_packet!] macro

    Reserves a four-byte length, runs the body, then patches the length.  A body
    that fails returns from the enclosing function, so the length stays zero. *)
Definition push_packet {E} (body : writer E) : writer E :=
  fun buffer =>
    let i0 := zlen buffer in
    let buffer1 := buffer ++ [0; 0; 0; 0] in
    match body buffer1 with
    | (Ok tt, buffer2) =>
        let i1 := zlen buffer2 in
        match write_u32_at i0 (to_u32 (i1 - i0 - 4)) buffer2 with
        | Some buffer3 => (Ok tt, buffer3)
        | None => (Panic, buffer2)
        end
    | (Err e, buffer2) => (Err e, buffer2)
    | (Panic, buffer2) => (Panic, buffer2)
    end.

(** The frame that [push_packet!] produces around a payload. *)
Definition frame (p : bytes) : bytes := be32 (zlen p) ++ p.

Lemma zlen_frame p : zlen (frame p) = 4 + zlen p.
Proof. unfold frame. zlia. Qed.
#[export] Hint Rewrite zlen_frame : zlen.

Lemma appends_push_packet {E} (body : writer E) p :
  appends body p -> appends (push_packet body) (frame p).
Proof.
  intros Hb w. unfold push_packet. rewrite Hb.
  rewrite <- (app_assoc w), write_u32_at_app by done.
  rewrite be32_to_u32. unfold frame. do 4 f_equal. zlia.
Qed.
#[export] Hint Resolve appends_push_packet : wire.

(** ** Rekey limits *)

Record Limits : Type := {
  rekey_write_limit : Z;
  rekey_read_limit : Z;
  rekey_time_limit : Z;
}.

(** The [assert!] of [Limits::new] is the [Panic]. *)
Definition Limits_new (write_limit read_limit time_limit : Z) : Result Limits :=
  if (write_limit <=? Z.shiftl 1 30) && (read_limit <=? Z.shiftl 1 30)
  then Ok {| rekey_write_limit := write_limit;
             rekey_read_limit := read_limit;
             rekey_time_limit := time_limit |}
  else Panic.

Definition Limits_default : Limits :=
  {| rekey_write_limit := Z.shiftl 1 30;
     rekey_read_limit := Z.shiftl 1 30;
     rekey_time_limit := 3600 |}.

(** ** Disconnect reasons *)
Module Disconnect.
Inductive disconnect : Type :=
| HostNotAllowedToConnect
| ProtocolError
| KeyExchangeFailed
| Reserved
| MACError
| CompressionError
| ServiceNotAvailable
| ProtocolVersionNotSupported
| HostKeyNotVerifiable
| ConnectionLost
| ByApplication
| TooManyConnections
| AuthCancelledByUser
| NoMoreAuthMethodsAvailable
| IllegalUserName.

(** [reason as u32]. *)
Definition as_u32 (d : disconnect) : Z :=
  match d with
  | HostNotAllowedToConnect => 1
  | ProtocolError => 2
  | KeyExchangeFailed => 3
  | Reserved => 4
  | MACError => 5
  | CompressionError => 6
  | ServiceNotAvailable => 7
  | ProtocolVersionNotSupported => 8
  | HostKeyNotVerifiable => 9
  | ConnectionLost => 10
  | ByApplication => 11
  | TooManyConnections => 12
  | AuthCancelledByUser => 13
  | NoMoreAuthMethodsAvailable => 14
  | IllegalUserName => 15
  end.

Definition try_from (value : Z) : Result disconnect :=
  match value with
  | 1 => Ok HostNotAllowedToConnect
  | 2 => Ok ProtocolError
  | 3 => Ok KeyExchangeFailed
  | 4 => Ok Reserved
  | 5 => Ok MACError
  | 6 => Ok CompressionError
  | 7 => Ok ServiceNotAvailable
  | 8 => Ok ProtocolVersionNotSupported
  | 9 => Ok HostKeyNotVerifiable
  | 10 => Ok ConnectionLost
  | 11 => Ok ByApplication
  | 12 => Ok TooManyConnections
  | 13 => Ok AuthCancelledByUser
  | 14 => Ok NoMoreAuthMethodsAvailable
  | 15 => Ok IllegalUserName
  | _ => Err Error.Inconsistent
  end.

Lemma try_from_as_u32 d : try_from (as_u32 d) = Ok d.
Proof. by destruct d. Qed.

Lemma as_u32_try_from v d : try_from v = Ok d -> as_u32 d = v.
Proof. unfold try_from. intros H. repeat case_match; by simplify_eq. Qed.
End Disconnect.

(** ** Signals *)
Module Sig.
Inductive sig : Type :=
| ABRT | ALRM | FPE | HUP | ILL | INT | KILL | PIPE | QUIT | SEGV | TERM | USR1
| Custom (name : bytes).

Definition name (s : sig) : bytes :=
  match s with
  | ABRT => str "ABRT"
  | ALRM => str "ALRM"
  | FPE => str "FPE"
  | HUP => str "HUP"
  | ILL => str "ILL"
  | INT => str "INT"
  | KILL => str "KILL"
  | PIPE => str "PIPE"
  | QUIT => str "QUIT"
  | SEGV => str "SEGV"
  | TERM => str "TERM"
  | USR1 => str "USR1"
  | Custom c => c
  end.

Definition from_name (n : bytes) : sig :=
  if beq n (str "ABRT") then ABRT
  else if beq n (str "ALRM") then ALRM
  else if beq n (str "FPE") then FPE
  else if beq n (str "HUP") then HUP
  else if beq n (str "ILL") then ILL
  else if beq n (str "INT") then INT
  else if beq n (str "KILL") then KILL
  else if beq n (str "PIPE") then PIPE
  else if beq n (str "QUIT") then QUIT
  else if beq n (str "SEGV") then SEGV
  else if beq n (str "TERM") then TERM
  else if beq n (str "USR1") then USR1
  else Custom n.

Lemma name_from_name n : name (from_name n) = n.
Proof.
  unfold from_name.
  repeat (case_match; [match goal with H : beq _ _ = true |- _ =>
    apply beq_true in H; by subst end|]). done.
Qed.
End Sig.

(** ** Channel parameters *)

(** [ChannelId] is a newtype of [u32]. *)
Abbreviation ChannelId := Z (only parsing).

(** An element of [pending_data]: (buffer, extended stream number, offset). *)
Abbreviation pending_item := (bytes * option Z * Z)%type.

Record ChannelParams : Type := mkChannelParams {
  recipient_channel : Z;
  sender_channel : ChannelId;
  recipient_window_size : Z;
  sender_window_size : Z;
  recipient_maximum_packet_size : Z;
  sender_maximum_packet_size : Z;
  confirmed : bool;
  wants_reply : bool;
  pending_data : list pending_item;
  pending_eof : bool;
  pending_close : bool;
}.

(** Field assignments [channel.f = v]. *)
Definition set_recipient_window_size (v : Z) (c : ChannelParams) : ChannelParams :=
  mkChannelParams c.(recipient_channel) c.(sender_channel) v c.(sender_window_size)
    c.(recipient_maximum_packet_size) c.(sender_maximum_packet_size) c.(confirmed)
    c.(wants_reply) c.(pending_data) c.(pending_eof) c.(pending_close).
Definition set_sender_window_size (v : Z) (c : ChannelParams) : ChannelParams :=
  mkChannelParams c.(recipient_channel) c.(sender_channel) c.(recipient_window_size) v
    c.(recipient_maximum_packet_size) c.(sender_maximum_packet_size) c.(confirmed)
    c.(wants_reply) c.(pending_data) c.(pending_eof) c.(pending_close).
Definition set_pending_data (v : list pending_item) (c : ChannelParams) : ChannelParams :=
  mkChannelParams c.(recipient_channel) c.(sender_channel) c.(recipient_window_size)
    c.(sender_window_size) c.(recipient_maximum_packet_size) c.(sender_maximum_packet_size)
    c.(confirmed) c.(wants_reply) v c.(pending_eof) c.(pending_close).
Definition set_pending_controls (eof close : bool) (c : ChannelParams) : ChannelParams :=
  mkChannelParams c.(recipient_channel) c.(sender_channel) c.(recipient_window_size)
    c.(sender_window_size) c.(recipient_maximum_packet_size) c.(sender_maximum_packet_size)
    c.(confirmed) c.(wants_reply) c.(pending_data) eof close.

(** The fields of a decoded [CHANNEL_OPEN_CONFIRMATION] ([parsing.rs]). *)
Record ChannelOpenConfirmation : Type := {
  coc_recipient_channel : Z;
  coc_sender_channel : Z;
  coc_initial_window_size : Z;
  coc_maximum_packet_size : Z;
}.

Definition confirm (c : ChannelOpenConfirmation) (p : ChannelParams) : ChannelParams :=
  mkChannelParams c.(coc_sender_channel) p.(sender_channel) c.(coc_initial_window_size)
    p.(sender_window_size) c.(coc_maximum_packet_size) p.(sender_maximum_packet_size)
    true p.(wants_reply) p.(pending_data) p.(pending_eof) p.(pending_close).

Definition take_pending_controls (c : ChannelParams) : (bool * bool) * ChannelParams :=
  ((c.(pending_eof), c.(pending_close)), set_pending_controls false false c).

(** ** The reply handle of a channel-open callback

    [ChannelOpenHandleInner]: the pending open is taken by the first reply; the
    destructor replies when no reply was given.  [sent] is what went into the
    unbounded reply queue. *)
Module OpenHandle.
Section OpenHandle.
Context {pending : Type}.

Abbreviation reply := (pending * (unit + ChannelOpenFailure.failure))%type.

Record handle : Type := mkHandle {
  inner : option pending;
  sent : list reply;
}.

Definition new (p : pending) : handle := mkHandle (Some p) [].

Definition try_send_reply (result : unit + ChannelOpenFailure.failure) (h : handle) : handle :=
  match h.(inner) with
  | Some p => mkHandle None (h.(sent) ++ [(p, result)])
  | None => h
  end.

(** [Drop::drop]. *)
Definition drop_handle (h : handle) : handle :=
  try_send_reply (inr ChannelOpenFailure.AdministrativelyProhibited) h.

(** [accept(mut self)] and [reject(mut self, reason)] consume the handle, so
    its destructor runs when they return. *)
Definition accept (h : handle) : handle := drop_handle (try_send_reply (inl tt) h).
Definition reject (reason : ChannelOpenFailure.failure) (h : handle) : handle :=
  drop_handle (try_send_reply (inr reason) h).
End OpenHandle.
Arguments handle : clear implicits.
End OpenHandle.
