(* ===== verification/Msg.v ===== *)
(** * Message numbers and strict key exchange order ([russh/src/msg.rs]) *)

From stdpp Require Import base list numbers option.
From Stdlib Require Import ZArith Lia.
From S2P Require Import Prelude LibInner.

Module msg.
Definition DISCONNECT : Z := 1.
Definition IGNORE : Z := 2.
Definition UNIMPLEMENTED : Z := 3.
Definition DEBUG : Z := 4.
Definition SERVICE_REQUEST : Z := 5.
Definition SERVICE_ACCEPT : Z := 6.
Definition EXT_INFO : Z := 7.
Definition KEXINIT : Z := 20.
Definition NEWKEYS : Z := 21.
Definition KEX_ECDH_INIT : Z := 30.
Definition KEX_ECDH_REPLY : Z := 31.
Definition KEX_DH_GEX_REQUEST : Z := 34.
Definition KEX_DH_GEX_GROUP : Z := 31.
Definition KEX_DH_GEX_INIT : Z := 32.
Definition KEX_DH_GEX_REPLY : Z := 33.
Definition KEX_HYBRID_INIT : Z := 30.
Definition KEX_HYBRID_REPLY : Z := 31.
Definition USERAUTH_REQUEST : Z := 50.
Definition USERAUTH_FAILURE : Z := 51.
Definition USERAUTH_SUCCESS : Z := 52.
Definition USERAUTH_BANNER : Z := 53.
Definition USERAUTH_INFO_RESPONSE : Z := 61.
Definition USERAUTH_INFO_REQUEST_OR_USERAUTH_PK_OK : Z := 60.
Definition GLOBAL_REQUEST : Z := 80.
Definition REQUEST_SUCCESS : Z := 81.
Definition REQUEST_FAILURE : Z := 82.
Definition CHANNEL_OPEN : Z := 90.
Definition CHANNEL_OPEN_CONFIRMATION : Z := 91.
Definition CHANNEL_OPEN_FAILURE : Z := 92.
Definition CHANNEL_WINDOW_ADJUST : Z := 93.
Definition CHANNEL_DATA : Z := 94.
Definition CHANNEL_EXTENDED_DATA : Z := 95.
Definition CHANNEL_EOF : Z := 96.
Definition CHANNEL_CLOSE : Z := 97.
Definition CHANNEL_REQUEST : Z := 98.
Definition CHANNEL_SUCCESS : Z := 99.
Definition CHANNEL_FAILURE : Z := 100.
Definition SSH_OPEN_CONNECT_FAILED : Z := 2.
Definition SSH_OPEN_UNKNOWN_CHANNEL_TYPE : Z := 3.
Definition SSH_OPEN_RESOURCE_SHORTAGE : Z := 4.
Definition USERAUTH_INFO_REQUEST : Z := 60.
Definition USERAUTH_PK_OK : Z := 60.
Definition SSH_OPEN_ADMINISTRATIVELY_PROHIBITED : Z := 1.
End msg.

(** [order.get(seqno).map(|expected| expected == &msg_type)]. *)
Definition validate_msg_strict_kex (msg_type seqno : Z) (order : bytes) : option bool :=
  match znth order seqno with
  | Some expected => Some (expected =? msg_type)
  | None => None
  end.

(** One iteration of the loop over the alternative orders. *)
Definition merge_validity (valid result : option bool) : option bool :=
  match valid, result with
  | Some true, _ => Some true
  | _, Some true => Some true
  | None, Some false | Some false, Some false => Some false
  | x, None => x
  end.

Definition validate_msg_strict_kex_alt_order (msg_type seqno : Z) (orders : list bytes)
  : option bool :=
  fold_left (fun valid order => merge_validity valid (validate_msg_strict_kex msg_type seqno order))
    orders None.

Definition client_strict_orders : list bytes :=
  [[msg.KEXINIT; msg.KEX_ECDH_INIT; msg.NEWKEYS];
   [msg.KEXINIT; msg.KEX_DH_GEX_REQUEST; msg.KEX_DH_GEX_INIT; msg.NEWKEYS]].

Definition server_strict_orders : list bytes :=
  [[msg.KEXINIT; msg.KEX_ECDH_REPLY; msg.NEWKEYS];
   [msg.KEXINIT; msg.KEX_DH_GEX_GROUP; msg.KEX_DH_GEX_REPLY; msg.NEWKEYS]].

Definition validate_client_msg_strict_kex (msg_type seqno : Z) : Result unit :=
  match validate_msg_strict_kex_alt_order msg_type seqno client_strict_orders with
  | Some false => Err (strict_kex_violation msg_type seqno)
  | _ => Ok tt
  end.

Definition validate_server_msg_strict_kex (msg_type seqno : Z) : Result unit :=
  match validate_msg_strict_kex_alt_order msg_type seqno server_strict_orders with
  | Some false => Err (strict_kex_violation msg_type seqno)
  | _ => Ok tt
  end.

Definition ALL_KEX_MESSAGES : bytes :=
  [msg.KEXINIT; msg.KEX_ECDH_INIT; msg.KEX_ECDH_REPLY; msg.KEX_DH_GEX_GROUP;
   msg.KEX_DH_GEX_INIT; msg.KEX_DH_GEX_REPLY; msg.KEX_DH_GEX_REQUEST; msg.NEWKEYS].

Definition is_kex_msg (m : Z) : bool := memb m ALL_KEX_MESSAGES.

(** ** The alternation is a disjunction over the orders that reach [seqno] *)

Lemma merge_fold_true msg_type seqno orders :
  fold_left (fun valid order => merge_validity valid (validate_msg_strict_kex msg_type seqno order))
    orders (Some true) = Some true.
Proof. induction orders as [|o orders IH]; simpl; auto. Qed.

(** A packet is refused exactly when some order says which message comes at
    [seqno] and no order says that it is this one. *)
Lemma alt_order_refuses msg_type seqno orders acc :
  acc <> Some true ->
  fold_left (fun valid order => merge_validity valid (validate_msg_strict_kex msg_type seqno order))
    orders acc = Some false <->
  (acc = Some false \/ Exists (fun o => is_Some (znth o seqno)) orders) /\
  Forall (fun o => znth o seqno <> Some msg_type) orders.
Proof.
  revert acc. induction orders as [|o orders IH]; intros acc Hacc; simpl.
  - split.
    + intros ->. split; [by left|constructor].
    + intros [[->|H] _]; [done|]. by apply Exists_nil in H.
  - change (validate_msg_strict_kex msg_type seqno o) with
      (match znth o seqno with Some e => Some (e =? msg_type) | None => None end).
    destruct (znth o seqno) as [x|] eqn:Ho.
    + destruct (Z.eqb_spec x msg_type) as [->|Hne].
      * replace (merge_validity acc (Some true)) with (Some true) by (by destruct acc as [[]|]).
        rewrite merge_fold_true. split; [done|].
        rewrite Forall_cons_iff. naive_solver.
      * replace (merge_validity acc (Some false)) with (Some false) by (by destruct acc as [[]|]).
        rewrite IH by done. rewrite Exists_cons, Forall_cons_iff, Ho.
        split; [intros [_ ?]|intros [_ [_ ?]]]; (split; [|naive_solver]); eauto.
    + replace (merge_validity acc None) with acc by (by destruct acc as [[]|]).
      rewrite IH by done. rewrite Exists_cons, Forall_cons_iff, Ho.
      split; intros [H1 H2]; (split; [|naive_solver]).
      * naive_solver.
      * destruct H1 as [?|[[? ?]|?]]; naive_solver.
Qed.

(** Both validators, as a decision on the orders. *)
Lemma strict_kex_spec msg_type seqno orders :
  match validate_msg_strict_kex_alt_order msg_type seqno orders with
  | Some false => Err (strict_kex_violation msg_type seqno)
  | _ => Ok tt
  end =
    if bool_decide (Exists (fun o => znth o seqno = Some msg_type) orders \/
                    Forall (fun o => znth o seqno = None) orders)
    then Ok tt
    else Err (Error.StrictKeyExchangeViolation msg_type seqno).
Proof.
  pose proof (alt_order_refuses msg_type seqno orders None ltac:(done)) as Hspec.
  unfold validate_msg_strict_kex_alt_order. case_bool_decide as Hdec.
  - destruct (fold_left _ _ _) as [[]|] eqn:Hf; [done| |done].
    destruct (proj1 Hspec eq_refl) as [[?|Hex] Hall]; [done|].
    apply Exists_exists in Hex as (o & Ho & x & Hx).
    destruct Hdec as [Hd|Hd].
    + apply Exists_exists in Hd as (o' & Ho' & Hm).
      rewrite Forall_forall in Hall. by apply Hall in Hm.
    + rewrite Forall_forall in Hd. apply Hd in Ho. congruence.
  - destruct (fold_left _ _ _) as [[]|] eqn:Hf; [|done|]; exfalso.
    all: assert (Hn : ~ (Exists (fun o => is_Some (znth o seqno)) orders /\
                  Forall (fun o => znth o seqno <> Some msg_type) orders)) by naive_solver.
    all: apply Hn; split; [|apply not_Exists_Forall; [apply _|tauto]].
    all: destruct (decide (Forall (fun o => znth o seqno = None) orders)) as [Ha|Ha]; [tauto|].
    all: apply not_Forall_Exists in Ha; [|apply _]; revert Ha; apply Exists_impl.
    all: intros o Ho; by apply not_eq_None_Some.
Qed.

(** Strict key exchange, server side: of the packets a client sends before
    the first keys are in use, the one with sequence number [seqno] is accepted
    exactly when it continues one of the two message orders of the key
    exchange (ECDH-like or DH group exchange), or lies beyond both; a refused
    packet is reported with its type and number. *)
Theorem validate_client_msg_strict_kex_spec msg_type seqno :
  validate_client_msg_strict_kex msg_type seqno =
    if bool_decide (Exists (fun o => znth o seqno = Some msg_type) client_strict_orders \/
                    Forall (fun o => znth o seqno = None) client_strict_orders)
    then Ok tt
    else Err (Error.StrictKeyExchangeViolation msg_type seqno).
Proof. apply strict_kex_spec. Qed.
