(* ===== verification/Pty.v ===== *)
(** * Pseudo-terminal opcodes ([russh/src/pty.rs]) *)

From stdpp Require Import base list numbers option.
From Stdlib Require Import ZArith Lia.
From S2P Require Import Prelude.

Inductive Pty : Type :=
| TTY_OP_END | VINTR | VQUIT | VERASE | VKILL | VEOF | VEOL | VEOL2 | VSTART | VSTOP
| VSUSP | VDSUSP | VREPRINT | VWERASE | VLNEXT | VFLUSH | VSWTCH | VSTATUS | VDISCARD
| IGNPAR | PARMRK | INPCK | ISTRIP | INLCR | IGNCR | ICRNL | IUCLC | IXON | IXANY | IXOFF
| IMAXBEL | IUTF8 | ISIG | ICANON | XCASE | ECHO | ECHOE | ECHOK | ECHONL | NOFLSH
| TOSTOP | IEXTEN | ECHOCTL | ECHOKE | PENDIN | OPOST | OLCUC | ONLCR | OCRNL | ONOCR
| ONLRET | CS7 | CS8 | PARENB | PARODD | TTY_OP_ISPEED | TTY_OP_OSPEED.

#[global] Instance Pty_eq_dec : EqDecision Pty.
Proof. solve_decision. Defined.

(** [self as u8]. *)
Definition as_u8 (p : Pty) : Z :=
  match p with
  | TTY_OP_END => 0
  | VINTR => 1
  | VQUIT => 2
  | VERASE => 3
  | VKILL => 4
  | VEOF => 5
  | VEOL => 6
  | VEOL2 => 7
  | VSTART => 8
  | VSTOP => 9
  | VSUSP => 10
  | VDSUSP => 11
  | VREPRINT => 12
  | VWERASE => 13
  | VLNEXT => 14
  | VFLUSH => 15
  | VSWTCH => 16
  | VSTATUS => 17
  | VDISCARD => 18
  | IGNPAR => 30
  | PARMRK => 31
  | INPCK => 32
  | ISTRIP => 33
  | INLCR => 34
  | IGNCR => 35
  | ICRNL => 36
  | IUCLC => 37
  | IXON => 38
  | IXANY => 39
  | IXOFF => 40
  | IMAXBEL => 41
  | IUTF8 => 42
  | ISIG => 50
  | ICANON => 51
  | XCASE => 52
  | ECHO => 53
  | ECHOE => 54
  | ECHOK => 55
  | ECHONL => 56
  | NOFLSH => 57
  | TOSTOP => 58
  | IEXTEN => 59
  | ECHOCTL => 60
  | ECHOKE => 61
  | PENDIN => 62
  | OPOST => 70
  | OLCUC => 71
  | ONLCR => 72
  | OCRNL => 73
  | ONOCR => 74
  | ONLRET => 75
  | CS7 => 90
  | CS8 => 91
  | PARENB => 92
  | PARODD => 93
  | TTY_OP_ISPEED => 128
  | TTY_OP_OSPEED => 129
  end.

Definition from_u8 (x : Z) : option Pty :=
  match x with
  | 0 => None
  | 1 => Some VINTR
  | 2 => Some VQUIT
  | 3 => Some VERASE
  | 4 => Some VKILL
  | 5 => Some VEOF
  | 6 => Some VEOL
  | 7 => Some VEOL2
  | 8 => Some VSTART
  | 9 => Some VSTOP
  | 10 => Some VSUSP
  | 11 => Some VDSUSP
  | 12 => Some VREPRINT
  | 13 => Some VWERASE
  | 14 => Some VLNEXT
  | 15 => Some VFLUSH
  | 16 => Some VSWTCH
  | 17 => Some VSTATUS
  | 18 => Some VDISCARD
  | 30 => Some IGNPAR
  | 31 => Some PARMRK
  | 32 => Some INPCK
  | 33 => Some ISTRIP
  | 34 => Some INLCR
  | 35 => Some IGNCR
  | 36 => Some ICRNL
  | 37 => Some IUCLC
  | 38 => Some IXON
  | 39 => Some IXANY
  | 40 => Some IXOFF
  | 41 => Some IMAXBEL
  | 42 => Some IUTF8
  | 50 => Some ISIG
  | 51 => Some ICANON
  | 52 => Some XCASE
  | 53 => Some ECHO
  | 54 => Some ECHOE
  | 55 => Some ECHOK
  | 56 => Some ECHONL
  | 57 => Some NOFLSH
  | 58 => Some TOSTOP
  | 59 => Some IEXTEN
  | 60 => Some ECHOCTL
  | 61 => Some ECHOKE
  | 62 => Some PENDIN
  | 70 => Some OPOST
  | 71 => Some OLCUC
  | 72 => Some ONLCR
  | 73 => Some OCRNL
  | 74 => Some ONOCR
  | 75 => Some ONLRET
  | 90 => Some CS7
  | 91 => Some CS8
  | 92 => Some PARENB
  | 93 => Some PARODD
  | 128 => Some TTY_OP_ISPEED
  | 129 => Some TTY_OP_OSPEED
  | _ => None
  end.

(** The opcodes round-trip, but for [TTY_OP_END], which ends a mode list and is
    not a mode. *)
Lemma from_u8_as_u8 p : from_u8 (as_u8 p) = if bool_decide (p = TTY_OP_END) then None else Some p.
Proof. by destruct p. Qed.

Lemma as_u8_from_u8 x p : from_u8 x = Some p -> as_u8 p = x.
Proof. unfold from_u8. intros H. repeat case_match; by simplify_eq. Qed.

Lemma as_u8_is_u8 p : is_u8 (as_u8 p).
Proof. unfold is_u8. destruct p; cbn; lia. Qed.
