(* ===== verification/SshRead.v ===== *)
(** * Reading the identification string ([russh/src/ssh_read.rs])

    The first line of a connection is read through a small buffer; what was read
    past it is given back to the reads that follow. *)

From stdpp Require Import base list numbers option strings.
From Stdlib Require Import ZArith Lia.
From S2P Require Import Prelude Encoding LibInner.

Definition SSH_ID_BUF_SIZE : Z := 256.
Definition SSH_ID_MAX_LINE_LEN : Z := 255.
Definition SSH_ID_MAX_PRE_BANNER_LINES : Z := 20.

Definition CR : Z := 13.
Definition LF : Z := 10.

(** [buf] holds the bytes [self.buf[..self.total]] of the array; the ones after
    them are never read. *)
Record ReadSshIdBuffer : Type := mkIdBuffer {
  buf : bytes;
  bytes_read : Z;
  sshid_len : Z;
  pre_banner_lines : Z;
}.

Definition total (b : ReadSshIdBuffer) : Z := zlen b.(buf).
Definition id (b : ReadSshIdBuffer) : bytes := ztake b.(sshid_len) b.(buf).
Definition ReadSshIdBuffer_new : ReadSshIdBuffer := mkIdBuffer [] 0 0 0.

Definition set_bytes_read (n : Z) (b : ReadSshIdBuffer) : ReadSshIdBuffer :=
  mkIdBuffer b.(buf) n b.(sshid_len) b.(pre_banner_lines).
Definition set_sshid_len (n : Z) (b : ReadSshIdBuffer) : ReadSshIdBuffer :=
  mkIdBuffer b.(buf) b.(bytes_read) n b.(pre_banner_lines).
Definition set_lines (n : Z) (b : ReadSshIdBuffer) : ReadSshIdBuffer :=
  mkIdBuffer b.(buf) b.(bytes_read) b.(sshid_len) n.
Definition append (l : bytes) (b : ReadSshIdBuffer) : ReadSshIdBuffer :=
  mkIdBuffer (b.(buf) ++ l) b.(bytes_read) b.(sshid_len) b.(pre_banner_lines).

(** The loop [for i in 0..self.total - 1], [l] being the bytes from [i] on. *)
Fixpoint line_from (i : Z) (l : bytes) : option (Z * Z) :=
  match l with
  | a :: ((b :: _) as l') =>
      if (a =? CR) && (b =? LF) then Some (i, i + 2)
      else if b =? LF then Some (i + 1, i + 2)
      else line_from (i + 1) l'
  | _ => None
  end.

Definition line (l : bytes) : option (Z * Z) := line_from 0 l.

Definition discard_line (b : ReadSshIdBuffer) : ReadSshIdBuffer :=
  mkIdBuffer (zdrop b.(bytes_read) b.(buf)) 0 b.(sshid_len) b.(pre_banner_lines).

(** ** The connection

    What is still to come, and how many bytes each read finds available (all of
    them when the list is over). *)
Record Stream : Type := mkStream { data : bytes; chunks : list Z }.

(** [AsyncReadExt::read] into [room] bytes. *)
Definition read (room : Z) (s : Stream) : bytes * Stream :=
  let available := match s.(chunks) with c :: _ => Z.max 1 c | [] => zlen s.(data) end in
  let n := Z.min available room in
  (ztake n s.(data), mkStream (zdrop n s.(data)) (tail s.(chunks))).

(** [SshRead]; [id] becomes [None] once the buffer was read back. *)
Record SshRead : Type := mkSshRead { idbuf : option ReadSshIdBuffer; r : Stream }.

Definition SshRead_new (s : Stream) : SshRead := mkSshRead (Some ReadSshIdBuffer_new) s.

Definition is_ssh_id (l : bytes) : bool :=
  (8 <=? zlen l) && is_utf8 l &&
  (beq (ztake 9 l) (str "SSH-1.99-") || beq (ztake 8 l) (str "SSH-2.0-")).

(** The part of the loop that handles a full line of length [i]: either a
    result or another turn. *)
Definition handle_line (allow_pre_banner_lines : bool) (i : Z) (b : ReadSshIdBuffer)
  : (Result bytes + unit) * ReadSshIdBuffer :=
  if 0 <? b.(bytes_read) then
    if SSH_ID_MAX_LINE_LEN <? b.(bytes_read) then (inl (Err Error.Version), b)
    else if (8 <=? i) && is_ssh_id (ztake i b.(buf)) then
      let b' := set_sshid_len i b in (inl (Ok (id b')), b')
    else if negb allow_pre_banner_lines then (inl (Err Error.Version), b)
    else
      let b1 := set_lines (b.(pre_banner_lines) + 1) b in
      if SSH_ID_MAX_PRE_BANNER_LINES <? b1.(pre_banner_lines) then (inl (Err Error.Version), b1)
      else (inr tt, discard_line b1)
  else (inr tt, b).

Fixpoint read_ssh_id_loop (allow : bool) (fuel : nat) (b : ReadSshIdBuffer) (s : Stream)
  : Result bytes * (ReadSshIdBuffer * Stream) :=
  match fuel with
  | O => (Panic, (b, s))
  | S fuel' =>
      let after b s i next :=
        match handle_line allow i (set_bytes_read next b) with
        | (inl res, b') => (res, (b', s))
        | (inr tt, b') => read_ssh_id_loop allow fuel' b' s
        end in
      match line b.(buf) with
      | Some (i, next) => after b s i next
      | None =>
          let '(got, s') := read (SSH_ID_BUF_SIZE - total b) s in
          let b1 := append got b in
          match got with
          | [] => (Err Error.Disconnect, (b1, s'))
          | _ =>
              match line b1.(buf) with
              | Some (i, next) => after b1 s' i next
              | None =>
                  if SSH_ID_MAX_LINE_LEN <=? total b1 then (Err Error.Version, (b1, s'))
                  else read_ssh_id_loop allow fuel' b1 s'
              end
          end
      end
  end.

(** Every turn reads a byte or removes a line of at least two, so twice the
    bytes to come, plus the bytes in the buffer, bounds the turns. *)
Definition read_ssh_id_inner (allow_pre_banner_lines : bool) (x : SshRead) : Result bytes * SshRead :=
  match x.(idbuf) with
  | None => (Err Error.Inconsistent, x)
  | Some b =>
      let '(res, (b', s')) :=
        read_ssh_id_loop allow_pre_banner_lines (2 * length x.(r).(data) + length b.(buf) + 1) b x.(r) in
      (res, mkSshRead (Some b') s')
  end.

Definition read_ssh_id (x : SshRead) : Result bytes * SshRead := read_ssh_id_inner true x.
Definition read_client_ssh_id (x : SshRead) : Result bytes * SshRead := read_ssh_id_inner false x.

(** [poll_read] with [buf.remaining() = remaining]. *)
Definition poll_read (remaining : Z) (x : SshRead) : bytes * SshRead :=
  match x.(idbuf) with
  | Some b =>
      if b.(bytes_read) <? total b then
        let last := Z.min (total b) (b.(bytes_read) + remaining) in
        (ztake (last - b.(bytes_read)) (zdrop b.(bytes_read) b.(buf)),
         mkSshRead (Some (set_bytes_read (b.(bytes_read) + (last - b.(bytes_read))) b)) x.(r))
      else let '(got, s') := read remaining x.(r) in (got, mkSshRead None s')
  | None => let '(got, s') := read remaining x.(r) in (got, mkSshRead None s')
  end.

(** ** Lines *)

Lemma line_from_bounds l : forall i k n, line_from i l = Some (k, n) ->
  i <= k < n /\ i + 2 <= n <= i + zlen l.
Proof.
  induction l as [|a l IH]; intros i k n; [done|]. cbn [line_from]. destruct l as [|b l]; [done|].
  pose proof (zlen_nonneg l). rewrite !zlen_cons. destruct (_ && _); [intros [= <- <-]; lia|].
  destruct (b =? LF); [intros [= <- <-]; lia|]. intros Hl. apply IH in Hl. rewrite zlen_cons in Hl. lia.
Qed.

Lemma line_from_app l : forall i m x, line_from i l = Some x -> line_from i (l ++ m) = Some x.
Proof.
  induction l as [|a l IH]; intros i m x; [done|]. destruct l as [|b l]; [done|].
  cbn [line_from app]. destruct (_ && _); [done|]. destruct (b =? LF); [done|]. apply IH.
Qed.

Lemma line_from_prefix l : forall i m k n,
  line_from i (l ++ m) = Some (k, n) -> n <= i + zlen l -> line_from i l = Some (k, n).
Proof.
  induction l as [|a l IH]; intros i m k n Hl Hn.
  { apply line_from_bounds in Hl. rewrite zlen_nil in Hn. lia. }
  destruct l as [|b l].
  { apply line_from_bounds in Hl. rewrite zlen_cons, zlen_nil in Hn. lia. }
  cbn [line_from app] in *. destruct (_ && _); [done|]. destruct (b =? LF); [done|].
  apply (IH (i + 1) m); [done|]. rewrite !zlen_cons in *. lia.
Qed.

(** ** What is read depends on the bytes only *)

(** The identification string of a stream and what follows it, [left] being the
    preliminary lines still tolerated. *)
Fixpoint ssh_id_of (allow : bool) (left : nat) (s : bytes) : Result (bytes * bytes) :=
  match line s with
  | None => Err (if SSH_ID_MAX_LINE_LEN <=? zlen s then Error.Version else Error.Disconnect)
  | Some (k, n) =>
      if SSH_ID_MAX_LINE_LEN <? n then Err Error.Version
      else if is_ssh_id (ztake k s) then Ok (ztake k s, zdrop n s)
      else if negb allow then Err Error.Version
      else match left with O => Err Error.Version | S left' => ssh_id_of allow left' (zdrop n s) end
  end.

Lemma ssh_id_of_eq allow left s : ssh_id_of allow left s =
  match line s with
  | None => Err (if SSH_ID_MAX_LINE_LEN <=? zlen s then Error.Version else Error.Disconnect)
  | Some (k, n) =>
      if SSH_ID_MAX_LINE_LEN <? n then Err Error.Version
      else if is_ssh_id (ztake k s) then Ok (ztake k s, zdrop n s)
      else if negb allow then Err Error.Version
      else match left with O => Err Error.Version | S left' => ssh_id_of allow left' (zdrop n s) end
  end.
Proof. by destruct left. Qed.

(** The buffer still to be handed out. *)
Definition leftover (b : ReadSshIdBuffer) : bytes := zdrop b.(bytes_read) b.(buf).

Definition outcome (res : Result bytes * (ReadSshIdBuffer * Stream)) : Result (bytes * bytes) :=
  match res with
  | (Ok l, (b, s)) => Ok (l, leftover b ++ s.(data))
  | (Err e, _) => Err e
  | (Panic, _) => Panic
  end.

Lemma is_ssh_id_long l : is_ssh_id l = true -> 8 <= zlen l.
Proof. unfold is_ssh_id. intros H. apply andb_true_iff in H as [H _]. apply andb_true_iff in H as [H _]. by apply Z.leb_le. Qed.

(** One full line. *)
Lemma handle_line_spec allow left b s k n :
  line b.(buf) = Some (k, n) -> b.(pre_banner_lines) = 20 - Z.of_nat left ->
  match handle_line allow k (set_bytes_read n b) with
  | (inl res, b') => outcome (res, (b', s)) = ssh_id_of allow left (b.(buf) ++ s.(data))
  | (inr tt, b') =>
      exists left', left = S left' /\ b'.(buf) = zdrop n b.(buf) /\
        b'.(pre_banner_lines) = 20 - Z.of_nat left' /\ n <= SSH_ID_MAX_LINE_LEN /\
        ssh_id_of allow left (b.(buf) ++ s.(data)) = ssh_id_of allow left' (b'.(buf) ++ s.(data))
  end.
Proof.
  intros Hl Hlines. pose proof (line_from_bounds _ _ _ _ Hl) as [Hk Hn].
  rewrite ssh_id_of_eq. unfold line. rewrite (line_from_app _ _ s.(data) _ Hl).
  unfold handle_line. cbn [bytes_read set_bytes_read buf pre_banner_lines set_lines].
  replace (0 <? n) with true by lia. destruct (Z.ltb_spec SSH_ID_MAX_LINE_LEN n) as [|Hmax]; [done|].
  rewrite ztake_app_le by lia.
  assert (Hlen : zlen (ztake k b.(buf)) = k) by (rewrite zlen_ztake; lia).
  destruct (is_ssh_id (ztake k b.(buf))) eqn:Hid.
  - apply is_ssh_id_long in Hid. rewrite Hlen in Hid. replace (8 <=? k) with true by lia. cbn [andb outcome].
    unfold id, leftover. cbn [sshid_len set_sshid_len buf bytes_read set_bytes_read].
    by rewrite zdrop_app_le by lia.
  - rewrite andb_false_r. destruct allow; cbn [negb]; [|done]. unfold SSH_ID_MAX_PRE_BANNER_LINES.
    destruct left as [|left'].
    + replace (20 <? _) with true by lia. done.
    + replace (20 <? _) with false by lia. exists left'. cbn. rewrite zdrop_app_le by lia.
      repeat split; try done; lia.
Qed.

Lemma read_spec room s :
  1 <= room ->
  let '(got, s') := read room s in
  got ++ s'.(data) = s.(data) /\ zlen got <= room /\ (got = [] -> s.(data) = []).
Proof.
  intros Hr. unfold read. cbn [data]. split; [apply ztake_zdrop|].
  set (av := match s.(chunks) with c :: _ => _ | [] => _ end).
  pose proof (zlen_nonneg s.(data)). split.
  - rewrite zlen_ztake. unfold av. destruct s.(chunks); lia.
  - intros Hg. apply zlen_0_nil. apply (f_equal zlen) in Hg. rewrite zlen_ztake in Hg.
    change (zlen []) with 0 in Hg.
    unfold av in Hg. destruct s.(chunks); lia.
Qed.

Lemma read_ssh_id_loop_spec allow fuel : forall left b s,
  zlen b.(buf) <= 254 -> b.(pre_banner_lines) = 20 - Z.of_nat left ->
  (2 * length s.(data) + length b.(buf) < fuel)%nat ->
  outcome (read_ssh_id_loop allow fuel b s) = ssh_id_of allow left (b.(buf) ++ s.(data)).
Proof.
  induction fuel as [|fuel IH]; intros left b s Hb Hlines Hf; [lia|]. cbn [read_ssh_id_loop].
  (* a full line in the buffer [b0] *)
  assert (Hafter : forall b0 s0 k n, line b0.(buf) = Some (k, n) -> zlen b0.(buf) <= 256 ->
    b0.(pre_banner_lines) = 20 - Z.of_nat left ->
    (2 * length s0.(data) + length b0.(buf) < S fuel)%nat ->
    outcome match handle_line allow k (set_bytes_read n b0) with
    | (inl res, b') => (res, (b', s0))
    | (inr tt, b') => read_ssh_id_loop allow fuel b' s0
    end = ssh_id_of allow left (b0.(buf) ++ s0.(data))).
  { intros b0 s0 k n Hl H0 Hp Hm. pose proof (handle_line_spec allow left b0 s0 k n Hl Hp) as Hh.
    pose proof (line_from_bounds _ _ _ _ Hl) as [Hk Hn].
    destruct (handle_line allow k (set_bytes_read n b0)) as [[res|[]] b']; [done|].
    destruct Hh as (left' & -> & Hbuf & Hp' & Hmax & ->). rewrite IH with (left := left'); try done;
      rewrite Hbuf; [rewrite zlen_zdrop; lia|]. unfold zdrop. rewrite length_drop. unfold zlen in *. lia. }
  destruct (line b.(buf)) as [[k n]|] eqn:Hl; [apply Hafter; try done; lia|].
  pose proof (read_spec (SSH_ID_BUF_SIZE - total b) s) as Hread. unfold total, SSH_ID_BUF_SIZE in *.
  destruct (read (256 - zlen b.(buf)) s) as [got s']. destruct Hread as (Hs & Hg & Hnil); [lia|].
  destruct got as [|x got].
  { rewrite Hnil, app_nil_r, ssh_id_of_eq, Hl by done.
    unfold SSH_ID_MAX_LINE_LEN. by replace (255 <=? _) with false by lia. }
  set (b1 := append (x :: got) b).
  assert (Hb1 : b1.(buf) ++ s'.(data) = b.(buf) ++ s.(data)).
  { unfold b1. cbn [buf append]. by rewrite <- app_assoc, Hs. }
  assert (Hlen : zlen b1.(buf) <= 256) by (unfold b1; cbn [buf append]; rewrite zlen_app; lia).
  assert (Hmeas : (2 * length s'.(data) + length b1.(buf) < S fuel)%nat).
  { unfold b1. cbn [buf append]. rewrite <- Hs in Hf. rewrite !length_app in *. cbn [length] in *. lia. }
  rewrite <- Hb1. destruct (line b1.(buf)) as [[k n]|] eqn:Hl1; [by apply Hafter|].
  unfold total. destruct (Z.leb_spec SSH_ID_MAX_LINE_LEN (zlen b1.(buf))) as [Hfull|Hroom].
  - cbn [outcome]. rewrite ssh_id_of_eq. unfold SSH_ID_MAX_LINE_LEN in *.
    destruct (line (b1.(buf) ++ s'.(data))) as [[k n]|] eqn:Hl2.
    + destruct (Z.ltb_spec 255 n); [done|]. apply line_from_prefix in Hl2; [|lia].
      unfold line in Hl1. congruence.
    + rewrite zlen_app. pose proof (zlen_nonneg s'.(data)). by replace (255 <=? _) with true by lia.
  - unfold SSH_ID_MAX_LINE_LEN in Hroom. apply IH; [lia|done|].
    unfold b1. cbn [buf append]. rewrite <- Hs in Hf. rewrite !length_app in *. cbn [length] in *. lia.
Qed.

(** Reading the identification string ends, and its result depends on the
    bytes received only, not on how they arrive: it is the first line, of at most
    255 bytes, that is an SSH identification, after at most 20 other lines where
    these are allowed; and no byte is lost: what follows the line is what the next
    reads will see. *)
Theorem read_ssh_id_spec allow data chunks :
  let '(res, x) := read_ssh_id_inner allow (SshRead_new (mkStream data chunks)) in
  match ssh_id_of allow 20 data with
  | Ok (l, rest) =>
      res = Ok l /\ exists b, x.(idbuf) = Some b /\ leftover b ++ x.(r).(SshRead.data) = rest
  | Err e => res = Err e
  | Panic => False
  end.
Proof.
  unfold read_ssh_id_inner, SshRead_new. cbn [idbuf r SshRead.data].
  pose proof (read_ssh_id_loop_spec allow (2 * length data + length ReadSshIdBuffer_new.(buf) + 1) 20
    ReadSshIdBuffer_new (mkStream data chunks)) as Hloop. cbn [SshRead.data buf] in Hloop.
  destruct (read_ssh_id_loop _ _ _ _) as [res [b s]].
  assert (Ho : outcome (res, (b, s)) = ssh_id_of allow 20 data).
  { apply Hloop; [done|done|cbn; lia]. }
  assert (Hnp : forall left d, ssh_id_of allow left d <> Panic).
  { clear. induction left as [|left IH]; intros d; rewrite ssh_id_of_eq; repeat case_match; done. }
  rewrite <- Ho. destruct res as [l|e|]; cbn [outcome]; [|done|].
  - split; [done|]. by exists b.
  - apply (Hnp 20%nat data). by rewrite <- Ho.
Qed.

(** Reads after it return the bytes of the buffer first, then the stream's. *)
Definition unread (x : SshRead) : bytes :=
  match x.(idbuf) with Some b => leftover b | None => [] end ++ x.(r).(data).

(** After the identification string, each read of at least one byte returns
    the next unread bytes, and none only at the end of the stream. *)
Theorem poll_read_in_order remaining x :
  1 <= remaining -> (forall b, x.(idbuf) = Some b -> 0 <= b.(bytes_read) <= total b) ->
  let '(got, x') := poll_read remaining x in
  unread x = got ++ unread x' /\ zlen got <= remaining /\ (got = [] -> unread x = []) /\
  (forall b, x'.(idbuf) = Some b -> 0 <= b.(bytes_read) <= total b).
Proof.
  intros Hr Hok. unfold poll_read.
  assert (Hraw : unread x = x.(r).(data) ->
    let '(got, s') := read remaining x.(r) in
    unread x = got ++ unread (mkSshRead None s') /\ zlen got <= remaining /\
    (got = [] -> unread x = []) /\ (forall b, (mkSshRead None s').(idbuf) = Some b -> 0 <= b.(bytes_read) <= total b)).
  { intros Hu. pose proof (read_spec remaining x.(r) Hr) as H. destruct (read remaining x.(r)) as [got s'].
    destruct H as (H1 & H2 & H3). rewrite Hu. unfold unread. cbn. rewrite H1. repeat split; try done; by apply H3. }
  destruct x.(idbuf) as [b|] eqn:Hb; [|].
  2: { specialize (Hraw ltac:(unfold unread; by rewrite Hb)). by destruct (read remaining x.(r)). }
  destruct (Hok b eq_refl) as [H0 H1]. unfold total in *. destruct (Z.ltb_spec b.(bytes_read) (zlen b.(buf))) as [Hlt|Hge].
  - set (last := Z.min _ _). unfold unread. rewrite Hb. cbn [idbuf r]. unfold leftover.
    cbn [bytes_read set_bytes_read buf].
    assert (Hlen : zlen (ztake (last - b.(bytes_read)) (zdrop b.(bytes_read) b.(buf))) = last - b.(bytes_read)).
    { rewrite zlen_ztake, zlen_zdrop. lia. }
    split; [|split; [lia|split]].
    + rewrite app_assoc. f_equal. rewrite <- zdrop_zdrop by lia. by rewrite ztake_zdrop.
    + intros E. rewrite E, zlen_nil in Hlen. lia.
    + intros b' [= <-]. unfold total. cbn. lia.
  - assert (Hu : unread x = x.(r).(data)).
    { unfold unread, leftover. rewrite Hb. by rewrite zdrop_all by lia. }
    specialize (Hraw Hu). by destruct (read remaining x.(r)).
Qed.

Lemma poll_read_in_order_witness :
  let x := mkSshRead (Some (mkIdBuffer [1; 2; 3] 1 0 0)) (mkStream [4; 5] [1]) in
  let '(got, x') := poll_read 1 x in
  unread x = got ++ unread x' /\ zlen got <= 1 /\ (got = [] -> unread x = []) /\
  (forall b, x'.(idbuf) = Some b -> 0 <= b.(bytes_read) <= total b).
Proof.
  apply (poll_read_in_order 1 (mkSshRead (Some (mkIdBuffer [1; 2; 3] 1 0 0)) (mkStream [4; 5] [1]))).
  - lia.
  - intros b [= <-]. split; vm_compute; discriminate.
Defined.

(** A line feed at the very start is not the end of an (empty) line: it becomes
    the first byte of the next line, which then is no identification. *)
Lemma leading_newline_hides_id :
  ssh_id_of true 20 (LF :: str "SSH-2.0-x" ++ [CR; LF]) = Err Error.Disconnect /\
  ssh_id_of true 20 (CR :: LF :: str "SSH-2.0-x" ++ [CR; LF]) = Ok (str "SSH-2.0-x", []).
Proof. split; vm_compute; reflexivity. Qed.
