(* ===== verification/Channels.v ===== *)
(** * The application's end of a channel ([russh/src/channels/])

    [ChannelMsg] is what a session and the user of a channel exchange.  Data the
    user writes is cut into messages that fit the packet size and the shared
    window value ([ChannelWriteHalf::send_bytes] and the [AsyncWrite] half
    [ChannelTx]); [ChannelRx] turns the messages received back into a stream of
    bytes.

    An [await] that suspends is a point where other tasks run: what they do to
    the shared window is an argument of the model (the value found at each
    wake-up), so the theorems hold for every interleaving. *)

From stdpp Require Import base list numbers option.
From Stdlib Require Import ZArith Lia.
From S2P Require Import Prelude LibInner Pty.

(** ** Messages *)
Module ChannelMsg.
Inductive msg : Type :=
| Open (id : ChannelId) (max_packet_size window_size : Z)
| Data (data : bytes)
| ExtendedData (data : bytes) (ext : Z)
| Eof
| Close
| RequestPty (want_reply : bool) (term : bytes) (col_width row_height pix_width pix_height : Z)
    (terminal_modes : list (Pty.Pty * Z))
| RequestShell (want_reply : bool)
| Exec (want_reply : bool) (command : bytes)
| Signal (signal : Sig.sig)
| RequestSubsystem (want_reply : bool) (name : bytes)
| RequestX11 (want_reply single_connection : bool)
    (x11_authentication_protocol x11_authentication_cookie : bytes) (x11_screen_number : Z)
| SetEnv (want_reply : bool) (variable_name variable_value : bytes)
| WindowChange (col_width row_height pix_width pix_height : Z)
| AgentForward (want_reply : bool)
| XonXoff (client_can_do : bool)
| ExitStatus (exit_status : Z)
| ExitSignal (signal_name : Sig.sig) (core_dumped : bool) (error_message lang_tag : bytes)
| WindowAdjusted (new_size : Z)
| Success
| Failure
| OpenFailure (reason : ChannelOpenFailure.failure).
End ChannelMsg.
Abbreviation ChannelMsg := ChannelMsg.msg.

(** ** The shared window value

    [Arc<Mutex<u32>>] with its [Notify]; [notifications] counts the calls of
    [notify_one]. *)
Record WindowSizeRef : Type := mkWindowSizeRef { value : Z; notifications : Z }.

Definition WindowSizeRef_new (initial : Z) : WindowSizeRef := mkWindowSizeRef initial 0.

Definition notify_one (w : WindowSizeRef) : WindowSizeRef :=
  mkWindowSizeRef w.(value) (w.(notifications) + 1).

Definition update (v : Z) (w : WindowSizeRef) : WindowSizeRef :=
  notify_one (mkWindowSizeRef v w.(notifications)).

(** ** The writing half *)

(** [ChannelWriteHalf]: the window, and the bounded queue to the session
    ([Sender<Send>]), as what was put into it and whether the session still
    reads it. *)
Record ChannelWriteHalf : Type := mkWriteHalf {
  id : ChannelId;
  sent : list (ChannelId * ChannelMsg);
  session_alive : bool;
  max_packet_size : Z;
  window_size : WindowSizeRef;
}.

Definition set_window (w : WindowSizeRef) (h : ChannelWriteHalf) : ChannelWriteHalf :=
  mkWriteHalf h.(id) h.(sent) h.(session_alive) h.(max_packet_size) w.
Definition push_sent (m : ChannelMsg) (h : ChannelWriteHalf) : ChannelWriteHalf :=
  mkWriteHalf h.(id) (h.(sent) ++ [(h.(id), m)]) h.(session_alive) h.(max_packet_size)
    h.(window_size).

Abbreviation WM A := (st ChannelWriteHalf Error.error A).

Definition writable_packet_size (h : ChannelWriteHalf) : Z :=
  Z.min h.(max_packet_size) h.(window_size).(value).

Definition send_msg (m : ChannelMsg) : WM unit := fun h =>
  if h.(session_alive) then (Ok tt, push_sent m h) else (Err Error.SendError, h).

Definition request_pty (want_reply : bool) (term : bytes)
    (col_width row_height pix_width pix_height : Z) (terminal_modes : list (Pty.Pty * Z)) : WM unit :=
  send_msg (ChannelMsg.RequestPty want_reply term col_width row_height pix_width pix_height
    terminal_modes).
Definition request_shell (want_reply : bool) : WM unit :=
  send_msg (ChannelMsg.RequestShell want_reply).
Definition exec (want_reply : bool) (command : bytes) : WM unit :=
  send_msg (ChannelMsg.Exec want_reply command).
Definition signal (s : Sig.sig) : WM unit := send_msg (ChannelMsg.Signal s).
Definition request_subsystem (want_reply : bool) (name : bytes) : WM unit :=
  send_msg (ChannelMsg.RequestSubsystem want_reply name).
Definition request_x11 (want_reply single_connection : bool) (protocol cookie : bytes)
    (screen_number : Z) : WM unit :=
  send_msg (ChannelMsg.RequestX11 want_reply single_connection protocol cookie screen_number).
Definition set_env (want_reply : bool) (name value : bytes) : WM unit :=
  send_msg (ChannelMsg.SetEnv want_reply name value).
Definition window_change (col_width row_height pix_width pix_height : Z) : WM unit :=
  send_msg (ChannelMsg.WindowChange col_width row_height pix_width pix_height).
Definition agent_forward (want_reply : bool) : WM unit :=
  send_msg (ChannelMsg.AgentForward want_reply).
Definition eof : WM unit := send_msg ChannelMsg.Eof.
Definition exit_status (status : Z) : WM unit := send_msg (ChannelMsg.ExitStatus status).
Definition close : WM unit := send_msg ChannelMsg.Close.

(** What an [async] function does when polled until it blocks: it returns, or it
    waits for another task. *)
Inductive poll (A : Type) : Type := Ready (a : A) | Pending.
Arguments Ready {A} a.
Arguments Pending {A}.

(** One turn of the loop of [reserve_writable_chunk], under the lock. *)
Definition reserve_turn (remaining : Z) (h : ChannelWriteHalf) : option Z * ChannelWriteHalf :=
  let w := h.(window_size) in
  let writable := Z.min (Z.min h.(max_packet_size) w.(value)) remaining in
  if 0 <? writable then
    let w1 := mkWindowSizeRef (w.(value) - writable) w.(notifications) in
    (Some writable, set_window (if 0 <? w1.(value) then notify_one w1 else w1) h)
  else (None, h).

(** [reserve_writable_chunk]: each turn that finds no room waits for a
    notification; [wakes] is the window found at each wake-up, what is left of
    it is returned. *)
Fixpoint reserve_loop (remaining : Z) (wakes : list WindowSizeRef) (h : ChannelWriteHalf)
  : poll Z * list WindowSizeRef * ChannelWriteHalf :=
  match reserve_turn remaining h with
  | (Some n, h') => (Ready n, wakes, h')
  | (None, h') =>
      match wakes with
      | [] => (Pending, [], h')
      | w :: wakes' => reserve_loop remaining wakes' (set_window w h')
      end
  end.

Definition reserve_writable_chunk (remaining : Z) (wakes : list WindowSizeRef) (h : ChannelWriteHalf)
  : poll (Result Z) * list WindowSizeRef * ChannelWriteHalf :=
  if h.(max_packet_size) =? 0 then (Ready (Err Error.Inconsistent), wakes, h)
  else
    match reserve_loop remaining wakes h with
    | (Ready n, wakes', h') => (Ready (Ok n), wakes', h')
    | (Pending, wakes', h') => (Pending, wakes', h')
    end.

Definition data_msg (ext : option Z) (chunk : bytes) : ChannelMsg :=
  match ext with
  | None => ChannelMsg.Data chunk
  | Some e => ChannelMsg.ExtendedData chunk e
  end.

(** The [while offset < data.len()] loop of [send_bytes]; [data] is what
    follows the offset, so its length is fuel enough. *)
Fixpoint send_loop (ext : option Z) (fuel : nat) (data : bytes) (wakes : list WindowSizeRef)
    (h : ChannelWriteHalf) : poll (Result unit) * list WindowSizeRef * ChannelWriteHalf :=
  match data, fuel with
  | [], _ => (Ready (Ok tt), wakes, h)
  | _, O => (Ready Panic, wakes, h)
  | _, S fuel' =>
      match reserve_writable_chunk (zlen data) wakes h with
      | (Ready (Ok writable), wakes', h') =>
          match send_msg (data_msg ext (ztake writable data)) h' with
          | (Ok tt, h'') => send_loop ext fuel' (zdrop writable data) wakes' h''
          | (Err e, h'') => (Ready (Err e), wakes', h'')
          | (Panic, h'') => (Ready Panic, wakes', h'')
          end
      | (Ready (Err e), wakes', h') => (Ready (Err e), wakes', h')
      | (Ready Panic, wakes', h') => (Ready Panic, wakes', h')
      | (Pending, wakes', h') => (Pending, wakes', h')
      end
  end.

Definition send_bytes (ext : option Z) (data : bytes) (wakes : list WindowSizeRef)
    (h : ChannelWriteHalf) : poll (Result unit) * list WindowSizeRef * ChannelWriteHalf :=
  send_loop ext (length data) data wakes h.

(** ** [ChannelTx] ([channels/io/tx.rs]) *)

(** The future of [reserve_owned] with the message and the byte count it
    carries; how it resolves is decided by the queue. *)
Record ChannelTx : Type := mkChannelTx {
  tx_half : ChannelWriteHalf;       (* sender, id, window, max_packet_size *)
  tx_ext : option Z;
  send_fut : option (ChannelMsg * Z);
}.

Definition set_send_fut (f : option (ChannelMsg * Z)) (t : ChannelTx) : ChannelTx :=
  mkChannelTx t.(tx_half) t.(tx_ext) f.

(** [poll_writable] with the lock granted. *)
Definition poll_writable (buf_len : Z) (t : ChannelTx) : poll Z * ChannelTx :=
  let h := t.(tx_half) in
  let w := h.(window_size) in
  let writable := Z.min (Z.min h.(max_packet_size) w.(value)) (to_u32 buf_len) in
  if 0 <? writable then
    let w1 := mkWindowSizeRef (w.(value) - writable) w.(notifications) in
    (Ready writable,
     mkChannelTx (set_window (if 0 <? w1.(value) then notify_one w1 else w1) h) t.(tx_ext)
       t.(send_fut))
  else (Pending, t).

Definition poll_mk_msg (buf : bytes) (t : ChannelTx) : poll (ChannelMsg * Z) * ChannelTx :=
  match poll_writable (zlen buf) t with
  | (Ready writable, t') => (Ready (data_msg t.(tx_ext) (ztake writable buf), writable), t')
  | (Pending, t') => (Pending, t')
  end.

(** How the reservation resolves when polled. *)
Inductive permit_outcome : Type := PermitGranted | PermitRefused | PermitWaits.

Inductive IoError : Type := WriteZero | BrokenPipe.

Definition handle_write_result (granted : bool) (m : ChannelMsg) (writable : Z) (t : ChannelTx)
  : (Z + IoError) * ChannelTx :=
  let t1 := set_send_fut None t in
  if granted
  then (inl writable, mkChannelTx (push_sent m t1.(tx_half)) t1.(tx_ext) None)
  else (inr BrokenPipe, t1).

(** [poll_unpin] of the stored future, then [handle_write_result]. *)
Definition poll_send (o : permit_outcome) (m : ChannelMsg) (writable : Z) (t : ChannelTx)
  : poll (Z + IoError) * ChannelTx :=
  match o with
  | PermitWaits => (Pending, t)
  | PermitGranted => let '(r, t') := handle_write_result true m writable t in (Ready r, t')
  | PermitRefused => let '(r, t') := handle_write_result false m writable t in (Ready r, t')
  end.

Definition poll_write (buf : bytes) (o : permit_outcome) (t : ChannelTx)
  : poll (Z + IoError) * ChannelTx :=
  match buf with
  | [] => (Ready (inr WriteZero), t)
  | _ =>
      match t.(send_fut) with
      | Some (m, writable) => poll_send o m writable t
      | None =>
          match poll_mk_msg buf t with
          | (Ready (m, writable), t1) =>
              poll_send o m writable (set_send_fut (Some (m, writable)) t1)
          | (Pending, t1) => (Pending, t1)
          end
      end
  end.

(** [poll_shutdown]: whichever reservation is under way carries [Eof]. *)
Definition poll_shutdown (o : permit_outcome) (t : ChannelTx) : poll (unit + IoError) * ChannelTx :=
  let t1 := match t.(send_fut) with
            | Some _ => t
            | None => set_send_fut (Some (ChannelMsg.Eof, 0)) t
            end in
  match poll_send o ChannelMsg.Eof 0 t1 with
  | (Ready (inl _), t2) => (Ready (inl tt), t2)
  | (Ready (inr e), t2) => (Ready (inr e), t2)
  | (Pending, t2) => (Pending, t2)
  end.

(** ** [ChannelRx] ([channels/io/rx.rs]) *)
Record ChannelRx : Type := mkChannelRx {
  receiver : list ChannelMsg;       (* what the session put into the channel's queue *)
  receiver_closed : bool;           (* [receiver.close()] was called *)
  rx_buffer : option (ChannelMsg * Z);
  rx_ext : option Z;
}.

Inductive read_outcome : Type :=
| Filled (data : bytes)             (* [Ready(Ok(()))] after [put_slice(data)]; empty: end of file *)
| Again.                            (* [Pending], woken at once *)

(** The arm for a data message that belongs to this reader. *)
Definition rx_take (m : ChannelMsg) (data : bytes) (idx remaining : Z) (x : ChannelRx)
  : read_outcome * ChannelRx :=
  let readable := Z.min remaining (zlen data - idx) in
  let idx' := idx + readable in
  (Filled (ztake readable (zdrop idx data)),
   mkChannelRx x.(receiver) x.(receiver_closed)
     (if negb (idx' =? zlen data) then Some (m, idx') else None) x.(rx_ext)).

(** [poll_read] with [buf.remaining() = remaining] when a message, or the end
    of the queue, is there to be read. *)
Definition poll_read (remaining : Z) (x : ChannelRx) : read_outcome * ChannelRx :=
  let next :=
    match x.(rx_buffer) with
    | Some b => Some (b, mkChannelRx x.(receiver) x.(receiver_closed) None x.(rx_ext))
    | None =>
        match x.(receiver) with
        | m :: rest => Some ((m, 0), mkChannelRx rest x.(receiver_closed) None x.(rx_ext))
        | [] => None
        end
    end in
  match next with
  | None => (Filled [], x)
  | Some ((m, idx), x1) =>
      match m, x.(rx_ext) with
      | ChannelMsg.Data data, None => rx_take m data idx remaining x1
      | ChannelMsg.ExtendedData data ext, Some target =>
          if ext =? target then rx_take m data idx remaining x1 else (Again, x1)
      | ChannelMsg.Eof, _ => (Filled [], mkChannelRx x1.(receiver) true None x1.(rx_ext))
      | _, _ => (Again, x1)
      end
  end.

(** ** Writing: the window is spent on the data, in order *)

Definition credit (wakes : list WindowSizeRef) : Z := foldr (fun w acc => w.(value) + acc) 0 wakes.
Definition windows_ok (wakes : list WindowSizeRef) : Prop := Forall (fun w => 0 <= w.(value)) wakes.

Lemma credit_app a b : credit (a ++ b) = credit a + credit b.
Proof. unfold credit. induction a; cbn; lia. Qed.

Lemma credit_nonneg a : windows_ok a -> 0 <= credit a.
Proof. unfold credit. induction 1; cbn [foldr]; lia. Qed.

Definition set_value (v : Z) (n : Z) (h : ChannelWriteHalf) : ChannelWriteHalf :=
  set_window (mkWindowSizeRef v n) h.

(** A reservation takes its bytes from the window; it waits only when the
    window is empty. *)
Lemma reserve_loop_spec remaining wakes h :
  0 < h.(max_packet_size) -> 0 < remaining -> 0 <= h.(window_size).(value) -> windows_ok wakes ->
  match reserve_loop remaining wakes h with
  | (r, wakes', h') =>
      exists used, wakes = used ++ wakes' /\ 0 <= h'.(window_size).(value) /\
      h' = set_window h'.(window_size) h /\
      match r with
      | Ready n => 0 < n <= Z.min h.(max_packet_size) remaining /\
          n + h'.(window_size).(value) = h.(window_size).(value) + credit used
      | Pending => wakes' = [] /\ h'.(window_size).(value) = 0 /\
          h.(window_size).(value) + credit used = 0
      end
  end.
Proof.
  intros Hm Hr Hv Hw. revert h Hm Hv. induction Hw as [|w wakes Hw0 Hw IH]; intros h Hm Hv;
    cbn [reserve_loop]; unfold reserve_turn; cbv zeta;
    (destruct (Z.ltb_spec 0 (Z.min (Z.min h.(max_packet_size) h.(window_size).(value)) remaining)) as [H|H]).
  - exists []. repeat case_match; cbn; (split; [done|]); (split; [lia|]); (split; [done|]); lia.
  - exists []. cbn. split; [done|]. split; [lia|]. split; [by destruct h|]. split; [done|lia].
  - exists []. repeat case_match; cbn; (split; [done|]); (split; [lia|]); (split; [done|]); lia.
  - specialize (IH (set_window w h)). cbn in IH.
    destruct (reserve_loop remaining wakes (set_window w h)) as [[r wakes'] h'] eqn:E.
    destruct IH as (used & -> & Hv' & Hh & Hres); [done..|].
    exists (w :: used). split; [done|]. split; [done|]. split; [by rewrite Hh|].
    change (credit (w :: used)) with (w.(value) + credit used).
    cbn in Hres. destruct r; [lia|]. destruct Hres as (-> & Hz & Hc). repeat split; done || lia.
Qed.

Definition chunk_ok (max : Z) (c : bytes) : Prop := 0 < zlen c <= max.

Lemma send_loop_spec ext fuel : forall data wakes h,
  (length data <= fuel)%nat -> h.(session_alive) = true ->
  0 < h.(max_packet_size) -> 0 <= h.(window_size).(value) -> windows_ok wakes ->
  match send_loop ext fuel data wakes h with
  | (r, wakes', h') =>
      exists used chunks rest,
        wakes = used ++ wakes' /\ data = concat chunks ++ rest /\
        Forall (chunk_ok h.(max_packet_size)) chunks /\
        h'.(sent) = h.(sent) ++ map (fun c => (h.(id), data_msg ext c)) chunks /\
        zlen (concat chunks) + h'.(window_size).(value) = h.(window_size).(value) + credit used /\
        0 <= h'.(window_size).(value) /\
        ((r = Ready (Ok tt) /\ rest = []) \/
         (r = Pending /\ rest <> [] /\ wakes' = [] /\ h'.(window_size).(value) = 0))
  end.
Proof.
  induction fuel as [|fuel IH]; intros data wakes h Hf Ha Hm Hv Hw.
  { destruct data; [|cbn in Hf; lia]. cbn. exists [], [], []. cbn. rewrite app_nil_r, zlen_nil.
    repeat split; try done; try lia. by left. }
  destruct data as [|x data'].
  { cbn. exists [], [], []. cbn. rewrite app_nil_r, zlen_nil. repeat split; try done; try lia. by left. }
  cbn [send_loop]. set (data := x :: data') in *.
  assert (Hd : 0 < zlen data) by (unfold data; zlia).
  unfold reserve_writable_chunk. replace (h.(max_packet_size) =? 0) with false by lia.
  pose proof (reserve_loop_spec (zlen data) wakes h Hm Hd Hv Hw) as Hres.
  destruct (reserve_loop (zlen data) wakes h) as [[[n|] wakes1] h1];
    destruct Hres as (used & -> & Hv1 & Hh1 & Hn).
  - destruct h1 as [i1 s1 a1 m1 w1]. injection Hh1 as -> -> -> ->. cbn in Hv1, Hn.
    unfold send_msg. cbn [session_alive]. rewrite Ha.
    apply Forall_app in Hw as [Hwu Hw1].
    set (h2 := push_sent _ _).
    pose proof (IH (zdrop n data) wakes1 h2) as Hloop.
    destruct (send_loop ext fuel (zdrop n data) wakes1 h2) as [[r wakes'] h'].
    destruct Hloop as (used' & chunks & rest & -> & Hcat & Hall & Hsent & Hacc & Hv' & Hr);
      [|done..|].
    { assert (zlen (zdrop n data) < zlen data) by zlia. unfold zlen in *. cbn in *. lia. }
    exists (used ++ used'), (ztake n data :: chunks), rest.
    split; [by rewrite app_assoc|].
    split. { cbn [concat]. rewrite <- app_assoc, <- Hcat. by rewrite ztake_zdrop. }
    assert (Hlen : zlen (ztake n data) = n) by (rewrite zlen_ztake; lia).
    split. { constructor; [|done]. unfold chunk_ok. lia. }
    split. { rewrite Hsent. cbn. by rewrite <- app_assoc. }
    split. { cbn [concat]. rewrite zlen_app, credit_app. cbn in Hacc. lia. }
    done.
  - destruct Hn as (-> & Hz & Hc). exists used, [], data. cbn [concat map app].
    rewrite Hh1. cbn. rewrite !app_nil_r, zlen_nil.
    split; [done|]. split; [done|]. split; [done|]. split; [done|].
    split; [lia|]. split; [lia|]. right. unfold data. auto.
Qed.

(** Writing to a channel spends exactly the window: whatever other tasks do
    to the window between suspensions, [send_bytes] queues the data in order, in
    non-empty messages of at most the maximum packet size; the bytes queued and
    the window left add up to the window found at the start and at the
    wake-ups; and it is still waiting only if the window is used up and the
    windows granted did not suffice for the data. *)
Theorem send_bytes_spec ext data wakes h :
  h.(session_alive) = true -> 0 < h.(max_packet_size) -> 0 <= h.(window_size).(value) ->
  windows_ok wakes ->
  match send_bytes ext data wakes h with
  | (r, wakes', h') =>
      exists used chunks rest,
        wakes = used ++ wakes' /\ data = concat chunks ++ rest /\
        Forall (chunk_ok h.(max_packet_size)) chunks /\
        h'.(sent) = h.(sent) ++ map (fun c => (h.(id), data_msg ext c)) chunks /\
        zlen (concat chunks) + h'.(window_size).(value) = h.(window_size).(value) + credit used /\
        0 <= h'.(window_size).(value) /\
        ((r = Ready (Ok tt) /\ rest = []) \/
         (r = Pending /\ h.(window_size).(value) + credit wakes < zlen data))
  end.
Proof.
  intros Ha Hm Hv Hw. unfold send_bytes.
  pose proof (send_loop_spec ext (length data) data wakes h (le_n _) Ha Hm Hv Hw) as H.
  destruct (send_loop ext (length data) data wakes h) as [[r wakes'] h'].
  destruct H as (used & chunks & rest & -> & Hd & Hc & Hs & Hacc & Hv' & Hr).
  exists used, chunks, rest. repeat (split; [done|]).
  destruct Hr as [|(-> & Hrest & -> & Hz)]; [by left|right]. split; [done|].
  rewrite Hd, app_nil_r. destruct rest; [done|]. zlia.
Qed.

(** ** [ChannelTx] *)

(** A reservation under way carries a non-empty prefix of the buffer being
    written. *)
Definition tx_ok (buf : bytes) (t : ChannelTx) : Prop :=
  match t.(send_fut) with
  | Some (m, n) => 0 < n <= zlen buf /\ m = data_msg t.(tx_ext) (ztake n buf)
  | None => True
  end.

Definition reserved (t : ChannelTx) : Z := match t.(send_fut) with Some (_, n) => n | None => 0 end.
Definition tx_window (t : ChannelTx) : Z := t.(tx_half).(window_size).(value).

(** [AsyncWrite] on a channel: polled with the same buffer until it is
    ready, [poll_write] reserves window once, and when it answers [n] exactly the
    first [n] bytes, at least one, are on their way to the session and paid for
    by the window; a queue that is closed is a broken pipe. *)
Theorem poll_write_spec buf o t :
  buf <> [] -> zlen buf < U32_MOD -> tx_ok buf t ->
  match poll_write buf o t with
  | (Ready (inl n), t') =>
      0 < n <= zlen buf /\ t'.(send_fut) = None /\
      t'.(tx_half).(sent) =
        t.(tx_half).(sent) ++ [(t.(tx_half).(id), data_msg t.(tx_ext) (ztake n buf))] /\
      tx_window t' + n = tx_window t + reserved t
  | (Ready (inr e), t') => e = BrokenPipe /\ o = PermitRefused /\ t'.(tx_half).(sent) = t.(tx_half).(sent)
  | (Pending, t') =>
      tx_ok buf t' /\ t'.(tx_ext) = t.(tx_ext) /\ t'.(tx_half).(sent) = t.(tx_half).(sent) /\
      tx_window t' + reserved t' = tx_window t + reserved t
  end.
Proof.
  intros Hb Hl Hok. unfold poll_write. destruct buf as [|x buf']; [done|].
  set (buf := x :: buf') in *. assert (0 < zlen buf) by (unfold buf; zlia).
  unfold tx_ok in Hok.
  destruct t.(send_fut) as [[m n]|] eqn:Hf.
  - destruct Hok as [Hn ->]. unfold reserved. rewrite Hf.
    destruct o; cbn; [repeat split; done || lia|done|].
    unfold tx_ok. rewrite Hf. repeat split; done || lia.
  - unfold poll_mk_msg, poll_writable. cbv zeta. rewrite to_u32_small by (unfold is_u32; lia).
    unfold reserved. rewrite Hf.
    destruct (Z.ltb_spec 0 (Z.min (Z.min (max_packet_size (tx_half t)) (value (window_size (tx_half t))))
      (zlen buf))) as [Hw|Hw]; cbn.
    + destruct o; cbn; unfold tx_window; cbn; unfold tx_ok; cbn; repeat case_match; cbn;
        repeat split; done || lia.
    + unfold tx_ok. rewrite Hf. done.
Qed.

(** The room for a buffer is computed from its length as a [u32]: a buffer of
    exactly 4 GiB is never writable, whatever the window. *)
Lemma poll_writable_4GiB t : poll_writable U32_MOD t = (Pending, t).
Proof.
  unfold poll_writable. cbv zeta. replace (to_u32 U32_MOD) with 0 by done.
  by replace (0 <? Z.min _ 0) with false by lia.
Qed.

(** [update] stores the session's count of the window, which does not know
    the bytes that writers reserved and the session has not seen yet: after a
    writer took all of a window of 100 and the peer granted 50 more, writers may
    reserve 150, so 250 bytes are under way against a window of 150. *)
Lemma update_forgets_reservations :
  let h := mkWriteHalf 0 [] true 1000 (WindowSizeRef_new 100) in
  let '(r1, h1) := reserve_turn 100 h in
  let '(r2, _) := reserve_turn 500 (set_window (update (100 + 50) h1.(window_size)) h1) in
  r1 = Some 100 /\ r2 = Some 150.
Proof. by split. Qed.

(** ** [ChannelRx] *)

(** The bytes of a message that belong to a reader. *)
Definition rx_match (ext : option Z) (m : ChannelMsg) : option bytes :=
  match m, ext with
  | ChannelMsg.Data data, None => Some data
  | ChannelMsg.ExtendedData data e, Some target => if e =? target then Some data else None
  | _, _ => None
  end.

(** What a reader of stream [ext] should see of a queue: the data of its
    messages up to end-of-file. *)
Fixpoint rx_bytes (ext : option Z) (l : list ChannelMsg) : bytes :=
  match l with
  | [] => []
  | ChannelMsg.Eof :: _ => []
  | m :: l' => default [] (rx_match ext m) ++ rx_bytes ext l'
  end.

(** What is left for the reader, a message read in part included. *)
Definition rx_stream (x : ChannelRx) : bytes :=
  match x.(rx_buffer) with
  | Some (m, idx) => zdrop idx (default [] (rx_match x.(rx_ext) m))
  | None => []
  end ++ rx_bytes x.(rx_ext) x.(receiver).

(** The session delivers no empty data; a partly read message has bytes left. *)
Definition rx_ok (x : ChannelRx) : Prop :=
  Forall (fun m => rx_match x.(rx_ext) m <> Some []) x.(receiver) /\
  match x.(rx_buffer) with
  | Some (m, idx) => exists data, rx_match x.(rx_ext) m = Some data /\ 0 <= idx < zlen data
  | None => True
  end.

Lemma rx_take_spec m data idx remaining x :
  rx_match x.(rx_ext) m = Some data -> 0 <= idx < zlen data -> 0 < remaining ->
  Forall (fun m => rx_match x.(rx_ext) m <> Some []) x.(receiver) ->
  exists d, d <> [] /\ zlen d <= remaining /\
    let '(r, x') := rx_take m data idx remaining x in
    r = Filled d /\ rx_ok x' /\ zdrop idx data ++ rx_bytes x.(rx_ext) x.(receiver) = d ++ rx_stream x'.
Proof.
  intros Hm Hi Hr Hne. unfold rx_take. cbv zeta. set (n := Z.min remaining (zlen data - idx)).
  exists (ztake n (zdrop idx data)).
  assert (Hl : zlen (ztake n (zdrop idx data)) = n).
  { rewrite zlen_ztake, zlen_zdrop. lia. }
  split. { intros E. rewrite E, zlen_nil in Hl. lia. }
  split; [lia|]. split; [done|]. unfold rx_ok, rx_stream. cbn.
  rewrite <- (ztake_zdrop n (zdrop idx data)) at 1. rewrite zdrop_zdrop, <- app_assoc by lia.
  destruct (Z.eqb_spec (idx + n) (zlen data)) as [E|E]; cbn.
  - rewrite (zdrop_all (idx + n) data) by lia. done.
  - rewrite Hm. cbn. split; [|done]. split; [done|]. exists data. split; [done|]. lia.
Qed.

(** One poll: it hands over the next bytes, or drops one message meant for
    another reader, or reports the end of the stream. *)
Lemma poll_read_spec remaining x :
  rx_ok x -> 0 < remaining ->
  let '(r, x') := poll_read remaining x in
  match r with
  | Filled [] => rx_stream x = []
  | Filled d => zlen d <= remaining /\ rx_ok x' /\ rx_stream x = d ++ rx_stream x'
  | Again => rx_ok x' /\ rx_stream x' = rx_stream x /\
      (length x'.(receiver) < length x.(receiver))%nat
  end /\
  x'.(rx_ext) = x.(rx_ext) /\ (length x'.(receiver) <= length x.(receiver))%nat.
Proof.
  intros [Hne Hbuf] Hr. unfold poll_read.
  destruct x as [l closed b ext]. cbn [rx_buffer rx_ext receiver receiver_closed] in *.
  assert (Hdata : forall m data idx rest, rx_match ext m = Some data -> 0 <= idx < zlen data ->
    Forall (fun m => rx_match ext m <> Some []) rest ->
    let '(r, x') := rx_take m data idx remaining (mkChannelRx rest closed None ext) in
    exists d, r = Filled d /\ d <> [] /\ zlen d <= remaining /\ rx_ok x' /\
      zdrop idx data ++ rx_bytes ext rest = d ++ rx_stream x' /\
      x'.(rx_ext) = ext /\ x'.(receiver) = rest).
  { intros m data idx rest Hm Hi Hrest.
    destruct (rx_take_spec m data idx remaining (mkChannelRx rest closed None ext)) as (d & Hd & Hl & H);
      [done..|].
    unfold rx_take in *. cbv zeta in *. destruct H as (Hf & Hok & Hs). exists d. done. }
  assert (Hput : forall m data idx rest (y : ChannelRx), rx_match ext m = Some data ->
    0 <= idx < zlen data -> Forall (fun m => rx_match ext m <> Some []) rest ->
    rx_stream y = zdrop idx data ++ rx_bytes ext rest -> (length rest <= length y.(receiver))%nat ->
    let '(r, x') := rx_take m data idx remaining (mkChannelRx rest closed None ext) in
    match r with
    | Filled [] => rx_stream y = []
    | Filled d => zlen d <= remaining /\ rx_ok x' /\ rx_stream y = d ++ rx_stream x'
    | Again => rx_ok x' /\ rx_stream x' = rx_stream y /\
        (length x'.(receiver) < length y.(receiver))%nat
    end /\ x'.(rx_ext) = ext /\ (length x'.(receiver) <= length y.(receiver))%nat).
  { intros m data idx rest y Hm Hi Hrest Hy Hlen. specialize (Hdata m data idx rest Hm Hi Hrest).
    destruct (rx_take _ _ _ _ _) as [r x'].
    destruct Hdata as (d & -> & Hd & Hl & Hok & Hs & He & Hrc). rewrite Hrc, Hy, Hs.
    destruct d; [done|]. done. }
  destruct b as [[m idx]|].
  - destruct Hbuf as (data & Hm & Hi).
    pose proof (Hput m data idx l (mkChannelRx l closed (Some (m, idx)) ext) Hm Hi Hne) as H.
    unfold rx_stream in H at 1. cbn [rx_buffer rx_ext receiver] in H. rewrite Hm in H. cbn [default] in H.
    specialize (H eq_refl (le_n _)).
    destruct m; cbn in Hm; try done; [destruct ext; [done|]|destruct ext; [|done]].
    + by simplify_eq.
    + destruct (ext0 =? z) eqn:Ez; [|done]. by simplify_eq.
  - destruct l as [|m rest]; [done|]. rewrite Forall_cons_iff in Hne. destruct Hne as [Hm0 Hne].
    destruct (rx_match ext m) as [data|] eqn:Hm.
    + assert (Hi : 0 <= 0 < zlen data).
      { split; [lia|]. destruct data; [done|]. zlia. }
      pose proof (Hput m data 0 rest (mkChannelRx (m :: rest) closed None ext) Hm Hi Hne) as H.
      assert (Hs : rx_stream (mkChannelRx (m :: rest) closed None ext) = data ++ rx_bytes ext rest).
      { unfold rx_stream. cbn. destruct m; cbn in *; try done; rewrite Hm; done. }
      specialize (H Hs). cbn [receiver length] in H. specialize (H (le_S _ _ (le_n _))).
      destruct m; cbn in Hm; try done; [destruct ext; [done|]|destruct ext; [|done]].
      * by simplify_eq.
      * destruct (ext0 =? z) eqn:Ez; [|done]. by simplify_eq.
    + assert (Hgo : match m with ChannelMsg.Eof => True | _ =>
          rx_bytes ext (m :: rest) = rx_bytes ext rest end).
      { destruct m; cbn in Hm |- *; try done; destruct ext; try done; by rewrite Hm. }
      destruct m; cbn in Hm; try (cbn in Hgo |- *; unfold rx_stream, rx_ok; cbn; rewrite ?Hgo; repeat split; done || lia).
      * destruct ext; [|done]. cbn in Hgo |- *. unfold rx_stream, rx_ok. cbn. repeat split; done || lia.
      * destruct ext; [|cbn in Hgo |- *; unfold rx_stream, rx_ok; cbn; repeat split; done || lia].
        destruct (ext0 =? z) eqn:Ez; [done|]. unfold rx_stream, rx_ok. cbn. rewrite Ez. cbn.
        repeat split; done || lia.
Qed.

(** Reading until end of file, with a buffer of [remaining] bytes each time. *)
Fixpoint read_to_end (fuel : nat) (remaining : Z) (x : ChannelRx) : option bytes :=
  match fuel with
  | O => None
  | S fuel' =>
      match poll_read remaining x with
      | (Filled [], _) => Some []
      | (Filled d, x') => option_map (app d) (read_to_end fuel' remaining x')
      | (Again, x') => read_to_end fuel' remaining x'
      end
  end.

Lemma read_to_end_spec remaining : 0 < remaining -> forall fuel x,
  rx_ok x -> (length (rx_stream x) + length x.(receiver) < fuel)%nat ->
  read_to_end fuel remaining x = Some (rx_stream x).
Proof.
  intros Hr. induction fuel as [|fuel IH]; intros x Hok Hf; [lia|].
  cbn [read_to_end]. pose proof (poll_read_spec remaining x Hok Hr) as H.
  destruct (poll_read remaining x) as [[d|] x'].
  - destruct H as (H & _ & Hlen). destruct d as [|b d]; [by rewrite H|].
    destruct H as (_ & Hok' & Hs). rewrite Hs in *. rewrite length_app in Hf. cbn in Hf.
    rewrite IH by (done || lia). done.
  - destruct H as ((Hok' & Hs & Hlt) & _). rewrite <- Hs. apply IH; [done|]. rewrite Hs. lia.
Qed.

(** [AsyncRead] on a channel: reading to the end terminates and yields the
    concatenated data of the messages of this reader's stream up to end-of-file,
    with buffers of any size; messages of other streams are skipped. *)
Theorem reader_stream remaining x fuel :
  0 < remaining -> rx_ok x -> (length (rx_stream x) + length x.(receiver) < fuel)%nat ->
  read_to_end fuel remaining x = Some (rx_stream x).
Proof. intros. by apply read_to_end_spec. Qed.

(** ** Witnesses *)
Definition half0 : ChannelWriteHalf := mkWriteHalf 4 [] true 3 (WindowSizeRef_new 5).

Lemma send_bytes_spec_witness :
  let '(r, wakes', h') := send_bytes (Some 1) [1; 2; 3; 4; 5; 6; 7] [mkWindowSizeRef 9 0] half0 in
  exists used chunks rest,
    [mkWindowSizeRef 9 0] = used ++ wakes' /\ [1; 2; 3; 4; 5; 6; 7] = concat chunks ++ rest /\
    Forall (chunk_ok 3) chunks /\
    h'.(sent) = [] ++ map (fun c => (4, data_msg (Some 1) c)) chunks /\
    zlen (concat chunks) + h'.(window_size).(value) = 5 + credit used /\
    0 <= h'.(window_size).(value) /\
    ((r = Ready (Ok tt) /\ rest = []) \/ (r = Pending /\ 5 + credit [mkWindowSizeRef 9 0] < zlen [1; 2; 3; 4; 5; 6; 7])).
Proof.
  apply (send_bytes_spec (Some 1) [1; 2; 3; 4; 5; 6; 7] [mkWindowSizeRef 9 0] half0); cbn; try done.
  repeat constructor; cbn; lia.
Defined.

Definition tx0 : ChannelTx := mkChannelTx half0 None None.

Lemma poll_write_spec_witness :
  match poll_write [1; 2; 3; 4] PermitGranted tx0 with
  | (Ready (inl n), t') =>
      0 < n <= zlen [1; 2; 3; 4] /\ t'.(send_fut) = None /\
      t'.(tx_half).(sent) = [] ++ [(4, data_msg None (ztake n [1; 2; 3; 4]))] /\
      tx_window t' + n = 5 + 0
  | (Ready (inr e), t') => e = BrokenPipe /\ PermitGranted = PermitRefused /\ t'.(tx_half).(sent) = []
  | (Pending, t') =>
      tx_ok [1; 2; 3; 4] t' /\ t'.(tx_ext) = None /\ t'.(tx_half).(sent) = [] /\
      tx_window t' + reserved t' = 5 + 0
  end.
Proof. apply (poll_write_spec [1; 2; 3; 4] PermitGranted tx0); done. Defined.

Lemma reader_stream_witness :
  read_to_end 20 2 (mkChannelRx [ChannelMsg.Data [1; 2; 3]; ChannelMsg.ExtendedData [9] 1;
    ChannelMsg.Data [4]; ChannelMsg.Eof] false None None) = Some [1; 2; 3; 4].
Proof.
  apply (reader_stream 2 (mkChannelRx [ChannelMsg.Data [1; 2; 3]; ChannelMsg.ExtendedData [9] 1;
    ChannelMsg.Data [4]; ChannelMsg.Eof] false None None) 20); [done| |cbn; lia].
  split; [repeat constructor; done|done].
Defined.
