(* ===== verification/ChannelHandles.v ===== *)
(** * A channel in the hands of the application ([russh/src/channels/])

    [Channel] with its two halves, which it can be split into or turned into a
    [ChannelStream]; the readers and writers made from it; what happens when they
    are dropped; and the sending of everything that a source of bytes yields
    ([send_data], which is [tokio::io::copy] into a writer).  The halves themselves and
    the single polls are in [Channels].

    What is shared behind an [Arc] or a queue (the window, the queue to the session)
    is in the [ChannelWriteHalf] of [Channels]: two objects that share it are given
    the same one in turn. *)

From stdpp Require Import base list numbers option relations.
From Stdlib Require Import ZArith Lia.
From S2P Require Import Prelude LibInner Pty Channels.

(** ** The parts of a channel *)

(** [Receiver<ChannelMsg>]: what is in the queue, and whether the application closed it. *)
Record ChannelReadHalf : Type := mkReadHalf { in_queue : list ChannelMsg; in_closed : bool }.
Record Channel : Type := mkChannel { read_half : ChannelReadHalf; write_half : ChannelWriteHalf }.
(** The session's end: the sender of the queue (a number), and the same window. *)
Record ChannelRef : Type := mkChannelRef { ref_sender : Z; ref_window_size : WindowSizeRef }.

Definition ChannelRef_new (sender : Z) : ChannelRef := mkChannelRef sender (WindowSizeRef_new 0).

(** [sender] is that of the new queue to the application; [sent] and [alive] are the
    queue to the session. *)
Definition Channel_new (id : ChannelId) (sent : list (ChannelId * ChannelMsg)) (alive : bool)
    (max_packet_size window_size sender : Z) : Channel * ChannelRef :=
  let w := WindowSizeRef_new window_size in
  (mkChannel (mkReadHalf [] false) (mkWriteHalf id sent alive max_packet_size w), mkChannelRef sender w).

Definition channel_id (c : Channel) : ChannelId := c.(write_half).(id).
Definition split (c : Channel) : ChannelReadHalf * ChannelWriteHalf := (c.(read_half), c.(write_half)).
Definition channel_writable_packet_size (c : Channel) : Z := writable_packet_size c.(write_half).

(** *** Requests, which the writing half sends *)
Abbreviation CM A := (st Channel Error.error A).
Definition on_write_half {A} (m : WM A) : CM A := fun c =>
  let '(r, h) := m c.(write_half) in (r, mkChannel c.(read_half) h).

Definition channel_request_pty (want_reply : bool) (term : bytes)
    (col_width row_height pix_width pix_height : Z) (terminal_modes : list (Pty.Pty * Z)) : CM unit :=
  on_write_half (request_pty want_reply term col_width row_height pix_width pix_height terminal_modes).
Definition channel_request_shell (want_reply : bool) : CM unit := on_write_half (request_shell want_reply).
Definition channel_exec (want_reply : bool) (command : bytes) : CM unit := on_write_half (exec want_reply command).
Definition channel_signal (s : Sig.sig) : CM unit := on_write_half (signal s).
Definition channel_request_subsystem (want_reply : bool) (name : bytes) : CM unit :=
  on_write_half (request_subsystem want_reply name).
Definition channel_request_x11 (want_reply single_connection : bool) (protocol cookie : bytes)
    (screen_number : Z) : CM unit :=
  on_write_half (request_x11 want_reply single_connection protocol cookie screen_number).
Definition channel_set_env (want_reply : bool) (name value : bytes) : CM unit := on_write_half (set_env want_reply name value).
Definition channel_window_change (col_width row_height pix_width pix_height : Z) : CM unit :=
  on_write_half (window_change col_width row_height pix_width pix_height).
Definition channel_agent_forward (want_reply : bool) : CM unit := on_write_half (agent_forward want_reply).
Definition channel_eof : CM unit := on_write_half eof.
Definition channel_exit_status (status : Z) : CM unit := on_write_half (exit_status status).
Definition channel_close : CM unit := on_write_half close.

(** *** Bytes that are owned already *)
Definition data_bytes (data : bytes) (wakes : list WindowSizeRef) (h : ChannelWriteHalf) :=
  send_bytes None data wakes h.
Definition extended_data_bytes (ext : Z) (data : bytes) (wakes : list WindowSizeRef) (h : ChannelWriteHalf) :=
  send_bytes (Some ext) data wakes h.
Definition polled_on_write_half {A B} (m : ChannelWriteHalf -> A * B * ChannelWriteHalf) (c : Channel) : A * B * Channel :=
  let '(r, h) := m c.(write_half) in (r, mkChannel c.(read_half) h).
Definition channel_data_bytes (data : bytes) (wakes : list WindowSizeRef) :=
  polled_on_write_half (data_bytes data wakes).
Definition channel_extended_data_bytes (ext : Z) (data : bytes) (wakes : list WindowSizeRef) :=
  polled_on_write_half (extended_data_bytes ext data wakes).

(** *** Messages, one by one *)

(** [None] also when the queue is empty: it is the end of the queue then, which the
    session has dropped or the application closed. *)
Definition wait (r : ChannelReadHalf) : option ChannelMsg * ChannelReadHalf :=
  match r.(in_queue) with
  | m :: rest => (Some m, mkReadHalf rest r.(in_closed))
  | [] => (None, r)
  end.
Definition channel_wait (c : Channel) : option ChannelMsg * Channel :=
  let '(m, r) := wait c.(read_half) in (m, mkChannel r c.(write_half)).

(** ** Readers and writers *)

(** [ChannelRx::new] on a borrowed half, and the half when the borrow ends: what the
    reader had taken from the queue and not passed on is gone. *)
Definition ChannelRx_new (r : ChannelReadHalf) (ext : option Z) : ChannelRx :=
  mkChannelRx r.(in_queue) r.(in_closed) None ext.
Definition make_reader_ext (ext : option Z) (r : ChannelReadHalf) : ChannelRx := ChannelRx_new r ext.
Definition make_reader (r : ChannelReadHalf) : ChannelRx := make_reader_ext None r.
Definition channel_make_reader_ext (ext : option Z) (c : Channel) : ChannelRx := make_reader_ext ext c.(read_half).
Definition channel_make_reader (c : Channel) : ChannelRx := make_reader c.(read_half).
Definition reader_dropped (x : ChannelRx) : ChannelReadHalf := mkReadHalf x.(receiver) x.(receiver_closed).

Definition ChannelTx_new (h : ChannelWriteHalf) (ext : option Z) : ChannelTx := mkChannelTx h ext None.
Definition make_writer_ext (ext : option Z) (h : ChannelWriteHalf) : ChannelTx := ChannelTx_new h ext.
Definition make_writer (h : ChannelWriteHalf) : ChannelTx := make_writer_ext None h.
Definition channel_make_writer_ext (ext : option Z) (c : Channel) : ChannelTx := make_writer_ext ext c.(write_half).
Definition channel_make_writer (c : Channel) : ChannelTx := make_writer c.(write_half).

Definition poll_flush (t : ChannelTx) : poll (unit + IoError) * ChannelTx := (Ready (inl tt), t).
(** [Drop for ChannelTx]: the next writer is woken. *)
Definition writer_dropped (t : ChannelTx) : ChannelWriteHalf :=
  set_window (notify_one t.(tx_half).(window_size)) t.(tx_half).

(** *** The whole channel as a stream *)

(** [ChannelCloseOnDrop] is what the reader holds. *)
Record ChannelStream : Type := mkStream { tx : ChannelTx; rx : ChannelRx }.

Definition into_stream (c : Channel) : ChannelStream :=
  mkStream (ChannelTx_new c.(write_half) None) (ChannelRx_new c.(read_half) None).

Definition stream_poll_read (remaining : Z) (s : ChannelStream) : read_outcome * ChannelStream :=
  let '(o, x) := poll_read remaining s.(rx) in (o, mkStream s.(tx) x).
Definition stream_poll_write (buf : bytes) (o : permit_outcome) (s : ChannelStream)
  : poll (Z + IoError) * ChannelStream :=
  let '(r, t) := poll_write buf o s.(tx) in (r, mkStream t s.(rx)).
Definition stream_poll_flush (s : ChannelStream) : poll (unit + IoError) * ChannelStream :=
  let '(r, t) := poll_flush s.(tx) in (r, mkStream t s.(rx)).
Definition stream_poll_shutdown (o : permit_outcome) (s : ChannelStream) : poll (unit + IoError) * ChannelStream :=
  let '(r, t) := poll_shutdown o s.(tx) in (r, mkStream t s.(rx)).

(** [Drop for ChannelCloseOnDrop]: the task that it spawns sends the close; nobody is
    told if it cannot. *)
Definition close_on_drop (h : ChannelWriteHalf) : ChannelWriteHalf := (send_msg ChannelMsg.Close h).2.
(** The fields of a stream are dropped in order. *)
Definition stream_dropped (s : ChannelStream) : ChannelWriteHalf := close_on_drop (writer_dropped s.(tx)).

(** ** Sending all that a source yields *)

(** [tokio::io::copy] reads into a buffer of 8 KiB and writes the buffer until the
    source has ended and all is written, or either fails; while a write is pending
    it may read more.  [unread] is what the source still yields, [filled] what is in
    the buffer. *)
Record Copying : Type := mkCopying { unread : bytes; filled : bytes; copy_tx : ChannelTx }.
Definition COPY_BUFFER : Z := 8192.

(** What the other tasks that hold the same channel and session do in between:
    they put messages into the queue and change the window. *)
Definition disturbed (l : list (ChannelId * ChannelMsg)) (w : WindowSizeRef) (h : ChannelWriteHalf) : ChannelWriteHalf :=
  mkWriteHalf h.(id) (h.(sent) ++ l) h.(session_alive) h.(max_packet_size) w.
Definition set_half (h : ChannelWriteHalf) (t : ChannelTx) : ChannelTx := mkChannelTx h t.(tx_ext) t.(send_fut).

(** A message that a reader of stream [ext] of channel [i] skips. *)
Definition foreign (i : ChannelId) (ext : option Z) (m : ChannelId * ChannelMsg) : Prop :=
  m.1 = i -> rx_match ext m.2 = None /\ m.2 <> ChannelMsg.Eof.

Inductive copy_step (s : Copying) : Copying -> Prop :=
| copy_reads n :
    0 < n <= zlen s.(unread) -> zlen s.(filled) + n <= COPY_BUFFER ->
    copy_step s (mkCopying (zdrop n s.(unread)) (s.(filled) ++ ztake n s.(unread)) s.(copy_tx))
| copy_disturbed l w :
    Forall (foreign s.(copy_tx).(tx_half).(id) s.(copy_tx).(tx_ext)) l ->
    copy_step s (mkCopying s.(unread) s.(filled) (set_half (disturbed l w s.(copy_tx).(tx_half)) s.(copy_tx)))
| copy_waits o t :
    s.(filled) <> [] -> poll_write s.(filled) o s.(copy_tx) = (Pending, t) ->
    copy_step s (mkCopying s.(unread) s.(filled) t)
| copy_writes o n t :
    s.(filled) <> [] -> poll_write s.(filled) o s.(copy_tx) = (Ready (inl n), t) ->
    copy_step s (mkCopying s.(unread) (zdrop n s.(filled)) t).

(** How a copy can end, and where it can be left when nobody polls it any more. *)
Inductive copy_result : Type := Copied | WriteFailed (e : IoError) | SourceFailed (kind : Z).

Definition ends_with (r : option copy_result) (s : Copying) (t : ChannelTx) : Prop :=
  match r with
  | Some Copied => s.(unread) = [] /\ s.(filled) = [] /\ t = s.(copy_tx)
  | Some (WriteFailed e) => s.(filled) <> [] /\ exists o, poll_write s.(filled) o s.(copy_tx) = (Ready (inr e), t)
  | Some (SourceFailed _) | None => t = s.(copy_tx)
  end.

(** [copy sched data t]: a copy of a source that yields [data] into [t]; [sched] is
    the order of events. *)
Class TokioCopy : Type := {
  Schedule : Type;
  copy : Schedule -> bytes -> ChannelTx -> option copy_result * ChannelTx;
}.
Class TokioCopyLaws (C : TokioCopy) : Prop := {
  copy_ends : forall sched data t r t', copy sched data t = (r, t') ->
    exists s, rtc copy_step (mkCopying data [] t) s /\ ends_with r s t';
}.

Section SendData.
Context {C : TokioCopy} (broken_pipe : Z).

Definition io_error (r : copy_result) : Result unit :=
  match r with
  | Copied => Ok tt
  | WriteFailed _ => Err (Error.IO broken_pipe)
  | SourceFailed kind => Err (Error.IO kind)
  end.

(** [None]: the future was dropped before its end.  The writer is dropped with it. *)
Definition send_data (ext : option Z) (sched : Schedule) (data : bytes) (h : ChannelWriteHalf)
  : option (Result unit) * ChannelWriteHalf :=
  let '(r, t) := copy sched data (make_writer_ext ext h) in (io_error <$> r, writer_dropped t).

Definition data (sched : Schedule) (d : bytes) (h : ChannelWriteHalf) := send_data None sched d h.
Definition extended_data (ext : Z) (sched : Schedule) (d : bytes) (h : ChannelWriteHalf) :=
  send_data (Some ext) sched d h.
Definition data_on_channel (m : ChannelWriteHalf -> option (Result unit) * ChannelWriteHalf) (c : Channel)
  : option (Result unit) * Channel :=
  let '(r, h) := m c.(write_half) in (r, mkChannel c.(read_half) h).
Definition channel_data (sched : Schedule) (d : bytes) := data_on_channel (data sched d).
Definition channel_extended_data (ext : Z) (sched : Schedule) (d : bytes) := data_on_channel (extended_data ext sched d).
End SendData.

(** ** What arrives of it *)

(** The messages of one channel in a queue that many channels share. *)
Fixpoint messages_of (i : ChannelId) (l : list (ChannelId * ChannelMsg)) : list ChannelMsg :=
  match l with
  | [] => []
  | (j, m) :: l => if j =? i then m :: messages_of i l else messages_of i l
  end.

Lemma messages_of_app i l1 l2 : messages_of i (l1 ++ l2) = messages_of i l1 ++ messages_of i l2.
Proof. induction l1 as [|[j m] l1 IH]; [done|]. cbn. destruct (j =? i); cbn; by rewrite IH. Qed.

Definition not_ended (l : list ChannelMsg) : Prop := Forall (fun m => m <> ChannelMsg.Eof) l.

Lemma rx_bytes_app ext l1 l2 : not_ended l1 -> rx_bytes ext (l1 ++ l2) = rx_bytes ext l1 ++ rx_bytes ext l2.
Proof.
  induction 1 as [|m l1 Hm _ IH]; [done|]. cbn [app rx_bytes]. rewrite IH.
  destruct m; try done; by rewrite app_assoc.
Qed.

Lemma foreign_messages i ext l : Forall (foreign i ext) l ->
  not_ended (messages_of i l) /\ rx_bytes ext (messages_of i l) = [] /\
  Forall (fun m => rx_match ext m = None) (messages_of i l).
Proof.
  induction 1 as [|[j m] l Hm _ (IH1 & IH2 & IH3)]; [by repeat constructor|]. cbn.
  destruct (Z.eqb_spec j i) as [->|_]; [|done]. destruct (Hm eq_refl) as [H1 H2]. cbn in H1, H2.
  split_and!; [by constructor| |by constructor]. cbn [rx_bytes]. rewrite IH2.
  destruct m; try done; by rewrite H1.
Qed.

Lemma data_msg_match ext d : rx_match ext (data_msg ext d) = Some d.
Proof. destruct ext as [e|]; [|done]. cbn. by rewrite Z.eqb_refl. Qed.
Lemma data_msg_not_eof ext d : data_msg ext d <> ChannelMsg.Eof.
Proof. by destruct ext. Qed.
Lemma rx_bytes_data ext d : rx_bytes ext [data_msg ext d] = d.
Proof. destruct ext as [e|]; cbn; [rewrite Z.eqb_refl|]; apply app_nil_r. Qed.

(** A copy on its way: [l] is what has been put into the queue since it began. *)
Record copied_part (h0 : ChannelWriteHalf) (ext : option Z) (data : bytes) (l : list (ChannelId * ChannelMsg))
    (s : Copying) : Prop := mkCopiedPart {
  cp_queue : s.(copy_tx).(tx_half).(sent) = h0.(sent) ++ l;
  cp_id : s.(copy_tx).(tx_half).(id) = h0.(id);
  cp_ext : s.(copy_tx).(tx_ext) = ext;
  cp_max : s.(copy_tx).(tx_half).(max_packet_size) = h0.(max_packet_size);
  cp_open : not_ended (messages_of h0.(id) l);
  cp_data : data = rx_bytes ext (messages_of h0.(id) l) ++ s.(filled) ++ s.(unread);
  cp_nonempty : Forall (fun m => rx_match ext m <> Some []) (messages_of h0.(id) l);
  cp_filled : zlen s.(filled) <= COPY_BUFFER;
  cp_tx : tx_ok s.(filled) s.(copy_tx);
}.

Lemma poll_write_same buf o t : let t' := (poll_write buf o t).2 in
  t'.(tx_half).(id) = t.(tx_half).(id) /\ t'.(tx_half).(max_packet_size) = t.(tx_half).(max_packet_size) /\
  t'.(tx_ext) = t.(tx_ext).
Proof.
  unfold poll_write. destruct buf as [|b buf]; [done|].
  destruct (send_fut t) as [[m n]|]; [by destruct o|].
  unfold poll_mk_msg, poll_writable. cbv zeta. destruct (0 <? Z.min _ _); [|done]. destruct o; cbn; by repeat case_match.
Qed.

Lemma tx_ok_app buf more t : tx_ok buf t -> tx_ok (buf ++ more) t.
Proof.
  unfold tx_ok. destruct (send_fut t) as [[m n]|]; [|done]. intros [Hn ->]. split; [zlia|].
  by rewrite ztake_app_le by lia.
Qed.

Lemma copied_part_step h0 ext data l s s' : copied_part h0 ext data l s -> copy_step s s' ->
  exists l', copied_part h0 ext data l' s'.
Proof.
  intros [H1 H2 H3 H4 H5 H6 H7 H8 H9] Hs. destruct Hs as [n Hn Hf|l1 w Hl|o t Hf Hp|o n t Hf Hp].
  - exists l. split; cbn; try done; [|zlia|by apply tx_ok_app].
    rewrite H6. rewrite <- (app_assoc _ (ztake _ _)). by rewrite ztake_zdrop.
  - exists (l ++ l1). rewrite H2, H3 in Hl. apply foreign_messages in Hl as (F1 & F2 & F3).
    split; cbn; try done; rewrite ?messages_of_app.
    + by rewrite H1, app_assoc.
    + by apply Forall_app.
    + by rewrite rx_bytes_app, F2, app_nil_r.
    + apply Forall_app. split; [done|]. eapply Forall_impl; [exact F3|]. by intros m ->.
  - exists l. pose proof (poll_write_same (filled s) o (copy_tx s)) as (P1 & P2 & P3).
    pose proof (poll_write_spec (filled s) o (copy_tx s) Hf) as Hw. rewrite Hp in *. cbn [snd] in *.
    destruct Hw as (W1 & _ & W3 & _); [unfold COPY_BUFFER, U32_MOD in *; lia|done|].
    split; cbn; try done; congruence.
  - pose proof (poll_write_same (filled s) o (copy_tx s)) as (P1 & P2 & P3).
    pose proof (poll_write_spec (filled s) o (copy_tx s) Hf) as Hw. rewrite Hp in *. cbn [snd] in *.
    destruct Hw as (W1 & W2 & W3 & _); [unfold COPY_BUFFER, U32_MOD in *; lia|done|].
    exists (l ++ [(h0.(id), data_msg ext (ztake n (filled s)))]).
    assert (Hm : messages_of h0.(id) [(h0.(id), data_msg ext (ztake n (filled s)))] = [data_msg ext (ztake n (filled s))])
      by (cbn; by rewrite Z.eqb_refl).
    split; cbn [unread filled copy_tx]; rewrite ?messages_of_app, ?Hm; try congruence.
    + by rewrite W3, H1, H2, H3, app_assoc.
    + apply Forall_app. split; [done|]. repeat constructor. apply data_msg_not_eof.
    + rewrite rx_bytes_app, rx_bytes_data, <- app_assoc by done. rewrite (app_assoc (ztake n _)).
      by rewrite ztake_zdrop.
    + apply Forall_app. split; [done|]. repeat constructor. rewrite data_msg_match. intros [= E].
      pose proof (zlen_ztake n (filled s)) as Hz. rewrite E, zlen_nil in Hz. lia.
    + rewrite zlen_zdrop. lia.
    + unfold tx_ok. by rewrite W2.
Qed.

Lemma copied_part_steps h0 ext data l s s' : copied_part h0 ext data l s -> rtc copy_step s s' ->
  exists l', copied_part h0 ext data l' s'.
Proof.
  intros Hl Hs. revert l Hl. induction Hs as [s|s1 s2 s3 Hs _ IH]; intros l Hl; [by exists l|].
  destruct (copied_part_step _ _ _ _ _ _ Hl Hs) as [l' Hl']. by eapply IH.
Qed.

Lemma copied_part_start h ext data : copied_part h ext data [] (mkCopying data [] (make_writer_ext ext h)).
Proof. split; cbn; rewrite ?app_nil_r; try done; by constructor. Qed.

Lemma write_failed buf o t e t' : buf <> [] -> zlen buf < U32_MOD -> tx_ok buf t ->
  poll_write buf o t = (Ready (inr e), t') -> e = BrokenPipe /\ t'.(tx_half).(sent) = t.(tx_half).(sent).
Proof. intros Hb Hl Hok Hp. pose proof (poll_write_spec buf o t Hb Hl Hok) as H. rewrite Hp in H. by destruct H as (-> & _ & H). Qed.

Lemma read_copied ext l remaining : 0 < remaining ->
  not_ended l -> Forall (fun m => rx_match ext m <> Some []) l ->
  exists fuel, read_to_end fuel remaining (make_reader_ext ext (mkReadHalf (l ++ [ChannelMsg.Eof]) false)) = Some (rx_bytes ext l).
Proof.
  intros Hr He Hn. set (x := make_reader_ext _ _). exists (S (length (rx_stream x) + length x.(receiver))).
  assert (Hx : rx_stream x = rx_bytes ext l).
  { unfold x, rx_stream. cbn. rewrite rx_bytes_app by done. apply app_nil_r. }
  rewrite <- Hx. apply read_to_end_spec; [done| |lia].
  split; [|done]. apply Forall_app. split; [done|]. by repeat constructor.
Qed.

Section SendsAll.
Context {C : TokioCopy} {CL : TokioCopyLaws C} (broken_pipe : Z).

(** C19. What is sent on a channel is read at its other end: whatever the source and the
    other tasks that write to the session do in between, and however the copy into
    the writer is scheduled, the messages that a sending call leaves in the queue
    give a reader of the same stream, with buffers of any size, exactly the bytes
    taken from the source - all of them when the call returns [Ok], a prefix when it
    fails or is dropped - in order and once, although messages of other channels
    and other streams lie between them. *)
Theorem stream_roundtrip ext sched data h r h' :
  send_data broken_pipe ext sched data h = (r, h') ->
  exists l written rest,
    h'.(sent) = h.(sent) ++ l /\ data = written ++ rest /\ (r = Some (Ok tt) -> rest = []) /\ r <> Some Panic /\
    forall remaining, 0 < remaining -> exists fuel,
      read_to_end fuel remaining
        (make_reader_ext ext (mkReadHalf (messages_of h.(id) l ++ [ChannelMsg.Eof]) false)) = Some written.
Proof.
  intros H. unfold send_data in H. destruct (copy _ _ _) as [cr t] eqn:Hc. injection H as <- <-.
  apply copy_ends in Hc as (s & Hs & He).
  destruct (copied_part_steps _ _ _ _ _ _ (copied_part_start h ext data) Hs) as [l [P1 P2 P3 P4 P5 P6 P7 P8 P9]].
  assert (Ht : t.(tx_half).(sent) = h.(sent) ++ l).
  { destruct cr as [[|e|k]|]; cbn [ends_with] in He; [destruct He as (_ & _ & ->)|destruct He as (Hf & o & Hp)|rewrite He..]; try done.
    apply write_failed in Hp as [_ ->]; [done|done|unfold COPY_BUFFER, U32_MOD in *; lia|done]. }
  exists l, (rx_bytes ext (messages_of h.(id) l)), (s.(filled) ++ s.(unread)). split_and!.
  - exact Ht.
  - exact P6.
  - destruct cr as [[|e|k]|]; try done. intros _. by destruct He as (-> & -> & _).
  - by destruct cr as [[]|].
  - intros remaining Hr. by apply read_copied.
Qed.
End SendsAll.

(** ** What is dropped *)

(** A stream that is dropped asks the session to close the channel, after all that was
    written; a session that is gone is not told. *)
Lemma stream_dropped_closes s : (stream_dropped s).(sent) =
  s.(tx).(tx_half).(sent) ++ (if s.(tx).(tx_half).(session_alive) then [(s.(tx).(tx_half).(id), ChannelMsg.Close)] else []).
Proof. unfold stream_dropped, close_on_drop, send_msg. cbn. destruct (session_alive _); [done|by rewrite app_nil_r]. Qed.

(** A writer that is dropped while it waits for room in the queue has taken its bytes
    from the window and sends nothing. *)
Lemma waiting_writer_dropped buf t t' : buf <> [] -> zlen buf < U32_MOD -> t.(send_fut) = None ->
  poll_write buf PermitWaits t = (Pending, t') ->
  (writer_dropped t').(sent) = t.(tx_half).(sent) /\
  (writer_dropped t').(window_size).(value) + reserved t' = tx_window t.
Proof.
  intros Hb Hl Hf Hp. assert (Hok : tx_ok buf t) by (unfold tx_ok; by rewrite Hf).
  pose proof (poll_write_spec buf PermitWaits t Hb Hl Hok) as H. rewrite Hp in H. destruct H as (_ & _ & H1 & H2).
  split; [exact H1|]. unfold tx_window, reserved in *. rewrite Hf in H2. cbn. lia.
Qed.

(** A reader that is dropped takes the rest of a message with it. *)
Example dropped_reader_loses :
  let r := mkReadHalf [ChannelMsg.Data [1; 2; 3]; ChannelMsg.Data [4]] false in
  let '(o1, x1) := poll_read 1 (make_reader r) in
  let '(o2, _) := poll_read 1 (make_reader (reader_dropped x1)) in
  o1 = Filled [1] /\ o2 = Filled [4].
Proof. by split. Qed.

(** ** A concrete copy *)
Module Example.
Inductive event : Type :=
| Read (n : Z)
| OthersDo (window : Z)
| Poll (o : permit_outcome).

(** As much as is possible of a list of events; it fails when a write does. *)
Fixpoint run (l : list event) (s : Copying) : option copy_result * ChannelTx :=
  match s.(unread), s.(filled) with
  | [], [] => (Some Copied, s.(copy_tx))
  | _, _ =>
      match l with
      | [] => (None, s.(copy_tx))
      | Read n :: l =>
          if (0 <? n) && (n <=? zlen s.(unread)) && (zlen s.(filled) + n <=? COPY_BUFFER)
          then run l (mkCopying (zdrop n s.(unread)) (s.(filled) ++ ztake n s.(unread)) s.(copy_tx))
          else run l s
      | OthersDo w :: l =>
          run l (mkCopying s.(unread) s.(filled)
            (set_half (disturbed [(9, ChannelMsg.Data [0])] (mkWindowSizeRef w 0) s.(copy_tx).(tx_half)) s.(copy_tx)))
      | Poll o :: l =>
          match s.(filled) with
          | [] => run l s
          | _ =>
              match poll_write s.(filled) o s.(copy_tx) with
              | (Pending, t) => run l (mkCopying s.(unread) s.(filled) t)
              | (Ready (inl n), t) => run l (mkCopying s.(unread) (zdrop n s.(filled)) t)
              | (Ready (inr e), t) => (Some (WriteFailed e), t)
              end
          end
      end
  end.

(** The other channel has number 9; the copies are on others. *)
#[local] Instance script_copy : TokioCopy := {|
  Schedule := list event;
  copy l data t := if t.(tx_half).(id) =? 9 then (None, t) else run l (mkCopying data [] t)
|}.

Lemma run_ends l : forall s r t, s.(copy_tx).(tx_half).(id) <> 9 -> run l s = (r, t) ->
  exists s', rtc copy_step s s' /\ ends_with r s' t.
Proof.
  assert (Hstep : forall s s1 r t, copy_step s s1 -> (exists s', rtc copy_step s1 s' /\ ends_with r s' t) ->
    exists s', rtc copy_step s s' /\ ends_with r s' t).
  { intros s s1 r t H1 (s' & H2 & H3). exists s'. split; [by eapply rtc_l|done]. }
  induction l as [|ev l IH]; intros s r t Hi H.
  - exists s. split; [done|]. cbn in H. destruct (unread s) eqn:Hu, (filled s) eqn:Hf; injection H as <- <-; cbn; done.
  - assert (Hd : (unread s = [] /\ filled s = [] /\ (r, t) = (Some Copied, s.(copy_tx))) \/
      (match ev with
       | Read n =>
          if (0 <? n) && (n <=? zlen s.(unread)) && (zlen s.(filled) + n <=? COPY_BUFFER)
          then run l (mkCopying (zdrop n s.(unread)) (s.(filled) ++ ztake n s.(unread)) s.(copy_tx))
          else run l s
       | OthersDo w => run l (mkCopying s.(unread) s.(filled)
            (set_half (disturbed [(9, ChannelMsg.Data [0])] (mkWindowSizeRef w 0) s.(copy_tx).(tx_half)) s.(copy_tx)))
       | Poll o =>
          match s.(filled) with
          | [] => run l s
          | _ =>
              match poll_write s.(filled) o s.(copy_tx) with
              | (Pending, t) => run l (mkCopying s.(unread) s.(filled) t)
              | (Ready (inl n), t) => run l (mkCopying s.(unread) (zdrop n s.(filled)) t)
              | (Ready (inr e), t) => (Some (WriteFailed e), t)
              end
          end
       end) = (r, t)).
    { cbn [run] in H. destruct (unread s) eqn:Hu, (filled s) eqn:Hf; [left|right..]; done. }
    clear H. destruct Hd as [(Hu & Hf & [= -> ->])|H]; [exists s; by split_and!|].
    destruct ev as [n|w|o].
    + destruct (_ && _) eqn:Hc; [|by apply IH].
      apply andb_true_iff in Hc as [[H1 H2]%andb_true_iff H3].
      eapply Hstep; [apply (copy_reads s n); lia|]. by apply IH.
    + eapply Hstep; [eapply (copy_disturbed s [(9, ChannelMsg.Data [0])])|by apply IH].
      constructor; [|done]. intros E. by destruct Hi.
    + destruct (filled s) as [|b buf] eqn:Hf; [by apply IH|]. rewrite <- Hf in H.
      pose proof (poll_write_same (filled s) o (copy_tx s)) as (P1 & _).
      destruct (poll_write (filled s) o (copy_tx s)) as [[[n|e]|] t1] eqn:Hp; cbn [snd] in P1.
      * eapply Hstep; [apply (copy_writes s o n t1); [by rewrite Hf|done]|]. apply IH; [cbn; congruence|done].
      * injection H as <- <-. exists s. split; [done|]. split; [by rewrite Hf|by exists o].
      * eapply Hstep; [apply (copy_waits s o t1); [by rewrite Hf|done]|]. apply IH; [cbn; congruence|done].
Qed.

#[local] Instance script_copy_laws : TokioCopyLaws script_copy.
Proof.
  split. intros l data t r t'. cbn. destruct (Z.eqb_spec (id (tx_half t)) 9); [|by apply run_ends].
  intros [= <- <-]. by exists (mkCopying data [] t).
Qed.

Definition schedule : list event :=
  [Read 2; Poll PermitWaits; Read 3; OthersDo 4; Poll PermitGranted; Poll PermitGranted; Poll PermitGranted;
   OthersDo 4; Poll PermitGranted].
Definition sent_data := send_data (C := script_copy) 32 None schedule [1; 2; 3; 4; 5] half0.

Lemma stream_roundtrip_witness : sent_data.1 = Some (Ok tt) /\ exists l,
  sent_data.2.(sent) = [] ++ l /\ exists fuel,
  read_to_end fuel 2 (make_reader_ext None (mkReadHalf (messages_of 4 l ++ [ChannelMsg.Eof]) false)) = Some [1; 2; 3; 4; 5].
Proof.
  split; [vm_compute; reflexivity|].
  destruct (stream_roundtrip (C := script_copy) 32 None schedule [1; 2; 3; 4; 5] half0 sent_data.1 sent_data.2) as (l & w & rest & H1 & H2 & H3 & _ & H4).
  - unfold sent_data. by destruct (send_data _ _ _ _ _).
  - exists l. split; [exact H1|]. destruct (H4 2 ltac:(lia)) as [fuel H5]. exists fuel.
    rewrite (H3 ltac:(vm_compute; reflexivity)), app_nil_r in H2. by rewrite H2.
Defined.
End Example.
