(* ===== verification/Wakeups.v ===== *)
(** * Who is woken when the window opens ([russh/src/channels/mod.rs], [io/tx.rs])

    All writers of a channel share the window and one [Notify] of [tokio].  A writer
    that finds the window empty waits for a notification; the session notifies one
    of them when it has set the window, and a writer that leaves something of the
    window notifies the next.  The model has any number of writers, of both kinds (the
    loop of [reserve_writable_chunk], and [poll_writable] of a [ChannelTx]), which run in
    tasks of their own: what they do between two accesses to what is shared is
    one step, and the steps interleave in any order. *)

From stdpp Require Import base list numbers option relations.
From Stdlib Require Import ZArith Lia.
From S2P Require Import Prelude LibInner Pty Channels.

(** ** [tokio::sync::Notify]

    A writer has one future of [notified()] at a time; it is named by the number of
    the writer. *)
Class Notify (N : Type) : Type := {
  (** the task that is woken *)
  notify_one : N -> option nat * N;
  (** whether the future is ready *)
  poll_notified : nat -> N -> bool * N;
  drop_notified : nat -> N -> option nat * N;
}.

(** What the documentation says of it: a permit when nobody waits, the waiting
    futures in the order in which they were first polled, and the futures that were
    notified and do not know it yet. *)
Record NotifyState : Type := mkNotifyState {
  permit : bool;
  queue : list nat;
  notified : list nat;
}.

Definition without (i : nat) (l : list nat) : list nat := filter (fun j => j <> i) l.

Definition doc_notify_one (n : NotifyState) : option nat * NotifyState :=
  match n.(queue) with
  | [] => (None, mkNotifyState true [] n.(notified))
  | i :: q => (Some i, mkNotifyState n.(permit) q (i :: n.(notified)))
  end.

Definition doc_poll_notified (i : nat) (n : NotifyState) : bool * NotifyState :=
  if decide (i ∈ n.(notified)) then (true, mkNotifyState n.(permit) n.(queue) (without i n.(notified)))
  else if decide (i ∈ n.(queue)) then (false, n)
  else if n.(permit) then (true, mkNotifyState false n.(queue) n.(notified))
  else (false, mkNotifyState false (n.(queue) ++ [i]) n.(notified)).

(** A notification that was not received is passed on. *)
Definition doc_drop_notified (i : nat) (n : NotifyState) : option nat * NotifyState :=
  if decide (i ∈ n.(notified)) then
    doc_notify_one (mkNotifyState n.(permit) n.(queue) (without i n.(notified)))
  else (None, mkNotifyState n.(permit) (without i n.(queue)) n.(notified)).

Class NotifyLaws (N : Type) {HN : Notify N} : Type := {
  doc : N -> NotifyState;
  notify_one_doc n : doc_notify_one (doc n) = ((notify_one n).1, doc (notify_one n).2);
  poll_notified_doc i n :
    doc_poll_notified i (doc n) = ((poll_notified i n).1, doc (poll_notified i n).2);
  drop_notified_doc i n :
    doc_drop_notified i (doc n) = ((drop_notified i n).1, doc (drop_notified i n).2);
}.

(** ** The writers of a channel *)
Section Writers.
Context {N : Type} {HN : Notify N}.
(** Which of the writers are a [ChannelTx]; the others are in
    [reserve_writable_chunk]. *)
Context (is_tx : nat -> bool).

Inductive Task : Type :=
| Idle          (* has nothing to reserve *)
| Exhausted     (* found no room and has let go of the lock *)
| Parked        (* its future is pending *)
| Woken         (* is to be polled *)
| Looping.      (* has received a notification and wants the lock *)
#[global] Instance task_eq_dec : EqDecision Task.
Proof. solve_decision. Defined.

Record Sys : Type := mkSys {
  half : ChannelWriteHalf;      (* the window, and the size of packets *)
  notifier : N;
  notifying : nat;              (* calls of [update] that have set the value only *)
  tasks : list Task;
}.

Definition set_half (h : ChannelWriteHalf) (s : Sys) : Sys :=
  mkSys h s.(notifier) s.(notifying) s.(tasks).
Definition set_notifying (k : nat) (s : Sys) : Sys := mkSys s.(half) s.(notifier) k s.(tasks).
Definition set_task (i : nat) (t : Task) (s : Sys) : Sys :=
  mkSys s.(half) s.(notifier) s.(notifying) (<[i := t]> s.(tasks)).

(** A task that is woken is polled if it waits. *)
Definition wake (w : option nat) (ts : list Task) : list Task :=
  match w with
  | Some i => if decide (ts !! i = Some Parked) then <[i := Woken]> ts else ts
  | None => ts
  end.

Definition signal (s : Sys) : Sys :=
  let '(w, n) := notify_one s.(notifier) in mkSys s.(half) n s.(notifying) (wake w s.(tasks)).

(** The first half of [WindowSizeRef::update], under the lock. *)
Definition update_value (v : Z) (s : Sys) : Sys :=
  set_notifying (S s.(notifying))
    (set_half (set_window (mkWindowSizeRef v s.(half).(window_size).(notifications)) s.(half)) s).

(** Its second half. *)
Definition update_notify (s : Sys) : Sys :=
  signal (set_half (set_window (Channels.notify_one s.(half).(window_size)) s.(half)) s).

(** One look at the window, under the lock: of [reserve_writable_chunk], or of
    [poll_writable]; the notification for the next writer, if there is one, is given
    before the lock is released. *)
Definition look (i : nat) (len : Z) (h : ChannelWriteHalf) : option Z * ChannelWriteHalf :=
  if is_tx i then
    match poll_writable len (mkChannelTx h None None) with
    | (Ready n, t) => (Some n, t.(tx_half))
    | (Pending, t) => (None, t.(tx_half))
    end
  else reserve_turn len h.

Definition turn (i : nat) (len : Z) (s : Sys) : Sys :=
  let '(r, h) := look i len s.(half) in
  let s1 := set_half h s in
  let s2 := if decide (h.(window_size).(notifications) = s.(half).(window_size).(notifications))
            then s1 else signal s1 in
  set_task i (match r with Some _ => Idle | None => Exhausted end) s2.

(** Polling the future, after the lock was released: [window_size_notication] of a
    [ChannelTx], which is replaced when it is ready and wakes its own task, or
    [notified] of the loop, which goes on. *)
Definition wait (i : nat) (s : Sys) : Sys :=
  let '(ready, n) := poll_notified i s.(notifier) in
  set_task i (if ready then if is_tx i then Woken else Looping else Parked)
    (mkSys s.(half) n s.(notifying) s.(tasks)).

(** A task that is woken: a [ChannelTx] looks at the window at once, the loop
    first gets its notification. *)
Definition poll_woken (i : nat) (len : Z) (s : Sys) : Sys :=
  if is_tx i then turn i len s else wait i s.

(** A writer that is dropped: the future is, and a [ChannelTx] notifies besides. *)
Definition drop_writer (i : nat) (s : Sys) : Sys :=
  let s1 := if is_tx i then signal s else s in
  let '(w, n) := drop_notified i s1.(notifier) in
  set_task i Idle (mkSys s1.(half) n s1.(notifying) (wake w s1.(tasks))).

(** What goes on by itself. *)
Inductive work : Sys -> Sys -> Prop :=
| work_notify s k : s.(notifying) = S k -> work s (update_notify (set_notifying k s))
| work_wait i s : s.(tasks) !! i = Some Exhausted -> work s (wait i s)
| work_woken i len s : s.(tasks) !! i = Some Woken -> 0 < len < U32_MOD -> work s (poll_woken i len s)
| work_loop i len s : s.(tasks) !! i = Some Looping -> 0 < len < U32_MOD -> work s (turn i len s).

(** What comes from outside: the session, the application.  A writer that waits is
    polled when it was woken, or dropped; and a loop is not dropped between the
    notification and the lock. *)
Inductive step : Sys -> Sys -> Prop :=
| step_work s s' : work s s' -> step s s'
| step_update v s : 0 <= v -> step s (update_value v s)
| step_write i len s : s.(tasks) !! i = Some Idle -> 0 < len < U32_MOD -> step s (turn i len s)
| step_drop i s t : s.(tasks) !! i = Some t -> t <> Looping -> step s (drop_writer i s).

Definition at_rest (s : Sys) : Prop := forall s', ~ work s s'.

(** ** Nobody waits beside an open window *)
Context {HL : NotifyLaws N}.
Abbreviation window s := (s.(half).(window_size).(value)).

Definition parked_in (ts : list Task) (i : nat) : Prop := ts !! i = Some Parked.

(** The queue is that of the waiting tasks, and a notification that was not
    received is one of a task that will. *)
Record well_in (d : NotifyState) (h : ChannelWriteHalf) (ts : list Task) : Prop := mkWell {
  window_nonneg : 0 <= h.(window_size).(value);
  packets_pos : 0 < h.(max_packet_size);
  queue_NoDup : NoDup d.(queue);
  queue_parked i : i ∈ d.(queue) <-> ts !! i = Some Parked;
  queue_unnotified i : i ∈ d.(queue) -> i ∉ d.(notified);
  permit_alone : d.(permit) = true -> d.(queue) = [];
  loop_woken i : is_tx i = false -> ts !! i = Some Woken <-> i ∈ d.(notified);
}.
Definition well (s : Sys) : Prop := well_in (doc s.(notifier)) s.(half) s.(tasks).

(** Somebody other than [i] will look at the window. *)
Definition awake_in (i : nat) (d : NotifyState) (ts : list Task) : Prop :=
  d.(permit) = true \/ exists j, j <> i /\ (ts !! j = Some Woken \/ ts !! j = Some Looping).
Definition awake (i : nat) (s : Sys) : Prop := awake_in i (doc s.(notifier)) s.(tasks).

Definition waiting (s : Sys) : Prop :=
  exists i, s.(tasks) !! i = Some Exhausted \/ s.(tasks) !! i = Some Parked.
Definition attended (s : Sys) : Prop :=
  (0 < s.(notifying))%nat \/ (doc s.(notifier)).(permit) = true \/
  exists j, s.(tasks) !! j = Some Woken \/ s.(tasks) !! j = Some Looping.
Definition inv (s : Sys) : Prop := well s /\ (0 < window s -> waiting s -> attended s).

Lemma awake_attended i s t : awake i s -> attended (set_task i t s).
Proof.
  intros [Hp|(j & Hj & Ht)]; [by right; left|]. right; right. exists j. cbn.
  by rewrite list_lookup_insert_ne.
Qed.

Lemma elem_without i j l : j ∈ without i l <-> j <> i /\ j ∈ l.
Proof. unfold without. by rewrite list_elem_of_filter. Qed.

Lemma lookup_set_task i j t (ts : list Task) : is_Some (ts !! i) ->
  <[i := t]> ts !! j = if decide (j = i) then Some t else ts !! j.
Proof.
  intros [x Hx]. case_decide as E.
  - subst. apply list_lookup_insert_eq. by eapply lookup_lt_Some.
  - by apply list_lookup_insert_ne.
Qed.

(** A notification reaches a task that waits, or stays. *)
Lemma notify_ok i d h ts : well_in d h ts -> ts !! i <> Some Parked ->
  let '(w, d') := doc_notify_one d in
  well_in d' h (wake w ts) /\ awake_in i d' (wake w ts) /\ (wake w ts) !! i = ts !! i.
Proof.
  intros [H1 H2 H3 H4 H5 H6 H7] Hi. unfold doc_notify_one.
  destruct (queue d) as [|k q] eqn:Eq.
  - split; [|by split; [left|]]. split; cbn; rewrite ?Eq; try done.
  - apply NoDup_cons in H3 as [Hk Hq].
    assert (Hp : ts !! k = Some Parked) by (apply H4; left).
    assert (Hki : k <> i) by (by intros ->). cbn [wake]. rewrite decide_True by done.
    assert (Hl : forall j, <[k := Woken]> ts !! j = if decide (j = k) then Some Woken else ts !! j)
      by (intros; by apply lookup_set_task).
    split; [|split; [right; exists k; split; [done|]; left; rewrite Hl; by rewrite decide_True|]].
    + split; cbn; try done.
      * intros j. rewrite Hl. case_decide as E; [subst; by split|]. rewrite <- H4, elem_of_cons. naive_solver.
      * intros j Hj. rewrite elem_of_cons. intros [->|Hn]; [done|]. eapply H5; [by right|done].
      * intros Hp'. by apply H6 in Hp'.
      * intros j Hj. rewrite Hl, elem_of_cons. case_decide as E; [naive_solver|].
        rewrite H7 by done. naive_solver.
    + rewrite Hl, decide_False by done. done.
Qed.

Lemma signal_ok i s : well s -> s.(tasks) !! i <> Some Parked ->
  well (signal s) /\ awake i (signal s) /\ (signal s).(tasks) !! i = s.(tasks) !! i /\
  (signal s).(half) = s.(half) /\ (signal s).(notifying) = s.(notifying).
Proof.
  intros Hs Hi. pose proof (notify_ok i _ _ _ Hs Hi) as H. unfold signal.
  pose proof (notify_one_doc s.(notifier)) as Hd. destruct (notify_one s.(notifier)) as [w n].
  cbn [fst snd] in Hd. rewrite Hd in H. destruct H as (H1 & H2 & H3). done.
Qed.

(** A task that neither waits nor is owed a notification changes what it does. *)
Lemma set_task_well i t t' s : well s -> s.(tasks) !! i = Some t ->
  t <> Parked -> t' <> Parked ->
  (is_tx i = false -> t <> Woken /\ t' <> Woken) -> well (set_task i t' s).
Proof.
  intros [H1 H2 H3 H4 H5 H6 H7] Ht Hp Hp' Hw.
  assert (Hl : forall j, <[i := t']> s.(tasks) !! j = if decide (j = i) then Some t' else s.(tasks) !! j)
    by (intros; by apply lookup_set_task).
  split; try done; cbn.
  - intros j. rewrite Hl, H4. case_decide; [subst|done]. naive_solver.
  - intros j Hj. rewrite Hl, <- H7 by done. case_decide; [subst|done]. naive_solver.
Qed.

(** Taking from the window leaves the waiting as it is. *)
Lemma set_half_well h s : well s -> 0 <= h.(window_size).(value) -> 0 < h.(max_packet_size) ->
  well (set_half h s).
Proof. intros [] ? ?. by split. Qed.

(** What a look at the window gives: some of it, and a notification if some is
    left, or nothing because nothing is there. *)
Lemma look_spec i len h : 0 < len < U32_MOD -> 0 <= h.(window_size).(value) -> 0 < h.(max_packet_size) ->
  match look i len h with
  | (Some n, h') => 0 < n /\ h'.(window_size).(value) = h.(window_size).(value) - n /\
      0 <= h'.(window_size).(value) /\ h'.(max_packet_size) = h.(max_packet_size) /\
      (h'.(window_size).(notifications) = h.(window_size).(notifications) <-> h'.(window_size).(value) = 0)
  | (None, h') => h' = h /\ h.(window_size).(value) = 0
  end.
Proof.
  intros Hlen Hv Hm. unfold look, poll_writable, reserve_turn. cbn [tx_half tx_ext].
  rewrite to_u32_small by (unfold is_u32; lia).
  set (n := Z.min _ len). destruct (is_tx i).
  all: destruct (Z.ltb_spec 0 n); [|split; [done|lia]]; cbn.
  all: destruct (Z.ltb_spec 0 (h.(window_size).(value) - n)); cbn; repeat split; lia.
Qed.

Lemma turn_ok i len t s : well s -> s.(tasks) !! i = Some t -> t <> Parked ->
  (is_tx i = false -> t <> Woken) -> 0 < len < U32_MOD ->
  well (turn i len s) /\ (0 < window (turn i len s) -> attended (turn i len s)).
Proof.
  intros Hs Ht Hp Hw Hlen. pose proof (look_spec i len s.(half) Hlen (window_nonneg _ _ _ Hs) (packets_pos _ _ _ Hs)) as Hl.
  unfold turn. destruct (look i len s.(half)) as [[n|] h].
  - destruct Hl as (Hn & Hv & H0 & Hm & Hk).
    assert (Hs1 : well (set_half h s)) by (apply set_half_well; [done..|by rewrite Hm; eapply packets_pos]).
    case_decide as E.
    + split; [by eapply set_task_well; [|exact Ht|..]; naive_solver|]. cbn. intros. apply Hk in E. lia.
    + destruct (signal_ok i (set_half h s) Hs1) as (Hs2 & Ha & Ht2 & _); [cbn; by rewrite Ht; intros [= ->]|].
      split; [|intros _; by apply awake_attended].
      eapply set_task_well; [done|by rewrite Ht2|done..|]. naive_solver.
  - destruct Hl as [-> Hz]. rewrite decide_True by done.
    assert (Hs1 : set_half s.(half) s = s) by (by destruct s). rewrite Hs1.
    split; [by eapply set_task_well; [|exact Ht|..]; naive_solver|]. cbn. lia.
Qed.
(** Polling the future: it was notified, takes the permit, or waits. *)
Lemma wait_ok i t s : well s -> s.(tasks) !! i = Some t ->
  t = Exhausted \/ t = Woken /\ is_tx i = false ->
  let s' := wait i s in
  well s' /\ s'.(half) = s.(half) /\ s'.(notifying) = s.(notifying) /\
  ((s'.(tasks) = <[i := if is_tx i then Woken else Looping]> s.(tasks) /\
    ((doc s.(notifier)).(permit) = true /\ doc s'.(notifier) =
       mkNotifyState false (doc s.(notifier)).(queue) (doc s.(notifier)).(notified) \/
     i ∈ (doc s.(notifier)).(notified) /\ doc s'.(notifier) =
       mkNotifyState (doc s.(notifier)).(permit) (doc s.(notifier)).(queue) (without i (doc s.(notifier)).(notified)))) \/
   (s'.(tasks) = <[i := Parked]> s.(tasks) /\ t = Exhausted /\ (doc s.(notifier)).(permit) = false /\
    doc s'.(notifier) =
      mkNotifyState false ((doc s.(notifier)).(queue) ++ [i]) (doc s.(notifier)).(notified))).
Proof.
  intros [H1 H2 H3 H4 H5 H6 H7] Ht Hw. unfold wait.
  pose proof (poll_notified_doc i s.(notifier)) as Hd. destruct (poll_notified i s.(notifier)) as [r n].
  cbn [fst snd] in Hd. unfold doc_poll_notified in Hd.
  set (d := doc s.(notifier)) in *.
  assert (Hq : i ∉ d.(queue)) by (rewrite H4, Ht; naive_solver).
  assert (Hl : forall u j, <[i := u]> s.(tasks) !! j = if decide (j = i) then Some u else s.(tasks) !! j)
    by (intros; by apply lookup_set_task).
  case_decide as Hn; [|rewrite decide_False in Hd by done; destruct (permit d) eqn:Ep].
  - injection Hd as <- Hd. cbn. split; [|split; [done|split; [done|left; split; [done|right; by rewrite <- Hd]]]].
    split; cbn; rewrite <- ?Hd; cbn; try done.
    + intros j. rewrite Hl, H4. case_decide; [subst|done]. destruct (is_tx i); naive_solver.
    + intros j Hj. rewrite elem_without. intros [_ Hx]. by eapply H5.
    + intros j Hj. rewrite Hl, elem_without, <- H7 by done. case_decide; [subst; rewrite Hj|]; naive_solver.
  - injection Hd as <- Hd. cbn. split; [|split; [done|split; [done|left; split; [done|left; by rewrite <- Hd]]]].
    split; cbn; rewrite <- ?Hd; cbn; try done.
    + intros j. rewrite Hl, H4. case_decide; [subst|done]. destruct (is_tx i); naive_solver.
    + intros j Hj. rewrite Hl, <- H7 by done. case_decide; [subst; rewrite Hj, Ht|]; [|done].
      split; [done|]. intros E. injection E as ->. exfalso. apply Hn, H7; done.
  - injection Hd as <- Hd. cbn. assert (He : t = Exhausted).
    { destruct Hw as [|[-> Hj]]; [done|]. exfalso. by apply Hn, H7. }
    split; [|split; [done|split; [done|right; by rewrite <- Hd]]]. subst t.
    split; cbn; rewrite <- ?Hd; cbn; try done.
    + apply NoDup_app. split; [done|]. split; [|apply NoDup_singleton]. intros j Hj ->%list_elem_of_singleton. done.
    + intros j. rewrite Hl, elem_of_app, list_elem_of_singleton, H4. case_decide; [subst|]; naive_solver.
    + intros j. rewrite elem_of_app, list_elem_of_singleton. intros [Hj| ->]; [by apply H5|done].
    + intros j Hj. rewrite Hl, <- H7 by done. case_decide; [subst; rewrite Ht|]; naive_solver.
Qed.
(** Dropping the future of a task, which then has nothing to do. *)
Definition forget (i : nat) (s : Sys) : Sys :=
  let '(w, n) := drop_notified i s.(notifier) in
  set_task i Idle (mkSys s.(half) n s.(notifying) (wake w s.(tasks))).

Lemma wake_insert i k ts : k <> i -> <[i := Idle]> (wake (Some k) ts) = wake (Some k) (<[i := Idle]> ts).
Proof.
  intros Hk. unfold wake. rewrite list_lookup_insert_ne by done. case_decide; [|done].
  by apply list_insert_insert_ne.
Qed.

Lemma forget_ok i t s : well s -> s.(tasks) !! i = Some t ->
  well (forget i s) /\ (forget i s).(half) = s.(half) /\ (forget i s).(notifying) = s.(notifying) /\
  (i ∈ (doc s.(notifier)).(notified) -> attended (forget i s)) /\
  (awake i s -> attended (forget i s)) /\
  (forall j, j <> i -> s.(tasks) !! j <> Some Parked -> (forget i s).(tasks) !! j = s.(tasks) !! j).
Proof.
  intros Hs Ht. pose proof Hs as [H1 H2 H3 H4 H5 H6 H7].
  unfold forget. pose proof (drop_notified_doc i s.(notifier)) as Hd.
  destruct (drop_notified i s.(notifier)) as [w n]. cbn [fst snd] in Hd. unfold doc_drop_notified in Hd.
  set (d := doc s.(notifier)) in *.
  assert (Hl : forall j, <[i := Idle]> s.(tasks) !! j = if decide (j = i) then Some Idle else s.(tasks) !! j)
    by (intros; by apply lookup_set_task).
  case_decide as Hn.
  - set (d0 := mkNotifyState d.(permit) d.(queue) (without i d.(notified))) in *.
    assert (Hq : i ∉ d.(queue)) by (intros Hq; by eapply H5).
    assert (H0 : well_in d0 s.(half) (<[i := Idle]> s.(tasks))).
    { split; try done; cbn.
      - intros j. rewrite Hl, H4. case_decide; [subst|done]. by rewrite <- H4.
      - intros j Hj. rewrite elem_without. intros [_ Hx]. by eapply H5.
      - intros j Hj. rewrite Hl, elem_without, <- H7 by done. case_decide; naive_solver. }
    pose proof (notify_ok i d0 s.(half) _ H0) as Hk. rewrite Hd in Hk.
    destruct Hk as (Hk1 & Hk2 & Hk3); [by rewrite Hl, decide_True|].
    assert (Hc : <[i := Idle]> (wake w s.(tasks)) = wake w (<[i := Idle]> s.(tasks))).
    { unfold doc_notify_one in Hd. cbn in Hd. destruct (queue d) as [|k q]; injection Hd as <- _; [done|].
      apply wake_insert. intros ->. apply Hq. by left. }
    cbn. unfold well, attended. cbn. rewrite Hc. split; [done|]. split; [done|]. split; [done|].
    assert (Ha : attended (mkSys s.(half) n s.(notifying) (wake w (<[i := Idle]> s.(tasks))))).
    { right. destruct Hk2 as [?|(j & _ & ?)]; [by left|right; by exists j]. }
    split; [done|]. split; [done|]. intros j Hj Hp.
    unfold wake. destruct w as [k|]; [|by rewrite Hl, decide_False].
    case_decide as Ek; [|by rewrite Hl, decide_False].
    assert (j <> k). { intros ->. rewrite Hl, decide_False in Ek by done. done. }
    rewrite list_lookup_insert_ne by done. by rewrite Hl, decide_False.
  - injection Hd as <- Hd. cbn [wake]. unfold well, attended. cbn. rewrite <- Hd. cbn.
    split; [|split; [done|split; [done|split; [done|split]]]].
    + split; try done; cbn.
      * by apply NoDup_filter.
      * intros j. rewrite Hl, elem_without, H4. case_decide; naive_solver.
      * intros j. rewrite elem_without. intros [_ Hj]. by apply H5.
      * intros Hp. by rewrite H6.
      * intros j Hj. rewrite Hl, <- H7 by done. case_decide; [|done]. subst. split; [done|].
        intros E. exfalso. by apply Hn, H7.
    + intros [Hp|(j & Hj & Hx)]; [by right; left|]. right; right. exists j. by rewrite Hl, decide_False.
    + intros j Hj _. by rewrite Hl, decide_False.
Qed.
Lemma drop_writer_eq i s : drop_writer i s = forget i (if is_tx i then signal s else s).
Proof. done. Qed.

(** *** Every step keeps the invariant *)
Lemma inv_notify s k : inv s -> inv (update_notify (set_notifying k s)).
Proof.
  intros [Hs _]. unfold update_notify. set (s0 := set_half _ _).
  assert (Hs0 : well s0) by (destruct Hs; by split).
  destruct (signal_ok (length s0.(tasks)) s0 Hs0) as (H1 & H2 & _); [by rewrite lookup_ge_None_2|].
  split; [done|]. intros _ _. destruct H2 as [?|(j & _ & ?)]; [by right; left|]. right; right. by exists j.
Qed.

Lemma inv_turn i len t s : inv s -> s.(tasks) !! i = Some t -> t <> Parked ->
  (is_tx i = false -> t <> Woken) -> 0 < len < U32_MOD -> inv (turn i len s).
Proof. intros [Hs _] Ht Hp Hw Hl. destruct (turn_ok i len t s Hs Ht Hp Hw Hl). by split; [|auto]. Qed.

Lemma inv_wait i t s : inv s -> s.(tasks) !! i = Some t ->
  t = Exhausted \/ t = Woken /\ is_tx i = false -> inv (wait i s).
Proof.
  intros [Hs Ha] Ht Hw. destruct (wait_ok i t s Hs Ht Hw) as (H1 & Hh & Hk & H2). split; [done|].
  intros Hv _. destruct H2 as [[Htask _]|(Htask & -> & Hp & Hd)].
  - right; right. exists i. rewrite Htask, lookup_set_task, decide_True by eauto. destruct (is_tx i); auto.
  - assert (Hat : attended s) by (apply Ha; [by rewrite <- Hh|exists i; by left]).
    destruct Hat as [Hn|[Hp'|(j & Hj)]]; [left; by rewrite Hk|by rewrite Hp in Hp'|].
    right; right. exists j. rewrite Htask, lookup_set_task, decide_False; [done|naive_solver|eauto].
Qed.

Lemma inv_drop i t s : inv s -> s.(tasks) !! i = Some t -> t <> Looping -> inv (drop_writer i s).
Proof.
  intros [Hs Ha] Ht Hl. rewrite drop_writer_eq. destruct (is_tx i) eqn:Ex.
  - (* a [ChannelTx] notifies *)
    destruct (decide (t = Parked)) as [->|Hp].
    + destruct (signal_ok (length s.(tasks)) s Hs) as (H1 & H2 & _ & Hh & Hk); [by rewrite lookup_ge_None_2|].
      assert (Hi : exists u, (signal s).(tasks) !! i = Some u).
      { apply lookup_lt_is_Some. unfold signal. destruct (notify_one _) as [[k|] n]; cbn;
          [case_decide; rewrite ?length_insert|]; by eapply lookup_lt_Some. }
      destruct Hi as [u Hu]. destruct (forget_ok i u (signal s) H1 Hu) as (F1 & F2 & F3 & F4 & F5 & _).
      split; [done|]. intros _ _. destruct (decide (i ∈ (doc (signal s).(notifier)).(notified))) as [Hn|Hn]; [by apply F4|].
      apply F5. destruct H2 as [?|(j & _ & Hj)]; [by left|]. right. exists j. split; [|done]. intros ->.
      (* woken just now, it would be notified *)
      revert Hn Hj Hu. unfold signal. pose proof (notify_one_doc s.(notifier)) as Hd.
      destruct (notify_one s.(notifier)) as [w n]. cbn [fst snd notifier tasks] in *. unfold doc_notify_one in Hd.
      destruct (queue (doc s.(notifier))) as [|k q]; injection Hd as <- Hd; cbn; [rewrite Ht; naive_solver|].
      rewrite <- Hd. cbn. intros Hn Hj _. destruct (decide (k = i)) as [->|Hki]; [exfalso; apply Hn; by left|].
      revert Hj. case_decide; [rewrite list_lookup_insert_ne by done|]; rewrite Ht; naive_solver.
    + destruct (signal_ok i s Hs) as (H1 & H2 & H3 & Hh & Hk); [by rewrite Ht; intros [= ->]|].
      rewrite Ht in H3. destruct (forget_ok i t (signal s) H1 H3) as (F1 & F2 & F3 & F4 & F5 & _).
      split; [done|]. intros _ _. by apply F5.
  - destruct (forget_ok i t s Hs Ht) as (F1 & F2 & F3 & F4 & F5 & F6). split; [done|].
    rewrite F2. intros Hv (j & Hj). destruct (decide (i ∈ (doc s.(notifier)).(notified))) as [Hn|Hn]; [by apply F4|].
    assert (Hw : t <> Woken). { intros ->. by apply Hn, (loop_woken _ _ _ Hs i Ex). }
    assert (Hat : waiting s).
    { destruct (decide (t = Exhausted \/ t = Parked)) as [Hp|Hp]; [exists i; destruct Hp; subst; auto|].
      destruct (decide (j = i)) as [->|Hji].
      - exfalso. revert Hj. unfold forget. destruct (drop_notified _ _) as [w n]. cbn.
        rewrite list_lookup_insert_eq; [naive_solver|].
        unfold wake. destruct w; [case_decide; rewrite ?length_insert|]; by eapply lookup_lt_Some.
      - exists j. destruct (decide (s.(tasks) !! j = Some Parked)); [by right|]. by rewrite F6 in Hj. }
    destruct (Ha Hv Hat) as [Hk|[Hp|(k & Hk)]]; [left; by rewrite F3|apply F5; by left|].
    apply F5. right. exists k. split; [|done]. intros ->. rewrite Ht in Hk. naive_solver.
Qed.

Lemma inv_work s s' : inv s -> work s s' -> inv s'.
Proof.
  intros Hs Hw. destruct Hw as [s k Hk|i s Ht|i len s Ht Hl|i len s Ht Hl].
  - by apply inv_notify.
  - eapply inv_wait; [done|exact Ht|by left].
  - unfold poll_woken. destruct (is_tx i) eqn:Ex; [by eapply inv_turn; [|exact Ht|done|rewrite Ex|]|].
    eapply inv_wait; [done|exact Ht|by right].
  - by eapply inv_turn.
Qed.

Lemma inv_step s s' : inv s -> step s s' -> inv s'.
Proof.
  intros Hs Hst. destruct Hst as [s s' Hw|v s Hv|i len s Ht Hl|i s t Ht Hl].
  - by eapply inv_work.
  - destruct Hs as [[] _]. split; [by split|]. intros _ _. left. cbn. lia.
  - by eapply inv_turn.
  - by eapply inv_drop.
Qed.
(** *** The writers come to rest *)
Definition weight (t : Task) : Z :=
  match t with Idle | Parked => 0 | Exhausted => 1 | Looping => 2 | Woken => 3 end.
Definition load (ts : list Task) : Z := foldr (fun t a => weight t + a) 0 ts.
Definition tokens (d : NotifyState) : Z := zlen d.(notified) + (if d.(permit) then 1 else 0).

Definition measure (s : Sys) : Z :=
  5 * window s + 7 * Z.of_nat s.(notifying) + 3 * tokens (doc s.(notifier)) + load s.(tasks).

Lemma load_insert i t u ts : ts !! i = Some t -> load (<[i := u]> ts) = load ts - weight t + weight u.
Proof.
  revert i. induction ts as [|x ts IH]; intros [|i] Ht; simplify_eq/=; [lia|].
  change (weight x + load (<[i := u]> ts) = weight x + load ts - weight t + weight u).
  rewrite (IH _ Ht). lia.
Qed.

Lemma load_nonneg ts : 0 <= load ts.
Proof.
  induction ts as [|t ts IH]; [done|]. change (0 <= weight t + load ts). destruct t; cbn [weight]; lia.
Qed.

Lemma measure_nonneg s : well s -> 0 <= measure s.
Proof.
  intros Hs. pose proof (window_nonneg _ _ _ Hs). pose proof (load_nonneg s.(tasks)).
  pose proof (zlen_nonneg (doc s.(notifier)).(notified)). unfold measure, tokens. destruct (permit _); lia.
Qed.

Lemma measure_signal s : well s -> measure (signal s) <= measure s + 6.
Proof.
  intros Hs. unfold signal. pose proof (notify_one_doc s.(notifier)) as Hd.
  destruct (notify_one s.(notifier)) as [w n]. cbn [fst snd] in Hd. unfold doc_notify_one in Hd.
  unfold measure, tokens. cbn [half notifier notifying tasks permit notified wake set_task set_half set_notifying window_size value set_window Channels.notify_one update_notify]. destruct (queue (doc s.(notifier))) as [|k q] eqn:Eq; injection Hd as <- Hd; rewrite <- Hd;
    cbn [permit notified wake].
  - destruct (permit _); lia.
  - assert (Hp : s.(tasks) !! k = Some Parked) by (apply (queue_parked _ _ _ Hs); rewrite Eq; by left).
    rewrite decide_True by done. rewrite (load_insert _ _ _ _ Hp), zlen_cons. cbn [weight]. lia.
Qed.

Lemma measure_turn i len t s : well s -> s.(tasks) !! i = Some t -> t = Woken \/ t = Looping ->
  0 < len < U32_MOD -> measure (turn i len s) < measure s.
Proof.
  intros Hs Ht Hw Hlen. pose proof (look_spec i len s.(half) Hlen (window_nonneg _ _ _ Hs) (packets_pos _ _ _ Hs)) as Hl.
  assert (Hwt : 2 <= weight t) by (by destruct Hw; subst).
  unfold turn. destruct (look i len s.(half)) as [[n|] h].
  - destruct Hl as (Hn & Hv & H0 & Hm & Hk).
    assert (Hs1 : well (set_half h s)) by (apply set_half_well; [done..|by rewrite Hm; eapply packets_pos]).
    case_decide as E.
    + unfold measure. cbn [half notifier notifying tasks permit notified wake set_task set_half set_notifying window_size value set_window Channels.notify_one update_notify].
      rewrite (load_insert _ _ _ _ Ht). cbn [weight]. lia.
    + destruct (signal_ok i (set_half h s) Hs1) as (_ & _ & Ht2 & Hh & _); [cbn; rewrite Ht; by destruct Hw; subst|].
      pose proof (measure_signal _ Hs1) as Hm1. cbn [set_half tasks] in Ht2. rewrite Ht in Ht2.
      unfold measure in Hm1 |- *. cbn [set_task half notifier notifying tasks] in *.
      rewrite (load_insert _ _ _ _ Ht2). rewrite Hh in Hm1 |- *.
      change (notifying (set_half h s)) with (notifying s) in Hm1.
      change (notifier (set_half h s)) with (notifier s) in Hm1.
      change (tasks (set_half h s)) with (tasks s) in Hm1. cbn [half set_half weight] in *. lia.
  - destruct Hl as [-> Hz]. rewrite decide_True by done. unfold measure. cbn [half notifier notifying tasks permit notified wake set_task set_half set_notifying window_size value set_window Channels.notify_one update_notify].
    rewrite (load_insert _ _ _ _ Ht). cbn [weight]. lia.
Qed.

Lemma measure_wait i t s : well s -> s.(tasks) !! i = Some t ->
  t = Exhausted \/ t = Woken /\ is_tx i = false -> measure (wait i s) < measure s.
Proof.
  intros Hs Ht Hw. destruct (wait_ok i t s Hs Ht Hw) as (_ & Hh & Hk & H2).
  unfold measure, tokens. rewrite Hh, Hk. destruct H2 as [[-> Hd]|(-> & -> & Hp & ->)];
    rewrite (load_insert _ _ _ _ Ht).
  - assert (Hx : weight (if is_tx i then Woken else Looping) <= weight t + 2)
      by (destruct Hw as [->|[-> ->]]; [destruct (is_tx i)|]; cbn; lia).
    destruct Hd as [[Hp ->]|[Hn ->]]; [rewrite Hp|]; cbn [notified permit]; [lia|].
    assert (Hw1 : (length (without i (doc (notifier s)).(notified)) < length (doc (notifier s)).(notified))%nat).
    { unfold without. by eapply length_filter_lt; [exact Hn|]; cbn; tauto. }
    unfold zlen. lia.
  - cbn [notified permit weight]. rewrite Hp. lia.
Qed.

Lemma measure_work s s' : inv s -> work s s' -> measure s' < measure s.
Proof.
  intros [Hs _] Hw. destruct Hw as [s k Hk|i s Ht|i len s Ht Hl|i len s Ht Hl].
  - unfold update_notify. set (s0 := set_half _ _).
    assert (Hs0 : well s0) by (destruct Hs; by split).
    pose proof (measure_signal s0 Hs0) as Hm. unfold measure in *. subst s0.
    cbn [half notifier notifying tasks permit notified wake set_task set_half set_notifying window_size value set_window Channels.notify_one update_notify] in *. rewrite Hk. lia.
  - eapply measure_wait; [done|exact Ht|by left].
  - unfold poll_woken. destruct (is_tx i) eqn:Ex; [by eapply measure_turn; [|exact Ht|left|]|].
    eapply measure_wait; [done|exact Ht|by right].
  - by eapply measure_turn; [|exact Ht|right|].
Qed.

(** What is left to do when nothing goes on by itself. *)
Lemma at_rest_tasks s : inv s -> at_rest s -> s.(notifying) = 0%nat /\
  forall i t, s.(tasks) !! i = Some t -> t = Idle \/ t = Parked.
Proof.
  intros _ Hr. split.
  - destruct (notifying s) eqn:E; [done|]. exfalso. by eapply Hr, work_notify.
  - assert (Hone : 0 < 1 < U32_MOD) by done.
    intros i [] Ht; auto; exfalso; eapply Hr.
    + by eapply work_wait.
    + by apply (work_woken i 1).
    + by apply (work_loop i 1).
Qed.

Lemma inv_works s s' : inv s -> rtc work s s' -> inv s'.
Proof. intros Hs. induction 1; eauto using inv_work. Qed.

Lemma works_bounded k s s' : inv s -> nsteps work k s s' -> Z.of_nat k <= measure s.
Proof.
  intros Hs Hn. revert Hs. induction Hn as [s|k s s1 s' Hw _ IH]; intros Hs.
  - apply measure_nonneg, Hs.
  - pose proof (measure_work _ _ Hs Hw). specialize (IH (inv_work _ _ Hs Hw)). lia.
Qed.

Definition start (h : ChannelWriteHalf) (nf : N) (writers : nat) : Sys :=
  mkSys h nf 0 (replicate writers Idle).

Lemma start_inv h nf writers : doc nf = mkNotifyState false [] [] ->
  0 <= h.(window_size).(value) -> 0 < h.(max_packet_size) -> inv (start h nf writers).
Proof.
  intros Hd Hv Hm. unfold inv, well. split; [split|]; cbn; rewrite ?Hd; cbn; try done.
  - constructor.
  - intros i. split; [by intros ?%elem_of_nil|]. by intros [? _]%lookup_replicate.
  - by intros i ?%elem_of_nil.
  - intros i _. split; [by intros [? _]%lookup_replicate|by intros ?%elem_of_nil].
  - intros _ (i & [[? _]%lookup_replicate|[? _]%lookup_replicate]); done.
Qed.

(** C18. No writer waits beside an open window.  However many writers of a channel
    reserve, are woken and are dropped, and whenever the session sets the window, in
    any interleaving of their accesses to it: if nothing more comes from outside,
    the writers come to rest within a bounded number of steps, whatever their
    order, and then a writer waits only if the window is empty.  (A [ChannelTx] that
    waits is polled again only when it was woken, and a writer is not dropped
    between its notification and the lock; [Example] has what happens otherwise.) *)
Theorem no_wakeup_lost h nf writers s :
  doc nf = mkNotifyState false [] [] -> 0 <= h.(window_size).(value) -> 0 < h.(max_packet_size) ->
  rtc step (start h nf writers) s ->
  exists bound, (forall k s', nsteps work k s s' -> Z.of_nat k <= bound) /\
  forall s', rtc work s s' -> at_rest s' ->
    forall i t, s'.(tasks) !! i = Some t -> t = Idle \/ t = Parked /\ window s' = 0.
Proof.
  intros Hd Hv Hm Hr. assert (Hs : inv s).
  { pose proof (start_inv h nf writers Hd Hv Hm) as H0. induction Hr; eauto using inv_step. }
  exists (measure s). split; [intros k s' Hk; by eapply works_bounded|].
  intros s' Hw Hrest i t Ht. assert (Hs' : inv s') by (by eapply inv_works).
  destruct (at_rest_tasks s' Hs' Hrest) as [Hk Hts]. destruct (Hts i t Ht) as [->| ->]; [by left|right].
  split; [done|]. destruct Hs' as [Hwell Ha]. pose proof (window_nonneg _ _ _ Hwell).
  destruct (Z.eq_dec (window s') 0) as [|Hz]; [done|exfalso].
  destruct Ha as [Hn|[Hp|(j & Hj)]]; [lia|exists i; by right|lia| |].
  - apply (permit_alone _ _ _ Hwell) in Hp. apply (queue_parked _ _ _ Hwell) in Ht.
    rewrite Hp in Ht. by apply elem_of_nil in Ht.
  - destruct Hj as [Hj|Hj]; by destruct (Hts j _ Hj).
Qed.
(** The two halves of [WindowSizeRef::update]. *)
Lemma update_halves v s :
  (update_notify (set_notifying s.(notifying) (update_value v s))).(half) =
  set_window (update v s.(half).(window_size)) s.(half).
Proof. unfold update_notify, signal. by destruct (notify_one _). Qed.

(** *** When the session is gone

    Only the session calls [update], and nobody notifies when it ends: a writer
    that waits then stays where it is, whatever the other writers do, unless one of
    them is dropped. *)
Definition sessionless (s s' : Sys) : Prop :=
  work s s' \/ exists j len, s.(tasks) !! j = Some Idle /\ 0 < len < U32_MOD /\ s' = turn j len s.

Definition stuck (i : nat) (s : Sys) : Prop :=
  window s = 0 /\ 0 < s.(half).(max_packet_size) /\ s.(notifying) = 0%nat /\ s.(tasks) !! i = Some Parked.

Lemma stuck_turn i j len t s : stuck i s -> s.(tasks) !! j = Some t -> t <> Parked ->
  0 < len < U32_MOD -> stuck i (turn j len s).
Proof.
  intros (Hw & Hm & Hn & Hi) Hj Ht Hl. pose proof (look_spec j len s.(half) Hl) as Hlk.
  unfold turn. destruct (look j len s.(half)) as [[n|] h].
  - destruct Hlk as (Hn' & Hv & H0 & _); lia.
  - destruct Hlk as [-> _]; [lia|done|]. rewrite decide_True by done. split_and!; try done.
    cbn. by rewrite list_lookup_insert_ne by (intros ->; congruence).
Qed.

Lemma stuck_wait i j t s : stuck i s -> s.(tasks) !! j = Some t -> t <> Parked -> stuck i (wait j s).
Proof.
  intros (Hw & Hm & Hn & Hi) Hj Ht. unfold wait. destruct (poll_notified j s.(notifier)) as [r n].
  split_and!; try done. cbn. by rewrite list_lookup_insert_ne by (intros ->; congruence).
Qed.

Lemma parked_for_good i s s' : stuck i s -> rtc sessionless s s' -> stuck i s'.
Proof.
  intros Hs. induction 1 as [s|s s1 s' [Hw|(j & len & Hj & Hl & ->)] _ IH]; [done|apply IH..].
  - destruct Hw as [s k Hk|j s Hj|j len s Hj Hl|j len s Hj Hl].
    + destruct Hs as (_ & _ & Hn & _). by rewrite Hn in Hk.
    + by eapply stuck_wait.
    + unfold poll_woken. destruct (is_tx j); [by eapply stuck_turn|by eapply stuck_wait].
    + by eapply stuck_turn.
  - by eapply stuck_turn.
Qed.

Lemma quiet_at_rest s : s.(notifying) = 0%nat ->
  Forall (fun t => t = Idle \/ t = Parked) s.(tasks) -> at_rest s.
Proof.
  intros Hn Hf s' Hw.
  assert (Ht : forall i t, s.(tasks) !! i = Some t -> t = Idle \/ t = Parked)
    by (intros i t Hi; by eapply Forall_lookup_1 in Hf).
  destruct Hw as [s k Hk|i s Hi|i len s Hi _|i len s Hi _]; [congruence|..]; by destruct (Ht _ _ Hi).
Qed.
End Writers.
Arguments Sys : clear implicits.

(** ** Three writers, and what the theorem does not promise *)
Module Example.
(** [Notify] as it is documented. *)
#[local] Instance documented : Notify NotifyState := {|
  notify_one := doc_notify_one;
  poll_notified := doc_poll_notified;
  drop_notified := doc_drop_notified;
|}.
#[local] Instance documented_laws : NotifyLaws NotifyState.
Proof. refine {| doc := fun n => n |}; intros; apply surjective_pairing. Defined.

Definition fresh : NotifyState := mkNotifyState false [] [].
Definition empty_window : ChannelWriteHalf := mkWriteHalf 0 [] true 32768 (WindowSizeRef_new 0).
Definition updated (is_tx : nat -> bool) (v : Z) (s : Sys NotifyState) : Sys NotifyState :=
  update_notify (set_notifying s.(notifying) (update_value v s)).

(** Two streams and a [data] call wait; the window opens by 10 bytes. *)
Definition tx3 (i : nat) : bool := negb (i =? 1)%nat.
Definition park (is_tx : nat -> bool) (i : nat) (s : Sys NotifyState) : Sys NotifyState :=
  wait is_tx i (turn is_tx i 10 s).
Definition parked3 : Sys NotifyState := park tx3 2 (park tx3 1 (park tx3 0 (start empty_window fresh 3))).
Definition opened3 : Sys NotifyState := update_value 10 parked3.

Lemma park_steps is_tx i s : s.(tasks) !! i = Some Idle -> (turn is_tx i 10 s).(tasks) !! i = Some Exhausted ->
  rtc (step is_tx) s (park is_tx i s).
Proof.
  intros Hi Ht. eapply rtc_l; [by apply (step_write is_tx i 10)|].
  apply rtc_once, step_work. by apply work_wait.
Qed.

Lemma no_wakeup_lost_witness :
  rtc (step tx3) (start empty_window fresh 3) opened3 /\ opened3.(tasks) = [Parked; Parked; Parked] /\
  exists bound, (forall k s', nsteps (work tx3) k opened3 s' -> Z.of_nat k <= bound) /\
  forall s', rtc (work tx3) opened3 s' -> at_rest tx3 s' ->
    forall i t, s'.(tasks) !! i = Some t -> t = Idle \/ t = Parked /\ s'.(half).(window_size).(value) = 0.
Proof.
  assert (Hr : rtc (step tx3) (start empty_window fresh 3) opened3).
  { eapply rtc_r; [|by apply step_update]. unfold parked3.
    etrans; [|apply park_steps; reflexivity].
    etrans; [|apply park_steps; reflexivity]. apply park_steps; reflexivity. }
  split; [exact Hr|]. split; [reflexivity|].
  apply (no_wakeup_lost tx3 empty_window fresh 3); [reflexivity|done|done|exact Hr].
Defined.

(** A [ChannelTx] that waits and is polled although it was not woken (its task has
    other things to do) takes from the window but stays in the queue; it then gets
    the notification of a writer that waits beside an open window. *)
Definition two_streams (_ : nat) : bool := true.
Definition both : Sys NotifyState := park two_streams 1 (park two_streams 0 (start empty_window fresh 2)).
Definition overtaken : Sys NotifyState := turn two_streams 1 10 (updated two_streams 10 both).
Definition again : Sys NotifyState :=
  wait two_streams 0 (turn two_streams 0 10 (wait two_streams 0 (turn two_streams 0 10 overtaken))).
Definition lost : Sys NotifyState := updated two_streams 5 again.

Example spurious_poll_loses_wakeup :
  both.(tasks) = [Parked; Parked] /\ overtaken.(tasks) = [Woken; Idle] /\ again.(tasks) = [Parked; Idle] /\
  lost.(tasks) = [Parked; Idle] /\ lost.(half).(window_size).(value) = 5 /\ at_rest two_streams lost.
Proof.
  split_and!; try reflexivity. apply quiet_at_rest; [reflexivity|].
  replace (tasks lost) with [Parked; Idle] by reflexivity. rewrite !Forall_cons_iff. auto.
Qed.

(** A call of [data] that is cancelled between its notification and the lock takes
    the notification with it. *)
Definition two_calls (_ : nat) : bool := false.
Definition two_wait : Sys NotifyState := park two_calls 1 (park two_calls 0 (start empty_window fresh 2)).
Definition received : Sys NotifyState := poll_woken two_calls 0 10 (updated two_calls 10 two_wait).
Definition cancelled : Sys NotifyState := drop_writer two_calls 0 received.

Example cancelled_call_loses_wakeup :
  two_wait.(tasks) = [Parked; Parked] /\ received.(tasks) = [Looping; Parked] /\
  cancelled.(tasks) = [Idle; Parked] /\ cancelled.(half).(window_size).(value) = 10 /\
  at_rest two_calls cancelled.
Proof.
  split_and!; try reflexivity. apply quiet_at_rest; [reflexivity|].
  replace (tasks cancelled) with [Idle; Parked] by reflexivity. rewrite !Forall_cons_iff. auto.
Qed.

(** A stream and a call that wait when the session ends wait for good. *)
Example session_end_wakes_nobody s' :
  rtc (sessionless tx3) parked3 s' -> s'.(tasks) !! 0%nat = Some Parked /\ s'.(tasks) !! 1%nat = Some Parked.
Proof.
  intros Hr. split.
  - apply (parked_for_good tx3 0 parked3); [|exact Hr]. by split_and!.
  - apply (parked_for_good tx3 1 parked3); [|exact Hr]. by split_and!.
Qed.
End Example.
