(* ===== verification/Parsing.v ===== *)
(** * Channel-open messages ([russh/src/parsing.rs], [channel_open_*])

    Parsing of [CHANNEL_OPEN] and [CHANNEL_OPEN_CONFIRMATION], the refusals, and
    the writers of both sessions ([server/session.rs], [client/session.rs]) whose
    output the parser reads. *)

From stdpp Require Import base list numbers option strings.
From Stdlib Require Import ZArith Lia.
From S2P Require Import Prelude Encoding LibInner Msg.

(** [ensure_end]; a reader is the slice that is left. *)
Definition ensure_end (r : bytes) : Result unit :=
  match r with
  | [] => Ok tt
  | _ => Err (Error.SshEncoding (TrailingData (zlen r)))
  end.

Record TcpChannelInfo : Type := mkTcp {
  host_to_connect : bytes;
  port_to_connect : Z;
  originator_address : bytes;
  originator_port : Z;
}.

Record StreamLocalChannelInfo : Type := mkStreamLocal { socket_path : bytes }.

Module ChannelType.
Inductive type : Type :=
| Session
| X11 (originator_address : bytes) (originator_port : Z)
| DirectTcpip (info : TcpChannelInfo)
| DirectStreamLocal (info : StreamLocalChannelInfo)
| ForwardedTcpIp (info : TcpChannelInfo)
| ForwardedStreamLocal (info : StreamLocalChannelInfo)
| AgentForward
| Unknown (typ : bytes).
End ChannelType.

Record OpenChannelMessage : Type := mkOpen {
  typ : ChannelType.type;
  recipient_channel : Z;
  recipient_window_size : Z;
  recipient_maximum_packet_size : Z;
}.

Section Parsing.
Context {enc : SshEncoding}.

(** Decoders return the value and the rest of the slice, or stop with the
    reader's error. *)
Definition TcpChannelInfo_decode (r : bytes) : res EncError (TcpChannelInfo * bytes) :=
  let? (host, r) := decode_string r in
  let? (port, r) := decode_u32 r in
  let? (addr, r) := decode_string r in
  let? (oport, r) := decode_u32 r in
  Ok (mkTcp host port addr oport, r).

Definition StreamLocalChannelInfo_decode (r : bytes) : res EncError (StreamLocalChannelInfo * bytes) :=
  let? (path, r) := decode_string r in
  Ok (mkStreamLocal path, r).

Definition ChannelOpenConfirmation_decode (r : bytes)
  : res EncError (LibInner.ChannelOpenConfirmation * bytes) :=
  let? (recipient, r) := decode_u32 r in
  let? (sender, r) := decode_u32 r in
  let? (window, r) := decode_u32 r in
  let? (maxpacket, r) := decode_u32 r in
  Ok ({| coc_recipient_channel := recipient; coc_sender_channel := sender;
         coc_initial_window_size := window; coc_maximum_packet_size := maxpacket |}, r).

(** [match typ.as_str()] of [OpenChannelMessage::parse]: the fields of each
    known type, which must end the message. *)
Definition parse_type (t : bytes) (r : bytes) : Result ChannelType.type :=
  if beq t (str "session") then
    let? _ := ensure_end r in Ok ChannelType.Session
  else if beq t (str "x11") then
    let? (address, r) := enc_err (decode_string r) in
    let? (port, r) := enc_err (decode_u32 r) in
    let? _ := ensure_end r in
    Ok (ChannelType.X11 address port)
  else if beq t (str "direct-tcpip") then
    let? (info, r) := enc_err (TcpChannelInfo_decode r) in
    let? _ := ensure_end r in
    Ok (ChannelType.DirectTcpip info)
  else if beq t (str "direct-streamlocal@openssh.com") then
    let? (info, r) := enc_err (StreamLocalChannelInfo_decode r) in
    let? (_, r) := enc_err (decode_string r) in
    let? (_, r) := enc_err (decode_u32 r) in
    let? _ := ensure_end r in
    Ok (ChannelType.DirectStreamLocal info)
  else if beq t (str "forwarded-tcpip") then
    let? (info, r) := enc_err (TcpChannelInfo_decode r) in
    let? _ := ensure_end r in
    Ok (ChannelType.ForwardedTcpIp info)
  else if beq t (str "forwarded-streamlocal@openssh.com") then
    let? (info, r) := enc_err (StreamLocalChannelInfo_decode r) in
    let? (_, r) := enc_err (decode_string r) in
    let? _ := ensure_end r in
    Ok (ChannelType.ForwardedStreamLocal info)
  else if beq t (str "auth-agent@openssh.com") then
    let? _ := ensure_end r in Ok ChannelType.AgentForward
  else Ok (ChannelType.Unknown t).

Definition parse (r : bytes) : Result OpenChannelMessage :=
  let? (t, r) := enc_err (decode_string r) in
  let? (sender, r) := enc_err (decode_u32 r) in
  let? (window, r) := enc_err (decode_u32 r) in
  let? (maxpacket, r) := enc_err (decode_u32 r) in
  let? ty := parse_type t r in
  Ok (mkOpen ty sender window maxpacket).

(** ** Refusals *)

Definition fail (m : OpenChannelMessage) (reason : Z) (message : bytes) : writer Error.error :=
  push_packet (
    enc_w (encode_u8 msg.CHANNEL_OPEN_FAILURE) ;;;
    enc_w (encode_u32 m.(recipient_channel)) ;;;
    enc_w (encode_u32 reason) ;;;
    enc_w (encode_bytes message) ;;;
    enc_w (encode_bytes (str "en"))).

Definition unknown_type (m : OpenChannelMessage) : writer Error.error :=
  fail m msg.SSH_OPEN_UNKNOWN_CHANNEL_TYPE (str "Unknown channel type").

(** ** Writers of [CHANNEL_OPEN] *)

(** The body that [channel_open_generic] writes. *)
Definition open_body (kind : bytes) (sender_channel window_size maximum_packet_size : Z)
    (write_suffix : writer Error.error) : writer Error.error :=
  enc_w (encode_u8 msg.CHANNEL_OPEN) ;;;
  enc_w (encode_bytes kind) ;;;
  enc_w (encode_u32 sender_channel) ;;;
  enc_w (encode_u32 window_size) ;;;
  enc_w (encode_u32 maximum_packet_size) ;;;
  write_suffix.

(** The kind and suffix that [channel_open_session], [channel_open_x11],
    [channel_open_direct_tcpip], [channel_open_direct_streamlocal],
    [channel_open_forwarded_tcpip], [channel_open_forwarded_streamlocal] and
    [channel_open_agent] pass to it. *)
Definition tcp_suffix (i : TcpChannelInfo) : writer Error.error :=
  enc_w (encode_bytes i.(host_to_connect)) ;;;
  enc_w (encode_u32 i.(port_to_connect)) ;;;
  enc_w (encode_bytes i.(originator_address)) ;;;
  enc_w (encode_u32 i.(originator_port)).

Definition channel_open (t : ChannelType.type) : bytes * writer Error.error :=
  match t with
  | ChannelType.Session => (str "session", st_ret tt)
  | ChannelType.X11 address port =>
      (str "x11", enc_w (encode_bytes address) ;;; enc_w (encode_u32 port))
  | ChannelType.DirectTcpip i => (str "direct-tcpip", tcp_suffix i)
  | ChannelType.DirectStreamLocal i =>
      (str "direct-streamlocal@openssh.com",
       enc_w (encode_bytes i.(socket_path)) ;;; enc_w (encode_bytes []) ;;; enc_w (encode_u32 0))
  | ChannelType.ForwardedTcpIp i => (str "forwarded-tcpip", tcp_suffix i)
  | ChannelType.ForwardedStreamLocal i =>
      (str "forwarded-streamlocal@openssh.com",
       enc_w (encode_bytes i.(socket_path)) ;;; enc_w (encode_bytes []))
  | ChannelType.AgentForward => (str "auth-agent@openssh.com", st_ret tt)
  | ChannelType.Unknown t => (t, st_ret tt)
  end.
End Parsing.

(** ** What is opened is what is parsed *)

Definition prefixed (b : bytes) : bytes := be32 (zlen b) ++ b.

Definition string_ok (b : bytes) : Prop := is_utf8 b = true /\ zlen b <= MAX_ENCODED_LEN.

Definition tcp_ok (i : TcpChannelInfo) : Prop :=
  string_ok i.(host_to_connect) /\ is_u32 i.(port_to_connect) /\
  string_ok i.(originator_address) /\ is_u32 i.(originator_port).

(** The types with a fixed layout. *)
Definition type_ok (t : ChannelType.type) : Prop :=
  match t with
  | ChannelType.Session | ChannelType.AgentForward => True
  | ChannelType.X11 address port => string_ok address /\ is_u32 port
  | ChannelType.DirectTcpip i | ChannelType.ForwardedTcpIp i => tcp_ok i
  | ChannelType.DirectStreamLocal i | ChannelType.ForwardedStreamLocal i => string_ok i.(socket_path)
  | ChannelType.Unknown _ => False
  end.

Definition tcp_bytes (i : TcpChannelInfo) : bytes :=
  prefixed i.(host_to_connect) ++ be32 i.(port_to_connect) ++
  prefixed i.(originator_address) ++ be32 i.(originator_port).

Definition suffix_bytes (t : ChannelType.type) : bytes :=
  match t with
  | ChannelType.X11 address port => prefixed address ++ be32 port
  | ChannelType.DirectTcpip i | ChannelType.ForwardedTcpIp i => tcp_bytes i
  | ChannelType.DirectStreamLocal i => prefixed i.(socket_path) ++ prefixed [] ++ be32 0
  | ChannelType.ForwardedStreamLocal i => prefixed i.(socket_path) ++ prefixed []
  | _ => []
  end.

Section Fields.
Context {enc : SshEncoding} `{!SshEncodingLaws enc}.

Lemma decode_string_ok b r : string_ok b -> decode_string (prefixed b ++ r) = Ok (b, r).
Proof. intros [Hu Hl]. unfold prefixed. rewrite <- app_assoc. by apply decode_string_prefixed. Qed.

Lemma decode_bytes_ok b r : zlen b <= MAX_ENCODED_LEN -> decode_bytes (prefixed b ++ r) = Ok (b, r).
Proof. intros. unfold prefixed. rewrite <- app_assoc. by apply decode_bytes_prefixed. Qed.

Lemma empty_ok : string_ok [].
Proof. by split. Qed.

Lemma zero_u32 : is_u32 0.
Proof. by split. Qed.

Lemma zlen_u32 b : string_ok b -> zlen b < U32_MOD.
Proof. intros [_ H]. unfold MAX_ENCODED_LEN in H. unfold U32_MOD. lia. Qed.

Lemma encode_string_appends b : string_ok b -> appends (encode_bytes b) (prefixed b).
Proof. intros. apply encode_bytes_appends. by apply zlen_u32. Qed.

End Fields.
#[export] Hint Resolve zlen_u32 empty_ok zero_u32 encode_string_appends : wire.

(** Decode one field after the other. *)
Ltac decode_fields :=
  repeat first
    [ rewrite <- app_assoc
    | rewrite decode_string_ok by (done || apply empty_ok)
    | rewrite decode_u32_be32 by (done || apply zero_u32)
    | rewrite decode_u8_cons
    | rewrite decode_bytes_ok by done
    | progress cbn [enc_err map_err res_bind app] ].

(** Decide the comparisons of string literals. *)
Ltac resolve_names :=
  repeat match goal with |- context [beq (str ?x) (str ?y)] =>
    let v := eval vm_compute in (beq (str x) (str y)) in
    replace (beq (str x) (str y)) with v by (by vm_compute) end.

Section Roundtrip.
Context {enc : SshEncoding} `{!SshEncodingLaws enc}.

Lemma parse_type_suffix t rest :
  type_ok t ->
  parse_type (channel_open t).1 (suffix_bytes t ++ rest) = let? _ := ensure_end rest in Ok t.
Proof.
  destruct t as [|a p|[h p a o]|[x]|[h p a o]|[x]| |u]; cbn [channel_open fst type_ok tcp_ok
    socket_path host_to_connect port_to_connect originator_address originator_port]; intros Hok;
    try done; unfold parse_type;
    repeat match goal with |- context [beq ?x ?y] =>
      let v := eval vm_compute in (beq x y) in replace (beq x y) with v by (by vm_compute) end;
    cbn [suffix_bytes]; unfold tcp_bytes, TcpChannelInfo_decode, StreamLocalChannelInfo_decode;
    cbn [host_to_connect port_to_connect originator_address originator_port socket_path];
    try destruct Hok as (? & ? & ? & ?); try destruct Hok as (? & ?); by decode_fields.
Qed.

Lemma suffix_appends t : type_ok t -> appends (channel_open t).2 (suffix_bytes t).
Proof.
  destruct t as [|a p|[h p a o]|[x]|[h p a o]|[x]| |u]; cbn [channel_open snd type_ok suffix_bytes];
    unfold tcp_ok, tcp_suffix, tcp_bytes, enc_w;
    cbn [host_to_connect port_to_connect originator_address originator_port socket_path];
    intros Hok; try done;
    repeat match goal with H : _ /\ _ |- _ => destruct H end; auto 12 with wire.
Qed.

Lemma kind_ok t : type_ok t -> string_ok (channel_open t).1.
Proof. by destruct t. Qed.

Definition open_payload (t : ChannelType.type) (sender window maxpacket : Z) : bytes :=
  [msg.CHANNEL_OPEN] ++ prefixed (channel_open t).1 ++ be32 sender ++ be32 window ++ be32 maxpacket ++
  suffix_bytes t.

Lemma open_body_appends t sender window maxpacket :
  type_ok t -> is_u32 sender -> is_u32 window -> is_u32 maxpacket ->
  appends (open_body (channel_open t).1 sender window maxpacket (channel_open t).2)
    (open_payload t sender window maxpacket).
Proof.
  intros Ht Hs Hw Hm. pose proof (kind_ok t Ht). pose proof (suffix_appends t Ht).
  assert (is_u8 msg.CHANNEL_OPEN) by done. unfold open_body, open_payload, enc_w.
  repeat (apply appends_bind; auto with wire).
Qed.

(** Opening a channel, for every type of channel either session can open:
    the packet that [channel_open_*] writes is read back by
    [OpenChannelMessage::parse] as the same type, fields and numbers, and any
    byte after the fields of a known type makes the message an error. *)
Theorem open_parse_roundtrip t sender window maxpacket rest w :
  type_ok t -> is_u32 sender -> is_u32 window -> is_u32 maxpacket ->
  exists payload,
    open_body (channel_open t).1 sender window maxpacket (channel_open t).2 w =
      (Ok tt, w ++ msg.CHANNEL_OPEN :: payload) /\
    parse (payload ++ rest) =
      match rest with
      | [] => Ok (mkOpen t sender window maxpacket)
      | _ => Err (Error.SshEncoding (TrailingData (zlen rest)))
      end.
Proof.
  intros Ht Hs Hw Hm. eexists. split; [by apply open_body_appends|].
  unfold parse. cbn [app]. rewrite <- !app_assoc. rewrite decode_string_ok by (by apply kind_ok).
  cbn [enc_err map_err res_bind]. rewrite !decode_u32_be32 by done. cbn [enc_err map_err res_bind].
  rewrite decode_u32_be32 by done. cbn [enc_err map_err res_bind].
  rewrite decode_u32_be32 by done. cbn [enc_err map_err res_bind].
  rewrite parse_type_suffix by done. by destruct rest.
Qed.
End Roundtrip.

Lemma open_parse_roundtrip_witness :
  exists payload,
    @open_body rfc4251 (str "x11") 3 100 200
      (enc_w (@encode_bytes rfc4251 (str "::1")) ;;; enc_w (@encode_u32 rfc4251 6000)) [] =
      (Ok tt, [] ++ msg.CHANNEL_OPEN :: payload) /\
    @parse rfc4251 (payload ++ [9]) = Err (Error.SshEncoding (TrailingData (zlen [9]))).
Proof.
  apply (open_parse_roundtrip (ChannelType.X11 (str "::1") 6000) 3 100 200 [9] []); vm_compute; intuition congruence.
Defined.
