(* ===== verification/Cipher.v ===== *)
(** * Binary packet protocol ([russh/src/cipher/mod.rs], [cipher/clear.rs])

    The traits [SealingKey] and [OpeningKey] are type classes; their provided
    methods [finish_packet] and [write], and the function [read], are the packet
    codec of RFC 4253 section 6.  [InSync] is the contract between the two ends
    of a direction: opening undoes sealing.  The codec theorems are proved
    against that contract, and the ciphers discharge it (here [clear::Key], in
    [CipherImpls] the others). *)

From stdpp Require Import base list numbers option.
From Stdlib Require Import ZArith Lia.
From S2P Require Import Prelude LibInner.

(** ** Constants *)
Definition PACKET_LENGTH_LEN : Z := 4.
Definition MINIMUM_PACKET_LEN : Z := 16.
Definition MAXIMUM_PACKET_LEN_BASELINE : Z := 256 * 1024.
Definition CHANNEL_DATA_PACKET_OVERHEAD : Z := 1 + 4 + 4.
Definition CHANNEL_EXTENDED_DATA_PACKET_OVERHEAD : Z := CHANNEL_DATA_PACKET_OVERHEAD + 4.
Definition PADDING_LENGTH_LEN : Z := 1.
Definition MAXIMUM_PADDING_LEN : Z := 19.
Definition MAXIMUM_PACKET_LEN_HEADROOM : Z :=
  PADDING_LENGTH_LEN + CHANNEL_EXTENDED_DATA_PACKET_OVERHEAD + MAXIMUM_PADDING_LEN.
Definition MAXIMUM_PACKET_LEN : Z := MAXIMUM_PACKET_LEN_BASELINE + MAXIMUM_PACKET_LEN_HEADROOM.
Definition MAXIMUM_DECOMPRESSED_PACKET_LEN : Z := MAXIMUM_PACKET_LEN.

Lemma MAXIMUM_PACKET_LEN_eq : MAXIMUM_PACKET_LEN = 262177.
Proof. done. Qed.

(** [std::io::ErrorKind]s. *)
Definition IO_UNEXPECTED_EOF : Z := 1.
Definition IO_WRITE_ZERO : Z := 2.

(** ** Packet buffers ([sshbuffer.rs]) *)
Record SSHBuffer : Type := mkSSHBuffer {
  buffer : bytes;
  len : Z;        (* next packet length *)
  nbytes : Z;     (* field [bytes]: total bytes written since the last rekey *)
  seqn : Z;       (* Wrapping<u32> *)
}.

Definition SSHBuffer_new : SSHBuffer := mkSSHBuffer [] 0 0 0.

Definition set_buffer (v : bytes) (b : SSHBuffer) : SSHBuffer :=
  mkSSHBuffer v b.(len) b.(nbytes) b.(seqn).

(** ** Traits

    [fill_padding] may draw from the process RNG: [rng n] stands for the [n]
    bytes that [safe_rng().fill_bytes] yields in this call.  [seal] returns the
    next key state, the ciphertext and the tag, [None] being a panic. *)
Class SealingKey (K : Type) : Type := {
  padding_length : K -> bytes -> Z;
  fill_padding : K -> (Z -> bytes) -> Z -> bytes;
  seal_tag_len : K -> Z;
  seal : K -> Z -> bytes -> option (K * bytes * bytes);
}.

(** [open] works in place on the whole buffer (packet length, ciphertext and
    tag) and returns a slice of it: the result is the next key state, the
    mutated buffer and the plaintext slice. *)
Class OpeningKey (K : Type) : Type := {
  packet_length_to_read_for_block_length : K -> Z;
  decrypt_packet_length : K -> Z -> bytes -> bytes;
  open_tag_len : K -> Z;
  open : K -> Z -> bytes -> Result (K * bytes * bytes);
}.

Section Seal.
Context {K : Type} `{SealingKey K}.

(** [SealingKey::finish_packet]: the payload is already in the buffer, after
    five reserved bytes at [offset].  [None] is a failed [assert!], an index
    out of bounds or a panic of [seal]. *)
Definition finish_packet (key : K) (rng : Z -> bytes) (offset payload_len : Z)
    (b : SSHBuffer) : option (K * SSHBuffer) :=
  let payload_start := offset + PACKET_LENGTH_LEN + PADDING_LENGTH_LEN in
  let payload_end := payload_start + payload_len in
  if zlen b.(buffer) <? payload_end then None else
  let padding := padding_length key (ztake payload_len (zdrop payload_start b.(buffer))) in
  let packet_length := PADDING_LENGTH_LEN + payload_len + padding in
  if U32_MAX <? packet_length then None else
  match write_u32_at offset packet_length b.(buffer) with
  | None => None
  | Some buf1 =>
      if U8_MAX <? padding then None else
      let buf2 := <[Z.to_nat (offset + PACKET_LENGTH_LEN) := padding]> buf1 in
      let buf3 := vec_resize (payload_end + padding) 0 buf2 in
      let buf4 := ztake payload_end buf3 ++ fill_padding key rng (zlen (zdrop payload_end buf3)) in
      let tag_offset := zlen buf4 in
      let buf5 := vec_resize (tag_offset + seal_tag_len key) 0 buf4 in
      let plaintext := ztake (PACKET_LENGTH_LEN + packet_length) (zdrop offset buf5) in
      match seal key b.(seqn) plaintext with
      | None => None
      | Some (key', ciphertext, tag) =>
          Some (key', mkSSHBuffer (ztake offset buf5 ++ ciphertext ++ tag) b.(len)
                        (b.(nbytes) + payload_len) (wrapping_add32 b.(seqn) 1))
      end
  end.

(** [SealingKey::write]. *)
Definition write (key : K) (rng : Z -> bytes) (payload : bytes)
    (b : SSHBuffer) : option (K * SSHBuffer) :=
  let padding := padding_length key payload in
  let packet_length := PADDING_LENGTH_LEN + zlen payload + padding in
  let offset := zlen b.(buffer) in
  if U32_MAX <? packet_length then None else
  let buf1 := b.(buffer) ++ be32 packet_length in
  if U8_MAX <? padding then None else
  let buf2 := buf1 ++ [padding] ++ payload in
  let pad_offset := zlen buf2 in
  let buf3 := vec_resize (pad_offset + padding) 0 buf2 in
  let buf4 := ztake pad_offset buf3 ++ fill_padding key rng (zlen (zdrop pad_offset buf3)) in
  let tag_offset := zlen buf4 in
  let buf5 := vec_resize (tag_offset + seal_tag_len key) 0 buf4 in
  let plaintext := ztake (PACKET_LENGTH_LEN + packet_length) (zdrop offset buf5) in
  match seal key b.(seqn) plaintext with
  | None => None
  | Some (key', ciphertext, tag) =>
      Some (key', mkSSHBuffer (ztake offset buf5 ++ ciphertext ++ tag) b.(len)
                    (b.(nbytes) + zlen payload) (wrapping_add32 b.(seqn) 1))
  end.
End Seal.

Section Open.
Context {K : Type} `{OpeningKey K}.

(** [AsyncReadExt::read_exact] on a stream with [s] left before its end. *)
Definition read_exact (n : Z) (s : bytes) : Result (bytes * bytes) :=
  if n <=? zlen s then Ok (ztake n s, zdrop n s) else Err (Error.IO IO_UNEXPECTED_EOF).

(** The first half of [read]: learn the length of the next packet. *)
Definition read_length (stream : bytes) (b : SSHBuffer) (key : K)
  : Result (SSHBuffer * bytes) :=
  if b.(len) =? 0 then
    let? (l, stream') := read_exact (packet_length_to_read_for_block_length key) stream in
    let? n := or_panic (read_u32 (decrypt_packet_length key b.(seqn) l)) in
    if MAXIMUM_PACKET_LEN <? n then Err (Error.PacketSize n)
    else Ok (mkSSHBuffer l (n + open_tag_len key) b.(nbytes) b.(seqn), stream')
  else Ok (b, stream).

(** [cipher::read]: returns the length of the decrypted packet, the buffer
    that holds it, the next key state and the rest of the stream. *)
Definition read (stream : bytes) (b : SSHBuffer) (key : K)
  : Result (Z * SSHBuffer * K * bytes) :=
  let? (b1, stream1) := read_length stream b key in
  let buf1 := vec_resize (b1.(len) + 4) 0 b1.(buffer) in
  let l := packet_length_to_read_for_block_length key in
  if zlen buf1 <? l then Panic else
  let? (body, stream2) := read_exact (zlen (zdrop l buf1)) stream1 in
  let? (key', buf2, plaintext) := open key b1.(seqn) (ztake l buf1 ++ body) in
  let padding_length := default 0 (head plaintext) in
  let? plaintext_end := ok_or (checked_sub (zlen plaintext) padding_length)
                              Error.IndexOutOfBounds in
  Ok (plaintext_end + 4,
      mkSSHBuffer (vec_resize (plaintext_end + 4) 0 buf2) 0 b1.(nbytes)
        (wrapping_add32 b1.(seqn) 1),
      key', stream2).
End Open.

(** ** The contract between the two ends *)

(** A source of padding bytes fills the slices it is given with bytes. *)
Definition fills (rng : Z -> bytes) : Prop :=
  forall m, 0 <= m -> zlen (rng m) = m /\ Forall is_u8 (rng m).

(** What any sealing key does to the slices it is given. *)
Class SealingKeyLaws (K : Type) `{SealingKey K} : Prop := {
  padding_length_range k p : 4 <= padding_length k p <= MAXIMUM_PADDING_LEN;
  fill_padding_fills k (rng : Z -> bytes) : fills rng -> fills (fill_padding k rng);
  seal_tag_len_nonneg k : 0 <= seal_tag_len k;
}.

(** The plaintext [be32 packet_length ++ padding_length ++ payload ++ padding]. *)
Definition plain_packet {K} `{SealingKey K} (k : K) (payload pad : bytes) : bytes :=
  be32 (1 + zlen payload + padding_length k payload) ++ padding_length k payload :: payload ++ pad.

Class InSync (S O : Type) `{SealingKey S, OpeningKey O} (sync : S -> O -> Prop) : Prop := {
  sync_tag_len s o : sync s o -> open_tag_len o = seal_tag_len s;
  (** the probe that yields the packet length lies inside the packet *)
  sync_probe_len s o payload : sync s o ->
    4 <= packet_length_to_read_for_block_length o <=
    5 + zlen payload + padding_length s payload + seal_tag_len s;
  sync_open s o n payload pad :
    sync s o -> zlen pad = padding_length s payload ->
    Forall is_u8 payload -> Forall is_u8 pad ->
    1 + zlen payload + padding_length s payload <= MAXIMUM_PACKET_LEN ->
    exists s' ct tag o' hdr tl,
      seal s n (plain_packet s payload pad) = Some (s', ct, tag) /\
      zlen ct = 5 + zlen payload + padding_length s payload /\
      zlen tag = seal_tag_len s /\
      decrypt_packet_length o n
        (ztake (packet_length_to_read_for_block_length o) (ct ++ tag)) =
        be32 (1 + zlen payload + padding_length s payload) /\
      zlen hdr = 4 /\
      open o n (ct ++ tag) =
        Ok (o', hdr ++ (padding_length s payload :: payload ++ pad) ++ tl,
            padding_length s payload :: payload ++ pad) /\
      sync s' o';
}.

(** ** Sealing: the in-place and the copying path *)

Section SealFacts.
Context {K : Type} `{HK : SealingKey K} `{!SealingKeyLaws K}.

Lemma padding_length_nonneg k p : 0 <= padding_length k p.
Proof. pose proof (padding_length_range k p). lia. Qed.

Lemma zlen_plain_packet k payload pad :
  zlen pad = padding_length k payload ->
  zlen (plain_packet k payload pad) = 5 + zlen payload + padding_length k payload.
Proof. intros. unfold plain_packet. zlia. Qed.

(** What both paths compute: the sealed packet goes after [pre]. *)
Definition seal_after (k : K) (rng : Z -> bytes) (pre payload : bytes) (b : SSHBuffer)
  : option (K * SSHBuffer) :=
  let padding := padding_length k payload in
  if (U32_MAX <? 1 + zlen payload + padding) || (U8_MAX <? padding) then None else
  match seal k b.(seqn) (plain_packet k payload (fill_padding k rng padding)) with
  | None => None
  | Some (k', ct, tag) =>
      Some (k', mkSSHBuffer (pre ++ ct ++ tag) b.(len) (b.(nbytes) + zlen payload)
                  (wrapping_add32 b.(seqn) 1))
  end.

(** Growing a vector and filling the new part replaces the part. *)
Lemma fill_grown l n (f : Z -> bytes) :
  0 <= n ->
  ztake (zlen l) (vec_resize (zlen l + n) 0 l) ++ f (zlen (zdrop (zlen l) (vec_resize (zlen l + n) 0 l)))
  = l ++ f n.
Proof.
  intros Hn. pose proof (zlen_nonneg l). rewrite vec_resize_grow by lia.
  rewrite ztake_app_exact, zdrop_app_exact by done. rewrite zlen_replicate.
  do 2 f_equal. lia.
Qed.

Lemma split_sealed pre pkt n :
  0 <= n ->
  ztake (zlen pkt) (zdrop (zlen pre) (vec_resize (zlen (pre ++ pkt) + n) 0 (pre ++ pkt))) = pkt /\
  ztake (zlen pre) (vec_resize (zlen (pre ++ pkt) + n) 0 (pre ++ pkt)) = pre.
Proof.
  intros Hn. rewrite vec_resize_grow by (pose proof (zlen_nonneg (pre ++ pkt)); lia).
  rewrite <- app_assoc, ztake_app_exact, zdrop_app_exact by done.
  by rewrite ztake_app_exact.
Qed.

Lemma write_seal_after k rng payload b :
  fills rng -> write k rng payload b = seal_after k rng b.(buffer) payload b.
Proof.
  intros Hr. unfold write, seal_after, PADDING_LENGTH_LEN.
  destruct (U32_MAX <? _); [done|]. simpl orb. destruct (U8_MAX <? _); [done|].
  set (pad := padding_length k payload).
  pose proof (padding_length_nonneg k payload : 0 <= pad).
  rewrite fill_grown by lia.
  set (body := fill_padding k rng pad).
  assert (Hb : zlen body = pad) by (by apply fill_padding_fills).
  assert (Hp : zlen (plain_packet k payload body) = 5 + zlen payload + pad)
    by (by apply zlen_plain_packet).
  replace ((((b.(buffer) ++ be32 (1 + zlen payload + pad)) ++ [pad] ++ payload) ++ body))
    with (b.(buffer) ++ plain_packet k payload body)
    by (unfold plain_packet; simplify_list_eq; done).
  unfold PACKET_LENGTH_LEN.
  replace (4 + (1 + zlen payload + pad)) with (zlen (plain_packet k payload body)) by lia.
  destruct (split_sealed b.(buffer) (plain_packet k payload body) (seal_tag_len k)
    (seal_tag_len_nonneg k)) as [-> ->]. done.
Qed.

Lemma finish_packet_seal_after k rng pre hdr payload b :
  fills rng -> zlen hdr = 5 -> b.(buffer) = pre ++ hdr ++ payload ->
  finish_packet k rng (zlen pre) (zlen payload) b = seal_after k rng pre payload b.
Proof.
  intros Hr Hh Hbuf. unfold finish_packet, seal_after, PADDING_LENGTH_LEN, PACKET_LENGTH_LEN.
  rewrite Hbuf. replace (zlen (pre ++ hdr ++ payload) <? zlen pre + 4 + 1 + zlen payload)
    with false by (symmetry; apply Z.ltb_ge; zlia).
  rewrite (app_assoc pre hdr payload), (zdrop_app_exact _ (pre ++ hdr)) by zlia.
  rewrite (ztake_all _ payload) by lia. rewrite <- app_assoc.
  destruct (U32_MAX <? _); [done|]. simpl orb.
  set (pad := padding_length k payload).
  pose proof (padding_length_nonneg k payload : 0 <= pad).
  destruct hdr as [|h0 [|h1 [|h2 [|h3 [|h4 [|]]]]]]; try (exfalso; zlia).
  change (pre ++ [h0; h1; h2; h3; h4] ++ payload)
    with (pre ++ [h0; h1; h2; h3] ++ (h4 :: payload)).
  rewrite write_u32_at_app by done. destruct (U8_MAX <? _); [done|].
  replace (Z.to_nat (zlen pre + 4)) with (length (pre ++ be32 (1 + zlen payload + pad)) + 0)%nat
    by (rewrite length_app; unfold zlen; simpl; lia).
  rewrite app_assoc, insert_app_r. cbn [insert list_insert].
  set (pk := (pre ++ be32 (1 + zlen payload + pad)) ++ pad :: payload).
  replace (zlen pre + 4 + 1 + zlen payload) with (zlen pk) by (subst pk; zlia).
  rewrite fill_grown by lia.
  set (body := fill_padding k rng pad).
  assert (Hb : zlen body = pad) by (by apply fill_padding_fills).
  assert (Hp : zlen (plain_packet k payload body) = 5 + zlen payload + pad)
    by (by apply zlen_plain_packet).
  replace (pk ++ body) with (pre ++ plain_packet k payload body)
    by (subst pk; unfold plain_packet; simplify_list_eq; done).
  replace (4 + (1 + zlen payload + pad)) with (zlen (plain_packet k payload body)) by lia.
  destruct (split_sealed pre (plain_packet k payload body) (seal_tag_len k)
    (seal_tag_len_nonneg k)) as [-> ->]. done.
Qed.
End SealFacts.

(** ** Opening what was sealed *)

(** The largest payload the channel layer hands down: 256 KiB of extended data
    with its header. *)
Definition MAX_CHANNEL_PAYLOAD : Z :=
  MAXIMUM_PACKET_LEN_BASELINE + CHANNEL_EXTENDED_DATA_PACKET_OVERHEAD.

Section RoundTrip.
Context {S O : Type} `{HS : SealingKey S, HO : OpeningKey O} (sync : S -> O -> Prop).
Context `{!SealingKeyLaws S, !InSync S O sync}.

(** The headroom of [MAXIMUM_PACKET_LEN] covers header and padding. *)
Lemma channel_payload_fits s payload :
  zlen payload <= MAX_CHANNEL_PAYLOAD ->
  1 + zlen payload + padding_length s payload <= MAXIMUM_PACKET_LEN.
Proof.
  intros Hp. pose proof (padding_length_range s payload) as [_ Hr].
  unfold MAX_CHANNEL_PAYLOAD, MAXIMUM_PACKET_LEN, MAXIMUM_PACKET_LEN_HEADROOM,
    PADDING_LENGTH_LEN in *. lia.
Qed.

Lemma write_ok s rng payload wb :
  fills rng -> zlen payload <= MAX_CHANNEL_PAYLOAD ->
  write s rng payload wb =
    match seal s wb.(seqn) (plain_packet s payload (fill_padding s rng (padding_length s payload))) with
    | None => None
    | Some (s', ct, tag) =>
        Some (s', mkSSHBuffer (wb.(buffer) ++ ct ++ tag) wb.(len) (wb.(nbytes) + zlen payload)
                    (wrapping_add32 wb.(seqn) 1))
    end.
Proof.
  intros Hr Hp. rewrite write_seal_after by done. unfold seal_after.
  pose proof (channel_payload_fits s payload Hp) as Hf.
  pose proof (padding_length_range s payload) as [_ Hpad].
  replace (U32_MAX <? 1 + zlen payload + padding_length s payload) with false
    by (symmetry; apply Z.ltb_ge; unfold U32_MAX; rewrite MAXIMUM_PACKET_LEN_eq in Hf; lia).
  replace (U8_MAX <? padding_length s payload) with false
    by (symmetry; apply Z.ltb_ge; unfold U8_MAX; unfold MAXIMUM_PADDING_LEN in Hpad; lia).
  done.
Qed.

(** Reading the length of a packet that is on the wire... *)
Lemma read_length_ok o wire rest rb m :
  let l := packet_length_to_read_for_block_length o in
  rb.(len) = 0 -> l <= zlen wire -> 0 <= m <= MAXIMUM_PACKET_LEN ->
  decrypt_packet_length o rb.(seqn) (ztake l wire) = be32 m ->
  read_length (wire ++ rest) rb o =
    Ok (mkSSHBuffer (ztake l wire) (m + open_tag_len o) rb.(nbytes) rb.(seqn),
        zdrop l wire ++ rest).
Proof.
  intros l Hl Hw Hm Hdec. unfold read_length. rewrite Hl. simpl (0 =? 0).
  unfold read_exact. fold l.
  replace (l <=? zlen (wire ++ rest)) with true by (symmetry; apply Z.leb_le; zlia).
  cbn [res_bind]. rewrite (ztake_app_le l wire), (zdrop_app_le l wire) by lia.
  rewrite Hdec. rewrite <- (app_nil_r (be32 m)), read_u32_be32. cbn [or_panic res_bind].
  rewrite to_u32_small
    by (unfold is_u32, U32_MOD; rewrite MAXIMUM_PACKET_LEN_eq in Hm; lia).
  by replace (MAXIMUM_PACKET_LEN <? m) with false by (symmetry; apply Z.ltb_ge; lia).
Qed.

(** ... and then the packet itself. *)
Lemma read_ok o o' wire rest rb hdr padding payload pad tl :
  let l := packet_length_to_read_for_block_length o in
  let m := 1 + zlen payload + zlen pad in
  rb.(len) = 0 -> 4 <= l <= zlen wire -> m <= MAXIMUM_PACKET_LEN ->
  zlen wire = 4 + m + open_tag_len o -> zlen hdr = 4 -> zlen pad = padding ->
  decrypt_packet_length o rb.(seqn) (ztake l wire) = be32 m ->
  open o rb.(seqn) wire =
    Ok (o', hdr ++ (padding :: payload ++ pad) ++ tl, padding :: payload ++ pad) ->
  read (wire ++ rest) rb o =
    Ok (5 + zlen payload,
        mkSSHBuffer ((hdr ++ [padding]) ++ payload) 0 rb.(nbytes) (wrapping_add32 rb.(seqn) 1),
        o', rest).
Proof.
  intros l m Hl Hw Hm Hlen Hhdr Hpad Hdec Hopen.
  assert (0 <= m) by (subst m; zlia).
  unfold read. rewrite (read_length_ok o wire rest rb m) by (done || lia).
  fold l. cbn [res_bind len buffer nbytes seqn].
  set (p := ztake l wire).
  assert (Hz : zlen p = l) by (subst p; rewrite zlen_ztake; lia).
  rewrite (vec_resize_grow _ _ p) by lia.
  rewrite (ztake_app_exact l p), (zdrop_app_exact l p), zlen_app, zlen_replicate by lia.
  replace (zlen p + _ <? l) with false by (symmetry; apply Z.ltb_ge; lia).
  set (q := zdrop l wire).
  assert (Hq : zlen q = zlen wire - l) by (subst q; rewrite zlen_zdrop; lia).
  replace (Z.max 0 (m + open_tag_len o + 4 - zlen p)) with (zlen q) by lia.
  unfold read_exact.
  replace (zlen q <=? zlen (q ++ rest)) with true by (symmetry; apply Z.leb_le; zlia).
  cbn [res_bind]. rewrite (ztake_app_exact _ q), (zdrop_app_exact _ q) by done.
  subst p q. rewrite ztake_zdrop, Hopen. cbn [res_bind head default from_option id].
  unfold checked_sub. replace (padding <=? zlen (padding :: payload ++ pad)) with true
    by (symmetry; apply Z.leb_le; zlia).
  cbn [ok_or res_bind].
  replace (zlen (padding :: payload ++ pad) - padding + 4)
    with (zlen ((hdr ++ [padding]) ++ payload)) by zlia.
  replace (hdr ++ (padding :: payload ++ pad) ++ tl)
    with (((hdr ++ [padding]) ++ payload) ++ pad ++ tl) by (simplify_list_eq; done).
  rewrite vec_resize_shrink by (rewrite (zlen_app _ (pad ++ tl)); pose proof (zlen_nonneg (pad ++ tl)); zlia).
  rewrite ztake_app_exact by done. do 4 f_equal. zlia.
Qed.

(** One packet, from the writer's buffer to the reader's. *)
Lemma write_read s o rng payload wb rb :
  sync s o -> fills rng -> Forall is_u8 payload -> zlen payload <= MAX_CHANNEL_PAYLOAD ->
  rb.(len) = 0 -> rb.(seqn) = wb.(seqn) ->
  exists s' o' wire hdr,
    write s rng payload wb =
      Some (s', mkSSHBuffer (wb.(buffer) ++ wire) wb.(len) (wb.(nbytes) + zlen payload)
                  (wrapping_add32 wb.(seqn) 1)) /\
    zlen hdr = 5 /\
    (forall rest, read (wire ++ rest) rb o =
      Ok (5 + zlen payload,
          mkSSHBuffer (hdr ++ payload) 0 rb.(nbytes) (wrapping_add32 wb.(seqn) 1), o', rest)) /\
    sync s' o'.
Proof.
  intros Hs Hr Hu Hp Hl Hn. rewrite write_ok by done.
  set (body := fill_padding s rng (padding_length s payload)).
  pose proof (padding_length_range s payload) as Hpad.
  assert (Hb : zlen body = padding_length s payload /\ Forall is_u8 body)
    by (apply fill_padding_fills; [done|lia]).
  destruct Hb as [Hb Hbu].
  pose proof (channel_payload_fits s payload Hp) as Hfit.
  destruct (sync_open s o wb.(seqn) payload body) as
    (s' & ct & tag & o' & hdr & tl & -> & Hct & Htag & Hdec & Hhdr & Hopen & Hs'); [done..|].
  pose proof (sync_tag_len s o Hs) as Htl.
  pose proof (sync_probe_len s o payload Hs) as Hprobe.
  exists s', o', (ct ++ tag), (hdr ++ [padding_length s payload]).
  split; [done|]. split; [zlia|]. split; [|done]. intros rest.
  rewrite <- Hn. apply (read_ok o o' _ _ _ hdr _ payload body tl);
    rewrite ?zlen_app, ?Hb, ?Hn; done || lia.
Qed.

(** *** Packet sequences *)

(** Each payload is sent with the padding bytes drawn for it. *)
Fixpoint write_all (s : S) (ps : list (bytes * (Z -> bytes))) (b : SSHBuffer)
  : option (S * SSHBuffer) :=
  match ps with
  | [] => Some (s, b)
  | (p, rng) :: ps' =>
      match write s rng p b with
      | Some (s', b') => write_all s' ps' b'
      | None => None
      end
  end.

(** [n] calls of [read]; the payload of a packet starts at offset 5. *)
Fixpoint read_all (n : nat) (stream : bytes) (b : SSHBuffer) (o : O)
  : Result (list bytes * SSHBuffer * O * bytes) :=
  match n with
  | 0%nat => Ok ([], b, o, stream)
  | Datatypes.S n' =>
      let? (_, b1, o1, stream1) := read stream b o in
      let? (ps, b2, o2, stream2) := read_all n' stream1 b1 o1 in
      Ok (zdrop 5 b1.(buffer) :: ps, b2, o2, stream2)
  end.

Definition sendable (p : bytes * (Z -> bytes)) : Prop :=
  fills p.2 /\ Forall is_u8 p.1 /\ zlen p.1 <= MAX_CHANNEL_PAYLOAD.

(** The packet codec is lossless over any pair of keys that are in sync:
    whatever payloads of up to 256 KiB of channel data are written one after
    the other, with whatever padding bytes, no assertion of the writer fails,
    and the reader at the other end of the wire gets back exactly these
    payloads in this order, leaves the bytes that follow untouched, and ends
    with the writer's sequence number and keys again in sync. *)
Theorem packets_roundtrip ps : forall s o wb rb rest,
  sync s o -> Forall sendable ps -> rb.(len) = 0 -> rb.(seqn) = wb.(seqn) ->
  exists s' o' wire wb' rb',
    write_all s ps wb = Some (s', wb') /\ wb'.(buffer) = wb.(buffer) ++ wire /\
    read_all (length ps) (wire ++ rest) rb o = Ok (map fst ps, rb', o', rest) /\
    sync s' o' /\ rb'.(len) = 0 /\ rb'.(seqn) = wb'.(seqn).
Proof.
  induction ps as [|[p rng] ps IH]; intros s o wb rb rest Hs Hps Hl Hn;
    cbn [write_all read_all length map fst].
  { exists s, o, [], wb, rb. by rewrite app_nil_r. }
  apply Forall_cons_iff in Hps as [(Hr & Hu & Hp) Hps].
  destruct (write_read s o rng p wb rb) as (s1 & o1 & wire1 & hdr & -> & Hh & Hrd & Hs1); [done..|].
  destruct (IH s1 o1
    (mkSSHBuffer (wb.(buffer) ++ wire1) wb.(len) (wb.(nbytes) + zlen p) (wrapping_add32 wb.(seqn) 1))
    (mkSSHBuffer (hdr ++ p) 0 rb.(nbytes) (wrapping_add32 wb.(seqn) 1)) rest)
    as (s2 & o2 & wire2 & wb2 & rb2 & -> & Hb & Hra & Hs2 & Hl2 & Hn2); [done..|].
  exists s2, o2, (wire1 ++ wire2), wb2, rb2. split; [done|].
  cbn [buffer] in Hb. rewrite <- app_assoc in Hb |- *. split; [done|].
  rewrite Hrd. cbn [res_bind]. rewrite Hra. cbn [res_bind buffer].
  by rewrite zdrop_app_exact by lia.
Qed.
End RoundTrip.

(** Building a packet in place in the output buffer
    ([SealingKey::finish_packet], after five reserved bytes and the payload) has
    exactly the effect of appending the payload with [SealingKey::write]: same
    bytes, counters, key state and failures. *)
Theorem finish_packet_is_write {K} `{SealingKeyLaws K} (k : K) rng pre hdr payload b :
  fills rng -> zlen hdr = 5 -> b.(buffer) = pre ++ hdr ++ payload ->
  finish_packet k rng (zlen pre) (zlen payload) b = write k rng payload (set_buffer pre b).
Proof.
  intros Hr Hh Hb. rewrite (finish_packet_seal_after k rng pre hdr payload b) by done.
  by rewrite write_seal_after.
Qed.

(** ** Reading from an untrusted peer *)

(** What any input makes of an opening key in a state that is [ok]: the length is
    found in what is read ahead, a packet that is no shorter than that is opened
    without a panic, the plaintext is no longer than the packet, and the key that
    is left is [ok] and expects packets of the same form. *)
Class OpeningKeySafe (K : Type) `{OpeningKey K} (ok : K -> Prop) : Prop := {
  probe_min k : ok k -> 4 <= packet_length_to_read_for_block_length k;
  open_tag_min k : ok k -> 0 <= open_tag_len k;
  probe_length k n l : ok k -> zlen l = packet_length_to_read_for_block_length k -> Forall is_u8 l ->
    zlen (decrypt_packet_length k n l) = 4 /\ Forall is_u8 (decrypt_packet_length k n l);
  open_safe k n buf : ok k -> 4 + open_tag_len k <= zlen buf -> open k n buf <> Panic;
  open_plaintext k n buf k' buf' p : ok k -> 4 + open_tag_len k <= zlen buf ->
    open k n buf = Ok (k', buf', p) -> Forall is_u8 buf ->
    (zlen p <= zlen buf - 4 - open_tag_len k /\ Forall is_u8 p) /\
    ok k' /\ open_tag_len k' = open_tag_len k /\
    packet_length_to_read_for_block_length k' = packet_length_to_read_for_block_length k;
}.

(** The shortest packet is as long as what is read ahead of it. *)
Definition reads_ahead_safely {K} `{OpeningKey K} (k : K) : Prop :=
  packet_length_to_read_for_block_length k <= 4 + open_tag_len k.

Section ReadSafe.
Context {K : Type} {ok : K -> Prop} `{OpeningKeySafe K ok}.

Lemma read_length_safe stream b (k : K) :
  ok k -> Forall is_u8 stream -> b.(len) = 0 ->
  match read_length stream b k with
  | Ok (b1, stream1) =>
      open_tag_len k <= b1.(len) <= MAXIMUM_PACKET_LEN + open_tag_len k /\
      Forall is_u8 b1.(buffer) /\ Forall is_u8 stream1 /\ b1.(seqn) = b.(seqn) /\
      read_u32 (decrypt_packet_length k b.(seqn)
        (ztake (packet_length_to_read_for_block_length k) stream)) = Some (b1.(len) - open_tag_len k)
  | Err _ => True
  | Panic => False
  end.
Proof.
  intros Hok Hu Hl. unfold read_length, read_exact. rewrite Hl. simpl (0 =? 0).
  destruct (Z.leb_spec (packet_length_to_read_for_block_length k) (zlen stream)) as [Hle|]; [|done].
  cbn [res_bind]. set (l := ztake _ stream).
  assert (Forall is_u8 l) by (by apply Forall_take).
  destruct (probe_length k b.(seqn) l) as [H4 H8]; [done| |done|].
  { subst l. pose proof (probe_min k Hok). rewrite zlen_ztake. lia. }
  destruct (be32_read_u32 _ H8 H4) as (n & Hread & Hn & _). rewrite Hread. cbn [or_panic res_bind].
  destruct (Z.ltb_spec MAXIMUM_PACKET_LEN n); [done|]. cbn [len buffer seqn].
  unfold is_u32 in Hn. split; [lia|]. split; [done|]. split; [by apply Forall_drop|]. split; [done|].
  f_equal. lia.
Qed.

(** The buffer handed to [open]: probe, then the rest of the packet. *)
Lemma read_buffer (b1 : SSHBuffer) l s1 :
  let v := vec_resize (b1.(len) + 4) 0 b1.(buffer) in
  0 <= l <= b1.(len) + 4 -> zlen (zdrop l v) <= zlen s1 ->
  Forall is_u8 b1.(buffer) -> Forall is_u8 s1 ->
  zlen (ztake l v ++ ztake (zlen (zdrop l v)) s1) = b1.(len) + 4 /\
  Forall is_u8 (ztake l v ++ ztake (zlen (zdrop l v)) s1).
Proof.
  intros v Hl Hle Hb Hs.
  assert (Hv : zlen v = b1.(len) + 4) by (apply zlen_vec_resize; lia).
  split.
  - rewrite zlen_app, !zlen_ztake. rewrite zlen_zdrop in *. lia.
  - apply Forall_app; split; [|by apply Forall_take]. apply Forall_take, Forall_app.
    split; [by apply Forall_take|]. apply Forall_replicate. unfold is_u8. lia.
Qed.

(** The packet that is announced is shorter than what was read ahead to learn
    that. *)
Definition too_short (stream : bytes) (b : SSHBuffer) (k : K) : Prop :=
  exists n, 0 <= n /\ read_u32 (decrypt_packet_length k b.(seqn)
      (ztake (packet_length_to_read_for_block_length k) stream)) = Some n /\
    4 + n + open_tag_len k < packet_length_to_read_for_block_length k.

(** One packet from an untrusted peer: it is accepted with its bounds, or
    refused; the one panic is that for a packet that is too short. *)
Lemma read_outcome stream b (k : K) :
  ok k -> Forall is_u8 stream -> b.(len) = 0 ->
  match read stream b k with
  | Ok (n, b', k', stream') =>
      zlen b'.(buffer) = n /\ 4 <= n <= MAXIMUM_PACKET_LEN + 4 /\
      b'.(len) = 0 /\ b'.(seqn) = wrapping_add32 b.(seqn) 1 /\ Forall is_u8 stream' /\
      ok k' /\ (reads_ahead_safely k -> reads_ahead_safely k')
  | Err _ => True
  | Panic => too_short stream b k
  end.
Proof.
  intros Hok Hu Hl. pose proof (read_length_safe stream b k Hok Hu Hl) as Hrl. unfold read.
  destruct (read_length stream b k) as [[b1 s1]| |]; [|done|done].
  destruct Hrl as (Hlen & Hb1 & Hs1 & Hseq & Hread). cbn [res_bind].
  pose proof (probe_min k Hok) as Hp. pose proof (open_tag_min k Hok) as Ht.
  rewrite zlen_vec_resize by lia.
  destruct (Z.ltb_spec (b1.(len) + 4) (packet_length_to_read_for_block_length k)) as [Hlt|Hge].
  { exists (b1.(len) - open_tag_len k). split; [lia|]. split; [done|lia]. }
  unfold read_exact. destruct (_ <=? zlen s1) eqn:Ele; [|done]. apply Z.leb_le in Ele.
  destruct (read_buffer b1 (packet_length_to_read_for_block_length k) s1) as [Hbuf Hbu];
    [lia|done..|]. cbv zeta in *. cbn [res_bind].
  match goal with |- context [open k _ ?x] => set (buf := x) in * end.
  assert (Hsafe : open k b1.(seqn) buf <> Panic) by (apply open_safe; [done|lia]).
  destruct (open k b1.(seqn) buf) as [[[k' buf'] p]| |] eqn:Eo; [|done|done].
  apply open_plaintext in Eo as ([Ep Hpu] & Hok' & Htag & Hprobe); [|done|lia|done]. cbn [res_bind]. unfold checked_sub.
  assert (0 <= default 0 (head p)).
  { destruct p as [|x p]; [done|]. apply Forall_cons_iff in Hpu as [Hx _].
    unfold is_u8 in Hx. simpl. lia. }
  destruct (Z.leb_spec (default 0 (head p)) (zlen p)) as [Hle|]; [|done].
  cbn [ok_or res_bind buffer len seqn]. rewrite Hseq, zlen_vec_resize by lia.
  split_and!; try lia; try done; [by apply Forall_drop|]. unfold reads_ahead_safely. by rewrite Htag, Hprobe.
Qed.

(** And any number of packets: the one panic is that for a packet that is too
    short, after any number that were accepted. *)
Lemma read_all_safe n : forall stream b (k : K),
  ok k -> Forall is_u8 stream -> b.(len) = 0 ->
  match read_all n stream b k with
  | Ok (ps, b', k', _) =>
      length ps = n /\ Forall (fun p => zlen p <= MAXIMUM_PACKET_LEN) ps /\ b'.(len) = 0 /\
      b'.(seqn) = Nat.iter n (fun s => wrapping_add32 s 1) b.(seqn)
  | Err _ => True
  | Panic => ~ reads_ahead_safely k /\ exists m ps b' k' stream',
      read_all m stream b k = Ok (ps, b', k', stream') /\ too_short stream' b' k'
  end.
Proof.
  induction n as [|n IH]; intros stream b k Hok Hu Hl; cbn [read_all]; [done|].
  pose proof (read_outcome stream b k Hok Hu Hl) as Hr.
  destruct (read stream b k) as [[[[m b1] k1] s1]| |] eqn:E; cbn [res_bind]; [|done|].
  - destruct Hr as (Hm & Hb & Hl1 & Hq1 & Hu1 & Hok1 & Ha1). specialize (IH s1 b1 k1 Hok1 Hu1 Hl1).
    destruct (read_all n s1 b1 k1) as [[[[ps b2] k2] s2]| |]; cbn [res_bind]; [|done|].
    + destruct IH as (Hn & Hps & Hl2 & Hq2). split_and!; [cbn; by rewrite Hn| |done|].
      * constructor; [rewrite zlen_zdrop; unfold MAXIMUM_PACKET_LEN in *; lia|done].
      * by rewrite Hq2, Hq1, Nat.iter_succ_r.
    + destruct IH as (Hn & i & ps & b' & k' & s' & Hi & Hs). split; [tauto|].
      exists (Datatypes.S i). do 4 eexists. cbn [read_all]. rewrite E. cbn [res_bind]. by rewrite Hi.
  - split; [|by exists 0%nat, [], b, k, stream]. destruct Hr as (x & Hx & _ & Hs). unfold reads_ahead_safely. lia.
Qed.
End ReadSafe.
