(* ===== verification/CipherImpls.v ===== *)
(** * The ciphers and MACs ([russh/src/cipher/*.rs], [russh/src/mac/*.rs])

    Every key type implements the traits of [Cipher] and satisfies their
    contracts [SealingKeyLaws], [InSync] and [OpeningKeySafe], so that the codec
    theorems hold of it.  The cryptographic primitives (keystreams, block
    ciphers, HMACs, AEADs) belong to other crates: they are parameters, with the
    documented facts the wrappers rely on as hypotheses of the sections. *)

From stdpp Require Import base list numbers option.
From Stdlib Require Import ZArith Lia.
From S2P Require Import Prelude LibInner Cipher.

(** ** [clear::Key] *)
Module Clear.

Inductive Key : Type := mkKey.

Definition clear_padding_length (k : Key) (payload : bytes) : Z :=
  let block_size := 8 in
  let padding_len := block_size - ((5 + zlen payload) mod block_size) in
  if padding_len <? 4 then padding_len + block_size else padding_len.

Definition clear_fill_padding (k : Key) (rng : Z -> bytes) (n : Z) : bytes :=
  replicate (Z.to_nat n) 0.

Definition clear_seal (k : Key) (seqn : Z) (plaintext : bytes) : option (Key * bytes * bytes) :=
  Some (k, plaintext, []).

Definition clear_open (k : Key) (seqn : Z) (buf : bytes) : Result (Key * bytes * bytes) :=
  if zlen buf <? 4 then Panic else Ok (k, buf, zdrop 4 buf).

#[global] Instance clear_sealing : SealingKey Key := {|
  padding_length := clear_padding_length;
  fill_padding := clear_fill_padding;
  seal_tag_len _ := 0;
  seal := clear_seal;
|}.

#[global] Instance clear_opening : OpeningKey Key := {|
  packet_length_to_read_for_block_length _ := 4;
  decrypt_packet_length _ _ packet_length := packet_length;
  open_tag_len _ := 0;
  open := clear_open;
|}.

(** A zeroed slice is a slice of bytes. *)
Lemma zeros_fill n : 0 <= n ->
  zlen (replicate (Z.to_nat n) 0) = n /\ Forall is_u8 (replicate (Z.to_nat n) 0).
Proof.
  intros. split; [rewrite zlen_replicate; lia|]. apply Forall_replicate. unfold is_u8. lia.
Qed.

Lemma clear_padding_spec k payload :
  4 <= clear_padding_length k payload <= 11 /\
  (5 + zlen payload + clear_padding_length k payload) mod 8 = 0.
Proof.
  unfold clear_padding_length. destruct (Z.ltb_spec (8 - (5 + zlen payload) mod 8) 4); dlia.
Qed.

#[global] Instance clear_sealing_laws : SealingKeyLaws Key.
Proof.
  split; cbn.
  - intros k p. destruct (clear_padding_spec k p). unfold MAXIMUM_PADDING_LEN. lia.
  - intros k rng _ n Hn. apply zeros_fill. lia.
  - done.
Qed.

Definition in_sync (s o : Key) : Prop := True.

#[global] Instance clear_in_sync : InSync Key Key in_sync.
Proof.
  split; cbn.
  - done.
  - intros s o payload _. destruct (clear_padding_spec s payload).
    pose proof (zlen_nonneg payload). lia.
  - intros s o n payload pad _ Hpad _ _ Hfit.
    exists s, (plain_packet s payload pad), [], o,
      (be32 (1 + zlen payload + clear_padding_length s payload)), [].
    split; [done|]. split; [by rewrite zlen_plain_packet|]. split; [done|].
    rewrite app_nil_r. split; [by unfold plain_packet; rewrite ztake_app_exact|].
    split; [done|]. split; [|done].
    unfold clear_open, plain_packet. pose proof (zlen_nonneg (clear_padding_length s payload :: payload ++ pad)).
    rewrite zlen_app, zlen_be32. cbn [padding_length clear_sealing].
    replace (4 + _ <? 4) with false by (symmetry; apply Z.ltb_ge; lia).
    by rewrite zdrop_app_exact, app_nil_r.
Qed.

#[global] Instance clear_opening_safe : OpeningKeySafe Key (fun _ => True).
Proof.
  split; cbn.
  - done.
  - done.
  - intros k n l _ Hl Hu. done.
  - intros k n buf _ Hb. unfold clear_open.
    by replace (zlen buf <? 4) with false by (symmetry; apply Z.ltb_ge; lia).
  - unfold clear_open. intros k n buf k' buf' p _ _ Ho Hu.
    destruct (Z.ltb_spec (zlen buf) 4); [done|]. simplify_eq.
    split; [|done]. split; [rewrite zlen_zdrop; lia|]. by apply Forall_drop.
Qed.
End Clear.

(** ** MACs ([mac/mod.rs], [mac/none.rs], [mac/crypto.rs], [mac/crypto_etm.rs]) *)

Class Mac (M : Type) : Type := {
  mac_len : M -> Z;
  is_etm : M -> bool;
  compute : M -> Z -> bytes -> bytes;
  verify : M -> Z -> bytes -> bytes -> bool;
}.

Class MacLaws (M : Type) `{Mac M} : Prop := {
  mac_len_nonneg m : 0 <= mac_len m;
  compute_len m n p : zlen (compute m n p) = mac_len m;
  verify_compute m n p : verify m n p (compute m n p) = true;
}.

Module Macs.
Inductive NoMac : Type := mkNoMac.

#[global] Instance no_mac : Mac NoMac := {|
  mac_len _ := 0;
  is_etm _ := false;
  compute _ _ _ := [];
  verify _ _ _ _ := true;
|}.

#[global] Instance no_mac_laws : MacLaws NoMac.
Proof. by split. Qed.

Section Crypto.
(** [hmac key data]: the digest crate's keyed hash of the data fed to it;
    [output_size] its output length. *)
Context (hmac : bytes -> bytes -> bytes) (output_size : Z).

Record CryptoMac : Type := mkCryptoMac { mac_key : bytes }.

(** [update(seqno)], [update(payload)], [finalize]. *)
Definition crypto_compute (m : CryptoMac) (sequence_number : Z) (payload : bytes) : bytes :=
  hmac m.(mac_key) (be32 sequence_number ++ payload).

(** [buf.ct_eq(mac)]. *)
Definition crypto_verify (m : CryptoMac) (sequence_number : Z) (payload mac : bytes) : bool :=
  beq (crypto_compute m sequence_number payload) mac.

Definition crypto_mac : Mac CryptoMac := {|
  mac_len _ := output_size;
  is_etm _ := false;
  compute := crypto_compute;
  verify := crypto_verify;
|}.

Record CryptoEtmMac : Type := mkCryptoEtmMac { etm_inner : CryptoMac }.

Definition crypto_etm_mac : Mac CryptoEtmMac := {|
  mac_len m := output_size;
  is_etm _ := true;
  compute m := crypto_compute m.(etm_inner);
  verify m := crypto_verify m.(etm_inner);
|}.

Context (Hsize : 0 <= output_size) (Hhmac : forall k d, zlen (hmac k d) = output_size).

Lemma crypto_mac_laws : @MacLaws CryptoMac crypto_mac.
Proof. split; cbn; [done|intros; apply Hhmac|intros; apply beq_refl]. Qed.

Lemma crypto_etm_mac_laws : @MacLaws CryptoEtmMac crypto_etm_mac.
Proof. split; cbn; [done|intros; apply Hhmac|intros; apply beq_refl]. Qed.
End Crypto.
End Macs.

(** ** [cipher/block.rs]: a block-stream cipher with a MAC *)

(** The traits [BlockStreamCipher] and [PacketLengthProbe]. *)
Class BlockStreamCipher (C : Type) : Type := {
  encrypt_data : C -> bytes -> C * bytes;
  decrypt_data : C -> bytes -> C * bytes;
  decrypt_packet_length_block : C -> bytes -> bytes;
}.

(** The two ends of a cipher: decryption undoes encryption of whole blocks, and
    the probe shows the first block without moving on. *)
Class CipherSync (C : Type) `{BlockStreamCipher C} (csync : C -> C -> Prop) : Prop := {
  csync_data e d data : csync e d -> Forall is_u8 data -> zlen data mod 16 = 0 -> 16 <= zlen data ->
    exists e' ct d', encrypt_data e data = (e', ct) /\ zlen ct = zlen data /\
      decrypt_data d ct = (d', data) /\ csync e' d' /\
      decrypt_packet_length_block d (ztake 16 ct) = ztake 16 data;
}.

(** What any ciphertext decrypts to, in a state that is [cok]. *)
Class CipherSafe (C : Type) `{BlockStreamCipher C} (cok : C -> Prop) : Prop := {
  decrypt_data_safe (d : C) ct : cok d -> Forall is_u8 ct ->
    zlen (decrypt_data d ct).2 = zlen ct /\ Forall is_u8 (decrypt_data d ct).2 /\ cok (decrypt_data d ct).1;
  probe_safe (d : C) b : cok d -> Forall is_u8 b ->
    zlen (decrypt_packet_length_block d b) = zlen b /\ Forall is_u8 (decrypt_packet_length_block d b);
}.

Module Block.
Section Block.
Context {C M : Type} `{HC : BlockStreamCipher C, HM : Mac M}.

Record BlockKey : Type := mkBlockKey { cipher : C; mac : M }.

Definition block_padding_length (k : BlockKey) (payload : bytes) : Z :=
  let block_size := 16 in
  let pll := if is_etm k.(mac) then 0 else PACKET_LENGTH_LEN in
  let extra_len := PACKET_LENGTH_LEN + PADDING_LENGTH_LEN + mac_len k.(mac) in
  let padding_len :=
    if zlen payload + extra_len <=? MINIMUM_PACKET_LEN
    then MINIMUM_PACKET_LEN - zlen payload - PADDING_LENGTH_LEN - pll
    else block_size - ((pll + PADDING_LENGTH_LEN + zlen payload) mod block_size) in
  if padding_len <? PACKET_LENGTH_LEN then padding_len + block_size else padding_len.

Definition block_seal (k : BlockKey) (sequence_number : Z) (plaintext : bytes)
  : option (BlockKey * bytes * bytes) :=
  if zlen plaintext <? PACKET_LENGTH_LEN then None else
  if is_etm k.(mac) then
    let '(c', body) := encrypt_data k.(cipher) (zdrop PACKET_LENGTH_LEN plaintext) in
    let ciphertext := ztake PACKET_LENGTH_LEN plaintext ++ body in
    Some (mkBlockKey c' k.(mac), ciphertext, compute k.(mac) sequence_number ciphertext)
  else
    let tag := compute k.(mac) sequence_number plaintext in
    let '(c', ciphertext) := encrypt_data k.(cipher) plaintext in
    Some (mkBlockKey c' k.(mac), ciphertext, tag).

Definition block_decrypt_packet_length (k : BlockKey) (sequence_number : Z)
    (encrypted_packet_length : bytes) : bytes :=
  let first_block := ztake 16 encrypted_packet_length in
  if is_etm k.(mac) then ztake 4 encrypted_packet_length
  else ztake 4 (decrypt_packet_length_block k.(cipher) first_block).

Definition block_open (k : BlockKey) (sequence_number : Z) (ciphertext_and_tag : bytes)
  : Result (BlockKey * bytes * bytes) :=
  let ciphertext_len := zlen ciphertext_and_tag - mac_len k.(mac) in
  if ciphertext_len <? 0 then Panic else
  let ciphertext := ztake ciphertext_len ciphertext_and_tag in
  let tag := zdrop ciphertext_len ciphertext_and_tag in
  if is_etm k.(mac) then
    if verify k.(mac) sequence_number ciphertext tag then
      if ciphertext_len <? PACKET_LENGTH_LEN then Panic else
      let '(c', body) := decrypt_data k.(cipher) (zdrop PACKET_LENGTH_LEN ciphertext) in
      Ok (mkBlockKey c' k.(mac), ztake PACKET_LENGTH_LEN ciphertext ++ body ++ tag, body)
    else Err Error.PacketAuth
  else
    let '(c', plaintext) := decrypt_data k.(cipher) ciphertext in
    if verify k.(mac) sequence_number plaintext tag then
      if ciphertext_len <? PACKET_LENGTH_LEN then Panic else
      Ok (mkBlockKey c' k.(mac), plaintext ++ tag, zdrop PACKET_LENGTH_LEN plaintext)
    else Err Error.PacketAuth.

#[global] Instance block_sealing : SealingKey BlockKey := {|
  padding_length := block_padding_length;
  fill_padding _ rng n := rng n;
  seal_tag_len k := mac_len k.(mac);
  seal := block_seal;
|}.

#[global] Instance block_opening : OpeningKey BlockKey := {|
  packet_length_to_read_for_block_length _ := 16;
  decrypt_packet_length := block_decrypt_packet_length;
  open_tag_len k := mac_len k.(mac);
  open := block_open;
|}.

Context `{!MacLaws M}.

Lemma block_padding_spec k payload :
  let pll := if is_etm k.(mac) then 0 else 4 in
  4 <= block_padding_length k payload <= 19 /\
  (pll + 1 + zlen payload + block_padding_length k payload) mod 16 = 0 /\
  16 <= pll + 1 + zlen payload + block_padding_length k payload.
Proof.
  unfold block_padding_length, PACKET_LENGTH_LEN, PADDING_LENGTH_LEN, MINIMUM_PACKET_LEN.
  pose proof (zlen_nonneg payload). pose proof (mac_len_nonneg k.(mac)).
  destruct (is_etm k.(mac)); cbv zeta;
    destruct (Z.leb_spec (zlen payload + (4 + 1 + mac_len k.(mac))) 16);
    match goal with |- context [?x <? 4] => destruct (Z.ltb_spec x 4) end; dlia.
Qed.

#[global] Instance block_sealing_laws : SealingKeyLaws BlockKey.
Proof.
  split; cbn.
  - intros k p. destruct (block_padding_spec k p). unfold MAXIMUM_PADDING_LEN. lia.
  - by intros k rng.
  - intros k. apply mac_len_nonneg.
Qed.

(** *** The contracts *)
Context (csync : C -> C -> Prop) `{!CipherSync C csync}.

Definition block_sync (s o : BlockKey) : Prop :=
  csync s.(cipher) o.(cipher) /\ s.(mac) = o.(mac).

Lemma plain_packet_split (s : BlockKey) payload pad :
  plain_packet s payload pad =
    be32 (1 + zlen payload + block_padding_length s payload) ++
    block_padding_length s payload :: payload ++ pad.
Proof. done. Qed.

(** Encrypt-then-MAC: the length stays in clear. *)
Lemma block_open_etm s o n payload pad :
  block_sync s o -> is_etm s.(mac) = true -> zlen pad = block_padding_length s payload ->
  Forall is_u8 payload -> Forall is_u8 pad ->
  let hdr := be32 (1 + zlen payload + block_padding_length s payload) in
  let body := block_padding_length s payload :: payload ++ pad in
  exists c' ct d', 
    block_seal s n (hdr ++ body) =
      Some (mkBlockKey c' s.(mac), hdr ++ ct, compute s.(mac) n (hdr ++ ct)) /\
    zlen ct = zlen body /\
    block_decrypt_packet_length o n (ztake 16 ((hdr ++ ct) ++ compute s.(mac) n (hdr ++ ct))) = hdr /\
    block_open o n ((hdr ++ ct) ++ compute s.(mac) n (hdr ++ ct)) =
      Ok (mkBlockKey d' o.(mac), hdr ++ body ++ compute s.(mac) n (hdr ++ ct), body) /\
    csync c' d'.
Proof.
  intros [Hc Hm] Hetm Hpad Hu Hpu hdr body. destruct (block_padding_spec s payload) as (Hr & Ha & Hmin).
  rewrite Hetm in Ha, Hmin. assert (Hbody : zlen body = 1 + zlen payload + zlen pad) by (subst body; zlia).
  destruct (csync_data s.(cipher) o.(cipher) body) as (c' & ct & d' & He & Hct & Hd & Hc' & _); [done| | |lia|].
  { subst body. constructor; [unfold is_u8; lia|]. by apply Forall_app. }
  { rewrite Hbody. rewrite <- Ha. f_equal. lia. }
  exists c', ct, d'. assert (Hh : zlen hdr = 4) by done. unfold PACKET_LENGTH_LEN in *.
  assert (Htag := compute_len s.(mac) n (hdr ++ ct)).
  split; [|split; [done|split; [|split; [|done]]]].
  - unfold block_seal, PACKET_LENGTH_LEN. rewrite Hetm.
    replace (zlen (hdr ++ body) <? 4) with false by (symmetry; apply Z.ltb_ge; zlia).
    rewrite zdrop_app_exact, He, ztake_app_exact by done. done.
  - unfold block_decrypt_packet_length. rewrite <- Hm, Hetm.
    rewrite ztake_ztake, <- app_assoc. by rewrite ztake_app_exact.
  - unfold block_open, PACKET_LENGTH_LEN. rewrite <- Hm, Hetm, zlen_app, Htag.
    replace (zlen (hdr ++ ct) + mac_len s.(mac) - mac_len s.(mac)) with (zlen (hdr ++ ct)) by lia.
    rewrite (ztake_app_exact _ (hdr ++ ct)), (zdrop_app_exact _ (hdr ++ ct)) by done.
    replace (zlen (hdr ++ ct) <? 0) with false by (symmetry; apply Z.ltb_ge; zlia).
    replace (zlen (hdr ++ ct) <? 4) with false by (symmetry; apply Z.ltb_ge; zlia).
    rewrite verify_compute, (zdrop_app_exact _ hdr), (ztake_app_exact _ hdr), Hd by done. done.
Qed.

(** Encrypt-and-MAC: the MAC is over the plaintext. *)
Lemma block_open_plain s o n payload pad :
  block_sync s o -> is_etm s.(mac) = false -> zlen pad = block_padding_length s payload ->
  Forall is_u8 payload -> Forall is_u8 pad ->
  let hdr := be32 (1 + zlen payload + block_padding_length s payload) in
  let body := block_padding_length s payload :: payload ++ pad in
  let tag := compute s.(mac) n (hdr ++ body) in
  exists c' ct d', 
    block_seal s n (hdr ++ body) = Some (mkBlockKey c' s.(mac), ct, tag) /\
    zlen ct = 4 + zlen body /\
    block_decrypt_packet_length o n (ztake 16 (ct ++ tag)) = hdr /\
    block_open o n (ct ++ tag) = Ok (mkBlockKey d' o.(mac), hdr ++ body ++ tag, body) /\
    csync c' d'.
Proof.
  intros [Hc Hm] Hetm Hpad Hu Hpu hdr body tag. destruct (block_padding_spec s payload) as (Hr & Ha & Hmin).
  rewrite Hetm in Ha, Hmin. assert (Hbody : zlen body = 1 + zlen payload + zlen pad) by (subst body; zlia).
  assert (Hh : zlen hdr = 4) by done.
  destruct (csync_data s.(cipher) o.(cipher) (hdr ++ body)) as (c' & ct & d' & He & Hct & Hd & Hc' & Hpr);
    [done| | |rewrite zlen_app; lia|].
  { apply Forall_app. split; [apply be32_is_u8|]. subst body. constructor; [unfold is_u8; lia|].
    by apply Forall_app. }
  { rewrite zlen_app, Hbody. rewrite <- Ha. f_equal. lia. }
  rewrite zlen_app in Hct.
  exists c', ct, d'. unfold PACKET_LENGTH_LEN in *.
  assert (Htag : zlen tag = mac_len s.(mac)) by (by apply compute_len).
  split; [|split; [lia|split; [|split; [|done]]]].
  - unfold block_seal, PACKET_LENGTH_LEN. rewrite Hetm.
    replace (zlen (hdr ++ body) <? 4) with false by (symmetry; apply Z.ltb_ge; zlia).
    by rewrite He.
  - unfold block_decrypt_packet_length. rewrite <- Hm, Hetm, ztake_ztake.
    rewrite ztake_app_le by lia. rewrite Z.min_id, Hpr, ztake_ztake. by rewrite ztake_app_exact.
  - unfold block_open, PACKET_LENGTH_LEN. rewrite <- Hm, Hetm, zlen_app, Htag.
    replace (zlen ct + mac_len s.(mac) - mac_len s.(mac)) with (zlen ct) by lia.
    rewrite (ztake_app_exact _ ct), (zdrop_app_exact _ ct), Hd by done.
    pose proof (zlen_nonneg body).
    replace (zlen ct <? 0) with false by (symmetry; apply Z.ltb_ge; lia).
    replace (zlen ct <? 4) with false by (symmetry; apply Z.ltb_ge; lia).
    unfold tag. rewrite verify_compute, zdrop_app_exact by done. by rewrite <- app_assoc.
Qed.

#[global] Instance block_in_sync : InSync BlockKey BlockKey block_sync.
Proof.
  split; cbn [seal_tag_len open_tag_len packet_length_to_read_for_block_length padding_length
    seal open decrypt_packet_length block_sealing block_opening].
  - intros s o [_ ->]. done.
  - intros s o payload _. destruct (block_padding_spec s payload) as (? & _ & Hmin).
    pose proof (mac_len_nonneg s.(mac)). destruct (is_etm s.(mac)); lia.
  - intros s o n payload pad Hs Hpad Hu Hpu _. rewrite plain_packet_split.
    destruct (is_etm s.(mac)) eqn:He;
      [destruct (block_open_etm s o n payload pad) as (c' & ct & d' & H1 & H2 & H3 & H4 & H5)
      |destruct (block_open_plain s o n payload pad) as (c' & ct & d' & H1 & H2 & H3 & H4 & H5)]; try done.
    all: set (hdr := be32 (1 + zlen payload + block_padding_length s payload)) in *.
    all: assert (Hh : zlen hdr = 4) by done.
    all: eexists _, _, _, _, hdr, _; rewrite H1; split; [done|].
    all: split; [autorewrite with zlen in *; lia|]. all: split; [apply compute_len|].
    all: split; [done|]. all: split; [done|]. all: split; [apply H4|].
    all: split; [done|apply Hs].
Qed.

(** Any packet is opened or refused; but with a tag of less than twelve bytes -
    with the MAC [none] - a packet may be shorter than the block that is read ahead. *)
Lemma block_opening_safe (cok : C -> Prop) `{!CipherSafe C cok} :
  OpeningKeySafe BlockKey (fun k => cok k.(cipher)).
Proof.
  split; cbn [open_tag_len packet_length_to_read_for_block_length open
    decrypt_packet_length block_opening].
  - lia.
  - intros k _. apply mac_len_nonneg.
  - intros k n l Hok Hl Hu. unfold block_decrypt_packet_length. destruct (is_etm _).
    + split; [rewrite zlen_ztake; lia|by apply Forall_take].
    + destruct (probe_safe k.(cipher) (ztake 16 l)) as [Hz Hz8]; [done|by apply Forall_take|].
      split; [rewrite zlen_ztake, Hz, zlen_ztake; lia|]. by apply Forall_take.
  - intros k n buf Hok Hb. unfold block_open, PACKET_LENGTH_LEN. pose proof (mac_len_nonneg k.(mac)) as Hm.
    replace (zlen buf - mac_len k.(mac) <? 0) with false by (symmetry; apply Z.ltb_ge; lia).
    replace (zlen buf - mac_len k.(mac) <? 4) with false by (symmetry; apply Z.ltb_ge; lia).
    by repeat case_match.
  - intros k n buf k' buf' p Hok _ Ho Hu. unfold block_open, PACKET_LENGTH_LEN in Ho.
    pose proof (mac_len_nonneg k.(mac)) as Hm.
    destruct (Z.ltb_spec (zlen buf - mac_len k.(mac)) 0); [done|].
    destruct (is_etm k.(mac)); [destruct (verify _ _ _ _); [|done]|].
    + destruct (Z.ltb_spec (zlen buf - mac_len k.(mac)) 4); [done|].
      set (x := zdrop 4 _) in Ho.
      destruct (decrypt_data_safe k.(cipher) x) as (Hx & Hxu & Hxo); [done|by apply Forall_drop, Forall_take|].
      destruct (decrypt_data k.(cipher) x) as [c' b]. simplify_eq. split; [|done]. split; [|done].
      cbn [snd] in Hx. rewrite Hx. subst x. autorewrite with zlen. lia.
    + set (x := ztake _ buf) in Ho.
      destruct (decrypt_data_safe k.(cipher) x) as (Hx & Hxu & Hxo); [done|by apply Forall_take|].
      destruct (decrypt_data k.(cipher) x) as [c' b]. destruct (verify _ _ _ _); [|done].
      destruct (Z.ltb_spec (zlen buf - mac_len k.(mac)) 4); [done|]. simplify_eq.
      cbn [fst snd] in Hx, Hxu, Hxo. split; [|done]. split; [|by apply Forall_drop].
      rewrite zlen_zdrop, Hx. subst x. autorewrite with zlen. lia.
Qed.
End Block.
Arguments BlockKey : clear implicits.
End Block.

(** *** Bytewise exclusive or *)

Definition xor_bytes (a b : bytes) : bytes := zip_with Z.lxor a b.

Lemma lxor_u8 x y : is_u8 x -> is_u8 y -> is_u8 (Z.lxor x y).
Proof.
  unfold is_u8. intros [Hx0 Hx] [Hy0 Hy].
  assert (H0 : 0 <= Z.lxor x y) by (by apply Z.lxor_nonneg).
  split; [done|]. destruct (Z.eq_dec (Z.lxor x y) 0) as [->|Hne]; [lia|].
  change 256 with (2 ^ 8). apply Z.log2_lt_pow2; [lia|].
  eapply Z.le_lt_trans; [by apply Z.log2_lxor|]. apply Z.max_lub_lt.
  - destruct (Z.eq_dec x 0) as [->|]; [done|]. apply Z.log2_lt_pow2; lia.
  - destruct (Z.eq_dec y 0) as [->|]; [done|]. apply Z.log2_lt_pow2; lia.
Qed.

Lemma xor_bytes_twice a b : length a = length b -> xor_bytes (xor_bytes a b) b = a.
Proof.
  unfold xor_bytes. revert b. induction a as [|x a IH]; intros [|y b]; cbn; try done.
  intros [= Hl]. f_equal; [|by apply IH].
  by rewrite Z.lxor_assoc, Z.lxor_nilpotent, Z.lxor_0_r.
Qed.

Lemma length_xor_bytes a b : length a = length b -> length (xor_bytes a b) = length a.
Proof. unfold xor_bytes. intros. rewrite length_zip_with. lia. Qed.

Lemma xor_bytes_u8 a b : Forall is_u8 a -> Forall is_u8 b -> Forall is_u8 (xor_bytes a b).
Proof.
  unfold xor_bytes. intros Ha. revert b. induction Ha as [|x a Hx Ha IH]; intros [|y b] Hb; cbn;
    [constructor..|]. apply Forall_cons_iff in Hb as [Hy Hb].
  constructor; [by apply lxor_u8|by apply IH].
Qed.

(** *** [CtrWrapper]: a seekable stream cipher *)
Module Ctr.
Section Ctr.
(** [ks key iv pos]: the keystream byte of [C] at position [pos]. *)
Context (ks : bytes -> bytes -> Z -> Z).

Record CtrWrapper : Type := mkCtr { ctr_key : bytes; initial_iv : bytes; pos : Z }.

Definition ctr_new (key iv : bytes) : CtrWrapper := mkCtr key iv 0.

Definition keystream (c : CtrWrapper) (n : nat) : bytes :=
  map (fun i => ks c.(ctr_key) c.(initial_iv) (c.(pos) + Z.of_nat i)) (seq 0 n).

(** [unchecked_apply_keystream_inout]: a fresh cipher, sought to [pos]. *)
Definition apply_keystream (c : CtrWrapper) (buf : bytes) : CtrWrapper * bytes :=
  (mkCtr c.(ctr_key) c.(initial_iv) (c.(pos) + zlen buf),
   xor_bytes buf (keystream c (length buf))).

(** [impl BlockStreamCipher for T: StreamCipher] and
    [impl PacketLengthProbe for T: StreamCipher + Clone]. *)
Definition ctr_cipher : BlockStreamCipher CtrWrapper := {|
  encrypt_data := apply_keystream;
  decrypt_data := apply_keystream;
  decrypt_packet_length_block c first_block := (apply_keystream c first_block).2;
|}.

Lemma length_keystream c n : length (keystream c n) = n.
Proof. unfold keystream. by rewrite length_map, length_seq. Qed.

Lemma zlen_apply_keystream c b : zlen (apply_keystream c b).2 = zlen b.
Proof.
  unfold zlen. cbn [apply_keystream snd]. by rewrite length_xor_bytes by (by rewrite length_keystream).
Qed.

Lemma take_apply_keystream c n b :
  (apply_keystream c (take n b)).2 = take n (apply_keystream c b).2.
Proof.
  cbn [apply_keystream snd]. unfold xor_bytes. rewrite zip_with_take. f_equal.
  unfold keystream. by rewrite firstn_map, take_seq, length_take.
Qed.

#[local] Existing Instance ctr_cipher.

Lemma ctr_sync : CipherSync CtrWrapper eq.
Proof.
  split. intros e d data <- Hu Hmod Hlen. exists (apply_keystream e data).1, (apply_keystream e data).2.
  eexists. split; [by rewrite <- surjective_pairing|].
  pose proof (zlen_apply_keystream e data) as Hz.
  split; [done|]. split; [|split; [reflexivity|]].
  - cbn [decrypt_data ctr_cipher]. unfold apply_keystream at 1. rewrite Hz. f_equal.
    assert (length (apply_keystream e data).2 = length data) as -> by (unfold zlen in Hz; lia).
    cbn [apply_keystream snd]. apply xor_bytes_twice. by rewrite length_keystream.
  - cbn [decrypt_packet_length_block ctr_cipher]. unfold ztake. rewrite take_apply_keystream.
    cbn [apply_keystream snd]. rewrite length_xor_bytes by (by rewrite length_keystream).
    by rewrite xor_bytes_twice by (by rewrite length_keystream).
Qed.

Context (Hks : forall k iv p, is_u8 (ks k iv p)).

Lemma ctr_safe : CipherSafe CtrWrapper (fun _ => True).
Proof.
  assert (Hk : forall c n, Forall is_u8 (keystream c n)).
  { intros c n. unfold keystream. apply Forall_map, Forall_true. intros. apply Hks. }
  split; cbn [decrypt_data decrypt_packet_length_block ctr_cipher]; intros d b _ Hb.
  - split; [apply zlen_apply_keystream|]. split; [by apply xor_bytes_u8|done].
  - split; [apply zlen_apply_keystream|by apply xor_bytes_u8].
Qed.
End Ctr.
End Ctr.

(** *** [CbcWrapper] ([cipher/cbc.rs]) *)
Module Cbc.
Section Cbc.
(** The raw block cipher. *)
Context (encrypt_block decrypt_block : bytes -> bytes -> bytes) (block_size : Z).

(** The key schedule is shared by the [Encryptor] and [dec_cipher]. *)
Record CbcWrapper : Type := mkCbc { cbc_key : bytes; enc_iv : bytes; dec_iv : bytes }.

Definition inner_iv_init (key iv : bytes) : CbcWrapper := mkCbc key iv iv.

(** The loops over [chunks_exact_mut(block_size)]: [n] whole blocks; what is
    left of the slice is not touched. *)
Fixpoint encrypt_chunks (n : nat) (key iv data : bytes) : bytes * bytes :=
  match n with
  | O => (iv, data)
  | S n' =>
      let c := encrypt_block key (xor_bytes (ztake block_size data) iv) in
      let '(iv', rest) := encrypt_chunks n' key c (zdrop block_size data) in
      (iv', c ++ rest)
  end.

Fixpoint decrypt_chunks (n : nat) (key iv data : bytes) : bytes * bytes :=
  match n with
  | O => (iv, data)
  | S n' =>
      let c := ztake block_size data in
      let p := xor_bytes (decrypt_block key c) iv in
      let '(iv', rest) := decrypt_chunks n' key c (zdrop block_size data) in
      (iv', p ++ rest)
  end.

Definition chunks (data : bytes) : nat := Z.to_nat (zlen data / block_size).

(** Returns the IV state and the decrypted slice. *)
Definition decrypt_inner (c : CbcWrapper) (data : bytes) : bytes * bytes :=
  decrypt_chunks (chunks data) c.(cbc_key) c.(dec_iv) data.

Definition cbc_encrypt_data (c : CbcWrapper) (data : bytes) : CbcWrapper * bytes :=
  let '(iv, out) := encrypt_chunks (chunks data) c.(cbc_key) c.(enc_iv) data in
  (mkCbc c.(cbc_key) iv c.(dec_iv), out).

Definition cbc_decrypt_data (c : CbcWrapper) (data : bytes) : CbcWrapper * bytes :=
  let '(iv, out) := decrypt_inner c data in
  (mkCbc c.(cbc_key) c.(enc_iv) iv, out).

Definition cbc_decrypt_packet_length_block (c : CbcWrapper) (first_block : bytes) : bytes :=
  (decrypt_inner c first_block).2.

Definition cbc_cipher : BlockStreamCipher CbcWrapper := {|
  encrypt_data := cbc_encrypt_data;
  decrypt_data := cbc_decrypt_data;
  decrypt_packet_length_block := cbc_decrypt_packet_length_block;
|}.

(** AES has blocks of 16 bytes, triple DES of 8. *)
Context (Hbs : block_size = 8 \/ block_size = 16).

Definition is_block (b : bytes) : Prop := zlen b = block_size /\ Forall is_u8 b.

Context (Henc : forall k b, is_block b -> is_block (encrypt_block k b)).
Context (Hdec : forall k b, is_block b -> is_block (decrypt_block k b)).
Context (Hinv : forall k b, is_block b -> decrypt_block k (encrypt_block k b) = b).

(** The ends hold the same key, and the encryptor's chaining block is the
    decryptor's. *)
Definition cbc_sync (e d : CbcWrapper) : Prop :=
  e.(cbc_key) = d.(cbc_key) /\ e.(enc_iv) = d.(dec_iv) /\ is_block e.(enc_iv).

Lemma xor_block a b : is_block a -> is_block b -> is_block (xor_bytes a b).
Proof.
  unfold is_block, zlen. intros [? ?] [? ?].
  split; [rewrite length_xor_bytes; lia|by apply xor_bytes_u8].
Qed.

Lemma first_block data :
  Forall is_u8 data -> block_size <= zlen data -> is_block (ztake block_size data).
Proof. intros Hu Hl. split; [rewrite zlen_ztake; lia|by apply Forall_take]. Qed.

Lemma decrypt_encrypt_chunks n : forall key iv data,
  is_block iv -> Forall is_u8 data -> block_size * Z.of_nat n <= zlen data ->
  let '(iv', ct) := encrypt_chunks n key iv data in
  zlen ct = zlen data /\ Forall is_u8 ct /\ is_block iv' /\
  decrypt_chunks n key iv ct = (iv', data).
Proof.
  induction n as [|n IH]; intros key iv data Hiv Hu Hl; cbn [encrypt_chunks decrypt_chunks]; [done|].
  assert (Hb : is_block (ztake block_size data)) by (apply first_block; [done|lia]).
  set (b := ztake block_size data) in *.
  set (c := encrypt_block key (xor_bytes b iv)).
  assert (Hc : is_block c) by (by apply Henc, xor_block).
  specialize (IH key c (zdrop block_size data) Hc).
  destruct (encrypt_chunks n key c (zdrop block_size data)) as [iv' ct].
  destruct IH as (Hz & Hcu & Hiv' & Hd); [by apply Forall_drop|rewrite zlen_zdrop; lia|].
  pose proof (proj1 Hc) as Hcl. rewrite zlen_zdrop in Hz. split; [rewrite zlen_app; lia|].
  split; [apply Forall_app; split; [apply Hc|done]|].
  split; [done|]. rewrite (ztake_app_exact _ c), (zdrop_app_exact _ c), Hd by done.
  unfold c at 1. rewrite Hinv by (by apply xor_block).
  rewrite xor_bytes_twice by (destruct Hb as [Hb _], Hiv as [Hi _]; unfold zlen in *; lia).
  by unfold b; rewrite ztake_zdrop.
Qed.

Lemma decrypt_chunks_take n m : forall key iv data,
  block_size * Z.of_nat (n + m) <= zlen data -> Forall is_u8 data -> is_block iv ->
  (decrypt_chunks n key iv (ztake (block_size * Z.of_nat n) data)).2 =
  ztake (block_size * Z.of_nat n) (decrypt_chunks (n + m) key iv data).2.
Proof.
  induction n as [|n IH]; intros key iv data Hl Hu Hiv; cbn [decrypt_chunks Nat.add].
  { by rewrite Z.mul_0_r. }
  assert (Hb : is_block (ztake block_size data)) by (apply first_block; [done|lia]).
  rewrite ztake_ztake. replace (Z.min block_size _) with block_size by lia.
  replace (block_size * Z.of_nat (S n)) with (block_size + block_size * Z.of_nat n) by lia.
  rewrite zdrop_ztake by lia.
  specialize (IH key (ztake block_size data) (zdrop block_size data)).
  destruct (decrypt_chunks n _ _ _) as [iv1 r1]. destruct (decrypt_chunks (n + m) _ _ _) as [iv2 r2].
  cbn [snd] in IH |- *. rewrite IH; [|rewrite zlen_zdrop; lia|by apply Forall_drop|done].
  set (p := xor_bytes _ _). assert (Hp : zlen p = block_size) by (by apply xor_block; [apply Hdec|]).
  rewrite ztake_app_ge by lia. do 2 f_equal. lia.
Qed.

Lemma decrypt_chunks_block n : forall key iv data,
  block_size * Z.of_nat n <= zlen data -> Forall is_u8 data -> is_block iv ->
  zlen (decrypt_chunks n key iv data).2 = zlen data /\
  Forall is_u8 (decrypt_chunks n key iv data).2 /\ is_block (decrypt_chunks n key iv data).1.
Proof.
  induction n as [|n IH]; intros key iv data Hl Hu Hiv; cbn [decrypt_chunks]; [done|].
  assert (Hb : is_block (ztake block_size data)) by (apply first_block; [done|lia]).
  specialize (IH key (ztake block_size data) (zdrop block_size data)).
  destruct (decrypt_chunks n _ _ _) as [iv1 r1]. cbn [fst snd] in IH |- *.
  destruct IH as (IHl & IHu & IHb); [rewrite zlen_zdrop; lia|by apply Forall_drop|done|].
  assert (Hp : is_block (xor_bytes (decrypt_block key (ztake block_size data)) iv))
    by (apply xor_block; [by apply Hdec|done]).
  rewrite zlen_app, (proj1 Hp), IHl, zlen_zdrop. split; [lia|]. split; [|done].
  apply Forall_app. split; [apply Hp|done].
Qed.

#[local] Existing Instance cbc_cipher.

Lemma cbc_cipher_sync : CipherSync CbcWrapper cbc_sync.
Proof.
  split. intros e d data (Hk & Hiv & Hb) Hu Hmod Hlen.
  assert (Hn : block_size * Z.of_nat (chunks data) <= zlen data).
  { unfold chunks. rewrite Z2Nat.id by (destruct Hbs as [->| ->]; dlia).
    apply Z.mul_div_le. lia. }
  pose proof (decrypt_encrypt_chunks (chunks data) e.(cbc_key) e.(enc_iv) data Hb Hu Hn) as Hde.
  cbn [encrypt_data decrypt_data decrypt_packet_length_block cbc_cipher].
  unfold cbc_encrypt_data, cbc_decrypt_data, cbc_decrypt_packet_length_block, decrypt_inner.
  destruct (encrypt_chunks _ _ _ _) as [iv ct]. destruct Hde as (Hz & Hcu & Hiv' & Hd).
  rewrite Hk, Hiv in Hd. rewrite Hiv in Hb.
  assert (Hcc : chunks ct = chunks data) by (unfold chunks; by rewrite Hz).
  do 3 eexists. split; [done|]. split; [done|].
  rewrite Hcc, Hd. split; [done|]. split; [done|].
  set (n := Z.to_nat (16 / block_size)).
  assert (H16 : 16 = block_size * Z.of_nat n) by (subst n; destruct Hbs as [->| ->]; done).
  assert (Hle : (n <= chunks data)%nat).
  { subst n. unfold chunks. apply Z2Nat.inj_le; [by destruct Hbs as [->| ->]| |].
    - destruct Hbs as [->| ->]; dlia.
    - apply Z.div_le_mono; lia. }
  replace (chunks (ztake 16 ct)) with n
    by (unfold chunks; rewrite zlen_ztake; subst n; do 2 f_equal; lia).
  rewrite H16, (decrypt_chunks_take n (chunks data - n)) by (done || lia).
  replace (n + (chunks data - n))%nat with (chunks data) by lia. by rewrite Hd.
Qed.

Lemma decrypt_inner_block d data :
  is_block d.(dec_iv) -> Forall is_u8 data ->
  zlen (decrypt_inner d data).2 = zlen data /\ Forall is_u8 (decrypt_inner d data).2 /\
  is_block (decrypt_inner d data).1.
Proof.
  intros Hb Hu. apply decrypt_chunks_block; [|done..].
  pose proof (zlen_nonneg data). unfold chunks.
  rewrite Z2Nat.id by (destruct Hbs as [->| ->]; dlia). apply Z.mul_div_le. lia.
Qed.

(** The chaining block stays a block, whatever is decrypted. *)
Lemma cbc_safe : CipherSafe CbcWrapper (fun c => is_block c.(dec_iv)).
Proof.
  split; cbn [decrypt_data decrypt_packet_length_block cbc_cipher]; intros d b Hd Hb;
    destruct (decrypt_inner_block d b Hd Hb) as (H1 & H2 & H3); [|done].
  unfold cbc_decrypt_data. by destruct (decrypt_inner d b).
Qed.
End Cbc.
End Cbc.

(** ** AEAD ciphers *)

(** The padding rule shared by [gcm.rs] (16-byte blocks) and
    [chacha20poly1305.rs] (8-byte blocks). *)
Definition aead_padding_length (block_size : Z) (payload : bytes) : Z :=
  let extra_len := PACKET_LENGTH_LEN + PADDING_LENGTH_LEN in
  let padding_len :=
    if zlen payload + extra_len <=? MINIMUM_PACKET_LEN
    then MINIMUM_PACKET_LEN - zlen payload - PADDING_LENGTH_LEN
    else block_size - ((PADDING_LENGTH_LEN + zlen payload) mod block_size) in
  if padding_len <? PACKET_LENGTH_LEN then padding_len + block_size else padding_len.

Lemma aead_padding_spec block_size payload :
  block_size = 8 \/ block_size = 16 ->
  4 <= aead_padding_length block_size payload <= 19 /\
  (1 + zlen payload + aead_padding_length block_size payload) mod block_size = 0 /\
  12 <= 1 + zlen payload + aead_padding_length block_size payload.
Proof.
  intros Hb. unfold aead_padding_length, PACKET_LENGTH_LEN, PADDING_LENGTH_LEN, MINIMUM_PACKET_LEN.
  pose proof (zlen_nonneg payload).
  destruct (Z.leb_spec (zlen payload + (4 + 1)) 16), Hb as [->| ->];
    match goal with |- context [?x <? 4] => destruct (Z.ltb_spec x 4) end; dlia.
Qed.

(** *** [cipher/chacha20poly1305.rs] *)
Module ChaCha.
Section ChaCha.
(** [chacha20_poly1305_openssh]: [cc_seal key seqn packet] is the ciphertext
    and tag; [cc_length key seqn b] the decrypted packet length;
    [cc_open key seqn ciphertext tag] the packet length bytes as left in the
    buffer, and the plaintext slice. *)
Context (cc_seal : bytes -> Z -> bytes -> bytes * bytes).
Context (cc_length : bytes -> Z -> bytes -> bytes).
Context (cc_open : bytes -> Z -> bytes -> bytes -> option (bytes * bytes)).
Definition TAG_LEN : Z := 16.

Record ChaChaKey : Type := mkChaCha { cc_key : bytes }.

Definition chacha_seal (k : ChaChaKey) (sequence_number : Z) (plaintext : bytes)
  : option (ChaChaKey * bytes * bytes) :=
  let '(ciphertext, tag) := cc_seal k.(cc_key) sequence_number plaintext in
  Some (k, ciphertext, tag).

Definition chacha_open (k : ChaChaKey) (sequence_number : Z) (ciphertext_and_tag : bytes)
  : Result (ChaChaKey * bytes * bytes) :=
  let ciphertext_len := zlen ciphertext_and_tag - TAG_LEN in
  if ciphertext_len <? 0 then Panic else
  let ciphertext := ztake ciphertext_len ciphertext_and_tag in
  let tag := zdrop ciphertext_len ciphertext_and_tag in
  match cc_open k.(cc_key) sequence_number ciphertext tag with
  | Some (length_bytes, plaintext) => Ok (k, length_bytes ++ plaintext ++ tag, plaintext)
  | None => Err Error.DecryptionError
  end.

#[global] Instance chacha_sealing : SealingKey ChaChaKey := {|
  padding_length _ := aead_padding_length 8;
  fill_padding _ _ n := replicate (Z.to_nat n) 0;
  seal_tag_len _ := TAG_LEN;
  seal := chacha_seal;
|}.

#[global] Instance chacha_opening : OpeningKey ChaChaKey := {|
  packet_length_to_read_for_block_length _ := 4;
  decrypt_packet_length k := cc_length k.(cc_key);
  open_tag_len _ := TAG_LEN;
  open := chacha_open;
|}.

#[global] Instance chacha_sealing_laws : SealingKeyLaws ChaChaKey.
Proof.
  split; cbn.
  - intros k p. destruct (aead_padding_spec 8 p) as [? _]; [by left|]. unfold MAXIMUM_PADDING_LEN. lia.
  - intros k rng _ n Hn. by apply Clear.zeros_fill.
  - done.
Qed.

Context (Hseal : forall k n p, zlen (cc_seal k n p).1 = zlen p /\ zlen (cc_seal k n p).2 = TAG_LEN).
Context (Hlength : forall k n p, 4 <= zlen p ->
  cc_length k n (ztake 4 (cc_seal k n p).1) = ztake 4 p).
Context (Hopen : forall k n p, 4 <= zlen p ->
  exists l, zlen l = 4 /\
    cc_open k n (cc_seal k n p).1 (cc_seal k n p).2 = Some (l, zdrop 4 p)).

Lemma chacha_in_sync : InSync ChaChaKey ChaChaKey eq.
Proof.
  split; cbn [seal_tag_len open_tag_len packet_length_to_read_for_block_length padding_length
    seal open decrypt_packet_length chacha_sealing chacha_opening].
  - done.
  - intros s o payload _. destruct (aead_padding_spec 8 payload) as (? & _ & ?); [by left|].
    pose proof (zlen_nonneg payload). unfold TAG_LEN. lia.
  - intros s o n payload pad <- Hpad _ _ _. unfold chacha_seal, chacha_open.
    pose proof (zlen_plain_packet s payload pad Hpad) as Hz.
    set (p := plain_packet s payload pad) in *.
    assert (Hp : 4 <= zlen p) by (subst p; unfold plain_packet; rewrite zlen_app;
      pose proof (zlen_nonneg (padding_length s payload :: payload ++ pad)); rewrite zlen_be32; lia).
    destruct (Hseal s.(cc_key) n p) as [Hc Ht]. specialize (Hlength s.(cc_key) n p Hp).
    destruct (Hopen s.(cc_key) n p Hp) as (l & Hl & Ho).
    destruct (cc_seal s.(cc_key) n p) as [ct tag]. cbn [fst snd] in *.
    exists s, ct, tag, s, l, tag. split; [done|]. split; [by rewrite Hc|]. split; [done|].
    split; [|split; [done|split; [|done]]].
    + rewrite ztake_app_le, Hlength by lia. subst p. unfold plain_packet. by rewrite ztake_app_exact.
    + rewrite zlen_app, Ht. replace (zlen ct + TAG_LEN - TAG_LEN) with (zlen ct) by lia.
      replace (zlen ct <? 0) with false by (symmetry; apply Z.ltb_ge; lia).
      rewrite ztake_app_exact, zdrop_app_exact, Ho by done.
      subst p. unfold plain_packet. by rewrite zdrop_app_exact.
Qed.

Context (Hlength8 : forall k n b, zlen b = 4 -> Forall is_u8 b ->
  zlen (cc_length k n b) = 4 /\ Forall is_u8 (cc_length k n b)).
Context (Hopen8 : forall k n c t l p, cc_open k n c t = Some (l, p) -> 4 <= zlen c -> Forall is_u8 c ->
  zlen p <= zlen c - 4 /\ Forall is_u8 p).

Lemma chacha_safe : OpeningKeySafe ChaChaKey (fun _ => True).
Proof.
  split; cbn [open_tag_len packet_length_to_read_for_block_length open decrypt_packet_length chacha_opening].
  - done.
  - done.
  - intros k n l _. apply Hlength8.
  - intros k n buf _ Hb. unfold chacha_open. unfold TAG_LEN in *.
    replace (zlen buf - 16 <? 0) with false by (symmetry; apply Z.ltb_ge; lia). by repeat case_match.
  - intros k n buf k' buf' p _ Hb Ho Hu. unfold chacha_open in Ho.
    destruct (Z.ltb_spec (zlen buf - TAG_LEN) 0); [done|].
    destruct (cc_open _ _ _ _) as [[l q]|] eqn:E; [|done]. simplify_eq. split; [|done].
    apply Hopen8 in E as [Hl Hq]; [|rewrite zlen_ztake; unfold TAG_LEN in *; lia|by apply Forall_take]. split; [|done].
    rewrite zlen_ztake in Hl. lia.
Qed.
End ChaCha.
End ChaCha.

(** *** [cipher/gcm.rs] *)
Module Gcm.
Definition NONCE_LEN : Z := 12.

(** The loop of [Nonce::advance], from the last byte to the first: [rev] gives
    the bytes in that order, [carry] is a [u16]. *)
Fixpoint add_carry (rev_nonce : bytes) (carry : Z) : bytes :=
  match rev_nonce with
  | [] => []
  | b :: rest => let n := b + carry in n mod 256 :: add_carry rest (Z.shiftr n 8)
  end.

(** [Nonce::advance]: returns the nonce to use and moves to the next one. *)
Definition advance (nonce : bytes) : bytes * bytes := (nonce, rev (add_carry (rev nonce) 1)).

(** The nonce as a number. *)
Fixpoint le_value (rev_nonce : bytes) : Z :=
  match rev_nonce with
  | [] => 0
  | b :: rest => b + 256 * le_value rest
  end.
Definition nonce_value (nonce : bytes) : Z := le_value (rev nonce).

(** The nonce of the [n]-th packet (from 0) after a key exchange. *)
Fixpoint nonce_at (n : nat) (nonce : bytes) : bytes :=
  match n with O => nonce | S n' => nonce_at n' (advance nonce).2 end.

Lemma length_add_carry l c : length (add_carry l c) = length l.
Proof. revert c. induction l as [|b l IH]; intros c; cbn; [done|]. by rewrite IH. Qed.

Lemma add_carry_u8 l c : Forall is_u8 (add_carry l c).
Proof.
  revert c. induction l as [|b l IH]; intros c; cbn; constructor; [|done]. unfold is_u8. dlia.
Qed.

Lemma le_value_range l : Forall is_u8 l -> 0 <= le_value l < 256 ^ zlen l.
Proof.
  induction 1 as [|b l Hb Hl IH]; cbn [le_value]; [done|]. unfold is_u8 in Hb.
  rewrite zlen_cons, Z.pow_add_r by (pose proof (zlen_nonneg l); lia). lia.
Qed.

Lemma le_value_add_carry l c :
  Forall is_u8 l -> le_value (add_carry l c) = (le_value l + c) mod 256 ^ zlen l.
Proof.
  intros Hl. revert c. induction Hl as [|b l Hb Hl IH]; intros c; cbn [add_carry le_value].
  { by rewrite Z.mod_1_r. }
  rewrite IH, Z.shiftr_div_pow2 by done. change (2 ^ 8) with 256.
  rewrite zlen_cons, Z.pow_add_r by (pose proof (zlen_nonneg l); lia). change (256 ^ 1) with 256.
  assert (0 < 256 ^ zlen l) by (apply Z.pow_pos_nonneg; [lia|apply zlen_nonneg]).
  rewrite Z.rem_mul_r by lia.
  replace (b + 256 * le_value l + c) with ((b + c) + le_value l * 256) by lia.
  rewrite Z.mod_add, Z.div_add by lia. do 3 f_equal. lia.
Qed.

Lemma advance_ok nonce :
  Forall is_u8 nonce ->
  Forall is_u8 (advance nonce).2 /\ zlen (advance nonce).2 = zlen nonce /\
  nonce_value (advance nonce).2 = (nonce_value nonce + 1) mod 256 ^ zlen nonce.
Proof.
  intros Hn. unfold advance, nonce_value. cbn [snd]. rewrite rev_involutive. split; [|split].
  - apply Forall_rev, add_carry_u8.
  - unfold zlen. by rewrite length_rev, length_add_carry, length_rev.
  - rewrite le_value_add_carry by (by apply Forall_rev).
    unfold zlen. by rewrite length_rev.
Qed.

Lemma nonce_at_value n : forall nonce,
  Forall is_u8 nonce ->
  nonce_value (nonce_at n nonce) = (nonce_value nonce + Z.of_nat n) mod 256 ^ zlen nonce.
Proof.
  induction n as [|n IH]; intros nonce Hn; cbn [nonce_at].
  - rewrite Z.add_0_r. unfold nonce_value. symmetry. apply Z.mod_small.
    replace (zlen nonce) with (zlen (rev nonce)) by (unfold zlen; by rewrite length_rev).
    apply le_value_range. by apply Forall_rev.
  - destruct (advance_ok nonce Hn) as (Hu & Hl & Hv). rewrite IH, Hl, Hv by done.
    rewrite Z.add_mod_idemp_l by (apply Z.pow_nonzero; [lia|apply zlen_nonneg]). f_equal. lia.
Qed.

Section Gcm.
(** The AEAD of [aws-lc-rs] or [ring]: [aead_seal key nonce aad p] is the
    ciphertext and tag, [aead_open key nonce aad c] the plaintext and the bytes
    it leaves after it in the buffer. *)
Context (aead_seal : bytes -> bytes -> bytes -> bytes -> option (bytes * bytes)).
Context (aead_open : bytes -> bytes -> bytes -> bytes -> option (bytes * bytes)).
Context (TAG_LEN : Z).

Record GcmKey : Type := mkGcm { gcm_key : bytes; nonce : bytes }.

Definition gcm_seal (k : GcmKey) (sequence_number : Z) (plaintext : bytes)
  : option (GcmKey * bytes * bytes) :=
  if zlen plaintext <? PACKET_LENGTH_LEN then None else
  let packet_length := ztake PACKET_LENGTH_LEN plaintext in
  let '(used, next) := advance k.(nonce) in
  match aead_seal k.(gcm_key) used packet_length (zdrop PACKET_LENGTH_LEN plaintext) with
  | Some (ciphertext, tag) =>
      Some (mkGcm k.(gcm_key) next, packet_length ++ ciphertext, tag)
  | None => None
  end.

Definition gcm_open (k : GcmKey) (sequence_number : Z) (ciphertext_and_tag : bytes)
  : Result (GcmKey * bytes * bytes) :=
  if zlen ciphertext_and_tag <? PACKET_LENGTH_LEN then Panic else
  let packet_length := ztake PACKET_LENGTH_LEN ciphertext_and_tag in
  let '(used, next) := advance k.(nonce) in
  match aead_open k.(gcm_key) used packet_length (zdrop PACKET_LENGTH_LEN ciphertext_and_tag) with
  | Some (buf, rest) => Ok (mkGcm k.(gcm_key) next, packet_length ++ buf ++ rest, buf)
  | None => Err Error.DecryptionError
  end.

#[global] Instance gcm_sealing : SealingKey GcmKey := {|
  padding_length _ := aead_padding_length 16;
  fill_padding _ rng n := rng n;
  seal_tag_len _ := TAG_LEN;
  seal := gcm_seal;
|}.

#[global] Instance gcm_opening : OpeningKey GcmKey := {|
  packet_length_to_read_for_block_length _ := 4;
  decrypt_packet_length _ _ encrypted_packet_length := encrypted_packet_length;
  open_tag_len _ := TAG_LEN;
  open := gcm_open;
|}.

Context (Htag : 0 <= TAG_LEN).

Lemma gcm_sealing_laws : SealingKeyLaws GcmKey.
Proof.
  split; cbn.
  - intros k p. destruct (aead_padding_spec 16 p) as [? _]; [by right|]. unfold MAXIMUM_PADDING_LEN. lia.
  - by intros k rng.
  - done.
Qed.
#[local] Existing Instance gcm_sealing_laws.

(** Packets of SSH size are within what the AEAD seals. *)
Context (Hseal : forall k n aad p, zlen p <= MAXIMUM_PACKET_LEN ->
  exists ct tag rest, aead_seal k n aad p = Some (ct, tag) /\ zlen ct = zlen p /\ zlen tag = TAG_LEN /\
    aead_open k n aad (ct ++ tag) = Some (p, rest)).

Lemma gcm_in_sync : InSync GcmKey GcmKey eq.
Proof.
  split; cbn [seal_tag_len open_tag_len packet_length_to_read_for_block_length padding_length
    seal open decrypt_packet_length gcm_sealing gcm_opening].
  - done.
  - intros s o payload _. destruct (aead_padding_spec 16 payload) as (? & _ & ?); [by right|].
    pose proof (zlen_nonneg payload). lia.
  - intros s o n payload pad <- Hpad _ _ Hfit. unfold plain_packet. cbn [padding_length gcm_sealing].
    set (hdr := be32 _). set (body := _ :: payload ++ pad). assert (Hh : zlen hdr = 4) by done.
    assert (Hb : zlen body = 1 + zlen payload + aead_padding_length 16 payload) by (subst body; zlia).
    pose proof (zlen_nonneg body). unfold gcm_seal, gcm_open, PACKET_LENGTH_LEN.
    destruct (advance s.(nonce)) as [used next].
    destruct (Hseal s.(gcm_key) used hdr body) as (ct & tag & rest & Hs & Hct & Htl & Ho); [lia|].
    replace (zlen (hdr ++ body) <? 4) with false by (symmetry; apply Z.ltb_ge; zlia).
    rewrite ztake_app_exact, zdrop_app_exact, Hs by done.
    eexists _, (hdr ++ ct), tag, _, hdr, rest. split; [done|].
    split; [zlia|]. split; [done|].
    split; [by rewrite <- app_assoc, ztake_app_exact|]. split; [done|]. split; [|done].
    replace (zlen ((hdr ++ ct) ++ tag) <? 4) with false by (symmetry; apply Z.ltb_ge; zlia).
    rewrite <- app_assoc, ztake_app_exact, zdrop_app_exact, Ho by done. done.
Qed.

Context (Hopen8 : forall k n aad c p rest, aead_open k n aad c = Some (p, rest) -> TAG_LEN <= zlen c -> Forall is_u8 c ->
  zlen p <= zlen c - TAG_LEN /\ Forall is_u8 p).

Lemma gcm_safe : OpeningKeySafe GcmKey (fun _ => True).
Proof.
  split; cbn [open_tag_len packet_length_to_read_for_block_length open decrypt_packet_length gcm_opening].
  - done.
  - done.
  - done.
  - intros k n buf _ Hb. unfold gcm_open, PACKET_LENGTH_LEN.
    replace (zlen buf <? 4) with false by (symmetry; apply Z.ltb_ge; lia).
    destruct (advance k.(nonce)). by repeat case_match.
  - intros k n buf k' buf' p _ Hb Ho Hu. unfold gcm_open, PACKET_LENGTH_LEN in Ho.
    destruct (Z.ltb_spec (zlen buf) 4); [done|]. destruct (advance k.(nonce)) as [used next].
    destruct (aead_open _ _ _ _) as [[q rest]|] eqn:E; [|done]. simplify_eq. split; [|done].
    apply Hopen8 in E as [Hl Hq]; [|rewrite zlen_zdrop; lia|by apply Forall_drop]. split; [|done].
    rewrite zlen_zdrop in Hl. lia.
Qed.
End Gcm.
End Gcm.

(** ** Properties *)

(** Padding of RFC 4253 section 6: for every cipher and MAC mode, between 4
    and 19 bytes of padding are added, and what is encrypted (the whole packet,
    or all but the packet length where that travels in clear) is a multiple of
    the block size and at least 12 bytes long. *)
Theorem padding_rfc4253 {C M} `{BlockStreamCipher C, HM : Mac M, !MacLaws M}
    (k : Block.BlockKey C M) payload :
  (let p := Block.block_padding_length k payload in
   let clear := if is_etm k.(Block.mac) then 4 else 0 in
   4 <= p <= 19 /\ (5 + zlen payload + p - clear) mod 16 = 0 /\ 12 <= 5 + zlen payload + p - clear) /\
  (let p := Clear.clear_padding_length Clear.mkKey payload in
   4 <= p <= 19 /\ (5 + zlen payload + p) mod 8 = 0) /\
  (forall block_size, block_size = 8 \/ block_size = 16 ->
   let p := aead_padding_length block_size payload in
   4 <= p <= 19 /\ (1 + zlen payload + p) mod block_size = 0 /\ 12 <= 1 + zlen payload + p).
Proof.
  cbv zeta. split; [|split].
  - destruct (Block.block_padding_spec k payload) as (Hr & Ha & Hm). split; [done|].
    destruct (is_etm k.(Block.mac)).
    + replace (5 + _ + _ - 4) with (0 + 1 + zlen payload + Block.block_padding_length k payload) by lia.
      split; [done|lia].
    + replace (5 + _ + _ - 0) with (4 + 1 + zlen payload + Block.block_padding_length k payload) by lia.
      split; [done|lia].
  - destruct (Clear.clear_padding_spec Clear.mkKey payload). split; [lia|done].
  - intros bs Hb. by apply aead_padding_spec.
Qed.

(** A packet that a block cipher key opens carries the MAC of its sequence
    number and contents. *)
Definition authentic {C M} `{BlockStreamCipher C, Mac M} (k : Block.BlockKey C M) (n : Z)
    (buf : bytes) : Prop :=
  let ciphertext := ztake (zlen buf - mac_len k.(Block.mac)) buf in
  let tag := zdrop (zlen buf - mac_len k.(Block.mac)) buf in
  verify k.(Block.mac) n
    (if is_etm k.(Block.mac) then ciphertext else (decrypt_data k.(Block.cipher) ciphertext).2) tag = true.

(** C36. Authentication before use: [OpeningKey::open] of the block ciphers hands
    out a plaintext only if the MAC verified, over the ciphertext and before
    any decryption for encrypt-then-MAC algorithms, over the decrypted packet
    otherwise; a packet that does not verify is refused with [PacketAuth]. *)
Theorem block_open_authentic {C M} `{BlockStreamCipher C, Mac M} (k : Block.BlockKey C M) n buf :
  4 + mac_len k.(Block.mac) <= zlen buf ->
  (authentic k n buf /\ exists k' buf' p, Block.block_open k n buf = Ok (k', buf', p)) \/
  (~ authentic k n buf /\ Block.block_open k n buf = Err Error.PacketAuth).
Proof.
  intros Hb. unfold authentic, Block.block_open, PACKET_LENGTH_LEN.
  replace (zlen buf - mac_len k.(Block.mac) <? 0) with false by (symmetry; apply Z.ltb_ge; lia).
  replace (zlen buf - mac_len k.(Block.mac) <? 4) with false by (symmetry; apply Z.ltb_ge; lia).
  destruct (is_etm k.(Block.mac)).
  - destruct (verify _ _ _ _); [left; split; [done|]|by right].
    destruct (decrypt_data _ _). eauto.
  - destruct (decrypt_data _ _) as [c p]. cbn [snd]. destruct (verify _ _ _ _); [left; eauto|by right].
Qed.

Module GcmNonces.
Section GcmNonces.
Context (aead_seal : bytes -> bytes -> bytes -> bytes -> option (bytes * bytes)).

(** The key after a run of packets (each with its sequence number). *)
Fixpoint gcm_seal_all (k : Gcm.GcmKey) (ps : list (Z * bytes)) : option Gcm.GcmKey :=
  match ps with
  | [] => Some k
  | (n, p) :: ps' =>
      match Gcm.gcm_seal aead_seal k n p with
      | Some (k', _, _) => gcm_seal_all k' ps'
      | None => None
      end
  end.

Lemma gcm_seal_all_nonce ps : forall k k',
  gcm_seal_all k ps = Some k' ->
  k'.(Gcm.nonce) = Gcm.nonce_at (length ps) k.(Gcm.nonce).
Proof.
  induction ps as [|[n p] ps IH]; intros k k' H; cbn [gcm_seal_all length Gcm.nonce_at] in *.
  { by simplify_eq. }
  destruct (Gcm.gcm_seal aead_seal k n p) as [[[k1 ?] ?]|] eqn:E; [|done].
  apply IH in H. rewrite H. f_equal. unfold Gcm.gcm_seal in E. case_match; [done|].
  destruct (Gcm.advance k.(Gcm.nonce)) as [u nx]. cbn [snd].
  destruct (aead_seal _ _ _ _) as [[? ?]|]; by simplify_eq.
Qed.

(** C37. AES-GCM never reuses a nonce: the nonces with which [SealingKey::seal]
    calls the AEAD for any two packets under one key are different, as long as
    fewer than 2^96 packets are sealed under it (rekeying happens long
    before), whatever the initial nonce; the carry of [Nonce::advance]
    propagates through all twelve bytes. *)
Theorem gcm_nonces_distinct k ps qs kp kq :
  Forall is_u8 k.(Gcm.nonce) -> zlen k.(Gcm.nonce) = Gcm.NONCE_LEN ->
  gcm_seal_all k ps = Some kp -> gcm_seal_all k qs = Some kq ->
  (length ps < length qs)%nat -> Z.of_nat (length qs) < 2 ^ 96 ->
  kp.(Gcm.nonce) <> kq.(Gcm.nonce).
Proof.
  intros Hu Hl Hp Hq Hlt Hlim Heq. apply gcm_seal_all_nonce in Hp, Hq.
  rewrite Hp, Hq in Heq. apply (f_equal Gcm.nonce_value) in Heq.
  rewrite !Gcm.nonce_at_value, Hl in Heq by done.
  change (256 ^ Gcm.NONCE_LEN) with 79228162514264337593543950336 in Heq.
  change (2 ^ 96) with 79228162514264337593543950336 in Hlim. dlia.
Qed.
End GcmNonces.

Lemma gcm_nonces_distinct_witness :
  [1;2;3;4;5;6;7;8;9;10;11;255] <> [1;2;3;4;5;6;7;8;9;10;12;0].
Proof.
  pose (aead := fun k n a p : bytes => Some (p, replicate 16 0)).
  pose (k := Gcm.mkGcm [] [1;2;3;4;5;6;7;8;9;10;11;255]).
  apply (gcm_nonces_distinct aead k [] [(0, [0;0;0;5;4;0;0;0;0])] k
           (Gcm.mkGcm [] [1;2;3;4;5;6;7;8;9;10;12;0])); try reflexivity.
  - subst k. cbn [Gcm.nonce]. rewrite !Forall_cons_iff. unfold is_u8. repeat split; lia || constructor.
  - cbn. lia.
Defined.
End GcmNonces.

(** ** The contracts are inhabited: AES-CTR with an encrypt-then-MAC HMAC *)
Module Example.
Definition ks (key iv : bytes) (p : Z) : Z := (7 * p + 3) mod 256.
Definition hmac (key data : bytes) : bytes :=
  ztake 20 (vec_resize 20 5 data).
#[global] Instance cipher : BlockStreamCipher Ctr.CtrWrapper := Ctr.ctr_cipher ks.
#[global] Instance mac : Mac Macs.CryptoEtmMac := Macs.crypto_etm_mac hmac 20.
Lemma hmac_len k d : zlen (hmac k d) = 20.
Proof. unfold hmac. rewrite zlen_ztake, zlen_vec_resize; lia. Qed.
#[global] Instance mac_laws : MacLaws Macs.CryptoEtmMac.
Proof. apply Macs.crypto_etm_mac_laws; [lia|apply hmac_len]. Qed.
#[global] Instance cipher_sync : CipherSync Ctr.CtrWrapper eq := Ctr.ctr_sync ks.
#[global] Instance cipher_safe : CipherSafe Ctr.CtrWrapper (fun _ => True).
Proof. apply Ctr.ctr_safe. intros. unfold ks, is_u8. dlia. Qed.

Abbreviation key := (Block.BlockKey Ctr.CtrWrapper Macs.CryptoEtmMac).
Definition k0 : key :=
  Block.mkBlockKey (Ctr.ctr_new [1] [2]) (Macs.mkCryptoEtmMac (Macs.mkCryptoMac [9])).

Definition zeros (n : Z) : bytes := replicate (Z.to_nat n) 0.
Lemma zeros_fills : fills zeros.
Proof. intros m Hm. by apply Clear.zeros_fill. Qed.

Lemma packets_roundtrip_witness :
  exists (s' o' : key) wire wb' rb',
    write_all k0 [([94; 1; 2], zeros); ([21], zeros)] SSHBuffer_new = Some (s', wb') /\
    wb'.(buffer) = [] ++ wire /\
    read_all 2 (wire ++ [7]) SSHBuffer_new k0 = Ok ([[94; 1; 2]; [21]], rb', o', [7]) /\
    Block.block_sync eq s' o' /\ rb'.(len) = 0 /\ rb'.(seqn) = wb'.(seqn).
Proof.
  apply (packets_roundtrip (Block.block_sync eq) [([94; 1; 2], zeros); ([21], zeros)]
           k0 k0 SSHBuffer_new SSHBuffer_new [7]); try reflexivity; [done|].
  repeat constructor; try apply zeros_fills; cbn; unfold is_u8, MAX_CHANNEL_PAYLOAD; try lia;
    done.
Defined.

Lemma finish_packet_is_write_witness :
  finish_packet k0 zeros 2 3 (mkSSHBuffer ([7; 7] ++ [0; 0; 0; 0; 0] ++ [94; 1; 2]) 0 0 4) =
  write k0 zeros [94; 1; 2] (mkSSHBuffer [7; 7] 0 0 4).
Proof.
  apply (finish_packet_is_write k0 zeros [7; 7] [0; 0; 0; 0; 0] [94; 1; 2]
    (mkSSHBuffer ([7; 7] ++ [0; 0; 0; 0; 0] ++ [94; 1; 2]) 0 0 4)); [apply zeros_fills|reflexivity..].
Defined.

Lemma block_open_authentic_witness :
  let buf := zeros 40 in
  (authentic k0 0 buf /\ exists k' buf' p, Block.block_open k0 0 buf = Ok (k', buf', p)) \/
  (~ authentic k0 0 buf /\ Block.block_open k0 0 buf = Err Error.PacketAuth).
Proof. apply (block_open_authentic k0 0 (zeros 40)). vm_compute. discriminate. Defined.
Lemma padding_rfc4253_witness :
  (let p := Block.block_padding_length k0 [94; 1; 2] in
   let clear := if is_etm k0.(Block.mac) then 4 else 0 in
   4 <= p <= 19 /\ (5 + zlen [94; 1; 2] + p - clear) mod 16 = 0 /\ 12 <= 5 + zlen [94; 1; 2] + p - clear) /\
  (let p := Clear.clear_padding_length Clear.mkKey [94; 1; 2] in
   4 <= p <= 19 /\ (5 + zlen [94; 1; 2] + p) mod 8 = 0) /\
  (forall block_size, block_size = 8 \/ block_size = 16 ->
   let p := aead_padding_length block_size [94; 1; 2] in
   4 <= p <= 19 /\ (1 + zlen [94; 1; 2] + p) mod block_size = 0 /\ 12 <= 1 + zlen [94; 1; 2] + p).
Proof. apply (padding_rfc4253 k0 [94; 1; 2]). Defined.
End Example.
