(* ===== verification/NameList.v ===== *)
(** * Name lists and bounded strings ([russh/src/helpers.rs])

    [LimitedString] is a string whose length is checked before it is copied;
    [NameList] is the comma-separated list of RFC 4251 section 5, with a bound on
    its bytes and entries. *)

From stdpp Require Import base list numbers option strings.
From Stdlib Require Import ZArith Lia.
From S2P Require Import Prelude Encoding.

Section LimitedString.
Context `{SshEncoding}.

(** [LimitedString::<N>::decode]. *)
Definition LimitedString_decode (N : Z) (reader : bytes) : res EncError (bytes * bytes) :=
  let? (buf, rest) := read_prefixed reader in
  if N <? zlen buf then Err Length
  else if is_utf8 buf then Ok (buf, rest) else Err CharacterEncoding.
End LimitedString.

Module NameList.
Definition MAX_NAME_LIST_ENTRIES : Z := 1024.
Definition MAX_NAME_LIST_BYTES : Z := 16 * 1024.
Definition COMMA : Z := 44.

(** [str::split(',')]. *)
Fixpoint split_commas (s : bytes) : list bytes :=
  match s with
  | [] => [[]]
  | x :: s' =>
      if x =? COMMA then [] :: split_commas s'
      else match split_commas s' with
      | w :: ws => (x :: w) :: ws
      | [] => [[x]]
      end
  end.

(** [[String]::join(",")]. *)
Fixpoint join_commas (l : list bytes) : bytes :=
  match l with
  | [] => []
  | [w] => w
  | w :: ws => w ++ COMMA :: join_commas ws
  end.

Definition as_encoded_string (l : list bytes) : bytes := join_commas l.

(** The closure of [try_fold]. *)
Definition push_name (acc : list bytes) (name : bytes) : res EncError (list bytes) :=
  if beq name [] || negb (is_ascii name) then Err CharacterEncoding
  else if MAX_NAME_LIST_ENTRIES <? zlen acc then Err Length
  else Ok (acc ++ [name]).

Fixpoint try_fold (acc : list bytes) (names : list bytes) : res EncError (list bytes) :=
  match names with
  | [] => Ok acc
  | n :: ns => let? acc' := push_name acc n in try_fold acc' ns
  end.

Definition from_encoded_string (value : bytes) : res EncError (list bytes) :=
  if beq value [] then Ok [] else try_fold [] (split_commas value).

Section Codec.
Context `{SshEncoding}.

Definition encode (l : list bytes) : writer EncError := encode_bytes (as_encoded_string l).

Definition decode (reader : bytes) : res EncError (list bytes * bytes) :=
  let? (s, rest) := LimitedString_decode MAX_NAME_LIST_BYTES reader in
  let? l := from_encoded_string s in
  Ok (l, rest).
End Codec.

(** ** Splitting and joining *)

(** What RFC 4251 asks of a name, and the length that is accepted. *)
Definition valid_name (n : bytes) : Prop := n <> [] /\ is_ascii n = true /\ COMMA ∉ n.
Definition valid_list (l : list bytes) : Prop :=
  Forall valid_name l /\ zlen l <= MAX_NAME_LIST_ENTRIES + 1.

Lemma split_commas_nonempty s : split_commas s <> [].
Proof. destruct s as [|x s]; cbn; [done|]. by repeat case_match. Qed.

Lemma join_split s : join_commas (split_commas s) = s.
Proof.
  induction s as [|x s IH]; cbn [split_commas]; [done|].
  pose proof (split_commas_nonempty s). destruct (split_commas s) as [|w ws]; [done|].
  destruct (Z.eqb_spec x COMMA) as [->|].
  - cbn [join_commas app] in *. by rewrite IH.
  - destruct ws; cbn [join_commas app] in *; by rewrite IH.
Qed.

Lemma split_no_comma s : Forall (fun w => COMMA ∉ w) (split_commas s).
Proof.
  induction s as [|x s IH]; cbn [split_commas]; [repeat constructor; by intros ?%elem_of_nil|].
  destruct (Z.eqb_spec x COMMA) as [->|Hx].
  - constructor; [by intros ?%elem_of_nil|done].
  - destruct (split_commas s) as [|w ws].
    + repeat constructor. rewrite list_elem_of_singleton. congruence.
    + apply Forall_cons_iff in IH as [Hw Hws]. constructor; [|done].
      rewrite elem_of_cons. intros [|]; congruence.
Qed.

Lemma split_app_comma w s :
  COMMA ∉ w -> split_commas (w ++ COMMA :: s) = w :: split_commas s.
Proof.
  induction w as [|x w IH]; intros Hw; cbn [app split_commas]; [done|].
  apply not_elem_of_cons in Hw as [Hx Hw]. rewrite IH by done.
  destruct (Z.eqb_spec x COMMA); congruence.
Qed.

Lemma split_single w : COMMA ∉ w -> split_commas w = [w].
Proof.
  induction w as [|x w IH]; intros Hw; cbn [split_commas]; [done|].
  apply not_elem_of_cons in Hw as [Hx Hw]. rewrite IH by done.
  destruct (Z.eqb_spec x COMMA); congruence.
Qed.

Lemma split_join l : l <> [] -> Forall (fun w => COMMA ∉ w) l -> split_commas (join_commas l) = l.
Proof.
  induction l as [|w l IH]; intros Hl Hc; [done|]. apply Forall_cons_iff in Hc as [Hw Hc].
  destruct l as [|w' l]; [by apply split_single|].
  change (join_commas (w :: w' :: l)) with (w ++ COMMA :: join_commas (w' :: l)).
  by rewrite split_app_comma, IH.
Qed.

Lemma try_fold_ok names : forall acc l,
  try_fold acc names = Ok l <->
  l = acc ++ names /\ Forall (fun n => n <> [] /\ is_ascii n = true) names /\
  (names = [] \/ zlen (acc ++ names) <= MAX_NAME_LIST_ENTRIES + 1).
Proof.
  induction names as [|n ns IH]; intros acc l; cbn [try_fold].
  - rewrite app_nil_r. split; [intros [= <-]; auto|intros (-> & _ & _); done].
  - rewrite Forall_cons_iff. unfold push_name.
    destruct (beq n []) eqn:Hn; [apply beq_true in Hn; subst; naive_solver|].
    apply beq_false in Hn. cbn [orb].
    destruct (is_ascii n); cbn [negb res_bind]; [|naive_solver].
    destruct (Z.ltb_spec MAX_NAME_LIST_ENTRIES (zlen acc)); cbn [res_bind].
    + split; [done|]. intros (_ & _ & [?|Hl]); [done|]. rewrite zlen_app, zlen_cons in Hl.
      pose proof (zlen_nonneg ns). lia.
    + rewrite IH, <- app_assoc. cbn [app]. split; intros (-> & Hns & Hlen); split_and!; try tauto.
      * right. destruct Hlen as [->|]; [|lia]. rewrite zlen_app, zlen_cons, zlen_nil. lia.
      * right. destruct Hlen; [done|lia].
Qed.

Lemma join_nil l : Forall valid_name l -> join_commas l = [] -> l = [].
Proof.
  intros Hv Hj. destruct l as [|w [|w' l]]; [done| |].
  - cbn in Hj. subst. apply Forall_cons_iff in Hv as [[? _] _]. done.
  - cbn in Hj. by destruct w.
Qed.

(** [NameList::from_encoded_string] accepts exactly the comma-separated
    lists of non-empty ASCII names with at most [MAX_NAME_LIST_ENTRIES + 1]
    entries, the empty string being the empty list, and returns the names in
    order: it is a decision procedure for RFC 4251 name-lists and the inverse of
    [as_encoded_string]. *)
Theorem from_encoded_string_spec s l :
  from_encoded_string s = Ok l <-> as_encoded_string l = s /\ valid_list l.
Proof.
  unfold from_encoded_string, as_encoded_string, valid_list, valid_name. destruct (beq s []) eqn:Hs.
  - apply beq_true in Hs. subst. split.
    + intros [= <-]. repeat split; [constructor|done].
    + intros [Hj [Hv _]]. by rewrite (join_nil l Hv Hj).
  - apply beq_false in Hs. rewrite try_fold_ok. cbn [app]. split.
    + intros (-> & Hv & Hl). pose proof (split_commas_nonempty s).
      split; [apply join_split|]. split; [|tauto].
      pose proof (split_no_comma s) as Hc. rewrite Forall_forall in *. naive_solver.
    + intros [<- [Hv Hl]]. assert (l <> []) by (by intros ->).
      rewrite split_join; [|done|eapply Forall_impl; [exact Hv|naive_solver]].
      split; [done|]. split; [eapply Forall_impl; [exact Hv|naive_solver]|by right].
Qed.

Lemma as_encoded_ascii l : Forall valid_name l -> is_ascii (join_commas l) = true.
Proof.
  induction 1 as [|w l (_ & Hw & _) Hl IH]; [done|]. destruct l as [|w' l]; [done|].
  change (join_commas (w :: w' :: l)) with (w ++ COMMA :: join_commas (w' :: l)).
  rewrite is_ascii_app, Hw. cbn [andb is_ascii forallb]. done.
Qed.

Lemma from_as_encoded l : valid_list l -> from_encoded_string (as_encoded_string l) = Ok l.
Proof.
  intros [Hv Hl]. unfold from_encoded_string, as_encoded_string. destruct (beq _ []) eqn:Hs.
  - apply beq_true in Hs. by rewrite (join_nil l Hv Hs).
  - apply beq_false in Hs. apply try_fold_ok. cbn [app].
    assert (l <> []) by (by intros ->).
    rewrite split_join; [|done|eapply Forall_impl; [exact Hv|unfold valid_name; naive_solver]].
    split; [done|]. split; [eapply Forall_impl; [exact Hv|unfold valid_name; naive_solver]|by right].
Qed.

Section RoundTrip.
Context {enc : SshEncoding} `{!SshEncodingLaws enc}.

Definition encodable (l : list bytes) : Prop :=
  valid_list l /\ zlen (as_encoded_string l) <= MAX_NAME_LIST_BYTES.

Lemma encode_appends l :
  encodable l -> appends (encode l) (be32 (zlen (as_encoded_string l)) ++ as_encoded_string l).
Proof.
  intros [_ Hl]. apply encode_bytes_appends. unfold MAX_NAME_LIST_BYTES, U32_MOD in *. lia.
Qed.

Lemma decode_prefixed l r :
  encodable l -> decode (be32 (zlen (as_encoded_string l)) ++ as_encoded_string l ++ r) = Ok (l, r).
Proof.
  intros [Hv Hl]. unfold decode, LimitedString_decode.
  rewrite read_prefixed_prefixed by (unfold MAX_NAME_LIST_BYTES, MAX_ENCODED_LEN in *; lia).
  cbn [res_bind]. replace (MAX_NAME_LIST_BYTES <? zlen (as_encoded_string l)) with false
    by (symmetry; apply Z.ltb_ge; lia).
  rewrite is_ascii_utf8 by (apply as_encoded_ascii, Hv). cbn [res_bind].
  by rewrite from_as_encoded.
Qed.

Lemma decode_no_panic r : decode r <> Panic.
Proof.
  unfold decode, LimitedString_decode. pose proof (read_prefixed_no_panic r).
  destruct (read_prefixed r) as [[s r']| |]; cbn [res_bind]; [|done|done].
  case_match; [done|]. case_match; [|done]. cbn [res_bind].
  assert (Hf : from_encoded_string s <> Panic).
  { unfold from_encoded_string. case_match; [done|]. generalize ([] : list bytes), (split_commas s).
    intros acc l. revert acc. induction l as [|n l IH]; intros acc; cbn [try_fold]; [done|].
    unfold push_name. repeat case_match; cbn [res_bind]; done || apply IH. }
  by destruct (from_encoded_string s).
Qed.
End RoundTrip.

(** A name-list survives the wire: what [Encode for NameList] writes for up
    to 1025 valid names of at most 16 KiB, [Decode for NameList] reads back as
    the same list, leaving what follows. *)
Theorem name_list_roundtrip {enc : SshEncoding} `{!SshEncodingLaws enc} l w r :
  encodable l ->
  exists p, encode l w = (Ok tt, w ++ p) /\ decode (p ++ r) = Ok (l, r).
Proof.
  intros Hl. eexists. split; [by apply encode_appends|].
  rewrite <- app_assoc. by apply decode_prefixed.
Qed.

Lemma name_list_roundtrip_witness :
  exists p, @encode rfc4251 [str "aes128-ctr"; str "none"] [20] = (Ok tt, [20] ++ p) /\
    @decode rfc4251 (p ++ [0]) = Ok ([str "aes128-ctr"; str "none"], [0]).
Proof.
  apply (@name_list_roundtrip rfc4251 _ [str "aes128-ctr"; str "none"] [20] [0]).
  split; [|vm_compute; discriminate]. split; [|vm_compute; discriminate].
  repeat constructor; try discriminate; unfold COMMA; cbn; rewrite ?elem_of_cons, ?elem_of_nil; lia.
Defined.
End NameList.
