(* ===== verification/Compression.v ===== *)
(** * Packet compression ([russh/src/compression.rs])

    The wrappers around the [flate2] streams: the loops that grow the output
    buffer.  [flate2] is a parameter ([Flate2]) with the documented facts the
    loops rely on ([Flate2Laws]). *)

From stdpp Require Import base list numbers option strings.
From Stdlib Require Import ZArith Lia.
From S2P Require Import Prelude LibInner Cipher.

(** ** Algorithms *)
Inductive Compression : Type := CompressionNone | Zlib | ZlibOpenSSH.

Definition NONE : bytes := str "none".
Definition ZLIB : bytes := str "zlib".
Definition ZLIB_LEGACY : bytes := str "zlib@openssh.com".
Definition ALL_COMPRESSION_ALGORITHMS : list bytes := [NONE; ZLIB; ZLIB_LEGACY].

(** [TryFrom<&str> for Name]. *)
Definition compression_name_try_from (s : bytes) : option bytes :=
  List.find (fun x => beq x s) ALL_COMPRESSION_ALGORITHMS.

Definition Compression_new (name : bytes) : Compression :=
  if beq name ZLIB then Zlib
  else if beq name ZLIB_LEGACY then ZlibOpenSSH
  else CompressionNone.

Definition is_deferred (c : Compression) : bool :=
  match c with ZlibOpenSSH => true | _ => false end.

(** ** The [flate2] streams *)
Inductive Status : Type := StatusOk | BufError | StreamEnd.

Class Flate2 : Type := {
  zcomp : Type;
  zcomp_new : zcomp;
  zcomp_reset : zcomp -> zcomp;
  c_total_in : zcomp -> Z;
  c_total_out : zcomp -> Z;
  (** [compress(input, output, Partial)] with room for so many bytes: what is
      written, and the status *)
  zcompress : zcomp -> bytes -> Z -> zcomp * res Z (bytes * Status);
  (** output room that always suffices (zlib's [deflateBound]); not called by
      the code, it bounds its loop *)
  compress_bound : zcomp -> Z -> Z;
  zdecomp : Type;
  zdecomp_new : zdecomp;
  zdecomp_reset : zdecomp -> zdecomp;
  d_total_in : zdecomp -> Z;
  d_total_out : zdecomp -> Z;
  zdecompress : zdecomp -> bytes -> Z -> zdecomp * res Z (bytes * Status);
}.

Class Flate2Laws (F : Flate2) : Prop := {
  zcompress_counts z input room z' out s : zcompress z input room = (z', Ok (out, s)) -> 0 <= room ->
    zlen out <= room /\ c_total_out z' = c_total_out z + zlen out /\
    c_total_in z <= c_total_in z' <= c_total_in z + zlen input;
  zcompress_no_panic z input room : (zcompress z input room).2 <> Panic;
  (** no progress was possible, for want of output space *)
  zcompress_buf_error z input room z' out : zcompress z input room = (z', Ok (out, BufError)) ->
    0 <= room < compress_bound z (zlen input) /\ out = [] /\ c_total_in z' = c_total_in z /\
    compress_bound z' (zlen input) = compress_bound z (zlen input);
  zdecompress_counts z input room z' out s : zdecompress z input room = (z', Ok (out, s)) -> 0 <= room ->
    zlen out <= room /\ d_total_out z' = d_total_out z + zlen out /\
    d_total_in z <= d_total_in z' <= d_total_in z + zlen input;
  zdecompress_no_panic z input room : (zdecompress z input room).2 <> Panic;
  (** a call with input and room makes progress or ends the stream *)
  zdecompress_progress z input room z' out s : zdecompress z input room = (z', Ok (out, s)) ->
    s <> StreamEnd -> 0 < zlen input -> 0 < room ->
    d_total_in z < d_total_in z' \/ 0 < zlen out;
}.

Section Compression.
Context `{F : Flate2}.

Inductive Compress : Type := CompressNone | CompressZlib (z : zcomp).
Inductive Decompress : Type := DecompressNone | DecompressZlib (z : zdecomp).

Definition init_compress (c : Compression) (comp : Compress) : Compress :=
  match c with
  | Zlib | ZlibOpenSSH =>
      match comp with
      | CompressZlib z => CompressZlib (zcomp_reset z)
      | CompressNone => CompressZlib zcomp_new
      end
  | CompressionNone => CompressNone
  end.

Definition init_decompress (c : Compression) (comp : Decompress) : Decompress :=
  match c with
  | Zlib | ZlibOpenSSH =>
      match comp with
      | DecompressZlib z => DecompressZlib (zdecomp_reset z)
      | DecompressNone => DecompressZlib zdecomp_new
      end
  | CompressionNone => DecompressNone
  end.

(** Writing [w] into [&mut output[i..]]. *)
Definition write_slice (output : bytes) (i : Z) (w : bytes) : bytes :=
  ztake i output ++ w ++ zdrop (i + zlen w) output.

Definition zlib_output_reserve_bound (input_len : Z) : Z := saturating_add input_len 10.

(** *** [Compress::compress]

    The loop, as long as [compress] answers [BufError]; [fuel] bounds the
    number of iterations (running out of it is the [Panic] of the first
    case, which [compress_total] excludes). *)
Fixpoint compress_loop (fuel : nat) (z : zcomp) (n_in n_out : Z) (input output : bytes)
  : Result (zcomp * bytes) :=
  match fuel with
  | O => Panic
  | S fuel' =>
      let n_in_ := c_total_in z - n_in in
      let n_out_ := c_total_out z - n_out in
      if (zlen input <? n_in_) || (zlen output <? n_out_) then Panic else
      let '(z', r) := zcompress z (zdrop n_in_ input) (zlen output - n_out_) in
      let? (w, c) := map_err Error.Compress r in
      let output' := write_slice output n_out_ w in
      match c with
      | BufError => compress_loop fuel' z' n_in n_out input (vec_resize (zlen output' * 2) 0 output')
      | _ => Ok (z', output')
      end
  end.

Definition compress_fuel (z : zcomp) (input : bytes) : nat :=
  S (Z.to_nat (compress_bound z (zlen input))).

(** The slice returned, and the stream. *)
Definition compress (comp : Compress) (input : bytes) : Result (bytes * Compress) :=
  match comp with
  | CompressNone => Ok (input, CompressNone)
  | CompressZlib z =>
      let n_in := c_total_in z in
      let n_out := c_total_out z in
      let output := vec_resize (zlen input + 10) 0 [] in
      let? (z', output') := compress_loop (compress_fuel z input) z n_in n_out input output in
      let n_out_ := c_total_out z' - n_out in
      if zlen output' <? n_out_ then Panic else Ok (ztake n_out_ output', CompressZlib z')
  end.

(** *** [Compress::compress_into] *)
Fixpoint compress_into_loop (fuel : nat) (z : zcomp) (n_in n_out : Z) (input output : bytes)
    (start_len : Z) : Result (zcomp * bytes) :=
  match fuel with
  | O => Panic
  | S fuel' =>
      let n_in_ := c_total_in z - n_in in
      let n_out_ := c_total_out z - n_out in
      if (zlen input <? n_in_) || (zlen output <? start_len + n_out_) then Panic else
      let '(z', r) := zcompress z (zdrop n_in_ input) (zlen output - (start_len + n_out_)) in
      let? (w, c) := map_err Error.Compress r in
      let output' := write_slice output (start_len + n_out_) w in
      match c with
      | BufError =>
          let growth := Z.max (saturating_sub (zlen output') start_len) 1 in
          compress_into_loop fuel' z' n_in n_out input (vec_resize (zlen output' + growth) 0 output') start_len
      | _ => Ok (z', output')
      end
  end.

(** The returned length, the output vector and the stream. *)
Definition compress_into (comp : Compress) (input output : bytes) (start_len : Z)
  : Result (Z * bytes * Compress) :=
  match comp with
  | CompressNone => Ok (zlen input, vec_truncate start_len output ++ input, CompressNone)
  | CompressZlib z =>
      let output0 := vec_truncate start_len output in
      let n_in := c_total_in z in
      let n_out := c_total_out z in
      let reserve := zlib_output_reserve_bound (zlen input) in
      let output1 := vec_resize (start_len + reserve) 0 output0 in
      let? (z', output') := compress_into_loop (compress_fuel z input) z n_in n_out input output1 start_len in
      let n_out_ := c_total_out z' - n_out in
      Ok (n_out_, vec_truncate (start_len + n_out_) output', CompressZlib z')
  end.

(** *** [Decompress::decompress] *)
Definition max_output_len : Z := MAXIMUM_DECOMPRESSED_PACKET_LEN + 1.

Fixpoint decompress_loop (fuel : nat) (z : zdecomp) (n_in n_out : Z) (input output : bytes)
  : Result (zdecomp * bytes) :=
  match fuel with
  | O => Panic
  | S fuel' =>
      let n_in_ := d_total_in z - n_in in
      let n_out_ := d_total_out z - n_out in
      if (zlen input <? n_in_) || (zlen output <? n_out_) then Panic else
      let '(z', r) := zdecompress z (zdrop n_in_ input) (zlen output - n_out_) in
      let? (w, s) := map_err Error.Decompress r in
      let output' := write_slice output n_out_ w in
      match s with
      | StatusOk | BufError =>
          let consumed_all_input := n_in_ =? zlen input in
          let output_full := n_out_ =? zlen output' in
          if negb output_full && consumed_all_input then Ok (z', output')
          else if output_full then
            if zlen output' =? max_output_len then Ok (z', output')
            else decompress_loop fuel' z' n_in n_out input
                   (vec_resize (Z.min (zlen output' * 2) max_output_len) 0 output')
          else decompress_loop fuel' z' n_in n_out input output'
      | StreamEnd => Ok (z', output')
      end
  end.

Definition decompress_fuel (input : bytes) : nat := Z.to_nat (zlen input + 2 * max_output_len + 1).

Definition decompress (d : Decompress) (input : bytes) : Result (bytes * Decompress) :=
  match d with
  | DecompressNone => Ok (input, DecompressNone)
  | DecompressZlib z =>
      let n_in := d_total_in z in
      let n_out := d_total_out z in
      let output := vec_resize (Z.max 1 (Z.min (zlen input) max_output_len)) 0 [] in
      let? (z', output') := decompress_loop (decompress_fuel input) z n_in n_out input output in
      let n_out_ := d_total_out z' - n_out in
      if MAXIMUM_DECOMPRESSED_PACKET_LEN <? n_out_ then Err (Error.PacketSize n_out_)
      else if zlen output' <? n_out_ then Panic
      else Ok (ztake n_out_ output', DecompressZlib z')
  end.

(** ** Facts *)

Lemma write_slice_len output i w :
  0 <= i -> i + zlen w <= zlen output -> zlen (write_slice output i w) = zlen output.
Proof. intros. pose proof (zlen_nonneg w). unfold write_slice. zlia. Qed.

Lemma write_slice_app pre output i w :
  0 <= i -> write_slice (pre ++ output) (zlen pre + i) w = pre ++ write_slice output i w.
Proof.
  intros Hi. pose proof (zlen_nonneg w). unfold write_slice. rewrite ztake_app_ge, zdrop_app_ge by lia.
  rewrite <- app_assoc. do 3 f_equal; [|do 2 f_equal]; lia.
Qed.

Lemma vec_resize_app pre n (output : bytes) :
  zlen output <= n -> vec_resize (zlen pre + n) 0 (pre ++ output) = pre ++ vec_resize n 0 output.
Proof.
  intros Hn. rewrite !vec_resize_grow by zlia. rewrite <- app_assoc. do 3 f_equal. zlia.
Qed.

Context `{!Flate2Laws F}.

(** Both loops make the same calls of the stream. *)
Lemma compress_into_loop_spec fuel : forall z n_in n_out input output pre,
  0 < zlen output -> n_out <= c_total_out z ->
  compress_into_loop fuel z n_in n_out input (pre ++ output) (zlen pre) =
  let? (z', output') := compress_loop fuel z n_in n_out input output in Ok (z', pre ++ output').
Proof.
  induction fuel as [|fuel IH]; intros z n_in n_out input output pre Hpos Hz; [done|].
  cbn [compress_into_loop compress_loop].
  replace (zlen (pre ++ output) <? zlen pre + (c_total_out z - n_out))
    with (zlen output <? c_total_out z - n_out) by (rewrite zlen_app; destruct (Z.ltb_spec (zlen output) (c_total_out z - n_out)); symmetry; [apply Z.ltb_lt|apply Z.ltb_ge]; lia).
  destruct (Z.ltb_spec (zlen output) (c_total_out z - n_out)); [by rewrite orb_true_r|].
  rewrite orb_false_r. destruct (_ <? _); [done|].
  replace (zlen (pre ++ output) - (zlen pre + (c_total_out z - n_out)))
    with (zlen output - (c_total_out z - n_out)) by (rewrite zlen_app; lia).
  destruct (zcompress z _ _) as [z' [[w s]|e|]] eqn:Ez; cbn [map_err res_bind]; [|done|done].
  apply zcompress_counts in Ez as (Hw & Hto & _); [|lia].
  rewrite write_slice_app by lia. destruct s; [done| |done].
  set (output' := write_slice output _ w).
  assert (Hl : zlen output' = zlen output) by (apply write_slice_len; lia).
  unfold saturating_sub. rewrite zlen_app.
  replace (zlen pre + zlen output' + Z.max (Z.max (zlen pre + zlen output' - zlen pre) 0) 1)
    with (zlen pre + zlen output' * 2) by lia.
  rewrite vec_resize_app by lia. apply IH; [rewrite zlen_vec_resize; lia|].
  pose proof (zlen_nonneg w). lia.
Qed.

(** With enough room the loop ends, having written only what it counted. *)
Lemma compress_loop_total fuel : forall z n_in n_out input output,
  n_in = c_total_in z -> n_out = c_total_out z -> 0 < zlen output ->
  Z.max 0 (compress_bound z (zlen input) - zlen output) < Z.of_nat fuel ->
  match compress_loop fuel z n_in n_out input output with
  | Ok (z', output') => 0 <= c_total_out z' - n_out <= zlen output'
  | Err _ => True
  | Panic => False
  end.
Proof.
  induction fuel as [|fuel IH]; intros z n_in n_out input output -> -> Hpos Hf; [lia|].
  cbn [compress_loop]. rewrite !Z.sub_diag, Z.sub_0_r, zdrop_0.
  replace (zlen input <? 0) with false by (symmetry; apply Z.ltb_ge, zlen_nonneg).
  replace (zlen output <? 0) with false by (symmetry; apply Z.ltb_ge, zlen_nonneg).
  cbn [orb]. pose proof (zcompress_no_panic z input (zlen output)) as Hnp.
  destruct (zcompress z input (zlen output)) as [z' [[w s]|e|]] eqn:Ez; cbn [map_err res_bind]; [|done|done].
  pose proof (zcompress_counts _ _ _ _ _ _ Ez ltac:(lia)) as (Hw & Hto & Hti).
  pose proof (write_slice_len output 0 w ltac:(lia) ltac:(lia)) as Hl.
  pose proof (zlen_nonneg w).
  destruct s; [lia| |lia].
  apply zcompress_buf_error in Ez as (Hroom & -> & Hin & Hb).
  rewrite zlen_nil in *. specialize (IH z' (c_total_in z) (c_total_out z) input
    (vec_resize (zlen (write_slice output 0 []) * 2) 0 (write_slice output 0 []))).
  rewrite Hb, !Hl, zlen_vec_resize in IH by lia. rewrite Hl. apply IH; lia.
Qed.

Lemma compress_output comp input :
  match compress comp input with
  | Ok (p, _) => True
  | Err _ => True
  | Panic => False
  end.
Proof.
  destruct comp as [|z]; [done|]. cbn [compress].
  pose proof (zlen_nonneg input).
  pose proof (compress_loop_total (compress_fuel z input) z _ _ input
    (vec_resize (zlen input + 10) 0 []) eq_refl eq_refl) as Ht.
  rewrite zlen_vec_resize in Ht by lia.
  destruct (compress_loop _ _ _ _ _ _) as [[z' o]| |]; cbn [res_bind]; [|done|].
  - replace (zlen o <? c_total_out z' - c_total_out z) with false; [done|].
    symmetry. apply Z.ltb_ge. unfold compress_fuel in Ht. apply Ht; lia.
  - unfold compress_fuel in Ht. apply Ht; lia.
Qed.

Lemma compress_into_spec comp input output start_len :
  0 <= start_len <= zlen output -> zlen input + 10 <= USIZE_MAX ->
  compress_into comp input output start_len =
  let? (p, comp') := compress comp input in
  Ok (zlen p, ztake start_len output ++ p, comp').
Proof.
  intros Hs Hi. destruct comp as [|z]; [done|]. cbn [compress_into compress].
  unfold vec_truncate, zlib_output_reserve_bound, saturating_add.
  pose proof (zlen_nonneg input). rewrite Z.min_l by lia.
  set (pre := ztake start_len output).
  assert (Hp : zlen pre = start_len) by (subst pre; rewrite zlen_ztake; lia).
  rewrite <- Hp. replace (vec_resize (zlen pre + (zlen input + 10)) 0 pre)
    with (pre ++ vec_resize (zlen input + 10) 0 []).
  2: { rewrite <- vec_resize_app by (rewrite zlen_nil; lia). by rewrite app_nil_r. }
  rewrite compress_into_loop_spec by (rewrite ?zlen_vec_resize; lia).
  pose proof (compress_loop_total (compress_fuel z input) z _ _ input
    (vec_resize (zlen input + 10) 0 []) eq_refl eq_refl) as Ht.
  rewrite zlen_vec_resize in Ht by lia. unfold compress_fuel in Ht at 1.
  destruct (compress_loop _ _ _ _ _ _) as [[z' o]| |]; cbn [res_bind]; [|done|done].
  assert (0 <= c_total_out z' - c_total_out z <= zlen o) by (apply Ht; lia).
  replace (zlen o <? c_total_out z' - c_total_out z) with false by (symmetry; apply Z.ltb_ge; lia).
  cbn [res_bind]. rewrite ztake_app_ge, zlen_ztake by lia.
  set (n := c_total_out z' - c_total_out z) in *.
  replace (zlen pre + n - zlen pre) with n by lia.
  by replace (Z.max 0 (Z.min n (zlen o))) with n by lia.
Qed.

(** Both compression entry points agree: [Compress::compress_into] appends
    to the first [start_len] bytes of the output exactly the bytes that
    [Compress::compress] returns for the same stream and input, leaves the
    stream in the same state, and fails in the same cases. *)
Theorem compress_into_is_compress comp input output start_len :
  0 <= start_len <= zlen output -> zlen input + 10 <= USIZE_MAX ->
  compress_into comp input output start_len =
  let? (p, comp') := compress comp input in
  Ok (zlen p, ztake start_len output ++ p, comp').
Proof. apply compress_into_spec. Qed.

(** *** Decompression is total and bounded *)

(** What the loop has left to do: input, output up to the cap, buffer growth. *)
Definition decompress_measure (z : zdecomp) (n_in n_out : Z) (input output : bytes) : Z :=
  (zlen input - (d_total_in z - n_in)) + (max_output_len - (d_total_out z - n_out)) +
  (max_output_len - zlen output).

Lemma decompress_loop_total fuel : forall z n_in n_out input output,
  0 <= d_total_in z - n_in <= zlen input -> 0 <= d_total_out z - n_out <= zlen output ->
  1 <= zlen output <= max_output_len ->
  decompress_measure z n_in n_out input output < Z.of_nat fuel ->
  match decompress_loop fuel z n_in n_out input output with
  | Ok (z', output') => 0 <= d_total_out z' - n_out <= zlen output' /\ zlen output' <= max_output_len
  | Err e => exists c, e = Error.Decompress c
  | Panic => False
  end.
Proof.
  unfold decompress_measure.
  induction fuel as [|fuel IH]; intros z n_in n_out input output Hi Ho Hl Hf; [lia|].
  cbn [decompress_loop].
  replace (zlen input <? _) with false by (symmetry; apply Z.ltb_ge; lia).
  replace (zlen output <? _) with false by (symmetry; apply Z.ltb_ge; lia).
  cbn [orb]. set (rest := zdrop _ input). set (room := zlen output - _).
  assert (Hrest : zlen rest = zlen input - (d_total_in z - n_in)) by (subst rest; rewrite zlen_zdrop; lia).
  pose proof (zdecompress_no_panic z rest room) as Hnp.
  destruct (zdecompress z rest room) as [z' [[w s]|e|]] eqn:Ez; cbn [map_err res_bind]; [|by eexists|done].
  pose proof (zdecompress_counts _ _ _ _ _ _ Ez ltac:(lia)) as (Hw & Hto & Hti).
  pose proof (zdecompress_progress _ _ _ _ _ _ Ez) as Hprog. pose proof (zlen_nonneg w).
  set (out := write_slice output _ w).
  assert (Hout : zlen out = zlen output) by (apply write_slice_len; lia). rewrite Hout.
  assert (Hgoal : forall out', zlen out <= zlen out' <= max_output_len ->
    (d_total_in z < d_total_in z' \/ 0 < zlen w \/ zlen out < zlen out') ->
    match decompress_loop fuel z' n_in n_out input out' with
    | Ok (z', output') => 0 <= d_total_out z' - n_out <= zlen output' /\ zlen output' <= max_output_len
    | Err e => exists c, e = Error.Decompress c
    | Panic => False
    end) by (intros; apply IH; lia).
  destruct (Z.eqb_spec (d_total_out z - n_out) (zlen output)) as [Hfull|Hfull];
    cbn [negb andb]; destruct s; try lia.
  1,2: destruct (Z.eqb_spec (zlen output) max_output_len); [lia|];
    apply Hgoal; rewrite zlen_vec_resize; lia.
  all: destruct (Z.eqb_spec (d_total_in z - n_in) (zlen input)); [lia|];
    apply Hgoal; [lia|]; destruct Hprog; lia || done.
Qed.

(** C38. Decompressing a packet from the peer terminates within its bounds: for
    any compressed payload, [Decompress::decompress] neither loops nor panics,
    and what it hands out has at most [MAXIMUM_DECOMPRESSED_PACKET_LEN] bytes;
    a longer expansion is refused with [PacketSize], after at most one byte
    more than that was produced. *)
Theorem decompress_bounded d input :
  match decompress d input with
  | Ok (p, _) => d = DecompressNone \/ zlen p <= MAXIMUM_DECOMPRESSED_PACKET_LEN
  | Err e => e = Error.PacketSize max_output_len \/ exists c, e = Error.Decompress c
  | Panic => False
  end.
Proof.
  destruct d as [|z]; cbn [decompress]; [by left|].
  pose proof (zlen_nonneg input).
  assert (0 < max_output_len) by done.
  pose proof (decompress_loop_total (decompress_fuel input) z (d_total_in z) (d_total_out z) input
    (vec_resize (Z.max 1 (Z.min (zlen input) max_output_len)) 0 [])) as Ht.
  rewrite zlen_vec_resize in Ht by lia.
  assert (Hf : decompress_measure z (d_total_in z) (d_total_out z) input
    (vec_resize (Z.max 1 (Z.min (zlen input) max_output_len)) 0 []) < Z.of_nat (decompress_fuel input)).
  { unfold decompress_measure, decompress_fuel. rewrite zlen_vec_resize; lia. }

  destruct (decompress_loop _ _ _ _ _ _) as [[z' o]|e|]; cbn [res_bind].
  - assert (0 <= d_total_out z' - d_total_out z <= zlen o /\ zlen o <= max_output_len)
      by (apply Ht; lia).
    unfold max_output_len in *. destruct (Z.ltb_spec MAXIMUM_DECOMPRESSED_PACKET_LEN (d_total_out z' - d_total_out z)).
    { left. do 2 f_equal. lia. }
    replace (zlen o <? _) with false by (symmetry; apply Z.ltb_ge; lia).
    right. rewrite zlen_ztake. lia.
  - right. apply Ht; lia.
  - apply Ht; lia.
Qed.
End Compression.

(** ** A concrete stream

    It doubles every byte and, like zlib, keeps what does not fit the output for
    the next call, answering [StatusOk] whenever it made progress. *)
Module Doubling.
Definition double (b : bytes) : bytes := flat_map (fun x => [x; x]) b.

#[export] Instance flate2 : Flate2 := {|
  zcomp := Z * Z * bytes;
  zcomp_new := (0, 0, []);
  zcomp_reset _ := (0, 0, []);
  c_total_in z := z.1.1;
  c_total_out z := z.1.2;
  zcompress z input room :=
    let '(i, o, pending) := z in
    let all := pending ++ double input in
    if (room =? 0) && negb (beq all []) then (z, Ok ([], BufError))
    else ((i + zlen input, o + zlen (ztake room all), zdrop room all), Ok (ztake room all, StatusOk));
  compress_bound _ _ := 1;
  zdecomp := Z * Z;
  zdecomp_new := (0, 0);
  zdecomp_reset _ := (0, 0);
  d_total_in z := z.1;
  d_total_out z := z.2;
  zdecompress z input room :=
    let w := ztake room input in
    ((z.1 + zlen w, z.2 + zlen w), Ok (w, StatusOk));
|}.

#[export] Instance flate2_laws : Flate2Laws flate2.
Proof.
  split; cbn [flate2 zcompress zdecompress c_total_in c_total_out d_total_in d_total_out compress_bound
    zcomp zdecomp].
  - intros [[i o] p] input room z' out s H Hr. pose proof (zlen_nonneg input).
    destruct ((room =? 0) && _); simplify_eq; cbn [fst snd]; [rewrite zlen_nil; lia|].
    split; [rewrite zlen_ztake; lia|lia].
  - intros [[i o] p] input room. by destruct ((room =? 0) && _).
  - intros [[i o] p] input room z' out H.
    destruct (Z.eqb_spec room 0); [|by simplify_eq/=].
    destruct (negb _); simplify_eq/=. repeat split; lia || done.
  - intros z input room z' out s [= <- <- <-] Hr. cbn [fst snd].
    rewrite zlen_ztake. pose proof (zlen_nonneg input). lia.
  - done.
  - intros z input room z' out s [= <- <- <-] _ Hi Hr. right. rewrite zlen_ztake. lia.
Qed.

(** The loop of [Compress::compress] stops at the first status other than
    [BufError]: a stream that fills the output buffer and has more to flush
    answers [StatusOk], so the end of the packet stays behind in the stream
    (here 40 bytes are due and 30 are sent). *)
Lemma compress_stops_on_full_output :
  compress (CompressZlib zcomp_new) (replicate 20 7) =
    Ok (replicate 30 7, CompressZlib ((20, 30, replicate 10 7) : @zcomp flate2)).
Proof. vm_compute. reflexivity. Qed.

Lemma compress_into_is_compress_witness :
  compress_into (CompressZlib zcomp_new) [1; 2] [9; 9; 9] 2 =
  let? (p, comp') := compress (CompressZlib zcomp_new) [1; 2] in
  Ok (zlen p, ztake 2 [9; 9; 9] ++ p, comp').
Proof. apply (compress_into_is_compress (CompressZlib zcomp_new) [1; 2] [9; 9; 9] 2); vm_compute; intuition discriminate. Defined.

Lemma decompress_bounded_witness :
  match decompress (DecompressZlib zdecomp_new) [1; 2; 3] with
  | Ok (p, _) => DecompressZlib zdecomp_new = DecompressNone \/ zlen p <= MAXIMUM_DECOMPRESSED_PACKET_LEN
  | Err e => e = Error.PacketSize max_output_len \/ exists c, e = Error.Decompress c
  | Panic => False
  end.
Proof. apply (decompress_bounded (DecompressZlib zdecomp_new) [1; 2; 3]). Defined.
End Doubling.
