(* ===== verification/PacketWriter.v ===== *)
(** * The outbound side of a connection ([russh/src/sshbuffer.rs])

    [PacketWriter] builds, compresses and seals packets into its write buffer
    and drains the buffer into the socket.  The random bytes of one packet's
    padding are the argument [rng]; the answers of the socket are the list of
    outcomes given to [flush_into], whose end means that the future is dropped
    at that await point. *)

From stdpp Require Import base list numbers option strings.
From Stdlib Require Import ZArith Lia.
From S2P Require Import Prelude Encoding LibInner Cipher Compression CipherImpls.

(** ** The identification string *)
Module SshId.
Inductive SshId : Type := Standard (s : bytes) | Raw (s : bytes).

(** [trim_end_matches(['\n', '\r'])]. *)
Fixpoint trim_start_nl (s : bytes) : bytes :=
  match s with
  | x :: s' => if (x =? 10) || (x =? 13) then trim_start_nl s' else s
  | [] => []
  end.
Definition trim_end_matches_nl (s : bytes) : bytes := rev (trim_start_nl (rev s)).

Definition as_kex_hash_bytes (id : SshId) : bytes :=
  match id with
  | Standard s => s
  | Raw s => trim_end_matches_nl s
  end.

Definition write (id : SshId) (buffer : bytes) : bytes :=
  match id with
  | Standard s => buffer ++ s ++ [13; 10]
  | Raw s => buffer ++ s
  end.
End SshId.

Definition send_ssh_id (id : SshId.SshId) (b : SSHBuffer) : SSHBuffer :=
  set_buffer (SshId.write id b.(buffer)) b.

Definition OUTBOUND_HIGH_WATERMARK : Z := 128 * 1024.
Definition PACKET_PREFIX_LEN : Z := PACKET_LENGTH_LEN + 1.

Section PacketWriter.
Context `{F : Flate2} {K : Type} `{HK : SealingKey K}.

Record PacketWriter : Type := mkPacketWriter {
  cipher : K;
  compress_state : Compress;   (* field [compress] *)
  packet_buffer : bytes;
  write_buffer : SSHBuffer;
  flush_cursor : Z;
  drained_total : Z;
}.

Definition PacketWriter_new (k : K) (c : Compress) : PacketWriter :=
  mkPacketWriter k c [] SSHBuffer_new 0 0.

Definition with_buffer (v : bytes) (pw : PacketWriter) : PacketWriter :=
  mkPacketWriter pw.(cipher) pw.(compress_state) pw.(packet_buffer)
    (set_buffer v pw.(write_buffer)) pw.(flush_cursor) pw.(drained_total).
Definition with_sealed (k : K) (b : SSHBuffer) (pw : PacketWriter) : PacketWriter :=
  mkPacketWriter k pw.(compress_state) pw.(packet_buffer) b pw.(flush_cursor) pw.(drained_total).
Definition with_packet_buffer (v : bytes) (pw : PacketWriter) : PacketWriter :=
  mkPacketWriter pw.(cipher) pw.(compress_state) v pw.(write_buffer) pw.(flush_cursor)
    pw.(drained_total).
Definition with_compress (c : Compress) (pw : PacketWriter) : PacketWriter :=
  mkPacketWriter pw.(cipher) c pw.(packet_buffer) pw.(write_buffer) pw.(flush_cursor)
    pw.(drained_total).
Definition with_progress (cursor drained : Z) (pw : PacketWriter) : PacketWriter :=
  mkPacketWriter pw.(cipher) pw.(compress_state) pw.(packet_buffer) pw.(write_buffer) cursor drained.

Abbreviation M A := (st PacketWriter Error.error A).

(** Returns the filled plaintext buffer. *)
Definition prepare_packet (f : writer Error.error) : M bytes := fun pw =>
  match f [] with
  | (Ok tt, buf) => (Ok buf, with_packet_buffer [] pw)
  | (Err err, buf) => (Err err, with_packet_buffer buf pw)
  | (Panic, buf) => (Panic, pw)
  end.

Definition finish_into (rng : Z -> bytes) (offset payload_len : Z) (pw : PacketWriter)
  : res Error.error unit * PacketWriter :=
  match finish_packet pw.(cipher) rng offset payload_len pw.(write_buffer) with
  | Some (k, b) => (Ok tt, with_sealed k b pw)
  | None => (Panic, pw)
  end.

Definition write_payload_into_output (rng : Z -> bytes) (f : Z -> st bytes Error.error Z) : M unit :=
  fun pw =>
    let offset := zlen pw.(write_buffer).(buffer) in
    let payload_start := offset + PACKET_PREFIX_LEN in
    match f payload_start (vec_resize payload_start 0 pw.(write_buffer).(buffer)) with
    | (Ok payload_len, buf) =>
        if payload_len =? 0 then (Ok tt, with_buffer (vec_truncate offset buf) pw)
        else finish_into rng offset payload_len (with_buffer buf pw)
    | (Err err, buf) => (Err err, with_buffer (vec_truncate offset buf) pw)
    | (Panic, buf) => (Panic, with_buffer buf pw)
    end.

Definition write_packet_in_place (rng : Z -> bytes) (f : writer Error.error) : M unit :=
  write_payload_into_output rng (fun payload_start =>
    f ;;; do buffer <- st_get ;; st_ret (zlen buffer - payload_start)).

(** After a compression error the connection ends; the stream of the model
    keeps its last state. *)
Definition write_compressed_payload_into_output (rng : Z -> bytes) (buf : bytes) : M unit :=
  fun pw =>
    let offset := zlen pw.(write_buffer).(buffer) in
    let payload_start := offset + PACKET_PREFIX_LEN in
    let out := vec_resize payload_start 0 pw.(write_buffer).(buffer) in
    match compress_into pw.(compress_state) buf out payload_start with
    | Ok (payload_len, out', c') =>
        let pw' := with_compress c' pw in
        if payload_len =? 0 then (Ok tt, with_buffer (vec_truncate offset out') pw')
        else finish_into rng offset payload_len (with_buffer out' pw')
    | Err err => (Err err, with_buffer (vec_truncate offset out) pw)
    | Panic => (Panic, pw)
    end.

Definition is_none_compress (c : Compress) : bool :=
  match c with CompressNone => true | _ => false end.

Definition packet_raw (rng : Z -> bytes) (buf : bytes) : M unit := fun pw =>
  match buf with
  | [] => (Ok tt, pw)
  | _ :: _ =>
      if is_none_compress pw.(compress_state) then
        match write pw.(cipher) rng buf pw.(write_buffer) with
        | Some (k, b) => (Ok tt, with_sealed k b pw)
        | None => (Panic, pw)
        end
      else write_compressed_payload_into_output rng buf pw
  end.

Definition write_packet (rng : Z -> bytes) (f : writer Error.error) : M unit := fun pw =>
  if is_none_compress pw.(compress_state) then write_packet_in_place rng f pw
  else
    match prepare_packet f pw with
    | (Ok buf, pw1) =>
        let '(result, pw2) := packet_raw rng buf pw1 in
        (result, with_packet_buffer buf pw2)
    | (Err e, pw1) => (Err e, pw1)
    | (Panic, pw1) => (Panic, pw1)
    end.

Definition packet (rng : Z -> bytes) (f : writer Error.error) : M bytes := fun pw =>
  match prepare_packet f pw with
  | (Ok buf, pw1) =>
      match packet_raw rng buf pw1 with
      | (Ok tt, pw2) => (Ok buf, pw2)
      | (Err err, pw2) => (Err err, with_packet_buffer buf pw2)
      | (Panic, pw2) => (Panic, pw2)
      end
  | (Err e, pw1) => (Err e, pw1)
  | (Panic, pw1) => (Panic, pw1)
  end.

Definition packet_bytes (rng : Z -> bytes) (f : writer Error.error) : M bytes := fun pw =>
  match f [] with
  | (Ok tt, packet) =>
      match packet_raw rng packet pw with
      | (Ok tt, pw') => (Ok packet, pw')
      | (Err e, pw') => (Err e, pw')
      | (Panic, pw') => (Panic, pw')
      end
  | (Err e, _) => (Err e, pw)
  | (Panic, _) => (Panic, pw)
  end.

(** The capacity asked for; [Vec::reserve] does not change the contents. *)
Definition reserve_cleartext_packet_output (payload_bytes packet_count : Z) (pw : PacketWriter)
  : option Z :=
  if negb (is_none_compress pw.(compress_state)) then None else
  let per_packet_margin := PACKET_PREFIX_LEN + seal_tag_len pw.(cipher) + 32 in
  Some (saturating_add payload_bytes (saturating_mul packet_count per_packet_margin)).

Definition set_cipher (k : K) (pw : PacketWriter) : PacketWriter :=
  with_sealed k pw.(write_buffer) pw.

Definition reset_seqn (pw : PacketWriter) : PacketWriter :=
  let b := pw.(write_buffer) in
  with_sealed pw.(cipher) (mkSSHBuffer b.(buffer) b.(len) b.(nbytes) 0) pw.

Definition has_pending (pw : PacketWriter) : bool := negb (beq pw.(write_buffer).(buffer) []).
Definition pending_bytes (pw : PacketWriter) : Z := zlen pw.(write_buffer).(buffer).

(** *** Draining into the socket *)
Inductive io_outcome : Type := Wrote (n : Z) | Flushed | Failed (kind : Z).

Inductive flush_result : Type :=
| FlushOk (written : Z)
| FlushErr (kind : Z)
| Cancelled.

Fixpoint flush_into (outs : list io_outcome) (written : Z) (pw : PacketWriter) (sink : bytes)
  : flush_result * PacketWriter * bytes :=
  let buf := pw.(write_buffer).(buffer) in
  if pw.(flush_cursor) <? zlen buf then
    match outs with
    | Wrote n :: outs' =>
        if n =? 0 then (FlushErr IO_WRITE_ZERO, pw, sink)
        else flush_into outs' (written + n)
               (with_progress (pw.(flush_cursor) + n) (saturating_add pw.(drained_total) n) pw)
               (sink ++ ztake n (zdrop pw.(flush_cursor) buf))
    | Failed e :: _ => (FlushErr e, pw, sink)
    | _ => (Cancelled, pw, sink)
    end
  else if negb (beq buf []) then
    match outs with
    | Flushed :: _ => (FlushOk written, with_progress 0 pw.(drained_total) (with_buffer [] pw), sink)
    | Failed e :: _ => (FlushErr e, pw, sink)
    | _ => (Cancelled, pw, sink)
    end
  else (FlushOk written, pw, sink).
End PacketWriter.
Arguments PacketWriter {F} K.

(** ** Building packets *)
Section Building.
Context `{F : Flate2, !Flate2Laws F} {K : Type} `{HK : SealingKey K, !SealingKeyLaws K}.

Lemma with_sealed_buffer (pw : PacketWriter K) v k b :
  with_sealed k b (with_buffer v pw) = with_sealed k b pw.
Proof. done. Qed.

Lemma with_buffer_same (pw : PacketWriter K) v :
  v = pw.(write_buffer).(buffer) -> with_buffer v pw = pw.
Proof. intros ->. by destruct pw as [? ? ? []]. Qed.

Lemma prefix_zeros (pre : bytes) :
  vec_resize (zlen pre + PACKET_PREFIX_LEN) 0 pre = pre ++ [0; 0; 0; 0; 0].
Proof.
  rewrite vec_resize_grow by (unfold PACKET_PREFIX_LEN, PACKET_LENGTH_LEN; lia).
  by replace (zlen pre + PACKET_PREFIX_LEN - zlen pre) with 5 by (unfold PACKET_PREFIX_LEN, PACKET_LENGTH_LEN; lia).
Qed.

(** The in-place tail of both paths. *)
Lemma finish_into_write rng (pw : PacketWriter K) payload :
  fills rng ->
  finish_into rng (zlen pw.(write_buffer).(buffer)) (zlen payload)
    (with_buffer (pw.(write_buffer).(buffer) ++ [0; 0; 0; 0; 0] ++ payload) pw) =
  match write pw.(cipher) rng payload pw.(write_buffer) with
  | Some (k, b) => (Ok tt, with_sealed k b pw)
  | None => (Panic, with_buffer (pw.(write_buffer).(buffer) ++ [0; 0; 0; 0; 0] ++ payload) pw)
  end.
Proof.
  intros Hr. unfold finish_into. cbn [cipher write_buffer with_buffer].
  rewrite (finish_packet_seal_after _ _ pw.(write_buffer).(buffer) [0; 0; 0; 0; 0] payload) by done.
  rewrite write_seal_after by done.
  destruct pw as [? ? ? [] ? ?]. cbn.
  unfold seal_after, set_buffer. cbn. repeat case_match; simplify_eq; done.
Qed.

Lemma write_packet_in_place_core rng (f : writer Error.error) (pw : PacketWriter K) p r :
  fills rng -> pw.(compress_state) = CompressNone ->
  (forall w, f w = (r, w ++ p)) ->
  match r with
  | Ok tt => packet_raw rng p pw = write_packet rng f pw \/
             (packet_raw rng p pw).1 = Panic /\ (write_packet rng f pw).1 = Panic
  | Err e => write_packet rng f pw = (Err e, pw)
  | Panic => (write_packet rng f pw).1 = Panic
  end.
Proof.
  intros Hr Hc Hf. unfold write_packet, write_packet_in_place, write_payload_into_output, packet_raw.
  rewrite Hc. cbn [is_none_compress]. unfold st_bind, st_get, st_ret. rewrite prefix_zeros, Hf.
  destruct r as [[]|e|]; [|f_equal|done].
  - replace (zlen ((_ ++ [0; 0; 0; 0; 0]) ++ p) - _) with (zlen p)
      by (unfold PACKET_PREFIX_LEN, PACKET_LENGTH_LEN; zlia).
    destruct p as [|x p].
    + left. cbn [zlen length Z.of_nat Z.eqb]. f_equal. symmetry. apply with_buffer_same.
      rewrite <- app_assoc. unfold vec_truncate. by rewrite ztake_app_exact.
    + replace (zlen (x :: p) =? 0) with false
        by (symmetry; apply Z.eqb_neq; rewrite zlen_cons; pose proof (zlen_nonneg p); lia).
      rewrite <- app_assoc, finish_into_write by done.
      destruct (write _ _ _ _) as [[k b]|]; [by left|by right].
  - apply with_buffer_same. rewrite <- app_assoc. unfold vec_truncate. by rewrite ztake_app_exact.
Qed.

(** Building a packet in place is the same as building it aside: when
    compression is off, [PacketWriter::write_packet] with a closure that
    appends [p] has the effect of [packet_raw(p)] (the same sealed bytes,
    counters and key; an empty packet leaves no trace), and when the closure
    fails, the error is returned and the writer is as it was, the reserved
    prefix and partial payload removed. *)
Theorem write_packet_in_place_spec rng (f : writer Error.error) (pw : PacketWriter K) p r :
  fills rng -> pw.(compress_state) = CompressNone ->
  (forall w, f w = (r, w ++ p)) ->
  match r with
  | Ok tt => packet_raw rng p pw = write_packet rng f pw \/
             (packet_raw rng p pw).1 = Panic /\ (write_packet rng f pw).1 = Panic
  | Err e => write_packet rng f pw = (Err e, pw)
  | Panic => (write_packet rng f pw).1 = Panic
  end.
Proof. apply write_packet_in_place_core. Qed.

Lemma packet_raw_zlib rng (pw : PacketWriter K) z x p :
  fills rng -> pw.(compress_state) = CompressZlib z -> zlen (x :: p) + 10 <= USIZE_MAX ->
  packet_raw rng (x :: p) pw =
  match compress (CompressZlib z) (x :: p) with
  | Ok (c, z') =>
      if zlen c =? 0 then (Ok tt, with_compress z' pw) else
      match write pw.(cipher) rng c pw.(write_buffer) with
      | Some (k, b) => (Ok tt, with_sealed k b (with_compress z' pw))
      | None => (Panic, with_buffer (pw.(write_buffer).(buffer) ++ [0; 0; 0; 0; 0] ++ c)
                          (with_compress z' pw))
      end
  | Err e => (Err e, pw)
  | Panic => (Panic, pw)
  end.
Proof.
  intros Hr Hc Hl. unfold packet_raw. rewrite Hc. cbn [is_none_compress].
  unfold write_compressed_payload_into_output. rewrite Hc, prefix_zeros.
  rewrite compress_into_spec by (unfold PACKET_PREFIX_LEN, PACKET_LENGTH_LEN; zlia).
  destruct (compress (CompressZlib z) (x :: p)) as [[c z']|e|]; cbn [res_bind]; [| |done].
  - rewrite (ztake_all _ (pw.(write_buffer).(buffer) ++ [0; 0; 0; 0; 0]))
      by (unfold PACKET_PREFIX_LEN, PACKET_LENGTH_LEN; zlia).
    destruct (Z.eqb_spec (zlen c) 0) as [H0|H0].
    + apply zlen_0_nil in H0 as ->. f_equal.
      apply (with_buffer_same (with_compress z' pw)). rewrite app_nil_r.
      unfold vec_truncate. by rewrite ztake_app_exact.
    + pose proof (finish_into_write rng (with_compress z' pw) c Hr) as Hw.
      cbn [cipher write_buffer with_compress] in Hw. rewrite <- app_assoc, Hw.
      by destruct (write _ _ _ _) as [[k b]|].
  - f_equal. apply with_buffer_same. unfold vec_truncate. by rewrite ztake_app_exact.
Qed.

(** Compression is transparent to packet building: with a [zlib] stream,
    [packet_raw] of a payload seals what [Compress::compress] makes of it
    (nothing at all when that is empty), and a compression error leaves the
    writer as it was. *)
Theorem packet_raw_compressed rng (pw : PacketWriter K) z x p c z' :
  fills rng -> pw.(compress_state) = CompressZlib z -> zlen (x :: p) + 10 <= USIZE_MAX ->
  (compress (CompressZlib z) (x :: p) = Ok (c, z') -> c <> [] ->
   forall k b, write pw.(cipher) rng c pw.(write_buffer) = Some (k, b) ->
   packet_raw rng (x :: p) pw = (Ok tt, with_sealed k b (with_compress z' pw))) /\
  (compress (CompressZlib z) (x :: p) = Ok ([], z') ->
   packet_raw rng (x :: p) pw = (Ok tt, with_compress z' pw)) /\
  (forall e, compress (CompressZlib z) (x :: p) = Err e -> packet_raw rng (x :: p) pw = (Err e, pw)).
Proof.
  intros Hr Hc Hl. rewrite (packet_raw_zlib rng pw z x p) by done. split; [|split].
  - intros -> Hne k b ->. destruct (Z.eqb_spec (zlen c) 0) as [H0|]; [|done].
    by apply zlen_0_nil in H0.
  - by intros ->.
  - by intros e ->.
Qed.

(** *** Every packet operation only appends to the write buffer *)

Lemma seal_after_appends k rng pre payload b k' b' :
  seal_after k rng pre payload b = Some (k', b') -> exists p, b'.(buffer) = pre ++ p.
Proof. unfold seal_after. intros H. repeat case_match; simplify_eq. by eexists. Qed.

Definition appended (pw pw' : PacketWriter K) : Prop :=
  (exists p, pw'.(write_buffer).(buffer) = pw.(write_buffer).(buffer) ++ p) /\
  pw'.(flush_cursor) = pw.(flush_cursor) /\ pw'.(drained_total) = pw.(drained_total).

Lemma appended_refl pw : appended pw pw.
Proof. split; [|done]. exists []. by rewrite app_nil_r. Qed.

Lemma packet_raw_appends rng buf (pw pw' : PacketWriter K) r :
  fills rng -> zlen buf + 10 <= USIZE_MAX ->
  packet_raw rng buf pw = (r, pw') -> r <> Panic -> appended pw pw'.
Proof.
  intros Hr Hl H Hp. destruct buf as [|x buf]; [cbn in H; simplify_eq; apply appended_refl|].
  assert (Happ : forall c k b, write pw.(cipher) rng c pw.(write_buffer) = Some (k, b) ->
    exists p, b.(buffer) = pw.(write_buffer).(buffer) ++ p).
  { intros c k b Hw. rewrite write_seal_after in Hw by done. by apply seal_after_appends in Hw. }
  destruct (pw.(compress_state)) as [|z] eqn:Hc.
  - unfold packet_raw in H. rewrite Hc in H. cbn [is_none_compress] in H.
    destruct (write _ _ _ _) as [[k b]|] eqn:Hw; simplify_eq. split; [eauto|done].
  - rewrite (packet_raw_zlib rng pw z x buf) in H by done.
    destruct (compress _ _) as [[c z']|e|]; [|simplify_eq; apply appended_refl|by simplify_eq].
    destruct (zlen c =? 0); [simplify_eq; exact (appended_refl pw)|].
    destruct (write _ _ _ _) as [[k b]|] eqn:Hw; simplify_eq. split; [eauto|done].
Qed.

Lemma appended_packet_buffer v (pw pw' : PacketWriter K) :
  appended pw pw' -> appended pw (with_packet_buffer v pw').
Proof. done. Qed.

(** A closure that keeps what is already in the vector. *)
Definition append_only (f : writer Error.error) : Prop :=
  exists r p, (forall w, f w = (r, w ++ p)) /\ zlen p + 10 <= USIZE_MAX.

Lemma write_packet_appends rng f (pw pw' : PacketWriter K) r :
  fills rng -> append_only f -> write_packet rng f pw = (r, pw') -> r <> Panic -> appended pw pw'.
Proof.
  intros Hr (rf & p & Hf & Hl) H Hnp. destruct (is_none_compress pw.(compress_state)) eqn:Hc.
  - assert (Hcn : pw.(compress_state) = CompressNone) by (by destruct (pw.(compress_state))).
    pose proof (write_packet_in_place_core rng f pw p rf Hr Hcn Hf) as Hs.
    destruct rf as [[]|e|]; [|rewrite Hs in H; simplify_eq; apply appended_refl|by rewrite H in Hs; simplify_eq/=].
    destruct Hs as [Hs|[_ Hs]]; [|by rewrite H in Hs; simplify_eq/=].
    rewrite H in Hs. by apply packet_raw_appends in Hs.
  - unfold write_packet, prepare_packet in H. rewrite Hc, Hf in H.
    destruct rf as [[]|e|]; [|simplify_eq; by apply appended_packet_buffer, appended_refl|by simplify_eq].
    destruct (packet_raw rng ([] ++ p) (with_packet_buffer [] pw)) as [r1 pw1] eqn:Hraw. simplify_eq.
    by apply packet_raw_appends in Hraw.
Qed.

Lemma packet_bytes_appends rng f (pw pw' : PacketWriter K) r :
  fills rng -> append_only f -> packet_bytes rng f pw = (r, pw') -> r <> Panic -> appended pw pw'.
Proof.
  intros Hr (rf & p & Hf & Hl) H Hnp. unfold packet_bytes in H. rewrite Hf in H.
  destruct rf as [[]|e|]; [|simplify_eq; apply appended_refl|by simplify_eq].
  destruct (packet_raw rng ([] ++ p) pw) as [[[]|e|] pw1] eqn:Hraw; simplify_eq;
    by apply packet_raw_appends in Hraw.
Qed.

Lemma packet_appends rng f (pw pw' : PacketWriter K) r :
  fills rng -> append_only f -> packet rng f pw = (r, pw') -> r <> Panic -> appended pw pw'.
Proof.
  intros Hr (rf & p & Hf & Hl) H Hnp. unfold packet, prepare_packet in H. rewrite Hf in H.
  destruct rf as [[]|e|]; [|simplify_eq; by apply appended_packet_buffer, appended_refl|by simplify_eq].
  destruct (packet_raw rng ([] ++ p) (with_packet_buffer [] pw)) as [[[]|e|] pw1] eqn:Hraw; simplify_eq;
    by apply packet_raw_appends in Hraw.
Qed.
End Building.

(** ** The byte stream that leaves the connection *)
Section Stream.
Context `{F : Flate2, !Flate2Laws F} {K : Type} `{HK : SealingKey K, !SealingKeyLaws K}.

(** The contract of [AsyncWrite]: never more bytes than offered ([rem] are
    left in the buffer). *)
Fixpoint writes_fit (outs : list io_outcome) (rem : Z) : Prop :=
  match outs with
  | Wrote n :: outs' => 0 <= n <= rem /\ writes_fit outs' (rem - n)
  | _ :: outs' => writes_fit outs' rem
  | [] => True
  end.

(** The writer, what the socket has received, and what was ever staged. *)
Abbreviation stream_state := (PacketWriter K * bytes * bytes)%type.

Definition staged_by (pw pw' : PacketWriter K) : bytes :=
  zdrop (zlen pw.(write_buffer).(buffer)) pw'.(write_buffer).(buffer).

(** One call of a method of [PacketWriter], by the session loop. *)
Inductive stream_step : stream_state -> stream_state -> Prop :=
| step_write_packet rng f r pw pw' sink staged :
    fills rng -> append_only f -> write_packet rng f pw = (r, pw') -> r <> Panic ->
    stream_step (pw, sink, staged) (pw', sink, staged ++ staged_by pw pw')
| step_packet_raw rng buf r pw pw' sink staged :
    fills rng -> zlen buf + 10 <= USIZE_MAX -> packet_raw rng buf pw = (r, pw') -> r <> Panic ->
    stream_step (pw, sink, staged) (pw', sink, staged ++ staged_by pw pw')
| step_packet rng f r pw pw' sink staged :
    fills rng -> append_only f -> packet rng f pw = (r, pw') -> r <> Panic ->
    stream_step (pw, sink, staged) (pw', sink, staged ++ staged_by pw pw')
| step_packet_bytes rng f r pw pw' sink staged :
    fills rng -> append_only f -> packet_bytes rng f pw = (r, pw') -> r <> Panic ->
    stream_step (pw, sink, staged) (pw', sink, staged ++ staged_by pw pw')
| step_send_ssh_id id pw sink staged :
    let pw' := with_sealed pw.(cipher) (send_ssh_id id pw.(write_buffer)) pw in
    stream_step (pw, sink, staged) (pw', sink, staged ++ staged_by pw pw')
| step_set_cipher k pw sink staged :
    stream_step (pw, sink, staged) (set_cipher k pw, sink, staged)
| step_reset_seqn pw sink staged :
    stream_step (pw, sink, staged) (reset_seqn pw, sink, staged)
| step_set_compress c pw sink staged :
    stream_step (pw, sink, staged) (with_compress c pw, sink, staged)
| step_flush outs pw sink staged r pw' sink' :
    writes_fit outs (zlen pw.(write_buffer).(buffer) - pw.(flush_cursor)) ->
    flush_into outs 0 pw sink = (r, pw', sink') ->
    stream_step (pw, sink, staged) (pw', sink', staged).

Inductive stream_reach (s0 : stream_state) : stream_state -> Prop :=
| reach_refl : stream_reach s0 s0
| reach_step s1 s2 : stream_reach s0 s1 -> stream_step s1 s2 -> stream_reach s0 s2.

Definition stream_inv (s : stream_state) : Prop :=
  let '(pw, sink, staged) := s in
  let buf := pw.(write_buffer).(buffer) in
  0 <= pw.(flush_cursor) <= zlen buf /\
  staged = sink ++ zdrop pw.(flush_cursor) buf /\
  pw.(drained_total) = Z.min (zlen sink) USIZE_MAX.

Lemma appended_inv pw pw' sink staged :
  appended pw pw' -> stream_inv (pw, sink, staged) ->
  stream_inv (pw', sink, staged ++ staged_by pw pw').
Proof.
  unfold stream_inv, staged_by. intros ((p & Hp) & Hc & Hd) (Hr & -> & Hdt).
  rewrite Hp, Hc, Hd, zdrop_app_exact by done. split; [|split; [|done]].
  - rewrite zlen_app. pose proof (zlen_nonneg p). lia.
  - by rewrite zdrop_app_le, app_assoc by lia.
Qed.

Lemma flush_into_inv outs : forall written pw sink staged r pw' sink',
  writes_fit outs (zlen pw.(write_buffer).(buffer) - pw.(flush_cursor)) ->
  flush_into outs written pw sink = (r, pw', sink') ->
  stream_inv (pw, sink, staged) ->
  stream_inv (pw', sink', staged) /\
  match r with FlushOk _ => pw'.(write_buffer).(buffer) = [] /\ sink' = staged | _ => True end.
Proof.
  induction outs as [|o outs IH]; intros written pw sink staged r pw' sink' Hfit H Hinv;
    cbn [flush_into] in H.
  all: destruct (Z.ltb_spec pw.(flush_cursor) (zlen pw.(write_buffer).(buffer))) as [Hlt|Hge].
  all: try (destruct (beq _ []) eqn:He; cbn [negb] in H; [apply beq_true in He|]).
  all: try (by simplify_eq; split; [done|];
    destruct Hinv as (Hr & -> & _); rewrite He; unfold zdrop; by rewrite drop_nil, app_nil_r).
  all: try destruct o as [n| |k]; try (by simplify_eq).
  - cbn [writes_fit] in Hfit. destruct Hfit as [Hn Hfit].
    destruct (Z.eqb_spec n 0); [by simplify_eq|].
    eapply IH; [|exact H|].
    + cbn [write_buffer with_progress flush_cursor]. replace (_ - (_ + n)) with
        (zlen pw.(write_buffer).(buffer) - pw.(flush_cursor) - n) by lia. done.
    + destruct Hinv as (Hr & -> & Hd). unfold stream_inv, saturating_add.
      cbn [write_buffer with_progress flush_cursor drained_total].
      split; [lia|]. split.
      * rewrite <- app_assoc. f_equal. rewrite <- (ztake_zdrop n (zdrop pw.(flush_cursor) _)) at 1.
        f_equal. rewrite zdrop_zdrop by lia. done.
      * rewrite Hd, zlen_app, zlen_ztake, zlen_zdrop. pose proof (zlen_nonneg sink). lia.
  - simplify_eq. destruct Hinv as (Hr & -> & Hd). rewrite zdrop_all by lia.
    rewrite app_nil_r. split; [|done]. split; [done|]. split; [by rewrite app_nil_r|done].
Qed.

Lemma stream_step_inv s s' : stream_step s s' -> stream_inv s -> stream_inv s'.
Proof.
  destruct 1; intros Hinv.
  - eapply appended_inv; [by eapply write_packet_appends|done].
  - eapply appended_inv; [by eapply packet_raw_appends|done].
  - eapply appended_inv; [by eapply packet_appends|done].
  - eapply appended_inv; [by eapply packet_bytes_appends|done].
  - apply appended_inv; [|done]. split; [|done]. destruct id; cbn; eauto.
  - done.
  - done.
  - done.
  - eapply flush_into_inv in Hinv; [apply Hinv|done..].
Qed.

Lemma stream_reach_inv s0 s : stream_reach s0 s -> stream_inv s0 -> stream_inv s.
Proof. induction 1; intros; [done|]. eapply stream_step_inv; eauto. Qed.

(** C10. No byte of the outbound stream is lost, duplicated or reordered: after
    any interleaving of packets staged, key, sequence-number and compression
    changes and flushes, each flush being cut short anywhere by an error, a
    partial write or the cancellation of its future, what the socket received
    followed by the unflushed rest of the write buffer is exactly what was
    staged, in order, and [drained_total] counts exactly the bytes that
    reached the socket. *)
Theorem outbound_stream k c pw sink staged :
  stream_reach (PacketWriter_new k c, [], []) (pw, sink, staged) ->
  sink ++ zdrop pw.(flush_cursor) pw.(write_buffer).(buffer) = staged /\
  pw.(drained_total) = Z.min (zlen sink) USIZE_MAX /\
  (has_pending pw = false -> sink = staged).
Proof.
  intros H. apply stream_reach_inv in H as (Hr & -> & Hd); [|done].
  split; [done|]. split; [done|]. intros Hp. unfold has_pending in Hp.
  apply negb_false_iff, beq_true in Hp. rewrite Hp. unfold zdrop. by rewrite drop_nil, app_nil_r.
Qed.

Lemma flush_into_all ns : forall written (pw : PacketWriter K) sink,
  Forall (fun n => 0 < n) ns -> 0 <= pw.(flush_cursor) ->
  foldr Z.add 0 ns = zlen pw.(write_buffer).(buffer) - pw.(flush_cursor) ->
  pw.(write_buffer).(buffer) <> [] ->
  exists pw', flush_into (map Wrote ns ++ [Flushed]) written pw sink =
    (FlushOk (written + foldr Z.add 0 ns), pw', sink ++ zdrop pw.(flush_cursor) pw.(write_buffer).(buffer)) /\
    has_pending pw' = false /\ pw'.(flush_cursor) = 0.
Proof.
  induction ns as [|n ns IH]; intros written pw sink Hns Hc Hsum Hne; cbn [foldr map app flush_into] in *.
  - replace (pw.(flush_cursor) <? _) with false by (symmetry; apply Z.ltb_ge; lia).
    destruct (beq _ []) eqn:He; [by apply beq_true in He|]. cbn [negb].
    rewrite zdrop_all, app_nil_r, Z.add_0_r by lia. eexists. split; [done|]. done.
  - apply Forall_cons_iff in Hns as [Hn Hns].
    assert (0 <= foldr Z.add 0 ns).
    { clear -Hns. induction Hns; cbn [foldr]; lia. }
    replace (pw.(flush_cursor) <? _) with true by (symmetry; apply Z.ltb_lt; lia).
    replace (n =? 0) with false by (symmetry; apply Z.eqb_neq; lia).
    destruct (IH (written + n) (with_progress (pw.(flush_cursor) + n) (saturating_add pw.(drained_total) n) pw)
      (sink ++ ztake n (zdrop pw.(flush_cursor) pw.(write_buffer).(buffer)))) as (pw' & -> & Hp & Hf);
      cbn [write_buffer with_progress flush_cursor]; [done|lia|lia|done|].
    exists pw'. split; [|done]. rewrite Z.add_assoc, <- app_assoc. do 3 f_equal.
    rewrite <- (zdrop_zdrop n (flush_cursor pw)) by lia. apply ztake_zdrop.
Qed.

(** A flush completes as soon as the socket has taken everything: however
    the unflushed bytes are split into positive partial writes, [flush_into]
    then succeeds, leaves an empty buffer and has delivered exactly the
    pending bytes. *)
Theorem flush_into_completes ns (pw : PacketWriter K) sink :
  Forall (fun n => 0 < n) ns -> 0 <= pw.(flush_cursor) ->
  foldr Z.add 0 ns = zlen pw.(write_buffer).(buffer) - pw.(flush_cursor) ->
  pw.(write_buffer).(buffer) <> [] ->
  exists pw', flush_into (map Wrote ns ++ [Flushed]) 0 pw sink =
    (FlushOk (foldr Z.add 0 ns), pw', sink ++ zdrop pw.(flush_cursor) pw.(write_buffer).(buffer)) /\
    has_pending pw' = false /\ pw'.(flush_cursor) = 0.
Proof. intros. by apply (flush_into_all ns 0). Qed.
End Stream.

(** ** Concrete runs, over [clear::Key] *)
Module WriterExample.
#[local] Existing Instance Doubling.flate2.
#[local] Existing Instance Doubling.flate2_laws.

Definition zeros (n : Z) : bytes := replicate (Z.to_nat n) 0.
Lemma pad_zeros_fills : fills zeros.
Proof. intros m Hm. by apply Clear.zeros_fill. Qed.

Definition plain : PacketWriter Clear.Key := PacketWriter_new Clear.mkKey CompressNone.
Definition zipped : PacketWriter Clear.Key := PacketWriter_new Clear.mkKey (CompressZlib zcomp_new).

Lemma write_packet_in_place_spec_witness :
  write_packet zeros (push_bytes [94; 1] ;;; st_err Error.Inconsistent) plain = (Err Error.Inconsistent, plain).
Proof.
  apply (write_packet_in_place_spec zeros (push_bytes [94; 1] ;;; st_err Error.Inconsistent) plain [94; 1]
    (Err Error.Inconsistent)); [apply pad_zeros_fills|reflexivity|reflexivity].
Defined.

Lemma packet_raw_compressed_witness :
  packet_raw zeros [94; 1] zipped =
    (Ok tt, with_sealed Clear.mkKey
      (mkSSHBuffer [0; 0; 0; 12; 7; 94; 94; 1; 1; 0; 0; 0; 0; 0; 0; 0] 0 4 1)
      (with_compress (CompressZlib ((2, 4, []) : @zcomp Doubling.flate2)) zipped)).
Proof.
  apply (packet_raw_compressed zeros zipped zcomp_new 94 [1] [94; 94; 1; 1]
    (CompressZlib ((2, 4, []) : @zcomp Doubling.flate2)));
    [apply pad_zeros_fills|reflexivity|vm_compute; discriminate|reflexivity|discriminate|reflexivity].
Defined.

Definition staged_packet : PacketWriter Clear.Key := (packet_raw zeros [94; 1] plain).2.

Lemma outbound_stream_witness :
  [0; 0; 0; 12] ++ [9; 94; 1; 0; 0; 0; 0; 0; 0; 0; 0; 0] =
  [0; 0; 0; 12; 9; 94; 1; 0; 0; 0; 0; 0; 0; 0; 0; 0].
Proof.
  apply (outbound_stream Clear.mkKey CompressNone
    (with_progress 4 4 staged_packet) [0; 0; 0; 12]
    [0; 0; 0; 12; 9; 94; 1; 0; 0; 0; 0; 0; 0; 0; 0; 0]).
  apply (reach_step _ (staged_packet, [], [0; 0; 0; 12; 9; 94; 1; 0; 0; 0; 0; 0; 0; 0; 0; 0])).
  - apply (reach_step _ (plain, [], [])); [apply reach_refl|].
    apply (step_packet_raw zeros [94; 1] (Ok tt) plain staged_packet [] []);
      [apply pad_zeros_fills|vm_compute; discriminate|reflexivity|discriminate].
  - apply (step_flush [Wrote 4] _ _ _ Cancelled); [vm_compute; intuition discriminate|reflexivity].
Defined.

Lemma flush_into_completes_witness :
  exists pw', flush_into (map Wrote [4; 12] ++ [Flushed]) 0 staged_packet [] =
    (FlushOk 16, pw', [0; 0; 0; 12; 9; 94; 1; 0; 0; 0; 0; 0; 0; 0; 0; 0]) /\
    has_pending pw' = false /\ pw'.(flush_cursor) = 0.
Proof.
  apply (flush_into_completes [4; 12] staged_packet []);
    [repeat constructor|vm_compute; discriminate|reflexivity|discriminate].
Defined.
End WriterExample.
