(* ===== verification/Negotiation.v ===== *)
(** * Algorithm negotiation ([russh/src/negotiation.rs])

    Each side sends a KEXINIT with its preferences ([write_kex]) and reads the
    peer's ([read_kex]).  Algorithm names are strings; host key algorithms and
    keys belong to the [ssh_key] crate and are parameters. *)

From stdpp Require Import base list numbers option strings.
From Stdlib Require Import ZArith Lia.
From S2P Require Import Prelude Encoding LibInner Msg Cipher NameList Compression CipherImpls.
From S2P Require Import PacketWriter Parsing.

(** ** Names *)
Module kex.
Definition CURVE25519 : bytes := str "curve25519-sha256".
Definition CURVE25519_PRE_RFC_8731 : bytes := str "curve25519-sha256@libssh.org".
Definition MLKEM768X25519_SHA256 : bytes := str "mlkem768x25519-sha256".
Definition DH_GEX_SHA1 : bytes := str "diffie-hellman-group-exchange-sha1".
Definition DH_GEX_SHA256 : bytes := str "diffie-hellman-group-exchange-sha256".
Definition DH_G1_SHA1 : bytes := str "diffie-hellman-group1-sha1".
Definition DH_G14_SHA1 : bytes := str "diffie-hellman-group14-sha1".
Definition DH_G14_SHA256 : bytes := str "diffie-hellman-group14-sha256".
Definition DH_G15_SHA512 : bytes := str "diffie-hellman-group15-sha512".
Definition DH_G16_SHA512 : bytes := str "diffie-hellman-group16-sha512".
Definition DH_G17_SHA512 : bytes := str "diffie-hellman-group17-sha512".
Definition DH_G18_SHA512 : bytes := str "diffie-hellman-group18-sha512".
Definition ECDH_SHA2_NISTP256 : bytes := str "ecdh-sha2-nistp256".
Definition ECDH_SHA2_NISTP384 : bytes := str "ecdh-sha2-nistp384".
Definition ECDH_SHA2_NISTP521 : bytes := str "ecdh-sha2-nistp521".
Definition NONE : bytes := str "none".
Definition EXTENSION_SUPPORT_AS_CLIENT : bytes := str "ext-info-c".
Definition EXTENSION_SUPPORT_AS_SERVER : bytes := str "ext-info-s".
Definition EXTENSION_OPENSSH_STRICT_KEX_AS_CLIENT : bytes := str "kex-strict-c-v00@openssh.com".
Definition EXTENSION_OPENSSH_STRICT_KEX_AS_SERVER : bytes := str "kex-strict-s-v00@openssh.com".

(** The keys of the table [KEXES]. *)
Definition KEXES : list bytes :=
  [MLKEM768X25519_SHA256; CURVE25519; CURVE25519_PRE_RFC_8731; DH_GEX_SHA1; DH_GEX_SHA256;
   DH_G18_SHA512; DH_G17_SHA512; DH_G16_SHA512; DH_G15_SHA512; DH_G14_SHA256; DH_G14_SHA1;
   DH_G1_SHA1; ECDH_SHA2_NISTP256; ECDH_SHA2_NISTP384; ECDH_SHA2_NISTP521; NONE].

(** [Name::try_from]. *)
Definition try_from (s : bytes) : option bytes := List.find (fun x => beq x s) KEXES.
End kex.

Module cipher_names.
Definition CLEAR : bytes := str "clear".
Definition TRIPLE_DES_CBC : bytes := str "3des-cbc".
Definition AES_128_CTR : bytes := str "aes128-ctr".
Definition AES_192_CTR : bytes := str "aes192-ctr".
Definition AES_128_CBC : bytes := str "aes128-cbc".
Definition AES_192_CBC : bytes := str "aes192-cbc".
Definition AES_256_CBC : bytes := str "aes256-cbc".
Definition AES_256_CTR : bytes := str "aes256-ctr".
Definition AES_128_GCM : bytes := str "aes128-gcm@openssh.com".
Definition AES_256_GCM : bytes := str "aes256-gcm@openssh.com".
Definition CHACHA20_POLY1305 : bytes := str "chacha20-poly1305@openssh.com".
Definition NONE : bytes := str "none".

(** The table [CIPHERS], each cipher by what its [needs_mac] answers. *)
Definition CIPHERS : list (bytes * bool) :=
  [(CLEAR, false); (NONE, false); (TRIPLE_DES_CBC, true); (AES_128_CTR, true);
   (AES_192_CTR, true); (AES_256_CTR, true); (AES_128_GCM, false); (AES_256_GCM, false);
   (AES_128_CBC, true); (AES_192_CBC, true); (AES_256_CBC, true); (CHACHA20_POLY1305, false)].

(** [CIPHERS.get(&cipher).map(|x| x.needs_mac()).unwrap_or(false)]. *)
Definition needs_mac (cipher : bytes) : bool :=
  match List.find (fun x => beq x.1 cipher) CIPHERS with Some x => x.2 | None => false end.
End cipher_names.

Definition MAC_NONE : bytes := str "none".
Definition HMAC_SHA256 : bytes := str "hmac-sha2-256".
Definition HMAC_SHA512 : bytes := str "hmac-sha2-512".
Definition HMAC_SHA256_ETM : bytes := str "hmac-sha2-256-etm@openssh.com".
Definition HMAC_SHA512_ETM : bytes := str "hmac-sha2-512-etm@openssh.com".

(** ** Host keys, from [ssh_key] *)
Class SshKeys : Type := {
  Algorithm : Type;
  PrivateKey : Type;
  (** [Algorithm::as_ref], [to_string] *)
  alg_str : Algorithm -> bytes;
  alg_eqb : Algorithm -> Algorithm -> bool;
  (** [Algorithm::is_rsa]; the pattern [Algorithm::Rsa { .. }] *)
  is_rsa : Algorithm -> bool;
  (** [PrivateKey::algorithm] *)
  algorithm : PrivateKey -> Algorithm;
}.

Section Preferred.
Context {SK : SshKeys}.

Record Names : Type := mkNames {
  n_kex : bytes;
  n_key : Algorithm;
  n_cipher : bytes;
  client_mac : bytes;
  server_mac : bytes;
  server_compression : Compression;
  client_compression : Compression;
  ignore_guessed : bool;
  strict_kex : bool;
}.

Record Preferred : Type := mkPreferred {
  p_kex : list bytes;
  p_key : list Algorithm;
  p_cipher : list bytes;
  p_mac : list bytes;
  p_compression : list bytes;
}.

Definition is_key_compatible_with_algo (key : PrivateKey) (algo : Algorithm) : bool :=
  if is_rsa algo then is_rsa (algorithm key) else alg_eqb (algorithm key) algo.

Definition possible_host_key_algos_for_keys (pref : Preferred) (available : list PrivateKey)
  : list Algorithm :=
  List.filter (fun n => existsb (fun k => is_key_compatible_with_algo k n) available) pref.(p_key).
End Preferred.

Definition KEX_EXTENSION_NAMES : list bytes :=
  [kex.EXTENSION_SUPPORT_AS_CLIENT; kex.EXTENSION_SUPPORT_AS_SERVER;
   kex.EXTENSION_OPENSSH_STRICT_KEX_AS_CLIENT; kex.EXTENSION_OPENSSH_STRICT_KEX_AS_SERVER].

Definition SAFE_KEX_ORDER : list bytes :=
  [kex.MLKEM768X25519_SHA256; kex.CURVE25519; kex.CURVE25519_PRE_RFC_8731; kex.DH_GEX_SHA256;
   kex.DH_G18_SHA512; kex.DH_G17_SHA512; kex.DH_G16_SHA512; kex.DH_G15_SHA512; kex.DH_G14_SHA256;
   kex.EXTENSION_SUPPORT_AS_CLIENT; kex.EXTENSION_SUPPORT_AS_SERVER;
   kex.EXTENSION_OPENSSH_STRICT_KEX_AS_CLIENT; kex.EXTENSION_OPENSSH_STRICT_KEX_AS_SERVER].

Definition CIPHER_ORDER : list bytes :=
  [cipher_names.CHACHA20_POLY1305; cipher_names.AES_256_GCM; cipher_names.AES_256_CTR;
   cipher_names.AES_192_CTR; cipher_names.AES_128_CTR].

Definition SAFE_HMAC_ORDER : list bytes :=
  [HMAC_SHA512_ETM; HMAC_SHA256_ETM; HMAC_SHA512; HMAC_SHA256].

Definition COMPRESSION_ORDER : list bytes :=
  [str "none"; str "zlib"; str "zlib@openssh.com"].

(** [KexCause]. *)
Inductive KexCause : Type := Initial | Rekey (strict : bool) (session_id : bytes).
Definition is_strict_rekey (c : KexCause) : bool :=
  match c with Rekey strict _ => strict | Initial => false end.
Definition is_rekey (c : KexCause) : bool :=
  match c with Rekey _ _ => true | Initial => false end.
Definition session_id (c : KexCause) : option bytes :=
  match c with Rekey _ id => Some id | Initial => None end.

(** ** Selection

    The two nested loops over the client's and the server's names; [both] is
    [both_first_choice], which every comparison that fails resets. *)
Section Find.
Context {C S : Type} (cs : C -> bytes) (ss : S -> bytes).

Fixpoint find_server (c : C) (server_list : list S) (both : bool) : (bool * C * S) + bool :=
  match server_list with
  | [] => inr both
  | s :: l => if beq (cs c) (ss s) then inl (both, c, s) else find_server c l false
  end.

Fixpoint find_common (client_list : list C) (server_list : list S) (both : bool)
  : option (bool * C * S) :=
  match client_list with
  | [] => None
  | c :: l =>
      match find_server c server_list both with
      | inl found => Some found
      | inr both' => find_common l server_list both'
      end
  end.
End Find.

(** The trait: [select ours theirs kind]. *)
Class Select : Type := {
  is_server : bool;
  select : forall {A B : Type}, (A -> bytes) -> (B -> bytes) -> list A -> list B -> AlgorithmKind ->
    Result (bool * A);
}.

Definition Server_select {A B} (fa : A -> bytes) (fb : B -> bytes) (server_list : list A)
  (client_list : list B) (kind : AlgorithmKind) : Result (bool * A) :=
  match find_common fb fa client_list server_list true with
  | Some (both, _, s) => Ok (both, s)
  | None => Err (Error.NoCommonAlgo kind (map fa server_list) (map fb client_list))
  end.

Definition Client_select {A B} (fa : A -> bytes) (fb : B -> bytes) (client_list : list A)
  (server_list : list B) (kind : AlgorithmKind) : Result (bool * A) :=
  match find_common fa fb client_list server_list true with
  | Some (both, c, _) => Ok (both, c)
  | None => Err (Error.NoCommonAlgo kind (map fa client_list) (map fb server_list))
  end.

Definition Server : Select := {| is_server := true; select := @Server_select |}.
Definition Client : Select := {| is_server := false; select := @Client_select |}.

(** ** Reading a KEXINIT *)
Section ReadKex.
Context {enc : SshEncoding} {SK : SshKeys} (role : Select).

Definition name_list (r : bytes) : Result (list bytes * bytes) := enc_err (NameList.decode r).

(** [Self::select] on string-like names. *)
Definition select_name (ours theirs : list bytes) (kind : AlgorithmKind) : Result (bool * bytes) :=
  select (fun x => x) (fun x => x) ours theirs kind.

Definition local_kexes_no_ext (pref : Preferred) : list bytes :=
  List.filter (fun k => negb (memb k KEX_EXTENSION_NAMES)) pref.(p_kex).

Definition remote_kexes_no_ext (kex_list : list bytes) : list bytes :=
  List.filter (fun k =>
    match option_map (fun k => negb (memb k KEX_EXTENSION_NAMES)) (kex.try_from k) with
    | Some b => b
    | None => true
    end) kex_list.

Definition strict_kex_requested (pref : Preferred) : bool :=
  memb (if is_server then kex.EXTENSION_OPENSSH_STRICT_KEX_AS_SERVER
        else kex.EXTENSION_OPENSSH_STRICT_KEX_AS_CLIENT) pref.(p_kex).

Definition strict_kex_provided (kex_list : list bytes) : bool :=
  is_ok (select_name
    [if is_server then kex.EXTENSION_OPENSSH_STRICT_KEX_AS_CLIENT
     else kex.EXTENSION_OPENSSH_STRICT_KEX_AS_SERVER] kex_list KindKex).

(** One of the two MAC directions. *)
Definition select_mac (pref : Preferred) (need_mac : bool) (mac_list : list bytes) : Result bytes :=
  match select_name pref.(p_mac) mac_list KindMac with
  | Ok (_, m) => Ok m
  | Err e => if need_mac then Err e else Ok MAC_NONE
  | Panic => Panic
  end.

Definition read_kex (buffer : bytes) (pref : Preferred) (available_host_keys : option (list PrivateKey))
  (cause : KexCause) : Result Names :=
  if zlen buffer <? 17 then Err Error.Inconsistent
  else
    let r := zdrop 17 buffer in
    let? (kex_list, r) := name_list r in
    let? (kex_both_first, kex_algorithm) :=
      select_name (local_kexes_no_ext pref) (remote_kexes_no_ext kex_list) KindKex in
    let? (key_list, r) := name_list r in
    let possible := match available_host_keys with
      | Some keys => possible_host_key_algos_for_keys pref keys
      | None => pref.(p_key)
      end in
    let? (key_both_first, key_algorithm) := select alg_str (fun x => x) possible key_list KindKey in
    let? (cipher_list, r) := name_list r in
    let? (_, cipher) := select_name pref.(p_cipher) cipher_list KindCipher in
    let? (_, r) := enc_err (decode_string r) in
    let need_mac := cipher_names.needs_mac cipher in
    let? (mac_list, r) := name_list r in
    let? client_mac := select_mac pref need_mac mac_list in
    let? (mac_list, r) := name_list r in
    let? server_mac := select_mac pref need_mac mac_list in
    let? (compression_list, r) := name_list r in
    let? (_, client_compression) := select_name pref.(p_compression) compression_list KindCompression in
    let? (compression_list, r) := name_list r in
    let? (_, server_compression) := select_name pref.(p_compression) compression_list KindCompression in
    let? (_, r) := enc_err (decode_string r) in
    let? (_, r) := enc_err (decode_string r) in
    let? (follows, r) := enc_err (decode_u8 r) in
    let? (_, r) := enc_err (decode_u32 r) in
    let? _ := ensure_end r in
    Ok (mkNames kex_algorithm key_algorithm cipher client_mac server_mac
      (Compression_new server_compression) (Compression_new client_compression)
      (negb (follows =? 0) && negb (kex_both_first && key_both_first))
      ((strict_kex_requested pref && strict_kex_provided kex_list) || is_strict_rekey cause)).
End ReadKex.

(** ** Writing a KEXINIT *)
Section WriteKex.
Context {enc : SshEncoding} {SK : SshKeys}.

(** [server_config] is the host keys of the server's configuration, [None] on the
    client. *)
Definition sent_kex (prefs : Preferred) (server_config : option (list PrivateKey)) : list bytes :=
  List.filter (fun k => negb (memb k
    match server_config with
    | Some _ => [kex.EXTENSION_SUPPORT_AS_CLIENT; kex.EXTENSION_OPENSSH_STRICT_KEX_AS_CLIENT]
    | None => [kex.EXTENSION_SUPPORT_AS_SERVER; kex.EXTENSION_OPENSSH_STRICT_KEX_AS_SERVER]
    end)) prefs.(p_kex).

Definition sent_keys (prefs : Preferred) (server_config : option (list PrivateKey)) : list bytes :=
  match server_config with
  | Some keys =>
      map alg_str (List.filter (fun algo =>
        existsb (fun k => is_key_compatible_with_algo k algo) keys) prefs.(p_key))
  | None => map alg_str prefs.(p_key)
  end.

Fixpoint encode_cookie (cookie : bytes) : writer Error.error :=
  match cookie with
  | [] => st_ret tt
  | b :: l => enc_w (encode_u8 b) ;;; encode_cookie l
  end.

Definition encode_names (l : list bytes) : writer Error.error := enc_w (NameList.encode l).

Definition kexinit (cookie : bytes) (prefs : Preferred) (server_config : option (list PrivateKey))
  : writer Error.error :=
  enc_w (encode_u8 msg.KEXINIT) ;;;
  encode_cookie cookie ;;;
  encode_names (sent_kex prefs server_config) ;;;
  encode_names (sent_keys prefs server_config) ;;;
  encode_names prefs.(p_cipher) ;;;
  encode_names prefs.(p_cipher) ;;;
  encode_names prefs.(p_mac) ;;;
  encode_names prefs.(p_mac) ;;;
  encode_names prefs.(p_compression) ;;;
  encode_names prefs.(p_compression) ;;;
  enc_w (encode_strings []) ;;;
  enc_w (encode_strings []) ;;;
  enc_w (encode_u8 0) ;;;
  enc_w (encode_u32 0).

(** [cookie] is what [safe_rng().fill_bytes] put into the 16 bytes. *)
Definition write_kex `{F : Flate2} {K : Type} `{HK : SealingKey K} (rng : Z -> bytes) (cookie : bytes)
  (prefs : Preferred) (server_config : option (list PrivateKey))
  : st (PacketWriter K) Error.error bytes :=
  packet_bytes rng (kexinit cookie prefs server_config).
End WriteKex.

(** ** Selection: the client's most preferred common name *)

Definition first_common (client server : list bytes) : option bytes :=
  List.find (fun c => memb c server) client.

Section FindLemmas.
Context {C S : Type} (cs : C -> bytes) (ss : S -> bytes).

Lemma find_server_spec c sl both :
  match find_server cs ss c sl both with
  | inl (b, c', s) => c' = c /\ s ∈ sl /\ ss s = cs c /\
      (b = both && bool_decide (head (map ss sl) = Some (cs c)) \/
       b = false /\ head (map ss sl) <> Some (cs c))
  | inr b => memb (cs c) (map ss sl) = false /\ (b = false \/ b = both /\ sl = [])
  end.
Proof.
  revert both. induction sl as [|s sl IH]; intros both; cbn [find_server map]; [by auto|].
  destruct (beq (cs c) (ss s)) eqn:Heq.
  - apply beq_true in Heq. split_and!; [done|by left|done|]. left. cbn.
    rewrite bool_decide_eq_true_2 by congruence. by rewrite andb_true_r.
  - specialize (IH false). apply beq_false in Heq.
    destruct (find_server cs ss c sl false) as [[[b c'] s']|b].
    + destruct IH as (-> & Hs & Hn & Hb). split_and!; [done|by right|done|]. right.
      split; [|cbn; congruence]. destruct Hb as [->|[-> _]]; done.
    + destruct IH as [Hm Hb]. split; [|naive_solver]. cbn [memb existsb] in *.
      unfold memb in Hm. rewrite bool_decide_eq_false_2, Hm by done. done.
Qed.

Lemma find_common_spec cl sl both :
  match find_common cs ss cl sl both with
  | Some (b, c, s) => c ∈ cl /\ s ∈ sl /\ ss s = cs c /\
      first_common (map cs cl) (map ss sl) = Some (cs c) /\
      b = both && bool_decide (head (map cs cl) = head (map ss sl))
  | None => first_common (map cs cl) (map ss sl) = None
  end.
Proof.
  revert both. induction cl as [|c cl IH]; intros both; cbn [find_common map]; [done|].
  pose proof (find_server_spec c sl both) as Hs. unfold first_common in *. cbn [List.find].
  destruct (find_server cs ss c sl both) as [[[b c'] s]|b].
  - destruct Hs as (-> & Hs & Hn & Hb).
    assert (Hm : memb (cs c) (map ss sl) = true).
    { apply memb_true. rewrite <- Hn. by apply list_elem_of_fmap_2. }
    rewrite Hm. split_and!; [by left|done|done|done|]. cbn [head].
    destruct Hb as [->|[-> Hne]].
    + destruct both; cbn [andb]; [apply bool_decide_ext; split; congruence|done].
    + rewrite bool_decide_eq_false_2 by congruence. by rewrite andb_false_r.
  - destruct Hs as [Hm Hb]. rewrite Hm. specialize (IH b).
    destruct (find_common cs ss cl sl b) as [[[b' c'] s]|]; [|done].
    destruct IH as (Hc & Hs & Hn & Hf & ->). split_and!; [by right|done|done|done|]. cbn [head].
    destruct Hb as [->|[-> ->]]; [|by apply not_elem_of_nil in Hs].
    cbn [andb]. symmetry. apply andb_false_intro2, bool_decide_eq_false_2. intros Hh.
    assert (memb (cs c) (map ss sl) = true); [|congruence].
    apply memb_true. destruct (map ss sl); [done|]. simplify_eq/=. by left.
Qed.
End FindLemmas.

(** What both sides select: a name of one's own list. *)
Definition selects {A B} (client server : list bytes) (fa : A -> bytes) (fb : B -> bytes)
  (ours : list A) (theirs : list B) (kind : AlgorithmKind) (r : Result (bool * A)) : Prop :=
  match first_common client server with
  | Some n => exists a, a ∈ ours /\ fa a = n /\ r = Ok (bool_decide (head client = head server), a)
  | None => r = Err (Error.NoCommonAlgo kind (map fa ours) (map fb theirs))
  end.

Lemma Server_selects {A B} (fa : A -> bytes) (fb : B -> bytes) ours theirs kind :
  selects (map fb theirs) (map fa ours) fa fb ours theirs kind (Server_select fa fb ours theirs kind).
Proof.
  unfold selects, Server_select. pose proof (find_common_spec fb fa theirs ours true) as H.
  destruct (find_common fb fa theirs ours true) as [[[b c] s]|]; [|by rewrite H].
  destruct H as (_ & Hs & Hn & -> & ->). eauto.
Qed.

Lemma Client_selects {A B} (fa : A -> bytes) (fb : B -> bytes) ours theirs kind :
  selects (map fa ours) (map fb theirs) fa fb ours theirs kind (Client_select fa fb ours theirs kind).
Proof.
  unfold selects, Client_select. pose proof (find_common_spec fa fb ours theirs true) as H.
  destruct (find_common fa fb ours theirs true) as [[[b c] s]|]; [|by rewrite H].
  destruct H as (Hc & _ & Hn & -> & ->). eauto.
Qed.

(** On both sides [select] returns its own copy of the client's most
    preferred name that the server lists too (RFC 4253 section 7.1), the flag
    telling whether it is the first choice of both, and [NoCommonAlgo] with both
    lists exactly when they share no name. *)
Theorem select_spec {A B} (fa : A -> bytes) (fb : B -> bytes) ours theirs kind :
  selects (map fb theirs) (map fa ours) fa fb ours theirs kind (@select Server _ _ fa fb ours theirs kind) /\
  selects (map fa ours) (map fb theirs) fa fb ours theirs kind (@select Client _ _ fa fb ours theirs kind).
Proof. split; [apply Server_selects|apply Client_selects]. Qed.

(** ** Both sides agree *)

(** Outcomes that agree: both succeed with related values or both fail. *)
Definition agree {E A B} (R : A -> B -> Prop) (x : res E A) (y : res E B) : Prop :=
  match x, y with
  | Ok a, Ok b => R a b
  | Err _, Err _ => True
  | _, _ => False
  end.

Lemma agree_bind {E A B A' B'} (R : A -> B -> Prop) (Q : A' -> B' -> Prop)
    (x : res E A) (y : res E B) k k' :
  agree R x y -> (forall a b, R a b -> agree Q (k a) (k' b)) ->
  agree Q (res_bind x k) (res_bind y k').
Proof. destruct x, y; cbn; naive_solver. Qed.

Lemma selects_agree {A B A' B'} (client server : list bytes) (fa : A -> bytes) (fb : B -> bytes)
    (fa' : A' -> bytes) (fb' : B' -> bytes) o t o' t' kind kind' r r' :
  selects client server fa fb o t kind r -> selects client server fa' fb' o' t' kind' r' ->
  agree (fun x y => fa x.2 = fa' y.2) r r'.
Proof.
  unfold selects. destruct (first_common client server) as [n|]; [|by intros -> ->].
  intros (a & _ & <- & ->) (a' & _ & Hn & ->). cbn. done.
Qed.

Lemma first_common_ext client server client' server' :
  List.find (fun c => memb c server) client = List.find (fun c => memb c server') client' ->
  first_common client server = first_common client' server'.
Proof. done. Qed.

Lemma find_filter {A} (f g : A -> bool) l :
  List.find f (List.filter g l) = List.find (fun x => g x && f x) l.
Proof.
  induction l as [|x l IH]; cbn [List.filter List.find]; [done|].
  destruct (g x) eqn:Hg; cbn [List.find andb]; by rewrite IH.
Qed.

Lemma find_ext {A} (f g : A -> bool) l : (forall x, f x = g x) -> List.find f l = List.find g l.
Proof. intros Hfg. induction l as [|x l IH]; cbn [List.find]; [done|]. by rewrite Hfg, IH. Qed.

Lemma memb_filter (g : bytes -> bool) x l : memb x (List.filter g l) = g x && memb x l.
Proof.
  induction l as [|y l IH]; cbn [List.filter]; [by rewrite andb_false_r|].
  destruct (g y) eqn:Hg; unfold memb in *; cbn [existsb]; rewrite IH;
    destruct (bool_decide_reflect (x = y)) as [->|]; rewrite ?Hg; cbn [orb andb]; done.
Qed.

Lemma map_id_eq (l : list bytes) : map (fun x => x) l = l.
Proof. induction l; cbn; congruence. Qed.

(** No extension name is the name of an implemented algorithm: the filter of the
    peer's names keeps them all. *)
Lemma remote_filter_keeps l : remote_kexes_no_ext l = l.
Proof.
  unfold remote_kexes_no_ext. induction l as [|k l IH]; cbn [List.filter]; [done|].
  destruct (kex.try_from k) as [k'|] eqn:Hk; cbn [option_map]; [|by rewrite IH].
  enough (Hn : memb k' KEX_EXTENSION_NAMES = false) by (rewrite Hn; cbn [negb]; by rewrite IH).
  unfold kex.try_from in Hk. apply find_some in Hk as [Hin _]. revert k' Hin.
  assert (Hall : forallb (fun k' => negb (memb k' KEX_EXTENSION_NAMES)) kex.KEXES = true)
    by (vm_compute; reflexivity).
  rewrite forallb_forall in Hall. intros k' Hin. apply Hall in Hin. by apply negb_true_iff in Hin.
Qed.

Section Agreement.
Context {enc : SshEncoding} `{!SshEncodingLaws enc} {SK : SshKeys}.

(** What a KEXINIT carries, and what [read_kex] makes of it. *)
Record Lists : Type := mkLists {
  l_kex : list bytes; l_key : list bytes; l_cipher : list bytes; l_mac : list bytes;
  l_compression : list bytes;
}.
Definition sent (prefs : Preferred) (server_config : option (list PrivateKey)) : Lists :=
  mkLists (sent_kex prefs server_config) (sent_keys prefs server_config) prefs.(p_cipher)
    prefs.(p_mac) prefs.(p_compression).

Definition encodable_lists (l : Lists) : Prop :=
  NameList.encodable l.(l_kex) /\ NameList.encodable l.(l_key) /\ NameList.encodable l.(l_cipher) /\
  NameList.encodable l.(l_mac) /\ NameList.encodable l.(l_compression).

Definition wire (l : list bytes) (r : bytes) : bytes :=
  be32 (zlen (NameList.as_encoded_string l)) ++ NameList.as_encoded_string l ++ r.

Definition kexinit_bytes (cookie : bytes) (l : Lists) : bytes :=
  msg.KEXINIT :: cookie ++
  wire l.(l_kex) (wire l.(l_key) (wire l.(l_cipher) (wire l.(l_cipher) (wire l.(l_mac)
  (wire l.(l_mac) (wire l.(l_compression) (wire l.(l_compression)
  (be32 0 ++ be32 0 ++ [0] ++ be32 0)))))))).

Lemma encode_cookie_appends cookie : Forall is_u8 cookie -> appends (encode_cookie cookie) cookie.
Proof.
  induction 1 as [|b l Hb Hl IH]; cbn [encode_cookie]; [apply appends_ret|].
  apply (appends_bind _ _ [b] l); [|done]. unfold enc_w. auto with wire.
Qed.

Lemma encode_names_wire l m r :
  NameList.encodable l -> appends m r -> appends (encode_names l ;;; m) (wire l r).
Proof.
  intros Hl Hm. unfold wire. rewrite app_assoc. apply appends_bind; [|done].
  unfold encode_names, enc_w. apply appends_map_err. by apply NameList.encode_appends.
Qed.

Lemma kexinit_appends cookie prefs cfg :
  Forall is_u8 cookie -> encodable_lists (sent prefs cfg) ->
  appends (kexinit cookie prefs cfg) (kexinit_bytes cookie (sent prefs cfg)).
Proof.
  intros Hc (H1 & H2 & H3 & H4 & H5). cbn in *. unfold kexinit, kexinit_bytes.
  change (msg.KEXINIT :: ?p) with ([msg.KEXINIT] ++ p).
  apply appends_bind; [by apply appends_map_err, encode_u8_appends|].
  apply appends_bind; [by apply encode_cookie_appends|].
  repeat (apply encode_names_wire; [done|]).
  repeat apply appends_bind; unfold enc_w; apply appends_map_err.
  - apply encode_strings_nil.
  - apply encode_strings_nil.
  - by apply encode_u8_appends.
  - by apply encode_u32_appends.
Qed.

Lemma name_list_wire l r : NameList.encodable l -> name_list (wire l r) = Ok (l, r).
Proof. intros Hl. unfold name_list, wire. by rewrite NameList.decode_prefixed. Qed.

Lemma decode_string_wire l r : NameList.encodable l -> exists s, decode_string (wire l r) = Ok (s, r).
Proof.
  intros [[Hv _] Hl]. eexists. apply decode_string_prefixed.
  - unfold NameList.MAX_NAME_LIST_BYTES, MAX_ENCODED_LEN in *. lia.
  - apply is_ascii_utf8. by apply NameList.as_encoded_ascii.
Qed.

Definition negotiate (role : Select) (l : Lists) (pref : Preferred)
    (available_host_keys : option (list PrivateKey)) (cause : KexCause) : Result Names :=
  let? (_, kex_algorithm) :=
    select_name role (local_kexes_no_ext pref) (remote_kexes_no_ext l.(l_kex)) KindKex in
  let possible := match available_host_keys with
    | Some keys => possible_host_key_algos_for_keys pref keys
    | None => pref.(p_key)
    end in
  let? (_, key_algorithm) := select alg_str (fun x => x) possible l.(l_key) KindKey in
  let? (_, cipher) := select_name role pref.(p_cipher) l.(l_cipher) KindCipher in
  let need_mac := cipher_names.needs_mac cipher in
  let? client_mac := select_mac role pref need_mac l.(l_mac) in
  let? server_mac := select_mac role pref need_mac l.(l_mac) in
  let? (_, client_compression) := select_name role pref.(p_compression) l.(l_compression) KindCompression in
  let? (_, server_compression) := select_name role pref.(p_compression) l.(l_compression) KindCompression in
  Ok (mkNames kex_algorithm key_algorithm cipher client_mac server_mac
      (Compression_new server_compression) (Compression_new client_compression) false
      ((strict_kex_requested role pref && strict_kex_provided role l.(l_kex)) || is_strict_rekey cause)).

(** Read the next name-list, and make the selection from it. *)
Ltac read_list := rewrite name_list_wire by done; cbn [res_bind].
Ltac read_and_select :=
  read_list;
  match goal with
  | |- res_bind ?m _ = _ => let x := fresh "x" in let E := fresh "E" in
      destruct m as [x| |] eqn:E; cbn [res_bind]; [|done|done]; try destruct x as [? ?]
  end.
Ltac read_and_select_again :=
  read_list; match goal with E : _ = _ |- _ => rewrite E; cbn [res_bind] end.

Lemma read_kexinit role cookie l pref keys cause :
  zlen cookie = 16 -> encodable_lists l ->
  read_kex role (kexinit_bytes cookie l) pref keys cause = negotiate role l pref keys cause.
Proof.
  intros Hc (H1 & H2 & H3 & H4 & H5). unfold read_kex, negotiate.
  assert (Hlen : 17 <= zlen (kexinit_bytes cookie l)).
  { unfold kexinit_bytes. rewrite zlen_cons, zlen_app.
    match goal with |- context [zlen cookie + zlen ?x] => pose proof (zlen_nonneg x) end. lia. }
  replace (_ <? 17) with false by lia. clear Hlen.
  unfold kexinit_bytes. rewrite app_comm_cons, zdrop_app_exact by (rewrite zlen_cons; lia).
  cbv zeta. read_and_select. read_and_select. read_and_select.
  destruct (decode_string_wire l.(l_cipher) (wire l.(l_mac) (wire l.(l_mac) (wire l.(l_compression)
    (wire l.(l_compression) (be32 0 ++ be32 0 ++ [0] ++ be32 0)))))) as [s ->]; [done|].
  cbn [enc_err map_err res_bind]. read_and_select. read_and_select_again.
  read_and_select. read_and_select_again.
  pose proof (fun r => decode_string_prefixed [] r ltac:(done) ltac:(done)) as Hs. cbn [app] in Hs.
  change (zlen []) with 0 in Hs. unfold enc_err. rewrite Hs. cbn [map_err res_bind]. rewrite Hs.
  cbn [map_err res_bind app]. rewrite decode_u8_cons. cbn [map_err res_bind].
  rewrite <- (app_nil_r (be32 0)), decode_u32_be32 by done. cbn. done.
Qed.

(** Selections of strings. *)
Lemma select_name_agree server client server' client' kind :
  first_common client server = first_common client' server' ->
  agree (fun x y => x.2 = y.2) (select_name Server server client kind)
    (select_name Client client' server' kind).
Proof.
  intros Hf. pose proof (Server_selects (fun x => x) (fun x => x) server client kind) as Hs.
  pose proof (Client_selects (fun x => x) (fun x => x) client' server' kind) as Hc.
  unfold selects in *. rewrite !map_id_eq in *. rewrite Hf in Hs. unfold select_name. cbn.
  destruct (first_common client' server'); [|by rewrite Hs, Hc].
  destruct Hs as (a & _ & -> & ->), Hc as (c & _ & -> & ->). done.
Qed.

Lemma select_mac_agree ps pc need :
  agree eq (select_mac Server ps need pc.(p_mac)) (select_mac Client pc need ps.(p_mac)).
Proof.
  unfold select_mac. pose proof (select_name_agree ps.(p_mac) pc.(p_mac) _ _ KindMac eq_refl) as H.
  destruct (select_name Server _ _ _) as [[]| |], (select_name Client _ _ _) as [[]| |]; cbn in *;
    try done. by destruct need.
Qed.

(** The two filters of extension names leave the same common names. *)
Lemma first_common_kex ps pc keys :
  first_common (remote_kexes_no_ext (sent_kex pc None)) (local_kexes_no_ext ps) =
  first_common (local_kexes_no_ext pc) (remote_kexes_no_ext (sent_kex ps (Some keys))).
Proof.
  rewrite !remote_filter_keeps. unfold first_common, sent_kex, local_kexes_no_ext.
  rewrite !find_filter. apply find_ext. intros x. rewrite !memb_filter.
  unfold KEX_EXTENSION_NAMES, memb. cbn [existsb].
  repeat destruct (bool_decide _); cbn; done.
Qed.

Lemma strict_provided role l : role = Server \/ role = Client ->
  strict_kex_provided role l =
  memb (if @is_server role then kex.EXTENSION_OPENSSH_STRICT_KEX_AS_CLIENT
        else kex.EXTENSION_OPENSSH_STRICT_KEX_AS_SERVER) l.
Proof.
  intros Hr. unfold strict_kex_provided, select_name.
  set (x := if @is_server role then _ else _). apply eq_true_iff_eq. rewrite memb_true.
  assert (Hfc : forall n, first_common l [x] = Some n -> x ∈ l).
  { intros n Hn. apply find_some in Hn as [Hn Hx]. apply memb_true, list_elem_of_singleton in Hx as ->.
    by apply list_elem_of_In. }
  assert (Hfs : forall n, first_common [x] l = Some n -> x ∈ l).
  { intros n Hn. apply find_some in Hn as [[->|[]] Hx]. by apply memb_true. }
  assert (Hnc : x ∈ l -> first_common l [x] <> None).
  { intros Hx Hn. apply find_none with (x := x) in Hn; [|by apply list_elem_of_In].
    apply memb_false in Hn. apply Hn. by left. }
  assert (Hns : x ∈ l -> first_common [x] l <> None).
  { intros Hx. apply memb_true in Hx. unfold first_common. cbn [List.find]. by rewrite Hx. }
  destruct Hr as [-> | ->]; cbn [select Server Client].
  - pose proof (Server_selects (fun x => x) (fun x => x) [x] l KindKex) as H. unfold selects in H.
    rewrite !map_id_eq in H. destruct (first_common l [x]) as [n|] eqn:E.
    + destruct H as (a & _ & _ & ->). cbn. split; eauto.
    + rewrite H. cbn. split; [done|]. intros Hx. by apply Hnc in Hx.
  - pose proof (Client_selects (fun x => x) (fun x => x) [x] l KindKex) as H. unfold selects in H.
    rewrite !map_id_eq in H. destruct (first_common [x] l) as [n|] eqn:E.
    + destruct H as (a & _ & _ & ->). cbn. split; eauto.
    + rewrite H. cbn. split; [done|]. intros Hx. by apply Hns in Hx.
Qed.

(** Both sides use strict key exchange when both asked for it. *)
Lemma strict_agree ps pc keys :
  strict_kex_requested Server ps && strict_kex_provided Server (sent_kex pc None) =
  strict_kex_requested Client pc && strict_kex_provided Client (sent_kex ps (Some keys)).
Proof.
  rewrite !strict_provided by auto. unfold strict_kex_requested, sent_kex. cbn [is_server Server Client].
  rewrite !memb_filter. rewrite andb_comm. reflexivity.
Qed.

Definition same_names (n n' : Names) : Prop :=
  n.(n_kex) = n'.(n_kex) /\ alg_str n.(n_key) = alg_str n'.(n_key) /\ n.(n_cipher) = n'.(n_cipher) /\
  n.(client_mac) = n'.(client_mac) /\ n.(server_mac) = n'.(server_mac) /\
  n.(server_compression) = n'.(server_compression) /\
  n.(client_compression) = n'.(client_compression) /\
  n.(strict_kex) = n'.(strict_kex) /\ n.(ignore_guessed) = false /\ n'.(ignore_guessed) = false.

Lemma negotiate_agree ps pc keys cause cause' :
  is_strict_rekey cause = is_strict_rekey cause' ->
  agree same_names
    (negotiate Server (sent pc None) ps (Some keys) cause)
    (negotiate Client (sent ps (Some keys)) pc None cause').
Proof.
  intros Hr. unfold negotiate, sent. cbn [l_kex l_key l_cipher l_mac l_compression].
  eapply agree_bind; [apply select_name_agree, first_common_kex|]. intros [? k] [? k'] Hk. cbn in Hk.
  eapply agree_bind.
  { eapply selects_agree; [apply Server_selects|]. cbn [sent_keys]. rewrite map_id_eq.
    pose proof (Client_selects alg_str (fun x => x) pc.(p_key) (sent_keys ps (Some keys)) KindKey) as H.
    rewrite map_id_eq in H. exact H. }
  intros [? ky] [? ky'] Hky. cbn in Hky.
  eapply agree_bind; [by apply select_name_agree|]. intros [? c] [? c'] Hc. cbn in Hc. subst c'.
  eapply agree_bind; [apply select_mac_agree|]. intros m m' <-.
  eapply agree_bind; [apply select_mac_agree|]. intros m2 m2' <-.
  eapply agree_bind; [by apply select_name_agree|]. intros [? z] [? z'] Hz. cbn in Hz. subst z'.
  eapply agree_bind; [by apply select_name_agree|]. intros [? y] [? y'] Hy. cbn in Hy. subst y'.
  cbn. unfold same_names. cbn. split_and!; try done. by rewrite (strict_agree ps pc keys), Hr.
Qed.

Section Payload.
Context `{F : Flate2} {K : Type} `{HK : SealingKey K}.

Lemma write_kex_payload rng cookie prefs cfg (pw pw' : PacketWriter K) payload :
  Forall is_u8 cookie -> encodable_lists (sent prefs cfg) ->
  write_kex rng cookie prefs cfg pw = (Ok payload, pw') ->
  payload = kexinit_bytes cookie (sent prefs cfg).
Proof.
  intros Hc He. unfold write_kex, packet_bytes. rewrite (kexinit_appends _ _ _ Hc He).
  cbn [app]. destruct (packet_raw _ _ _) as [[[]| |] ?]; by intros [= <- _].
Qed.
End Payload.
End Agreement.

(** C11. A client and a server that read each other's KEXINIT agree: both fail, or
    both arrive at the same key exchange, host key, cipher, MAC and compression
    algorithms, and at the same answer whether the exchange is strict. *)
Theorem negotiation_agrees {enc : SshEncoding} `{!SshEncodingLaws enc} {SK : SshKeys}
    `{F : Flate2} {K : Type} `{HK : SealingKey K} rng rng' cookie cookie' ps pc keys cause cause'
    (pw pw1 pw' pw1' : PacketWriter K) server_kexinit client_kexinit :
  Forall is_u8 cookie -> zlen cookie = 16 -> encodable_lists (sent ps (Some keys)) ->
  Forall is_u8 cookie' -> zlen cookie' = 16 -> encodable_lists (sent pc None) ->
  is_strict_rekey cause = is_strict_rekey cause' ->
  write_kex rng cookie ps (Some keys) pw = (Ok server_kexinit, pw1) ->
  write_kex rng' cookie' pc None pw' = (Ok client_kexinit, pw1') ->
  agree same_names
    (read_kex Server client_kexinit ps (Some keys) cause)
    (read_kex Client server_kexinit pc None cause').
Proof.
  intros Hc Hc16 He Hc' Hc16' He' Hr Hw Hw'.
  apply write_kex_payload in Hw as ->; [|done|done]. apply write_kex_payload in Hw' as ->; [|done|done].
  rewrite !read_kexinit by done. by apply negotiate_agree.
Qed.

Module Example.
(** Two host key algorithms, enough to run the model. *)
Inductive Alg : Type := Ed25519 | Rsa (sha512 : bool).
Definition keys : SshKeys := {|
  Algorithm := Alg; PrivateKey := Alg;
  alg_str a := match a with
    | Ed25519 => str "ssh-ed25519"
    | Rsa b => if b then str "rsa-sha2-512" else str "ssh-rsa"
    end;
  alg_eqb a b := match a, b with
    | Ed25519, Ed25519 => true | Rsa x, Rsa y => Bool.eqb x y | _, _ => false
    end;
  is_rsa a := match a with Rsa _ => true | _ => false end;
  algorithm k := k;
|}.
#[local] Existing Instance keys.
#[local] Existing Instance rfc4251.
#[local] Existing Instance Doubling.flate2.

#[local] Instance encodable_dec l : Decision (NameList.encodable l).
Proof. unfold NameList.encodable, NameList.valid_list, NameList.valid_name. apply _. Defined.

Definition default_pref (keys : list Alg) : @Preferred Example.keys :=
  mkPreferred SAFE_KEX_ORDER keys CIPHER_ORDER SAFE_HMAC_ORDER COMPRESSION_ORDER.

(** The server holds an RSA key; the client prefers Ed25519, and AES. *)
Definition ps : Preferred := default_pref [Ed25519; Rsa true; Rsa false].
Definition pc : Preferred :=
  mkPreferred SAFE_KEX_ORDER [Ed25519; Rsa false] [cipher_names.AES_256_CTR] [HMAC_SHA512]
    COMPRESSION_ORDER.
Definition cookie : bytes := replicate 16 7.
Definition plain := WriterExample.plain.
Definition payload (cfg : option (list Alg)) (p : Preferred) : bytes :=
  match write_kex WriterExample.zeros cookie p cfg plain with (Ok b, _) => b | _ => [] end.

Definition rsa_key : list Alg := [Rsa true].

Lemma negotiated :
  read_kex Server (payload None pc) ps (Some rsa_key) Initial =
  Ok (mkNames kex.MLKEM768X25519_SHA256 (Rsa false) cipher_names.AES_256_CTR HMAC_SHA512 HMAC_SHA512
    CompressionNone CompressionNone false true).
Proof. vm_compute. reflexivity. Qed.

Lemma negotiation_agrees_witness :
  agree same_names
    (read_kex Server (payload None pc) ps (Some rsa_key) Initial)
    (read_kex Client (payload (Some rsa_key) ps) pc None Initial).
Proof.
  eapply (negotiation_agrees WriterExample.zeros WriterExample.zeros cookie cookie ps pc rsa_key
    Initial Initial plain _ plain _ (payload (Some rsa_key) ps) (payload None pc)).
  - unfold cookie. by repeat constructor.
  - reflexivity.
  - repeat split; apply (bool_decide_unpack _); vm_compute; exact I.
  - unfold cookie. by repeat constructor.
  - reflexivity.
  - repeat split; apply (bool_decide_unpack _); vm_compute; exact I.
  - reflexivity.
  - vm_compute. reflexivity.
  - vm_compute. reflexivity.
Defined.
End Example.
