(* ===== verification/KexKeys.v ===== *)
(** * Key derivation ([russh/src/kex/mod.rs], [client/kex.rs], [server/kex.rs])

    How both sides turn the shared secret and the exchange hash into the keys of
    the two directions, and the encoding of the secret.  The hash function and
    what the key constructors of the ciphers do are parameters. *)

From stdpp Require Import base list numbers option strings.
From Stdlib Require Import ZArith Lia.
From S2P Require Import Prelude Encoding LibInner Cipher CipherImpls.

(** ** Multiple-precision integers *)
Section Mpint.
Context {enc : SshEncoding}.

(** [while i < s.len() && s[i] == 0]: what is left from [i] on. *)
Fixpoint skip_zeros (s : bytes) : bytes :=
  match s with
  | x :: s' => if x =? 0 then skip_zeros s' else s
  | [] => []
  end.

Definition encode_mpint (s : bytes) : writer Error.error :=
  match skip_zeros s with
  | [] => enc_w (encode_u32 0)
  | (x :: _) as r =>
      (if negb (Z.land x 128 =? 0) then
         enc_w (encode_u32 (to_u32 (zlen r + 1))) ;;; enc_w (encode_u8 0)
       else enc_w (encode_u32 (to_u32 (zlen r)))) ;;;
      push_bytes r
  end.

Inductive SharedSecret : Type := Mpint (v : bytes) | String (v : bytes).

Definition from_mpint (b : bytes) : Result SharedSecret :=
  match encode_mpint b [] with
  | (Ok _, encoded) => Ok (Mpint encoded)
  | (Err e, _) => Err e
  | (Panic, _) => Panic
  end.

Definition from_string (b : bytes) : Result SharedSecret :=
  match @enc_w bytes unit (encode_bytes b) [] with
  | (Ok _, encoded) => Ok (String encoded)
  | (Err e, _) => Err e
  | (Panic, _) => Panic
  end.
End Mpint.

Definition as_bytes (s : SharedSecret) : bytes :=
  match s with Mpint v | String v => v end.

(** ** Derivation *)
Section ComputeKey.
(** [Digest]: one hash. *)
Variable hash : bytes -> bytes.

Definition shared_bytes (shared_secret : option SharedSecret) : bytes :=
  match shared_secret with Some s => as_bytes s | None => [] end.

Variables (shared_secret : option SharedSecret) (session_id exchange_hash : bytes).

(** [while key.len() < len]; each turn adds a hash. *)
Fixpoint extend_key (fuel : nat) (len : Z) (key : bytes) : res Error.error bytes :=
  if zlen key <? len then
    match fuel with
    | O => Panic
    | S fuel' =>
        extend_key fuel' len (key ++ hash (shared_bytes shared_secret ++ exchange_hash ++ key))
    end
  else Ok key.

(** The closure [compute_key]. *)
Definition compute_key (c len : Z) : res Error.error bytes :=
  let key := hash (shared_bytes shared_secret ++ exchange_hash ++ [c] ++ session_id) in
  let? key := extend_key (Z.to_nat len) len key in
  Ok (vec_resize len 0 key).
End ComputeKey.

(** ** Keys for both directions *)
Section ComputeKeys.
Context (hash : bytes -> bytes).
(** The boxed keys; the algorithms of the tables [CIPHERS] and [MACS], whose
    constructors panic ([None]) on keys of another length. *)
Context {SK OK : Type}.

Record MacAlgorithm : Type := mkMacAlgorithm { mac_key_len : Z; mac_id : Z }.

Record Cipher : Type := mkCipher {
  key_len : Z;
  nonce_len : Z;
  make_opening_key : bytes -> bytes -> bytes -> MacAlgorithm -> option OK;
  make_sealing_key : bytes -> bytes -> bytes -> MacAlgorithm -> option SK;
}.

Record CipherPair : Type := mkCipherPair { local_to_remote : SK; remote_to_local : OK }.

Context (CIPHERS : bytes -> option Cipher) (MACS : bytes -> option MacAlgorithm).

Definition compute_keys (shared_secret : option SharedSecret) (session_id exchange_hash cipher
    remote_to_local_mac local_to_remote_mac : bytes) (is_server : bool) : Result CipherPair :=
  let? cipher := ok_or (CIPHERS cipher) Error.UnknownAlgo in
  let? remote_to_local_mac := ok_or (MACS remote_to_local_mac) Error.UnknownAlgo in
  let? local_to_remote_mac := ok_or (MACS local_to_remote_mac) Error.UnknownAlgo in
  let compute_key := compute_key hash shared_secret session_id exchange_hash in
  let '(local_to_remote, remote_to_local) := if is_server then (68, 67) else (67, 68) in
  let '(local_to_remote_nonce, remote_to_local_nonce) := if is_server then (66, 65) else (65, 66) in
  let '(local_to_remote_mac_key, remote_to_local_mac_key) :=
    if is_server then (70, 69) else (69, 70) in
  let? key := compute_key local_to_remote cipher.(key_len) in
  let? nonce := compute_key local_to_remote_nonce cipher.(nonce_len) in
  let? mac := compute_key local_to_remote_mac_key local_to_remote_mac.(mac_key_len) in
  let? local_to_remote := or_panic (cipher.(make_sealing_key) key nonce mac local_to_remote_mac) in
  let? key := compute_key remote_to_local cipher.(key_len) in
  let? nonce := compute_key remote_to_local_nonce cipher.(nonce_len) in
  let? mac := compute_key remote_to_local_mac_key remote_to_local_mac.(mac_key_len) in
  let? remote_to_local := or_panic (cipher.(make_opening_key) key nonce mac remote_to_local_mac) in
  Ok (mkCipherPair local_to_remote remote_to_local).
End ComputeKeys.
Arguments Cipher : clear implicits.
Arguments CipherPair : clear implicits.

(** ** RFC 4253 section 7.2 *)

Section Derivation.
Context (hash : bytes -> bytes) (shared : option SharedSecret) (sid H : bytes) (c : Z).

(** K1 || K2 || ... || K(n+1). *)
Fixpoint key_stream (n : nat) : bytes :=
  match n with
  | O => hash (shared_bytes shared ++ H ++ [c] ++ sid)
  | S n' => key_stream n' ++ hash (shared_bytes shared ++ H ++ key_stream n')
  end.

Lemma key_stream_prefix n m : (n <= m)%nat -> exists l, key_stream m = key_stream n ++ l.
Proof.
  induction 1 as [|m Hm [l IH]]; [exists []; by rewrite app_nil_r|].
  cbn [key_stream]. exists (l ++ hash (shared_bytes shared ++ H ++ key_stream m)).
  by rewrite (app_assoc (key_stream n)), <- IH.
Qed.

Lemma key_stream_take n m len :
  len <= zlen (key_stream n) -> len <= zlen (key_stream m) ->
  ztake len (key_stream n) = ztake len (key_stream m).
Proof.
  intros Hn Hm. destruct (Nat.le_ge_cases n m) as [Hle|Hle];
    destruct (key_stream_prefix _ _ Hle) as [l ->]; by rewrite ztake_app_le.
Qed.

Context (Hpos : forall x, 0 < zlen (hash x)).

Lemma key_stream_len n : Z.of_nat n < zlen (key_stream n).
Proof.
  induction n as [|n IH]; cbn [key_stream]; [apply Hpos|]. rewrite zlen_app.
  match goal with |- context [hash ?x] => pose proof (Hpos x) end. lia.
Qed.

Lemma extend_key_stream fuel len n :
  len <= Z.of_nat (n + fuel) ->
  exists m, extend_key hash shared H fuel len (key_stream n) = Ok (key_stream m) /\
    len <= zlen (key_stream m).
Proof.
  revert n. induction fuel as [|fuel IH]; intros n Hf; cbn [extend_key];
    destruct (Z.ltb_spec (zlen (key_stream n)) len) as [Hlt|Hge].
  - pose proof (key_stream_len n). lia.
  - eauto.
  - apply (IH (S n)). lia.
  - eauto.
Qed.

Lemma compute_key_stream len : 0 <= len ->
  exists m, len <= zlen (key_stream m) /\
    compute_key hash shared sid H c len = Ok (ztake len (key_stream m)).
Proof.
  intros Hl. unfold compute_key. change (hash _) with (key_stream 0).
  destruct (extend_key_stream (Z.to_nat len) len 0) as (m & -> & Hm); [lia|].
  exists m. split; [done|]. cbn [res_bind]. by rewrite vec_resize_shrink.
Qed.
End Derivation.

(** Each key is derived as RFC 4253 section 7.2 prescribes, and the loop
    ends: it is the first [len] bytes of K1 || K2 || ..., K1 being the hash of
    the shared secret, the exchange hash, the letter and the session id, and the
    next block that of the shared secret, the exchange hash and all blocks
    before it. *)
Theorem compute_key_rfc4253 hash shared sid H c len n :
  (forall x, 0 < zlen (hash x)) -> 0 <= len <= zlen (key_stream hash shared sid H c n) ->
  compute_key hash shared sid H c len = Ok (ztake len (key_stream hash shared sid H c n)).
Proof.
  intros Hpos Hl. destruct (compute_key_stream hash shared sid H c Hpos len) as (m & Hm & ->); [lia|].
  by rewrite (key_stream_take _ _ _ _ _ m n) by lia.
Qed.

(** ** The two sides *)

(** A hash is a non-empty string of bytes. *)
Definition is_hash (hash : bytes -> bytes) : Prop :=
  forall x, 0 < zlen (hash x) /\ Forall is_u8 (hash x).

Section InSync.
Context (hash : bytes -> bytes) (hash_ok : is_hash hash).
Context {SK OK : Type} (sync : SK -> OK -> Prop).
Context (CIPHERS : bytes -> option (Cipher SK OK)) (MACS : bytes -> option MacAlgorithm).

(** Every algorithm of the tables makes, of keys of the lengths it asks for, a
    sealing and an opening key that are in sync. *)
Definition tables_ok : Prop :=
  (forall m a, MACS m = Some a -> 0 <= a.(mac_key_len)) /\
  (forall n c, CIPHERS n = Some c ->
    0 <= c.(key_len) /\ 0 <= c.(nonce_len) /\
    forall m a key nonce mac, MACS m = Some a ->
    zlen key = c.(key_len) -> zlen nonce = c.(nonce_len) -> zlen mac = a.(mac_key_len) ->
    Forall is_u8 key -> Forall is_u8 nonce -> Forall is_u8 mac ->
    exists s o, c.(make_sealing_key) key nonce mac a = Some s /\
      c.(make_opening_key) key nonce mac a = Some o /\ sync s o).

Lemma compute_key_ok shared sid H c len : 0 <= len ->
  exists k, compute_key hash shared sid H c len = Ok k /\ zlen k = len /\ Forall is_u8 k.
Proof.
  intros Hl. assert (Hpos : forall x, 0 < zlen (hash x)) by apply hash_ok.
  destruct (compute_key_stream hash shared sid H c Hpos len Hl) as (m & Hm & ->).
  eexists. split; [done|]. rewrite zlen_ztake. split; [lia|]. apply Forall_take.
  clear Hm. induction m as [|m IH]; cbn [key_stream]; [apply hash_ok|].
  apply Forall_app. split; [done|apply hash_ok].
Qed.

Definition known (cipher client_mac server_mac : bytes) : Prop :=
  is_Some (CIPHERS cipher) /\ is_Some (MACS client_mac) /\ is_Some (MACS server_mac).

Lemma compute_keys_unknown shared sid H cipher m1 m2 b :
  ~ known cipher m1 m2 ->
  compute_keys hash CIPHERS MACS shared sid H cipher m1 m2 b = Err Error.UnknownAlgo.
Proof.
  unfold known, compute_keys. intros Hn. destruct (CIPHERS cipher); [|done]. cbn [ok_or res_bind].
  destruct (MACS m1); [|done]. cbn [ok_or res_bind]. destruct (MACS m2); [|done].
  destruct Hn. eauto.
Qed.

(** One direction: the same letters at both ends make keys in sync. *)
Lemma direction shared sid H c x1 x2 x3 n a m :
  tables_ok -> CIPHERS n = Some c -> MACS m = Some a ->
  exists k v mk s o,
    compute_key hash shared sid H x1 c.(key_len) = Ok k /\
    compute_key hash shared sid H x2 c.(nonce_len) = Ok v /\
    compute_key hash shared sid H x3 a.(mac_key_len) = Ok mk /\
    c.(make_sealing_key) k v mk a = Some s /\ c.(make_opening_key) k v mk a = Some o /\ sync s o.
Proof.
  intros [Hm Hc] Hn Ha. destruct (Hc _ _ Hn) as (Hk & Hv & Hmk).
  destruct (compute_key_ok shared sid H x1 c.(key_len)) as (k & Ek & Lk & Uk); [done|].
  destruct (compute_key_ok shared sid H x2 c.(nonce_len)) as (v & Ev & Lv & Uv); [done|].
  destruct (compute_key_ok shared sid H x3 a.(mac_key_len)) as (mk & Em & Lm & Um); [eauto|].
  destruct (Hmk m a k v mk) as (s & o & Es & Eo & Hs); [done..|]. naive_solver.
Qed.

Lemma compute_keys_sync shared sid H cipher cm sm :
  tables_ok -> known cipher cm sm ->
  exists server client,
    compute_keys hash CIPHERS MACS shared sid H cipher cm sm true = Ok server /\
    compute_keys hash CIPHERS MACS shared sid H cipher sm cm false = Ok client /\
    sync server.(local_to_remote) client.(remote_to_local) /\
    sync client.(local_to_remote) server.(remote_to_local).
Proof.
  intros Ht ([c Hc] & [a Ha] & [b Hb]).
  destruct (direction shared sid H c 68 66 70 cipher b sm Ht Hc Hb)
    as (k1 & v1 & m1 & s1 & o1 & Ek1 & Ev1 & Em1 & Es1 & Eo1 & Hs1).
  destruct (direction shared sid H c 67 65 69 cipher a cm Ht Hc Ha)
    as (k2 & v2 & m2 & s2 & o2 & Ek2 & Ev2 & Em2 & Es2 & Eo2 & Hs2).
  exists (mkCipherPair s1 o2), (mkCipherPair s2 o1). unfold compute_keys.
  rewrite Hc, Ha, Hb. cbn [ok_or res_bind]. rewrite Ek1, Ek2, Ev1, Ev2, Em1, Em2. cbn [res_bind].
  rewrite Es1, Es2. cbn [or_panic res_bind].
  rewrite Eo1, Eo2. done.
Qed.

(** What the opening key of either side is made of. *)
Lemma compute_keys_opening shared sid H cipher rm lm is_server pair :
  tables_ok -> compute_keys hash CIPHERS MACS shared sid H cipher rm lm is_server = Ok pair ->
  exists c a k v m, CIPHERS cipher = Some c /\ MACS rm = Some a /\
    zlen k = c.(key_len) /\ zlen v = c.(nonce_len) /\ zlen m = a.(mac_key_len) /\ Forall is_u8 v /\
    c.(make_opening_key) k v m a = Some pair.(remote_to_local).
Proof.
  intros [Hm Hc] Hr. unfold compute_keys in Hr.
  destruct (CIPHERS cipher) as [c|] eqn:Ec; [|done]. destruct (MACS rm) as [a|] eqn:Ea; [|done].
  destruct (MACS lm) as [a'|]; [|done]. cbn [ok_or res_bind] in Hr. destruct (Hc _ _ Ec) as (Hk & Hv & _).
  assert (Hd : exists x1 x2 x3 k v m, compute_key hash shared sid H x1 c.(key_len) = Ok k /\
    compute_key hash shared sid H x2 c.(nonce_len) = Ok v /\
    compute_key hash shared sid H x3 a.(mac_key_len) = Ok m /\
    c.(make_opening_key) k v m a = Some pair.(remote_to_local)).
  { destruct is_server; inv_ok Hr; injection Hr as <-; cbn [remote_to_local];
      match goal with E : or_panic (make_opening_key _ _ _ _ _) = Ok _ |- _ =>
        destruct (make_opening_key _ _ _ _ _) eqn:Eo in E; [injection E as ->|done] end;
      eauto 10. }
  destruct Hd as (x1 & x2 & x3 & k & v & m & Ek & Ev & Em & Eo).
  destruct (compute_key_ok shared sid H x1 c.(key_len)) as (k' & Ek' & Lk & _); [done|].
  destruct (compute_key_ok shared sid H x2 c.(nonce_len)) as (v' & Ev' & Lv & Uv); [done|].
  destruct (compute_key_ok shared sid H x3 a.(mac_key_len)) as (m' & Em' & Lm & _); [eauto|].
  rewrite Ek in Ek'. rewrite Ev in Ev'. rewrite Em in Em'. simplify_eq. by exists c, a, k', v', m'.
Qed.

(** Both sides with one secret. *)
Lemma compute_keys_match shared sid H cipher cm sm : tables_ok ->
  match compute_keys hash CIPHERS MACS shared sid H cipher cm sm true,
        compute_keys hash CIPHERS MACS shared sid H cipher sm cm false with
  | Ok s, Ok c =>
      sync s.(local_to_remote) c.(remote_to_local) /\ sync c.(local_to_remote) s.(remote_to_local)
  | Err e, Err e' => e = Error.UnknownAlgo /\ e' = e /\ ~ known cipher cm sm
  | _, _ => False
  end.
Proof.
  intros Ht. destruct (decide (is_Some (CIPHERS cipher) /\ is_Some (MACS cm) /\ is_Some (MACS sm))) as [Hk|Hn].
  - by destruct (compute_keys_sync shared sid H cipher cm sm Ht Hk) as (s & c & -> & -> & H1 & H2).
  - rewrite !compute_keys_unknown; [done|unfold known; tauto|exact Hn].
Qed.
End InSync.

(** A client and a server that share the secret, the exchange hash and the
    session id and agree on the algorithms derive keys that are in sync in both
    directions: what one seals with its key the other opens with its own.  If an
    algorithm is unknown both fail with [UnknownAlgo]; nothing else can fail. *)
Theorem keys_in_sync hash {SK OK} (sync : SK -> OK -> Prop) CIPHERS MACS shared sid H cipher
    client_mac server_mac :
  is_hash hash -> tables_ok sync CIPHERS MACS ->
  match compute_keys hash CIPHERS MACS shared sid H cipher client_mac server_mac true,
        compute_keys hash CIPHERS MACS shared sid H cipher server_mac client_mac false with
  | Ok s, Ok c =>
      sync s.(local_to_remote) c.(remote_to_local) /\ sync c.(local_to_remote) s.(remote_to_local)
  | Err e, Err e' => e = Error.UnknownAlgo /\ e' = e /\ ~ known CIPHERS MACS cipher client_mac server_mac
  | _, _ => False
  end.
Proof.
  intros Hh Ht. by apply compute_keys_match.
Qed.

(** ** Integers on the wire *)

(** The integer of a big-endian byte string. *)
Fixpoint be_value (acc : Z) (s : bytes) : Z :=
  match s with [] => acc | x :: s' => be_value (acc * 256 + x) s' end.

(** RFC 4251 section 5: a non-negative [mpint] in canonical form. *)
Definition canonical_mpint (m : bytes) : Prop :=
  match m with
  | [] => True
  | x :: m' => x < 128 /\ (x = 0 -> match m' with [] => False | y :: _ => 128 <= y end)
  end.

Lemma skip_zeros_value s : be_value 0 (skip_zeros s) = be_value 0 s.
Proof.
  induction s as [|x s IH]; cbn [skip_zeros]; [done|]. by destruct (Z.eqb_spec x 0) as [->|].
Qed.

Lemma skip_zeros_len s : zlen (skip_zeros s) <= zlen s.
Proof.
  induction s as [|x s IH]; cbn [skip_zeros]; [done|]. destruct (x =? 0); [rewrite zlen_cons|]; lia.
Qed.

Lemma skip_zeros_head s x r : skip_zeros s = x :: r -> x <> 0.
Proof.
  induction s as [|y s IH]; cbn [skip_zeros]; [done|].
  destruct (Z.eqb_spec y 0); [done|]. by intros [= <- <-].
Qed.

Lemma skip_zeros_u8 s : Forall is_u8 s -> Forall is_u8 (skip_zeros s).
Proof. induction 1; cbn [skip_zeros]; [constructor|]. by destruct (_ =? 0); [|constructor]. Qed.

Lemma top_bit x : is_u8 x -> (negb (Z.land x 128 =? 0) = true <-> 128 <= x).
Proof.
  intros Hx. unfold is_u8 in Hx.
  assert (Hall : forallb (fun x => Bool.eqb (negb (Z.land x 128 =? 0)) (128 <=? x))
    (map Z.of_nat (seq 0 256)) = true) by (vm_compute; reflexivity).
  rewrite forallb_forall in Hall. specialize (Hall x). rewrite <- Z.leb_le.
  rewrite eqb_true_iff in Hall. rewrite Hall; [done|].
  apply in_map_iff. exists (Z.to_nat x). split; [lia|]. apply in_seq. lia.
Qed.

Lemma encode_mpint_appends {enc : SshEncoding} `{!SshEncodingLaws enc} s :
  Forall is_u8 s -> zlen s < U32_MAX ->
  exists m, appends (encode_mpint s) (be32 (zlen m) ++ m) /\ canonical_mpint m /\
    be_value 0 m = be_value 0 s.
Proof.
  intros Hu Hl. pose proof (skip_zeros_len s). pose proof (skip_zeros_u8 s Hu) as Hu'.
  rewrite <- skip_zeros_value. unfold encode_mpint, U32_MAX in *.
  destruct (skip_zeros s) as [|x r] eqn:Hs.
  - exists []. split; [|done]. unfold enc_w. cbn [app].
    rewrite app_nil_r. change (zlen []) with 0. apply appends_map_err. by apply encode_u32_appends.
  - apply skip_zeros_head in Hs. pose proof (zlen_nonneg r). rewrite zlen_cons in *.
    apply Forall_cons_iff in Hu' as [Hx Hr]. pose proof (top_bit x Hx) as Ht.
    destruct (negb (Z.land x 128 =? 0)).
    + exists (0 :: x :: r). rewrite !zlen_cons. split.
      * rewrite to_u32_small by (unfold is_u32, U32_MOD; lia).
        replace (1 + (1 + zlen r)) with (1 + zlen r + 1) by lia.
        change (0 :: x :: r) with ([0] ++ (x :: r)). rewrite app_assoc. apply appends_bind; [|done].
        apply appends_bind; apply appends_map_err;
          [apply encode_u32_appends; unfold is_u32, U32_MOD; lia|by apply encode_u8_appends].
      * split; [|done]. cbn. split; [done|]. intros _. by apply Ht.
    + exists (x :: r). rewrite !zlen_cons. split; [|split; [|done]].
      * rewrite to_u32_small by (unfold is_u32, U32_MOD; lia). apply appends_bind; [|done].
        apply appends_map_err, encode_u32_appends. unfold is_u32, U32_MOD. lia.
      * cbn. split; [|lia]. destruct Ht as [_ Ht]. destruct (Z_lt_ge_dec x 128); [done|].
        by discriminate Ht; lia.
Qed.

(** [encode_mpint] writes, length first, the canonical [mpint] of the integer
    that the bytes denote: no leading byte without need, the sign bit clear, and
    nothing for zero. *)
Theorem encode_mpint_spec {enc : SshEncoding} `{!SshEncodingLaws enc} s :
  Forall is_u8 s -> zlen s < U32_MAX ->
  exists m, appends (encode_mpint s) (be32 (zlen m) ++ m) /\ canonical_mpint m /\
    be_value 0 m = be_value 0 s.
Proof. apply encode_mpint_appends. Qed.

Module Example.
(** A hash of eight bytes, one block cipher and one MAC. *)
Definition hash (x : bytes) : bytes :=
  map (fun b => b mod 256) (ztake 8 (vec_resize 8 (zlen x) (rev x))).
Lemma zlen_hash x : zlen (hash x) = 8.
Proof.
  unfold hash. change (zlen (map ?f ?l)) with (Z.of_nat (length (map f l))). rewrite length_map.
  change (Z.of_nat (length ?l)) with (zlen l). rewrite zlen_ztake, zlen_vec_resize; lia.
Qed.
Lemma hash_ok : is_hash hash.
Proof.
  intros x. rewrite zlen_hash. split; [lia|]. apply Forall_map, Forall_true. intros b.
  cbn. unfold is_u8. dlia.
Qed.

Definition mac20 : MacAlgorithm := mkMacAlgorithm 20 1.
Definition make (key nonce mac : bytes) (a : MacAlgorithm) : option CipherImpls.Example.key :=
  if (zlen key =? 32) && (zlen nonce =? 16) && (zlen mac =? a.(mac_key_len)) then
    Some (Block.mkBlockKey (Ctr.ctr_new key nonce) (Macs.mkCryptoEtmMac (Macs.mkCryptoMac mac)))
  else None.
Definition aes256_ctr : Cipher CipherImpls.Example.key CipherImpls.Example.key :=
  mkCipher 32 16 make make.
Definition CIPHERS (n : bytes) := if beq n (str "aes256-ctr") then Some aes256_ctr else None.
Definition MACS (n : bytes) := if beq n (str "hmac-sha1-etm@openssh.com") then Some mac20 else None.

Lemma tables : tables_ok (Block.block_sync eq) CIPHERS MACS.
Proof.
  split.
  - intros m a. unfold MACS. destruct (beq _ _); [|done]. by intros [= <-].
  - intros n c. unfold CIPHERS. destruct (beq _ _); [|done]. intros [= <-].
    split; [done|]. split; [done|]. intros m a key nonce mac _ Hk Hn Hm _ _ _. cbn in *. unfold make.
    rewrite Hk, Hn, Hm, !Z.eqb_refl. cbn. do 2 eexists. done.
Qed.

Lemma compute_key_rfc4253_witness :
  compute_key hash None [1; 2] [3; 4] 65 12 = Ok (ztake 12 (key_stream hash None [1; 2] [3; 4] 65 1)).
Proof.
  apply (compute_key_rfc4253 hash None [1; 2] [3; 4] 65 12 1); [intros x; apply hash_ok|].
  split; vm_compute; discriminate.
Defined.

Definition etm : bytes := str "hmac-sha1-etm@openssh.com".
Definition secret : option SharedSecret := Some (Mpint [0; 0; 0; 1; 5]).

Lemma keys_in_sync_witness :
  match compute_keys hash CIPHERS MACS secret [1] [9; 9] (str "aes256-ctr") etm etm true,
        compute_keys hash CIPHERS MACS secret [1] [9; 9] (str "aes256-ctr") etm etm false with
  | Ok s, Ok c =>
      Block.block_sync eq s.(local_to_remote) c.(remote_to_local) /\
      Block.block_sync eq c.(local_to_remote) s.(remote_to_local)
  | Err e, Err e' => e = Error.UnknownAlgo /\ e' = e /\ ~ known CIPHERS MACS (str "aes256-ctr") etm etm
  | _, _ => False
  end.
Proof.
  apply (keys_in_sync hash (Block.block_sync eq) CIPHERS MACS secret [1] [9; 9] (str "aes256-ctr") etm etm);
    [apply hash_ok|apply tables].
Defined.

(** The hypotheses are met by a derivation that succeeds. *)
Lemma keys_derived :
  is_ok (compute_keys hash CIPHERS MACS secret [1] [9; 9] (str "aes256-ctr") etm etm true) = true.
Proof. vm_compute. reflexivity. Qed.

Lemma encode_mpint_spec_witness :
  exists m, appends (@encode_mpint rfc4251 [0; 0; 200; 1]) (be32 (zlen m) ++ m) /\ canonical_mpint m /\
    be_value 0 m = be_value 0 [0; 0; 200; 1].
Proof.
  apply (@encode_mpint_spec rfc4251 _ [0; 0; 200; 1]); [|reflexivity].
  repeat constructor; unfold is_u8; lia.
Defined.
End Example.
