(* ===== verification/Suites.v ===== *)
(** * The tables of ciphers and MACs ([russh/src/cipher/mod.rs], [russh/src/mac/mod.rs])

    Which algorithm stands behind each name, how it makes its keys, and the boxes
    ([Box<dyn SealingKey>], [Box<dyn OpeningKey>], [Box<dyn Mac>]) they come in.
    The primitives belong to other crates: they are a class of parameters with
    laws.  What both sides derive from one secret carries packets, for every
    combination of algorithms in the tables. *)

From stdpp Require Import base list numbers option strings.
From Stdlib Require Import ZArith Lia.
From S2P Require Import Prelude LibInner Cipher CipherImpls Negotiation KexKeys.

(** ** The primitives *)

(** The type arguments of the statics: hashes, block ciphers and AEADs. *)
Inductive Hash : Type := Sha1 | Sha256 | Sha512.
Inductive BlockCipher : Type := Aes128 | Aes192 | Aes256 | TdesEde3.
Inductive Aead : Type := ALGORITHM_AES_128_GCM | ALGORITHM_AES_256_GCM.

(** [digest], [aes] with [ctr] and [cbc], [des], and the AEADs of [aws-lc-rs] or
    [ring], each by the sizes it reports and what it computes. *)
Class Primitives : Type := {
  output_size : Hash -> Z;
  hmac : Hash -> bytes -> bytes -> bytes;
  key_size : BlockCipher -> Z;
  block_size : BlockCipher -> Z;
  keystream_byte : BlockCipher -> bytes -> bytes -> Z -> Z;
  encrypt_block : BlockCipher -> bytes -> bytes -> bytes;
  decrypt_block : BlockCipher -> bytes -> bytes -> bytes;
  aead_key_len : Aead -> Z;
  aead_nonce_len : Aead -> Z;
  aead_tag_len : Aead -> Z;
  aead_seal : Aead -> bytes -> bytes -> bytes -> bytes -> option (bytes * bytes);
  aead_open : Aead -> bytes -> bytes -> bytes -> bytes -> option (bytes * bytes);
  chacha_key_len : Z;
  cc_seal : bytes -> Z -> bytes -> bytes * bytes;
  cc_length : bytes -> Z -> bytes -> bytes;
  cc_open : bytes -> Z -> bytes -> bytes -> option (bytes * bytes);
}.

(** What they are documented to do: sizes, that each inverts itself, and that bytes
    are opened to bytes, without the tag. *)
Class PrimitivesLaws `{Primitives} : Prop := {
  output_size_is h : output_size h = match h with Sha1 => 20 | Sha256 => 32 | Sha512 => 64 end;
  hmac_len h k d : zlen (hmac h k d) = output_size h;
  key_size_nonneg c : 0 <= key_size c;
  block_size_8_16 c : block_size c = 8 \/ block_size c = 16;
  encrypt_is_block c k b : Cbc.is_block (block_size c) b -> Cbc.is_block (block_size c) (encrypt_block c k b);
  decrypt_is_block c k b : Cbc.is_block (block_size c) b -> Cbc.is_block (block_size c) (decrypt_block c k b);
  decrypt_encrypt c k b : Cbc.is_block (block_size c) b -> decrypt_block c k (encrypt_block c k b) = b;
  keystream_u8 c k iv p : is_u8 (keystream_byte c k iv p);
  aead_key_len_nonneg a : 0 <= aead_key_len a;
  aead_nonce_len_12 a : aead_nonce_len a = Gcm.NONCE_LEN;
  aead_tag_len_nonneg a : 0 <= aead_tag_len a;
  aead_open_seal a k n aad p : zlen p <= MAXIMUM_PACKET_LEN ->
    exists ct tag rest, aead_seal a k n aad p = Some (ct, tag) /\ zlen ct = zlen p /\
      zlen tag = aead_tag_len a /\ aead_open a k n aad (ct ++ tag) = Some (p, rest);
  aead_open_plain a k n aad c p rest : aead_open a k n aad c = Some (p, rest) ->
    aead_tag_len a <= zlen c -> Forall is_u8 c -> zlen p <= zlen c - aead_tag_len a /\ Forall is_u8 p;
  chacha_key_len_nonneg : 0 <= chacha_key_len;
  cc_seal_len k n p : zlen (cc_seal k n p).1 = zlen p /\ zlen (cc_seal k n p).2 = ChaCha.TAG_LEN;
  cc_length_seal k n p : 4 <= zlen p -> cc_length k n (ztake 4 (cc_seal k n p).1) = ztake 4 p;
  cc_open_seal k n p : 4 <= zlen p ->
    exists l, zlen l = 4 /\ cc_open k n (cc_seal k n p).1 (cc_seal k n p).2 = Some (l, zdrop 4 p);
  cc_length_bytes k n b : zlen b = 4 -> Forall is_u8 b ->
    zlen (cc_length k n b) = 4 /\ Forall is_u8 (cc_length k n b);
  cc_open_plain k n c tag l p : cc_open k n c tag = Some (l, p) -> 4 <= zlen c -> Forall is_u8 c ->
    zlen p <= zlen c - 4 /\ Forall is_u8 p;
}.

Lemma output_size_nonneg `{PrimitivesLaws} h : 0 <= output_size h.
Proof. rewrite output_size_is. by destruct h. Qed.

(** ** MACs *)
Module MacTable.
Section Mac.
Context {P : Primitives}.

(** The types that implement the trait [MacAlgorithm]; [KL] is their length of keys. *)
Inductive Algorithm : Type :=
| NoMacAlgorithm
| CryptoMacAlgorithm (M : Hash) (KL : Z)
| CryptoEtmMacAlgorithm (M : Hash) (KL : Z).

(** [key_len] of [none.rs], [crypto.rs] and [crypto_etm.rs]. *)
Definition key_len (a : Algorithm) : Z :=
  match a with
  | NoMacAlgorithm => 0
  | CryptoMacAlgorithm _ KL | CryptoEtmMacAlgorithm _ KL => KL
  end.

(** [Box<dyn Mac>]. *)
Inductive Boxed : Type :=
| BoxNoMac (m : Macs.NoMac)
| BoxCryptoMac (M : Hash) (m : Macs.CryptoMac)
| BoxCryptoEtmMac (M : Hash) (m : Macs.CryptoEtmMac).

(** [make_mac]; [None] is the panic of [copy_from_slice] on another length. *)
Definition crypto_make_mac (M : Hash) (KL : Z) (mac_key : bytes) : option Boxed :=
  if zlen mac_key =? KL then Some (BoxCryptoMac M (Macs.mkCryptoMac mac_key)) else None.

Definition crypto_etm_make_mac (M : Hash) (KL : Z) (mac_key : bytes) : option Boxed :=
  if zlen mac_key =? KL then
    Some (BoxCryptoEtmMac M (Macs.mkCryptoEtmMac (Macs.mkCryptoMac mac_key)))
  else None.

Definition make_mac (a : Algorithm) (mac_key : bytes) : option Boxed :=
  match a with
  | NoMacAlgorithm => Some (BoxNoMac Macs.mkNoMac)
  | CryptoMacAlgorithm M KL => crypto_make_mac M KL mac_key
  | CryptoEtmMacAlgorithm M KL => crypto_etm_make_mac M KL mac_key
  end.

#[global] Instance boxed_mac : Mac Boxed := {|
  mac_len b := match b with
    | BoxNoMac m => mac_len m
    | BoxCryptoMac M _ | BoxCryptoEtmMac M _ => output_size M
    end;
  is_etm b := match b with BoxNoMac _ | BoxCryptoMac _ _ => false | BoxCryptoEtmMac _ _ => true end;
  compute b n p := match b with
    | BoxNoMac m => compute m n p
    | BoxCryptoMac M m => Macs.crypto_compute (hmac M) m n p
    | BoxCryptoEtmMac M m => Macs.crypto_compute (hmac M) m.(Macs.etm_inner) n p
    end;
  verify b n p mac := match b with
    | BoxNoMac m => verify m n p mac
    | BoxCryptoMac M m => Macs.crypto_verify (hmac M) m n p mac
    | BoxCryptoEtmMac M m => Macs.crypto_verify (hmac M) m.(Macs.etm_inner) n p mac
    end;
|}.

#[global] Instance boxed_mac_laws `{!PrimitivesLaws} : MacLaws Boxed.
Proof.
  split.
  - intros [m|M m|M m]; cbn; [done|apply output_size_nonneg..].
  - intros [m|M m|M m] n p; cbn; [done|apply hmac_len..].
  - intros [m|M m|M m] n p; cbn; [done|apply beq_refl..].
Qed.
End Mac.

(** *** The table *)
Definition NONE : bytes := str "none".
Definition HMAC_SHA1 : bytes := str "hmac-sha1".
Definition HMAC_SHA256 : bytes := str "hmac-sha2-256".
Definition HMAC_SHA512 : bytes := str "hmac-sha2-512".
Definition HMAC_SHA1_ETM : bytes := str "hmac-sha1-etm@openssh.com".
Definition HMAC_SHA256_ETM : bytes := str "hmac-sha2-256-etm@openssh.com".
Definition HMAC_SHA512_ETM : bytes := str "hmac-sha2-512-etm@openssh.com".

Definition ALL_MAC_ALGORITHMS : list bytes :=
  [NONE; HMAC_SHA1; HMAC_SHA256; HMAC_SHA512; HMAC_SHA1_ETM; HMAC_SHA256_ETM; HMAC_SHA512_ETM].

(** The statics, in the order of the source; a reference to one of them is its
    position ([mac_id]). *)
Definition statics : list Algorithm :=
  [NoMacAlgorithm; CryptoMacAlgorithm Sha1 20; CryptoMacAlgorithm Sha256 32;
   CryptoMacAlgorithm Sha512 64; CryptoEtmMacAlgorithm Sha1 20; CryptoEtmMacAlgorithm Sha256 32;
   CryptoEtmMacAlgorithm Sha512 64].

Definition deref (mac : MacAlgorithm) : option Algorithm := statics !! Z.to_nat mac.(mac_id).

Definition MACS_entries : list (bytes * Z) :=
  [(NONE, 0); (HMAC_SHA1, 1); (HMAC_SHA256, 2); (HMAC_SHA512, 3); (HMAC_SHA1_ETM, 4);
   (HMAC_SHA256_ETM, 5); (HMAC_SHA512_ETM, 6)].

Definition get {A} (name : bytes) (entries : list (bytes * A)) : option A :=
  option_map snd (List.find (fun x => beq x.1 name) entries).

Definition MACS (name : bytes) : option MacAlgorithm :=
  i ← get name MACS_entries;
  a ← statics !! Z.to_nat i;
  Some (mkMacAlgorithm (key_len a) i).

(** [TryFrom<&str> for Name]. *)
Definition try_from (s : bytes) : option bytes :=
  List.find (fun x => beq x s) (map fst MACS_entries).

Lemma get_some {A} name (entries : list (bytes * A)) x :
  get name entries = Some x -> In (name, x) entries.
Proof.
  unfold get. destruct (List.find _ _) as [[n y]|] eqn:E; [|done]. intros [= ->].
  apply find_some in E as [Hin Hb]. cbn in Hb. by apply beq_true in Hb as ->.
Qed.

Lemma get_is_some {A} name (entries : list (bytes * A)) :
  is_Some (get name entries) <-> In name (map fst entries).
Proof.
  unfold get. split.
  - intros [x Hx]. apply get_some in Hx. apply in_map_iff. by exists (name, x).
  - intros ([n x] & <- & Hin)%in_map_iff.
    destruct (List.find _ _) as [e|] eqn:E; [by eexists|].
    apply (find_none _ _ E) in Hin. cbn in Hin. by rewrite beq_refl in Hin.
Qed.

(** What the table refers to is a static, of its length of keys. *)
Lemma MACS_deref name mac : MACS name = Some mac ->
  exists a, deref mac = Some a /\ mac.(mac_key_len) = key_len a /\ 0 <= key_len a.
Proof.
  unfold MACS. destruct (get name MACS_entries) as [i|] eqn:E; [|done]. apply get_some in E. cbn.
  destruct (statics !! Z.to_nat i) as [a|] eqn:Ea; [|done]. intros [= <-]. exists a.
  split; [exact Ea|]. split; [done|]. apply list_elem_of_lookup_2 in Ea.
  repeat (apply elem_of_cons in Ea as [->|Ea]; [done|]). by apply elem_of_nil in Ea.
Qed.

Lemma MACS_known name : is_Some (MACS name) <-> In name ALL_MAC_ALGORITHMS.
Proof.
  change ALL_MAC_ALGORITHMS with (map fst MACS_entries). rewrite <- get_is_some. unfold MACS. split.
  - intros [x Hx]. destruct (get name MACS_entries); [by eexists|done].
  - intros [i Hi]. rewrite Hi. cbn. apply get_some in Hi. cbn in Hi.
    destruct_or?; simplify_eq; by eexists.
Qed.
End MacTable.

(** ** Boxed keys *)
Module Boxed.
Section Boxed.
Context {P : Primitives}.

Abbreviation CtrKey := (Block.BlockKey Ctr.CtrWrapper MacTable.Boxed).
Abbreviation CbcKey := (Block.BlockKey Cbc.CbcWrapper MacTable.Boxed).

(** The types that implement [OpeningKey] and [SealingKey]. *)
Inductive Key : Type :=
| BoxClear (k : Clear.Key)
| BoxCtr (c : BlockCipher) (k : CtrKey)
| BoxCbc (c : BlockCipher) (k : CbcKey)
| BoxGcm (a : Aead) (k : Gcm.GcmKey)
| BoxChaCha (k : ChaCha.ChaChaKey).

#[local] Instance ctr (c : BlockCipher) : BlockStreamCipher Ctr.CtrWrapper :=
  Ctr.ctr_cipher (keystream_byte c).
#[local] Instance cbc (c : BlockCipher) : BlockStreamCipher Cbc.CbcWrapper :=
  Cbc.cbc_cipher (encrypt_block c) (decrypt_block c) (block_size c).

(** What a key of the box answers, and the box again. *)
Definition in_box {K} (box : K -> Key) (r : K * bytes * bytes) : Key * bytes * bytes :=
  (box r.1.1, r.1.2, r.2).

(** A call of a method of the box goes to that of the key in it. *)
Definition boxed_seal (b : Key) (n : Z) (p : bytes) : option (Key * bytes * bytes) :=
  match b with
  | BoxClear k => in_box BoxClear <$> Clear.clear_seal k n p
  | BoxCtr c k => in_box (BoxCtr c) <$> Block.block_seal (HC := ctr c) k n p
  | BoxCbc c k => in_box (BoxCbc c) <$> Block.block_seal (HC := cbc c) k n p
  | BoxGcm a k => in_box (BoxGcm a) <$> Gcm.gcm_seal (aead_seal a) k n p
  | BoxChaCha k => in_box BoxChaCha <$> ChaCha.chacha_seal cc_seal k n p
  end.

Definition boxed_open (b : Key) (n : Z) (buf : bytes) : Result (Key * bytes * bytes) :=
  match b with
  | BoxClear k => let? r := Clear.clear_open k n buf in Ok (in_box BoxClear r)
  | BoxCtr c k => let? r := Block.block_open (HC := ctr c) k n buf in Ok (in_box (BoxCtr c) r)
  | BoxCbc c k => let? r := Block.block_open (HC := cbc c) k n buf in Ok (in_box (BoxCbc c) r)
  | BoxGcm a k => let? r := Gcm.gcm_open (aead_open a) k n buf in Ok (in_box (BoxGcm a) r)
  | BoxChaCha k => let? r := ChaCha.chacha_open cc_open k n buf in Ok (in_box BoxChaCha r)
  end.

#[global] Instance boxed_sealing : SealingKey Key := {|
  padding_length b p := match b with
    | BoxClear k => padding_length k p
    | BoxCtr _ k => Block.block_padding_length k p
    | BoxCbc _ k => Block.block_padding_length k p
    | BoxGcm _ _ => aead_padding_length 16 p
    | BoxChaCha _ => aead_padding_length 8 p
    end;
  fill_padding b rng n := match b with
    | BoxClear k => fill_padding k rng n
    | BoxChaCha _ => replicate (Z.to_nat n) 0
    | _ => rng n
    end;
  seal_tag_len b := match b with
    | BoxClear k => seal_tag_len k
    | BoxCtr _ k => mac_len k.(Block.mac)
    | BoxCbc _ k => mac_len k.(Block.mac)
    | BoxGcm a _ => aead_tag_len a
    | BoxChaCha _ => ChaCha.TAG_LEN
    end;
  seal := boxed_seal;
|}.

#[global] Instance boxed_opening : OpeningKey Key := {|
  packet_length_to_read_for_block_length b := match b with
    | BoxCtr _ _ | BoxCbc _ _ => 16
    | _ => 4
    end;
  decrypt_packet_length b n l := match b with
    | BoxClear k => decrypt_packet_length k n l
    | BoxCtr c k => Block.block_decrypt_packet_length (HC := ctr c) k n l
    | BoxCbc c k => Block.block_decrypt_packet_length (HC := cbc c) k n l
    | BoxGcm _ _ => l
    | BoxChaCha k => cc_length k.(ChaCha.cc_key) n l
    end;
  open_tag_len b := match b with
    | BoxClear k => open_tag_len k
    | BoxCtr _ k => mac_len k.(Block.mac)
    | BoxCbc _ k => mac_len k.(Block.mac)
    | BoxGcm a _ => aead_tag_len a
    | BoxChaCha _ => ChaCha.TAG_LEN
    end;
  open := boxed_open;
|}.

(** Two boxes hold the ends of one cipher. *)
Definition in_sync (s o : Key) : Prop :=
  match s, o with
  | BoxClear _, BoxClear _ => True
  | BoxCtr c s, BoxCtr c' o => c = c' /\ Block.block_sync eq s o
  | BoxCbc c s, BoxCbc c' o => c = c' /\ Block.block_sync (Cbc.cbc_sync (block_size c)) s o
  | BoxGcm a s, BoxGcm a' o => a = a' /\ s = o
  | BoxChaCha s, BoxChaCha o => s = o
  | _, _ => False
  end.

Context `{!PrimitivesLaws}.

#[global] Instance boxed_sealing_laws : SealingKeyLaws Key.
Proof.
  split.
  - unfold MAXIMUM_PADDING_LEN. intros [k|c k|c k|a k|k] p; cbn.
    + destruct (Clear.clear_padding_spec k p). lia.
    + destruct (Block.block_padding_spec k p). lia.
    + destruct (Block.block_padding_spec k p). lia.
    + destruct (aead_padding_spec 16 p); [by right|lia].
    + destruct (aead_padding_spec 8 p); [by left|lia].
  - intros [k|c k|c k|a k|k] rng Hr; cbn; try exact Hr;
      intros n Hn; by apply Clear.zeros_fill.
  - intros [k|c k|c k|a k|k]; cbn;
      [done|exact (mac_len_nonneg k.(Block.mac))..|apply aead_tag_len_nonneg|done].
Qed.

(** The ends of a cipher in their boxes are the ends of a cipher. *)
Lemma boxed_sync_open {K} `{HS : SealingKey K, HO : OpeningKey K} (sync : K -> K -> Prop) `{HE : !InSync K K sync}
    (box : K -> Key) (s o : K) n payload pad :
  (forall k p, padding_length (box k) p = padding_length k p) ->
  (forall k, seal_tag_len (box k) = seal_tag_len k) ->
  (forall k, packet_length_to_read_for_block_length (box k) = packet_length_to_read_for_block_length k) ->
  (forall k n l, decrypt_packet_length (box k) n l = decrypt_packet_length k n l) ->
  (forall k n p, seal (box k) n p = in_box box <$> seal k n p) ->
  (forall k n buf, open (box k) n buf = (let? r := open k n buf in Ok (in_box box r))) ->
  (forall s o, sync s o -> in_sync (box s) (box o)) ->
  sync s o -> zlen pad = padding_length (box s) payload ->
  Forall is_u8 payload -> Forall is_u8 pad ->
  1 + zlen payload + padding_length (box s) payload <= MAXIMUM_PACKET_LEN ->
  exists s' ct tag o' hdr tl,
    seal (box s) n (plain_packet (box s) payload pad) = Some (s', ct, tag) /\
    zlen ct = 5 + zlen payload + padding_length (box s) payload /\
    zlen tag = seal_tag_len (box s) /\
    decrypt_packet_length (box o) n
      (ztake (packet_length_to_read_for_block_length (box o)) (ct ++ tag)) =
      be32 (1 + zlen payload + padding_length (box s) payload) /\
    zlen hdr = 4 /\
    open (box o) n (ct ++ tag) =
      Ok (o', hdr ++ (padding_length (box s) payload :: payload ++ pad) ++ tl,
          padding_length (box s) payload :: payload ++ pad) /\
    in_sync s' o'.
Proof.
  intros Hpl Htl Hrd Hdl Hseal Hopen Hsync Hs Hpad Hu Hpu Hfit. rewrite !Hpl in *.
  destruct (sync_open s o n payload pad Hs Hpad Hu Hpu Hfit)
    as (s' & ct & tag & o' & hdr & tl & Es & Hct & Htag & Hlen & Hh & Eo & Hs').
  exists (box s'), ct, tag, (box o'), hdr, tl.
  unfold plain_packet in *. rewrite !Hpl, Hseal, Es, Htl, Hrd, Hdl, Hopen, Eo. split_and!; auto.
Qed.

#[local] Instance ctr_ends c : @CipherSync Ctr.CtrWrapper (ctr c) eq := Ctr.ctr_sync (keystream_byte c).
#[local] Instance cbc_ends c : @CipherSync Cbc.CbcWrapper (cbc c) (Cbc.cbc_sync (block_size c)).
Proof.
  apply Cbc.cbc_cipher_sync;
    [apply block_size_8_16|apply encrypt_is_block|apply decrypt_is_block|apply decrypt_encrypt].
Qed.

Lemma gcm_ends a : @InSync Gcm.GcmKey Gcm.GcmKey (Gcm.gcm_sealing (aead_seal a) (aead_tag_len a))
  (Gcm.gcm_opening (aead_open a) (aead_tag_len a)) eq.
Proof. apply Gcm.gcm_in_sync; [apply aead_tag_len_nonneg|apply aead_open_seal]. Qed.

Lemma chacha_ends : @InSync ChaCha.ChaChaKey ChaCha.ChaChaKey (ChaCha.chacha_sealing cc_seal)
  (ChaCha.chacha_opening cc_length cc_open) eq.
Proof. apply ChaCha.chacha_in_sync; [apply cc_seal_len|apply cc_length_seal|apply cc_open_seal]. Qed.

#[global] Instance boxed_in_sync : InSync Key Key in_sync.
Proof.
  split.
  - intros [?|c s|c s|a s|s] [?|c' o|c' o|a' o|o]; try done; cbn [in_sync].
    + intros [<- Hs]. exact (@sync_tag_len _ _ _ _ _ (@Block.block_in_sync _ _ (ctr c) _ _ _ (ctr_ends c)) s o Hs).
    + intros [<- Hs]. exact (@sync_tag_len _ _ _ _ _ (@Block.block_in_sync _ _ (cbc c) _ _ _ (cbc_ends c)) s o Hs).
    + by intros [<- _].
  - intros [?|c s|c s|a s|s] [?|c' o|c' o|a' o|o] p; try done; cbn [in_sync].
    + intros Hs. exact (sync_probe_len Clear.mkKey Clear.mkKey p Hs).
    + intros [<- Hs]. exact (@sync_probe_len _ _ _ _ _ (@Block.block_in_sync _ _ (ctr c) _ _ _ (ctr_ends c)) s o p Hs).
    + intros [<- Hs]. exact (@sync_probe_len _ _ _ _ _ (@Block.block_in_sync _ _ (cbc c) _ _ _ (cbc_ends c)) s o p Hs).
    + intros [<- Hs]. exact (@sync_probe_len _ _ _ _ _ (gcm_ends a) s o p Hs).
    + intros Hs. exact (@sync_probe_len _ _ _ _ _ chacha_ends s o p Hs).
  - intros [s|c s|c s|a s|s] [o|c' o|c' o|a' o|o] n p pad; try done; cbn [in_sync].
    + apply (boxed_sync_open Clear.in_sync BoxClear); done.
    + intros [<- Hs]. revert Hs.
      apply (boxed_sync_open (Block.block_sync eq) (HS := Block.block_sealing (HC := ctr c))
        (HO := Block.block_opening (HC := ctr c)) (BoxCtr c)); done.
    + intros [<- Hs]. revert Hs.
      apply (boxed_sync_open (Block.block_sync (Cbc.cbc_sync (block_size c)))
        (HS := Block.block_sealing (HC := cbc c)) (HO := Block.block_opening (HC := cbc c))
        (HE := Block.block_in_sync _ (HC := cbc c)) (BoxCbc c)); done.
    + intros [<- Hs]. revert Hs. by apply (boxed_sync_open eq (HE := gcm_ends a) (BoxGcm a)).
    + by apply (boxed_sync_open eq (HE := chacha_ends) BoxChaCha).
Qed.

(** *** Any input *)
Definition ok (b : Key) : Prop :=
  match b with BoxCbc c k => Cbc.is_block (block_size c) k.(Block.cipher).(Cbc.dec_iv) | _ => True end.

#[local] Instance ctr_cipher_safe c : @CipherSafe Ctr.CtrWrapper (ctr c) (fun _ => True).
Proof. apply Ctr.ctr_safe, keystream_u8. Qed.
#[local] Instance cbc_cipher_safe c :
  @CipherSafe Cbc.CbcWrapper (cbc c) (fun k => Cbc.is_block (block_size c) k.(Cbc.dec_iv)).
Proof. apply Cbc.cbc_safe; [apply block_size_8_16|apply decrypt_is_block]. Qed.

Lemma gcm_key_safe a : @OpeningKeySafe Gcm.GcmKey (Gcm.gcm_opening (aead_open a) (aead_tag_len a)) (fun _ => True).
Proof. apply Gcm.gcm_safe; [apply aead_tag_len_nonneg|apply aead_open_plain]. Qed.
Lemma chacha_key_safe : @OpeningKeySafe ChaCha.ChaChaKey (ChaCha.chacha_opening cc_length cc_open) (fun _ => True).
Proof. apply ChaCha.chacha_safe; [apply cc_length_bytes|apply cc_open_plain]. Qed.

(** What is said of the keys of a type, of one key. *)
Definition safe_at {K} `{OpeningKey K} (ok : K -> Prop) (k : K) : Prop :=
  ok k ->
  4 <= packet_length_to_read_for_block_length k /\ 0 <= open_tag_len k /\
  (forall n l, zlen l = packet_length_to_read_for_block_length k -> Forall is_u8 l ->
     zlen (decrypt_packet_length k n l) = 4 /\ Forall is_u8 (decrypt_packet_length k n l)) /\
  (forall n buf, 4 + open_tag_len k <= zlen buf -> open k n buf <> Panic) /\
  forall n buf k' buf' p, 4 + open_tag_len k <= zlen buf -> open k n buf = Ok (k', buf', p) -> Forall is_u8 buf ->
    (zlen p <= zlen buf - 4 - open_tag_len k /\ Forall is_u8 p) /\
    ok k' /\ open_tag_len k' = open_tag_len k /\
    packet_length_to_read_for_block_length k' = packet_length_to_read_for_block_length k.

(** The keys in a box are as safe as outside it. *)
Lemma boxed_safe {K} `{HO : OpeningKey K} (okk : K -> Prop) `{HE : !OpeningKeySafe K okk} (box : K -> Key) k :
  (forall k, ok (box k) <-> okk k) ->
  (forall k, open_tag_len (box k) = open_tag_len k) ->
  (forall k, packet_length_to_read_for_block_length (box k) = packet_length_to_read_for_block_length k) ->
  (forall k n l, decrypt_packet_length (box k) n l = decrypt_packet_length k n l) ->
  (forall k n buf, open (box k) n buf = (let? r := open k n buf in Ok (in_box box r))) ->
  safe_at ok (box k).
Proof.
  intros Hok Htl Hrd Hdl Hopen Hk%Hok. unfold safe_at. setoid_rewrite Hdl. setoid_rewrite Hopen. rewrite !Htl, !Hrd.
  split_and!; [by apply probe_min|by apply open_tag_min|intros; by apply probe_length| |].
  - intros n buf Hb Hp. apply (open_safe k n buf Hk Hb). by destruct (open k n buf).
  - intros n buf k' buf' p Hb ([[k1 buf1] p1] & Ho & [= <- <- <-])%res_bind_ok Hu. cbn [fst snd].
    apply open_plaintext in Ho; [|done..]. by rewrite Hok, Htl, Hrd.
Qed.

Lemma every_box_safe b : safe_at ok b.
Proof.
  destruct b as [k|c k|c k|a k|k].
  - by apply (boxed_safe (fun _ => True) BoxClear).
  - by apply (boxed_safe (HO := Block.block_opening (HC := ctr c)) (fun _ => True)
      (HE := Block.block_opening_safe (HC := ctr c) _) (BoxCtr c)).
  - by apply (boxed_safe (HO := Block.block_opening (HC := cbc c)) _
      (HE := Block.block_opening_safe (HC := cbc c) _) (BoxCbc c)).
  - by apply (boxed_safe (fun _ => True) (HE := gcm_key_safe a) (BoxGcm a)).
  - by apply (boxed_safe (fun _ => True) (HE := chacha_key_safe) BoxChaCha).
Qed.

#[global] Instance boxed_opening_safe : OpeningKeySafe Key ok.
Proof.
  split.
  - intros b Hb. by apply (every_box_safe b Hb).
  - intros b Hb. by apply (every_box_safe b Hb).
  - intros b n l Hb. by apply (every_box_safe b Hb).
  - intros b n buf Hb. by apply (every_box_safe b Hb).
  - intros b n buf b' buf' p Hb. by apply (every_box_safe b Hb).
Qed.

(** Only a block cipher without a MAC reads ahead more than the shortest packet
    has. *)
Definition unauthenticated (b : Key) : bool :=
  match b with
  | BoxCtr _ (Block.mkBlockKey _ (MacTable.BoxNoMac _)) | BoxCbc _ (Block.mkBlockKey _ (MacTable.BoxNoMac _)) => true
  | _ => false
  end.
Lemma reads_ahead b : unauthenticated b = false -> reads_ahead_safely b.
Proof.
  unfold reads_ahead_safely. destruct b as [k|c [d [m|h m|h m]]|c [d [m|h m|h m]]|a k|k]; try done; intros _;
    cbn -[Z.add]; rewrite ?output_size_is; try (by destruct h).
  pose proof (aead_tag_len_nonneg a). lia.
Qed.
End Boxed.
End Boxed.

(** ** Ciphers *)
Module CipherTable.
Section CipherTable.
Context {P : Primitives}.

(** The types that implement the trait [Cipher]. *)
Inductive Algorithm : Type :=
| Clear
| SshBlockCipher_Ctr (c : BlockCipher)
| SshBlockCipher_Cbc (c : BlockCipher)
| GcmCipher (a : Aead)
| SshChacha20Poly1305Cipher.

(** Only [block.rs] overrides the default of the trait. *)
Definition needs_mac (a : Algorithm) : bool :=
  match a with SshBlockCipher_Ctr _ | SshBlockCipher_Cbc _ => true | _ => false end.

(** [key_len] of [clear.rs], [block.rs], [gcm.rs] and [chacha20poly1305.rs]. *)
Definition key_len (a : Algorithm) : Z :=
  match a with
  | Clear => 0
  | SshBlockCipher_Ctr c | SshBlockCipher_Cbc c => key_size c
  | GcmCipher a => aead_key_len a
  | SshChacha20Poly1305Cipher => chacha_key_len
  end.

(** [nonce_len] of [block.rs], where the initial vector of both modes is a block, and
    [gcm.rs]; the default of the trait otherwise. *)
Definition nonce_len (a : Algorithm) : Z :=
  match a with
  | Clear | SshChacha20Poly1305Cipher => 0
  | SshBlockCipher_Ctr c | SshBlockCipher_Cbc c => block_size c
  | GcmCipher a => aead_nonce_len a
  end.

(** [new_cipher_from_slices::<C>]; [None] is a failed [expect]. *)
Definition new_cipher_from_slices {C} (new : bytes -> bytes -> C) (c : BlockCipher) (k n : bytes)
  : option C :=
  if (zlen k =? key_size c) && (zlen n =? block_size c) then Some (new k n) else None.

Definition boxed_mac (m : bytes) (mac : MacAlgorithm) : option MacTable.Boxed :=
  a ← MacTable.deref mac; MacTable.make_mac a m.

(** [make_opening_key] and [make_sealing_key], which have the same body in every
    implementation; [None] is a failed [unwrap] or [expect]. *)
Definition block_make_key {C} (box : Block.BlockKey C MacTable.Boxed -> Boxed.Key)
    (new : bytes -> bytes -> C) (c : BlockCipher) (k n m : bytes) (mac : MacAlgorithm)
  : option Boxed.Key :=
  cipher ← new_cipher_from_slices new c k n;
  mac ← boxed_mac m mac;
  Some (box (Block.mkBlockKey cipher mac)).

Definition gcm_make_key (a : Aead) (k n : bytes) : option Boxed.Key :=
  if (zlen k =? aead_key_len a) && (zlen n =? Gcm.NONCE_LEN)
  then Some (Boxed.BoxGcm a (Gcm.mkGcm k n)) else None.

Definition chacha_make_key (k : bytes) : option Boxed.Key :=
  if zlen k =? chacha_key_len then Some (Boxed.BoxChaCha (ChaCha.mkChaCha k)) else None.

Definition clear_make_key : option Boxed.Key := Some (Boxed.BoxClear Clear.mkKey).

Definition make_key (a : Algorithm) (k n m : bytes) (mac : MacAlgorithm) : option Boxed.Key :=
  match a with
  | Clear => clear_make_key
  | SshBlockCipher_Ctr c => block_make_key (Boxed.BoxCtr c) Ctr.ctr_new c k n m mac
  | SshBlockCipher_Cbc c => block_make_key (Boxed.BoxCbc c) Cbc.inner_iv_init c k n m mac
  | GcmCipher a => gcm_make_key a k n
  | SshChacha20Poly1305Cipher => chacha_make_key k
  end.

(** [&dyn Cipher]. *)
Definition dyn (a : Algorithm) : KexKeys.Cipher Boxed.Key Boxed.Key :=
  mkCipher (key_len a) (nonce_len a) (make_key a) (make_key a).

(** *** The table, with the feature [des] *)
Definition ALL_CIPHERS : list bytes :=
  [cipher_names.CLEAR; cipher_names.NONE; cipher_names.TRIPLE_DES_CBC; cipher_names.AES_128_CTR;
   cipher_names.AES_192_CTR; cipher_names.AES_256_CTR; cipher_names.AES_128_GCM;
   cipher_names.AES_256_GCM; cipher_names.AES_128_CBC; cipher_names.AES_192_CBC;
   cipher_names.AES_256_CBC; cipher_names.CHACHA20_POLY1305].

Definition CIPHERS_entries : list (bytes * Algorithm) :=
  [(cipher_names.CLEAR, Clear);
   (cipher_names.NONE, Clear);
   (cipher_names.TRIPLE_DES_CBC, SshBlockCipher_Cbc TdesEde3);
   (cipher_names.AES_128_CTR, SshBlockCipher_Ctr Aes128);
   (cipher_names.AES_192_CTR, SshBlockCipher_Ctr Aes192);
   (cipher_names.AES_256_CTR, SshBlockCipher_Ctr Aes256);
   (cipher_names.AES_128_GCM, GcmCipher ALGORITHM_AES_128_GCM);
   (cipher_names.AES_256_GCM, GcmCipher ALGORITHM_AES_256_GCM);
   (cipher_names.AES_128_CBC, SshBlockCipher_Cbc Aes128);
   (cipher_names.AES_192_CBC, SshBlockCipher_Cbc Aes192);
   (cipher_names.AES_256_CBC, SshBlockCipher_Cbc Aes256);
   (cipher_names.CHACHA20_POLY1305, SshChacha20Poly1305Cipher)].

Definition CIPHERS (name : bytes) : option (KexKeys.Cipher Boxed.Key Boxed.Key) :=
  dyn <$> MacTable.get name CIPHERS_entries.

(** [TryFrom<&str> for Name]. *)
Definition try_from (s : bytes) : option bytes :=
  List.find (fun x => beq x s) (map fst CIPHERS_entries).

Lemma CIPHERS_known name : is_Some (CIPHERS name) <-> In name ALL_CIPHERS.
Proof.
  change ALL_CIPHERS with (map fst CIPHERS_entries). rewrite <- MacTable.get_is_some.
  unfold CIPHERS. by rewrite fmap_is_Some.
Qed.

Context `{!PrimitivesLaws}.

(** A MAC of the table with a key of its length. *)
Lemma boxed_mac_ok name mac m :
  MacTable.MACS name = Some mac -> zlen m = mac.(mac_key_len) -> is_Some (boxed_mac m mac).
Proof.
  intros HM Hm. apply MacTable.MACS_deref in HM as (a & Ha & Hl & _). unfold boxed_mac. rewrite Ha. cbn.
  rewrite Hl in Hm. destruct a as [|M KL|M KL]; cbn in Hm |- *; [by eexists|..];
    unfold MacTable.crypto_make_mac, MacTable.crypto_etm_make_mac; rewrite Hm, Z.eqb_refl; by eexists.
Qed.

Lemma new_cipher_ok {C} (new : bytes -> bytes -> C) c k n :
  zlen k = key_size c -> zlen n = block_size c ->
  new_cipher_from_slices new c k n = Some (new k n).
Proof. intros Hk Hn. unfold new_cipher_from_slices. by rewrite Hk, Hn, !Z.eqb_refl. Qed.

(** Keys of the right lengths make ends in sync. *)
Lemma make_key_sync a k n m name mac :
  MacTable.MACS name = Some mac -> zlen k = key_len a -> zlen n = nonce_len a -> Forall is_u8 n ->
  zlen m = mac.(mac_key_len) ->
  exists s, make_key a k n m mac = Some s /\ Boxed.in_sync s s.
Proof.
  intros Hmac Hk Hn Hu Hm. destruct (boxed_mac_ok name mac m Hmac Hm) as [b Hb].
  destruct a as [|c|c|a|]; cbn in Hk, Hn; cbn [make_key].
  - by eexists.
  - unfold block_make_key. rewrite new_cipher_ok, Hb by done. by eexists.
  - unfold block_make_key. rewrite new_cipher_ok, Hb by done. by eexists.
  - unfold gcm_make_key. rewrite Hk, Hn, aead_nonce_len_12, !Z.eqb_refl. by eexists.
  - unfold chacha_make_key. rewrite Hk, Z.eqb_refl. by eexists.
Qed.
End CipherTable.
End CipherTable.

(** ** What both sides derive *)
Section Suites.
Context {P : Primitives} `{!PrimitivesLaws}.

Lemma suite_tables : tables_ok Boxed.in_sync CipherTable.CIPHERS MacTable.MACS.
Proof.
  split.
  - intros m a Ha. apply MacTable.MACS_deref in Ha as (b & _ & -> & Hb). done.
  - intros n c Hc. unfold CipherTable.CIPHERS in Hc.
    destruct (MacTable.get n CipherTable.CIPHERS_entries) as [a|]; [|done]. cbn in Hc. injection Hc as <-.
    cbn [key_len nonce_len make_sealing_key make_opening_key CipherTable.dyn]. split; [|split].
    + destruct a; cbn; [done|apply key_size_nonneg..|apply aead_key_len_nonneg|apply chacha_key_len_nonneg].
    + destruct a as [|c|c|a|]; cbn; try done;
        try (destruct (block_size_8_16 c) as [-> | ->]; done). by rewrite aead_nonce_len_12.
    + intros m mac k v mk Hm Hk Hv Hmk _ Hu _.
      destruct (CipherTable.make_key_sync a k v mk m mac) as (s & Hs & Hss); [done..|]. eauto.
Qed.

(** Whatever packets are written with the one key are read with the other, in
    order, and nothing more of the stream is consumed. *)
Definition carries (s o : Boxed.Key) : Prop :=
  forall (ps : list (bytes * (Z -> bytes))) wb rb rest,
  Forall sendable ps -> rb.(len) = 0 -> rb.(seqn) = wb.(seqn) ->
  exists s' o' wire wb' rb',
    write_all s ps wb = Some (s', wb') /\ wb'.(buffer) = wb.(buffer) ++ wire /\
    read_all (length ps) (wire ++ rest) rb o = Ok (map fst ps, rb', o', rest) /\
    rb'.(len) = 0 /\ rb'.(seqn) = wb'.(seqn).

Lemma in_sync_carries s o : Boxed.in_sync s o -> carries s o.
Proof.
  intros Hs ps wb rb rest Hps Hl Hn.
  destruct (packets_roundtrip Boxed.in_sync ps s o wb rb rest Hs Hps Hl Hn)
    as (s' & o' & wire & wb' & rb' & H1 & H2 & H3 & _ & H4 & H5).
  by exists s', o', wire, wb', rb'.
Qed.

Definition supported (cipher client_mac server_mac : bytes) : Prop :=
  In cipher CipherTable.ALL_CIPHERS /\ In client_mac MacTable.ALL_MAC_ALGORITHMS /\
  In server_mac MacTable.ALL_MAC_ALGORITHMS.

Lemma known_supported cipher cm sm :
  known CipherTable.CIPHERS MacTable.MACS cipher cm sm <-> supported cipher cm sm.
Proof. unfold known, supported. by rewrite CipherTable.CIPHERS_known, !MacTable.MACS_known. Qed.

(** C9. Every algorithm that the program offers carries packets: when a client
    and a server that share the secret, the exchange hash and the session id
    derive their keys from the tables [CIPHERS] and [MACS], for any of the
    twelve ciphers and any two of the seven MACs, no constructor of a key panics,
    and whatever payloads of up to 256 KiB of channel data one side
    writes, in either direction and with whatever padding, are what the other
    reads, in this order, with the bytes behind them untouched and the sequence
    numbers equal.  A name outside the tables is refused by both sides with
    [UnknownAlgo]; there is no other outcome. *)
Theorem suites_carry hash shared sid h cipher client_mac server_mac :
  is_hash hash ->
  match
    compute_keys hash CipherTable.CIPHERS MacTable.MACS shared sid h cipher client_mac server_mac true,
    compute_keys hash CipherTable.CIPHERS MacTable.MACS shared sid h cipher server_mac client_mac false
  with
  | Ok s, Ok c =>
      supported cipher client_mac server_mac /\
      carries s.(local_to_remote) c.(remote_to_local) /\
      carries c.(local_to_remote) s.(remote_to_local)
  | Err e, Err e' => e = Error.UnknownAlgo /\ e' = e /\ ~ supported cipher client_mac server_mac
  | _, _ => False
  end.
Proof.
  intros Hh.
  destruct (decide (is_Some (CipherTable.CIPHERS cipher) /\ is_Some (MacTable.MACS client_mac) /\
    is_Some (MacTable.MACS server_mac))) as [Hk|Hn].
  - destruct (compute_keys_sync hash Hh Boxed.in_sync _ _ shared sid h cipher client_mac server_mac suite_tables Hk)
      as (s & c & -> & -> & H1 & H2).
    split; [by apply known_supported|]. split; by apply in_sync_carries.
  - rewrite !compute_keys_unknown; [|unfold known; tauto|exact Hn]. by rewrite <- known_supported.
Qed.

(** The keys that the tables make. *)
Lemma make_key_ok a k n m mac b :
  CipherTable.make_key a k n m mac = Some b -> zlen n = CipherTable.nonce_len a -> Forall is_u8 n ->
  Boxed.ok b /\ (Boxed.unauthenticated b = true ->
    CipherTable.needs_mac a = true /\ MacTable.deref mac = Some MacTable.NoMacAlgorithm).
Proof.
  intros Hb Hn Hu. assert (Hmac : forall x, CipherTable.boxed_mac m mac = Some (MacTable.BoxNoMac x) ->
    MacTable.deref mac = Some MacTable.NoMacAlgorithm).
  { intros x Hx. unfold CipherTable.boxed_mac in Hx. destruct (MacTable.deref mac) as [[|h l|h l]|]; cbn in Hx; [done| | |done];
      unfold MacTable.crypto_make_mac, MacTable.crypto_etm_make_mac in Hx; by destruct (zlen m =? l). }
  destruct a as [|c|c|a|]; cbn [CipherTable.make_key] in Hb.
  - by injection Hb as <-.
  - unfold CipherTable.block_make_key in Hb. destruct (CipherTable.new_cipher_from_slices _ _ _ _) as [x|]; [|done].
    cbn in Hb. destruct (CipherTable.boxed_mac m mac) as [y|]; [|done]. injection Hb as <-. cbn. split; [done|].
    destruct y; naive_solver.
  - unfold CipherTable.block_make_key in Hb.
    destruct (CipherTable.new_cipher_from_slices _ _ _ _) as [x|] eqn:Ex; [|done].
    cbn in Hb. destruct (CipherTable.boxed_mac m mac) as [y|]; [|done]. injection Hb as <-. cbn. split; [|destruct y; naive_solver].
    unfold CipherTable.new_cipher_from_slices in Ex. destruct (_ && _); [|done]. injection Ex as <-. by split.
  - unfold CipherTable.gcm_make_key in Hb. destruct (_ && _); [|done]. by injection Hb as <-.
  - unfold CipherTable.chacha_make_key in Hb. destruct (_ =? _); [|done]. by injection Hb as <-.
Qed.

Lemma all_in (l l' : list bytes) :
  forallb (fun n => existsb (beq n) l') l = true -> Forall (fun n => In n l') l.
Proof.
  intros Hb. apply List.Forall_forall. intros n Hn. rewrite forallb_forall in Hb.
  destruct (proj1 (existsb_exists _ _) (Hb n Hn)) as (m & Hm & E). by apply beq_true in E as ->.
Qed.

(** What is offered by default is in the tables, and the negotiation asks for a
    MAC exactly where the cipher needs one. *)
Lemma defaults_supported :
  Forall (fun n => In n CipherTable.ALL_CIPHERS) CIPHER_ORDER /\
  Forall (fun n => In n MacTable.ALL_MAC_ALGORITHMS) (MAC_NONE :: SAFE_HMAC_ORDER).
Proof. split; apply all_in; vm_compute; reflexivity. Qed.

Lemma needs_mac_agrees name :
  cipher_names.needs_mac name =
  match MacTable.get name CipherTable.CIPHERS_entries with
  | Some a => CipherTable.needs_mac a
  | None => false
  end.
Proof.
  unfold cipher_names.needs_mac, MacTable.get.
  assert (E : cipher_names.CIPHERS =
    map (fun e => (e.1, CipherTable.needs_mac e.2)) CipherTable.CIPHERS_entries) by (vm_compute; reflexivity).
  rewrite E. clear E.
  induction CipherTable.CIPHERS_entries as [|e l IH]; cbn; [done|]. by destruct (beq e.1 name).
Qed.

Lemma no_mac_is_none name mac : MacTable.MACS name = Some mac ->
  MacTable.deref mac = Some MacTable.NoMacAlgorithm -> name = MacTable.NONE.
Proof.
  unfold MacTable.MACS. destruct (MacTable.get name MacTable.MACS_entries) as [i|] eqn:E; [|done].
  apply MacTable.get_some in E. cbn in E. destruct_or?; simplify_eq; cbn; by intros [= <-].
Qed.

(** C35. Whatever a peer sends, any cipher and MAC of the tables reads it safely:
    with the opening key that either side derives, and for any number of packets, [cipher::read]
    accepts a packet, of at most [MAXIMUM_PACKET_LEN] bytes, with the next sequence
    number and ready for the next, or refuses it with an error.  It
    panics in one case only: under a block cipher with the MAC [none] - which is not offered by
    default - and when a packet announces a length that is less than what was
    read ahead to learn it. *)
Theorem suite_read_safe hash shared sid h cipher remote_mac local_mac is_server pair n stream b :
  is_hash hash ->
  compute_keys hash CipherTable.CIPHERS MacTable.MACS shared sid h cipher remote_mac local_mac is_server = Ok pair ->
  Forall is_u8 stream -> b.(len) = 0 ->
  let k := pair.(remote_to_local) in
  match read_all n stream b k with
  | Ok (ps, b', _, _) =>
      length ps = n /\ Forall (fun p => zlen p <= MAXIMUM_PACKET_LEN) ps /\ b'.(len) = 0 /\
      b'.(seqn) = Nat.iter n (fun s => wrapping_add32 s 1) b.(seqn)
  | Err _ => True
  | Panic =>
      (cipher_names.needs_mac cipher = true /\ remote_mac = MacTable.NONE) /\
      exists m ps b' k' stream', read_all m stream b k = Ok (ps, b', k', stream') /\ too_short stream' b' k'
  end.
Proof.
  intros Hh Hr Hu Hl k.
  destruct (compute_keys_opening hash Hh Boxed.in_sync _ _ _ _ _ _ _ _ _ _ suite_tables Hr)
    as (c & a & kk & v & m & Hc & Ha & _ & Hv & _ & Huv & Ho).
  rewrite needs_mac_agrees. unfold CipherTable.CIPHERS in Hc.
  destruct (MacTable.get cipher CipherTable.CIPHERS_entries) as [al|]; [|done]. injection Hc as <-.
  cbn [nonce_len make_opening_key CipherTable.dyn] in Hv, Ho. fold k in Ho.
  destruct (make_key_ok al kk v m a k Ho Hv Huv) as [Hok Hno].
  pose proof (read_all_safe n stream b k Hok Hu Hl) as Hs.
  destruct (read_all n stream b k) as [[[[ps b1] k1] s1]| |]; [done|done|]. destruct Hs as [Hn Hs]. split; [|done].
  destruct (Boxed.unauthenticated k) eqn:E; [|by apply Boxed.reads_ahead in E].
  destruct Hno as [H1 H2]; [done|]. split; [done|]. by eapply no_mac_is_none.
Qed.

(** A name that the table knows is parsed as itself, and no other is. *)
Lemma try_from_spec s n :
  (CipherTable.try_from s = Some n <-> n = s /\ In s CipherTable.ALL_CIPHERS) /\
  (MacTable.try_from s = Some n <-> n = s /\ In s MacTable.ALL_MAC_ALGORITHMS).
Proof.
  assert (Hf : forall l, List.find (fun x => beq x s) l = Some n <-> n = s /\ In s l).
  { intros l. split.
    - by intros [Hi ->%beq_true]%find_some.
    - intros [-> Hi]. destruct (List.find _ l) as [x|] eqn:E.
      + by apply find_some in E as [_ ->%beq_true].
      + apply (find_none _ _ E) in Hi. by rewrite beq_refl in Hi. }
  split; apply Hf.
Qed.
End Suites.

(** ** Concrete primitives, and packets under some of the suites *)
Module Example.
Definition mask (b : bytes) : bytes := map (fun x => Z.lxor x 90) b.
Definition zeros (n : Z) : bytes := replicate (Z.to_nat n) 0.
Definition seal_zeros (p : bytes) : option (bytes * bytes) := Some (mask p, zeros 16).
Definition open_zeros (c : bytes) : option (bytes * bytes) :=
  Some (mask (ztake (zlen c - 16) c), zdrop (zlen c - 16) c).

#[local] Instance prims : Primitives := {|
  output_size h := match h with Sha1 => 20 | Sha256 => 32 | Sha512 => 64 end;
  hmac h k d := vec_resize (match h with Sha1 => 20 | Sha256 => 32 | Sha512 => 64 end) 5 (k ++ d);
  key_size c := match c with Aes128 => 16 | Aes192 => 24 | Aes256 => 32 | TdesEde3 => 24 end;
  block_size c := match c with TdesEde3 => 8 | _ => 16 end;
  keystream_byte _ _ _ p := (7 * p + 3) mod 256;
  encrypt_block _ _ b := mask b;
  decrypt_block _ _ b := mask b;
  aead_key_len a := match a with ALGORITHM_AES_128_GCM => 16 | ALGORITHM_AES_256_GCM => 32 end;
  aead_nonce_len _ := 12;
  aead_tag_len _ := 16;
  aead_seal _ _ _ _ p := seal_zeros p;
  aead_open _ _ _ _ c := open_zeros c;
  chacha_key_len := 64;
  cc_seal _ _ p := (mask p, zeros 16);
  cc_length _ _ b := mask b;
  cc_open _ _ c _ := Some (ztake 4 (mask c), zdrop 4 (mask c));
|}.

Lemma zlen_mask b : zlen (mask b) = zlen b.
Proof. unfold mask, zlen. by rewrite length_map. Qed.

Lemma mask_twice b : mask (mask b) = b.
Proof.
  unfold mask. rewrite map_map. rewrite (map_ext _ id), map_id; [done|]. intros x.
  by rewrite Z.lxor_assoc, Z.lxor_nilpotent, Z.lxor_0_r.
Qed.

Lemma mask_block n b : Cbc.is_block n b -> Cbc.is_block n (mask b).
Proof.
  intros [Hl Hu]. split; [by rewrite zlen_mask|]. unfold mask. apply Forall_map.
  eapply Forall_impl; [exact Hu|]. intros x Hx. cbn. apply lxor_u8; [done|]. unfold is_u8. lia.
Qed.

Lemma mask_ztake n b : mask (ztake n b) = ztake n (mask b).
Proof. unfold mask, ztake. by rewrite firstn_map. Qed.

Lemma mask_u8 b : Forall is_u8 b -> Forall is_u8 (mask b).
Proof.
  intros Hu. unfold mask. apply Forall_map. eapply Forall_impl; [exact Hu|]. intros x Hx. cbn.
  apply lxor_u8; [done|]. unfold is_u8. lia.
Qed.

#[local] Instance prims_laws : PrimitivesLaws.
Proof.
  constructor; cbn.
  - done.
  - intros [] k d; by rewrite zlen_vec_resize.
  - by intros [].
  - intros []; auto.
  - intros c k b. apply mask_block.
  - intros c k b. apply mask_block.
  - intros c k b _. apply mask_twice.
  - intros _ _ _ p. unfold is_u8. dlia.
  - by intros [].
  - done.
  - done.
  - intros a k n aad p _. exists (mask p), (zeros 16), (zeros 16). unfold seal_zeros, open_zeros.
    rewrite zlen_app. change (zlen (zeros 16)) with 16.
    replace (zlen (mask p) + 16 - 16) with (zlen (mask p)) by lia.
    rewrite ztake_app_exact, zdrop_app_exact, mask_twice by done. by rewrite zlen_mask.
  - unfold open_zeros. intros a k n aad c p rest [= <- _] Hc Hu. rewrite zlen_mask, zlen_ztake. split; [lia|].
    by apply mask_u8, Forall_take.
  - done.
  - intros k n p. cbn. split; [apply zlen_mask|done].
  - intros k n p _. cbn. by rewrite <- mask_ztake, mask_twice.
  - intros k n p Hp. cbn. exists (ztake 4 (mask (mask p))). rewrite zlen_ztake, zlen_mask, zlen_mask.
    split; [lia|]. change (map _ (mask p)) with (mask (mask p)). by rewrite !mask_twice.
  - intros k n b Hb Hu. split; [by rewrite zlen_mask|by apply mask_u8].
  - intros k n c tag l p [= _ <-] Hc Hu. rewrite zlen_zdrop, zlen_mask. split; [lia|]. by apply Forall_drop, mask_u8.
Qed.

Abbreviation derive c m1 m2 := (compute_keys KexKeys.Example.hash CipherTable.CIPHERS MacTable.MACS
  KexKeys.Example.secret [1] [9; 9] c m1 m2).

Definition suite (c m : bytes) : option (Boxed.Key * Boxed.Key) :=
  match derive c m m true, derive c m m false with
  | Ok s, Ok c => Some (s.(local_to_remote), c.(remote_to_local))
  | _, _ => None
  end.

(** Two packets of a server, as the client reads them. *)
Definition passed (c m : bytes) : option (list bytes) :=
  ks ← suite c m;
  match write_all ks.1 [([94; 1; 2], zeros); ([21], zeros)] SSHBuffer_new with
  | Some (_, w) =>
      match read_all 2 w.(buffer) SSHBuffer_new ks.2 with
      | Ok (ps, _, _, _) => Some ps
      | _ => None
      end
  | None => None
  end.

Example every_suite_passes :
  forallb (fun c => forallb (fun m =>
      match passed c m with Some ps => bool_decide (ps = [[94; 1; 2]; [21]]) | None => false end)
    MacTable.ALL_MAC_ALGORITHMS) CipherTable.ALL_CIPHERS = true.
Proof. vm_compute. reflexivity. Qed.

Lemma suites_carry_witness :
  match derive cipher_names.AES_256_CBC MacTable.HMAC_SHA1 MacTable.HMAC_SHA512_ETM true,
        derive cipher_names.AES_256_CBC MacTable.HMAC_SHA512_ETM MacTable.HMAC_SHA1 false with
  | Ok s, Ok c =>
      supported cipher_names.AES_256_CBC MacTable.HMAC_SHA1 MacTable.HMAC_SHA512_ETM /\
      carries s.(local_to_remote) c.(remote_to_local) /\
      carries c.(local_to_remote) s.(remote_to_local)
  | Err e, Err e' => e = Error.UnknownAlgo /\ e' = e /\
      ~ supported cipher_names.AES_256_CBC MacTable.HMAC_SHA1 MacTable.HMAC_SHA512_ETM
  | _, _ => False
  end.
Proof.
  apply (suites_carry KexKeys.Example.hash KexKeys.Example.secret [1] [9; 9] cipher_names.AES_256_CBC
    MacTable.HMAC_SHA1 MacTable.HMAC_SHA512_ETM). apply KexKeys.Example.hash_ok.
Defined.

(** Bytes that are no packets, under AES-256-CBC with HMAC-SHA1. *)
Definition client_pair : option (CipherPair Boxed.Key Boxed.Key) :=
  match derive cipher_names.AES_256_CBC MacTable.HMAC_SHA1 MacTable.HMAC_SHA1 false with
  | Ok c => Some c
  | _ => None
  end.

Lemma suite_read_safe_witness :
  match client_pair with
  | Some c =>
      match read_all 2 (replicate 80 7) SSHBuffer_new c.(remote_to_local) with
      | Ok (ps, b', _, _) =>
          length ps = 2%nat /\ Forall (fun p => zlen p <= MAXIMUM_PACKET_LEN) ps /\ b'.(len) = 0 /\
          b'.(seqn) = 2
      | Err _ => True
      | Panic => False
      end
  | None => False
  end.
Proof.
  unfold client_pair. destruct (derive cipher_names.AES_256_CBC MacTable.HMAC_SHA1 MacTable.HMAC_SHA1 false) as [c| |] eqn:E;
    [|vm_compute in E; discriminate E..].
  pose proof (suite_read_safe _ _ _ _ _ _ _ _ c 2 (replicate 80 7) SSHBuffer_new KexKeys.Example.hash_ok E
    ltac:(apply Forall_replicate; unfold is_u8; lia) eq_refl) as H. cbv zeta in H.
  destruct (read_all 2 (replicate 80 7) SSHBuffer_new (remote_to_local c)) as [[[[ps b'] k'] s']| |]; [|exact I|].
  - destruct H as (H1 & H2 & H3 & H4). rewrite H4. split; [exact H1|]. split; [exact H2|]. split; [exact H3|reflexivity].
  - destruct H as [[_ H] _]. discriminate H.
Defined.

(** With the MAC [none], which is not offered by default, a block cipher
    panics on a packet that claims to be shorter than the block that was
    read to learn its length. *)
Example short_packet_panics :
  match suite cipher_names.AES_128_CTR MacTable.NONE with
  | Some (_, Boxed.BoxCtr c k) =>
      read (snd (Ctr.apply_keystream (keystream_byte c) k.(Block.cipher) (be32 5 ++ zeros 12)))
        SSHBuffer_new (Boxed.BoxCtr c k) = Panic
  | _ => False
  end.
Proof. vm_compute. reflexivity. Qed.
End Example.
