(* ===== verification/Dh.v ===== *)
(** * Diffie-Hellman groups ([russh/src/kex/dh/])

    The interface of a key exchange algorithm ([KexAlgorithmImplementor]), its
    public values ([Exchange]), and the finite-field implementation
    ([DhGroupKex]).  [BigUint] is [Z]; a random number is an argument. *)

From stdpp Require Import base list numbers option strings.
From Stdlib Require Import ZArith Zpow_facts Lia.
From S2P Require Import Prelude Encoding LibInner Msg KexKeys.

(** ** [BigUint] *)

(** [BigUint::from_bytes_be]. *)
Definition from_bytes_be (b : bytes) : Z := be_value 0 b.

Fixpoint be_digits (fuel : nat) (n : Z) (acc : bytes) : bytes :=
  match fuel with
  | O => acc
  | S fuel' => if n =? 0 then acc else be_digits fuel' (n / 256) (n mod 256 :: acc)
  end.

(** [BigUint::to_bytes_be]: no leading zero, [0] for zero. *)
Definition to_bytes_be (n : Z) : bytes :=
  if n =? 0 then [0] else be_digits (Z.to_nat (Z.log2 n) + 1) n [].

(** [BigUint::modpow]. *)
Definition modpow (base exponent modulus : Z) : Z := (base ^ exponent) mod modulus.

Definition biguint_to_mpint (n : Z) : bytes :=
  let b := to_bytes_be n in
  match b with
  | x :: _ => if 127 <? x then 0 :: b else b
  | [] => b
  end.

(** ** Groups ([groups.rs]) *)

Record DhGroup : Type := mkDhGroup { prime : bytes; generator : bytes }.

(** [self.prime.iter().position(|&x| x != 0)]. *)
Fixpoint leading_zeros (b : bytes) : option Z :=
  match b with
  | [] => None
  | x :: b' => if negb (x =? 0) then Some 0 else option_map (fun i => i + 1) (leading_zeros b')
  end.

Definition bit_size (g : DhGroup) : Z :=
  match leading_zeros g.(prime) with
  | None => 0
  | Some fsb_idx => (zlen g.(prime) - fsb_idx) * 8
  end.

Definition DH_GROUP1 : DhGroup := mkDhGroup (to_bytes_be 0xffffffffffffffffc90fdaa22168c234c4c6628b80dc1cd129024e088a67cc74020bbea63b139b22514a08798e3404ddef9519b3cd3a431b302b0a6df25f14374fe1356d6d51c245e485b576625e7ec6f44c42e9a637ed6b0bff5cb6f406b7edee386bfb5a899fa5ae9f24117c4b1fe649286651ece65381ffffffffffffffff) [2].
Definition DH_GROUP14 : DhGroup := mkDhGroup (to_bytes_be 0xffffffffffffffffc90fdaa22168c234c4c6628b80dc1cd129024e088a67cc74020bbea63b139b22514a08798e3404ddef9519b3cd3a431b302b0a6df25f14374fe1356d6d51c245e485b576625e7ec6f44c42e9a637ed6b0bff5cb6f406b7edee386bfb5a899fa5ae9f24117c4b1fe649286651ece45b3dc2007cb8a163bf0598da48361c55d39a69163fa8fd24cf5f83655d23dca3ad961c62f356208552bb9ed529077096966d670c354e4abc9804f1746c08ca18217c32905e462e36ce3be39e772c180e86039b2783a2ec07a28fb5c55df06f4c52c9de2bcbf6955817183995497cea956ae515d2261898fa051015728e5a8aacaa68ffffffffffffffff) [2].
Definition DH_GROUP15 : DhGroup := mkDhGroup (to_bytes_be 0xffffffffffffffffc90fdaa22168c234c4c6628b80dc1cd129024e088a67cc74020bbea63b139b22514a08798e3404ddef9519b3cd3a431b302b0a6df25f14374fe1356d6d51c245e485b576625e7ec6f44c42e9a637ed6b0bff5cb6f406b7edee386bfb5a899fa5ae9f24117c4b1fe649286651ece45b3dc2007cb8a163bf0598da48361c55d39a69163fa8fd24cf5f83655d23dca3ad961c62f356208552bb9ed529077096966d670c354e4abc9804f1746c08ca18217c32905e462e36ce3be39e772c180e86039b2783a2ec07a28fb5c55df06f4c52c9de2bcbf6955817183995497cea956ae515d2261898fa051015728e5a8aaac42dad33170d04507a33a85521abdf1cba64ecfb850458dbef0a8aea71575d060c7db3970f85a6e1e4c7abf5ae8cdb0933d71e8c94e04a25619dcee3d2261ad2ee6bf12ffa06d98a0864d87602733ec86a64521f2b18177b200cbbe117577a615d6c770988c0bad946e208e24fa074e5ab3143db5bfce0fd108e4b82d120a93ad2caffffffffffffffff) [2].
Definition DH_GROUP16 : DhGroup := mkDhGroup (to_bytes_be 0xffffffffffffffffc90fdaa22168c234c4c6628b80dc1cd129024e088a67cc74020bbea63b139b22514a08798e3404ddef9519b3cd3a431b302b0a6df25f14374fe1356d6d51c245e485b576625e7ec6f44c42e9a637ed6b0bff5cb6f406b7edee386bfb5a899fa5ae9f24117c4b1fe649286651ece45b3dc2007cb8a163bf0598da48361c55d39a69163fa8fd24cf5f83655d23dca3ad961c62f356208552bb9ed529077096966d670c354e4abc9804f1746c08ca18217c32905e462e36ce3be39e772c180e86039b2783a2ec07a28fb5c55df06f4c52c9de2bcbf6955817183995497cea956ae515d2261898fa051015728e5a8aaac42dad33170d04507a33a85521abdf1cba64ecfb850458dbef0a8aea71575d060c7db3970f85a6e1e4c7abf5ae8cdb0933d71e8c94e04a25619dcee3d2261ad2ee6bf12ffa06d98a0864d87602733ec86a64521f2b18177b200cbbe117577a615d6c770988c0bad946e208e24fa074e5ab3143db5bfce0fd108e4b82d120a92108011a723c12a787e6d788719a10bdba5b2699c327186af4e23c1a946834b6150bda2583e9ca2ad44ce8dbbbc2db04de8ef92e8efc141fbecaa6287c59474e6bc05d99b2964fa090c3a2233ba186515be7ed1f612970cee2d7afb81bdd762170481cd0069127d5b05aa993b4ea988d8fddc186ffb7dc90a6c08f4df435c934063199ffffffffffffffff) [2].
Definition DH_GROUP17 : DhGroup := mkDhGroup (to_bytes_be 0xffffffffffffffffc90fdaa22168c234c4c6628b80dc1cd129024e088a67cc74020bbea63b139b22514a08798e3404ddef9519b3cd3a431b302b0a6df25f14374fe1356d6d51c245e485b576625e7ec6f44c42e9a637ed6b0bff5cb6f406b7edee386bfb5a899fa5ae9f24117c4b1fe649286651ece45b3dc2007cb8a163bf0598da48361c55d39a69163fa8fd24cf5f83655d23dca3ad961c62f356208552bb9ed529077096966d670c354e4abc9804f1746c08ca18217c32905e462e36ce3be39e772c180e86039b2783a2ec07a28fb5c55df06f4c52c9de2bcbf6955817183995497cea956ae515d2261898fa051015728e5a8aaac42dad33170d04507a33a85521abdf1cba64ecfb850458dbef0a8aea71575d060c7db3970f85a6e1e4c7abf5ae8cdb0933d71e8c94e04a25619dcee3d2261ad2ee6bf12ffa06d98a0864d87602733ec86a64521f2b18177b200cbbe117577a615d6c770988c0bad946e208e24fa074e5ab3143db5bfce0fd108e4b82d120a92108011a723c12a787e6d788719a10bdba5b2699c327186af4e23c1a946834b6150bda2583e9ca2ad44ce8dbbbc2db04de8ef92e8efc141fbecaa6287c59474e6bc05d99b2964fa090c3a2233ba186515be7ed1f612970cee2d7afb81bdd762170481cd0069127d5b05aa993b4ea988d8fddc186ffb7dc90a6c08f4df435c93402849236c3fab4d27c7026c1d4dcb2602646dec9751e763dba37bdf8ff9406ad9e530ee5db382f413001aeb06a53ed9027d831179727b0865a8918da3edbebcf9b14ed44ce6cbaced4bb1bdb7f1447e6cc254b332051512bd7af426fb8f401378cd2bf5983ca01c64b92ecf032ea15d1721d03f482d7ce6e74fef6d55e702f46980c82b5a84031900b1c9e59e7c97fbec7e8f323a97a7e36cc88be0f1d45b7ff585ac54bd407b22b4154aacc8f6d7ebf48e1d814cc5ed20f8037e0a79715eef29be32806a1d58bb7c5da76f550aa3d8a1fbff0eb19ccb1a313d55cda56c9ec2ef29632387fe8d76e3c0468043e8f663f4860ee12bf2d5b0b7474d6e694f91e6dcc4024ffffffffffffffff) [2].
Definition DH_GROUP18 : DhGroup := mkDhGroup (to_bytes_be 0xffffffffffffffffc90fdaa22168c234c4c6628b80dc1cd129024e088a67cc74020bbea63b139b22514a08798e3404ddef9519b3cd3a431b302b0a6df25f14374fe1356d6d51c245e485b576625e7ec6f44c42e9a637ed6b0bff5cb6f406b7edee386bfb5a899fa5ae9f24117c4b1fe649286651ece45b3dc2007cb8a163bf0598da48361c55d39a69163fa8fd24cf5f83655d23dca3ad961c62f356208552bb9ed529077096966d670c354e4abc9804f1746c08ca18217c32905e462e36ce3be39e772c180e86039b2783a2ec07a28fb5c55df06f4c52c9de2bcbf6955817183995497cea956ae515d2261898fa051015728e5a8aaac42dad33170d04507a33a85521abdf1cba64ecfb850458dbef0a8aea71575d060c7db3970f85a6e1e4c7abf5ae8cdb0933d71e8c94e04a25619dcee3d2261ad2ee6bf12ffa06d98a0864d87602733ec86a64521f2b18177b200cbbe117577a615d6c770988c0bad946e208e24fa074e5ab3143db5bfce0fd108e4b82d120a92108011a723c12a787e6d788719a10bdba5b2699c327186af4e23c1a946834b6150bda2583e9ca2ad44ce8dbbbc2db04de8ef92e8efc141fbecaa6287c59474e6bc05d99b2964fa090c3a2233ba186515be7ed1f612970cee2d7afb81bdd762170481cd0069127d5b05aa993b4ea988d8fddc186ffb7dc90a6c08f4df435c93402849236c3fab4d27c7026c1d4dcb2602646dec9751e763dba37bdf8ff9406ad9e530ee5db382f413001aeb06a53ed9027d831179727b0865a8918da3edbebcf9b14ed44ce6cbaced4bb1bdb7f1447e6cc254b332051512bd7af426fb8f401378cd2bf5983ca01c64b92ecf032ea15d1721d03f482d7ce6e74fef6d55e702f46980c82b5a84031900b1c9e59e7c97fbec7e8f323a97a7e36cc88be0f1d45b7ff585ac54bd407b22b4154aacc8f6d7ebf48e1d814cc5ed20f8037e0a79715eef29be32806a1d58bb7c5da76f550aa3d8a1fbff0eb19ccb1a313d55cda56c9ec2ef29632387fe8d76e3c0468043e8f663f4860ee12bf2d5b0b7474d6e694f91e6dbe115974a3926f12fee5e438777cb6a932df8cd8bec4d073b931ba3bc832b68d9dd300741fa7bf8afc47ed2576f6936ba424663aab639c5ae4f5683423b4742bf1c978238f16cbe39d652de3fdb8befc848ad922222e04a4037c0713eb57a81a23f0c73473fc646cea306b4bcbc8862f8385ddfa9d4b7fa2c087e879683303ed5bdd3a062b3cf5b3a278a66d2a13f83f44f82ddf310ee074ab6a364597e899a0255dc164f31cc50846851df9ab48195ded7ea1b1d510bd7ee74d73faf36bc31ecfa268359046f4eb879f924009438b481c6cd7889a002ed5ee382bc9190da6fc026e479558e4475677e9aa9e3050e2765694dfc81f56e880b96e7160c980dd98edd3dfffffffffffffffff) [2].

Definition BUILTIN_SAFE_DH_GROUPS : list DhGroup := [DH_GROUP14; DH_GROUP16].

Record DH : Type := mkDH {
  prime_num : Z;
  dh_generator : Z;
  private_key : Z;
  public_key : Z;
  dh_shared_secret : Z;
}.

Definition DH_new (group : DhGroup) : DH :=
  mkDH (from_bytes_be group.(prime)) (from_bytes_be group.(generator)) 0 0 0.

(** [rnd] is the number drawn from [lower..q]; an empty range panics, and so does
    a subtraction below zero. *)
Definition generate_private_key (rnd : Z) (is_server : bool) (d : DH) : option DH :=
  if d.(prime_num) <? 1 then None
  else
    let q := (d.(prime_num) - 1) / 2 in
    if (if is_server then 1 else 2) <? q then
      Some (mkDH d.(prime_num) d.(dh_generator) rnd d.(public_key) d.(dh_shared_secret))
    else None.

Definition generate_public_key (d : DH) : Z * DH :=
  let k := modpow d.(dh_generator) d.(private_key) d.(prime_num) in
  (k, mkDH d.(prime_num) d.(dh_generator) d.(private_key) k d.(dh_shared_secret)).

Definition dh_compute_shared_secret (other_public_key : Z) (d : DH) : Z * DH :=
  let k := modpow other_public_key d.(private_key) d.(prime_num) in
  (k, mkDH d.(prime_num) d.(dh_generator) d.(private_key) d.(public_key) k).

Definition validate_shared_secret (d : DH) (shared_secret : Z) : bool :=
  (1 <? shared_secret) && (shared_secret <? d.(prime_num) - 1).
Definition validate_public_key (d : DH) (public_key : Z) : bool :=
  (1 <? public_key) && (public_key <? d.(prime_num) - 1).
Definition decode_public_key (buffer : bytes) : Z := from_bytes_be buffer.

(** ** Group exchange parameters ([client/mod.rs], [kex/dh/mod.rs]) *)
Record GexParams : Type := mkGexParams {
  min_group_size : Z;
  preferred_group_size : Z;
  max_group_size : Z;
}.

Inductive ValidationKind : Type := ClientConfig | PeerRequest.

(** The text of the message is left empty. *)
Definition validate (p : GexParams) (kind : ValidationKind) : Result unit :=
  let? _ := match kind with
    | ClientConfig => if p.(min_group_size) <? 2048 then Err (Error.InvalidConfig []) else Ok tt
    | PeerRequest => if p.(max_group_size) <? 2048 then Err (Error.InvalidConfig []) else Ok tt
    end in
  if p.(preferred_group_size) <? p.(min_group_size) then Err (Error.InvalidConfig [])
  else if p.(max_group_size) <? p.(preferred_group_size) then Err (Error.InvalidConfig [])
  else Ok tt.

Definition build (min preferred max : Z) (kind : ValidationKind) : Result GexParams :=
  let this := mkGexParams min preferred max in
  let? _ := validate this kind in Ok this.
Definition for_client_config (min preferred max : Z) : Result GexParams := build min preferred max ClientConfig.
Definition from_peer_request (min preferred max : Z) : Result GexParams := build min preferred max PeerRequest.
Definition GexParams_default : GexParams := mkGexParams 3072 8192 8192.

(** [server::Handler::lookup_dh_gex_group], the default implementation. *)
Definition find_group (f : DhGroup -> bool) (best_group : DhGroup) : DhGroup :=
  match List.find f BUILTIN_SAFE_DH_GROUPS with Some g => g | None => best_group end.

Definition lookup_dh_gex_group (gex_params : GexParams) : Result (option DhGroup) :=
  let best_group := find_group (fun group =>
    (gex_params.(min_group_size) <=? bit_size group) && (bit_size group <=? gex_params.(max_group_size)))
    DH_GROUP14 in
  let best_group := find_group (fun group => gex_params.(preferred_group_size) <? bit_size group) best_group in
  Ok (Some best_group).

Section Gex.
Context {enc : SshEncoding}.
Definition GexParams_encode (p : GexParams) : writer EncError :=
  encode_u32 (to_u32 p.(min_group_size)) ;;;
  encode_u32 (to_u32 p.(preferred_group_size)) ;;;
  encode_u32 (to_u32 p.(max_group_size)).

Definition GexParams_decode (r : bytes) : Result (GexParams * bytes) :=
  let? (min, r) := enc_err (decode_u32 r) in
  let? (preferred, r) := enc_err (decode_u32 r) in
  let? (max, r) := enc_err (decode_u32 r) in
  let? p := from_peer_request min preferred max in
  Ok (p, r).
End Gex.

(** ** The interface of the algorithms ([kex/mod.rs]) *)

(** [Exchange]. *)
Record Exchange : Type := mkExchange {
  client_id : bytes;
  server_id : bytes;
  client_kex_init : bytes;
  server_kex_init : bytes;
  client_ephemeral : bytes;
  server_ephemeral : bytes;
  gex : option (GexParams * DhGroup);
}.

Definition Exchange_new (client_id server_id : bytes) : Exchange :=
  mkExchange client_id server_id [] [] [] [] None.

Definition set_client_kex_init (b : bytes) (x : Exchange) : Exchange :=
  mkExchange x.(client_id) x.(server_id) b x.(server_kex_init) x.(client_ephemeral)
    x.(server_ephemeral) x.(gex).
Definition set_server_kex_init (b : bytes) (x : Exchange) : Exchange :=
  mkExchange x.(client_id) x.(server_id) x.(client_kex_init) b x.(client_ephemeral)
    x.(server_ephemeral) x.(gex).
Definition set_client_ephemeral (b : bytes) (x : Exchange) : Exchange :=
  mkExchange x.(client_id) x.(server_id) x.(client_kex_init) x.(server_kex_init) b
    x.(server_ephemeral) x.(gex).
Definition set_server_ephemeral (b : bytes) (x : Exchange) : Exchange :=
  mkExchange x.(client_id) x.(server_id) x.(client_kex_init) x.(server_kex_init)
    x.(client_ephemeral) b x.(gex).
Definition set_gex (g : GexParams * DhGroup) (x : Exchange) : Exchange :=
  mkExchange x.(client_id) x.(server_id) x.(client_kex_init) x.(server_kex_init)
    x.(client_ephemeral) x.(server_ephemeral) (Some g).

(** [&mut self] operations return the new object; [client_dh] also returns the
    client's ephemeral key and what it writes.  [rnd] is the random number that
    the operation draws.  [SK] and [OK] are the boxed keys. *)
Class KexAlgorithmImplementor (K SK OK : Type) : Type := {
  skip_exchange : K -> bool;
  is_dh_gex : K -> bool;
  client_dh_gex_init : K -> GexParams -> writer Error.error;
  dh_gex_set_group : DhGroup -> K -> Result K;
  server_dh : Z -> bytes -> K -> Exchange -> Result (K * Exchange);
  client_dh : Z -> K -> Result (K * bytes * writer Error.error);
  compute_shared_secret : bytes -> K -> Result K;
  compute_exchange_hash : K -> bytes -> Exchange -> Result bytes;
  (** session id, exchange hash, cipher, remote-to-local and local-to-remote MAC,
      whether it is the server *)
  kex_compute_keys : K -> bytes -> bytes -> bytes -> bytes -> bytes -> bool -> Result (CipherPair SK OK);
}.

(** ** [DhGroupKex] *)

Record DhGroupKex : Type := mkDhGroupKex {
  dh : option DH;
  shared_secret : option bytes;
  dh_is_dh_gex : bool;   (* field [is_dh_gex] *)
}.

Definition DhGroupKex_new (group : option DhGroup) : DhGroupKex :=
  mkDhGroupKex (option_map DH_new group) None (match group with Some _ => false | None => true end).

Section DhGroupKex.
Context {enc : SshEncoding} (hash : bytes -> bytes) {SK OK : Type}
  (CIPHERS : bytes -> option (Cipher SK OK)) (MACS : bytes -> option MacAlgorithm).

Definition dh_client_dh_gex_init (gex : GexParams) : writer Error.error :=
  enc_w (encode_u8 msg.KEX_DH_GEX_REQUEST) ;;;
  enc_w (encode_u32 (to_u32 gex.(min_group_size))) ;;;
  enc_w (encode_u32 (to_u32 gex.(preferred_group_size))) ;;;
  enc_w (encode_u32 (to_u32 gex.(max_group_size))).

Definition dh_set_group (group : DhGroup) (k : DhGroupKex) : Result DhGroupKex :=
  Ok (mkDhGroupKex (Some (DH_new group)) k.(shared_secret) k.(dh_is_dh_gex)).

(** The client's public key in the payload of KEX_ECDH_INIT or KEX_DH_GEX_INIT. *)
Definition dh_client_pubkey (payload : bytes) : Result bytes :=
  if negb (bool_decide (head payload = Some msg.KEX_ECDH_INIT)) &&
     negb (bool_decide (head payload = Some msg.KEX_DH_GEX_INIT)) then Err Error.Inconsistent
  else
    let? pubkey_len := or_panic (read_u32 (zdrop 1 payload)) in
    if zlen payload <? 5 + pubkey_len then Err Error.Inconsistent
    else Ok (ztake pubkey_len (zdrop 5 payload)).

Definition dh_server_dh (rnd : Z) (payload : bytes) (k : DhGroupKex) (exchange : Exchange)
  : Result (DhGroupKex * Exchange) :=
  match k.(dh) with
  | None => Err Error.Inconsistent
  | Some d =>
      let? client_pubkey := dh_client_pubkey payload in
      let? d := or_panic (generate_private_key rnd true d) in
      let '(server_pubkey, d) := generate_public_key d in
      if negb (validate_public_key d server_pubkey) then Err Error.Inconsistent
      else
        let exchange := set_server_ephemeral (biguint_to_mpint server_pubkey) exchange in
        let decoded := decode_public_key client_pubkey in
        if negb (validate_public_key d decoded) then Err Error.Inconsistent
        else
          let '(shared, d) := dh_compute_shared_secret decoded d in
          if negb (validate_shared_secret d shared) then Err Error.Inconsistent
          else Ok (mkDhGroupKex (Some d) (Some (biguint_to_mpint shared)) k.(dh_is_dh_gex), exchange)
  end.

Definition dh_client_dh (rnd : Z) (k : DhGroupKex)
  : Result (DhGroupKex * bytes * writer Error.error) :=
  match k.(dh) with
  | None => Err Error.Inconsistent
  | Some d =>
      let? d := or_panic (generate_private_key rnd false d) in
      let '(client_pubkey, d) := generate_public_key d in
      if negb (validate_public_key d client_pubkey) then Err Error.Inconsistent
      else
        let encoded_pubkey := biguint_to_mpint client_pubkey in
        Ok (mkDhGroupKex (Some d) k.(shared_secret) k.(dh_is_dh_gex), encoded_pubkey,
            enc_w (encode_u8 (if k.(dh_is_dh_gex) then msg.KEX_DH_GEX_INIT else msg.KEX_ECDH_INIT)) ;;;
            enc_w (encode_bytes encoded_pubkey))
  end.

Definition dh_compute_shared (remote_pubkey : bytes) (k : DhGroupKex) : Result DhGroupKex :=
  match k.(dh) with
  | None => Err Error.Inconsistent
  | Some d =>
      let remote := decode_public_key remote_pubkey in
      if negb (validate_public_key d remote) then Err Error.Inconsistent
      else
        let '(shared, d) := dh_compute_shared_secret remote d in
        if negb (validate_shared_secret d shared) then Err Error.Inconsistent
        else Ok (mkDhGroupKex (Some d) (Some (biguint_to_mpint shared)) k.(dh_is_dh_gex))
  end.

(** What the exchange hash is computed over. *)
Definition hash_input (k : DhGroupKex) (key : bytes) (exchange : Exchange) : writer Error.error :=
  enc_w (encode_bytes exchange.(client_id)) ;;;
  enc_w (encode_bytes exchange.(server_id)) ;;;
  enc_w (encode_bytes exchange.(client_kex_init)) ;;;
  enc_w (encode_bytes exchange.(server_kex_init)) ;;;
  push_bytes key ;;;
  (match exchange.(gex) with
   | Some (gex_params, dh_group) =>
       enc_w (GexParams_encode gex_params) ;;;
       enc_w (encode_bytes (biguint_to_mpint (from_bytes_be dh_group.(prime)))) ;;;
       enc_w (encode_bytes (biguint_to_mpint (from_bytes_be dh_group.(generator))))
   | None => st_ret tt
   end) ;;;
  enc_w (encode_bytes exchange.(client_ephemeral)) ;;;
  enc_w (encode_bytes exchange.(server_ephemeral)) ;;;
  (match k.(shared_secret) with
   | Some shared => enc_w (encode_bytes shared)
   | None => st_ret tt
   end).

Definition dh_exchange_hash (k : DhGroupKex) (key : bytes) (exchange : Exchange) : Result bytes :=
  match hash_input k key exchange [] with
  | (Ok _, buffer) => Ok (hash buffer)
  | (Err e, _) => Err e
  | (Panic, _) => Panic
  end.

Definition dh_compute_keys (k : DhGroupKex) (session_id exchange_hash cipher remote_to_local_mac
    local_to_remote_mac : bytes) (is_server : bool) : Result (CipherPair SK OK) :=
  let? shared := match k.(shared_secret) with
    | Some s => let? x := from_mpint s in Ok (Some x)
    | None => Ok None
    end in
  compute_keys hash CIPHERS MACS shared session_id exchange_hash cipher remote_to_local_mac
    local_to_remote_mac is_server.

Definition dh_group_kex : KexAlgorithmImplementor DhGroupKex SK OK := {|
  skip_exchange _ := false;
  is_dh_gex := dh_is_dh_gex;
  client_dh_gex_init _ := dh_client_dh_gex_init;
  dh_gex_set_group := dh_set_group;
  server_dh := dh_server_dh;
  client_dh := dh_client_dh;
  compute_shared_secret := dh_compute_shared;
  compute_exchange_hash := dh_exchange_hash;
  kex_compute_keys := dh_compute_keys;
|}.
End DhGroupKex.

(** ** Integers as bytes *)

Lemma be_value_acc b : forall acc, be_value acc b = acc * 256 ^ zlen b + be_value 0 b.
Proof.
  induction b as [|x b IH]; intros acc; cbn [be_value]; [change (zlen []) with 0; lia|].
  rewrite IH, (IH (0 * 256 + x)), zlen_cons, Z.pow_add_r by (pose proof (zlen_nonneg b); lia). lia.
Qed.

Lemma be_digits_value fuel : forall n acc, 0 <= n < 256 ^ Z.of_nat fuel ->
  be_value 0 (be_digits fuel n acc) = be_value n acc.
Proof.
  induction fuel as [|fuel IH]; intros n acc Hn; cbn [be_digits].
  - change (256 ^ Z.of_nat 0) with 1 in Hn. by replace n with 0 by lia.
  - destruct (Z.eqb_spec n 0) as [->|Hn0]; [done|].
    rewrite Nat2Z.inj_succ, Z.pow_succ_r in Hn by lia. rewrite IH.
    + cbn [be_value]. f_equal. dlia.
    + split; [apply Z.div_pos; lia|apply Z.div_lt_upper_bound; lia].
Qed.

Lemma be_digits_len fuel : forall n acc k, 0 <= k -> 0 <= n < 256 ^ k ->
  zlen (be_digits fuel n acc) <= k + zlen acc.
Proof.
  induction fuel as [|fuel IH]; intros n acc k Hk Hn; cbn [be_digits]; [lia|].
  destruct (Z.eqb_spec n 0) as [->|Hn0]; [lia|].
  assert (Hk0 : k <> 0) by (intros ->; change (256 ^ 0) with 1 in Hn; lia).
  replace k with (Z.succ (k - 1)) in Hn by lia. rewrite Z.pow_succ_r in Hn by lia.
  assert (Hd : 0 <= n / 256 < 256 ^ (k - 1)).
  { split; [apply Z.div_pos; lia|apply Z.div_lt_upper_bound; lia]. }
  pose proof (IH (n / 256) (n mod 256 :: acc) (k - 1) ltac:(lia) Hd) as Hl.
  rewrite zlen_cons in Hl. lia.
Qed.

Lemma from_to_bytes_be n : 0 <= n -> from_bytes_be (to_bytes_be n) = n.
Proof.
  intros Hn. unfold to_bytes_be. destruct (Z.eqb_spec n 0) as [->|Hn0]; [done|].
  unfold from_bytes_be. rewrite be_digits_value; [done|]. split; [done|].
  pose proof (Z.log2_spec n ltac:(lia)) as [_ H]. pose proof (Z.log2_nonneg n).
  eapply Z.lt_le_trans; [exact H|]. rewrite Nat2Z.inj_add, Z2Nat.id by done.
  apply Z.pow_le_mono_l; lia.
Qed.

Lemma from_biguint_to_mpint n : 0 <= n -> from_bytes_be (biguint_to_mpint n) = n.
Proof.
  intros Hn. rewrite <- (from_to_bytes_be n Hn) at 2. unfold biguint_to_mpint.
  destruct (to_bytes_be n) as [|x b]; [done|]. by destruct (127 <? x).
Qed.

Lemma zlen_biguint_to_mpint n k : 1 <= k -> 0 <= n < 256 ^ k -> zlen (biguint_to_mpint n) <= k + 1.
Proof.
  intros Hk Hn. assert (Hl : zlen (to_bytes_be n) <= k).
  { unfold to_bytes_be. destruct (n =? 0); [rewrite zlen_cons, zlen_nil; lia|].
    pose proof (be_digits_len (Z.to_nat (Z.log2 n) + 1) n [] k ltac:(lia) Hn) as H.
    rewrite zlen_nil in H. lia. }
  unfold biguint_to_mpint. destruct (to_bytes_be n) as [|x b]; [rewrite zlen_nil; lia|].
  destruct (127 <? x); [rewrite zlen_cons|]; lia.
Qed.

Lemma be_digits_u8 fuel : forall n acc, Forall is_u8 acc -> Forall is_u8 (be_digits fuel n acc).
Proof.
  induction fuel as [|fuel IH]; intros n acc Ha; cbn [be_digits]; [done|].
  destruct (n =? 0); [done|]. apply IH. constructor; [|done]. unfold is_u8. dlia.
Qed.

Lemma biguint_to_mpint_u8 n : Forall is_u8 (biguint_to_mpint n).
Proof.
  assert (Hb : Forall is_u8 (to_bytes_be n)).
  { unfold to_bytes_be. destruct (n =? 0); [by repeat constructor|]. apply be_digits_u8. constructor. }
  unfold biguint_to_mpint. destruct (to_bytes_be n) as [|x b]; [done|].
  destruct (127 <? x); [|done]. by constructor.
Qed.

(** ** Both sides compute the same secret *)

Lemma modpow_swap g x y p : 0 < p -> 0 <= x -> 0 <= y ->
  modpow (modpow g x p) y p = modpow (modpow g y p) x p.
Proof.
  intros Hp Hx Hy. unfold modpow. rewrite <- !Zpower_mod by done.
  rewrite <- !Z.pow_mul_r by done. by rewrite Z.mul_comm.
Qed.

(** A bound on the primes considered, far beyond the built-in ones. *)
Definition max_prime : Z := 256 ^ 4096.

(** A client's and a server's object over the same group. *)
Definition same_group (c s : DhGroupKex) : Prop :=
  exists dc ds, c.(dh) = Some dc /\ s.(dh) = Some ds /\ dc.(prime_num) = ds.(prime_num) /\
    dc.(dh_generator) = ds.(dh_generator) /\ ds.(prime_num) < max_prime /\
    c.(dh_is_dh_gex) = s.(dh_is_dh_gex).

Section Agreement.
Context {enc : SshEncoding} `{!SshEncodingLaws enc}.

Definition dh_init_tag (is_gex : bool) : Z := if is_gex then msg.KEX_DH_GEX_INIT else msg.KEX_ECDH_INIT.

(** The client's message: its tag and ephemeral key. *)
Definition dh_init (is_gex : bool) (eph : bytes) : bytes := dh_init_tag is_gex :: be32 (zlen eph) ++ eph.

Lemma dh_client_pubkey_init is_gex eph : zlen eph < U32_MOD ->
  dh_client_pubkey (dh_init is_gex eph) = Ok eph.
Proof.
  intros Hl. pose proof (zlen_nonneg eph). unfold dh_client_pubkey, dh_init.
  assert (Hh : negb (bool_decide (Some (dh_init_tag is_gex) = Some msg.KEX_ECDH_INIT)) &&
    negb (bool_decide (Some (dh_init_tag is_gex) = Some msg.KEX_DH_GEX_INIT)) = false) by (by destruct is_gex).
  cbn [head]. rewrite Hh. change (dh_init_tag is_gex :: ?l) with ([dh_init_tag is_gex] ++ l).
  rewrite zdrop_app_exact by done. rewrite read_u32_be32, to_u32_small by (unfold is_u32; lia).
  cbn [or_panic res_bind]. rewrite !zlen_app, zlen_be32. change (zlen [dh_init_tag is_gex]) with 1.
  replace (_ <? _) with false by lia.
  rewrite app_assoc, zdrop_app_exact by done. by rewrite ztake_all by lia.
Qed.

Lemma mpint_small p n : p < max_prime -> 0 <= n < p -> zlen (biguint_to_mpint n) <= MAX_ENCODED_LEN.
Proof.
  intros Hp Hn. assert (Hm : 0 <= n < max_prime) by lia.
  pose proof (zlen_biguint_to_mpint n 4096 ltac:(lia) Hm).
  unfold MAX_ENCODED_LEN. lia.
Qed.

Lemma validate_range d n : validate_public_key d n = true -> 0 <= n < d.(prime_num).
Proof. unfold validate_public_key. lia. Qed.

(** The client's message holds its ephemeral key, of bounded size; when the
    server accepts the message, the client accepts the server's ephemeral key
    and both hold the same secret. *)
Lemma dh_exchange rc rs c s c1 eph w :
  same_group c s -> 0 <= rc -> 0 <= rs -> dh_client_dh rc c = Ok (c1, eph, w) ->
  appends w (dh_init c.(dh_is_dh_gex) eph) /\ zlen eph <= MAX_ENCODED_LEN /\
  forall ex s1 ex1, dh_server_dh rs (dh_init c.(dh_is_dh_gex) eph) s ex = Ok (s1, ex1) ->
    zlen ex1.(server_ephemeral) <= MAX_ENCODED_LEN /\
    ex1 = set_server_ephemeral ex1.(server_ephemeral) ex /\
    exists c2 b, dh_compute_shared ex1.(server_ephemeral) c1 = Ok c2 /\
      c2.(shared_secret) = Some b /\ s1.(shared_secret) = Some b /\
      Forall is_u8 b /\ zlen b <= MAX_ENCODED_LEN.
Proof.
  intros (dc & ds & Hc & Hs & Hp & Hg & Hbig & Hflag) Hrc Hrs. unfold dh_client_dh. rewrite Hc.
  unfold generate_private_key. destruct (Z.ltb_spec dc.(prime_num) 1); [done|].
  destruct (2 <? _); [|done]. cbn [or_panic res_bind generate_public_key private_key dh_generator prime_num].
  set (X := modpow dc.(dh_generator) rc dc.(prime_num)).
  destruct (negb (validate_public_key _ X)) eqn:HX; [done|]. apply negb_false_iff in HX.
  intros [= <- <- <-]. pose proof (validate_range _ _ HX) as HXr. cbn [prime_num] in HXr.
  assert (HlX : zlen (biguint_to_mpint X) <= MAX_ENCODED_LEN) by (eapply mpint_small; [|exact HXr]; lia).
  split; [|split; [exact HlX|]].
  { apply (appends_bind _ _ [_]); apply appends_map_err.
    - apply encode_u8_appends. by destruct (dh_is_dh_gex c).
    - apply encode_bytes_appends. unfold MAX_ENCODED_LEN, U32_MOD in *. lia. }
  intros ex s1 ex1. unfold dh_server_dh. rewrite Hs.
  rewrite dh_client_pubkey_init by (unfold MAX_ENCODED_LEN, U32_MOD in *; lia). cbn [res_bind].
  unfold generate_private_key. destruct (ds.(prime_num) <? 1); [done|].
  destruct (1 <? _); [|done]. cbn [or_panic res_bind generate_public_key private_key dh_generator prime_num].
  set (Y := modpow ds.(dh_generator) rs ds.(prime_num)).
  destruct (negb (validate_public_key _ Y)) eqn:HY; [done|]. apply negb_false_iff in HY.
  unfold decode_public_key. rewrite from_biguint_to_mpint by lia.
  destruct (negb (validate_public_key _ X)); [done|].
  cbn [dh_compute_shared_secret private_key prime_num].
  destruct (negb (validate_shared_secret _ _)) eqn:HZ; [done|]. apply negb_false_iff in HZ.
  intros [= <- <-]. pose proof (validate_range _ _ HY) as HYr. cbn [prime_num] in HYr.
  split; [cbn; eapply mpint_small; [|exact HYr]; lia|]. split; [done|].
  unfold dh_compute_shared. cbn [dh server_ephemeral set_server_ephemeral].
  unfold decode_public_key. rewrite from_biguint_to_mpint by lia.
  unfold validate_public_key, validate_shared_secret in *. cbn [prime_num] in *. rewrite Hp, HY. cbn [negb].
  cbn [dh_compute_shared_secret private_key prime_num].
  assert (HE : modpow Y rc ds.(prime_num) = modpow X rs ds.(prime_num)).
  { unfold X, Y. rewrite Hp, Hg. apply modpow_swap; lia. }
  rewrite HE, HZ. cbn [negb]. do 2 eexists. split_and!; [done..|apply biguint_to_mpint_u8|].
  apply andb_true_iff in HZ as [HZ1 HZ2]. apply (mpint_small ds.(prime_num)); lia.
Qed.
End Agreement.

(** The default lookup may answer with a group larger than the client's maximum:
    its second loop only looks at the preferred size. *)
Lemma lookup_exceeds_max :
  let p := mkGexParams 2048 2048 2048 in
  for_client_config 2048 2048 2048 = Ok p /\
  exists g, lookup_dh_gex_group p = Ok (Some g) /\ bit_size g = 4096.
Proof. split; [done|]. exists DH_GROUP16. split; vm_compute; reflexivity. Qed.

Lemma DH_GROUP14_size : bit_size DH_GROUP14 = 2048.
Proof. vm_compute. reflexivity. Qed.

(** ** The contract of an algorithm *)

(** [paired c s]: fresh objects of one algorithm at the client and at the server;
    [agreed c s]: the same after the exchange; [drawn k rc rs]: random draws of
    the two sides with which the algorithm works.  [sync] relates a sealing key to
    the opening key at the other end. *)
Class KexLaws {enc : SshEncoding} {K SK OK : Type} (KA : KexAlgorithmImplementor K SK OK)
    (sync : SK -> OK -> Prop) : Type := {
  paired : K -> K -> Prop;
  agreed : K -> K -> Prop;
  drawn : K -> Z -> Z -> Prop;
  paired_gex c s : paired c s -> is_dh_gex c = is_dh_gex s;
  (** the client's message holds its ephemeral key; if the server accepts it, the
      client accepts the server's *)
  exchange_agrees rc rs c s c1 eph w :
    paired c s -> drawn c rc rs -> client_dh rc c = Ok (c1, eph, w) ->
    appends w (dh_init (is_dh_gex c) eph) /\ zlen eph <= MAX_ENCODED_LEN /\
    is_dh_gex c1 = is_dh_gex c /\
    forall ex s1 ex1, server_dh rs (dh_init (is_dh_gex c) eph) s ex = Ok (s1, ex1) ->
      zlen ex1.(server_ephemeral) <= MAX_ENCODED_LEN /\
      ex1 = set_server_ephemeral ex1.(server_ephemeral) ex /\ is_dh_gex s1 = is_dh_gex s /\
      exists c2, compute_shared_secret ex1.(server_ephemeral) c1 = Ok c2 /\ agreed c2 s1;
  agreed_hash c s key ex :
    agreed c s -> compute_exchange_hash c key ex = compute_exchange_hash s key ex;
  agreed_keys c s sid h cipher client_mac server_mac : agreed c s ->
    match kex_compute_keys s sid h cipher client_mac server_mac true,
          kex_compute_keys c sid h cipher server_mac client_mac false with
    | Ok p, Ok q =>
        sync p.(local_to_remote) q.(remote_to_local) /\ sync q.(local_to_remote) p.(remote_to_local)
    | Err _, Err _ => True
    | _, _ => False
    end;
}.

Lemma dh_client_dh_flag `{SshEncoding} rc c c1 eph w :
  dh_client_dh rc c = Ok (c1, eph, w) -> c1.(dh_is_dh_gex) = c.(dh_is_dh_gex).
Proof.
  unfold dh_client_dh. destruct c.(dh); [|done]. intros Hc. inv_ok Hc. cbn in Hc.
  destruct (negb _); [done|]. by simplify_eq.
Qed.

Lemma dh_server_dh_flag rs p s ex s1 ex1 :
  dh_server_dh rs p s ex = Ok (s1, ex1) -> s1.(dh_is_dh_gex) = s.(dh_is_dh_gex).
Proof.
  unfold dh_server_dh. destruct s.(dh); [|done]. intros Hc. inv_ok Hc. cbn in Hc.
  repeat (destruct (negb _); [done|]). by simplify_eq.
Qed.

Section DhLaws.
Context {enc : SshEncoding} `{!SshEncodingLaws enc}.
Context (hash : bytes -> bytes) (hash_ok : is_hash hash).
Context {SK OK : Type} (sync : SK -> OK -> Prop).
Context (CIPHERS : bytes -> option (Cipher SK OK)) (MACS : bytes -> option MacAlgorithm).
Context (tables : tables_ok sync CIPHERS MACS).

Lemma from_mpint_ok b : Forall is_u8 b -> zlen b < U32_MAX -> exists v, from_mpint b = Ok (Mpint v).
Proof.
  intros Hu Hl. destruct (encode_mpint_appends b Hu Hl) as (m & Hm & _).
  unfold from_mpint. rewrite Hm. eauto.
Qed.

Definition dh_agreed (c s : DhGroupKex) : Prop :=
  exists b, c.(shared_secret) = Some b /\ s.(shared_secret) = Some b /\
    Forall is_u8 b /\ zlen b <= MAX_ENCODED_LEN.

(** [DhGroupKex] keeps the contract. *)
#[global] Program Instance dh_laws : KexLaws (dh_group_kex hash CIPHERS MACS) sync :=
  {| paired := same_group; agreed := dh_agreed; drawn _ rc rs := 0 <= rc /\ 0 <= rs |}.
Next Obligation. intros c s (dc & ds & _ & _ & _ & _ & _ & Hf). done. Qed.
Next Obligation.
  intros rc rs c s c1 eph w Hp [Hrc Hrs] Hcd. cbn in *.
  destruct (dh_exchange rc rs c s c1 eph w Hp Hrc Hrs Hcd) as (Ha & Hl & Hx).
  split; [done|]. split; [done|]. split; [by eapply dh_client_dh_flag|].
  intros ex s1 ex1 Hs. destruct (Hx ex s1 ex1 Hs) as (H1 & H2 & c2 & b & H3 & H4 & H5 & H6 & H7).
  split_and!; [done|done|by eapply dh_server_dh_flag|]. exists c2. split; [done|]. by exists b.
Qed.
Next Obligation.
  intros c s key ex (b & Hc & Hs & _). cbn. unfold dh_exchange_hash, hash_input. by rewrite Hc, Hs.
Qed.
Next Obligation.
  intros c s sid h cipher cm sm (b & Hc & Hs & Hu & Hl). cbn. unfold dh_compute_keys. rewrite Hc, Hs.
  destruct (from_mpint_ok b Hu) as [v ->]; [unfold MAX_ENCODED_LEN, U32_MAX in *; lia|]. cbn [res_bind].
  pose proof (compute_keys_match hash hash_ok sync CIPHERS MACS (Some (Mpint v)) sid h cipher cm sm tables).
  by repeat case_match.
Qed.
End DhLaws.
