(* ===== verification/KexAlgorithms.v ===== *)
(** * The key exchange algorithms ([russh/src/kex/])

    Elliptic curves ([curve25519.rs], [ecdh_nistp.rs]), the hybrid of ML-KEM and X25519
    ([hybrid_mlkem.rs]), the exchange without one ([none.rs]), the enumeration that
    dispatches to them and the table [KEXES] ([mod.rs]).  Each is an instance of
    [KexAlgorithmImplementor], and each that exchanges keys keeps [KexLaws].

    What an operation draws at random is one number; the curves and ML-KEM make
    of it what they need. *)

From stdpp Require Import base list numbers option strings.
From Stdlib Require Import ZArith Lia.
From S2P Require Import Prelude Encoding LibInner Msg Negotiation KexKeys Dh.

(** ** Parameters *)

(** [curve25519_dalek]: scalars are reduced random bytes; points are their 32
    bytes. *)
Class Curve25519 : Type := {
  Scalar : Type;
  from_bytes_mod_order : Z -> Scalar;
  (** [(ED25519_BASEPOINT_TABLE * s).to_montgomery()] *)
  mul_base : Scalar -> bytes;
  (** [s * MontgomeryPoint] *)
  mul : Scalar -> bytes -> bytes;
}.

(** [elliptic_curve], at one curve. *)
Class NistCurve : Type := {
  EphemeralSecret : Type;
  EcPublicKey : Type;
  generate_from_rng : Z -> EphemeralSecret;
  ec_public_key : EphemeralSecret -> EcPublicKey;
  to_sec1_bytes : EcPublicKey -> bytes;
  from_sec1_bytes : bytes -> option EcPublicKey;
  (** with [raw_secret_bytes] *)
  diffie_hellman : EphemeralSecret -> EcPublicKey -> bytes;
}.

(** [ml_kem], at [MlKem768]. *)
Class MlKem768 : Type := {
  DecapsulationKey : Type;
  EncapsulationKey : Type;
  generate_keypair : Z -> DecapsulationKey * EncapsulationKey;
  ek_to_bytes : EncapsulationKey -> bytes;
  new_from_slice : bytes -> option EncapsulationKey;
  (** ciphertext and shared key *)
  encapsulate : EncapsulationKey -> Z -> bytes * bytes;
  decapsulate : DecapsulationKey -> bytes -> bytes;
}.

(** ** What the implementations share *)

(** The fields of the exchange that are hashed before the secret. *)
Definition hash_fields {enc : SshEncoding} (key : bytes) (exchange : Exchange) : writer Error.error :=
  enc_w (encode_bytes exchange.(client_id)) ;;;
  enc_w (encode_bytes exchange.(server_id)) ;;;
  enc_w (encode_bytes exchange.(client_kex_init)) ;;;
  enc_w (encode_bytes exchange.(server_kex_init)) ;;;
  push_bytes key ;;;
  enc_w (encode_bytes exchange.(client_ephemeral)) ;;;
  enc_w (encode_bytes exchange.(server_ephemeral)).

(** The hash of what is written into the cleared buffer. *)
Definition hash_written (hash : bytes -> bytes) (w : writer Error.error) : Result bytes :=
  match w [] with
  | (Ok _, buffer) => Ok (hash buffer)
  | (Err e, _) => Err e
  | (Panic, _) => Panic
  end.

(** The secret of a curve in the exchange hash, and for the keys. *)
Definition hash_secret {enc : SshEncoding} (secret : option bytes) : writer Error.error :=
  match secret with Some shared => encode_mpint shared | None => st_ret tt end.
Definition mpint_secret {enc : SshEncoding} (secret : option bytes) : Result (option SharedSecret) :=
  match secret with
  | Some s => let? x := from_mpint s in Ok (Some x)
  | None => Ok None
  end.

(** ** Curve25519 *)
Section Curve25519Kex.
Context {enc : SshEncoding} {C : Curve25519} (sha256 : bytes -> bytes) {SK OK : Type}
  (CIPHERS : bytes -> option (Cipher SK OK)) (MACS : bytes -> option MacAlgorithm).

Record Curve25519Kex : Type := mkCurve25519Kex {
  local_secret : option Scalar;
  x_shared_secret : option bytes;
}.

Definition zero_point : bytes := replicate 32 0.

Definition curve_client_pubkey (payload : bytes) : Result bytes :=
  if negb (bool_decide (head payload = Some msg.KEX_ECDH_INIT)) then Err Error.Inconsistent
  else
    let? pubkey_len := or_panic (read_u32 (zdrop 1 payload)) in
    if negb (pubkey_len =? 32) then Err Error.Kex
    else if zlen payload <? 5 + pubkey_len then Err Error.Inconsistent
    else Ok (ztake 32 (zdrop 5 payload)).

Definition curve_server_dh (rnd : Z) (payload : bytes) (k : Curve25519Kex) (exchange : Exchange)
  : Result (Curve25519Kex * Exchange) :=
  let? client_pubkey := curve_client_pubkey payload in
  if beq client_pubkey zero_point then Err Error.Kex
  else
    let server_secret := from_bytes_mod_order rnd in
    let server_pubkey := mul_base server_secret in
    Ok (mkCurve25519Kex k.(local_secret) (Some (mul server_secret client_pubkey)),
        set_server_ephemeral server_pubkey exchange).

Definition curve_client_dh (rnd : Z) (k : Curve25519Kex)
  : Result (Curve25519Kex * bytes * writer Error.error) :=
  let client_secret := from_bytes_mod_order rnd in
  let client_pubkey := mul_base client_secret in
  Ok (mkCurve25519Kex (Some client_secret) k.(x_shared_secret), client_pubkey,
      enc_w (encode_u8 msg.KEX_ECDH_INIT) ;;; enc_w (encode_bytes client_pubkey)).

Definition curve_compute_shared (remote_pubkey : bytes) (k : Curve25519Kex) : Result Curve25519Kex :=
  let? secret := ok_or k.(local_secret) Error.KexInit in
  if negb (zlen remote_pubkey =? 32) then Err Error.Kex
  else if beq remote_pubkey zero_point then Err Error.Kex
  else Ok (mkCurve25519Kex None (Some (mul secret remote_pubkey))).

Definition curve_exchange_hash (k : Curve25519Kex) (key : bytes) (exchange : Exchange) : Result bytes :=
  hash_written sha256 (hash_fields key exchange ;;; hash_secret k.(x_shared_secret)).

Definition curve_compute_keys (k : Curve25519Kex) (session_id exchange_hash cipher remote_to_local_mac
    local_to_remote_mac : bytes) (is_server : bool) : Result (CipherPair SK OK) :=
  let? shared := mpint_secret k.(x_shared_secret) in
  compute_keys sha256 CIPHERS MACS shared session_id exchange_hash cipher remote_to_local_mac
    local_to_remote_mac is_server.

Definition curve25519_kex : KexAlgorithmImplementor Curve25519Kex SK OK := {|
  skip_exchange _ := false;
  is_dh_gex _ := false;
  client_dh_gex_init _ _ := st_err Error.KexInit;
  dh_gex_set_group _ _ := Err Error.KexInit;
  server_dh := curve_server_dh;
  client_dh := curve_client_dh;
  compute_shared_secret := curve_compute_shared;
  compute_exchange_hash := curve_exchange_hash;
  kex_compute_keys := curve_compute_keys;
|}.

Definition curve_new : Curve25519Kex := mkCurve25519Kex None None.
End Curve25519Kex.

(** ** The NIST curves *)
Section EcdhNistPKex.
Context {enc : SshEncoding} (C : NistCurve) (hash : bytes -> bytes) {SK OK : Type}
  (CIPHERS : bytes -> option (Cipher SK OK)) (MACS : bytes -> option MacAlgorithm).

Record EcdhNistPKex : Type := mkEcdhNistPKex {
  ec_local_secret : option EphemeralSecret;
  ec_shared_secret : option bytes;
}.

Definition ecdh_client_pubkey (payload : bytes) : Result EcPublicKey :=
  if negb (bool_decide (head payload = Some msg.KEX_ECDH_INIT)) then Err Error.Inconsistent
  else
    let? pubkey_len := or_panic (read_u32 (zdrop 1 payload)) in
    if zlen payload <? 5 + pubkey_len then Err Error.Inconsistent
    else ok_or (from_sec1_bytes (ztake pubkey_len (zdrop 5 payload))) Error.Inconsistent.

Definition ecdh_server_dh (rnd : Z) (payload : bytes) (k : EcdhNistPKex) (exchange : Exchange)
  : Result (EcdhNistPKex * Exchange) :=
  let? client_pubkey := ecdh_client_pubkey payload in
  let server_secret := generate_from_rng rnd in
  Ok (mkEcdhNistPKex k.(ec_local_secret) (Some (diffie_hellman server_secret client_pubkey)),
      set_server_ephemeral (to_sec1_bytes (ec_public_key server_secret)) exchange).

Definition ecdh_client_dh (rnd : Z) (k : EcdhNistPKex)
  : Result (EcdhNistPKex * bytes * writer Error.error) :=
  let client_secret := generate_from_rng rnd in
  let client_pubkey := to_sec1_bytes (ec_public_key client_secret) in
  Ok (mkEcdhNistPKex (Some client_secret) k.(ec_shared_secret), client_pubkey,
      enc_w (encode_u8 msg.KEX_ECDH_INIT) ;;; enc_w (encode_bytes client_pubkey)).

Definition ecdh_compute_shared (remote_pubkey : bytes) (k : EcdhNistPKex) : Result EcdhNistPKex :=
  let? secret := ok_or k.(ec_local_secret) Error.KexInit in
  let? pubkey := ok_or (from_sec1_bytes remote_pubkey) Error.KexInit in
  Ok (mkEcdhNistPKex None (Some (diffie_hellman secret pubkey))).

Definition ecdh_exchange_hash (k : EcdhNistPKex) (key : bytes) (exchange : Exchange) : Result bytes :=
  hash_written hash (hash_fields key exchange ;;; hash_secret k.(ec_shared_secret)).

Definition ecdh_compute_keys (k : EcdhNistPKex) (session_id exchange_hash cipher remote_to_local_mac
    local_to_remote_mac : bytes) (is_server : bool) : Result (CipherPair SK OK) :=
  let? shared := mpint_secret k.(ec_shared_secret) in
  compute_keys hash CIPHERS MACS shared session_id exchange_hash cipher remote_to_local_mac
    local_to_remote_mac is_server.

Definition ecdh_kex : KexAlgorithmImplementor EcdhNistPKex SK OK := {|
  skip_exchange _ := false;
  is_dh_gex _ := false;
  client_dh_gex_init _ _ := st_err Error.KexInit;
  dh_gex_set_group _ _ := Err Error.KexInit;
  server_dh := ecdh_server_dh;
  client_dh := ecdh_client_dh;
  compute_shared_secret := ecdh_compute_shared;
  compute_exchange_hash := ecdh_exchange_hash;
  kex_compute_keys := ecdh_compute_keys;
|}.

Definition ecdh_new : EcdhNistPKex := mkEcdhNistPKex None None.
End EcdhNistPKex.

(** ** ML-KEM and X25519 together *)
Section MlKem768X25519Kex.
Context {enc : SshEncoding} {C : Curve25519} {M : MlKem768} (sha256 : bytes -> bytes) {SK OK : Type}
  (CIPHERS : bytes -> option (Cipher SK OK)) (MACS : bytes -> option MacAlgorithm).

Definition MLKEM768_PUBLIC_KEY_SIZE : Z := 1184.
Definition MLKEM768_CIPHERTEXT_SIZE : Z := 1088.
Definition X25519_PUBLIC_KEY_SIZE : Z := 32.

Record MlKem768X25519Kex : Type := mkMlKem768X25519Kex {
  mlkem_secret : option DecapsulationKey;
  x25519_secret : option Scalar;
  k_pq : option bytes;
  k_cl : option bytes;
}.

Definition hybrid_init (payload : bytes) : Result bytes :=
  if negb (bool_decide (head payload = Some msg.KEX_HYBRID_INIT)) then Err Error.Inconsistent
  else
    let? c_init_len := or_panic (read_u32 (zdrop 1 payload)) in
    if zlen payload <? 5 + c_init_len then Err Error.Inconsistent
    else if negb (c_init_len =? MLKEM768_PUBLIC_KEY_SIZE + X25519_PUBLIC_KEY_SIZE) then Err Error.Kex
    else Ok (ztake c_init_len (zdrop 5 payload)).

Definition hybrid_server_dh (rnd : Z) (payload : bytes) (k : MlKem768X25519Kex) (exchange : Exchange)
  : Result (MlKem768X25519Kex * Exchange) :=
  let? c_init := hybrid_init payload in
  let c_pk2_bytes := ztake MLKEM768_PUBLIC_KEY_SIZE c_init in
  let c_pk1 := zdrop MLKEM768_PUBLIC_KEY_SIZE c_init in
  let? c_pk2 := ok_or (new_from_slice c_pk2_bytes) Error.Kex in
  let '(s_ct2, k_pq_shared_secret) := encapsulate c_pk2 rnd in
  let s_secret := from_bytes_mod_order rnd in
  let s_pk1 := mul_base s_secret in
  Ok (mkMlKem768X25519Kex k.(mlkem_secret) k.(x25519_secret) (Some k_pq_shared_secret)
        (Some (mul s_secret c_pk1)),
      set_server_ephemeral (s_ct2 ++ s_pk1) exchange).

Definition hybrid_client_dh (rnd : Z) (k : MlKem768X25519Kex)
  : Result (MlKem768X25519Kex * bytes * writer Error.error) :=
  let '(mlkem_sk, mlkem_pk) := generate_keypair rnd in
  let secret := from_bytes_mod_order rnd in
  let x25519_pk := mul_base secret in
  let c_init := ek_to_bytes mlkem_pk ++ x25519_pk in
  Ok (mkMlKem768X25519Kex (Some mlkem_sk) (Some secret) k.(k_pq) k.(k_cl), c_init,
      enc_w (encode_u8 msg.KEX_HYBRID_INIT) ;;; enc_w (encode_bytes c_init)).

Definition hybrid_compute_shared (remote_pubkey : bytes) (k : MlKem768X25519Kex) : Result MlKem768X25519Kex :=
  if negb (zlen remote_pubkey =? MLKEM768_CIPHERTEXT_SIZE + X25519_PUBLIC_KEY_SIZE) then Err Error.Kex
  else
    let s_ct2 := ztake MLKEM768_CIPHERTEXT_SIZE remote_pubkey in
    let s_pk1 := zdrop MLKEM768_CIPHERTEXT_SIZE remote_pubkey in
    let? secret := ok_or k.(mlkem_secret) Error.KexInit in
    let k_pq_shared_secret := decapsulate secret s_ct2 in
    let? x_secret := ok_or k.(x25519_secret) Error.KexInit in
    Ok (mkMlKem768X25519Kex None None (Some k_pq_shared_secret) (Some (mul x_secret s_pk1))).

(** The hash of both secrets. *)
Definition combined (k : MlKem768X25519Kex) : Result bytes :=
  let? k_pq := ok_or k.(k_pq) Error.KexInit in
  let? k_cl := ok_or k.(k_cl) Error.KexInit in
  Ok (sha256 (k_pq ++ k_cl)).

Definition hybrid_exchange_hash (k : MlKem768X25519Kex) (key : bytes) (exchange : Exchange) : Result bytes :=
  hash_written sha256
    (hash_fields key exchange ;;;
     do secret <- st_lift (combined k) ;;
     enc_w (encode_bytes secret)).

Definition hybrid_compute_keys (k : MlKem768X25519Kex) (session_id exchange_hash cipher
    remote_to_local_mac local_to_remote_mac : bytes) (is_server : bool) : Result (CipherPair SK OK) :=
  let? secret := combined k in
  let? shared := from_string secret in
  compute_keys sha256 CIPHERS MACS (Some shared) session_id exchange_hash cipher remote_to_local_mac
    local_to_remote_mac is_server.

Definition hybrid_kex : KexAlgorithmImplementor MlKem768X25519Kex SK OK := {|
  skip_exchange _ := false;
  is_dh_gex _ := false;
  client_dh_gex_init _ _ := st_err Error.KexInit;
  dh_gex_set_group _ _ := Err Error.KexInit;
  server_dh := hybrid_server_dh;
  client_dh := hybrid_client_dh;
  compute_shared_secret := hybrid_compute_shared;
  compute_exchange_hash := hybrid_exchange_hash;
  kex_compute_keys := hybrid_compute_keys;
|}.

Definition hybrid_new : MlKem768X25519Kex := mkMlKem768X25519Kex None None None None.
End MlKem768X25519Kex.

(** ** No exchange *)
Inductive NoneKexAlgorithm : Type := mkNoneKexAlgorithm.

Definition none_kex (sha256 : bytes -> bytes) {SK OK : Type} (CIPHERS : bytes -> option (Cipher SK OK))
    (MACS : bytes -> option MacAlgorithm) : KexAlgorithmImplementor NoneKexAlgorithm SK OK := {|
  skip_exchange _ := true;
  is_dh_gex _ := false;
  client_dh_gex_init _ _ := st_err Error.KexInit;
  dh_gex_set_group _ _ := Err Error.KexInit;
  server_dh _ _ k exchange := Ok (k, exchange);
  client_dh _ k := Ok (k, [], st_ret tt);
  compute_shared_secret _ k := Ok k;
  compute_exchange_hash _ _ _ := Ok [];
  kex_compute_keys _ session_id exchange_hash cipher remote_to_local_mac local_to_remote_mac is_server :=
    compute_keys sha256 CIPHERS MACS None session_id exchange_hash cipher remote_to_local_mac
      local_to_remote_mac is_server;
|}.

(** ** The enumeration and the table *)
Class KexCrypto : Type := {
  sha1 : bytes -> bytes;
  sha256 : bytes -> bytes;
  sha384 : bytes -> bytes;
  sha512 : bytes -> bytes;
  #[global] curve25519 :: Curve25519;
  #[global] mlkem768 :: MlKem768;
  nist_p256 : NistCurve;
  nist_p384 : NistCurve;
  nist_p521 : NistCurve;
}.

Section KexAlgorithm.
Context {enc : SshEncoding} {KC : KexCrypto} {SK OK : Type}
  (CIPHERS : bytes -> option (Cipher SK OK)) (MACS : bytes -> option MacAlgorithm).

Inductive KexAlgorithm : Type :=
| DhGroupKexSha1 (k : DhGroupKex)
| DhGroupKexSha256 (k : DhGroupKex)
| DhGroupKexSha512 (k : DhGroupKex)
| ACurve25519Kex (k : Curve25519Kex)
| EcdhNistP256Kex (k : EcdhNistPKex nist_p256)
| EcdhNistP384Kex (k : EcdhNistPKex nist_p384)
| EcdhNistP521Kex (k : EcdhNistPKex nist_p521)
| AMlKem768X25519Kex (k : MlKem768X25519Kex)
| ANone (k : NoneKexAlgorithm).

(** [enum_dispatch]: the implementation of a variant, its value and its
    constructor. *)
Definition dispatch {T} (a : KexAlgorithm)
    (f : forall K, KexAlgorithmImplementor K SK OK -> K -> (K -> KexAlgorithm) -> T) : T :=
  match a with
  | DhGroupKexSha1 k => f _ (dh_group_kex sha1 CIPHERS MACS) k DhGroupKexSha1
  | DhGroupKexSha256 k => f _ (dh_group_kex sha256 CIPHERS MACS) k DhGroupKexSha256
  | DhGroupKexSha512 k => f _ (dh_group_kex sha512 CIPHERS MACS) k DhGroupKexSha512
  | ACurve25519Kex k => f _ (curve25519_kex sha256 CIPHERS MACS) k ACurve25519Kex
  | EcdhNistP256Kex k => f _ (ecdh_kex nist_p256 sha256 CIPHERS MACS) k EcdhNistP256Kex
  | EcdhNistP384Kex k => f _ (ecdh_kex nist_p384 sha384 CIPHERS MACS) k EcdhNistP384Kex
  | EcdhNistP521Kex k => f _ (ecdh_kex nist_p521 sha512 CIPHERS MACS) k EcdhNistP521Kex
  | AMlKem768X25519Kex k => f _ (hybrid_kex sha256 CIPHERS MACS) k AMlKem768X25519Kex
  | ANone k => f _ (none_kex sha256 CIPHERS MACS) k ANone
  end.

#[global] Instance kex_algorithm : KexAlgorithmImplementor KexAlgorithm SK OK := {|
  skip_exchange a := dispatch a (fun _ I k _ => skip_exchange k);
  is_dh_gex a := dispatch a (fun _ I k _ => is_dh_gex k);
  client_dh_gex_init a gex := dispatch a (fun _ I k _ => client_dh_gex_init k gex);
  dh_gex_set_group group a :=
    dispatch a (fun _ I k mk => let? k := dh_gex_set_group group k in Ok (mk k));
  server_dh rnd payload a exchange :=
    dispatch a (fun _ I k mk => let? (k, exchange) := server_dh rnd payload k exchange in Ok (mk k, exchange));
  client_dh rnd a :=
    dispatch a (fun _ I k mk => let? (k, eph, w) := client_dh rnd k in Ok (mk k, eph, w));
  compute_shared_secret remote a :=
    dispatch a (fun _ I k mk => let? k := compute_shared_secret remote k in Ok (mk k));
  compute_exchange_hash a key exchange := dispatch a (fun _ I k _ => compute_exchange_hash k key exchange);
  kex_compute_keys a session_id exchange_hash cipher remote_to_local_mac local_to_remote_mac is_server :=
    dispatch a (fun _ I k _ => kex_compute_keys k session_id exchange_hash cipher remote_to_local_mac
      local_to_remote_mac is_server);
|}.

(** [KEXES], with [KexType::make] of what it finds. *)
Definition KEXES_table : list (bytes * KexAlgorithm) :=
  [(kex.MLKEM768X25519_SHA256, AMlKem768X25519Kex hybrid_new);
   (kex.CURVE25519, ACurve25519Kex curve_new);
   (kex.CURVE25519_PRE_RFC_8731, ACurve25519Kex curve_new);
   (kex.DH_GEX_SHA1, DhGroupKexSha1 (DhGroupKex_new None));
   (kex.DH_GEX_SHA256, DhGroupKexSha256 (DhGroupKex_new None));
   (kex.DH_G18_SHA512, DhGroupKexSha512 (DhGroupKex_new (Some DH_GROUP18)));
   (kex.DH_G17_SHA512, DhGroupKexSha512 (DhGroupKex_new (Some DH_GROUP17)));
   (kex.DH_G16_SHA512, DhGroupKexSha512 (DhGroupKex_new (Some DH_GROUP16)));
   (kex.DH_G15_SHA512, DhGroupKexSha512 (DhGroupKex_new (Some DH_GROUP15)));
   (kex.DH_G14_SHA256, DhGroupKexSha256 (DhGroupKex_new (Some DH_GROUP14)));
   (kex.DH_G14_SHA1, DhGroupKexSha1 (DhGroupKex_new (Some DH_GROUP14)));
   (kex.DH_G1_SHA1, DhGroupKexSha1 (DhGroupKex_new (Some DH_GROUP1)));
   (kex.ECDH_SHA2_NISTP256, EcdhNistP256Kex (ecdh_new nist_p256));
   (kex.ECDH_SHA2_NISTP384, EcdhNistP384Kex (ecdh_new nist_p384));
   (kex.ECDH_SHA2_NISTP521, EcdhNistP521Kex (ecdh_new nist_p521));
   (kex.NONE, ANone mkNoneKexAlgorithm)].

Definition make (name : bytes) : option KexAlgorithm :=
  option_map snd (List.find (fun e => beq e.1 name) KEXES_table).
End KexAlgorithm.
Arguments KexAlgorithm {KC}.

(** ** Documented behaviour of the parameters *)
Class Curve25519Laws (C : Curve25519) : Prop := {
  mul_base_len s : zlen (mul_base s) = 32;
  mul_bytes s p : Forall is_u8 (mul s p) /\ zlen (mul s p) <= MAX_ENCODED_LEN;
  mul_comm a b : mul a (mul_base b) = mul b (mul_base a);
}.

Class NistCurveLaws (C : NistCurve) : Prop := {
  sec1_len pk : zlen (to_sec1_bytes pk) <= MAX_ENCODED_LEN;
  sec1_roundtrip pk : from_sec1_bytes (to_sec1_bytes pk) = Some pk;
  diffie_hellman_bytes s pk : Forall is_u8 (diffie_hellman s pk) /\ zlen (diffie_hellman s pk) <= MAX_ENCODED_LEN;
  diffie_hellman_comm a b : diffie_hellman a (ec_public_key b) = diffie_hellman b (ec_public_key a);
}.

(** FIPS 203; decapsulation fails with a probability below 2^-164. *)
Class MlKem768Laws (M : MlKem768) : Prop := {
  ek_len ek : zlen (ek_to_bytes ek) = MLKEM768_PUBLIC_KEY_SIZE;
  ek_roundtrip ek : new_from_slice (ek_to_bytes ek) = Some ek;
  ciphertext_len ek rnd : zlen (encapsulate ek rnd).1 = MLKEM768_CIPHERTEXT_SIZE;
  decapsulate_encapsulate rc rs : let '(dk, ek) := generate_keypair rc in
    decapsulate dk (encapsulate ek rs).1 = (encapsulate ek rs).2;
}.

Definition digest (hash : bytes -> bytes) : Prop := is_hash hash /\ forall x, zlen (hash x) <= 64.

Class KexCryptoLaws (KC : KexCrypto) : Prop := {
  #[global] curve25519_ok :: Curve25519Laws curve25519;
  #[global] mlkem768_ok :: MlKem768Laws mlkem768;
  p256_ok : NistCurveLaws nist_p256;
  p384_ok : NistCurveLaws nist_p384;
  p521_ok : NistCurveLaws nist_p521;
  sha1_digest : digest sha1;
  sha256_digest : digest sha256;
  sha384_digest : digest sha384;
  sha512_digest : digest sha512;
}.

Lemma digest_hash hash : digest hash -> is_hash hash.
Proof. by intros [H _]. Qed.

(** ** The contract, kept by each of them *)
Section Contract.
Context {enc : SshEncoding} `{!SshEncodingLaws enc}.
Context {SK OK : Type} (sync : SK -> OK -> Prop).
Context (CIPHERS : bytes -> option (Cipher SK OK)) (MACS : bytes -> option MacAlgorithm).
Context (tables : tables_ok sync CIPHERS MACS).

(** The payload of the message of the client. *)
Lemma init_payload eph : zlen eph <= MAX_ENCODED_LEN ->
  head (dh_init false eph) = Some msg.KEX_ECDH_INIT /\
  read_u32 (zdrop 1 (dh_init false eph)) = Some (zlen eph) /\
  zlen (dh_init false eph) = 5 + zlen eph /\ zdrop 5 (dh_init false eph) = eph.
Proof.
  intros Hl. pose proof (zlen_nonneg eph). unfold dh_init, dh_init_tag. split; [done|].
  change (msg.KEX_ECDH_INIT :: be32 (zlen eph) ++ eph) with ([msg.KEX_ECDH_INIT] ++ be32 (zlen eph) ++ eph).
  split_and!.
  - rewrite zdrop_app_exact, read_u32_be32, to_u32_small; [done| |done].
    unfold is_u32, U32_MOD, MAX_ENCODED_LEN in *. lia.
  - rewrite !zlen_app, zlen_be32. change (zlen [msg.KEX_ECDH_INIT]) with 1. lia.
  - rewrite app_assoc. by apply zdrop_app_exact.
Qed.

Lemma init_written eph : zlen eph <= MAX_ENCODED_LEN ->
  appends (enc_w (encode_u8 msg.KEX_ECDH_INIT) ;;; enc_w (encode_bytes eph)) (dh_init false eph).
Proof.
  intros Hl. apply (appends_bind _ _ [_]); apply appends_map_err.
  - by apply encode_u8_appends.
  - apply encode_bytes_appends. unfold MAX_ENCODED_LEN, U32_MOD in *. lia.
Qed.

Lemma mpint_secret_ok b : Forall is_u8 b -> zlen b <= MAX_ENCODED_LEN ->
  exists x, mpint_secret (Some b) = Ok (Some x).
Proof.
  intros Hu Hl. destruct (from_mpint_ok b Hu) as [v Hv]; [unfold MAX_ENCODED_LEN, U32_MAX in *; lia|].
  unfold mpint_secret. rewrite Hv. by eexists.
Qed.

Lemma keys_of_secret hash shared sid h cipher cm sm : digest hash ->
  match compute_keys hash CIPHERS MACS shared sid h cipher cm sm true,
        compute_keys hash CIPHERS MACS shared sid h cipher sm cm false with
  | Ok p, Ok q =>
      sync p.(local_to_remote) q.(remote_to_local) /\ sync q.(local_to_remote) p.(remote_to_local)
  | Err _, Err _ => True
  | _, _ => False
  end.
Proof.
  intros Hd. pose proof (compute_keys_match hash (digest_hash hash Hd) sync CIPHERS MACS shared sid h cipher cm sm tables).
  by repeat case_match.
Qed.

(** Both sides hold the same secret, a string that can be sent. *)
Definition agreed_on {K} (secret : K -> option bytes) (c s : K) : Prop :=
  exists b, secret c = Some b /\ secret s = Some b /\ Forall is_u8 b /\ zlen b <= MAX_ENCODED_LEN.

(** *** Curve25519 *)
Section Curve.
Context {C : Curve25519} `{!Curve25519Laws C} (hash : bytes -> bytes) (Hd : digest hash).

Lemma curve_client_pubkey_init s : curve_client_pubkey (dh_init false (mul_base s)) = Ok (mul_base s).
Proof.
  unfold curve_client_pubkey. pose proof (mul_base_len s) as Hs.
  destruct (init_payload (mul_base s)) as (-> & -> & -> & ->); [by rewrite Hs|]. rewrite bool_decide_true by done.
  cbn [negb or_panic res_bind]. by rewrite ztake_all, Hs, Z.eqb_refl, Z.ltb_irrefl by lia.
Qed.

Lemma curve_accepts rc rs (s : Curve25519Kex) ex : mul_base (from_bytes_mod_order rc) <> zero_point ->
  exists s1 ex1, curve_server_dh rs (dh_init false (mul_base (from_bytes_mod_order rc))) s ex = Ok (s1, ex1).
Proof.
  intros Hz. unfold curve_server_dh. rewrite curve_client_pubkey_init. cbn [res_bind].
  rewrite (proj2 (beq_false _ _) Hz). by do 2 eexists.
Qed.

Lemma curve_exchange rc rs (c s : Curve25519Kex) c1 eph w :
  mul_base (from_bytes_mod_order rs) <> zero_point ->
  curve_client_dh rc c = Ok (c1, eph, w) ->
  appends w (dh_init false eph) /\ zlen eph <= MAX_ENCODED_LEN /\
  forall ex s1 ex1, curve_server_dh rs (dh_init false eph) s ex = Ok (s1, ex1) ->
    zlen ex1.(server_ephemeral) <= MAX_ENCODED_LEN /\
    ex1 = set_server_ephemeral ex1.(server_ephemeral) ex /\
    exists c2, curve_compute_shared ex1.(server_ephemeral) c1 = Ok c2 /\ agreed_on x_shared_secret c2 s1.
Proof.
  intros Hrs [= <- <- <-]. set (a := from_bytes_mod_order rc). set (b := from_bytes_mod_order rs) in *.
  pose proof (mul_base_len a) as Ha. pose proof (mul_base_len b) as Hb.
  assert (Hl : zlen (mul_base a) <= MAX_ENCODED_LEN) by (unfold MAX_ENCODED_LEN; lia).
  split; [by apply init_written|]. split; [done|]. intros ex s1 ex1. unfold curve_server_dh.
  rewrite curve_client_pubkey_init. cbn [res_bind].
  destruct (beq (mul_base a) zero_point); [done|]. intros [= <- <-]. fold b.
  cbn [server_ephemeral set_server_ephemeral]. split; [unfold MAX_ENCODED_LEN; lia|]. split; [done|].
  unfold curve_compute_shared. cbn [local_secret ok_or res_bind]. rewrite Hb, Z.eqb_refl. cbn [negb].
  rewrite (proj2 (beq_false _ _) Hrs).
  destruct (mul_bytes a (mul_base b)). eexists. split; [done|]. eexists.
  split_and!; [done|by rewrite mul_comm|done|done].
Qed.

(** The secret 0, which no one draws, would give a public key that a client
    refuses. *)
#[global] Program Instance curve25519_laws : KexLaws (curve25519_kex hash CIPHERS MACS) sync := {|
  paired _ _ := True;
  agreed := agreed_on x_shared_secret;
  drawn _ _ rs := mul_base (from_bytes_mod_order rs) <> zero_point;
|}.
Next Obligation. done. Qed.
Next Obligation.
  intros rc rs c s c1 eph w _ Hdr Hc. destruct (curve_exchange rc rs c s c1 eph w Hdr Hc) as (Ha & Hl & Hx).
  split_and!; [done..|]. intros ex s1 ex1 Hs. by destruct (Hx ex s1 ex1 Hs) as (H1 & H2 & H3).
Qed.
Next Obligation.
  intros c s key ex (b & Hc & Hs & _). cbn. unfold curve_exchange_hash. by rewrite Hc, Hs.
Qed.
Next Obligation.
  intros c s sid h cipher cm sm (b & Hc & Hs & Hu & Hl). cbn. unfold curve_compute_keys. rewrite Hc, Hs.
  destruct (mpint_secret_ok b Hu Hl) as [x ->]. by apply keys_of_secret.
Qed.
End Curve.

(** *** The NIST curves *)
Section Ecdh.
Context (C : NistCurve) (HC : NistCurveLaws C) (hash : bytes -> bytes) (Hd : digest hash).

Lemma ecdh_client_pubkey_init pk : ecdh_client_pubkey C (dh_init false (to_sec1_bytes pk)) = Ok pk.
Proof.
  unfold ecdh_client_pubkey. destruct (init_payload (to_sec1_bytes pk) (sec1_len pk)) as (-> & -> & -> & ->).
  rewrite bool_decide_true by done. cbn [negb or_panic res_bind].
  by rewrite ztake_all, Z.ltb_irrefl, sec1_roundtrip by lia.
Qed.

Lemma ecdh_accepts pk rs (s : EcdhNistPKex C) ex :
  exists s1 ex1, ecdh_server_dh C rs (dh_init false (to_sec1_bytes pk)) s ex = Ok (s1, ex1).
Proof. unfold ecdh_server_dh. rewrite ecdh_client_pubkey_init. by do 2 eexists. Qed.

Lemma ecdh_exchange rc rs (c s : EcdhNistPKex C) c1 eph w : ecdh_client_dh C rc c = Ok (c1, eph, w) ->
  appends w (dh_init false eph) /\ zlen eph <= MAX_ENCODED_LEN /\
  forall ex s1 ex1, ecdh_server_dh C rs (dh_init false eph) s ex = Ok (s1, ex1) ->
    zlen ex1.(server_ephemeral) <= MAX_ENCODED_LEN /\
    ex1 = set_server_ephemeral ex1.(server_ephemeral) ex /\
    exists c2, ecdh_compute_shared C ex1.(server_ephemeral) c1 = Ok c2 /\ agreed_on (ec_shared_secret C) c2 s1.
Proof.
  intros [= <- <- <-]. set (a := generate_from_rng rc). set (eph := to_sec1_bytes (ec_public_key a)).
  pose proof (sec1_len (ec_public_key a)) as Hl. fold eph in Hl.
  split; [by apply init_written|]. split; [done|]. intros ex s1 ex1. unfold ecdh_server_dh, eph.
  rewrite ecdh_client_pubkey_init. intros [= <- <-]. set (b := generate_from_rng rs).
  cbn [server_ephemeral set_server_ephemeral]. split; [apply sec1_len|]. split; [done|].
  unfold ecdh_compute_shared. cbn [ec_local_secret ok_or res_bind]. rewrite sec1_roundtrip. cbn [ok_or res_bind].
  destruct (diffie_hellman_bytes a (ec_public_key b)). eexists. split; [done|]. eexists.
  split_and!; [done|by rewrite diffie_hellman_comm|done|done].
Qed.

#[global] Program Instance ecdh_laws : KexLaws (ecdh_kex C hash CIPHERS MACS) sync := {|
  paired _ _ := True;
  agreed := agreed_on (ec_shared_secret C);
  drawn _ _ _ := True;
|}.
Next Obligation. done. Qed.
Next Obligation.
  intros rc rs c s c1 eph w _ _ Hc. destruct (ecdh_exchange rc rs c s c1 eph w Hc) as (Ha & Hl & Hx).
  split_and!; [done..|]. intros ex s1 ex1 Hs. by destruct (Hx ex s1 ex1 Hs) as (H1 & H2 & H3).
Qed.
Next Obligation.
  intros c s key ex (b & Hc & Hs & _). cbn. unfold ecdh_exchange_hash. by rewrite Hc, Hs.
Qed.
Next Obligation.
  intros c s sid h cipher cm sm (b & Hc & Hs & Hu & Hl). cbn. unfold ecdh_compute_keys. rewrite Hc, Hs.
  destruct (mpint_secret_ok b Hu Hl) as [x ->]. by apply keys_of_secret.
Qed.
End Ecdh.

(** *** The hybrid *)
Section Hybrid.
Context {C : Curve25519} `{!Curve25519Laws C} {M : MlKem768} `{!MlKem768Laws M} (hash : bytes -> bytes) (Hd : digest hash).

Definition hybrid_agreed (c s : MlKem768X25519Kex) : Prop :=
  c.(k_pq) = s.(k_pq) /\ c.(k_cl) = s.(k_cl) /\ is_Some s.(k_pq) /\ is_Some s.(k_cl).

Lemma hybrid_init_ok ek a : hybrid_init (dh_init false (ek_to_bytes ek ++ mul_base a)) = Ok (ek_to_bytes ek ++ mul_base a).
Proof.
  assert (He : zlen (ek_to_bytes ek ++ mul_base a) = MLKEM768_PUBLIC_KEY_SIZE + X25519_PUBLIC_KEY_SIZE)
    by (by rewrite zlen_app, ek_len, mul_base_len).
  unfold hybrid_init. destruct (init_payload (ek_to_bytes ek ++ mul_base a)) as (-> & -> & -> & ->); [by rewrite He|].
  rewrite bool_decide_true by done. cbn [negb or_panic res_bind].
  by rewrite ztake_all, Z.ltb_irrefl, He, Z.eqb_refl by lia.
Qed.

Lemma hybrid_accepts rc rs (c s : MlKem768X25519Kex) ex : exists c1 eph w, hybrid_client_dh rc c = Ok (c1, eph, w) /\
  exists s1 ex1, hybrid_server_dh rs (dh_init false eph) s ex = Ok (s1, ex1).
Proof.
  unfold hybrid_client_dh. destruct (generate_keypair rc) as [dk ek]. do 3 eexists. split; [done|].
  unfold hybrid_server_dh. rewrite hybrid_init_ok. cbn [res_bind].
  rewrite ztake_app_exact, ek_roundtrip by (by rewrite ek_len). cbn [ok_or res_bind].
  destruct (encapsulate ek rs). by do 2 eexists.
Qed.

Lemma hybrid_exchange rc rs (c s : MlKem768X25519Kex) c1 eph w : hybrid_client_dh rc c = Ok (c1, eph, w) ->
  appends w (dh_init false eph) /\ zlen eph <= MAX_ENCODED_LEN /\
  forall ex s1 ex1, hybrid_server_dh rs (dh_init false eph) s ex = Ok (s1, ex1) ->
    zlen ex1.(server_ephemeral) <= MAX_ENCODED_LEN /\
    ex1 = set_server_ephemeral ex1.(server_ephemeral) ex /\
    exists c2, hybrid_compute_shared ex1.(server_ephemeral) c1 = Ok c2 /\ hybrid_agreed c2 s1.
Proof.
  unfold hybrid_client_dh. pose proof (decapsulate_encapsulate rc rs) as Hkem.
  destruct (generate_keypair rc) as [dk ek]. intros [= <- <- <-].
  set (a := from_bytes_mod_order rc). set (b := from_bytes_mod_order rs).
  set (eph := ek_to_bytes ek ++ mul_base a). pose proof (ek_len ek) as Hek.
  assert (He : zlen eph = MLKEM768_PUBLIC_KEY_SIZE + X25519_PUBLIC_KEY_SIZE)
    by (unfold eph; rewrite zlen_app, Hek, mul_base_len; done).
  assert (Hl : zlen eph <= MAX_ENCODED_LEN) by (rewrite He; done).
  split; [by apply init_written|]. split; [done|]. intros ex s1 ex1. unfold hybrid_server_dh, eph.
  rewrite hybrid_init_ok. cbn [res_bind]. rewrite ztake_app_exact, zdrop_app_exact, ek_roundtrip by done. cbn [ok_or res_bind].
  pose proof (ciphertext_len ek rs) as Hct. destruct (encapsulate ek rs) as [ct ss]. cbn [fst snd] in Hct, Hkem.
  intros [= <- <-]. fold b. cbn [server_ephemeral set_server_ephemeral].
  assert (Hs : zlen (ct ++ mul_base b) = MLKEM768_CIPHERTEXT_SIZE + X25519_PUBLIC_KEY_SIZE)
    by (rewrite zlen_app, Hct, mul_base_len; done).
  split; [rewrite Hs; done|]. split; [done|]. unfold hybrid_compute_shared. rewrite Hs, Z.eqb_refl.
  rewrite ztake_app_exact, zdrop_app_exact by done. cbn. eexists. split; [done|].
  unfold hybrid_agreed. cbn. rewrite Hkem, mul_comm. by split_and!.
Qed.

Lemma combined_agreed c s : hybrid_agreed c s ->
  combined hash c = combined hash s /\ exists b, combined hash s = Ok b /\ zlen b <= 64.
Proof.
  intros (Hq & Hk & [q Hsq] & [k Hsk]). unfold combined. rewrite Hq, Hk, Hsq, Hsk. split; [done|].
  cbn. eexists. split; [done|]. apply Hd.
Qed.

#[global] Program Instance hybrid_laws : KexLaws (hybrid_kex hash CIPHERS MACS) sync := {|
  paired _ _ := True;
  agreed := hybrid_agreed;
  drawn _ _ _ := True;
|}.
Next Obligation. done. Qed.
Next Obligation.
  intros rc rs c s c1 eph w _ _ Hc. destruct (hybrid_exchange rc rs c s c1 eph w Hc) as (Ha & Hl & Hx).
  split_and!; [done..|]. intros ex s1 ex1 Hs. by destruct (Hx ex s1 ex1 Hs) as (H1 & H2 & H3).
Qed.
Next Obligation.
  intros c s key ex Ha. cbn. unfold hybrid_exchange_hash. by destruct (combined_agreed c s Ha) as [-> _].
Qed.
Next Obligation.
  intros c s sid h cipher cm sm Ha. cbn. unfold hybrid_compute_keys.
  destruct (combined_agreed c s Ha) as (-> & b & -> & Hb). cbn [res_bind]. unfold from_string, enc_w, st_map_err.
  rewrite (encode_bytes_appends b) by (unfold U32_MOD; lia). cbn [map_err res_bind app].
  by apply keys_of_secret.
Qed.
End Hybrid.

(** *** All of them *)
Section All.
Context {KC : KexCrypto} `{!KexCryptoLaws KC}.

(** Two algorithms of one kind that are related as the contract of that kind says. *)
Definition both (R : forall K (I : KexAlgorithmImplementor K SK OK), KexLaws I sync -> K -> K -> Prop)
    (a b : KexAlgorithm) : Prop :=
  match a, b with
  | DhGroupKexSha1 c, DhGroupKexSha1 s =>
      R _ _ (dh_laws sha1 (digest_hash _ sha1_digest) sync CIPHERS MACS tables) c s
  | DhGroupKexSha256 c, DhGroupKexSha256 s =>
      R _ _ (dh_laws sha256 (digest_hash _ sha256_digest) sync CIPHERS MACS tables) c s
  | DhGroupKexSha512 c, DhGroupKexSha512 s =>
      R _ _ (dh_laws sha512 (digest_hash _ sha512_digest) sync CIPHERS MACS tables) c s
  | ACurve25519Kex c, ACurve25519Kex s => R _ _ (curve25519_laws sha256 sha256_digest) c s
  | EcdhNistP256Kex c, EcdhNistP256Kex s => R _ _ (ecdh_laws nist_p256 p256_ok sha256 sha256_digest) c s
  | EcdhNistP384Kex c, EcdhNistP384Kex s => R _ _ (ecdh_laws nist_p384 p384_ok sha384 sha384_digest) c s
  | EcdhNistP521Kex c, EcdhNistP521Kex s => R _ _ (ecdh_laws nist_p521 p521_ok sha512 sha512_digest) c s
  | AMlKem768X25519Kex c, AMlKem768X25519Kex s => R _ _ (hybrid_laws sha256 sha256_digest) c s
  | _, _ => False
  end.

Definition usable (a : KexAlgorithm) (rc rs : Z) : Prop :=
  match a with
  | DhGroupKexSha1 _ | DhGroupKexSha256 _ | DhGroupKexSha512 _ => 0 <= rc /\ 0 <= rs
  | ACurve25519Kex _ => mul_base (from_bytes_mod_order rs) <> zero_point
  | _ => True
  end.

(** The contract of a variant, under its constructor. *)
Ltac wrapped rc rs Hp Hdr Hc :=
  apply res_bind_ok in Hc as ([[k1 eph1] w1] & E & Hc); injection Hc as <- <- <-;
  destruct (exchange_agrees rc rs _ _ _ _ _ Hp Hdr E) as (Ha & Hl & Hg & Hx);
  split_and!; [exact Ha|exact Hl|exact Hg|];
  let Hs := fresh in intros ex s1 ex1 Hs; cbn [server_dh] in Hs;
  apply res_bind_ok in Hs as ([k2 ex2] & E2 & Hs); injection Hs as <- <-;
  destruct (Hx _ _ _ E2) as (H1 & H2 & H3 & c2 & H4 & H5);
  split_and!; [exact H1|exact H2|exact H3|]; eexists; split;
  [cbn [compute_shared_secret dispatch kex_algorithm set_server_ephemeral server_ephemeral] in *; by rewrite H4|exact H5].

#[global] Program Instance kex_algorithm_laws : KexLaws (kex_algorithm CIPHERS MACS) sync := {|
  paired := both (fun _ _ L => @paired _ _ _ _ _ _ L);
  agreed := both (fun _ _ L => @agreed _ _ _ _ _ _ L);
  drawn := usable;
|}.
Next Obligation.
  intros [] []; try done; cbn [both]; intros Hp; exact (paired_gex _ _ Hp).
Qed.
Next Obligation.
  intros rc rs c s c1 eph w.
  destruct c, s; try done; cbn [both usable dispatch client_dh kex_algorithm]; intros Hp Hdr Hc; by wrapped rc rs Hp Hdr Hc.
Qed.
Next Obligation.
  intros [] [] key ex; try done; cbn [both]; intros Ha; exact (agreed_hash _ _ key ex Ha).
Qed.
Next Obligation.
  intros [] [] sid h cipher cm sm; try done; cbn [both]; intros Ha; exact (agreed_keys _ _ sid h cipher cm sm Ha).
Qed.

#[local] Instance the_kex : KexAlgorithmImplementor KexAlgorithm SK OK := kex_algorithm CIPHERS MACS.
#[local] Instance the_laws : KexLaws the_kex sync := kex_algorithm_laws.

(** Where the group is not fixed by the algorithm it has to be set first, at the
    client to the one that the server sent. *)
Definition ready (group : DhGroup) (a : KexAlgorithm) : Result KexAlgorithm :=
  if is_dh_gex a then dh_gex_set_group group a else Ok a.

(** The same numbers, of at most 32768 bits. *)
Definition one_group (gc gs : DhGroup) : Prop :=
  from_bytes_be gc.(prime) = from_bytes_be gs.(prime) /\
  from_bytes_be gc.(generator) = from_bytes_be gs.(generator) /\ from_bytes_be gs.(prime) < max_prime.

(** Every entry of the table can meet itself on the other side. *)
Lemma built_in_group g : (from_bytes_be g.(prime) <? max_prime) = true ->
  same_group (DhGroupKex_new (Some g)) (DhGroupKex_new (Some g)).
Proof. intros H. do 2 eexists. split_and!; try done. by apply Z.ltb_lt. Qed.

Lemma ready_group gc gs : one_group gc gs ->
  same_group (mkDhGroupKex (Some (DH_new gc)) None true) (mkDhGroupKex (Some (DH_new gs)) None true).
Proof. intros (Hp & Hg & Hm). by do 2 eexists. Qed.

Lemma make_paired name a gc gs c s : make name = Some a -> skip_exchange a = false ->
  (is_dh_gex a = true -> one_group gc gs) -> ready gc a = Ok c -> ready gs a = Ok s -> paired c s.
Proof.
  unfold make. destruct (List.find _ _) as [[n b]|] eqn:Hf; [|done]. intros [= ->].
  apply find_some in Hf as [Hf _]. cbn [In KEXES_table] in Hf.
  repeat (destruct Hf as [[= _ <-]|Hf]); try done; intros _ Hg [= <-] [= <-]; cbn;
    lazymatch goal with
    | |- context [gc] => exact (ready_group gc gs (Hg eq_refl))
    | |- same_group _ _ => apply built_in_group; vm_compute; reflexivity
    | |- _ => exact I
    end.
Qed.

(** The algorithms that cannot refuse a key that was made for them. *)
Definition curve_based (a : KexAlgorithm) : bool :=
  match a with
  | ACurve25519Kex _ | EcdhNistP256Kex _ | EcdhNistP384Kex _ | EcdhNistP521Kex _ | AMlKem768X25519Kex _ => true
  | _ => false
  end.

Ltac accepts H :=
  let Hs := fresh in destruct H as (s1 & ex1 & Hs); do 3 eexists; split; [done|];
  cbn [server_dh ecdh_kex curve25519_kex is_dh_gex]; rewrite Hs; by do 2 eexists.

Lemma curve_based_accepts a b rc rs ex : curve_based a = true -> paired a b -> usable a rs rc ->
  exists c1 eph w, client_dh rc a = Ok (c1, eph, w) /\
    exists s1 ex1, server_dh rs (dh_init (is_dh_gex a) eph) b ex = Ok (s1, ex1).
Proof.
  destruct a, b; try done; intros _ _ Hu; cbn [client_dh server_dh is_dh_gex the_kex kex_algorithm dispatch].
  - accepts (curve_accepts rc rs k0 ex Hu).
  - accepts (ecdh_accepts _ p256_ok (ec_public_key (generate_from_rng rc)) rs k0 ex).
  - accepts (ecdh_accepts _ p384_ok (ec_public_key (generate_from_rng rc)) rs k0 ex).
  - accepts (ecdh_accepts _ p521_ok (ec_public_key (generate_from_rng rc)) rs k0 ex).
  - destruct (hybrid_accepts rc rs k k0 ex) as (c1 & eph & w & Hc & s1 & ex1 & Hs). do 3 eexists.
    cbn [client_dh server_dh is_dh_gex hybrid_kex]. rewrite Hc. split; [done|]. rewrite Hs. by do 2 eexists.
Qed.

(** C12. Every key exchange of the table brings client and server together - all of
    them but [none], which exchanges nothing; in the two group exchanges both
    sides have first set one and the same group, of at most 32768 bits.  When
    the server accepts the client's message, the client accepts the server's
    key, both hash the exchange alike and derive keys in sync in both
    directions or fail together.  The algorithms on curves, the hybrid with
    ML-KEM among them, always accept what the other side makes.  (Of X25519 the
    secret zero is not drawn; numbers drawn for finite fields are not negative.) *)
Theorem every_algorithm_agrees name a gc gs c s rc rs c1 eph w :
  make name = Some a -> skip_exchange a = false -> (is_dh_gex a = true -> one_group gc gs) ->
  ready gc a = Ok c -> ready gs a = Ok s -> usable c rc rs ->
  client_dh rc c = Ok (c1, eph, w) ->
  let init := dh_init (is_dh_gex c) eph in
  appends w init /\
    (curve_based c = true -> usable c rs rc -> forall ex, exists s1 ex1, server_dh rs init s ex = Ok (s1, ex1)) /\
    forall ex s1 ex1, server_dh rs init s ex = Ok (s1, ex1) ->
    exists c2, compute_shared_secret ex1.(server_ephemeral) c1 = Ok c2 /\
      (forall key x, compute_exchange_hash c2 key x = compute_exchange_hash s1 key x) /\
      forall sid h cipher client_mac server_mac,
        match kex_compute_keys s1 sid h cipher client_mac server_mac true,
              kex_compute_keys c2 sid h cipher server_mac client_mac false with
        | Ok p, Ok q =>
            sync p.(local_to_remote) q.(remote_to_local) /\ sync q.(local_to_remote) p.(remote_to_local)
        | Err _, Err _ => True
        | _, _ => False
        end.
Proof.
  intros Hm Hs Hg Hrc Hrs Hu Hc. pose proof (make_paired name a gc gs c s Hm Hs Hg Hrc Hrs) as Hp.
  destruct (exchange_agrees rc rs c s c1 eph w Hp Hu Hc) as (Ha & _ & _ & Hx).
  cbv zeta. split; [exact Ha|]. split.
  - intros Hb Hu' ex. destruct (curve_based_accepts c s rc rs ex Hb Hp Hu') as (c1' & eph' & w' & Hc' & Hs1).
    rewrite Hc in Hc'. by injection Hc' as <- <- <-.
  - intros ex s1 ex1 Hs1. destruct (Hx ex s1 ex1 Hs1) as (_ & _ & _ & c2 & H1 & H2). exists c2.
    split; [done|]. split; [intros; by apply agreed_hash|intros; by apply agreed_keys].
Qed.
End All.
End Contract.

(** ** A toy of each kind *)
Module Example.
#[local] Existing Instance rfc4251.

(** Secrets are bits, and the common secret is their conjunction. *)
#[local] Instance curve : Curve25519 := {|
  Scalar := bool;
  from_bytes_mod_order := Z.odd;
  mul_base s := (if s then 1 else 2) :: replicate 31 0;
  mul s p := [if s && bool_decide (head p = Some 1) then 1 else 2];
|}.
#[local] Instance nist : NistCurve := {|
  EphemeralSecret := bool;
  EcPublicKey := bool;
  generate_from_rng := Z.odd;
  ec_public_key s := s;
  to_sec1_bytes pk := [4; if pk then 1 else 2];
  from_sec1_bytes b := match b with [4; 1] => Some true | [4; 2] => Some false | _ => None end;
  diffie_hellman s pk := [if s && pk then 1 else 2];
|}.
(** The ciphertext holds the key. *)
#[local] Instance mlkem : MlKem768 := {|
  DecapsulationKey := unit;
  EncapsulationKey := unit;
  generate_keypair _ := (tt, tt);
  ek_to_bytes _ := replicate 1184 7;
  new_from_slice _ := Some tt;
  encapsulate _ rnd := ((rnd mod 256) :: replicate 1087 0, [rnd mod 256]);
  decapsulate _ ct := take 1 ct;
|}.

#[local] Instance crypto : KexCrypto := {|
  sha1 := KexKeys.Example.hash; sha256 := KexKeys.Example.hash;
  sha384 := KexKeys.Example.hash; sha512 := KexKeys.Example.hash;
  nist_p256 := nist; nist_p384 := nist; nist_p521 := nist;
|}.

Lemma hash_digest : digest KexKeys.Example.hash.
Proof. split; [apply KexKeys.Example.hash_ok|]. intros x. rewrite KexKeys.Example.zlen_hash. lia. Qed.

#[local] Instance crypto_laws : KexCryptoLaws crypto.
Proof.
  assert (Hb : forall b : bool, Forall is_u8 [if b then 1 else 2] /\ zlen [if b then 1 else 2] <= MAX_ENCODED_LEN)
    by (intros []; split; [by repeat constructor|done|by repeat constructor|done]).
  assert (HN : NistCurveLaws nist).
  { split; [by intros []|by intros []|intros; apply Hb|by intros [] []]. }
  constructor; try exact HN; try exact hash_digest.
  - split; [by intros []|intros; apply Hb|by intros [] []].
  - split; [by intros []|by intros []|intros [] rnd; cbn; by rewrite zlen_cons|done].
Qed.

Abbreviation CIPHERS := KexKeys.Example.CIPHERS.
Abbreviation MACS := KexKeys.Example.MACS.
#[local] Existing Instance kex_algorithm.
#[local] Instance toy_kex : KexAlgorithmImplementor KexAlgorithm CipherImpls.Example.key CipherImpls.Example.key :=
  kex_algorithm CIPHERS MACS.

Definition hybrid : KexAlgorithm := AMlKem768X25519Kex hybrid_new.

(** The group of a group exchange: 23, written by the client with a leading zero. *)
Definition group_c : DhGroup := mkDhGroup [0; 23] [5].
Definition group_s : DhGroup := mkDhGroup [23] [5].
Definition gex_algorithm : KexAlgorithm := DhGroupKexSha256 (DhGroupKex_new None).
Definition gex_c : KexAlgorithm := DhGroupKexSha256 (mkDhGroupKex (Some (DH_new group_c)) None true).
Definition gex_s : KexAlgorithm := DhGroupKexSha256 (mkDhGroupKex (Some (DH_new group_s)) None true).

Lemma one_toy_group : one_group group_c group_s.
Proof. split_and!; vm_compute; reflexivity. Qed.

Lemma gex_served :
  match client_dh 3 gex_c with
  | Ok (_, eph, _) => match server_dh 4 (dh_init true eph) gex_s (Exchange_new [] []) with Ok _ => true | _ => false end
  | _ => false
  end = true.
Proof. vm_compute. reflexivity. Qed.

Lemma every_algorithm_agrees_witness :
  (exists c1 eph w s1 ex1 c2,
    client_dh 5 hybrid = Ok (c1, eph, w) /\ appends w (dh_init false eph) /\
    server_dh 6 (dh_init false eph) hybrid (Exchange_new [] []) = Ok (s1, ex1) /\
    compute_shared_secret ex1.(server_ephemeral) c1 = Ok c2) /\
  exists c1 eph w s1 ex1 c2,
    client_dh 3 gex_c = Ok (c1, eph, w) /\ appends w (dh_init true eph) /\
    server_dh 4 (dh_init true eph) gex_s (Exchange_new [] []) = Ok (s1, ex1) /\
    compute_shared_secret ex1.(server_ephemeral) c1 = Ok c2.
Proof.
  split.
  - destruct (client_dh 5 hybrid) as [[[c1 eph] w]| |] eqn:Hc; [|discriminate Hc..].
    destruct (every_algorithm_agrees _ CIPHERS MACS KexKeys.Example.tables kex.MLKEM768X25519_SHA256 hybrid
      DH_GROUP1 DH_GROUP1 hybrid hybrid 5 6 c1 eph w) as (Hw & Hok & Hx).
    + vm_compute. reflexivity.
    + reflexivity.
    + intros H. discriminate H.
    + reflexivity.
    + reflexivity.
    + exact I.
    + exact Hc.
    + destruct (Hok eq_refl I (Exchange_new [] [])) as (s1 & ex1 & Hs).
      destruct (Hx _ _ _ Hs) as (c2 & H2 & _). by exists c1, eph, w, s1, ex1, c2.
  - pose proof gex_served as Hserved. destruct (client_dh 3 gex_c) as [[[c1 eph] w]| |] eqn:Hc; [|discriminate Hserved..].
    destruct (server_dh 4 (dh_init true eph) gex_s (Exchange_new [] [])) as [[s1 ex1]| |] eqn:Hs; [|discriminate Hserved..].
    destruct (every_algorithm_agrees _ CIPHERS MACS KexKeys.Example.tables kex.DH_GEX_SHA256 gex_algorithm
      group_c group_s gex_c gex_s 3 4 c1 eph w) as (Hw & _ & Hx).
    + vm_compute. reflexivity.
    + reflexivity.
    + intros _. exact one_toy_group.
    + reflexivity.
    + reflexivity.
    + cbn. lia.
    + exact Hc.
    + destruct (Hx _ _ _ Hs) as (c2 & H2 & _). by exists c1, eph, w, s1, ex1, c2.
Defined.
End Example.
