(* ===== verification/PendingInbound.v ===== *)
(** * Inbound delivery ([russh/src/pending_inbound.rs])

    What arrives for a channel goes to the channel's bounded application buffer
    without blocking the session: when the buffer is full the items queue here,
    behind one reservation at a time.

    The buffers are [tokio::sync::mpsc] queues, whose code is not part of the
    repository: [Mpsc] lists the operations the code calls on a sender,
    [MpscLaws] what it relies on.  A sender is a handle into the store [buffers],
    because a reservation keeps a clone of the sender it was made from. *)

From stdpp Require Import base list numbers option gmap.
From Stdlib Require Import ZArith Lia.
From S2P Require Import Prelude LibInner Channels.

(** ** Items *)
Inductive InboundItem : Type :=
| Data (data : bytes)
| ExtendedData (ext : Z) (data : bytes)
| Eof
| Close.

#[global] Instance InboundItem_eq_dec : EqDecision InboundItem.
Proof. solve_decision. Defined.

Definition byte_len (i : InboundItem) : Z :=
  match i with
  | Data data => zlen data
  | ExtendedData _ data => zlen data
  | Eof | Close => 0
  end.

(** [to_msg] and [into_msg]. *)
Definition to_msg (i : InboundItem) : ChannelMsg :=
  match i with
  | Data data => ChannelMsg.Data data
  | ExtendedData ext data => ChannelMsg.ExtendedData data ext
  | Eof => ChannelMsg.Eof
  | Close => ChannelMsg.Close
  end.

Definition grants_window (i : InboundItem) : bool :=
  match i with Data _ | ExtendedData _ _ => true | Eof | Close => false end.

(** [DeferredCallback] has the constructors of [InboundItem] and [capture]
    maps each to its namesake. *)
Abbreviation DeferredCallback := InboundItem (only parsing).
Definition capture (i : InboundItem) : DeferredCallback :=
  match i with
  | Data d => Data d
  | ExtendedData ext d => ExtendedData ext d
  | Eof => Eof
  | Close => Close
  end.

Definition is_eof (i : InboundItem) : bool := match i with Eof => true | _ => false end.
Definition is_close (i : InboundItem) : bool := match i with Close => true | _ => false end.

(** ** The queue of a backpressured channel *)
Record InboundQueue : Type := mkInboundQueue {
  queue : list InboundItem;
  pending_bytes : Z;
  generation : Z;          (* u64 *)
  reserving : bool;
  eof_queued : bool;
  close_queued : bool;
}.

Definition InboundQueue_default : InboundQueue := mkInboundQueue [] 0 0 false false false.

Inductive InboundDelivery : Type := Delivered | Queued | Overflow | ChannelGone.

#[global] Instance InboundDelivery_eq_dec : EqDecision InboundDelivery.
Proof. solve_decision. Defined.

(** ** Application buffers *)
Inductive send_result : Type := SendOk | SendFull | SendClosed.

Class Mpsc : Type := {
  chan : Type;
  try_send : chan -> ChannelMsg -> chan * send_result;
  (** [OwnedPermit::send] *)
  permit_send : chan -> ChannelMsg -> chan;
  is_closed : chan -> bool;
  (** the messages accepted so far; not an operation of the code *)
  accepted : chan -> list ChannelMsg;
}.

Class MpscLaws (Q : Mpsc) : Prop := {
  try_send_ok (c c' : chan) m : try_send c m = (c', SendOk) ->
    accepted c' = accepted c ++ [m] /\ is_closed c' = is_closed c;
  try_send_full (c c' : chan) m : try_send c m = (c', SendFull) -> c' = c;
  try_send_closed (c c' : chan) m : try_send c m = (c', SendClosed) -> c' = c /\ is_closed c = true;
  permit_send_accepted (c : chan) m : accepted (permit_send c m) = accepted c ++ [m];
  permit_send_closed (c : chan) m : is_closed (permit_send c m) = is_closed c;
}.

Section Inbound.
Context {Q : Mpsc}.

(** A channel's [ChannelRef], as a handle of its sender. *)
Abbreviation sender := Z (only parsing).

(** A [reserve_owned()] future in flight: channel, generation, and the sender
    it was made from. *)
Abbreviation reserve := (Z * Z * sender)%type (only parsing).

(** The session's maps that the functions of the module work on, and the store
    of buffers the senders point to. *)
Record Inbox : Type := mkInbox {
  channels : gmap Z sender;
  buffers : gmap Z chan;
  inbound : gmap Z InboundQueue;
  needs_reserve : list Z;
}.

Definition set_buffers (v : gmap Z chan) (s : Inbox) : Inbox :=
  mkInbox s.(channels) v s.(inbound) s.(needs_reserve).
Definition set_inbound (v : gmap Z InboundQueue) (s : Inbox) : Inbox :=
  mkInbox s.(channels) s.(buffers) v s.(needs_reserve).
Definition put_queue (id : Z) (q : InboundQueue) (s : Inbox) : Inbox :=
  set_inbound (<[id := q]> s.(inbound)) s.
Definition push_needs (id : Z) (s : Inbox) : Inbox :=
  mkInbox s.(channels) s.(buffers) s.(inbound) (s.(needs_reserve) ++ [id]).

(** [q.pending_bytes], the two flags and [q.queue.push_back(item)]. *)
Definition enqueue (item : InboundItem) (reserving' : bool) (q : InboundQueue) : InboundQueue :=
  mkInboundQueue (q.(queue) ++ [item])
    (saturating_add q.(pending_bytes) (byte_len item)) q.(generation) reserving'
    (q.(eof_queued) || is_eof item) (q.(close_queued) || is_close item).

(** The early return for a payload item without payload. *)
Definition empty_payload (item : InboundItem) : bool :=
  match item with
  | Data data => beq data []
  | ExtendedData _ data => beq data []
  | Eof | Close => false
  end.

Definition backpressured (q : InboundQueue) : bool :=
  negb (match q.(queue) with [] => true | _ => false end) || q.(reserving).

(** A repeated [Eof] or [Close]. *)
Definition repeated (item : InboundItem) (q : InboundQueue) : bool :=
  (is_eof item && q.(eof_queued)) || (is_close item && q.(close_queued)).

(** [try_send] on the sender of a handle. *)
Definition send_to (s : sender) (m : ChannelMsg) (x : Inbox) : send_result * Inbox :=
  match x.(buffers) !! s with
  | Some c => let '(c', r) := try_send c m in (r, set_buffers (<[s := c']> x.(buffers)) x)
  | None => (SendClosed, x)
  end.

(** The part of [deliver_inbound] that first tries the application buffer. *)
Definition deliver_fast (cap id : Z) (item : InboundItem) (x : Inbox) : InboundDelivery * Inbox :=
  match x.(channels) !! id with
  | None => (ChannelGone, x)
  | Some s =>
      match send_to s (to_msg item) x with
      | (SendOk, x') => (Delivered, x')
      | (SendFull, x') =>
          let q := default InboundQueue_default (x'.(inbound) !! id) in
          if cap <? saturating_add q.(pending_bytes) (byte_len item) then (Overflow, x')
          else (Queued, push_needs id (put_queue id (enqueue item true q) x'))
      | (SendClosed, x') => (ChannelGone, x')
      end
  end.

Definition deliver_inbound (cap id : Z) (item : InboundItem) (x : Inbox) : InboundDelivery * Inbox :=
  if empty_payload item then (Delivered, x)
  else
    match x.(inbound) !! id with
    | Some q =>
        if backpressured q then
          if repeated item q then (Queued, x)
          else if cap <? saturating_add q.(pending_bytes) (byte_len item) then (Overflow, x)
          else
            let x' := put_queue id (enqueue item true q) x in
            (Queued, if negb q.(reserving) then push_needs id x' else x')
        else deliver_fast cap id item x
    | None => deliver_fast cap id item x
    end.

(** [q.generation.wrapping_add(1)] on an entry that is then removed. *)
Definition teardown_inbound (id : Z) (x : Inbox) : Inbox :=
  set_inbound (delete id (alter (fun q =>
    mkInboundQueue q.(queue) q.(pending_bytes) ((q.(generation) + 1) mod 18446744073709551616)
      q.(reserving) q.(eof_queued) q.(close_queued)) id x.(inbound))) x.

(** One channel of [drain_needs_reserve]'s loop. *)
Definition drain_one (id : Z) (x : Inbox) (reserves : list reserve) : Inbox * list reserve :=
  match x.(inbound) !! id with
  | Some q =>
      if q.(reserving) && negb (match q.(queue) with [] => true | _ => false end) then
        match x.(channels) !! id with
        | Some s => (x, reserves ++ [(id, q.(generation), s)])
        | None => (teardown_inbound id x, reserves)
        end
      else (x, reserves)
  | None => (x, reserves)
  end.

Fixpoint drain_loop (ids : list Z) (x : Inbox) (reserves : list reserve) : Inbox * list reserve :=
  match ids with
  | [] => (x, reserves)
  | id :: ids' => let '(x', reserves') := drain_one id x reserves in drain_loop ids' x' reserves'
  end.

(** [for id in std::mem::take(needs_reserve)]. *)
Definition drain_needs_reserve (x : Inbox) (reserves : list reserve) : Inbox * list reserve :=
  drain_loop x.(needs_reserve) (mkInbox x.(channels) x.(buffers) x.(inbound) []) reserves.

(** ** The invariant of the queues *)

Definition total_bytes (l : list InboundItem) : Z := foldr (fun i acc => byte_len i + acc) 0 l.

Lemma total_bytes_app a b : total_bytes (a ++ b) = total_bytes a + total_bytes b.
Proof. unfold total_bytes. induction a; cbn; lia. Qed.

Lemma byte_len_nonneg i : 0 <= byte_len i.
Proof. destruct i; cbn; try apply zlen_nonneg; lia. Qed.

Lemma total_bytes_nonneg l : 0 <= total_bytes l.
Proof.
  unfold total_bytes. induction l as [|i l IH]; cbn [foldr]; [lia|]. pose proof (byte_len_nonneg i). lia.
Qed.

(** [queue_ok cap q]: the byte count is exact and within the cap, no item is an
    empty payload, at most one end-of-file and one close are queued and the flags
    know of them, and exactly the queues with items have a reservation. *)
Record queue_ok (cap : Z) (q : InboundQueue) : Prop := {
  qok_bytes : q.(pending_bytes) = total_bytes q.(queue);
  qok_cap : q.(pending_bytes) <= cap;
  qok_payload : Forall (fun i => empty_payload i = false) q.(queue);
  qok_eof : (length (filter (fun i => i = Eof) q.(queue)) <= 1)%nat;
  qok_eof_flag : Eof ∈ q.(queue) -> q.(eof_queued) = true;
  qok_close : (length (filter (fun i => i = Close) q.(queue)) <= 1)%nat;
  qok_close_flag : Close ∈ q.(queue) -> q.(close_queued) = true;
  qok_reserving : q.(reserving) = true <-> q.(queue) <> [];
  qok_generation : q.(generation) = 0;
}.

Lemma queue_ok_default cap : 0 <= cap -> queue_ok cap InboundQueue_default.
Proof. intros. split; cbn; try done; try lia; set_solver. Qed.

Lemma filter_snoc_length (p : InboundItem) l i :
  length (filter (fun j => j = p) (l ++ [i])) =
    (length (filter (fun j => j = p) l) + if decide (i = p) then 1 else 0)%nat.
Proof. rewrite filter_app, length_app, filter_cons, filter_nil. by case_decide. Qed.

Lemma filter_zero (p : InboundItem) l : p ∉ l -> length (filter (fun j => j = p) l) = 0%nat.
Proof.
  intros Hp. destruct (filter (fun j => j = p) l) as [|x l'] eqn:E; [done|].
  exfalso. apply Hp. assert (Hx : x ∈ filter (fun j => j = p) l) by (rewrite E; set_solver).
  apply list_elem_of_filter in Hx as [-> ?]. done.
Qed.

(** Appending an item that is not a repeat and fits keeps the invariant. *)
Lemma enqueue_ok cap item q :
  cap < USIZE_MAX -> queue_ok cap q -> empty_payload item = false ->
  (item = Eof -> Eof ∉ q.(queue)) -> (item = Close -> Close ∉ q.(queue)) ->
  (cap <? saturating_add q.(pending_bytes) (byte_len item)) = false ->
  queue_ok cap (enqueue item true q).
Proof.
  intros Hcap [Hb Hc Hp He Hef Hcl Hclf Hr Hg] Hi Hie Hic Hle. apply Z.ltb_ge in Hle.
  unfold saturating_add in Hle.
  assert (Hsat : saturating_add q.(pending_bytes) (byte_len item) = q.(pending_bytes) + byte_len item)
    by (unfold saturating_add; lia).
  split; cbn [enqueue pending_bytes queue eof_queued close_queued reserving generation];
    rewrite ?Hsat; [|lia|apply Forall_app; auto|..| |done].
  - rewrite total_bytes_app. unfold total_bytes at 2. cbn [foldr]. lia.
  - rewrite filter_snoc_length. case_decide as E; [|lia]. by rewrite (filter_zero _ _ (Hie E)).
  - intros [H|H]%elem_of_app; [by rewrite Hef|]. apply list_elem_of_singleton in H as <-. by rewrite orb_true_r.
  - rewrite filter_snoc_length. case_decide as E; [|lia]. by rewrite (filter_zero _ _ (Hic E)).
  - intros [H|H]%elem_of_app; [by rewrite Hclf|]. apply list_elem_of_singleton in H as <-. by rewrite orb_true_r.
  - split; [|done]. intros _ H. by apply app_nil in H as [_ ?].
Qed.

(** The cap bounds the number of queued items too: every item but one
    end-of-file and one close carries a byte. *)
Lemma queue_ok_length cap q : queue_ok cap q -> zlen q.(queue) <= cap + 2.
Proof.
  intros [Hb Hc Hp He _ Hcl _ _ _]. rewrite Hb in Hc. clear Hb.
  assert (H : zlen q.(queue) <= total_bytes q.(queue) +
    Z.of_nat (length (filter (fun i => i = Eof) q.(queue))) +
    Z.of_nat (length (filter (fun i => i = Close) q.(queue)))); [|lia].
  clear He Hcl Hc. induction Hp as [|i l Hi Hl IH]; [done|].
  rewrite zlen_cons. unfold total_bytes. cbn [foldr]. fold (total_bytes l). rewrite !filter_cons.
  destruct i; cbn in Hi |- *; repeat case_decide; try done; cbn [length]; rewrite ?zlen_cons;
    try (apply beq_false in Hi; match goal with |- context [zlen ?d + _] =>
      destruct d; [done|]; rewrite zlen_cons; pose proof (zlen_nonneg d) end); lia.
Qed.

(** [q.queue.pop_front()] with the decrement of [pending_bytes]. *)
Definition pop_front (q : InboundQueue) : option (InboundItem * InboundQueue) :=
  match q.(queue) with
  | i :: rest =>
      Some (i, mkInboundQueue rest (saturating_sub q.(pending_bytes) (byte_len i)) q.(generation)
                 q.(reserving) q.(eof_queued) q.(close_queued))
  | [] => None
  end.

Definition set_reserving (b : bool) (q : InboundQueue) : InboundQueue :=
  mkInboundQueue q.(queue) q.(pending_bytes) q.(generation) b q.(eof_queued) q.(close_queued).

(** A queue without its reservation, as between the resolution of one and the
    request of the next. *)
Definition idle_ok (cap : Z) (q : InboundQueue) : Prop :=
  q.(reserving) = false /\
  queue_ok cap (set_reserving (match q.(queue) with [] => false | _ => true end) q).

Lemma idle_ok_resolved cap q : queue_ok cap q -> idle_ok cap (set_reserving false q).
Proof.
  intros [Hb Hc Hp He Hef Hcl Hclf Hr Hg]. split; [done|]. split; cbn; try done. by destruct q.(queue).
Qed.

Lemma idle_ok_rearm cap q : idle_ok cap q -> q.(queue) <> [] -> queue_ok cap (set_reserving true q).
Proof. intros [_ H] Hq. by destruct q.(queue). Qed.

Lemma idle_ok_queue cap q : idle_ok cap q -> q.(queue) = [] -> queue_ok cap q.
Proof. intros [Hr H] Hq. rewrite Hq in H. unfold set_reserving in H. rewrite <- Hr in H. by destruct q. Qed.

Lemma pop_front_ok cap q i q' :
  idle_ok cap q -> pop_front q = Some (i, q') ->
  idle_ok cap q' /\ q.(queue) = i :: q'.(queue) /\ q'.(generation) = q.(generation) /\
  total_bytes q.(queue) = byte_len i + total_bytes q'.(queue).
Proof.
  intros [Hres [Hb Hc Hp He Hef Hcl Hclf Hr Hg]] H. unfold pop_front in H.
  cbn [set_reserving queue pending_bytes reserving eof_queued close_queued generation] in *.
  destruct q.(queue) as [|x rest] eqn:E; simplify_eq. rewrite Hb in *.
  assert (Hsub : saturating_sub (total_bytes (i :: rest)) (byte_len i) = total_bytes rest).
  { unfold saturating_sub, total_bytes. cbn [foldr]. fold (total_bytes rest).
    pose proof (total_bytes_nonneg rest). lia. }
  assert (Hle : total_bytes rest <= total_bytes (i :: rest)).
  { unfold total_bytes. cbn [foldr]. pose proof (byte_len_nonneg i). lia. }
  rewrite !filter_cons in *. apply Forall_cons_iff in Hp as [_ Hp].
  split; [|done]. split; [done|].
  split; cbn [queue pending_bytes reserving eof_queued close_queued generation set_reserving];
    rewrite ?Hsub; try done; try lia.
  - repeat case_decide; cbn in *; lia.
  - intros H. apply Hef. set_solver.
  - repeat case_decide; cbn in *; lia.
  - intros H. apply Hclf. set_solver.
  - by destruct rest.
Qed.

(** ** The invariant of the delivery state

    [inbox_ok cap x reserves]: senders are not shared between channels; every
    queue is well formed and belongs to a registered channel; a queue that holds
    items has a reservation in flight or about to be made ([needs_reserve]), so no
    item waits forever; and a reservation whose generation is still current was
    made from the channel's present sender. *)
Record inbox_ok (cap : Z) (x : Inbox) (reserves : list reserve) : Prop := {
  ib_senders : forall id s, x.(channels) !! id = Some s -> is_Some (x.(buffers) !! s);
  ib_inj : forall id1 id2 s,
    x.(channels) !! id1 = Some s -> x.(channels) !! id2 = Some s -> id1 = id2;
  ib_queues : forall id q, x.(inbound) !! id = Some q ->
    queue_ok cap q /\ is_Some (x.(channels) !! id) /\
    (q.(reserving) = true -> id ∈ x.(needs_reserve) \/ exists g s, (id, g, s) ∈ reserves /\ g = q.(generation));
  ib_reserves : forall id g s, (id, g, s) ∈ reserves ->
    g = 0 /\ (is_Some (x.(channels) !! id) -> x.(channels) !! id = Some s);
}.

(** The items queued for a channel. *)
Definition queue_of (id : Z) (x : Inbox) : list InboundItem :=
  match x.(inbound) !! id with Some q => q.(queue) | None => [] end.

(** The session also sends notices to the buffers ([WindowAdjusted] and the
    replies to requests); the inbound stream is the rest. *)
Definition inbound_msg (m : ChannelMsg) : bool :=
  match m with
  | ChannelMsg.Data _ | ChannelMsg.ExtendedData _ _ | ChannelMsg.Eof | ChannelMsg.Close => true
  | _ => false
  end.

Definition stream (c : chan) : list ChannelMsg := List.filter inbound_msg (accepted c).

(** [holds x id c l]: the buffer of channel [id] is [c], and [l] is the inbound
    stream it accepted followed by what is queued for it. *)
Definition holds (x : Inbox) (id : Z) (c : chan) (l : list ChannelMsg) : Prop :=
  exists s, x.(channels) !! id = Some s /\ x.(buffers) !! s = Some c /\
    l = stream c ++ map to_msg (queue_of id x).

(** The items that [deliver_inbound] ignores: empty payloads and repeats. *)
Definition dropped (id : Z) (item : InboundItem) (x : Inbox) : bool :=
  empty_payload item ||
  match x.(inbound) !! id with
  | Some q => backpressured q && repeated item q
  | None => false
  end.

Definition taken (id : Z) (item : InboundItem) (x : Inbox) (r : InboundDelivery) : list InboundItem :=
  match r with
  | Delivered | Queued => if dropped id item x then [] else [item]
  | Overflow | ChannelGone => []
  end.

(** A channel keeps its stream, extended by [new], and whether its receiver is
    there. *)
Definition extends (x x' : Inbox) (id : Z) (new : list InboundItem) : Prop :=
  forall c l, holds x id c l ->
    exists c', holds x' id c' (l ++ map to_msg new) /\ is_closed c' = is_closed c.

Lemma extends_refl x id : extends x x id [].
Proof. intros c l H. exists c. by rewrite app_nil_r. Qed.

Lemma extends_trans x y z id a b : extends x y id a -> extends y z id b -> extends x z id (a ++ b).
Proof.
  intros H1 H2 c l H. apply H1 in H as (c1 & H & E1). apply H2 in H as (c2 & H & E2).
  exists c2. rewrite map_app, app_assoc. split; [done|congruence].
Qed.

(** A change that leaves the channels, and the buffer and queue of [id]. *)
Lemma extends_same x x' id :
  x'.(channels) = x.(channels) -> queue_of id x' = queue_of id x ->
  (forall s, x.(channels) !! id = Some s -> x'.(buffers) !! s = x.(buffers) !! s) ->
  extends x x' id [].
Proof.
  intros Hc Hq Hb c l (s & Hs & Hbs & ->). exists c. split; [|done]. exists s.
  rewrite Hc, Hq, Hb, app_nil_r; done.
Qed.

Context {HQ : MpscLaws Q}.

Lemma extends_enqueue x id q item q' :
  x.(inbound) !! id = Some q \/ (x.(inbound) !! id = None /\ q.(queue) = []) ->
  q'.(queue) = q.(queue) ++ [item] ->
  forall id', extends x (put_queue id q' x) id' (if decide (id' = id) then [item] else []).
Proof.
  intros Hq Hq' id'. case_decide as E; [subst id'|].
  - intros c l (s & Hs & Hb & ->). exists c. split; [|done]. exists s. split; [done|]. split; [done|].
    unfold queue_of. cbn [inbound put_queue set_inbound]. rewrite lookup_insert_eq, Hq'.
    rewrite <- app_assoc, <- map_app. destruct Hq as [->|[-> ->]]; done.
  - apply extends_same; [done| |done]. unfold queue_of. cbn [inbound put_queue set_inbound].
    by rewrite lookup_insert_ne.
Qed.

Lemma put_queue_ok cap x reserves id q q' ids :
  inbox_ok cap x reserves -> queue_ok cap q' -> is_Some (x.(channels) !! id) ->
  x.(inbound) !! id = Some q \/ x.(inbound) !! id = None ->
  (id ∈ x.(needs_reserve) ++ ids \/ exists g s, (id, g, s) ∈ reserves /\ g = q'.(generation)) ->
  inbox_ok cap (mkInbox x.(channels) x.(buffers) (<[id := q']> x.(inbound)) (x.(needs_reserve) ++ ids))
    reserves.
Proof.
  intros [Hs Hi Hq Hr] Hq' Hid Hold Hwake. split; cbn; try done.
  intros i qi. destruct (decide (i = id)) as [->|Hne].
  - rewrite lookup_insert_eq. intros [= <-]. split; [done|]. split; [done|]. intros _. done.
  - rewrite lookup_insert_ne by done. intros H. destruct (Hq i qi H) as (H1 & H2 & H3).
    split; [done|]. split; [done|]. intros H4. destruct (H3 H4) as [H5|H5]; [left; set_solver|by right].
Qed.

Lemma set_buffer_ok cap x reserves s c :
  inbox_ok cap x reserves -> inbox_ok cap (set_buffers (<[s := c]> x.(buffers)) x) reserves.
Proof.
  intros [Hs Hi Hq Hr]. split; cbn; try done. intros id s' H. rewrite lookup_insert.
  case_decide; [done|eauto].
Qed.

(** What [deliver_inbound] does, on every path. *)
Record delivers (cap id : Z) (item : InboundItem) (x : Inbox) (r : InboundDelivery) (x' : Inbox)
    (reserves : list reserve) : Prop := {
  dv_ok : inbox_ok cap x' reserves;
  dv_channels : x'.(channels) = x.(channels);
  dv_stream : forall id', extends x x' id' (if decide (id' = id) then taken id item x r else []);
  dv_gone : r = ChannelGone -> forall c l, holds x id c l -> is_closed c = true;
  dv_queue : forall id', queue_of id' x' =
    queue_of id' x ++ (if decide (id' = id /\ r = Queued) then taken id item x r else []);
  dv_fast : r = Delivered -> dropped id item x = false -> queue_of id x = [];
  dv_dropped : r = Delivered -> dropped id item x = true -> empty_payload item = true;
  dv_other : forall id', id' <> id -> x'.(inbound) !! id' = x.(inbound) !! id';
  dv_overflow : r = Overflow -> x' = x /\ cap < total_bytes (queue_of id x) + byte_len item;
}.

Lemma not_backpressured_queue q : backpressured q = false -> q.(queue) = [].
Proof. unfold backpressured. by destruct q.(queue). Qed.

Lemma overflow_bytes cap q item :
  cap < USIZE_MAX -> queue_ok cap q -> (cap <? saturating_add q.(pending_bytes) (byte_len item)) = true ->
  cap < total_bytes q.(queue) + byte_len item.
Proof. intros Hc [Hb _ _ _ _ _ _ _ _] H. apply Z.ltb_lt in H. unfold saturating_add in H. lia. Qed.

Lemma inbound_to_msg item : inbound_msg (to_msg item) = true.
Proof. by destruct item. Qed.

Lemma set_same_buffer x s c : x.(buffers) !! s = Some c -> set_buffers (<[s := c]> x.(buffers)) x = x.
Proof. intros H. unfold set_buffers. rewrite insert_id by done. by destruct x. Qed.

Lemma send_to_spec cap x reserves id s m :
  inbox_ok cap x reserves -> x.(channels) !! id = Some s -> inbound_msg m = true ->
  match send_to s m x with
  | (SendOk, x') =>
      inbox_ok cap x' reserves /\ x'.(channels) = x.(channels) /\ x'.(inbound) = x.(inbound) /\
      x'.(needs_reserve) = x.(needs_reserve) /\
      (forall id', id' <> id -> extends x x' id' []) /\
      forall c l, holds x id c l -> queue_of id x = [] ->
        exists c', holds x' id c' (l ++ [m]) /\ is_closed c' = is_closed c
  | (SendFull, x') => x' = x
  | (SendClosed, x') => x' = x /\ forall c l, holds x id c l -> is_closed c = true
  end.
Proof.
  intros Hok Hs Hm. unfold send_to. destruct (ib_senders _ _ _ Hok _ _ Hs) as [c0 Hc0]. rewrite Hc0.
  destruct (try_send c0 m) as [c' []] eqn:E.
  - apply try_send_ok in E as [Ea Ec]. split; [by apply set_buffer_ok|]. cbn. repeat (split; [done|]).
    split.
    + intros id' Hne. apply extends_same; [done..|]. cbn. intros s' Hs'. rewrite lookup_insert_ne; [done|].
      intros ->. by destruct Hne; apply (ib_inj _ _ _ Hok _ _ s').
    + intros c l (s1 & H1 & H2 & ->) Hq. simplify_eq. exists c'. split; [|done]. exists s.
      cbn. rewrite lookup_insert_eq. split; [done|]. split; [done|].
      unfold queue_of in *. cbn. rewrite Hq. cbn. unfold stream.
      rewrite Ea, List.filter_app, !app_nil_r. cbn. by rewrite Hm.
  - apply try_send_full in E. subst. by apply set_same_buffer.
  - apply try_send_closed in E as [-> Hcl]. split; [by apply set_same_buffer|].
    intros c l (s1 & H1 & H2 & ->). by simplify_eq.
Qed.

Lemma taken_nil id item x r : (r = Overflow \/ r = ChannelGone) \/ dropped id item x = true ->
  taken id item x r = [].
Proof. intros [[-> | ->]|H]; [done..|]. unfold taken. rewrite H. by destruct r. Qed.

(** The branches that change nothing. *)
Lemma delivers_same cap id item x r reserves :
  inbox_ok cap x reserves -> taken id item x r = [] ->
  (r = Delivered -> empty_payload item = true) ->
  (r = ChannelGone -> forall c l, holds x id c l -> is_closed c = true) ->
  (r = Overflow -> cap < total_bytes (queue_of id x) + byte_len item) ->
  delivers cap id item x r x reserves.
Proof.
  intros Hok Ht Hq Hg Ho. split; [done|done| |done| | |by auto|done|by auto].
  - intros id'. rewrite Ht. case_decide; apply extends_refl.
  - intros id'. rewrite Ht. case_decide; by rewrite app_nil_r.
  - intros Hr Hd. unfold dropped in Hd. by rewrite (Hq Hr) in Hd.
Qed.

Lemma queue_of_empty id x :
  match x.(inbound) !! id with Some q => backpressured q = false | None => True end ->
  queue_of id x = [].
Proof. unfold queue_of. destruct (x.(inbound) !! id); [apply not_backpressured_queue|done]. Qed.

(** Queueing an item. *)
Lemma delivers_queued cap id item x reserves s q ids :
  cap < USIZE_MAX -> inbox_ok cap x reserves -> dropped id item x = false ->
  x.(channels) !! id = Some s -> queue_ok cap q ->
  x.(inbound) !! id = Some q \/ (x.(inbound) !! id = None /\ q.(queue) = []) ->
  (item = Eof -> Eof ∉ q.(queue)) -> (item = Close -> Close ∉ q.(queue)) ->
  (cap <? saturating_add q.(pending_bytes) (byte_len item)) = false ->
  (id ∈ x.(needs_reserve) ++ ids \/ exists g s, (id, g, s) ∈ reserves /\ g = q.(generation)) ->
  delivers cap id item x Queued
    (mkInbox x.(channels) x.(buffers) (<[id := enqueue item true q]> x.(inbound))
       (x.(needs_reserve) ++ ids)) reserves.
Proof.
  intros Hcap Hok Hd Hs Hq Hold He Hc Hle Hw.
  assert (Hep : empty_payload item = false) by (unfold dropped in Hd; by destruct (empty_payload item)).
  assert (Hqo : queue_of id x = q.(queue)).
  { unfold queue_of. destruct Hold as [->|[-> ->]]; done. }
  split.
  - apply put_queue_ok with q;
      [done|by apply enqueue_ok|by rewrite Hs|destruct Hold as [|[? _]]; auto|done].
  - done.
  - intros id'. pose proof (extends_enqueue x id q item (enqueue item true q) Hold eq_refl id') as Hext.
    unfold taken. rewrite Hd. intros c l Hl. destruct (Hext c l Hl) as (c' & Hl' & Hcl). by exists c'.
  - done.
  - intros id'. unfold queue_of at 1. cbn [inbound]. destruct (decide (id' = id)) as [->|Hne].
    + rewrite lookup_insert_eq, decide_True by done. unfold taken. by rewrite Hd, Hqo.
    + rewrite lookup_insert_ne by done. rewrite decide_False by tauto. by rewrite app_nil_r.
  - done.
  - done.
  - intros id' Hne. cbn. by rewrite lookup_insert_ne.
  - done.
Qed.

Lemma deliver_fast_spec cap id item x reserves :
  0 <= cap < USIZE_MAX -> inbox_ok cap x reserves -> empty_payload item = false ->
  match x.(inbound) !! id with Some q => backpressured q = false | None => True end ->
  let '(r, x') := deliver_fast cap id item x in delivers cap id item x r x' reserves.
Proof.
  intros Hcap Hok Hep Hbp.
  assert (Hd : dropped id item x = false).
  { unfold dropped. rewrite Hep. destruct (x.(inbound) !! id); [by rewrite Hbp|done]. }
  pose proof (queue_of_empty id x Hbp) as Hempty. unfold deliver_fast.
  destruct (x.(channels) !! id) as [s|] eqn:Hs.
  2: { apply delivers_same; try done.
       intros _ c l (s & Hs' & _). by rewrite Hs in Hs'. }
  pose proof (send_to_spec cap x reserves id s (to_msg item) Hok Hs (inbound_to_msg item)) as Hsend.
  destruct (send_to s (to_msg item) x) as [[] x1].
  - destruct Hsend as (Hok1 & Hc1 & Hi1 & Hn1 & Hother & Hthis). split; [done|done| |done| |done|by rewrite Hd| |done].
    + intros id'. case_decide as E; [subst id'|by apply Hother].
      intros c l Hl. unfold taken. rewrite Hd. cbn. by apply Hthis.
    + intros id'. unfold queue_of. rewrite Hi1. rewrite decide_False by (intros [_ ?]; done).
      by rewrite app_nil_r.
    + intros id' _. by rewrite Hi1.
  - subst x1. set (q := default InboundQueue_default (x.(inbound) !! id)).
    assert (Hold : x.(inbound) !! id = Some q \/ (x.(inbound) !! id = None /\ q.(queue) = [])).
    { unfold q. destruct (x.(inbound) !! id); [by left|by right]. }
    assert (Hqe : q.(queue) = []).
    { unfold queue_of in Hempty. destruct Hold as [H|[_ H]]; [by rewrite H in Hempty|done]. }
    assert (Hq : queue_ok cap q).
    { destruct Hold as [H|[H _]]; [by apply (ib_queues _ _ _ Hok _ _ H)|].
      unfold q. rewrite H. apply queue_ok_default. lia. }
    destruct (cap <? _) eqn:Hle.
    + apply delivers_same; try done. intros _. rewrite Hempty, <- Hqe.
      by apply (overflow_bytes cap); [lia|..].
    + unfold push_needs, put_queue, set_inbound. cbn [channels buffers inbound needs_reserve].
      eapply delivers_queued; try done; try lia; rewrite ?Hqe; intros; set_solver.
  - destruct Hsend as [-> Hcl]. by apply delivers_same.
Qed.

(** The functional behaviour of [deliver_inbound]. *)
Lemma deliver_inbound_spec cap id item x reserves :
  0 <= cap < USIZE_MAX -> inbox_ok cap x reserves ->
  let '(r, x') := deliver_inbound cap id item x in delivers cap id item x r x' reserves.
Proof.
  intros Hcap Hok. unfold deliver_inbound. destruct (empty_payload item) eqn:Hep.
  { apply delivers_same; try done. apply taken_nil. right. unfold dropped. by rewrite Hep. }
  destruct (x.(inbound) !! id) as [q|] eqn:Hq; [|apply deliver_fast_spec; try done; by rewrite Hq].
  destruct (backpressured q) eqn:Hbp; [|apply deliver_fast_spec; try done; by rewrite Hq].
  assert (Hqo : queue_of id x = q.(queue)) by (unfold queue_of; by rewrite Hq).
  destruct (ib_queues _ _ _ Hok _ _ Hq) as (Hqok & [s Hs] & Hwake).
  destruct (repeated item q) eqn:Hrep.
  { assert (dropped id item x = true) by (unfold dropped; by rewrite Hq, Hbp, Hrep, orb_true_r).
    apply delivers_same; try done. apply taken_nil. by right. }
  assert (Hd : dropped id item x = false) by (unfold dropped; by rewrite Hep, Hq, Hbp, Hrep).
  destruct (cap <? _) eqn:Hle.
  { apply delivers_same; try done. intros _. rewrite Hqo. by apply (overflow_bytes cap); [lia|..]. }
  unfold repeated in Hrep. apply orb_false_iff in Hrep as [Hre Hrc].
  assert (He : item = Eof -> Eof ∉ q.(queue)).
  { intros -> Hin. by rewrite (qok_eof_flag _ _ Hqok Hin) in Hre. }
  assert (Hc : item = Close -> Close ∉ q.(queue)).
  { intros -> Hin. by rewrite (qok_close_flag _ _ Hqok Hin) in Hrc. }
  destruct q.(reserving) eqn:Hr; cbn [negb].
  - unfold put_queue, set_inbound. rewrite <- (app_nil_r x.(needs_reserve)).
    eapply delivers_queued; try done; try lia; try (by left). rewrite app_nil_r. by apply Hwake.
  - exfalso. unfold backpressured in Hbp. rewrite Hr, orb_false_r in Hbp.
    destruct q.(queue) eqn:E; [done|]. pose proof (proj2 (qok_reserving _ _ Hqok)) as H.
    rewrite E, Hr in H. by specialize (H ltac:(done)).
Qed.

(** ** Making the reservations *)

Lemma drain_loop_spec cap ch bu inb ids : forall R,
  inbox_ok cap (mkInbox ch bu inb ids) R ->
  exists R', drain_loop ids (mkInbox ch bu inb []) R = (mkInbox ch bu inb [], R') /\
    inbox_ok cap (mkInbox ch bu inb []) R'.
Proof.
  induction ids as [|id ids IH]; intros R Hok; [by exists R|].
  cbn [drain_loop]. unfold drain_one. cbn [inbound channels].
  destruct Hok as [Hs Hi Hq Hr]. cbn in Hs, Hi, Hq, Hr.
  destruct (inb !! id) as [q|] eqn:Eq.
  - destruct (Hq id q Eq) as (Hqok & [s Hid] & Hwake).
    destruct q.(reserving) eqn:Er; cbn [andb].
    + destruct q.(queue) as [|i l] eqn:El; [|].
      { pose proof (proj1 (qok_reserving _ _ Hqok) Er). by rewrite El in H. }
      cbn [negb]. rewrite Hid. apply IH. split; cbn; try done.
      * intros i' q' Hq'. destruct (Hq i' q' Hq') as (H1 & H2 & H3). split; [done|]. split; [done|].
        intros H4. destruct (decide (i' = id)) as [->|Hne].
        { assert (q' = q) as -> by congruence. right. exists q.(generation), s. split; [set_solver|done]. }
        destruct (H3 H4) as [H5|(g & s' & H5 & ->)]; [left; set_solver|right].
        eexists _, s'. split; [|done]. set_solver.
      * intros i' g s' [H|H]%elem_of_app; [eauto|]. apply list_elem_of_singleton in H as [= -> -> ->].
        split; [by apply (qok_generation _ _ Hqok)|done].
    + apply IH. split; cbn; try done. intros i' q' Hq'. destruct (Hq i' q' Hq') as (H1 & H2 & H3).
      split; [done|]. split; [done|]. intros H4. destruct (H3 H4) as [H5|H5]; [left|by right].
      apply elem_of_cons in H5 as [->|]; [|done]. assert (q' = q) by congruence. congruence.
  - apply IH. split; cbn; try done. intros i' q' Hq'. destruct (Hq i' q' Hq') as (H1 & H2 & H3).
    split; [done|]. split; [done|]. intros H4. destruct (H3 H4) as [H5|H5]; [left|by right].
    apply elem_of_cons in H5 as [->|]; [congruence|done].
Qed.

(** [drain_needs_reserve] leaves the delivery state as it was but for the list
    it takes; its branch for a channel that is gone is never reached. *)
Lemma drain_needs_reserve_spec cap x R :
  inbox_ok cap x R ->
  exists R', drain_needs_reserve x R = (mkInbox x.(channels) x.(buffers) x.(inbound) [], R') /\
    inbox_ok cap (mkInbox x.(channels) x.(buffers) x.(inbound) []) R'.
Proof. intros Hok. unfold drain_needs_reserve. apply drain_loop_spec. by destruct x. Qed.

(** ** Removing queues and channels *)

(** [shrinks x x']: the buffers are those of [x], and every channel is either
    untouched or gone with its queue. *)
Definition shrinks (x x' : Inbox) : Prop :=
  x'.(buffers) = x.(buffers) /\ x'.(needs_reserve) = x.(needs_reserve) /\
  forall id, (x'.(channels) !! id = x.(channels) !! id /\ x'.(inbound) !! id = x.(inbound) !! id) \/
             (x'.(channels) !! id = None /\ x'.(inbound) !! id = None).

Lemma shrinks_ok cap x x' R : shrinks x x' -> inbox_ok cap x R -> inbox_ok cap x' R.
Proof.
  intros (Hb & Hn & Hsh) [Hs Hi Hq Hr].
  assert (Hc : forall id s, x'.(channels) !! id = Some s -> x.(channels) !! id = Some s).
  { intros id s H. destruct (Hsh id) as [[E _]|[E _]]; congruence. }
  split.
  - intros id s H. rewrite Hb. eauto.
  - intros id1 id2 s H1 H2. eauto.
  - intros id q H. rewrite Hn. destruct (Hsh id) as [[E1 E2]|[_ E]]; [|congruence].
    rewrite E1. rewrite E2 in H. auto.
  - intros id g s H. destruct (Hr id g s H) as [Hg Hid]. split; [done|].
    destruct (Hsh id) as [[-> _]|[-> _]]; [done|]. by intros [? ?].
Qed.

Lemma shrinks_refl x : shrinks x x.
Proof. split; [done|]. split; [done|]. auto. Qed.

Lemma shrinks_trans x y z : shrinks x y -> shrinks y z -> shrinks x z.
Proof.
  intros (Hb & Hn & H) (Hb' & Hn' & H'). split; [congruence|]. split; [congruence|]. intros id.
  destruct (H' id) as [[-> ->]|]; auto.
Qed.

(** A channel that is still registered kept its stream. *)
Lemma shrinks_holds x x' id c l : shrinks x x' -> holds x' id c l -> holds x id c l.
Proof.
  intros (Hb & Hn & H) (s & Hs & Hbs & ->). destruct (H id) as [[E1 E2]|[E1 _]]; [|congruence].
  exists s. rewrite <- E1, <- Hb. split; [done|]. split; [done|]. unfold queue_of. by rewrite E2.
Qed.

Definition forget_channel (id : Z) (x : Inbox) : Inbox :=
  mkInbox (delete id x.(channels)) x.(buffers) x.(inbound) x.(needs_reserve).

Lemma teardown_inbound_eq id x : teardown_inbound id x = set_inbound (delete id x.(inbound)) x.
Proof. unfold teardown_inbound. by rewrite delete_alter_eq. Qed.

Lemma teardown_forget_shrinks id x : shrinks x (forget_channel id (teardown_inbound id x)).
Proof.
  rewrite teardown_inbound_eq. split; [done|]. split; [done|]. intros i. cbn.
  destruct (decide (i = id)) as [->|]; [right; by rewrite !lookup_delete_eq|left].
  by rewrite !lookup_delete_ne.
Qed.

Lemma teardown_ok cap id x R : inbox_ok cap x R -> inbox_ok cap (teardown_inbound id x) R.
Proof.
  rewrite teardown_inbound_eq. intros [Hs Hi Hq Hr]. split; cbn; try done.
  intros i q H. apply Hq. destruct (decide (i = id)) as [->|]; [by rewrite lookup_delete_eq in H|].
  by rewrite lookup_delete_ne in H.
Qed.

(** ** A new channel *)
Definition open_channel (id s : Z) (c : chan) (x : Inbox) : Inbox :=
  mkInbox (<[id := s]> x.(channels)) (<[s := c]> x.(buffers)) x.(inbound) x.(needs_reserve).

Lemma open_channel_ok cap x R id s c :
  inbox_ok cap x R -> x.(channels) !! id = None -> x.(buffers) !! s = None ->
  (forall g s', (id, g, s') ∉ R) -> inbox_ok cap (open_channel id s c x) R.
Proof.
  intros [Hs Hi Hq Hr] Hid Hsn Hres.
  assert (Hnew : forall i s', x.(channels) !! i = Some s' -> s' <> s).
  { intros i s' H ->. destruct (Hs _ _ H) as [? E]. congruence. }
  split; cbn.
  - intros i s'. rewrite !lookup_insert. case_decide; [intros [= ->]; by rewrite decide_True|].
    intros HA. case_decide; [done|eauto].
  - intros i1 i2 s'. rewrite !lookup_insert. repeat case_decide; intros HA HB; simplify_eq; try done; try eauto.
    + by destruct (Hnew _ _ HB).
    + by destruct (Hnew _ _ HA).
  - intros i q H. destruct (Hq i q H) as (H1 & H2 & H3). split; [done|]. split; [|done].
    rewrite lookup_insert. by case_decide.
  - intros i g s' H. destruct (Hr i g s' H) as [Hg Hch]. split; [done|]. rewrite lookup_insert.
    case_decide as E; [subst i; by destruct (Hres g s')|done].
Qed.
End Inbound.

(** ** A concrete buffer: a bounded queue *)
Module Bounded.
Record bounded : Type := mkBounded {
  room : Z; closed : bool; waiting : list ChannelMsg; history : list ChannelMsg
}.

Definition put (c : bounded) (m : ChannelMsg) : bounded :=
  mkBounded c.(room) c.(closed) (c.(waiting) ++ [m]) (c.(history) ++ [m]).

#[export] Instance mpsc : Mpsc := {|
  chan := bounded;
  try_send c m :=
    if c.(closed) then (c, SendClosed)
    else if c.(room) <=? zlen c.(waiting) then (c, SendFull)
    else (put c m, SendOk);
  permit_send := put;
  is_closed := closed;
  accepted := history;
|}.

#[export] Instance mpsc_laws : MpscLaws mpsc.
Proof.
  split; cbn; try done; intros c c' m; destruct c.(closed) eqn:?; try (by intros [= <-]);
    destruct (_ <=? _); intros; by simplify_eq.
Qed.
End Bounded.
