(* ===== verification/Session.v ===== *)
(** * Channel multiplexing ([russh/src/session.rs])

    [Encrypted] holds the channels of a session and the staging buffer [write]
    of length-prefixed payloads.  This file models every operation that sends on
    channels: staging and direct transmission of data under the peer's window,
    queueing, end-of-file and close, window grants, flushing into the packet
    writer, and the allocation of channel numbers.

    The packet writer is used through the interface [PacketSink], which
    [PacketWriter] implements (file [SessionWriter]). *)

From stdpp Require Import base list numbers option gmap.
From Stdlib Require Import ZArith Lia.
From S2P Require Import Prelude Encoding LibInner Msg Cipher.

(** ** The packet writer, as the session sees it *)
Class PacketSink (W : Type) : Type := {
  sink_packet_raw : bytes -> st W Error.error unit;
  sink_write_packet : writer Error.error -> st W Error.error unit;
  sink_bytes : W -> Z;   (* [writer.buffer().bytes] *)
}.

(** A writer that records the payloads. *)
Definition packet_log : PacketSink (list bytes) := {|
  sink_packet_raw p w := (Ok tt, w ++ [p]);
  sink_write_packet f w :=
    match f [] with
    | (Ok tt, p) => (Ok tt, w ++ [p])
    | (Err e, _) => (Err e, w)
    | (Panic, _) => (Panic, w)
    end;
  sink_bytes w := zlen (concat w);
|}.

(** ** State *)
Record Encrypted : Type := mkEncrypted {
  channels : gmap Z ChannelParams;
  last_channel_id : Z;          (* Wrapping<u32> *)
  enc_write : bytes;            (* field [write] *)
  write_cursor : Z;
  last_rekey : Z;               (* an instant *)
  rekey_wanted : bool;
  kex_skip_exchange : bool;     (* [kex.skip_exchange()] *)
}.

Definition set_channels (v : gmap Z ChannelParams) (e : Encrypted) : Encrypted :=
  mkEncrypted v e.(last_channel_id) e.(enc_write) e.(write_cursor) e.(last_rekey)
    e.(rekey_wanted) e.(kex_skip_exchange).
Definition set_last_channel_id (v : Z) (e : Encrypted) : Encrypted :=
  mkEncrypted e.(channels) v e.(enc_write) e.(write_cursor) e.(last_rekey)
    e.(rekey_wanted) e.(kex_skip_exchange).
Definition set_write (v : bytes) (cursor : Z) (e : Encrypted) : Encrypted :=
  mkEncrypted e.(channels) e.(last_channel_id) v cursor e.(last_rekey)
    e.(rekey_wanted) e.(kex_skip_exchange).
Definition set_rekey_wanted (v : bool) (e : Encrypted) : Encrypted :=
  mkEncrypted e.(channels) e.(last_channel_id) e.(enc_write) e.(write_cursor) e.(last_rekey)
    v e.(kex_skip_exchange).

Abbreviation EM A := (st Encrypted Error.error A).

(** Appending to [self.write]. *)
Definition on_write (m : writer Error.error) : EM unit := fun e =>
  let '(r, w) := m e.(enc_write) in (r, set_write w e.(write_cursor) e).

(** [self.channels.get_mut(&channel)] followed by an assignment. *)
Definition put_channel (c : Z) (ch : ChannelParams) (e : Encrypted) : Encrypted :=
  set_channels (<[c := ch]> e.(channels)) e.

Inductive ChannelFlushResult : Type :=
| Incomplete (wrote : Z)
| Complete (wrote : Z) (pending_eof pending_close : bool).

Definition wrote (r : ChannelFlushResult) : Z :=
  match r with Incomplete w => w | Complete w _ _ => w end.

Definition complete (n : Z) (channel : ChannelParams) : ChannelFlushResult * ChannelParams :=
  let '((eof, close), channel') := take_pending_controls channel in
  (Complete n eof close, channel').

Section Session.
Context `{SshEncoding}.

(** ** Control messages *)

Definition byte_body (recipient_channel m : Z) : writer Error.error :=
  push_byte m ;;; enc_w (encode_u32 recipient_channel).

Definition byte (channel m : Z) : EM unit := fun e =>
  match e.(channels) !! channel with
  | Some ch => on_write (push_packet (byte_body ch.(recipient_channel) m)) e
  | None => (Ok tt, e)
  end.

(** [has_pending_data_mut]. *)
Definition has_pending_data_mut (channel : Z) (e : Encrypted) : option ChannelParams :=
  match e.(channels) !! channel with
  | Some ch => match ch.(pending_data) with [] => None | _ => Some ch end
  | None => None
  end.

Definition has_pending_data (channel : Z) (e : Encrypted) : bool :=
  match e.(channels) !! channel with
  | Some ch => match ch.(pending_data) with [] => false | _ => true end
  | None => false
  end.

Definition pending_data_bytes (channel : Z) (e : Encrypted) : Z :=
  match e.(channels) !! channel with
  | Some ch =>
      foldr (fun '(buf, _, from) acc => saturating_sub (zlen (buf : bytes)) from + acc) 0
        ch.(pending_data)
  | None => 0
  end.

Definition channel_exists (channel : Z) (e : Encrypted) : bool :=
  bool_decide (is_Some (e.(channels) !! channel)).

Definition eof (channel : Z) : EM unit := fun e =>
  match has_pending_data_mut channel e with
  | Some ch => (Ok tt, put_channel channel (set_pending_controls true ch.(pending_close) ch) e)
  | None => byte channel msg.CHANNEL_EOF e
  end.

Definition remove_channel (channel : Z) : EM unit :=
  st_mod (fun e => set_channels (delete channel e.(channels)) e).

Definition close (channel : Z) : EM unit := fun e =>
  match has_pending_data_mut channel e with
  | Some ch => (Ok tt, put_channel channel (set_pending_controls ch.(pending_eof) true ch) e)
  | None => (byte channel msg.CHANNEL_CLOSE ;;; remove_channel channel) e
  end.

Definition close_discarding_pending (channel : Z) : EM unit := fun e =>
  let e1 :=
    match e.(channels) !! channel with
    | Some c => put_channel channel (set_pending_controls false false (set_pending_data [] c)) e
    | None => e
    end in
  (byte channel msg.CHANNEL_CLOSE ;;; remove_channel channel) e1.

(** ** The receive window *)

Definition get_sender_window_size (channel : Z) (e : Encrypted) : Z :=
  match e.(channels) !! channel with Some ch => ch.(sender_window_size) | None => 0 end.

Definition consume_recv_window (channel len : Z) (e : Encrypted) : Encrypted :=
  match e.(channels) !! channel with
  | Some ch =>
      if to_u32 len <=? ch.(sender_window_size)
      then put_channel channel (set_sender_window_size (ch.(sender_window_size) - to_u32 len) ch) e
      else e
  | None => e
  end.

(** The [CHANNEL_WINDOW_ADJUST] handlers of both sides
    ([channel.recipient_window_size.saturating_add(amount)]). *)
Definition window_adjust (channel amount : Z) (e : Encrypted) : Encrypted :=
  match e.(channels) !! channel with
  | Some ch =>
      put_channel channel
        (set_recipient_window_size (Z.min (ch.(recipient_window_size) + amount) U32_MAX) ch) e
  | None => e
  end.

Definition maybe_grant_recv_window (channel target undelivered : Z) : EM bool := fun e =>
  let ceiling := saturating_sub target undelivered in
  match e.(channels) !! channel with
  | Some ch =>
      if ch.(sender_window_size) <? ceiling / 2 then
        match on_write (push_packet (push_byte msg.CHANNEL_WINDOW_ADJUST ;;;
                                     enc_w (encode_u32 ch.(recipient_channel)) ;;;
                                     enc_w (encode_u32 (ceiling - ch.(sender_window_size))))) e with
        | (Ok tt, e') => (Ok true, put_channel channel (set_sender_window_size ceiling ch) e')
        | (Err x, e') => (Err x, e')
        | (Panic, e') => (Panic, e')
        end
      else (Ok false, e)
  | None => (Ok false, e)
  end.

(** ** Sending data *)

(** The body of one [CHANNEL_DATA] or [CHANNEL_EXTENDED_DATA] message. *)
Definition data_body (channel : ChannelParams) (a : option Z) (chunk : bytes) : writer Error.error :=
  match a with
  | None =>
      push_byte msg.CHANNEL_DATA ;;;
      enc_w (encode_u32 channel.(recipient_channel)) ;;;
      enc_w (encode_bytes chunk)
  | Some ext =>
      push_byte msg.CHANNEL_EXTENDED_DATA ;;;
      enc_w (encode_u32 channel.(recipient_channel)) ;;;
      enc_w (encode_u32 ext) ;;;
      enc_w (encode_bytes chunk)
  end.

(** [while !buf.is_empty()]: one message per iteration; [emit] stages it or
    writes it out.  The buffer shrinks, so its length is fuel enough. *)
Fixpoint data_loop {S} (emit : writer Error.error -> st S Error.error unit) (a : option Z)
    (max_packet_size : Z) (fuel : nat) (buf : bytes) (s : S) (channel : ChannelParams)
  : res Error.error unit * (S * ChannelParams) :=
  match buf, fuel with
  | [], _ => (Ok tt, (s, channel))
  | _, O => (Panic, (s, channel))
  | _, Datatypes.S fuel' =>
      let off := Z.min (zlen buf) max_packet_size in
      match emit (data_body channel a (ztake off buf)) s with
      | (Ok tt, s') =>
          data_loop emit a max_packet_size fuel' (zdrop off buf) s'
            (set_recipient_window_size (channel.(recipient_window_size) - to_u32 off) channel)
      | (Err e, s') => (Err e, (s', channel))
      | (Panic, s') => (Panic, (s', channel))
      end
  end.

(** [data_noqueue] and [data_noqueue_direct] differ in [emit] only (and in
    how much capacity they reserve). *)
Definition send_window {S} (emit : writer Error.error -> st S Error.error unit) (s : S)
    (channel : ChannelParams) (buf0 : bytes) (a : option Z) (from : Z)
  : res Error.error Z * (S * ChannelParams) :=
  if zlen buf0 <=? from then (Ok 0, (s, channel)) else
  let window_end := default USIZE_MAX (checked_add from channel.(recipient_window_size)) in
  let end_ := Z.min (zlen buf0) window_end in
  let buf := ztake (end_ - from) (zdrop from buf0) in
  let buf_len := zlen buf in
  let max_packet_size := channel.(recipient_maximum_packet_size) in
  if max_packet_size =? 0 then (Err Error.Inconsistent, (s, channel)) else
  match data_loop emit a max_packet_size (length buf) buf s channel with
  | (Ok tt, r) => (Ok buf_len, r)
  | (Err e, r) => (Err e, r)
  | (Panic, r) => (Panic, r)
  end.

Definition data_noqueue (write : bytes) (channel : ChannelParams) (buf0 : bytes) (a : option Z)
    (from : Z) : res Error.error Z * (bytes * ChannelParams) :=
  send_window push_packet write channel buf0 a from.

(** [flush_channel]: the queue shrinks or its head advances to the end of the
    window. *)
Definition set_queue (q : list pending_item) (r : bytes * ChannelParams) : bytes * ChannelParams :=
  (r.1, set_pending_data q r.2).

Fixpoint flush_channel_loop (write : bytes) (channel : ChannelParams) (queue : list pending_item)
    (pending_size : Z) : res Error.error ChannelFlushResult * (bytes * ChannelParams) :=
  match queue with
  | [] =>
      let '(r, channel') := complete pending_size (set_pending_data [] channel) in
      (Ok r, (write, channel'))
  | (buf, a, from) :: queue' =>
      match data_noqueue write channel buf a from with
      | (Ok size, (write', channel')) =>
          if from + size <? zlen (buf : bytes)
          then (Ok (Incomplete (pending_size + size)),
                (write', set_pending_data ((buf, a, from + size) :: queue') channel'))
          else flush_channel_loop write' channel' queue' (pending_size + size)
      | (Err e, r) => (Err e, set_queue queue' r)
      | (Panic, r) => (Panic, set_queue queue' r)
      end
  end.

Definition flush_channel (write : bytes) (channel : ChannelParams)
  : res Error.error ChannelFlushResult * (bytes * ChannelParams) :=
  flush_channel_loop write channel channel.(pending_data) 0.

Definition handle_flushed_channel (channel : Z) (flush_result : ChannelFlushResult) : EM unit :=
  match flush_result with
  | Complete _ pending_eof pending_close =>
      (if pending_eof then eof channel else st_ret tt) ;;;
      (if pending_close then close channel else st_ret tt)
  | Incomplete _ => st_ret tt
  end.

Definition flush_pending (channel : Z) : EM Z := fun e =>
  match e.(channels) !! channel with
  | None => (Ok 0, e)
  | Some ch =>
      let '(r, (w, ch')) := flush_channel e.(enc_write) ch in
      let e' := put_channel channel ch' (set_write w e.(write_cursor) e) in
      match r with
      | Ok flush_result =>
          (handle_flushed_channel channel flush_result ;;; st_ret (wrote flush_result)) e'
      | Err x => (Err x, e')
      | Panic => (Panic, e')
      end
  end.

(** [channels.keys()]: in the map's order. *)
Fixpoint flush_pending_list (ids : list Z) : EM unit :=
  match ids with
  | [] => st_ret tt
  | id :: ids' => flush_pending id ;;; flush_pending_list ids'
  end.

Definition flush_all_pending : EM unit := fun e =>
  flush_pending_list (map fst (map_to_list e.(channels))) e.

(** [data] and [extended_data]: [a] is the extended stream, if any. *)
Definition data_ext (channel : Z) (a : option Z) (buf0 : bytes) (is_rekeying : bool) : EM unit := fun e =>
  match e.(channels) !! channel with
  | None => (Ok tt, e)
  | Some ch =>
      if negb ch.(confirmed) then (Err Error.WrongChannel, e)
      else if negb (bool_decide (ch.(pending_data) = [])) || is_rekeying then
        (Ok tt, put_channel channel (set_pending_data (ch.(pending_data) ++ [(buf0, a, 0)]) ch) e)
      else
        let '(r, (w, ch')) := data_noqueue e.(enc_write) ch buf0 a 0 in
        let e' := set_write w e.(write_cursor) e in
        match r with
        | Ok buf_len =>
            let ch'' :=
              if buf_len <? zlen buf0
              then set_pending_data (ch'.(pending_data) ++ [(buf0, a, buf_len)]) ch'
              else ch' in
            (Ok tt, put_channel channel ch'' e')
        | Err x => (Err x, put_channel channel ch' e')
        | Panic => (Panic, put_channel channel ch' e')
        end
  end.

Definition data (channel : Z) (buf0 : bytes) (is_rekeying : bool) : EM unit :=
  data_ext channel None buf0 is_rekeying.
Definition extended_data (channel ext : Z) (buf0 : bytes) (is_rekeying : bool) : EM unit :=
  data_ext channel (Some ext) buf0 is_rekeying.

(** ** Through the packet writer *)
Section Direct.
Context {W : Type} `{PacketSink W}.

Abbreviation WM A := (st (W * Encrypted) Error.error A).

Definition data_noqueue_direct (w : W) (channel : ChannelParams) (buf0 : bytes) (a : option Z)
    (from : Z) : res Error.error Z * (W * ChannelParams) :=
  send_window sink_write_packet w channel buf0 a from.

(** Straight to the writer when nothing is staged, behind the staged packets
    otherwise. *)
Definition data_any (w : W) (write : bytes) (channel : ChannelParams) (buf0 : bytes)
    (a : option Z) (from : Z) : res Error.error Z * (W * bytes * ChannelParams) :=
  match write with
  | [] =>
      let '(r, (w', ch)) := data_noqueue_direct w channel buf0 a from in (r, (w', write, ch))
  | _ =>
      let '(r, (write', ch)) := data_noqueue write channel buf0 a from in (r, (w, write', ch))
  end.

Fixpoint flush_channel_with_writer_loop (w : W) (write : bytes) (channel : ChannelParams)
    (queue : list pending_item) (pending_size : Z)
  : res Error.error ChannelFlushResult * (W * bytes * ChannelParams) :=
  match queue with
  | [] =>
      let '(r, channel') := complete pending_size (set_pending_data [] channel) in
      (Ok r, (w, write, channel'))
  | (buf, a, from) :: queue' =>
      match data_any w write channel buf a from with
      | (Ok size, (w', write', channel')) =>
          if from + size <? zlen (buf : bytes)
          then (Ok (Incomplete (pending_size + size)),
                (w', write', set_pending_data ((buf, a, from + size) :: queue') channel'))
          else flush_channel_with_writer_loop w' write' channel' queue' (pending_size + size)
      | (Err e, (w', write', channel')) => (Err e, (w', write', set_pending_data queue' channel'))
      | (Panic, (w', write', channel')) => (Panic, (w', write', set_pending_data queue' channel'))
      end
  end.

Definition on_enc {A} (m : EM A) : WM A := fun '(w, e) =>
  let '(r, e') := m e in (r, (w, e')).

Definition flush_pending_with_writer (channel : Z) : WM Z := fun '(w, e) =>
  match e.(channels) !! channel with
  | None => (Ok 0, (w, e))
  | Some ch =>
      let '(r, (w', write', ch')) :=
        flush_channel_with_writer_loop w e.(enc_write) ch ch.(pending_data) 0 in
      let e' := put_channel channel ch' (set_write write' e.(write_cursor) e) in
      match r with
      | Ok flush_result =>
          on_enc (handle_flushed_channel channel flush_result ;;; st_ret (wrote flush_result)) (w', e')
      | Err x => (Err x, (w', e'))
      | Panic => (Panic, (w', e'))
      end
  end.

Fixpoint flush_pending_list_with_writer (ids : list Z) : WM unit :=
  match ids with
  | [] => st_ret tt
  | id :: ids' => flush_pending_with_writer id ;;; flush_pending_list_with_writer ids'
  end.

Definition flush_all_pending_with_writer : WM unit := fun '(w, e) =>
  flush_pending_list_with_writer (map fst (map_to_list e.(channels))) (w, e).

Definition data_with_writer (channel : Z) (a : option Z) (buf0 : bytes) (is_rekeying : bool)
  : WM unit := fun '(w, e) =>
  match e.(channels) !! channel with
  | None => (Ok tt, (w, e))
  | Some ch =>
      if negb ch.(confirmed) then (Err Error.WrongChannel, (w, e))
      else if negb (bool_decide (ch.(pending_data) = [])) || is_rekeying then
        (Ok tt, (w, put_channel channel (set_pending_data (ch.(pending_data) ++ [(buf0, a, 0)]) ch) e))
      else
        let '(r, (w', write', ch')) := data_any w e.(enc_write) ch buf0 a 0 in
        let e' := set_write write' e.(write_cursor) e in
        match r with
        | Ok buf_len =>
            let ch'' :=
              if buf_len <? zlen buf0
              then set_pending_data (ch'.(pending_data) ++ [(buf0, a, buf_len)]) ch'
              else ch' in
            (Ok tt, (w', put_channel channel ch'' e'))
        | Err x => (Err x, (w', put_channel channel ch' e'))
        | Panic => (Panic, (w', put_channel channel ch' e'))
        end
  end.

(** *** [flush]: from the staging buffer to the writer *)
Fixpoint flush_loop (fuel : nat) (w : W) (e : Encrypted) : res Error.error unit * (W * Encrypted) :=
  if e.(write_cursor) <? zlen e.(enc_write) then
    match fuel with
    | O => (Panic, (w, e))
    | Datatypes.S fuel' =>
        match read_u32 (zdrop e.(write_cursor) e.(enc_write)) with
        | None => (Panic, (w, e))
        | Some len =>
            let start := e.(write_cursor) + 4 in
            if zlen e.(enc_write) <? start + len then (Panic, (w, e)) else
            let to_write := ztake len (zdrop start e.(enc_write)) in
            match sink_packet_raw to_write w with
            | (Ok tt, w') =>
                flush_loop fuel' w' (set_write e.(enc_write) (e.(write_cursor) + (4 + len)) e)
            | (Err x, w') => (Err x, (w', e))
            | (Panic, w') => (Panic, (w', e))
            end
        end
    end
  else (Ok tt, (w, e)).

(** Returns whether to start a key re-exchange; [now] is the clock. *)
Definition flush (limits : Limits) (now : Z) : WM bool := fun '(w, e) =>
  match flush_loop (length e.(enc_write)) w e with
  | (Ok tt, (w', e1)) =>
      let e2 := if zlen e1.(enc_write) <=? e1.(write_cursor) then set_write [] 0 e1 else e1 in
      if e2.(kex_skip_exchange) then (Ok false, (w', e2)) else
      let dur := saturating_sub now e2.(last_rekey) in
      (Ok (e2.(rekey_wanted) || (limits.(rekey_write_limit) <=? sink_bytes w')
           || (limits.(rekey_time_limit) <=? dur)),
       (w', set_rekey_wanted false e2))
  | (Err x, r) => (Err x, r)
  | (Panic, r) => (Panic, r)
  end.
End Direct.

(** ** Channel numbers *)
Fixpoint next_free_id (fuel : nat) (id : Z) (chans : gmap Z ChannelParams) : option Z :=
  match chans !! id with
  | None => Some id
  | Some _ =>
      match fuel with
      | O => None
      | Datatypes.S fuel' => next_free_id fuel' (wrapping_add32 id 1) chans
      end
  end.

(** The loop visits the ids after [last_channel_id] in order; it meets a free
    one after at most as many steps as there are channels. *)
Definition new_channel_id : EM Z := fun e =>
  match next_free_id (size e.(channels)) (wrapping_add32 e.(last_channel_id) 1) e.(channels) with
  | Some id => (Ok id, set_last_channel_id id e)
  | None => (Panic, e)
  end.

Definition fresh_channel (id window_size maxpacket : Z) : ChannelParams :=
  mkChannelParams 0 id 0 window_size 0 maxpacket false false [] false false.

Definition new_channel (window_size maxpacket : Z) : EM Z := fun e =>
  match next_free_id (size e.(channels)) (wrapping_add32 e.(last_channel_id) 1) e.(channels) with
  | Some id =>
      (Ok id, put_channel id (fresh_channel id window_size maxpacket) (set_last_channel_id id e))
  | None => (Panic, e)
  end.
End Session.
