(* ===== verification/Kex.v ===== *)
(** * The key exchange ([russh/src/client/kex.rs], [russh/src/server/kex.rs])

    [ClientKex] and [ServerKex] are state machines that consume one packet at a
    time and end with new keys.  Host keys and signatures ([ssh_key]) and the
    table of algorithms ([KEXES]) are parameters; packets go to a [PacketSink]. *)

From stdpp Require Import base list numbers option strings.
From Stdlib Require Import ZArith Lia.
From S2P Require Import Prelude Encoding LibInner Msg Parsing NameList Session.
From S2P Require Import Negotiation KexKeys Dh.

(** ** Host keys, from [ssh_key] *)
Class HostKeys {SKY : SshKeys} : Type := {
  PublicKey : Type;
  Signature : Type;
  (** [key.public_key().to_bytes()] *)
  public_key_bytes : PrivateKey -> Result bytes;
  (** [sign_with_hash_alg] with the hash of the negotiated algorithm *)
  sign_with_hash_alg : PrivateKey -> Algorithm -> bytes -> Result bytes;
  parse_public_key : bytes -> Result PublicKey;
  (** [PublicKey::to_bytes] *)
  to_bytes : PublicKey -> Result bytes;
  (** [Signature::decode] *)
  decode_signature : bytes -> Result (Signature * bytes);
  (** [signature::Verifier::verify(..).is_ok()] *)
  verify : PublicKey -> bytes -> Signature -> bool;
  (** [Mpint::decode] and [as_bytes] *)
  decode_mpint : bytes -> Result (bytes * bytes);
}.

Record IncomingSshPacket : Type := mkPacket { pkt_buffer : bytes; pkt_seqn : Z }.

(** [input.buffer.first() == Some(&tag)]. *)
Definition first_is (buffer : bytes) (tag : Z) : bool := bool_decide (head buffer = Some tag).

Section Kex.
Context {enc : SshEncoding} {SKY : SshKeys} {HKS : HostKeys}.
Context {K SK OK : Type} {KA : KexAlgorithmImplementor K SK OK}.
(** [KEXES.get(name).map(make)]. *)
Context (KEXES : bytes -> option K).
Context {W : Type} {HW : PacketSink W}.

Record NewKeys : Type := mkNewKeys {
  nk_exchange : Exchange;
  nk_names : Names;
  nk_kex : K;
  nk_key : Z;
  nk_cipher : CipherPair SK OK;
  nk_session_id : bytes;
}.

(** [KexProgress]; [T] is the state machine. *)
Inductive KexProgress (T : Type) : Type :=
| NeedsReply (kex : T) (reset_seqn : bool)
| Done (server_host_key : option PublicKey) (newkeys : NewKeys).
Arguments NeedsReply {T}.
Arguments Done {T}.

Definition client_compute_keys (hash : bytes) (kex : K) (names : Names) (exchange : Exchange)
    (session_id : option bytes) : Result NewKeys :=
  let session_id_ref := default hash session_id in
  let? c := kex_compute_keys kex session_id_ref hash names.(n_cipher) names.(server_mac)
    names.(client_mac) false in
  Ok (mkNewKeys exchange names kex 0 c (default hash session_id)).

Definition server_compute_keys (hash : bytes) (kex : K) (names : Names) (exchange : Exchange)
    (session_id : option bytes) : Result NewKeys :=
  let session_id_ref := default hash session_id in
  let? c := kex_compute_keys kex session_id_ref hash names.(n_cipher) names.(client_mac)
    names.(server_mac) true in
  Ok (mkNewKeys exchange names kex 0 c (default hash session_id)).

(** The packet number of the first KEXINIT; [seqn] counts it already. *)
Definition check_strict_kex (names : Names) (cause : KexCause) (seqn : Z) : Result unit :=
  if names.(strict_kex) && negb (is_rekey cause) && negb (seqn =? 1) then
    if seqn =? 0 then Panic else Err (strict_kex_violation msg.KEXINIT (seqn - 1))
  else Ok tt.

Definition newkeys_packet : writer Error.error := enc_w (encode_u8 msg.NEWKEYS).

(** [PacketWriter::packet_bytes]. *)
Definition sink_packet_bytes (f : writer Error.error) : st W Error.error bytes := fun w =>
  match f [] with
  | (Ok tt, packet) =>
      match sink_packet_raw packet w with
      | (Ok tt, w') => (Ok packet, w')
      | (Err e, w') => (Err e, w')
      | (Panic, w') => (Panic, w')
      end
  | (Err e, _) => (Err e, w)
  | (Panic, _) => (Panic, w)
  end.

(** [x.encode(&mut vec)] on an empty vector. *)
Definition encoded (b : bytes) : Result bytes :=
  match enc_w (encode_bytes b) [] with
  | (Ok _, v) => Ok v
  | (Err e, _) => Err e
  | (Panic, _) => Panic
  end.

(** ** Client *)
Record ClientConfig : Type := mkClientConfig { c_preferred : Preferred; c_gex : GexParams }.

Inductive ClientKexState : Type :=
| CCreated
| WaitingForGexReply (names : Names) (kex : K)
| WaitingForDhReply (names : Names) (kex : K)
| CWaitingForNewKeys (server_host_key : PublicKey) (newkeys : NewKeys).

Record ClientKex : Type := mkClientKex {
  c_exchange : Exchange;
  c_cause : KexCause;
  c_state : ClientKexState;
  c_config : ClientConfig;
}.

Definition ClientKex_new (config : ClientConfig) (client_sshid server_sshid : bytes) (cause : KexCause)
  : ClientKex :=
  mkClientKex (Exchange_new client_sshid server_sshid) cause CCreated config.

Definition client_kexinit (cookie : bytes) (c : ClientKex) : st W Error.error ClientKex :=
  do payload <- sink_packet_bytes (kexinit cookie c.(c_config).(c_preferred) None) ;;
  st_ret (mkClientKex (set_client_kex_init payload c.(c_exchange)) c.(c_cause) c.(c_state) c.(c_config)).

Definition client_created (rnd : Z) (input : IncomingSshPacket) (c : ClientKex)
  : st W Error.error (KexProgress ClientKex) :=
  if negb (first_is input.(pkt_buffer) msg.KEXINIT) then st_err Error.KexInit
  else
    let exchange := set_server_kex_init input.(pkt_buffer) c.(c_exchange) in
    do names <- st_lift (read_kex Client input.(pkt_buffer) c.(c_config).(c_preferred) None c.(c_cause)) ;;
    do _ <- st_lift (check_strict_kex names c.(c_cause) input.(pkt_seqn)) ;;
    do kex <- st_lift (ok_or (KEXES names.(n_kex)) Error.UnknownAlgo) ;;
    if skip_exchange kex then
      do newkeys <- st_lift (client_compute_keys [] kex names exchange (session_id c.(c_cause))) ;;
      sink_write_packet newkeys_packet ;;;
      st_ret (Done None newkeys)
    else if is_dh_gex kex then
      sink_write_packet (client_dh_gex_init kex c.(c_config).(c_gex)) ;;;
      st_ret (NeedsReply (mkClientKex exchange c.(c_cause) (WaitingForGexReply names kex) c.(c_config)) false)
    else
      do (kex, eph, w) <- st_lift (client_dh rnd kex) ;;
      sink_write_packet w ;;;
      st_ret (NeedsReply (mkClientKex (set_client_ephemeral eph exchange) c.(c_cause)
        (WaitingForDhReply names kex) c.(c_config)) false).

Definition client_gex_reply (rnd : Z) (input : IncomingSshPacket) (names : Names) (kex : K) (c : ClientKex)
  : st W Error.error (KexProgress ClientKex) :=
  if negb (first_is input.(pkt_buffer) msg.KEX_DH_GEX_GROUP) then st_err Error.KexInit
  else
    do (prime, r) <- st_lift (decode_mpint (zdrop 1 input.(pkt_buffer))) ;;
    do (generator, r) <- st_lift (decode_mpint r) ;;
    do _ <- st_lift (ensure_end r) ;;
    let group := mkDhGroup prime generator in
    if (bit_size group <? c.(c_config).(c_gex).(min_group_size)) ||
       (c.(c_config).(c_gex).(max_group_size) <? bit_size group) then st_err Error.KexInit
    else
      let exchange := set_gex (c.(c_config).(c_gex), group) c.(c_exchange) in
      do kex <- st_lift (dh_gex_set_group group kex) ;;
      do (kex, eph, w) <- st_lift (client_dh rnd kex) ;;
      sink_write_packet w ;;;
      st_ret (NeedsReply (mkClientKex (set_client_ephemeral eph exchange) c.(c_cause)
        (WaitingForDhReply names kex) c.(c_config)) false).

Definition set_ignore_guessed (b : bool) (n : Names) : Names :=
  mkNames n.(n_kex) n.(n_key) n.(n_cipher) n.(client_mac) n.(server_mac) n.(server_compression)
    n.(client_compression) b n.(strict_kex).

Definition client_dh_reply (input : IncomingSshPacket) (names : Names) (kex : K) (c : ClientKex)
  : st W Error.error (KexProgress ClientKex) :=
  if names.(ignore_guessed) then
    st_ret (NeedsReply (mkClientKex c.(c_exchange) c.(c_cause)
      (WaitingForDhReply (set_ignore_guessed false names) kex) c.(c_config)) false)
  else if negb (first_is input.(pkt_buffer)
      (if is_dh_gex kex then msg.KEX_DH_GEX_REPLY else msg.KEX_ECDH_REPLY)) then st_err Error.KexInit
  else
    do (host_key, r) <- st_lift (enc_err (decode_bytes (zdrop 1 input.(pkt_buffer)))) ;;
    do server_host_key <- st_lift (parse_public_key host_key) ;;
    do (server_ephemeral, r) <- st_lift (enc_err (decode_bytes r)) ;;
    let exchange := set_server_ephemeral
      (c.(c_exchange).(Dh.server_ephemeral) ++ server_ephemeral) c.(c_exchange) in
    do kex <- st_lift (compute_shared_secret exchange.(Dh.server_ephemeral) kex) ;;
    do pubkey <- st_lift (to_bytes server_host_key) ;;
    do pubkey_vec <- st_lift (encoded pubkey) ;;
    do hash <- st_lift (compute_exchange_hash kex pubkey_vec exchange) ;;
    do (signature, r) <- st_lift (enc_err (decode_bytes r)) ;;
    do (signature, rest) <- st_lift (decode_signature signature) ;;
    do _ <- st_lift (ensure_end rest) ;;
    do _ <- st_lift (ensure_end r) ;;
    if negb (verify server_host_key hash signature) then st_err Error.WrongServerSig
    else
      do newkeys <- st_lift (client_compute_keys hash kex names exchange (session_id c.(c_cause))) ;;
      sink_write_packet newkeys_packet ;;;
      let reset_seqn := newkeys.(nk_names).(strict_kex) || is_strict_rekey c.(c_cause) in
      st_ret (NeedsReply (mkClientKex exchange c.(c_cause) (CWaitingForNewKeys server_host_key newkeys)
        c.(c_config)) reset_seqn).

Definition client_new_keys (input : IncomingSshPacket) (server_host_key : PublicKey) (newkeys : NewKeys)
  : st W Error.error (KexProgress ClientKex) :=
  if negb (first_is input.(pkt_buffer) msg.NEWKEYS) then st_err Error.Kex
  else
    do _ <- st_lift (ensure_end (zdrop 1 input.(pkt_buffer))) ;;
    st_ret (Done (Some server_host_key) newkeys).

(** [ClientKex::step]. *)
Definition client_step (rnd : Z) (input : option IncomingSshPacket) (c : ClientKex)
  : st W Error.error (KexProgress ClientKex) :=
  match input with
  | None => st_err Error.KexInit
  | Some input =>
      match c.(c_state) with
      | CCreated => client_created rnd input c
      | WaitingForGexReply names kex => client_gex_reply rnd input names kex c
      | WaitingForDhReply names kex => client_dh_reply input names kex c
      | CWaitingForNewKeys server_host_key newkeys => client_new_keys input server_host_key newkeys
      end
  end.

(** ** Server *)
Record ServerConfig : Type := mkServerConfig { s_preferred : Preferred; s_keys : list PrivateKey }.

Inductive ServerKexState : Type :=
| SCreated
| WaitingForGexRequest (names : Names) (kex : K)
| WaitingForDhInit (names : Names) (kex : K)
| SWaitingForNewKeys (newkeys : NewKeys).

Record ServerKex : Type := mkServerKex {
  s_exchange : Exchange;
  s_cause : KexCause;
  s_state : ServerKexState;
  s_config : ServerConfig;
}.

Definition ServerKex_new (config : ServerConfig) (client_sshid server_sshid : bytes) (cause : KexCause)
  : ServerKex :=
  mkServerKex (Exchange_new client_sshid server_sshid) cause SCreated config.

Definition server_kexinit (cookie : bytes) (s : ServerKex) : st W Error.error ServerKex :=
  do payload <- sink_packet_bytes
    (kexinit cookie s.(s_config).(s_preferred) (Some s.(s_config).(s_keys))) ;;
  st_ret (mkServerKex (set_server_kex_init payload s.(s_exchange)) s.(s_cause) s.(s_state) s.(s_config)).

Definition server_created (input : IncomingSshPacket) (s : ServerKex)
  : st W Error.error (KexProgress ServerKex) :=
  if negb (first_is input.(pkt_buffer) msg.KEXINIT) then st_err Error.KexInit
  else
    let exchange := set_client_kex_init input.(pkt_buffer) s.(s_exchange) in
    do names <- st_lift (read_kex Server input.(pkt_buffer) s.(s_config).(s_preferred)
      (Some s.(s_config).(s_keys)) s.(s_cause)) ;;
    do _ <- st_lift (check_strict_kex names s.(s_cause) input.(pkt_seqn)) ;;
    do kex <- st_lift (ok_or (KEXES names.(n_kex)) Error.UnknownAlgo) ;;
    if skip_exchange kex then
      do newkeys <- st_lift (server_compute_keys [] kex names exchange (session_id s.(s_cause))) ;;
      sink_write_packet newkeys_packet ;;;
      st_ret (Done None newkeys)
    else
      st_ret (NeedsReply (mkServerKex exchange s.(s_cause)
        (if is_dh_gex kex then WaitingForGexRequest names kex else WaitingForDhInit names kex)
        s.(s_config)) false).

(** [lookup] is the handler's [lookup_dh_gex_group]. *)
Definition server_gex_request (lookup : GexParams -> Result (option DhGroup)) (input : IncomingSshPacket)
    (names : Names) (kex : K) (s : ServerKex) : st W Error.error (KexProgress ServerKex) :=
  if negb (first_is input.(pkt_buffer) msg.KEX_DH_GEX_REQUEST) then st_err Error.KexInit
  else
    do (gex_params, r) <- st_lift (GexParams_decode (zdrop 1 input.(pkt_buffer))) ;;
    do _ <- st_lift (ensure_end r) ;;
    do found <- st_lift (lookup gex_params) ;;
    match found with
    | None => st_err Error.Kex
    | Some dh_group =>
        let prime := biguint_to_mpint (from_bytes_be dh_group.(Dh.prime)) in
        let generator := biguint_to_mpint (from_bytes_be dh_group.(Dh.generator)) in
        let exchange := set_gex (gex_params, dh_group) s.(s_exchange) in
        do kex <- st_lift (dh_gex_set_group dh_group kex) ;;
        sink_write_packet (enc_w (encode_u8 msg.KEX_DH_GEX_GROUP) ;;;
          enc_w (encode_bytes prime) ;;; enc_w (encode_bytes generator)) ;;;
        st_ret (NeedsReply (mkServerKex exchange s.(s_cause) (WaitingForDhInit names kex) s.(s_config)) false)
    end.

Definition server_reply (is_gex : bool) (pubkey server_ephemeral signature : bytes) : writer Error.error :=
  enc_w (encode_u8 (if is_gex then msg.KEX_DH_GEX_REPLY else msg.KEX_ECDH_REPLY)) ;;;
  enc_w (encode_bytes pubkey) ;;;
  enc_w (encode_bytes server_ephemeral) ;;;
  enc_w (encode_bytes signature).

Definition server_dh_init (rnd : Z) (input : IncomingSshPacket) (names : Names) (kex : K) (s : ServerKex)
  : st W Error.error (KexProgress ServerKex) :=
  if names.(ignore_guessed) then
    st_ret (NeedsReply (mkServerKex s.(s_exchange) s.(s_cause)
      (WaitingForDhInit (set_ignore_guessed false names) kex) s.(s_config)) false)
  else if negb (first_is input.(pkt_buffer)
      (if is_dh_gex kex then msg.KEX_DH_GEX_INIT else msg.KEX_ECDH_INIT)) then st_err Error.KexInit
  else
    do (ephemeral, r) <- st_lift (enc_err (decode_bytes (zdrop 1 input.(pkt_buffer)))) ;;
    let exchange := set_client_ephemeral
      (s.(s_exchange).(Dh.client_ephemeral) ++ ephemeral) s.(s_exchange) in
    do _ <- st_lift (ensure_end r) ;;
    do (kex, exchange) <- st_lift (server_dh rnd input.(pkt_buffer) kex exchange) ;;
    match List.find (fun key => is_key_compatible_with_algo key names.(n_key)) s.(s_config).(s_keys) with
    | None => st_err Error.UnknownKey
    | Some key =>
        do pubkey <- st_lift (public_key_bytes key) ;;
        do pubkey_vec <- st_lift (encoded pubkey) ;;
        do hash <- st_lift (compute_exchange_hash kex pubkey_vec exchange) ;;
        do signature <- st_lift (sign_with_hash_alg key names.(n_key) hash) ;;
        sink_write_packet (server_reply (is_dh_gex kex) pubkey exchange.(Dh.server_ephemeral) signature) ;;;
        sink_write_packet newkeys_packet ;;;
        do newkeys <- st_lift (server_compute_keys hash kex names exchange (session_id s.(s_cause))) ;;
        let reset_seqn := newkeys.(nk_names).(strict_kex) || is_strict_rekey s.(s_cause) in
        st_ret (NeedsReply (mkServerKex exchange s.(s_cause) (SWaitingForNewKeys newkeys) s.(s_config))
          reset_seqn)
    end.

Definition server_new_keys (input : IncomingSshPacket) (newkeys : NewKeys)
  : st W Error.error (KexProgress ServerKex) :=
  if negb (first_is input.(pkt_buffer) msg.NEWKEYS) then st_err Error.Kex
  else
    do _ <- st_lift (ensure_end (zdrop 1 input.(pkt_buffer))) ;;
    st_ret (Done None newkeys).

(** [ServerKex::step]. *)
Definition server_step (lookup : GexParams -> Result (option DhGroup)) (rnd : Z)
    (input : option IncomingSshPacket) (s : ServerKex) : st W Error.error (KexProgress ServerKex) :=
  match input with
  | None => st_err Error.KexInit
  | Some input =>
      match s.(s_state) with
      | SCreated => server_created input s
      | WaitingForGexRequest names kex => server_gex_request lookup input names kex s
      | WaitingForDhInit names kex => server_dh_init rnd input names kex s
      | SWaitingForNewKeys newkeys => server_new_keys input newkeys
      end
  end.
End Kex.
Arguments NeedsReply {SKY HKS K SK OK T}.
Arguments Done {SKY HKS K SK OK T}.

(** ** The client only ends with keys that the server's host key signed *)
Section Authenticated.
Context {enc : SshEncoding} {SKY : SshKeys} {HKS : HostKeys}.
Context {K SK OK : Type} {KA : KexAlgorithmImplementor K SK OK}.
Context (KEXES : bytes -> option K).
Context {W : Type} {HW : PacketSink W}.
Abbreviation Client := (@ClientKex SKY HKS K SK OK).
Abbreviation Keys := (@NewKeys SKY K SK OK).

(** The states a client reaches from [start], whatever packets arrive. *)
Inductive client_reach (start : Client) : Client -> Prop :=
| client_start : client_reach start start
| client_steps c rnd input w c' reset w' :
    client_reach start c -> client_step KEXES rnd input c w = (Ok (NeedsReply c' reset), w') ->
    client_reach start c'.

(** The public values and the negotiation that a client's state rests on. *)
Definition same_ids (start : Client) (x : Exchange) : Prop :=
  x.(client_id) = start.(c_exchange).(client_id) /\
  x.(server_id) = start.(c_exchange).(server_id) /\
  x.(client_kex_init) = start.(c_exchange).(client_kex_init).

Definition negotiated (start : Client) (x : Exchange) (n : Names) : Prop :=
  exists n0, read_kex Negotiation.Client x.(server_kex_init) start.(c_config).(c_preferred) None
      start.(c_cause) = Ok n0 /\
    set_ignore_guessed false n = set_ignore_guessed false n0.

(** The server's host key verified a signature of the exchange hash, over which
    the keys were computed. *)
Definition signed (start : Client) (host : PublicKey) (nk : Keys) : Prop :=
  exists pubkey pubkey_vec hash signature,
    to_bytes host = Ok pubkey /\ encoded pubkey = Ok pubkey_vec /\
    compute_exchange_hash nk.(nk_kex) pubkey_vec nk.(nk_exchange) = Ok hash /\
    verify host hash signature = true /\
    client_compute_keys hash nk.(nk_kex) nk.(nk_names) nk.(nk_exchange) (session_id start.(c_cause)) = Ok nk.

Definition client_inv (start c : Client) : Prop :=
  c.(c_cause) = start.(c_cause) /\ c.(c_config) = start.(c_config) /\
  same_ids start c.(c_exchange) /\
  match c.(c_state) with
  | CCreated => True
  | WaitingForGexReply n _ | WaitingForDhReply n _ => negotiated start c.(c_exchange) n
  | CWaitingForNewKeys host nk =>
      signed start host nk /\ same_ids start nk.(nk_exchange) /\
      negotiated start nk.(nk_exchange) nk.(nk_names)
  end.

Lemma client_compute_keys_ok hash (kex : K) names x sid nk :
  client_compute_keys hash kex names x sid = Ok nk ->
  nk.(nk_exchange) = x /\ nk.(nk_kex) = kex /\ nk.(nk_names) = names.
Proof. unfold client_compute_keys. intros H. inv_ok H. by simplify_eq. Qed.

Lemma client_created_inv start rnd input c w c' b w' :
  client_inv start c -> client_created KEXES rnd input c w = (Ok (NeedsReply c' b), w') ->
  client_inv start c'.
Proof.
  intros (Hca & Hco & Hids & _) H. unfold client_created in H.
  destruct (negb (first_is _ _)); [discriminate H|]. inv_st H.
  destruct (skip_exchange _); [by inv_st H|].
  assert (Hneg : negotiated start (set_server_kex_init (pkt_buffer input) (c_exchange c)) a).
  { exists a. split; [by rewrite <- Hca, <- Hco|done]. }
  destruct (is_dh_gex _); inv_st H; simplify_eq; [by split_and!|].
  simplify_eq. by split_and!.
Qed.

Lemma client_gex_reply_inv start rnd input names kex c w c' b w' :
  client_inv start c -> c.(c_state) = WaitingForGexReply names kex ->
  client_gex_reply rnd input names kex c w = (Ok (NeedsReply c' b), w') -> client_inv start c'.
Proof.
  intros (Hca & Hco & Hids & Hn) Hs H. rewrite Hs in Hn. unfold client_gex_reply in H.
  destruct (negb (first_is _ _)); [discriminate H|]. inv_st H. destruct (_ || _); [discriminate H|]. inv_st H.
  simplify_eq. by split_and!.
Qed.

Lemma set_ignore_twice b b' n : set_ignore_guessed b (set_ignore_guessed b' n) = set_ignore_guessed b n.
Proof. done. Qed.

Lemma client_dh_reply_inv start input names kex c w c' b w' :
  client_inv start c -> c.(c_state) = WaitingForDhReply names kex ->
  client_dh_reply input names kex c w = (Ok (NeedsReply c' b), w') -> client_inv start c'.
Proof.
  intros (Hca & Hco & Hids & Hn) Hs H. rewrite Hs in Hn. unfold client_dh_reply in H.
  destruct (ignore_guessed names); [inv_st H; simplify_eq; by split_and!|].
  destruct (negb (first_is _ _)); [discriminate H|]. inv_st H.
  destruct (negb (verify _ _ _)) eqn:Hv; [discriminate H|]. apply negb_false_iff in Hv. inv_st H.
  simplify_eq. split_and!; [done..|]. cbn [c_state].
  destruct (client_compute_keys_ok _ _ _ _ _ _ E10) as (Hx & Hk & Hnm).
  rewrite Hca in E10. rewrite Hx, Hnm. split; [|by split_and!].
  exists a1, a2, a3, s. by rewrite Hx, Hk, Hnm.
Qed.

Lemma client_step_inv start rnd input c w c' b w' :
  client_inv start c -> client_step KEXES rnd input c w = (Ok (NeedsReply c' b), w') -> client_inv start c'.
Proof.
  intros Hi H. unfold client_step in H. destruct input as [input|]; [|discriminate H].
  destruct (c_state c) eqn:Hs.
  - by eapply client_created_inv.
  - by eapply client_gex_reply_inv.
  - by eapply client_dh_reply_inv.
  - unfold client_new_keys in H. destruct (negb _); [discriminate H|]. by inv_st H.
Qed.

Lemma client_reach_inv start c :
  start.(c_state) = CCreated -> client_reach start c -> client_inv start c.
Proof.
  intros Hs. induction 1 as [|c rnd input w c' b w' Hr IH Hstep].
  - split_and!; [done..|]. by rewrite Hs.
  - by eapply client_step_inv.
Qed.
End Authenticated.

(** Whatever the peer sends, a client's key exchange ends with new keys only
    if the server's host key verified a signature of the exchange hash over which
    the keys were computed - a hash over the client's own identification and
    KEXINIT, and over the KEXINIT from which the algorithms were negotiated - or
    if the negotiated algorithm is the one without an exchange. *)
Theorem client_authenticates {enc : SshEncoding} {SKY : SshKeys} {HKS : HostKeys} {K SK OK : Type}
    {KA : KexAlgorithmImplementor K SK OK} (KEXES : bytes -> option K) {W : Type} {HW : PacketSink W}
    start c rnd input (w w' : W) host (nk : @NewKeys SKY K SK OK) :
  start.(c_state) = CCreated -> client_reach KEXES start c ->
  client_step KEXES rnd input c w = (Ok (Done host nk), w') ->
  same_ids start nk.(nk_exchange) /\ negotiated start nk.(nk_exchange) nk.(nk_names) /\
  match host with
  | Some host => signed start host nk
  | None => skip_exchange nk.(nk_kex) = true
  end.
Proof.
  intros Hs Hr H. destruct (client_reach_inv KEXES start c Hs Hr) as (Hca & Hco & Hids & Hst).
  unfold client_step in H. destruct input as [input|]; [|discriminate H].
  destruct (c_state c) as [|n k|n k|h k].
  - unfold client_created in H. destruct (negb (first_is _ _)); [discriminate H|]. inv_st H.
    destruct (skip_exchange _) eqn:Hskip; [|by destruct (is_dh_gex _); inv_st H].
    inv_st H. simplify_eq.
    match goal with E : client_compute_keys _ _ _ _ _ = Ok _ |- _ =>
      destruct (client_compute_keys_ok _ _ _ _ _ _ E) as (-> & -> & ->) end.
    split; [done|]. split; [|done]. eexists. split; [|done]. by rewrite <- Hca, <- Hco.
  - unfold client_gex_reply in H. destruct (negb (first_is _ _)); [discriminate H|]. inv_st H.
    destruct (_ || _); [discriminate H|]. by inv_st H.
  - unfold client_dh_reply in H. destruct (ignore_guessed n); [by inv_st H|].
    destruct (negb (first_is _ _)); [discriminate H|]. inv_st H.
    destruct (negb (verify _ _ _)); [discriminate H|]. by inv_st H.
  - unfold client_new_keys in H. destruct (negb _); [discriminate H|]. inv_st H. simplify_eq.
    destruct Hst as (Hsig & Hid & Hneg). done.
Qed.
