(* ===== verification/KexRun.v ===== *)
(** * A complete key exchange

    The two state machines of [Kex] run against each other over writers that
    record their packets, with the finite-field algorithms of [Dh] as an
    instance of the contract [KexLaws]. *)

From stdpp Require Import base list numbers option strings.
From Stdlib Require Import ZArith Lia.
From S2P Require Import Prelude Encoding LibInner Msg Parsing NameList Session.
From S2P Require Import Negotiation KexKeys Dh Kex.

Lemma log_write (f : writer Error.error) p (w : list bytes) :
  appends f p -> @sink_write_packet _ packet_log f w = (Ok tt, w ++ [p]).
Proof. intros Hf. cbn. by rewrite Hf. Qed.

(** Signatures made with a host key verify under the key's public half. *)
Class HostKeysLaws {SKY : SshKeys} (HKS : HostKeys) : Prop := {
  signature_verifies key alg h pubkey signature :
    is_key_compatible_with_algo key alg = true ->
    public_key_bytes key = Ok pubkey -> sign_with_hash_alg key alg h = Ok signature ->
    zlen pubkey <= MAX_ENCODED_LEN /\ zlen signature <= MAX_ENCODED_LEN /\
    exists pk sg, parse_public_key pubkey = Ok pk /\ to_bytes pk = Ok pubkey /\
      decode_signature signature = Ok (sg, []) /\ verify pk h sg = true;
}.

Section Run.
Context {enc : SshEncoding} `{!SshEncodingLaws enc} {SKY : SshKeys} {HKS : HostKeys} `{!HostKeysLaws HKS}.
Context {K SK OK : Type} {KA : KexAlgorithmImplementor K SK OK} {sync : SK -> OK -> Prop}
  {KL : KexLaws KA sync}.
Context (KEXES : bytes -> option K) (KEXES_paired : forall n k, KEXES n = Some k ->
  skip_exchange k = false -> is_dh_gex k = false -> paired k k).
Context (lookup : GexParams -> Result (option DhGroup)).
#[local] Existing Instance packet_log.

Abbreviation Log := (list bytes).
Abbreviation Client := (@ClientKex SKY HKS K SK OK).
Abbreviation Server := (@ServerKex SKY K SK OK).

Lemma sink_packet_bytes_ok f p (w : Log) x w' :
  appends f p -> sink_packet_bytes f w = (Ok x, w') -> x = p.
Proof. intros Hf. unfold sink_packet_bytes. rewrite Hf. cbn. by intros [= <- _]. Qed.

(** *** What the steps do *)

Lemma server_created_ok input (s : Server) (v : Log) s' b v' :
  server_created KEXES input s v = (Ok (NeedsReply s' b), v') ->
  exists names kex,
    read_kex Negotiation.Server input.(pkt_buffer) s.(s_config).(s_preferred)
      (Some s.(s_config).(s_keys)) s.(s_cause) = Ok names /\
    KEXES names.(n_kex) = Some kex /\ skip_exchange kex = false /\
    s' = mkServerKex (set_client_kex_init input.(pkt_buffer) s.(s_exchange)) s.(s_cause)
      (if is_dh_gex kex then WaitingForGexRequest names kex else WaitingForDhInit names kex) s.(s_config).
Proof.
  unfold server_created. intros H. destruct (negb (first_is _ _)); [discriminate H|]. inv_st H.
  exists a, a1. destruct (KEXES (n_kex a)) as [kex|]; [|done]. simplify_eq/=.
  destruct (skip_exchange a1) eqn:Hs; inv_st H; by simplify_eq.
Qed.

Lemma client_created_ok rnd input (c : Client) (w : Log) c' b w' names kex :
  client_created KEXES rnd input c w = (Ok (NeedsReply c' b), w') ->
  c'.(c_state) = WaitingForDhReply names kex ->
  exists kex0 eph f,
    read_kex Negotiation.Client input.(pkt_buffer) c.(c_config).(c_preferred) None c.(c_cause) = Ok names /\
    KEXES names.(n_kex) = Some kex0 /\ skip_exchange kex0 = false /\ is_dh_gex kex0 = false /\
    client_dh rnd kex0 = Ok (kex, eph, f) /\ sink_write_packet f w = (Ok tt, w') /\
    c' = mkClientKex (set_client_ephemeral eph (set_server_kex_init input.(pkt_buffer) c.(c_exchange)))
      c.(c_cause) (WaitingForDhReply names kex) c.(c_config).
Proof.
  unfold client_created. intros H Hst. destruct (negb (first_is _ _)); [discriminate H|]. inv_st H.
  destruct (KEXES (n_kex a)) as [kex0|] eqn:Hk; [|done]. simplify_eq/=.
  destruct (skip_exchange a1) eqn:Hs; [by inv_st H|].
  destruct (is_dh_gex a1) eqn:Hg; inv_st H; simplify_eq/=.
  do 3 eexists. split_and!; try done. by match goal with u : unit |- _ => destruct u end.
Qed.

(** The server answers the client's ephemeral key. *)
Lemma server_dh_init_ok rnd init nsq names kex (s : Server) (v : Log) s' b v' :
  names.(ignore_guessed) = false ->
  server_dh_init rnd (mkPacket init nsq) names kex s v = (Ok (NeedsReply s' b), v') ->
  exists eph key pubkey pubkey_vec hash signature kex1 exchange nk,
    enc_err (decode_bytes (zdrop 1 init)) = Ok (eph, []) /\
    server_dh rnd init kex (set_client_ephemeral (s.(s_exchange).(client_ephemeral) ++ eph) s.(s_exchange)) =
      Ok (kex1, exchange) /\
    is_key_compatible_with_algo key names.(n_key) = true /\
    public_key_bytes key = Ok pubkey /\ encoded pubkey = Ok pubkey_vec /\
    compute_exchange_hash kex1 pubkey_vec exchange = Ok hash /\
    sign_with_hash_alg key names.(n_key) hash = Ok signature /\
    (sink_write_packet (server_reply (is_dh_gex kex1) pubkey exchange.(server_ephemeral) signature) ;;;
     sink_write_packet newkeys_packet) v = (Ok tt, v') /\
    server_compute_keys hash kex1 names exchange (session_id s.(s_cause)) = Ok nk /\
    s' = mkServerKex exchange s.(s_cause) (SWaitingForNewKeys nk) s.(s_config) /\
    b = nk.(nk_names).(strict_kex) || is_strict_rekey s.(s_cause).
Proof.
  intros Hi. unfold server_dh_init. rewrite Hi. intros H.
  destruct (negb (first_is _ _)); [discriminate H|]. inv_st H.
  destruct (List.find _ _) as [key|] eqn:Hkey; [|discriminate H]. apply find_some in Hkey as [_ Hkey].
  inv_st H. simplify_eq/=. destruct y; [|done].
  repeat match goal with u : unit |- _ => destruct u end.
  do 9 eexists. split_and!; try done. unfold st_bind. cbn.
  rewrite E6. exact E7.
Qed.

(** *** The server's reply *)

Definition prefixed (b : bytes) : bytes := be32 (zlen b) ++ b.

Definition reply_bytes (is_gex : bool) (pubkey ephemeral signature : bytes) : bytes :=
  (if is_gex then msg.KEX_DH_GEX_REPLY else msg.KEX_ECDH_REPLY) ::
  prefixed pubkey ++ prefixed ephemeral ++ prefixed signature.

Lemma decode_prefixed_bytes b r : zlen b <= MAX_ENCODED_LEN -> decode_bytes (prefixed b ++ r) = Ok (b, r).
Proof. intros Hb. unfold prefixed. rewrite <- app_assoc. by apply decode_bytes_prefixed. Qed.

Lemma encode_prefixed b : zlen b <= MAX_ENCODED_LEN -> appends (enc_w (encode_bytes b)) (prefixed b).
Proof.
  intros Hb. apply appends_map_err, encode_bytes_appends. unfold MAX_ENCODED_LEN, U32_MOD in *. lia.
Qed.

Lemma server_reply_appends is_gex pubkey ephemeral signature :
  zlen pubkey <= MAX_ENCODED_LEN -> zlen ephemeral <= MAX_ENCODED_LEN ->
  zlen signature <= MAX_ENCODED_LEN ->
  appends (server_reply is_gex pubkey ephemeral signature) (reply_bytes is_gex pubkey ephemeral signature).
Proof.
  intros H1 H2 H3. apply (appends_bind _ _ [_]).
  { apply appends_map_err, encode_u8_appends. by destruct is_gex. }
  repeat (apply appends_bind; [by apply encode_prefixed|]). by apply encode_prefixed.
Qed.

Lemma newkeys_appends : appends newkeys_packet [msg.NEWKEYS].
Proof. by apply appends_map_err, encode_u8_appends. Qed.

Lemma client_dh_reply_run names kex (c : Client) (w : Log) is_gex pubkey ephemeral signature n
    pk kex2 vec hash sg nk :
  names.(ignore_guessed) = false -> is_dh_gex kex = is_gex ->
  zlen pubkey <= MAX_ENCODED_LEN -> zlen ephemeral <= MAX_ENCODED_LEN ->
  zlen signature <= MAX_ENCODED_LEN -> c.(c_exchange).(server_ephemeral) = [] ->
  parse_public_key pubkey = Ok pk -> compute_shared_secret ephemeral kex = Ok kex2 ->
  to_bytes pk = Ok pubkey -> encoded pubkey = Ok vec ->
  let exchange := set_server_ephemeral ephemeral c.(c_exchange) in
  compute_exchange_hash kex2 vec exchange = Ok hash ->
  decode_signature signature = Ok (sg, []) -> verify pk hash sg = true ->
  client_compute_keys hash kex2 names exchange (session_id c.(c_cause)) = Ok nk ->
  client_dh_reply (mkPacket (reply_bytes is_gex pubkey ephemeral signature) n) names kex c w =
    (Ok (NeedsReply (mkClientKex exchange c.(c_cause) (CWaitingForNewKeys pk nk) c.(c_config))
      (nk.(nk_names).(strict_kex) || is_strict_rekey c.(c_cause))), w ++ [[msg.NEWKEYS]]).
Proof.
  intros Hi <- L1 L2 L3 He Hpk Hsh Hb Hv exchange Hh Hsg Hver Hnk. unfold client_dh_reply.
  rewrite Hi. cbn [pkt_buffer].
  replace (negb (first_is _ _)) with false by (unfold first_is; cbn; by destruct (is_dh_gex kex)).
  unfold reply_bytes, enc_err.
  match goal with |- context [zdrop 1 (?x :: ?l)] => change (zdrop 1 (x :: l)) with l end.
  rewrite decode_prefixed_bytes by done. cbn [st_bind st_lift map_err]. rewrite Hpk.
  rewrite decode_prefixed_bytes by done. cbn [st_bind st_lift map_err]. rewrite He. cbn [app].
  cbn [Dh.server_ephemeral set_server_ephemeral]. rewrite Hsh, Hb, Hv.
  change (set_server_ephemeral ephemeral (c_exchange c)) with exchange. rewrite Hh.
  rewrite <- (app_nil_r (prefixed signature)), decode_prefixed_bytes by done. cbn [st_bind st_lift map_err].
  rewrite Hsg. cbn [ensure_end]. rewrite Hver. cbn [negb]. unfold st_bind, st_lift. rewrite Hnk.
  by rewrite (log_write _ _ _ newkeys_appends).
Qed.

(** *** Both machines *)

Lemma client_kexinit_eq cookie (c : Client) (w : Log) c' w' :
  Forall is_u8 cookie -> encodable_lists (sent c.(c_config).(c_preferred) None) ->
  client_kexinit cookie c w = (Ok c', w') ->
  c' = mkClientKex (set_client_kex_init
         (kexinit_bytes cookie (sent c.(c_config).(c_preferred) None)) c.(c_exchange))
       c.(c_cause) c.(c_state) c.(c_config).
Proof.
  intros Hc He. unfold client_kexinit. intros H. inv_st H. subst.
  apply (sink_packet_bytes_ok _ _ _ _ _ (kexinit_appends _ _ _ Hc He)) in E as ->. done.
Qed.

Lemma server_kexinit_eq cookie (s : Server) (v : Log) s' v' :
  Forall is_u8 cookie -> encodable_lists (sent s.(s_config).(s_preferred) (Some s.(s_config).(s_keys))) ->
  server_kexinit cookie s v = (Ok s', v') ->
  s' = mkServerKex (set_server_kex_init
         (kexinit_bytes cookie (sent s.(s_config).(s_preferred) (Some s.(s_config).(s_keys)))) s.(s_exchange))
       s.(s_cause) s.(s_state) s.(s_config).
Proof.
  intros Hc He. unfold server_kexinit. intros H. inv_st H. subst.
  apply (sink_packet_bytes_ok _ _ _ _ _ (kexinit_appends _ _ _ Hc He)) in E as ->. done.
Qed.

Lemma new_keys_agree (names namesc : Names) hash kexs kexc (x : Exchange) sid nks :
  same_names names namesc -> agreed kexc kexs ->
  server_compute_keys hash kexs names x sid = Ok nks ->
  exists nkc, client_compute_keys hash kexc namesc x sid = Ok nkc /\
    nkc.(nk_exchange) = x /\ nks.(nk_exchange) = x /\ nkc.(nk_names) = namesc /\ nks.(nk_names) = names /\
    nkc.(nk_session_id) = nks.(nk_session_id) /\
    sync nks.(nk_cipher).(local_to_remote) nkc.(nk_cipher).(remote_to_local) /\
    sync nkc.(nk_cipher).(local_to_remote) nks.(nk_cipher).(remote_to_local).
Proof.
  intros (_ & _ & Hci & Hcm & Hsm & _) Ha H. unfold server_compute_keys in H. inv_ok H.
  pose proof (agreed_keys kexc kexs (default hash sid) hash names.(n_cipher) names.(client_mac)
    names.(server_mac) Ha) as Hk. rewrite E in Hk.
  unfold client_compute_keys. rewrite <- Hci, <- Hcm, <- Hsm.
  destruct (kex_compute_keys kexc _ _ _ _ _ false) as [q|e|]; [|done|done]. cbn [res_bind].
  simplify_eq. eexists. split; [done|]. cbn. naive_solver.
Qed.

Definition completed (c : Client) (s : Server) (w v : Log) (b : bool) : Prop :=
  exists reply w3 v1 c3 host nkc nks,
    v = v1 ++ [reply; [msg.NEWKEYS]] /\ w3 = w ++ [[msg.NEWKEYS]] /\
    (forall rc n, client_step KEXES rc (Some (mkPacket reply n)) c w = (Ok (NeedsReply c3 b), w3)) /\
    (forall rc n w', client_step KEXES rc (Some (mkPacket [msg.NEWKEYS] n)) c3 w' =
      (Ok (Done (Some host) nkc), w')) /\
    (forall rs n v', server_step KEXES lookup rs (Some (mkPacket [msg.NEWKEYS] n)) s v' =
      (Ok (Done None nks), v')) /\
    nkc.(nk_exchange) = nks.(nk_exchange) /\ same_names nks.(nk_names) nkc.(nk_names) /\
    nkc.(nk_session_id) = nks.(nk_session_id) /\
    sync nks.(nk_cipher).(local_to_remote) nkc.(nk_cipher).(remote_to_local) /\
    sync nkc.(nk_cipher).(local_to_remote) nks.(nk_cipher).(remote_to_local).

(** From the client waiting for the reply on. *)
Lemma run_completes rs namesc namess kexc kexs (c : Client) (s : Server) (w v : Log) nsq init eph s' b v' :
  c.(c_state) = WaitingForDhReply namesc kexc -> same_names namess namesc ->
  s.(s_state) = WaitingForDhInit namess kexs -> c.(c_cause) = s.(s_cause) ->
  c.(c_exchange) = set_client_ephemeral eph s.(s_exchange) -> s.(s_exchange).(server_ephemeral) = [] ->
  s.(s_exchange).(client_ephemeral) = [] ->
  init = dh_init (is_dh_gex kexc) eph -> zlen eph <= MAX_ENCODED_LEN -> is_dh_gex kexs = is_dh_gex kexc ->
  (forall ex s1 ex1, server_dh rs init kexs ex = Ok (s1, ex1) ->
      zlen ex1.(server_ephemeral) <= MAX_ENCODED_LEN /\
      ex1 = set_server_ephemeral ex1.(server_ephemeral) ex /\ is_dh_gex s1 = is_dh_gex kexs /\
      exists c2, compute_shared_secret ex1.(server_ephemeral) kexc = Ok c2 /\ agreed c2 s1) ->
  server_step KEXES lookup rs (Some (mkPacket init nsq)) s v = (Ok (NeedsReply s' b), v') ->
  completed c s' w v' b.
Proof.
  intros Hcs Hnames Hss Hcause Hcx Hse Hce Hinit Hleph Hgex Hlaw H.
  unfold server_step in H. rewrite Hss in H.
  destruct Hnames as (Hnk & Hrest) eqn:E0. assert (Hn : same_names namess namesc) by done. clear E0.
  assert (Hig : ignore_guessed namess = false /\ ignore_guessed namesc = false) by (unfold same_names in Hn; tauto).
  destruct Hig as [Higs Higc].
  apply server_dh_init_ok in H as (eph' & key & pubkey & vec & hash & sg & kex1 & x & nks & Hd & Hdh & Hcompat
    & Hpk & Hvec & Hh & Hsig & Hsend & Hkeys & -> & ->); [|done].
  assert (Heph : eph' = eph).
  { rewrite Hinit in Hd. unfold dh_init in Hd.
    match type of Hd with context [zdrop 1 (?x :: ?l)] => change (zdrop 1 (x :: l)) with l in Hd end.
    change (be32 (zlen eph) ++ eph) with (prefixed eph) in Hd.
    rewrite <- (app_nil_r (prefixed eph)), decode_prefixed_bytes in Hd by done. by simplify_eq/=. }
  subst eph'. rewrite Hce in Hdh. cbn [app] in Hdh. rewrite <- Hcx in Hdh.
  destruct (Hlaw _ _ _ Hdh) as (Hlx & Hx & Hg1 & c2 & Hshared & Hagree).
  destruct (signature_verifies key _ _ _ _ Hcompat Hpk Hsig) as (Lp & Ls & pk & sgn & Hparse & Hto & Hdec & Hver).
  destruct (new_keys_agree namess namesc hash kex1 c2 x (session_id s.(s_cause)) nks Hn Hagree Hkeys)
    as (nkc & Hckeys & Hxc & Hxs & Hnc & Hns & Hsid & Hsync).
  set (reply := reply_bytes (is_dh_gex kexc) pubkey x.(server_ephemeral) sg).
  assert (Hv' : v' = v ++ [reply; [msg.NEWKEYS]]).
  { unfold st_bind in Hsend. rewrite Hg1, Hgex in Hsend.
    rewrite (log_write _ reply) in Hsend by (by apply server_reply_appends).
    rewrite (log_write _ _ _ newkeys_appends) in Hsend. injection Hsend as <-. by rewrite <- app_assoc. }
  exists reply, (w ++ [[msg.NEWKEYS]]), v. do 4 eexists. split; [exact Hv'|]. split; [done|]. split_and!.
  - intros rc n. unfold client_step, reply. rewrite Hcs.
    rewrite (client_dh_reply_run namesc kexc c w (is_dh_gex kexc) pubkey x.(server_ephemeral) sg n
      pk c2 vec hash sgn nkc); try done.
    + rewrite Hnc, Hns, Hcause. by rewrite (proj1 (proj2 (proj2 (proj2 (proj2 (proj2 (proj2 (proj2 Hn)))))))).
    + by rewrite Hcx.
    + rewrite <- Hx. by rewrite (agreed_hash c2 kex1).
    + rewrite <- Hx, Hcause. done.
  - intros. cbn. done.
  - intros. cbn. done.
  - by rewrite Hxc, Hxs.
  - by rewrite Hnc, Hns.
  - done.
  - apply Hsync.
  - apply Hsync.
Qed.

(** C2. A complete key exchange: a client and a server exchange KEXINITs, the
    client sends its ephemeral key and the server accepts it.  Then the client
    accepts the server's signed reply and both end, on the peer's NEWKEYS, with
    the same public values, the same algorithms, the same session id and keys in
    sync in both directions, and both reset their sequence numbers or neither. *)
Theorem kex_completes cc sc client_sshid server_sshid cause cookie cookie' (w v : Log) c1 w1 s1 v1 n1 n2 n3
    rs0 rc rs s2 bs v2 c2 bc w2 names kex init s3 b v3 :
  Forall is_u8 cookie -> zlen cookie = 16 -> encodable_lists (sent cc.(c_preferred) None) ->
  Forall is_u8 cookie' -> zlen cookie' = 16 ->
  encodable_lists (sent sc.(s_preferred) (Some sc.(s_keys))) ->
  (forall k, KEXES names.(n_kex) = Some k -> drawn k rc rs) ->
  client_kexinit cookie (ClientKex_new cc client_sshid server_sshid cause : Client) w = (Ok c1, w1) ->
  server_kexinit cookie' (ServerKex_new sc client_sshid server_sshid cause : Server) v = (Ok s1, v1) ->
  server_step KEXES lookup rs0 (Some (mkPacket c1.(c_exchange).(client_kex_init) n1)) s1 v1 =
    (Ok (NeedsReply s2 bs), v2) ->
  client_step KEXES rc (Some (mkPacket s1.(s_exchange).(server_kex_init) n2)) c1 w1 =
    (Ok (NeedsReply c2 bc), w2) ->
  c2.(c_state) = WaitingForDhReply names kex -> w2 = w1 ++ [init] ->
  server_step KEXES lookup rs (Some (mkPacket init n3)) s2 v2 = (Ok (NeedsReply s3 b), v3) ->
  completed c2 s3 w2 v3 b.
Proof.
  intros Hc Hc16 He Hc' Hc16' He' Hdrawn Hck Hsk Hs2 Hc2 Hst Hw2 Hs3.
  apply client_kexinit_eq in Hck as ->; [|done|done]. apply server_kexinit_eq in Hsk as ->; [|done|done].
  cbn in Hs2, Hc2. apply server_created_ok in Hs2 as (namess & kexs & Hrs2 & Hks & _ & ->).
  destruct (client_created_ok _ _ _ _ _ _ _ _ _ Hc2 Hst)
    as (kex0 & eph & f & Hrc2 & Hkc & Hskip & Hng & Hcd & Hsend & ->).
  cbn in Hrs2, Hrc2. rewrite read_kexinit in Hrs2, Hrc2 by done.
  pose proof (negotiate_agree sc.(s_preferred) cc.(c_preferred) sc.(s_keys) cause cause eq_refl) as Hag.
  rewrite Hrs2, Hrc2 in Hag. cbn in Hag. specialize (Hdrawn _ Hkc). destruct (proj1 Hag).
  rewrite Hkc in Hks. injection Hks as <-. pose proof (KEXES_paired _ _ Hkc Hskip Hng) as Hp.
  destruct (exchange_agrees rc rs kex0 kex0 kex eph f Hp Hdrawn Hcd) as (Hf & Hl & Hg & Hlaw).
  rewrite (log_write _ _ _ Hf) in Hsend. injection Hsend as <-.
  apply app_inv_head in Hw2. injection Hw2 as <-. rewrite Hng in Hs3.
  eapply (run_completes rs names namess kex kex0); [..|exact Hs3]; cbn; try done.
  - by rewrite Hg, Hng.
  - intros ex s1 ex1 Hsd. rewrite <- Hng in Hsd. by apply Hlaw.
Qed.
End Run.

Module Example.
#[local] Existing Instance rfc4251.
#[local] Existing Instance Negotiation.Example.keys.
#[local] Existing Instance Negotiation.Example.encodable_dec.
#[local] Existing Instance packet_log.

Definition alg_code (a : Negotiation.Example.Alg) : Z :=
  match a with Negotiation.Example.Ed25519 => 1 | Negotiation.Example.Rsa b => if b then 2 else 3 end.
Definition host_hash (k : Z) (h : bytes) : bytes := k :: ztake 4 h.

(** A signature is the key's number and the head of the hash. *)
#[local] Instance host_keys : HostKeys := {|
  PublicKey := Z; Signature := bytes;
  public_key_bytes k := Ok [alg_code k];
  sign_with_hash_alg k _ h := Ok (host_hash (alg_code k) h);
  parse_public_key b := match b with [k] => Ok k | _ => Err Error.KexInit end;
  to_bytes k := Ok [k];
  decode_signature b := Ok (b, []);
  verify k h s := beq s (host_hash k h);
  decode_mpint b := let? (x, r) := enc_err (decode_bytes b) in Ok (x, r);
|}.
#[local] Instance host_keys_laws : HostKeysLaws host_keys.
Proof.
  constructor. intros key alg h pubkey signature _. cbn. intros [= <-] [= <-].
  split; [done|]. split; [unfold host_hash; rewrite zlen_cons, zlen_ztake; unfold MAX_ENCODED_LEN; lia|].
  do 2 eexists. split_and!; [done..|]. cbn. apply beq_refl.
Qed.

Definition group : DhGroup := mkDhGroup [23] [5].
Definition KEXES (n : bytes) : option DhGroupKex :=
  if beq n kex.DH_G14_SHA256 then Some (DhGroupKex_new (Some group)) else None.
#[local] Instance dh_kex : KexAlgorithmImplementor DhGroupKex CipherImpls.Example.key CipherImpls.Example.key :=
  dh_group_kex KexKeys.Example.hash KexKeys.Example.CIPHERS KexKeys.Example.MACS.
#[local] Instance dh_kex_laws : KexLaws dh_kex (CipherImpls.Block.block_sync eq) :=
  dh_laws KexKeys.Example.hash KexKeys.Example.hash_ok _ _ _ KexKeys.Example.tables.

Lemma KEXES_paired n k : KEXES n = Some k -> skip_exchange k = false -> is_dh_gex k = false -> paired k k.
Proof.
  unfold KEXES. destruct (beq _ _); [|done]. intros [= <-] _ _. do 2 eexists. split_and!; try done.
Qed.

Definition prefs (keys : list Negotiation.Example.Alg) : @Preferred Negotiation.Example.keys :=
  mkPreferred [kex.DH_G14_SHA256; kex.EXTENSION_OPENSSH_STRICT_KEX_AS_CLIENT;
      kex.EXTENSION_OPENSSH_STRICT_KEX_AS_SERVER] keys
    [cipher_names.AES_256_CTR] [KexKeys.Example.etm] [str "none"].
Definition cc : ClientConfig := mkClientConfig (prefs [Negotiation.Example.Ed25519]) GexParams_default.
Definition sc : ServerConfig :=
  mkServerConfig (prefs [Negotiation.Example.Ed25519]) [Negotiation.Example.Ed25519].
Definition cookie : bytes := replicate 16 9.

Abbreviation Client := (@ClientKex _ host_keys DhGroupKex CipherImpls.Example.key CipherImpls.Example.key).
Abbreviation Server := (@ServerKex Negotiation.Example.keys DhGroupKex CipherImpls.Example.key CipherImpls.Example.key).

Definition ok_or_default {A} (d : A) (r : Result A * list bytes) : A :=
  match r.1 with Ok a => a | _ => d end.
Definition next {T} (d : T) (r : Result (@KexProgress _ host_keys DhGroupKex CipherImpls.Example.key CipherImpls.Example.key T) * list bytes) : T :=
  match r.1 with Ok (NeedsReply k _) => k | _ => d end.

Definition client0 : Client := ClientKex_new cc (str "SSH-2.0-c") (str "SSH-2.0-s") Initial.
Definition server0 : Server := ServerKex_new sc (str "SSH-2.0-c") (str "SSH-2.0-s") Initial.
Definition r_c1 := client_kexinit cookie client0 [].
Definition c1 : Client := ok_or_default client0 r_c1.
Definition r_s1 := server_kexinit cookie server0 [].
Definition s1 : Server := ok_or_default server0 r_s1.
Definition r_s2 := server_step KEXES lookup_dh_gex_group 0 (Some (mkPacket c1.(c_exchange).(client_kex_init) 1)) s1 r_s1.2.
Definition s2 : Server := next s1 r_s2.
Definition r_c2 := client_step KEXES 6 (Some (mkPacket s1.(s_exchange).(server_kex_init) 1)) c1 r_c1.2.
Definition c2 : Client := next c1 r_c2.
Definition init : bytes := default [] (last r_c2.2).
Definition r_s3 := server_step KEXES lookup_dh_gex_group 9 (Some (mkPacket init 2)) s2 r_s2.2.
Definition s3 : Server := next s2 r_s3.

Lemma init_sent : init = [30; 0; 0; 0; 1; 8].
Proof. vm_compute. reflexivity. Qed.

Lemma kex_completes_witness : completed KEXES lookup_dh_gex_group c2 s3 r_c2.2 r_s3.2 true
    (sync := CipherImpls.Block.block_sync eq).
Proof.
  refine (kex_completes KEXES KEXES_paired lookup_dh_gex_group cc sc (str "SSH-2.0-c") (str "SSH-2.0-s")
    Initial cookie cookie [] [] c1 r_c1.2 s1 r_s1.2 1 1 2 0 6 9 s2 false r_s2.2 c2 false r_c2.2 _ _ init
    s3 true r_s3.2 _ _ _ _ _ _ _ _ _ _ _ _ _ _).
  - by repeat constructor.
  - reflexivity.
  - repeat split; apply (bool_decide_unpack _); vm_compute; exact I.
  - by repeat constructor.
  - reflexivity.
  - repeat split; apply (bool_decide_unpack _); vm_compute; exact I.
  - intros k _. by split.
  - vm_compute. reflexivity.
  - vm_compute. reflexivity.
  - vm_compute. reflexivity.
  - vm_compute. reflexivity.
  - vm_compute. reflexivity.
  - vm_compute. reflexivity.
  - vm_compute. reflexivity.
Defined.

(** The client of the same run. *)
Definition r_c3 := client_step KEXES 0 (Some (mkPacket (default [] (head (drop 1 r_s3.2))) 2)) c2 r_c2.2.
Definition c3 : Client := next c2 r_c3.

Lemma client_authenticates_witness :
  exists host nk w,
    client_step KEXES 0 (Some (mkPacket [msg.NEWKEYS] 3)) c3 r_c3.2 = (Ok (Done (Some host) nk), w) /\
    same_ids c1 nk.(nk_exchange) /\ negotiated c1 nk.(nk_exchange) nk.(nk_names) /\ signed c1 host nk.
Proof.
  do 3 eexists. split; [vm_compute; reflexivity|].
  eapply (client_authenticates KEXES c1 c3 0 (Some (mkPacket [msg.NEWKEYS] 3)) r_c3.2 r_c3.2 (Some 1)).
  - reflexivity.
  - eapply (client_steps KEXES c1 c2 0 (Some (mkPacket (default [] (head (drop 1 r_s3.2))) 2)) r_c2.2 c3 true r_c3.2).
    + eapply (client_steps KEXES c1 c1 6 (Some (mkPacket s1.(s_exchange).(server_kex_init) 1)) r_c1.2 c2 false r_c2.2).
      * apply client_start.
      * vm_compute. reflexivity.
    + vm_compute. reflexivity.
  - vm_compute. reflexivity.
Defined.
End Example.
