(* ===== verification/ChannelStream.v ===== *)
(** * What the channel operations put on the wire

    The specification of a channel's outbound side is a queue of tagged bytes:
    [pend ch] is what is queued, an [event] is a message handed to the
    transport.  Each operation of [Session] is shown to be a transition of that
    specification ([data_noqueue_spec], [flush_channel_spec], ...); sequences of
    operations on many channels then keep, per channel, order, completeness and
    the peer's window ([channel_stream]). *)

From stdpp Require Import base list numbers option gmap.
From Stdlib Require Import ZArith Lia.
From S2P Require Import Prelude Encoding LibInner Msg Session.

(** ** The specification vocabulary *)

Definition tag (a : option Z) (b : bytes) : list (option Z * Z) := map (pair a) b.

(** The bytes queued on a channel, each with its stream. *)
Definition queued (q : list pending_item) : list (option Z * Z) :=
  flat_map (fun '(buf, a, from) => tag a (zdrop from buf)) q.
Definition pend (ch : ChannelParams) : list (option Z * Z) := queued ch.(pending_data).

Inductive event : Type :=
| EvData (a : option Z) (chunk : bytes)
| EvEof
| EvClose
| EvAdjust (amount : Z).

Definition payload (recipient : Z) (ev : event) : bytes :=
  match ev with
  | EvData None chunk => msg.CHANNEL_DATA :: be32 recipient ++ be32 (zlen chunk) ++ chunk
  | EvData (Some ext) chunk =>
      msg.CHANNEL_EXTENDED_DATA :: be32 recipient ++ be32 ext ++ be32 (zlen chunk) ++ chunk
  | EvEof => msg.CHANNEL_EOF :: be32 recipient
  | EvClose => msg.CHANNEL_CLOSE :: be32 recipient
  | EvAdjust amount => msg.CHANNEL_WINDOW_ADJUST :: be32 recipient ++ be32 amount
  end.

Definition ev_bytes (ev : event) : list (option Z * Z) :=
  match ev with EvData a chunk => tag a chunk | _ => [] end.
Definition evs_bytes (evs : list event) : list (option Z * Z) := flat_map ev_bytes evs.

(** Data messages respect the peer's maximum packet size and are not empty. *)
Definition ev_fits (max_packet : Z) (ev : event) : Prop :=
  match ev with EvData _ chunk => 1 <= zlen chunk <= max_packet | _ => True end.

Definition frames (ps : list bytes) : bytes := flat_map frame ps.
Definition ev_frames (recipient : Z) (evs : list event) : bytes :=
  frames (map (payload recipient) evs).

Lemma frames_app ps qs : frames (ps ++ qs) = frames ps ++ frames qs.
Proof. apply flat_map_app. Qed.

Lemma ev_frames_app r es fs : ev_frames r (es ++ fs) = ev_frames r es ++ ev_frames r fs.
Proof. unfold ev_frames. by rewrite map_app, frames_app. Qed.

Lemma evs_bytes_app es fs : evs_bytes (es ++ fs) = evs_bytes es ++ evs_bytes fs.
Proof. apply flat_map_app. Qed.

Lemma queued_app q1 q2 : queued (q1 ++ q2) = queued q1 ++ queued q2.
Proof. apply flat_map_app. Qed.

Lemma zlen_tag a b : zlen (tag a b) = zlen b.
Proof. unfold zlen, tag. by rewrite length_map. Qed.

Lemma tag_app a b c : tag a (b ++ c) = tag a b ++ tag a c.
Proof. apply map_app. Qed.

(** The numbers of a channel are machine integers and its packet size is usable. *)
Record nums_ok (ch : ChannelParams) : Prop := {
  ok_recipient : is_u32 ch.(recipient_channel);
  ok_window : is_u32 ch.(recipient_window_size);
  ok_packet : 1 <= ch.(recipient_maximum_packet_size) < U32_MOD;
  ok_sender : is_u32 ch.(sender_window_size);
}.

Definition ext_ok (a : option Z) : Prop := forall ext, a = Some ext -> is_u32 ext.

Definition item_ok (i : pending_item) : Prop :=
  let '(buf, a, from) := i in 0 <= from <= zlen buf /\ zlen buf <= USIZE_MAX /\ ext_ok a.

(** The queue points into its buffers (an empty buffer may be queued). *)
Definition chan_ok (ch : ChannelParams) : Prop := nums_ok ch /\ Forall item_ok ch.(pending_data).

Section Spec.
Context {enc : SshEncoding} `{!SshEncodingLaws enc}.

Lemma data_body_appends ch a chunk :
  is_u32 ch.(recipient_channel) -> ext_ok a -> zlen chunk < U32_MOD ->
  appends (data_body ch a chunk) (payload ch.(recipient_channel) (EvData a chunk)).
Proof.
  intros Hr Ha Hc. unfold data_body, payload. destruct a as [ext|].
  - specialize (Ha ext eq_refl).
    apply (appends_bind _ _ [_]); [auto with wire|].
    apply appends_bind; [unfold enc_w; auto with wire|].
    apply appends_bind; unfold enc_w; auto with wire.
  - apply (appends_bind _ _ [_]); [auto with wire|].
    apply appends_bind; unfold enc_w; auto with wire.
Qed.

Lemma byte_body_appends r m : is_u32 r -> appends (byte_body r m) (m :: be32 r).
Proof.
  intros Hr. unfold byte_body, enc_w. apply (appends_bind _ _ [_]); auto with wire.
Qed.

(** *** Chunking *)
Fixpoint chunks_of (m : Z) (fuel : nat) (buf : bytes) : list bytes :=
  match buf, fuel with
  | [], _ | _, O => []
  | _, S fuel' => let off := Z.min (zlen buf) m in ztake off buf :: chunks_of m fuel' (zdrop off buf)
  end.

Definition chunks (m : Z) (buf : bytes) : list bytes := chunks_of m (length buf) buf.

Lemma chunks_of_spec m fuel : forall buf, 1 <= m -> (length buf <= fuel)%nat ->
  concat (chunks_of m fuel buf) = buf /\
  Forall (fun c => 1 <= zlen c <= m) (chunks_of m fuel buf).
Proof.
  induction fuel as [|fuel IH]; intros [|x buf] Hm Hf; cbn [chunks_of]; try done; [cbn in Hf; lia|].
  set (b := x :: buf) in *. set (off := Z.min (zlen b) m).
  assert (Hb : 1 <= zlen b) by (subst b; rewrite zlen_cons; pose proof (zlen_nonneg buf); lia).
  destruct (IH (zdrop off b)) as [Hc Hall]; [done| |].
  { assert (zlen (zdrop off b) < zlen b) by (rewrite zlen_zdrop; lia). unfold zlen in *. lia. }
  split; [cbn [concat]; by rewrite Hc, ztake_zdrop|]. constructor; [|done].
  rewrite zlen_ztake. lia.
Qed.

(** How much of [buf0] from [from] the window lets through. *)
Definition sendable_len (window : Z) (buf0 : bytes) (from : Z) : Z :=
  Z.max 0 (Z.min (zlen buf0 - from) window).

Lemma set_window_window v1 v2 ch :
  set_recipient_window_size v1 (set_recipient_window_size v2 ch) = set_recipient_window_size v1 ch.
Proof. done. Qed.

(** *** Any way to emit messages

    [sends emit p s s']: [emit], given a body that appends [p], succeeds. *)
Section Loop.
Context {S : Type} (emit : writer Error.error -> st S Error.error unit).
Context (sends : list bytes -> S -> S -> Prop).
Context (sends_nil : forall s, sends [] s s).
Context (sends_cons : forall p ps s s' s'', sends [p] s s' -> sends ps s' s'' -> sends (p :: ps) s s'').

Definition emits_ok (s : S) (f : writer Error.error) (p : bytes) : Prop :=
  exists s', emit f s = (Ok tt, s') /\ sends [p] s s'.

Context (emit_ok : forall s f p, appends f p -> emits_ok s f p).

Lemma data_loop_spec a m fuel : forall buf s ch,
  is_u32 ch.(recipient_channel) -> ext_ok a -> 1 <= m < U32_MOD ->
  (length buf <= fuel)%nat -> zlen buf <= ch.(recipient_window_size) < U32_MOD ->
  exists s',
    data_loop emit a m fuel buf s ch =
      (Ok tt, (s', set_recipient_window_size (ch.(recipient_window_size) - zlen buf) ch)) /\
    sends (map (fun c => payload ch.(recipient_channel) (EvData a c)) (chunks_of m fuel buf)) s s'.
Proof.
  induction fuel as [|fuel IH]; intros [|x buf] s ch Hr Ha Hm Hf Hw; cbn [data_loop chunks_of map].
  1, 3: exists s; split; [|done]; rewrite zlen_nil, Z.sub_0_r; by destruct ch.
  { cbn in Hf. lia. }
  set (b := x :: buf) in *. set (off := Z.min (zlen b) m).
  assert (Hb : 1 <= zlen b) by (subst b; rewrite zlen_cons; pose proof (zlen_nonneg buf); lia).
  assert (Hoff : zlen (ztake off b) = off) by (rewrite zlen_ztake; lia).
  destruct (emit_ok s (data_body ch a (ztake off b)) (payload ch.(recipient_channel) (EvData a (ztake off b))))
    as (s1 & -> & Hs1); [apply data_body_appends; [done..|lia]|].
  assert (Hd : zlen (zdrop off b) = zlen b - off) by (rewrite zlen_zdrop; lia).
  rewrite to_u32_small by (unfold is_u32; lia).
  destruct (IH (zdrop off b) s1 (set_recipient_window_size (ch.(recipient_window_size) - off) ch))
    as (s2 & -> & Hs2); [done..| | |].
  { unfold zlen in *. lia. }
  { cbn [recipient_window_size set_recipient_window_size]. lia. }
  exists s2. split; [|by eapply sends_cons].
  rewrite set_window_window. cbn [recipient_window_size set_recipient_window_size].
  by replace (ch.(recipient_window_size) - off - zlen (zdrop off b))
    with (ch.(recipient_window_size) - zlen b) by lia.
Qed.

Lemma send_window_spec s ch buf0 a from :
  nums_ok ch -> ext_ok a -> 0 <= from -> zlen buf0 <= USIZE_MAX ->
  let n := sendable_len ch.(recipient_window_size) buf0 from in
  exists s',
    send_window emit s ch buf0 a from =
      (Ok n, (s', set_recipient_window_size (ch.(recipient_window_size) - n) ch)) /\
    sends (map (fun c => payload ch.(recipient_channel) (EvData a c))
      (chunks ch.(recipient_maximum_packet_size) (ztake n (zdrop from buf0)))) s s'.
Proof.
  intros [Hr Hw Hm _] Ha Hfrom Hu n. unfold is_u32 in Hw. unfold send_window.
  destruct (Z.leb_spec (zlen buf0) from) as [Hge|Hlt].
  { replace n with 0 by (subst n; unfold sendable_len; lia). exists s. rewrite Z.sub_0_r.
    split; [by destruct ch|]. by rewrite ztake_0. }
  replace (Z.min (zlen buf0) _ - from) with n.
  2: { subst n. unfold sendable_len, checked_add. case_match eqn:E; cbn [default from_option id].
       - lia.
       - apply Z.leb_gt in E. lia. }
  replace (_ =? 0) with false by (symmetry; apply Z.eqb_neq; lia).
  set (b := ztake n (zdrop from buf0)).
  assert (Hb : zlen b = n).
  { subst b n. unfold sendable_len. rewrite zlen_ztake, zlen_zdrop. lia. }
  destruct (data_loop_spec a ch.(recipient_maximum_packet_size) (length b) b s ch)
    as (s' & -> & Hs); [done..|subst n; unfold sendable_len in *; lia|].
  exists s'. by rewrite Hb.
Qed.
End Loop.

(** *** Staging *)

Lemma stage_emits w f p :
  appends f p -> emits_ok push_packet (fun ps (w w' : bytes) => w' = w ++ frames ps) w f p.
Proof.
  intros Hf. exists (w ++ frame p). split; [by apply appends_push_packet|].
  unfold frames. cbn [flat_map]. by rewrite app_nil_r.
Qed.

Lemma data_noqueue_spec w ch buf0 a from :
  nums_ok ch -> ext_ok a -> 0 <= from -> zlen buf0 <= USIZE_MAX ->
  let n := sendable_len ch.(recipient_window_size) buf0 from in
  data_noqueue w ch buf0 a from =
    (Ok n, (w ++ ev_frames ch.(recipient_channel)
              (map (EvData a) (chunks ch.(recipient_maximum_packet_size) (ztake n (zdrop from buf0)))),
            set_recipient_window_size (ch.(recipient_window_size) - n) ch)).
Proof.
  intros Hc Ha Hf Hu n. unfold data_noqueue.
  destruct (send_window_spec push_packet (fun ps (w w' : bytes) => w' = w ++ frames ps))
    with (s := w) (ch := ch) (buf0 := buf0) (a := a) (from := from) as (w' & -> & ->); try done.
  - intros s. by rewrite app_nil_r.
  - intros p ps s s' s'' -> ->. rewrite <- app_assoc. f_equal. by rewrite <- frames_app.
  - intros. by apply stage_emits.
  - unfold ev_frames. by rewrite map_map.
Qed.

(** The events that one [data_noqueue] stands for. *)
Definition data_events (ch : ChannelParams) (buf0 : bytes) (a : option Z) (from : Z) : list event :=
  map (EvData a) (chunks ch.(recipient_maximum_packet_size)
    (ztake (sendable_len ch.(recipient_window_size) buf0 from) (zdrop from buf0))).

Lemma evs_bytes_data a cs : evs_bytes (map (EvData a) cs) = tag a (concat cs).
Proof.
  induction cs as [|c cs IH]; [done|]. cbn [map evs_bytes flat_map concat ev_bytes] in *.
  rewrite tag_app. unfold evs_bytes in IH. by rewrite IH.
Qed.

Lemma data_events_spec ch buf0 a from :
  nums_ok ch -> 0 <= from ->
  let n := sendable_len ch.(recipient_window_size) buf0 from in
  evs_bytes (data_events ch buf0 a from) = tag a (ztake n (zdrop from buf0)) /\
  zlen (evs_bytes (data_events ch buf0 a from)) = n /\
  Forall (ev_fits ch.(recipient_maximum_packet_size)) (data_events ch buf0 a from).
Proof.
  intros [_ Hw Hm _] Hfrom n. unfold data_events. fold n. rewrite evs_bytes_data.
  destruct (chunks_of_spec ch.(recipient_maximum_packet_size) (length (ztake n (zdrop from buf0)))
    (ztake n (zdrop from buf0))) as [Hc Hall]; [lia|done|].
  unfold chunks. rewrite Hc. split; [done|]. split.
  - rewrite zlen_tag, zlen_ztake, zlen_zdrop. subst n. unfold sendable_len, is_u32 in *. lia.
  - apply Forall_map. eapply Forall_impl; [exact Hall|]. done.
Qed.

(** *** Flushing a channel's queue *)

(** The channel after sending [n] bytes, with [q] still queued. *)
Definition advanced (n : Z) (q : list pending_item) (ch : ChannelParams) : ChannelParams :=
  set_pending_data q (set_recipient_window_size (ch.(recipient_window_size) - n) ch).

Definition is_data (ev : event) : Prop := match ev with EvData _ _ => True | _ => False end.

(** What a flush of [queue] does to the channel. *)
Definition flush_outcome (ch : ChannelParams) (queue : list pending_item) (sz : Z)
    (r : ChannelFlushResult) (es : list event) (ch' : ChannelParams) : Prop :=
  let n := zlen (evs_bytes es) in
  Forall is_data es /\ Forall (ev_fits ch.(recipient_maximum_packet_size)) es /\
  n <= ch.(recipient_window_size) /\
  match r with
  | Complete w e c =>
      w = sz + n /\ e = ch.(pending_eof) /\ c = ch.(pending_close) /\ evs_bytes es = queued queue /\
      ch' = set_pending_controls false false (advanced n [] ch)
  | Incomplete w =>
      w = sz + n /\ n = ch.(recipient_window_size) /\
      exists q, evs_bytes es ++ queued q = queued queue /\ q <> [] /\ queued q <> [] /\
        chan_ok (advanced n q ch) /\ ch' = advanced n q ch
  end.

Lemma nums_ok_advanced n q ch :
  nums_ok ch -> 0 <= n <= ch.(recipient_window_size) -> nums_ok (advanced n q ch).
Proof. intros [H1 H2 H3 H4] Hn. split; cbn; try done. unfold is_u32 in *. lia. Qed.

Lemma data_events_is_data ch buf a from : Forall is_data (data_events ch buf a from).
Proof. unfold data_events. apply Forall_map, Forall_true. done. Qed.

Lemma queued_cons buf a from q : queued ((buf, a, from) :: q) = tag a (zdrop from buf) ++ queued q.
Proof. done. Qed.

Lemma item_queued_nonempty buf a from q :
  0 <= from < zlen buf -> queued ((buf, a, from) :: q) <> [].
Proof.
  intros [? ?] He.
  assert (Hz : zlen (queued ((buf, a, from) :: q)) = 0) by (by rewrite He).
  rewrite queued_cons, zlen_app, zlen_tag, zlen_zdrop in Hz.
  pose proof (zlen_nonneg (queued q)). lia.
Qed.

Lemma flush_channel_loop_spec queue : forall w ch sz,
  nums_ok ch -> Forall item_ok queue ->
  exists es r ch',
    flush_channel_loop w ch queue sz = (Ok r, (w ++ ev_frames ch.(recipient_channel) es, ch')) /\
    flush_outcome ch queue sz r es ch'.
Proof.
  induction queue as [|[[buf a] from] queue IH]; intros w ch sz Hok Hq; cbn [flush_channel_loop].
  { exists [], (Complete sz ch.(pending_eof) ch.(pending_close)),
      (set_pending_controls false false (set_pending_data [] ch)).
    split; [by rewrite app_nil_r|]. destruct Hok as [_ [Hw _] _ _].
    unfold flush_outcome, advanced. cbn. change (zlen []) with 0. rewrite Z.sub_0_r.
    split_and!; try done; lia. }
  apply Forall_cons_iff in Hq as [(Hfrom & Hu & Ha) Hq].
  rewrite data_noqueue_spec by (done || lia).
  fold (data_events ch buf a from).
  destruct (data_events_spec ch buf a from) as (Hb & Hn & Hfit); [done|lia|].
  set (n := sendable_len ch.(recipient_window_size) buf from) in *.
  set (ev := data_events ch buf a from) in *.
  assert (Hdata : Forall is_data ev) by apply data_events_is_data.
  assert (Hnw : 0 <= n <= ch.(recipient_window_size)).
  { destruct Hok as [_ [Hw _] _ _]. subst n. unfold sendable_len. lia. }
  destruct (Z.ltb_spec (from + n) (zlen buf)) as [Hlt|Hge].
  - exists ev, (Incomplete (sz + n)), (advanced n ((buf, a, from + n) :: queue) ch).
    split; [done|]. unfold flush_outcome. rewrite Hn. split_and!; try done; try lia.
    { subst n. unfold sendable_len in *. lia. }
    exists ((buf, a, from + n) :: queue). rewrite !queued_cons, Hb, app_assoc, <- tag_app.
    assert (Hi : Forall item_ok ((buf, a, from + n) :: queue)).
    { constructor; [|done]. split_and!; [lia..|done]. }
    split; [|split; [done|split; [rewrite <- queued_cons; apply item_queued_nonempty; lia|split; [|done]]]].
    + do 2 f_equal. rewrite <- (zdrop_zdrop n from) by lia. apply ztake_zdrop.
    + split; [by apply nums_ok_advanced|done].
  - destruct (IH (w ++ ev_frames ch.(recipient_channel) ev)
      (set_recipient_window_size (ch.(recipient_window_size) - n) ch) (sz + n))
      as (es & r & ch' & -> & Hd2 & Hf2 & Hn2 & Hout).
    { exact (nums_ok_advanced n ch.(pending_data) ch Hok Hnw). }
    { done. }
    exists (ev ++ es), r, ch'. cbn [recipient_channel set_recipient_window_size recipient_window_size
      recipient_maximum_packet_size pending_eof pending_close] in *.
    rewrite ev_frames_app, <- app_assoc. split; [done|].
    unfold flush_outcome. rewrite evs_bytes_app, zlen_app, Hn, queued_cons.
    assert (Htag : evs_bytes ev = tag a (zdrop from buf)).
    { rewrite Hb. f_equal. apply ztake_all. rewrite zlen_zdrop. lia. }
    split_and!; [by apply Forall_app|by apply Forall_app|lia|]. rewrite Htag.
    destruct r as [wr|wr e c].
    + destruct Hout as (-> & Hw & q & Hqq & Hne & Hne2 & Hok' & ->). split_and!; [lia..|].
      exists q. rewrite <- app_assoc, Hqq. unfold advanced in *. rewrite set_window_window in *.
      cbn [recipient_window_size set_recipient_window_size] in *. rewrite Z.sub_add_distr. done.
    + destruct Hout as (-> & -> & -> & -> & ->). unfold advanced. rewrite set_window_window.
      cbn [recipient_window_size set_recipient_window_size]. rewrite Z.sub_add_distr.
      split_and!; [lia|done..].
Qed.
End Spec.

(** ** Sessions *)

(** The operations a session performs on its channels. *)
Inductive chan_op : Type :=
| OpData (c : Z) (a : option Z) (buf : bytes) (is_rekeying : bool)
| OpFlush (c : Z)
| OpEof (c : Z)
| OpClose (c : Z)
| OpAdjust (c amount : Z)
| OpConsume (c len : Z)
| OpGrant (c target undelivered : Z).

Definition op_channel (o : chan_op) : Z :=
  match o with
  | OpData c _ _ _ | OpFlush c | OpEof c | OpClose c | OpAdjust c _ | OpConsume c _ | OpGrant c _ _ => c
  end.

(** The arguments have their machine types. *)
Definition op_ok (o : chan_op) : Prop :=
  match o with
  | OpData _ a buf _ => ext_ok a /\ zlen buf <= USIZE_MAX
  | OpAdjust _ amount => is_u32 amount
  | OpGrant _ target undelivered => is_u32 target /\ is_u32 undelivered
  | _ => True
  end.

Section Run.
Context `{SshEncoding}.

Definition run_op (o : chan_op) (e : Encrypted) : res Error.error unit * Encrypted :=
  match o with
  | OpData c a buf rk => data_ext c a buf rk e
  | OpFlush c => (flush_pending c ;;; st_ret tt) e
  | OpEof c => eof c e
  | OpClose c => close c e
  | OpAdjust c n => (Ok tt, window_adjust c n e)
  | OpConsume c n => (Ok tt, consume_recv_window c n e)
  | OpGrant c t u => (maybe_grant_recv_window c t u ;;; st_ret tt) e
  end.

Fixpoint run_ops (os : list chan_op) (e : Encrypted) : Encrypted :=
  match os with
  | [] => e
  | o :: os' => run_ops os' (run_op o e).2
  end.

(** What an operation hands to channel [c] to send, and the window the peer
    grants it. *)
Definition submits (o : chan_op) (e : Encrypted) (c : Z) : list (option Z * Z) :=
  match o with
  | OpData c' a buf _ =>
      match e.(channels) !! c with
      | Some ch => if (c =? c') && ch.(confirmed) then tag a buf else []
      | None => []
      end
  | _ => []
  end.
Definition grants (o : chan_op) (c : Z) : Z :=
  match o with OpAdjust c' n => if c =? c' then n else 0 | _ => 0 end.

Fixpoint submitted (os : list chan_op) (e : Encrypted) (c : Z) : list (option Z * Z) :=
  match os with
  | [] => []
  | o :: os' => submits o e c ++ submitted os' (run_op o e).2 c
  end.
Fixpoint granted (os : list chan_op) (c : Z) : Z :=
  match os with
  | [] => 0
  | o :: os' => grants o c + granted os' c
  end.
End Run.

(** *** The effect of a run *)

Abbreviation trace := (list (Z * event)).

Definition evs_of (c : Z) (tr : trace) : list event := map snd (filter (fun x => x.1 = c) tr).

Definition recipient_of (e : Encrypted) (c : Z) : Z :=
  match e.(channels) !! c with Some ch => ch.(recipient_channel) | None => 0 end.

Definition trace_payloads (e : Encrypted) (tr : trace) : list bytes :=
  map (fun '(c, ev) => payload (recipient_of e c) ev) tr.

Definition all_ok (e : Encrypted) : Prop := map_Forall (fun _ ch => chan_ok ch) e.(channels).

(** From [ch] to [ch'], having emitted [es], been handed [sub] and granted [gr]. *)
Record advances (ch ch' : ChannelParams) (es : list event) (sub : list (option Z * Z)) (gr : Z) : Prop := {
  adv_ok : chan_ok ch';
  adv_recipient : ch'.(recipient_channel) = ch.(recipient_channel);
  adv_packet : ch'.(recipient_maximum_packet_size) = ch.(recipient_maximum_packet_size);
  adv_bytes : evs_bytes es ++ pend ch' = pend ch ++ sub;
  adv_window : zlen (evs_bytes es) + ch'.(recipient_window_size) <= ch.(recipient_window_size) + gr;
  adv_fits : Forall (ev_fits ch.(recipient_maximum_packet_size)) es;
  adv_open : EvClose ∉ es;
}.

(** Closed: all that was handed over went out, then one [CLOSE], last. *)
Record closes (ch : ChannelParams) (es : list event) (sub : list (option Z * Z)) (gr : Z) : Prop := {
  cl_bytes : evs_bytes es = pend ch ++ sub;
  cl_window : zlen (evs_bytes es) <= ch.(recipient_window_size) + gr;
  cl_fits : Forall (ev_fits ch.(recipient_maximum_packet_size)) es;
  cl_last : exists es', es = es' ++ [EvClose] /\ EvClose ∉ es';
}.

Definition channel_effect (ch : ChannelParams) (och' : option ChannelParams) (es : list event)
    (sub : list (option Z * Z)) (gr : Z) : Prop :=
  match och' with
  | Some ch' => advances ch ch' es sub gr
  | None => closes ch es sub gr
  end.

Record effect (e e' : Encrypted) (tr : trace) (sub : Z -> list (option Z * Z)) (gr : Z -> Z) : Prop := {
  ef_write : e'.(enc_write) = e.(enc_write) ++ frames (trace_payloads e tr);
  ef_channel c ch : e.(channels) !! c = Some ch ->
    channel_effect ch (e'.(channels) !! c) (evs_of c tr) (sub c) (gr c);
  ef_absent c : e.(channels) !! c = None ->
    e'.(channels) !! c = None /\ evs_of c tr = [] /\ sub c = [];
  ef_granted c : 0 <= gr c;
}.

Lemma evs_of_app c tr1 tr2 : evs_of c (tr1 ++ tr2) = evs_of c tr1 ++ evs_of c tr2.
Proof. unfold evs_of. by rewrite filter_app, map_app. Qed.

Lemma evs_of_same c es : evs_of c (map (pair c) es) = es.
Proof.
  unfold evs_of. induction es as [|ev es IH]; [done|]. cbn [map].
  rewrite filter_cons_True by done. cbn [map snd]. by rewrite IH.
Qed.

Lemma evs_of_other c c' es : c' <> c -> evs_of c' (map (pair c) es) = [].
Proof.
  intros Hne. unfold evs_of. induction es as [|ev es IH]; [done|]. cbn [map].
  by rewrite filter_cons_False by (cbn; congruence).
Qed.

Lemma evs_of_in c ev tr : (c, ev) ∈ tr -> evs_of c tr <> [].
Proof.
  intros Hin Hnil. unfold evs_of in Hnil. apply map_eq_nil in Hnil.
  assert (Hf : (c, ev) ∈ filter (fun x : Z * event => x.1 = c) tr) by (by apply list_elem_of_filter).
  rewrite Hnil in Hf. by apply elem_of_nil in Hf.
Qed.

Lemma advances_refl ch : chan_ok ch -> advances ch ch [] [] 0.
Proof.
  intros Hok. split; try done.
  - cbn. by rewrite app_nil_r.
  - change (zlen (evs_bytes [])) with 0. lia.
  - by intros ?%elem_of_nil.
Qed.

Lemma advances_trans ch ch1 och2 es1 es2 s1 s2 g1 g2 :
  advances ch ch1 es1 s1 g1 -> channel_effect ch1 och2 es2 s2 g2 ->
  channel_effect ch och2 (es1 ++ es2) (s1 ++ s2) (g1 + g2).
Proof.
  intros [H1 H2 H3 H4 H5 H6 H7] Hef. destruct och2 as [ch2|]; cbn in *.
  - destruct Hef as [K1 K2 K3 K4 K5 K6 K7]. split; try congruence; try done.
    + rewrite evs_bytes_app, <- app_assoc, K4, app_assoc, H4. by rewrite app_assoc.
    + rewrite evs_bytes_app, zlen_app. lia.
    + apply Forall_app. split; [done|]. by rewrite <- H3.
    + by rewrite elem_of_app; intros [?|?].
  - destruct Hef as [K1 K2 K3 (es' & -> & K4)]. split.
    + rewrite evs_bytes_app, K1, app_assoc, H4. by rewrite app_assoc.
    + rewrite evs_bytes_app, zlen_app. lia.
    + apply Forall_app. split; [done|]. by rewrite <- H3.
    + exists (es1 ++ es'). rewrite app_assoc. split; [done|]. by rewrite elem_of_app; intros [?|?].
Qed.

Lemma trace_payloads_ext e e' tr :
  (forall c ev, (c, ev) ∈ tr -> recipient_of e c = recipient_of e' c) ->
  trace_payloads e tr = trace_payloads e' tr.
Proof.
  intros Hr. unfold trace_payloads. apply map_ext_in. intros [c ev] Hin.
  by rewrite (Hr c ev) by (by apply list_elem_of_In).
Qed.

Lemma effect_trans e e1 e2 tr1 tr2 s1 s2 g1 g2 :
  effect e e1 tr1 s1 g1 -> effect e1 e2 tr2 s2 g2 ->
  effect e e2 (tr1 ++ tr2) (fun c => s1 c ++ s2 c) (fun c => g1 c + g2 c).
Proof.
  intros [W1 C1 A1 G1] [W2 C2 A2 G2]. split.
  - rewrite W2, W1, <- app_assoc. f_equal. unfold trace_payloads at 3. rewrite map_app, frames_app.
    f_equal. f_equal. apply trace_payloads_ext. intros c ev Hin.
    unfold recipient_of. destruct (e1.(channels) !! c) as [ch1|] eqn:E1.
    + destruct (e.(channels) !! c) as [ch|] eqn:E.
      * specialize (C1 c ch E). rewrite E1 in C1. exact (adv_recipient _ _ _ _ _ C1).
      * destruct (A1 c E) as [Habs _]. congruence.
    + destruct (A2 c E1) as (_ & Hnil & _). by apply evs_of_in in Hin.
  - intros c ch E. specialize (C1 c ch E). rewrite evs_of_app.
    destruct (e1.(channels) !! c) as [ch1|] eqn:E1.
    + eapply advances_trans; [exact C1|]. by apply C2.
    + destruct (A2 c E1) as (-> & -> & ->). cbn [channel_effect] in C1 |- *. rewrite !app_nil_r.
      destruct C1 as [K1 K2 K3 K4]. split; try done. specialize (G2 c). lia.
  - intros c E. destruct (A1 c E) as (E1 & H1 & H2). destruct (A2 c E1) as (E2 & H3 & H4).
    by rewrite evs_of_app, H1, H2, H3, H4.
  - intros c. specialize (G1 c). specialize (G2 c). lia.
Qed.

(** An operation on one channel. *)
Lemma effect_single e c ch och' es sub gr :
  all_ok e -> e.(channels) !! c = Some ch -> 0 <= gr -> channel_effect ch och' es sub gr ->
  effect e
    (set_write (e.(enc_write) ++ ev_frames ch.(recipient_channel) es) e.(write_cursor)
      (set_channels (partial_alter (fun _ => och') c e.(channels)) e))
    (map (pair c) es) (fun c' => if c' =? c then sub else []) (fun c' => if c' =? c then gr else 0).
Proof.
  intros Hok Hc Hgr Hef. split; cbn [enc_write channels set_write set_channels].
  - f_equal. unfold ev_frames, trace_payloads. rewrite map_map. f_equal. apply map_ext. intros ev.
    unfold recipient_of. by rewrite Hc.
  - intros c' ch' E. destruct (Z.eqb_spec c' c) as [->|Hne].
    + cbv beta. rewrite lookup_partial_alter_eq, evs_of_same. by simplify_eq.
    + cbv beta. rewrite lookup_partial_alter_ne, evs_of_other, E by done.
      apply advances_refl.
      by apply (Hok c').
  - intros c' E. assert (c' <> c) by congruence. cbv beta.
    rewrite lookup_partial_alter_ne, evs_of_other, (proj2 (Z.eqb_neq c' c)) by done. done.
  - intros c'. cbv beta. by destruct (c' =? c).
Qed.

Lemma effect_nothing e : all_ok e -> effect e e [] (fun _ => []) (fun _ => 0).
Proof.
  intros Hok. split.
  - by rewrite app_nil_r.
  - intros c ch E. rewrite E. cbn. apply advances_refl. by apply (Hok c).
  - done.
  - done.
Qed.

Lemma effect_ok e e' tr sub gr : all_ok e -> effect e e' tr sub gr -> all_ok e'.
Proof.
  intros Hok [_ C A _] c ch' E. destruct (e.(channels) !! c) as [ch|] eqn:Ec.
  - specialize (C c ch Ec). rewrite E in C. exact (adv_ok _ _ _ _ _ C).
  - destruct (A c Ec) as [? _]. congruence.
Qed.

Lemma effect_ext e e1 e2 tr sub sub' gr gr' :
  effect e e1 tr sub gr -> e1.(channels) = e2.(channels) -> e1.(enc_write) = e2.(enc_write) ->
  (forall c, sub c = sub' c) -> (forall c, gr c = gr' c) -> effect e e2 tr sub' gr'.
Proof.
  intros [W C A G] Hc Hw Hs Hg. split; intros; rewrite <- ?Hc, <- ?Hw, <- ?Hs, <- ?Hg; auto.
Qed.

Section Ops.
Context {enc : SshEncoding} `{!SshEncodingLaws enc}.

(** [byte]: one control message. *)
Lemma byte_spec c m e ch :
  e.(channels) !! c = Some ch -> is_u32 ch.(recipient_channel) ->
  byte c m e = (Ok tt, set_write (e.(enc_write) ++ frame (m :: be32 ch.(recipient_channel))) e.(write_cursor) e).
Proof.
  intros Hc Hr. unfold byte, on_write. rewrite Hc.
  by rewrite (appends_push_packet _ _ (byte_body_appends _ m Hr)).
Qed.

Lemma ev_frames_one r ev : ev_frames r [ev] = frame (payload r ev).
Proof. unfold ev_frames, frames. cbn. by rewrite app_nil_r. Qed.

(** An operation on one channel, from the fields of the state it reaches. *)
Lemma effect_by e e' c ch och' es sub gr subf grf :
  all_ok e -> e.(channels) !! c = Some ch -> 0 <= gr -> channel_effect ch och' es sub gr ->
  e'.(enc_write) = e.(enc_write) ++ ev_frames ch.(recipient_channel) es ->
  e'.(channels) = partial_alter (fun _ => och') c e.(channels) ->
  (forall c', subf c' = if c' =? c then sub else []) ->
  (forall c', grf c' = if c' =? c then gr else 0) ->
  exists tr, effect e e' tr subf grf.
Proof.
  intros Hok Hc Hgr Hef Hw Hch Hs Hg. eexists.
  eapply effect_ext; [by eapply effect_single|by cbn|by cbn|by intros|by intros].
Qed.

Lemma effect_same e e' subf grf :
  all_ok e -> e'.(enc_write) = e.(enc_write) -> e'.(channels) = e.(channels) ->
  (forall c', subf c' = []) -> (forall c', grf c' = 0) ->
  exists tr, effect e e' tr subf grf.
Proof.
  intros Hok Hw Hch Hs Hg. eexists. eapply effect_ext; [by apply effect_nothing|done..].
Qed.

Lemma if_same {A} (b : bool) (x : A) : (if b then x else x) = x.
Proof. by destruct b. Qed.

Definition is_control (ev : event) : Prop := ev = EvEof \/ exists n, ev = EvAdjust n.

Lemma control_bytes es : Forall is_control es -> evs_bytes es = [] /\ EvClose ∉ es.
Proof.
  induction 1 as [|ev es Hev _ [IH1 IH2]]; [split; [done|by intros ?%elem_of_nil]|].
  split.
  - cbn [evs_bytes flat_map]. fold (evs_bytes es). rewrite IH1. by destruct Hev as [->|[n ->]].
  - rewrite elem_of_cons. intros [Heq|?]; [|done]. subst. by destruct Hev as [|[n ?]].
Qed.

Lemma control_fits m es : Forall is_control es -> Forall (ev_fits m) es.
Proof. intros H. eapply Forall_impl; [exact H|]. by intros ev [->|[n ->]]. Qed.

(** A change of a channel that emits no data. *)
Lemma advances_control ch ch' es sub gr :
  chan_ok ch' -> ch'.(recipient_channel) = ch.(recipient_channel) ->
  ch'.(recipient_maximum_packet_size) = ch.(recipient_maximum_packet_size) ->
  pend ch' = pend ch ++ sub ->
  ch'.(recipient_window_size) <= ch.(recipient_window_size) + gr ->
  Forall is_control es ->
  advances ch ch' es sub gr.
Proof.
  intros Hok Hr Hp Hq Hw Hes. destruct (control_bytes es Hes) as [He Hcl]. split; try done.
  - by rewrite He, Hq.
  - rewrite He. change (zlen []) with 0. lia.
  - by apply control_fits.
Qed.

Lemma all_ok_at e c ch : all_ok e -> e.(channels) !! c = Some ch -> chan_ok ch.
Proof. intros Hok Hc. exact (Hok c ch Hc). Qed.

Lemma chan_ok_controls eof_ close_ ch : chan_ok ch -> chan_ok (set_pending_controls eof_ close_ ch).
Proof. intros [[H1 H2 H3 H4] Hq]. split; [by split|done]. Qed.

(** Channel operations on a number that is not open do nothing. *)
Lemma absent_noop o e :
  e.(channels) !! op_channel o = None ->
  (run_op o e).1 = Ok tt /\ (run_op o e).2.(enc_write) = e.(enc_write) /\
  (run_op o e).2.(channels) = e.(channels).
Proof.
  intros Hc. destruct o; cbn [op_channel] in Hc; cbn [run_op];
    unfold data_ext, flush_pending, eof, close, window_adjust, consume_recv_window,
      maybe_grant_recv_window, has_pending_data_mut, remove_channel, byte, st_bind, st_ret, st_mod;
    rewrite ?Hc; try done.
  split_and!; [done..|]. by apply delete_id.
Qed.

(** *** Each operation *)

(** The one refusal: data for a channel that is not confirmed. *)
Definition refused (o : chan_op) (e : Encrypted) : Prop :=
  exists c a buf rk ch, o = OpData c a buf rk /\ e.(channels) !! c = Some ch /\
    ch.(confirmed) = false /\ run_op o e = (Err Error.WrongChannel, e).

Definition op_spec (o : chan_op) (e : Encrypted) : Prop :=
  ((run_op o e).1 = Ok tt \/ refused o e) /\ exists tr, effect e (run_op o e).2 tr (submits o e) (grants o).

Lemma if_nil {A} (b : bool) : (if b then [] else []) = ([] : list A).
Proof. by destruct b. Qed.
Lemma if_zero (b : bool) : (if b then 0 else 0) = 0.
Proof. by destruct b. Qed.

(** Closes the goals of [effect_by] about what is submitted and granted. *)
Ltac other_channels :=
  intros c'; cbn [submits grants]; by rewrite ?if_nil, ?if_zero.

Lemma insert_same e c ch :
  e.(channels) !! c = Some ch -> e.(channels) = partial_alter (fun _ => Some ch) c e.(channels).
Proof. intros Hc. symmetry. exact (insert_id e.(channels) c ch Hc). Qed.

Lemma eof_spec c e ch : all_ok e -> e.(channels) !! c = Some ch -> op_spec (OpEof c) e.
Proof.
  intros Hok Hc. pose proof (all_ok_at e c ch Hok Hc) as [Hn Hq]. unfold op_spec.
  cbn [run_op]. unfold eof, has_pending_data_mut. rewrite Hc.
  destruct ch.(pending_data) eqn:Hp.
  - rewrite (byte_spec c _ e ch) by (done || apply Hn). split; [by left|].
    apply (effect_by e _ c ch (Some ch) [EvEof] [] 0); [exact Hok|exact Hc|lia| | | |other_channels..].
    + apply advances_control; [by apply (all_ok_at e c ch)|done..|by rewrite app_nil_r|lia|].
      repeat constructor.
    + by rewrite ev_frames_one.
    + exact (insert_same e c ch Hc).
  - split; [by left|].
    apply (effect_by e _ c ch (Some (set_pending_controls true ch.(pending_close) ch)) [] [] 0);
      [exact Hok|exact Hc|lia| | |done|other_channels..].
    + apply advances_control; [by apply chan_ok_controls, (all_ok_at e c ch)|done..|by rewrite app_nil_r|cbn; lia|done].
    + by rewrite app_nil_r.
Qed.

(** The channel is gone after a [CLOSE]. *)
Lemma closes_now ch es :
  Forall is_data es -> Forall (ev_fits ch.(recipient_maximum_packet_size)) es ->
  zlen (evs_bytes es) <= ch.(recipient_window_size) -> evs_bytes es = pend ch ->
  forall eof_it : bool, closes ch (es ++ (if eof_it then [EvEof] else []) ++ [EvClose]) [] 0.
Proof.
  intros Hd Hf Hw Hb eof_it.
  assert (Hctl : evs_bytes ((if eof_it then [EvEof] else []) ++ [EvClose]) = []) by (by destruct eof_it).
  split.
  - by rewrite evs_bytes_app, Hctl, Hb.
  - rewrite evs_bytes_app, Hctl, app_nil_r. lia.
  - apply Forall_app. split; [done|]. destruct eof_it; repeat constructor.
  - eexists (es ++ (if eof_it then [EvEof] else [])). rewrite app_assoc. split; [done|].
    rewrite elem_of_app. intros [Hin|Hin].
    + rewrite Forall_forall in Hd. by apply Hd in Hin.
    + destruct eof_it; rewrite ?list_elem_of_singleton in Hin; [done|by apply elem_of_nil in Hin].
Qed.

Lemma close_spec c e ch : all_ok e -> e.(channels) !! c = Some ch -> op_spec (OpClose c) e.
Proof.
  intros Hok Hc. pose proof (all_ok_at e c ch Hok Hc) as [Hn Hq]. unfold op_spec.
  cbn [run_op]. unfold close, has_pending_data_mut. rewrite Hc.
  destruct ch.(pending_data) eqn:Hp.
  - unfold st_bind. rewrite (byte_spec c _ e ch) by (done || apply Hn). split; [by left|].
    apply (effect_by e _ c ch None [EvClose] [] 0); [exact Hok|exact Hc|lia| | |done|other_channels..].
    + apply (closes_now ch [] (Forall_nil_2 _) (Forall_nil_2 _)) with (eof_it := false).
      * change (zlen (evs_bytes [])) with 0. destruct Hn as [_ [? _] _ _]. lia.
      * unfold pend. by rewrite Hp.
    + by rewrite ev_frames_one.
  - split; [by left|].
    apply (effect_by e _ c ch (Some (set_pending_controls ch.(pending_eof) true ch)) [] [] 0);
      [exact Hok|exact Hc|lia| | |done|other_channels..].
    + apply advances_control; [by apply chan_ok_controls, (all_ok_at e c ch)|done..|by rewrite app_nil_r|cbn; lia|done].
    + by rewrite app_nil_r.
Qed.

Lemma adjust_spec c n e ch :
  all_ok e -> e.(channels) !! c = Some ch -> is_u32 n -> op_spec (OpAdjust c n) e.
Proof.
  intros Hok Hc Hu. pose proof (all_ok_at e c ch Hok Hc) as [[Hr Hw Hm Hsw] Hq].
  unfold is_u32, U32_MOD in *. unfold op_spec.
  cbn [run_op fst snd]. unfold window_adjust. rewrite Hc. split; [by left|].
  eapply (effect_by e _ c ch (Some _) [] [] n); [exact Hok|exact Hc|lia| | |done|other_channels..].
  - apply advances_control; [|done..|by rewrite app_nil_r|cbn; lia|done].
    split; [|done]. split; cbn; unfold is_u32, U32_MOD, U32_MAX; lia.
  - by rewrite app_nil_r.
Qed.

Lemma consume_spec c n e ch : all_ok e -> e.(channels) !! c = Some ch -> op_spec (OpConsume c n) e.
Proof.
  intros Hok Hc. pose proof (all_ok_at e c ch Hok Hc) as [[Hr Hw Hm Hsw] Hq].
  unfold op_spec. cbn [run_op fst snd]. unfold consume_recv_window. rewrite Hc. split; [by left|].
  destruct (Z.leb_spec (to_u32 n) ch.(sender_window_size)); [|by apply effect_same].
  eapply (effect_by e _ c ch (Some _) [] [] 0); [exact Hok|exact Hc|lia| | |done|other_channels..].
  - apply advances_control; [|done..|by rewrite app_nil_r|cbn; lia|done].
    split; [|done]. split; [done..|]. cbn. unfold is_u32, to_u32, U32_MOD in *. dlia.
  - by rewrite app_nil_r.
Qed.

Lemma adjust_body_appends r n :
  is_u32 r -> is_u32 n ->
  appends (push_byte msg.CHANNEL_WINDOW_ADJUST ;;; enc_w (encode_u32 r) ;;; enc_w (encode_u32 n))
    (payload r (EvAdjust n)).
Proof.
  intros Hr Hn. unfold enc_w. apply (appends_bind _ _ [_]); [auto with wire|].
  apply appends_bind; auto with wire.
Qed.

Lemma grant_amount t u sw :
  is_u32 t -> is_u32 u -> is_u32 sw -> sw < saturating_sub t u / 2 -> is_u32 (saturating_sub t u - sw).
Proof.
  unfold is_u32, U32_MOD. intros. assert (0 <= saturating_sub t u <= t) by (unfold saturating_sub; lia).
  dlia.
Qed.

Lemma maybe_grant_eq c t u e ch :
  e.(channels) !! c = Some ch -> nums_ok ch -> is_u32 t -> is_u32 u ->
  maybe_grant_recv_window c t u e =
  let ceiling := saturating_sub t u in
  if ch.(sender_window_size) <? ceiling / 2 then
    (Ok true, put_channel c (set_sender_window_size ceiling ch)
      (set_write (e.(enc_write) ++ frame (payload ch.(recipient_channel)
         (EvAdjust (ceiling - ch.(sender_window_size))))) e.(write_cursor) e))
  else (Ok false, e).
Proof.
  intros Hc Hn Ht Hu. unfold maybe_grant_recv_window. rewrite Hc. cbv zeta.
  destruct (Z.ltb_spec ch.(sender_window_size) (saturating_sub t u / 2)) as [Hlt|]; [|done].
  pose proof (grant_amount t u _ Ht Hu (ok_sender _ Hn) Hlt) as Ha.
  unfold on_write.
  by rewrite (appends_push_packet _ _ (adjust_body_appends _ _ (ok_recipient _ Hn) Ha)).
Qed.

Lemma grant_spec c t u e ch :
  all_ok e -> e.(channels) !! c = Some ch -> is_u32 t -> is_u32 u -> op_spec (OpGrant c t u) e.
Proof.
  intros Hok Hc Ht Hu. pose proof (all_ok_at e c ch Hok Hc) as [Hn Hq].
  unfold op_spec. cbn [run_op]. unfold st_bind, st_ret. rewrite (maybe_grant_eq c t u e ch) by done.
  cbv zeta. destruct (_ <? _); cbn [fst snd]; (split; [by left|]); [|by apply effect_same].
  apply (effect_by e _ c ch (Some (set_sender_window_size (saturating_sub t u) ch))
    [EvAdjust (saturating_sub t u - ch.(sender_window_size))] [] 0);
    [exact Hok|exact Hc|lia| | |done|other_channels..].
  - apply advances_control; [|done..|by rewrite app_nil_r|cbn; lia|].
    + split; [|done]. split; [apply Hn..|]. cbn. unfold is_u32, saturating_sub in *. lia.
    + constructor; [right; eauto|constructor].
  - by rewrite ev_frames_one.
Qed.

(** Handing data to a channel. *)
Lemma data_spec c a buf rk e ch :
  all_ok e -> e.(channels) !! c = Some ch -> ext_ok a -> zlen buf <= USIZE_MAX ->
  op_spec (OpData c a buf rk) e.
Proof.
  intros Hok Hc Ha Hb. pose proof (all_ok_at e c ch Hok Hc) as [Hn Hq].
  assert (Hrefuse : ch.(confirmed) = false -> refused (OpData c a buf rk) e).
  { intros Hcf. exists c, a, buf, rk, ch. split_and!; try done. cbn [run_op]. unfold data_ext.
    by rewrite Hc, Hcf. }
  unfold op_spec. cbn [run_op]. unfold data_ext. rewrite Hc.
  assert (Hsub : forall c', submits (OpData c a buf rk) e c' =
    if c' =? c then (if ch.(confirmed) then tag a buf else []) else []).
  { intros c'. cbn [submits]. destruct (Z.eqb_spec c' c) as [->|]; [by rewrite Hc|].
    by destruct (e.(channels) !! c'). }
  destruct ch.(confirmed); cbn [negb] in *.
  2: { split; [right; by apply Hrefuse|]. apply effect_same; try done. intros c'. rewrite Hsub. apply if_nil. }
  destruct (negb (bool_decide (ch.(pending_data) = [])) || rk) eqn:Hqueue.
  - split; [by left|].
    eapply (effect_by e _ c ch (Some _) [] (tag a buf) 0);
      [exact Hok|exact Hc|lia| | |done|exact Hsub|other_channels].
    + apply advances_control; [|done..| |cbn; lia|done].
      * split; [by destruct Hn|]. cbn. apply Forall_app. split; [done|].
        apply Forall_singleton. split_and!; [done|apply zlen_nonneg|done|done].
      * unfold pend. cbn. rewrite queued_app. cbn. by rewrite app_nil_r.
    + by rewrite app_nil_r.
  - apply orb_false_iff in Hqueue as [Hp ->]. apply negb_false_iff, bool_decide_eq_true in Hp.
    rewrite data_noqueue_spec by done. fold (data_events ch buf a 0).
    destruct (data_events_spec ch buf a 0) as (Heb & Hen & Hfit); [done..|].
    set (n := sendable_len ch.(recipient_window_size) buf 0) in *.
    assert (Hw : 0 <= n <= ch.(recipient_window_size)).
    { destruct Hn as [_ [? _] _ _]. subst n. unfold sendable_len. lia. }
    set (rest := if n <? zlen buf then [(buf, a, n)] else []).
    assert (Hrest : tag a (ztake n buf) ++ queued rest = tag a buf).
    { subst rest. destruct (Z.ltb_spec n (zlen buf)).
      - cbn. by rewrite app_nil_r, <- tag_app, ztake_zdrop.
      - cbn. by rewrite app_nil_r, ztake_all. }
    cbn [fst snd]. split; [by left|].
    apply (effect_by e _ c ch (Some (advanced n rest ch)) (data_events ch buf a 0) (tag a buf) 0);
      [exact Hok|exact Hc|lia| |done| |exact Hsub|other_channels].
    + split.
      * split; [by apply nums_ok_advanced|]. cbn. subst rest.
        destruct (Z.ltb_spec n (zlen buf)); [|constructor].
        apply Forall_singleton. split_and!; done || lia.
      * done.
      * done.
      * rewrite Heb, zdrop_0. change (pend (advanced n rest ch)) with (queued rest).
        rewrite Hrest. unfold pend. by rewrite Hp.
      * rewrite Hen. cbn. lia.
      * done.
      * intros Hin. pose proof (data_events_is_data ch buf a 0) as Hd.
        rewrite Forall_forall in Hd. by apply Hd in Hin.
    + cbn [channels put_channel set_channels set_write].
      assert (Hadv : (if n <? zlen buf
        then set_pending_data (pending_data (set_recipient_window_size (ch.(recipient_window_size) - n) ch)
               ++ [(buf, a, n)]) (set_recipient_window_size (ch.(recipient_window_size) - n) ch)
        else set_recipient_window_size (ch.(recipient_window_size) - n) ch) = advanced n rest ch).
      { subst rest. unfold advanced. cbn [pending_data set_recipient_window_size]. rewrite Hp.
        destruct (n <? zlen buf); [done|]. destruct ch; cbn in *; by subst. }
      by rewrite Hadv.
Qed.

Definition finish_events (eof_it close_it : bool) : list event :=
  (if eof_it then [EvEof] else []) ++ (if close_it then [EvClose] else []).

(** The parked end-of-file and close, once nothing is queued. *)
Lemma handle_flushed_spec c e ch wr eof_it close_it :
  e.(channels) !! c = Some ch -> ch.(pending_data) = [] -> is_u32 ch.(recipient_channel) ->
  exists e', handle_flushed_channel c (Complete wr eof_it close_it) e = (Ok tt, e') /\
    e'.(enc_write) = e.(enc_write) ++ ev_frames ch.(recipient_channel) (finish_events eof_it close_it) /\
    e'.(channels) = if close_it then delete c e.(channels) else e.(channels).
Proof.
  intros Hc Hp Hr.
  assert (Hnone : forall e, e.(channels) !! c = Some ch -> has_pending_data_mut c e = None).
  { intros e0 H0. unfold has_pending_data_mut. by rewrite H0, Hp. }
  assert (Heof : exists e1, (if eof_it then eof c else st_ret tt) e = (Ok tt, e1) /\
    e1.(channels) = e.(channels) /\
    e1.(enc_write) = e.(enc_write) ++ ev_frames ch.(recipient_channel) (if eof_it then [EvEof] else [])).
  { destruct eof_it.
    - unfold eof. rewrite Hnone, (byte_spec c _ e ch) by done. eexists. split; [done|].
      split; [done|]. by rewrite ev_frames_one.
    - exists e. split; [done|]. split; [done|]. by rewrite app_nil_r. }
  destruct Heof as (e1 & He1 & Hch1 & Hw1). cbn [handle_flushed_channel]. unfold st_bind at 1.
  rewrite He1. unfold finish_events. rewrite ev_frames_app, app_assoc, <- Hw1, <- Hch1.
  rewrite <- Hch1 in Hc. destruct close_it.
  - unfold close. rewrite Hnone by done. unfold st_bind. rewrite (byte_spec c _ e1 ch) by done.
    eexists. split; [done|]. split; [by rewrite ev_frames_one|done].
  - exists e1. split; [done|]. split; [by rewrite app_nil_r|done].
Qed.

(** [flush_pending] of an open channel: everything the window lets through,
    then, if that was everything, the parked controls. *)
Lemma flush_pending_spec c e ch :
  all_ok e -> e.(channels) !! c = Some ch ->
  exists es q e', flush_pending c e = (Ok (zlen (evs_bytes es)), e') /\
    Forall is_data es /\ Forall (ev_fits ch.(recipient_maximum_packet_size)) es /\
    zlen (evs_bytes es) <= ch.(recipient_window_size) /\
    evs_bytes es ++ queued q = pend ch /\
    ((q <> [] /\ zlen (evs_bytes es) = ch.(recipient_window_size) /\
      chan_ok (advanced (zlen (evs_bytes es)) q ch) /\
      e'.(enc_write) = e.(enc_write) ++ ev_frames ch.(recipient_channel) es /\
      e'.(channels) = <[c := advanced (zlen (evs_bytes es)) q ch]> e.(channels)) \/
     (q = [] /\
      e'.(enc_write) = e.(enc_write) ++ ev_frames ch.(recipient_channel)
        (es ++ finish_events ch.(pending_eof) ch.(pending_close)) /\
      e'.(channels) = if ch.(pending_close) then delete c e.(channels)
        else <[c := set_pending_controls false false (advanced (zlen (evs_bytes es)) [] ch)]> e.(channels))).
Proof.
  intros Hok Hc. pose proof (all_ok_at e c ch Hok Hc) as [Hn Hq].
  unfold flush_pending, flush_channel. rewrite Hc.
  destruct (flush_channel_loop_spec ch.(pending_data) e.(enc_write) ch 0 Hn Hq)
    as (es & r & ch' & -> & Hd & Hf & Hw & Hout).
  destruct r as [wr|wr eb cb].
  - destruct Hout as (-> & Hnw & q & Hqq & Hne & _ & Hok' & ->).
    exists es, q. eexists. unfold st_bind. cbn [handle_flushed_channel]. unfold st_ret. cbn [wrote Z.add].
    split; [done|]. do 4 (split; [done|]). left. split_and!; done.
  - destruct Hout as (-> & -> & -> & Hqq & ->).
    exists es, []. cbn [queued flat_map]. rewrite app_nil_r. unfold st_bind.
    set (ch' := set_pending_controls false false (advanced (zlen (evs_bytes es)) [] ch)).
    set (e1 := put_channel c ch' (set_write (e.(enc_write) ++ ev_frames ch.(recipient_channel) es)
      e.(write_cursor) e)).
    destruct (handle_flushed_spec c e1 ch' (0 + zlen (evs_bytes es)) ch.(pending_eof) ch.(pending_close))
      as (e2 & -> & Hw2 & Hc2).
    { subst e1. cbn. by rewrite lookup_insert_eq. }
    { done. }
    { apply Hn. }
    exists e2. unfold st_ret. cbn [wrote Z.add]. split; [done|]. do 4 (split; [done|]). right.
    split; [done|]. split.
    + rewrite Hw2, ev_frames_app, app_assoc. done.
    + rewrite Hc2. destruct ch.(pending_close); [|done]. subst e1. cbn. by rewrite delete_insert_eq.
Qed.

Lemma finish_is_control b : Forall is_control (finish_events b false).
Proof. destruct b; repeat constructor. Qed.

Lemma flush_spec c e ch : all_ok e -> e.(channels) !! c = Some ch -> op_spec (OpFlush c) e.
Proof.
  intros Hok Hc. pose proof (all_ok_at e c ch Hok Hc) as [Hn Hq].
  destruct (flush_pending_spec c e ch Hok Hc) as (es & q & e' & Hfl & Hd & Hf & Hw & Hpend & Hcase).
  unfold op_spec. cbn [run_op]. unfold st_bind. rewrite Hfl. unfold st_ret. cbn [fst snd].
  split; [by left|].
  assert (Hnoclose : EvClose ∉ es).
  { intros Hin. rewrite Forall_forall in Hd. by apply Hd in Hin. }
  pose proof (zlen_nonneg (evs_bytes es)).
  destruct Hcase as [(Hne & Hnw & Hok' & Hw' & Hc')|(-> & Hw' & Hc')].
  - apply (effect_by e e' c ch (Some (advanced (zlen (evs_bytes es)) q ch)) es [] 0);
      [exact Hok|exact Hc|lia| |done|done|other_channels..].
    split; try done; [by rewrite app_nil_r|cbn; lia].
  - cbn [queued flat_map] in Hpend. rewrite app_nil_r in Hpend.
    assert (Hwin : zlen (evs_bytes es) <= ch.(recipient_window_size) + 0) by lia.
    destruct ch.(pending_close) eqn:Hcl.
    + apply (effect_by e e' c ch None (es ++ finish_events ch.(pending_eof) true) [] 0);
        [exact Hok|exact Hc|lia| |done|done|other_channels..].
      by apply closes_now.
    + apply (effect_by e e' c ch (Some (set_pending_controls false false (advanced (zlen (evs_bytes es)) [] ch)))
        (es ++ finish_events ch.(pending_eof) false) [] (0 + 0));
        [exact Hok|exact Hc|lia| |done|done|other_channels..].
      apply (advances_trans ch (advanced (zlen (evs_bytes es)) [] ch) (Some _) es
        (finish_events ch.(pending_eof) false) [] []).
      * split; try done; [split; [by apply nums_ok_advanced|constructor]|by rewrite !app_nil_r|cbn; lia].
      * apply advances_control; try done; [|cbn; lia|apply finish_is_control].
        apply chan_ok_controls. split; [by apply nums_ok_advanced|constructor].
Qed.

Lemma op_effect o e : all_ok e -> op_ok o -> op_spec o e.
Proof.
  intros Hok Ho. destruct (e.(channels) !! op_channel o) as [ch|] eqn:Hc.
  - destruct o; cbn [op_channel op_ok] in *.
    + destruct Ho. by eapply data_spec.
    + by eapply flush_spec.
    + by eapply eof_spec.
    + by eapply close_spec.
    + by eapply adjust_spec.
    + by eapply consume_spec.
    + destruct Ho. by eapply grant_spec.
  - destruct (absent_noop o e Hc) as (Hr & Hw & Hch). split; [by left|]. exists [].
    assert (Hs : forall c', submits o e c' = []).
    { intros c'. destruct o; cbn [submits op_channel] in *; try done.
      destruct (Z.eqb_spec c' c) as [->|]; [by rewrite Hc|]. by destruct (e.(channels) !! c'). }
    assert (Hg : forall c', 0 <= grants o c' /\ (e.(channels) !! c' <> None -> grants o c' = 0)).
    { intros c'. destruct o; cbn [grants op_channel op_ok] in *; try done.
      unfold is_u32 in Ho. destruct (Z.eqb_spec c' c) as [->|]; [split; [lia|done]|done]. }
    split.
    + by rewrite Hw, app_nil_r.
    + intros c' ch' E. rewrite Hch, E, Hs, (proj2 (Hg c')) by (by rewrite E).
      cbn. apply advances_refl. by apply (all_ok_at e c').
    + intros c' E. by rewrite Hch, Hs.
    + intros c'. apply Hg.
Qed.

Lemma run_effect os : forall e,
  all_ok e -> Forall op_ok os ->
  exists tr, effect e (run_ops os e) tr (submitted os e) (granted os).
Proof.
  induction os as [|o os IH]; intros e Hok Hos; cbn [run_ops submitted granted].
  { exists []. by apply effect_nothing. }
  apply Forall_cons_iff in Hos as [Ho Hos].
  destruct (op_effect o e Hok Ho) as [_ [tr1 H1]].
  destruct (IH (run_op o e).2 (effect_ok _ _ _ _ _ Hok H1) Hos) as [tr2 H2].
  exists (tr1 ++ tr2). by apply (effect_trans e _ _ tr1 tr2 _ _ _ _ H1 H2).
Qed.

(** C1. The channel stream is faithful.  Take any session whose channels are
    well formed and any sequence of operations on any of its channels: data
    and extended data (while rekeying or not), flushes, end-of-file, close,
    and window grants in both directions.  What the operations append to the
    staging buffer is a sequence of whole messages such that on each channel:
    the data bytes sent, followed by those still queued, are exactly the bytes
    queued before followed by the bytes handed over, in order and each on its
    own stream (none lost, duplicated, reordered or moved between normal and
    extended data); the bytes sent never exceed the peer's window plus its
    grants, nor a message the peer's maximum packet size; and a channel that
    was closed sent everything it was given, then exactly one CLOSE as its last
    message. *)
Theorem channel_stream os e :
  all_ok e -> Forall op_ok os ->
  exists tr,
    (run_ops os e).(enc_write) = e.(enc_write) ++ frames (trace_payloads e tr) /\
    forall c ch, e.(channels) !! c = Some ch ->
      channel_effect ch ((run_ops os e).(channels) !! c) (evs_of c tr)
        (submitted os e c) (granted os c).
Proof.
  intros Hok Hos. destruct (run_effect os e Hok Hos) as [tr [W C _ _]]. by exists tr.
Qed.

(** Operations on channels do not fail: from a well-formed session, any
    sequence of them succeeds, except that handing data to a channel which the
    peer has not confirmed is refused with [WrongChannel] and changes nothing;
    no index, length conversion or loop goes wrong, and the session stays well
    formed. *)
Theorem channel_ops_safe os o e :
  all_ok e -> Forall op_ok os -> op_ok o ->
  all_ok (run_ops os e) /\
  ((run_op o (run_ops os e)).1 = Ok tt \/ refused o (run_ops os e)).
Proof.
  intros Hok Hos Ho. destruct (run_effect os e Hok Hos) as [tr Hef].
  pose proof (effect_ok _ _ _ _ _ Hok Hef) as Hok'. split; [done|]. by apply op_effect.
Qed.

(** A flush is work-conserving and keeps the order data, end-of-file,
    close: [flush_pending] on an open channel sends as much of the queue as
    the peer's window allows, reports that number of bytes, and stops short
    only when the window is used up, the parked end-of-file and close staying
    parked; when the queue is drained it emits the parked end-of-file and then
    the parked close, each once and after all data, and only then forgets the
    channel. *)
Theorem flush_pending_ok c e ch :
  all_ok e -> e.(channels) !! c = Some ch ->
  exists es q e', flush_pending c e = (Ok (zlen (evs_bytes es)), e') /\
    Forall is_data es /\ evs_bytes es ++ queued q = pend ch /\
    ((q <> [] /\ zlen (evs_bytes es) = ch.(recipient_window_size) /\
      e'.(enc_write) = e.(enc_write) ++ ev_frames ch.(recipient_channel) es /\
      e'.(channels) = <[c := advanced (zlen (evs_bytes es)) q ch]> e.(channels)) \/
     (q = [] /\
      e'.(enc_write) = e.(enc_write) ++ ev_frames ch.(recipient_channel)
        (es ++ finish_events ch.(pending_eof) ch.(pending_close)) /\
      e'.(channels) = if ch.(pending_close) then delete c e.(channels)
        else <[c := set_pending_controls false false (advanced (zlen (evs_bytes es)) [] ch)]> e.(channels))).
Proof.
  intros Hok Hc. destruct (flush_pending_spec c e ch Hok Hc)
    as (es & q & e' & ? & ? & ? & ? & ? & [(? & ? & ? & ? & ?)|?]); exists es, q, e'; tauto.
Qed.
End Ops.
