(* ===== verification/ChannelIds.v ===== *)
(** * Allocation of channel numbers ([Encrypted::new_channel_id], [new_channel])

    The loops that look for a free number after [last_channel_id] end and find
    one as long as not every number is in use. *)

From stdpp Require Import base list numbers option gmap.
From Stdlib Require Import ZArith Lia.
From S2P Require Import Prelude LibInner Session.

(** The [i]-th number after [id], modulo 2^32. *)
Definition nth_id (id : Z) (i : nat) : Z := (id + Z.of_nat i) mod U32_MOD.

Lemma next_free_spec fuel : forall id (chans : gmap Z ChannelParams),
  is_u32 id ->
  match next_free_id fuel id chans with
  | Some r => chans !! r = None /\ is_u32 r /\
      exists i, r = nth_id id i /\ forall j, (j < i)%nat -> chans !! nth_id id j <> None
  | None => forall i, (i <= fuel)%nat -> chans !! nth_id id i <> None
  end.
Proof.
  assert (Hnext : forall id i, is_u32 id -> nth_id (wrapping_add32 id 1) i = nth_id id (S i)).
  { intros id i _. unfold nth_id, wrapping_add32. rewrite Z.add_mod_idemp_l by (unfold U32_MOD; lia).
    f_equal. lia. }
  assert (H0 : forall id, is_u32 id -> nth_id id 0 = id).
  { intros id Hid. unfold nth_id. rewrite Z.add_0_r. by apply to_u32_small. }
  induction fuel as [|fuel IH]; intros id chans Hid; cbn [next_free_id];
    destruct (chans !! id) as [ch|] eqn:Hc.
  - intros i Hi. replace i with O by lia. rewrite H0 by done. by rewrite Hc.
  - split; [done|]. split; [done|]. exists O. split; [by rewrite H0|lia].
  - specialize (IH (wrapping_add32 id 1) chans (to_u32_range _)).
    destruct (next_free_id fuel _ chans) as [r|].
    + destruct IH as (Hr & Hu & i & -> & Hj). split; [done|]. split; [done|].
      exists (S i). split; [by apply Hnext|]. intros [|j] Hlt; [rewrite H0 by done; by rewrite Hc|].
      rewrite <- Hnext by done. apply Hj. lia.
    + intros [|i] Hi; [rewrite H0 by done; by rewrite Hc|]. rewrite <- Hnext by done. apply IH. lia.
  - split; [done|]. split; [done|]. exists O. split; [by rewrite H0|lia].
Qed.

Lemma nth_id_inj id i j :
  Z.of_nat i < U32_MOD -> Z.of_nat j < U32_MOD -> nth_id id i = nth_id id j -> i = j.
Proof. unfold nth_id, U32_MOD. intros Hi Hj H. dlia. Qed.

(** Pigeonhole: [size] + 1 distinct numbers cannot all be in use. *)
Lemma next_free_total id (chans : gmap Z ChannelParams) :
  is_u32 id -> Z.of_nat (size chans) < U32_MOD ->
  exists r, next_free_id (size chans) id chans = Some r.
Proof.
  intros Hid Hs. pose proof (next_free_spec (size chans) id chans Hid) as H.
  destruct (next_free_id _ _ _) as [r|]; [by exists r|]. exfalso.
  set (ids := map (nth_id id) (seq 0 (S (size chans)))).
  assert (Hnd : NoDup ids).
  { apply NoDup_fmap_2_strong; [|apply NoDup_seq]. intros i j Hi Hj. rewrite elem_of_seq in Hi, Hj.
    apply nth_id_inj; lia. }
  assert (Hsub : list_to_set ids ⊆ dom chans).
  { intros r. rewrite elem_of_list_to_set. unfold ids. rewrite list_elem_of_fmap.
    intros (i & -> & Hi%elem_of_seq). apply elem_of_dom, not_eq_None_Some, H. lia. }
  apply subseteq_size in Hsub. rewrite size_list_to_set, size_dom in Hsub by done.
  unfold ids in Hsub. rewrite length_map, length_seq in Hsub. lia.
Qed.

(** C39. Channel numbers are fresh: while fewer than 2^32 channels are open,
    [Encrypted::new_channel] ends, and opens under a 32-bit number that no open
    channel has, the first free one after the last number given out; the new
    channel has the window and packet size asked for, is unconfirmed and may
    send nothing yet, and the other channels are untouched. *)
Theorem new_channel_fresh window_size maxpacket e :
  is_u32 e.(last_channel_id) -> Z.of_nat (size e.(channels)) < U32_MOD ->
  exists id, new_channel window_size maxpacket e =
      (Ok id, put_channel id (fresh_channel id window_size maxpacket) (set_last_channel_id id e)) /\
    is_u32 id /\ e.(channels) !! id = None /\
    (exists i, id = nth_id (e.(last_channel_id) + 1) i /\
      forall j, (j < i)%nat -> e.(channels) !! nth_id (e.(last_channel_id) + 1) j <> None) /\
    new_channel_id e = (Ok id, set_last_channel_id id e).
Proof.
  intros Hl Hs. unfold new_channel, new_channel_id.
  pose proof (to_u32_range (e.(last_channel_id) + 1) : is_u32 (wrapping_add32 e.(last_channel_id) 1)) as Hid.
  destruct (next_free_total (wrapping_add32 e.(last_channel_id) 1) e.(channels) Hid Hs) as [r Hr].
  pose proof (next_free_spec (size e.(channels)) _ e.(channels) Hid) as Hspec. rewrite Hr in Hspec |- *.
  destruct Hspec as (Hfree & Hu & i & Hi & Hj).
  assert (Hn : forall k, nth_id (wrapping_add32 e.(last_channel_id) 1) k = nth_id (e.(last_channel_id) + 1) k).
  { intros k. unfold nth_id, wrapping_add32. by rewrite Z.add_mod_idemp_l by (unfold U32_MOD; lia). }
  exists r. split_and!; try done. exists i. rewrite <- Hn. split; [done|].
  intros j Hlt. rewrite <- Hn. by apply Hj.
Qed.

Lemma new_channel_fresh_witness :
  let e := mkEncrypted {[ 0 := fresh_channel 0 1 1; 4294967295 := fresh_channel 4294967295 1 1 ]}
             4294967294 [] 0 0 false false in
  (new_channel 2097152 32768 e).1 = Ok 1.
Proof.
  cbv zeta.
  destruct (new_channel_fresh 2097152 32768
    (mkEncrypted {[ 0 := fresh_channel 0 1 1; 4294967295 := fresh_channel 4294967295 1 1 ]}
      4294967294 [] 0 0 false false)) as (id & H & _); [unfold is_u32, U32_MOD; cbn; lia|reflexivity|].
  vm_compute in H |- *. congruence.
Defined.
