(* ===== verification/SessionWriter.v ===== *)
(** * From the staging buffer to the packet writer

    [Encrypted::flush] undoes the framing of [push_packet!] and hands each
    payload to the writer; the [_with_writer] variants skip the staging buffer.
    Both are related to the same specification, the sequence of
    [packet_raw] calls ([send_all]), over any writer that satisfies
    [PacketSinkLaws]; [PacketWriter] does, up to the contents of its scratch
    buffer. *)

From stdpp Require Import base list numbers option gmap.
From Stdlib Require Import ZArith Lia.
From S2P Require Import Prelude Encoding LibInner Msg Cipher Compression PacketWriter Session ChannelStream.

(** ** The contract of a packet writer *)

(** Same result and equivalent writers; after a panic the writer is gone. *)
Definition outcome_equiv {W} `{Equiv W} (r1 r2 : res Error.error unit * W) : Prop :=
  r1.1 = r2.1 /\ (r1.1 = Panic \/ r1.2 ≡ r2.2).

Class PacketSinkLaws (W : Type) `{PacketSink W, Equiv W} : Prop := {
  sink_equiv :: Equivalence (≡@{W});
  sink_raw_proper p (w1 w2 : W) : w1 ≡ w2 -> outcome_equiv (sink_packet_raw p w1) (sink_packet_raw p w2);
  (** a packet that is built in the writer is the packet *)
  sink_write_raw f p (w : W) : appends f p ->
    outcome_equiv (sink_write_packet f w) (sink_packet_raw p w);
}.

Section Sink.
Context {enc : SshEncoding} `{!SshEncodingLaws enc}.
Context {W : Type} `{HW : PacketSink W, HE : Equiv W, !PacketSinkLaws W}.

Lemma outcome_equiv_trans (r1 r2 r3 : res Error.error unit * W) :
  outcome_equiv r1 r2 -> outcome_equiv r2 r3 -> outcome_equiv r1 r3.
Proof.
  unfold outcome_equiv. intros [H1 H2] [H3 H4]. split; [congruence|].
  destruct H2 as [|H2]; [by left|]. destruct H4 as [H4|H4]; [left; congruence|right].
  by etransitivity.
Qed.

(** The payloads, one after the other; on failure, those not yet accepted. *)
Fixpoint send_all (ps : list bytes) (w : W) : res Error.error unit * (list bytes * W) :=
  match ps with
  | [] => (Ok tt, ([], w))
  | p :: ps' =>
      match sink_packet_raw p w with
      | (Ok tt, w') => send_all ps' w'
      | (Err e, w') => (Err e, (ps, w'))
      | (Panic, w') => (Panic, (ps, w'))
      end
  end.

Definition sent (r : res Error.error unit * (list bytes * W)) : res Error.error unit * W := (r.1, r.2.2).

Lemma send_all_proper ps : forall w1 w2, w1 ≡ w2 ->
  outcome_equiv (sent (send_all ps w1)) (sent (send_all ps w2)).
Proof.
  induction ps as [|p ps IH]; intros w1 w2 Hw; cbn [send_all]; [by split; [|right]|].
  pose proof (sink_raw_proper p w1 w2 Hw) as [H1 H2].
  destruct (sink_packet_raw p w1) as [[[]|e|] w1'], (sink_packet_raw p w2) as [[[]|e'|] w2'];
    cbn [fst snd] in *; simplify_eq; try done.
  destruct H2; [done|]. by apply IH.
Qed.

Lemma send_all_app ps qs w :
  send_all (ps ++ qs) w =
  match send_all ps w with
  | (Ok tt, (_, w')) => send_all qs w'
  | (Err e, (l, w')) => (Err e, (l ++ qs, w'))
  | (Panic, (l, w')) => (Panic, (l ++ qs, w'))
  end.
Proof.
  revert w. induction ps as [|p ps IH]; intros w; cbn [send_all app]; [done|].
  destruct (sink_packet_raw p w) as [[[]|e|] w']; [apply IH|done|done].
Qed.

(** What is left over is a suffix; nothing is when all went well. *)
Lemma send_all_suffix ps w :
  (exists sent, ps = sent ++ (send_all ps w).2.1) /\ ((send_all ps w).1 = Ok tt -> (send_all ps w).2.1 = []).
Proof.
  revert w. induction ps as [|p ps IH]; intros w; cbn [send_all]; [split; [by exists []|done]|].
  destruct (sink_packet_raw p w) as [[[]|e|] w'].
  - destruct (IH w') as [[s Hs] H2]. split; [|done]. exists (p :: s). cbn. by rewrite <- Hs.
  - split; [by exists []|done].
  - split; [by exists []|done].
Qed.

(** ** [flush] *)

Definition payload_ok (p : bytes) : Prop := zlen p < U32_MOD.

Lemma flush_loop_spec ps : forall fuel pre w e,
  e.(enc_write) = pre ++ frames ps -> e.(write_cursor) = zlen pre -> Forall payload_ok ps ->
  (length (frames ps) <= fuel)%nat ->
  flush_loop fuel w e =
    let '(r, (rest, w')) := send_all ps w in
    (r, (w', set_write e.(enc_write) (zlen e.(enc_write) - zlen (frames rest)) e)).
Proof.
  induction ps as [|p ps IH]; intros fuel pre w e Hw Hc Hps Hf; cbn [send_all].
  { cbn [frames flat_map] in *. rewrite app_nil_r in Hw.
    replace (flush_loop fuel w e) with ((Ok tt, (w, e)) : res Error.error unit * (W * Encrypted)).
    2: { destruct fuel; cbn [flush_loop]; rewrite Hc, Hw, Z.ltb_irrefl; done. }
    destruct e; cbn in *. subst. unfold set_write. cbn. do 3 f_equal. rewrite zlen_nil. lia. }
  apply Forall_cons_iff in Hps as [Hp Hps]. unfold payload_ok in Hp.
  assert (Hfr : frames (p :: ps) = be32 (zlen p) ++ p ++ frames ps).
  { cbn [frames flat_map]. unfold frame. by rewrite <- app_assoc. }
  assert (Hlen : zlen e.(enc_write) = zlen pre + 4 + zlen p + zlen (frames ps)).
  { rewrite Hw, Hfr. zlia. }
  pose proof (zlen_nonneg p). pose proof (zlen_nonneg (frames ps)).
  destruct fuel as [|fuel]; [rewrite Hfr in Hf; cbn in Hf; lia|]. cbn [flush_loop].
  rewrite Hc. replace (zlen pre <? zlen e.(enc_write)) with true by (symmetry; apply Z.ltb_lt; lia).
  rewrite Hw, Hfr, zdrop_app_exact, read_u32_be32, to_u32_small by (done || unfold is_u32; lia).
  rewrite <- Hfr, <- Hw. replace (zlen e.(enc_write) <? zlen pre + 4 + zlen p) with false
    by (symmetry; apply Z.ltb_ge; lia).
  assert (Hbody : ztake (zlen p) (zdrop (zlen pre + 4) e.(enc_write)) = p).
  { rewrite Hw, Hfr, app_assoc, zdrop_app_exact by zlia. by rewrite ztake_app_exact. }
  rewrite Hbody. destruct (sink_packet_raw p w) as [[[]|x|] w'].
  - rewrite (IH fuel (pre ++ frame p) w'); [done| | |done|].
    + cbn [enc_write set_write]. rewrite Hw. cbn [frames flat_map]. by rewrite app_assoc.
    + cbn [write_cursor set_write]. rewrite zlen_app, zlen_frame. lia.
    + rewrite Hfr in Hf. rewrite length_app in Hf. cbn in Hf. rewrite length_app in Hf. lia.
  - do 2 f_equal. destruct e; cbn in *. unfold set_write. cbn. do 2 f_equal. rewrite Hfr. zlia.
  - do 2 f_equal. destruct e; cbn in *. unfold set_write. cbn. do 2 f_equal. rewrite Hfr. zlia.
Qed.

(** The rekey decision of [flush]. *)
Definition rekey_due (limits : Limits) (now : Z) (w : W) (e : Encrypted) : bool :=
  negb e.(kex_skip_exchange) &&
  (e.(rekey_wanted) || (limits.(rekey_write_limit) <=? sink_bytes w)
   || (limits.(rekey_time_limit) <=? saturating_sub now e.(last_rekey))).

(** C33. [Encrypted::flush] is the inverse of the staging framing: from a
    staging buffer that holds whole messages from its cursor on, it hands
    exactly these payloads, in order, to the packet writer.  If the writer
    takes them all, the buffer is cleared and the answer says whether a
    re-exchange is due (a rekey was asked for, or the byte or time limit is
    reached, and key exchange is not skipped); if the writer fails, the cursor
    stands at the first payload that was not accepted, so that a later flush
    neither repeats nor skips a packet. *)
Theorem flush_sends ps pre limits now (w : W) e :
  e.(enc_write) = pre ++ frames ps -> e.(write_cursor) = zlen pre -> Forall payload_ok ps ->
  match send_all ps w with
  | (Ok tt, (_, w')) =>
      exists e', flush limits now (w, e) = (Ok (rekey_due limits now w' e), (w', e')) /\
        e'.(enc_write) = [] /\ e'.(write_cursor) = 0 /\ e'.(channels) = e.(channels)
  | (Err x, (rest, w')) =>
      flush limits now (w, e) =
        (Err x, (w', set_write e.(enc_write) (zlen e.(enc_write) - zlen (frames rest)) e)) /\
      exists sent, ps = sent ++ rest /\
        zlen e.(enc_write) - zlen (frames rest) = zlen (pre ++ frames sent)
  | (Panic, _) => (flush limits now (w, e)).1 = Panic
  end.
Proof.
  intros Hw Hc Hps. unfold flush.
  rewrite (flush_loop_spec ps (length e.(enc_write)) pre w e); [|done..|rewrite Hw, length_app; lia].
  pose proof (send_all_suffix ps w) as Hsuf.
  destruct (send_all ps w) as [[[]|x|] [rest w']]; cbn [fst snd] in Hsuf.
  - destruct Hsuf as [_ Hrest]. rewrite (Hrest eq_refl). cbn [frames flat_map]. rewrite zlen_nil, Z.sub_0_r.
    cbn [enc_write write_cursor set_write]. rewrite Z.leb_refl. unfold rekey_due.
    cbn [kex_skip_exchange set_write rekey_wanted last_rekey].
    destruct e.(kex_skip_exchange); cbn [negb andb]; eexists; (split; [done|]); done.
  - split; [done|]. destruct Hsuf as [[sent ->] _]. exists sent. split; [done|].
    rewrite Hw, frames_app, !zlen_app. lia.
  - done.
Qed.

(** ** The direct path *)

(** Emitting straight to the writer follows the same chunks. *)
Lemma direct_loop_spec a m fuel : forall buf (w : W) ch,
  is_u32 ch.(recipient_channel) -> ext_ok a -> 1 <= m < U32_MOD ->
  (length buf <= fuel)%nat -> zlen buf <= ch.(recipient_window_size) < U32_MOD ->
  let ps := map (fun c => payload ch.(recipient_channel) (EvData a c)) (chunks_of m fuel buf) in
  let r := data_loop sink_write_packet a m fuel buf w ch in
  outcome_equiv (r.1, r.2.1) (sent (send_all ps w)) /\
  (r.1 = Ok tt -> r.2.2 = set_recipient_window_size (ch.(recipient_window_size) - zlen buf) ch).
Proof.
  induction fuel as [|fuel IH]; intros [|x buf] w ch Hr Ha Hm Hf Hw; cbn [data_loop chunks_of map send_all].
  1, 3: split; [by split; [|right]|]; intros _; rewrite zlen_nil, Z.sub_0_r; by destruct ch.
  { cbn in Hf. lia. }
  set (b := x :: buf) in *. set (off := Z.min (zlen b) m).
  assert (Hb : 1 <= zlen b) by (subst b; rewrite zlen_cons; pose proof (zlen_nonneg buf); lia).
  assert (Hoff : zlen (ztake off b) = off) by (rewrite zlen_ztake; lia).
  assert (Happ : appends (data_body ch a (ztake off b)) (payload ch.(recipient_channel) (EvData a (ztake off b))))
    by (apply data_body_appends; [done..|lia]).
  destruct (sink_write_raw _ _ w Happ) as [H1 H2].
  destruct (sink_write_packet _ w) as [[[]|e|] w1], (sink_packet_raw _ w) as [[[]|e'|] w2];
    cbn [fst snd] in H1, H2; try discriminate H1; try (by split; [|done]).
  destruct H2 as [|H2]; [done|].
  assert (Hd : zlen (zdrop off b) = zlen b - off) by (rewrite zlen_zdrop; lia).
  rewrite to_u32_small by (unfold is_u32; lia).
  destruct (IH (zdrop off b) w1 (set_recipient_window_size (ch.(recipient_window_size) - off) ch))
    as [IH1 IH2]; [done..| | |].
  { unfold zlen in *. lia. }
  { cbn [recipient_window_size set_recipient_window_size]. lia. }
  cbn [recipient_channel set_recipient_window_size recipient_window_size] in *. split.
  - eapply outcome_equiv_trans; [exact IH1|]. by apply send_all_proper.
  - intros Hok. rewrite IH2, set_window_window by done. f_equal. lia.
Qed.

Lemma data_noqueue_direct_spec (w : W) ch buf0 a from :
  nums_ok ch -> ext_ok a -> 0 <= from -> zlen buf0 <= USIZE_MAX ->
  let n := sendable_len ch.(recipient_window_size) buf0 from in
  let ps := map (payload ch.(recipient_channel)) (data_events ch buf0 a from) in
  let '(r, (w', ch')) := data_noqueue_direct w ch buf0 a from in
  match send_all ps w with
  | (Ok tt, (_, w1)) =>
      r = Ok n /\ ch' = set_recipient_window_size (ch.(recipient_window_size) - n) ch /\ w' ≡ w1
  | (Err x, (_, w1)) => r = Err x /\ w' ≡ w1
  | (Panic, _) => r = Panic
  end.
Proof.
  intros [Hr Hw Hm _] Ha Hfrom Hu n ps. unfold is_u32 in Hw. unfold data_noqueue_direct, send_window.
  assert (Hps : ps = map (fun c => payload ch.(recipient_channel) (EvData a c))
    (chunks ch.(recipient_maximum_packet_size) (ztake n (zdrop from buf0)))).
  { subst ps. unfold data_events. by rewrite map_map. }
  destruct (Z.leb_spec (zlen buf0) from) as [Hge|Hlt].
  { rewrite Hps. replace n with 0 by (subst n; unfold sendable_len; lia).
    rewrite ztake_0, Z.sub_0_r. split_and!; [done|by destruct ch|reflexivity]. }
  replace (Z.min (zlen buf0) _ - from) with n.
  2: { subst n. unfold sendable_len, checked_add. case_match eqn:E; cbn [default from_option id].
       - lia.
       - apply Z.leb_gt in E. lia. }
  replace (_ =? 0) with false by (symmetry; apply Z.eqb_neq; lia).
  set (b := ztake n (zdrop from buf0)) in *.
  assert (Hb : zlen b = n).
  { subst b n. unfold sendable_len. rewrite zlen_ztake, zlen_zdrop. lia. }
  destruct (direct_loop_spec a ch.(recipient_maximum_packet_size) (length b) b w ch) as [[H1 H2] H3];
    [done..|subst n; unfold sendable_len in *; lia|].
  rewrite Hps. unfold chunks. unfold sent in *. 
  destruct (data_loop _ _ _ _ _ _ _) as [[[]|e|] [w' ch']], (send_all _ w) as [[[]|e'|] [l w1]];
    cbn [fst snd] in *; simplify_eq; try done.
  - destruct H2 as [|H2]; [done|]. rewrite Hb in *. split_and!; [done|by apply H3|done].
  - destruct H2 as [|H2]; [done|]. done.
Qed.

(** The direct path is the staged path: with nothing staged,
    [data_with_writer] and [extended_data_with_writer] write out exactly the
    packets that [data] or [extended_data] would have staged, in the same
    order, leave the writer in an equivalent state and the session in the same
    state with an empty staging buffer, and report the same failures. *)
Theorem direct_is_staged c a buf rk (w : W) e :
  all_ok e -> ext_ok a -> zlen buf <= USIZE_MAX -> e.(enc_write) = [] ->
  let '(r, e1) := data_ext c a buf rk e in
  exists ps, e1.(enc_write) = frames ps /\
    let '(r', (w', e')) := data_with_writer c a buf rk (w, e) in
    match send_all ps w with
    | (Ok tt, (_, w1)) => r' = r /\ w' ≡ w1 /\ e' = set_write [] e.(write_cursor) e1
    | (Err x, (_, w1)) => r' = Err x /\ w' ≡ w1
    | (Panic, _) => r' = Panic
    end.
Proof.
  intros Hok Ha Hb Hempty. unfold data_ext, data_with_writer.
  assert (Hsame : forall e1, e1.(enc_write) = [] -> e1.(write_cursor) = e.(write_cursor) ->
    e1 = set_write [] e.(write_cursor) e1).
  { intros [] ? ?. cbn in *. by subst. }
  destruct (e.(channels) !! c) as [ch|] eqn:Hc.
  2: { exists []. split; [done|]. cbn. split_and!; [done|reflexivity|by apply Hsame]. }
  destruct (confirmed ch); cbn [negb].
  2: { exists []. split; [done|]. cbn. split_and!; [done|reflexivity|by apply Hsame]. }
  destruct (negb _ || rk).
  { exists []. split; [done|]. cbn [send_all]. split_and!; [done|reflexivity|].
    by apply Hsame. }
  destruct (Hok c ch Hc) as [Hn Hq]. rewrite data_noqueue_spec by done. fold (data_events ch buf a 0).
  set (n := sendable_len ch.(recipient_window_size) buf 0).
  exists (map (payload ch.(recipient_channel)) (data_events ch buf a 0)).
  split; [cbn; by rewrite Hempty|]. rewrite Hempty. cbn [data_any].
  pose proof (data_noqueue_direct_spec w ch buf a 0 Hn Ha ltac:(lia) Hb) as Hd. cbv zeta in Hd.
  destruct (data_noqueue_direct w ch buf a 0) as [r [w' ch']].
  destruct (send_all _ w) as [[[]|x|] [l w1]].
  - destruct Hd as (-> & -> & Hw'). split_and!; [done|done|]. unfold set_write, put_channel, set_channels.
    cbn. done.
  - destruct Hd as [-> Hw']. done.
  - by subst.
Qed.
End Sink.

(** ** [PacketWriter] is a packet sink *)
Section Instance_.
Context `{F : Flate2, !Flate2Laws F} {K : Type} `{HK : SealingKey K, !SealingKeyLaws K}.

(** The padding bytes of the [i]-th packet. *)
Context (rngs : nat -> Z -> bytes).
Context (Hrngs : forall i, fills (rngs i)).

(** The writer and how many packets it has built. *)
Record Writer : Type := mkWriter { pw : PacketWriter K; packets : nat }.

#[local] Instance writer_sink : PacketSink Writer := {|
  sink_packet_raw p w :=
    let '(r, pw') := packet_raw (rngs w.(packets)) p w.(pw) in (r, mkWriter pw' (S w.(packets)));
  sink_write_packet f w :=
    let '(r, pw') := write_packet (rngs w.(packets)) f w.(pw) in (r, mkWriter pw' (S w.(packets)));
  sink_bytes w := w.(pw).(write_buffer).(nbytes);
|}.

(** The scratch buffer [packet_buffer] is not observable. *)
#[local] Instance writer_equiv : Equiv Writer := fun w1 w2 =>
  with_packet_buffer [] w1.(pw) = with_packet_buffer [] w2.(pw) /\ w1.(packets) = w2.(packets).

Lemma packet_raw_scratch rng p v (x : PacketWriter K) :
  packet_raw rng p (with_packet_buffer v x) =
    let '(r, x') := packet_raw rng p x in (r, with_packet_buffer v x').
Proof.
  destruct p as [|b p]; [done|]. unfold packet_raw.
  unfold write_compressed_payload_into_output, finish_into. cbn.
  by repeat case_match; simplify_eq.
Qed.

#[local] Instance writer_sink_laws : PacketSinkLaws Writer.
Proof.
  split.
  - split.
    + by intros [].
    + intros [] [] [H1 H2]. by split.
    + intros [] [] [] [H1 H2] [H3 H4]. split; congruence.
  - intros p [x1 n1] [x2 n2] [Hx Hn]. cbn in Hx, Hn. subst n2. unfold outcome_equiv. cbn.
    assert (Hraw : forall x : PacketWriter K, packet_raw (rngs n1) p (with_packet_buffer [] x) =
      let '(r, x') := packet_raw (rngs n1) p x in (r, with_packet_buffer [] x')) by (intros; apply packet_raw_scratch).
    pose proof (Hraw x1) as R1. pose proof (Hraw x2) as R2. rewrite Hx, R2 in R1.
    destruct (packet_raw (rngs n1) p x1) as [r1 y1], (packet_raw (rngs n1) p x2) as [r2 y2].
    split; [exact (eq_sym (f_equal fst R1))|]. right.
    split; [exact (eq_sym (f_equal snd R1))|done].
  - intros f p [x n] Hf. unfold outcome_equiv. cbn.
    destruct (is_none_compress x.(compress_state)) eqn:Hc.
    + assert (Hcn : x.(compress_state) = CompressNone) by (by destruct (x.(compress_state))).
      destruct (write_packet_in_place_core (rngs n) f x p (Ok tt) (Hrngs n) Hcn Hf) as [<-|[H1 H2]].
      * destruct (packet_raw (rngs n) p x). split; [done|]. right. by split.
      * destruct (packet_raw _ _ _), (write_packet _ _ _). cbn in *. subst. by split; [|left].
    + unfold write_packet, prepare_packet. rewrite Hc, Hf. cbn [app].
      rewrite packet_raw_scratch. destruct (packet_raw (rngs n) p x) as [r y]. cbn.
      split; [done|]. right. by split.
Qed.
End Instance_.

(** ** Concrete sessions *)
Module SessionExample.
#[local] Existing Instance rfc4251.

Definition chan0 : ChannelParams := mkChannelParams 7 0 3 1000 2 32768 true false [] false false.
Definition e0 : Encrypted := mkEncrypted {[ 0 := chan0 ]} 0 [] 0 0 false false.
Definition ops : list chan_op :=
  [OpData 0 None [1; 2; 3; 4] false; OpEof 0; OpClose 0; OpAdjust 0 5; OpFlush 0].

Lemma chan0_ok : chan_ok chan0.
Proof. split; [split; unfold is_u32, U32_MOD; cbn; lia|constructor]. Qed.

Lemma e0_ok : all_ok e0.
Proof. unfold all_ok. cbn. apply map_Forall_singleton, chan0_ok. Qed.

Lemma ops_ok : Forall op_ok ops.
Proof.
  repeat constructor; cbn; unfold is_u32, U32_MOD, USIZE_MAX; try lia; done.
Qed.

(** Data in two messages, the rest after the window grant, then EOF and CLOSE. *)
Lemma run_ops_e0 :
  (run_ops ops e0).(enc_write) =
    frames [[94; 0; 0; 0; 7; 0; 0; 0; 2; 1; 2]; [94; 0; 0; 0; 7; 0; 0; 0; 1; 3];
            [94; 0; 0; 0; 7; 0; 0; 0; 1; 4]; [96; 0; 0; 0; 7]; [97; 0; 0; 0; 7]] /\
  (run_ops ops e0).(channels) = ∅.
Proof. split; vm_compute; reflexivity. Qed.

Lemma channel_stream_witness :
  exists tr,
    (run_ops ops e0).(enc_write) = frames (trace_payloads e0 tr) /\
    channel_effect chan0 ((run_ops ops e0).(channels) !! 0) (evs_of 0 tr)
      (submitted ops e0 0) (granted ops 0).
Proof.
  destruct (channel_stream ops e0 e0_ok ops_ok) as (tr & Hw & Hc). exists tr.
  split; [exact Hw|]. apply Hc. reflexivity.
Defined.

Lemma channel_ops_safe_witness :
  all_ok (run_ops ops e0) /\
  ((run_op (OpData 0 (Some 1) [9] true) (run_ops ops e0)).1 = Ok tt \/
   refused (OpData 0 (Some 1) [9] true) (run_ops ops e0)).
Proof.
  apply (channel_ops_safe ops (OpData 0 (Some 1) [9] true) e0 e0_ok ops_ok).
  split; [|vm_compute; discriminate]. intros ext [= <-]. unfold is_u32, U32_MOD. lia.
Defined.

Definition e1 : Encrypted := run_ops [OpData 0 None [1; 2; 3; 4] true; OpEof 0] e0.
Definition chan1 : ChannelParams :=
  mkChannelParams 7 0 3 1000 2 32768 true false [([1; 2; 3; 4], None, 0)] true false.

Lemma e1_ok : all_ok e1.
Proof.
  destruct (run_effect [OpData 0 None [1; 2; 3; 4] true; OpEof 0] e0 e0_ok) as [tr H].
  - repeat constructor; cbn; unfold USIZE_MAX; try lia; done.
  - exact (effect_ok _ _ _ _ _ e0_ok H).
Qed.

Lemma flush_pending_ok_witness :
  exists es q e', flush_pending 0 e1 = (Ok (zlen (evs_bytes es)), e') /\
    Forall is_data es /\ evs_bytes es ++ queued q = pend chan1.
Proof.
  destruct (flush_pending_ok 0 e1 chan1 e1_ok eq_refl) as (es & q & e' & H1 & H2 & H3 & _).
  exists es, q, e'. split; [exact H1|]. split; [exact H2|exact H3].
Defined.

(** The writer that records the payloads. *)
#[local] Existing Instance packet_log.
#[local] Instance log_equiv : Equiv (list bytes) := eq.
#[local] Instance log_sink_laws : PacketSinkLaws (list bytes).
Proof.
  split.
  - apply eq_equivalence.
  - intros p w1 w2 H. unfold equiv, log_equiv in H. subst. split; [done|]. by right.
  - intros f p w Hf. unfold outcome_equiv. cbn. rewrite Hf. split; [done|]. by right.
Qed.

Lemma flush_sends_witness :
  exists e', flush Limits_default 0 ([[1]], set_write (frames [[2]; [3; 4]]) 0 e0) =
      (Ok false, ([[1]; [2]; [3; 4]], e')) /\
    e'.(enc_write) = [] /\ e'.(write_cursor) = 0 /\ e'.(channels) = e0.(channels).
Proof.
  assert (Hps : Forall payload_ok [[2]; [3; 4]]) by (repeat constructor).
  exact (flush_sends [[2]; [3; 4]] [] Limits_default 0 [[1]] (set_write (frames [[2]; [3; 4]]) 0 e0)
    eq_refl eq_refl Hps).
Defined.

Lemma direct_is_staged_witness :
  let '(r, e2) := data_ext 0 None [1; 2; 3; 4] false e0 in
  exists ps, e2.(enc_write) = frames ps /\
    let '(r', (w', e')) := data_with_writer 0 None [1; 2; 3; 4] false ([] : list bytes, e0) in
    match send_all ps [] with
    | (Ok tt, (_, w1)) => r' = r /\ w' = w1 /\ e' = set_write [] 0 e2
    | (Err x, (_, w1)) => r' = Err x /\ w' = w1
    | (Panic, _) => r' = Panic
    end.
Proof.
  apply (direct_is_staged 0 None [1; 2; 3; 4] false ([] : list bytes) e0 e0_ok);
    [done|vm_compute; discriminate|reflexivity].
Defined.
End SessionExample.
