(* ===== verification/ServerSession.v ===== *)
(** * The server session and its channels
    ([russh/src/server/session.rs], [russh/src/server/encrypted.rs])

    How the server session receives on channels: the [CHANNEL_DATA],
    [CHANNEL_EXTENDED_DATA], [CHANNEL_EOF], [CHANNEL_CLOSE] and
    [CHANNEL_WINDOW_ADJUST] packets, the delivery to the application and to the
    handler's callbacks, the granting of receive window, the teardown of
    channels, and the producers waiting for their outbound data.

    The handler is the application's: [Handler] lists its callbacks as functions
    on the whole session, [HandlerLaws] states what a callback can do to the
    session through its public methods.

    Three fields of [Server] are history variables, not fields of the code:
    [arrived] (the items taken by [deliver_inbound]), [calls] (the callbacks
    made) and [resolved] (how the waiting producers were answered). *)

From stdpp Require Import base list numbers option gmap.
From Stdlib Require Import ZArith Lia.
From S2P Require Import Prelude Encoding LibInner Msg Channels PendingInbound Cipher Session Parsing.

Section Server.
Context {enc : SshEncoding} {Q : Mpsc} {W : Type} `{HW : PacketSink W}.

(** [config.max_pending_inbound_bytes], [config.max_pending_outbound_bytes]. *)
Record Config : Type := mkConfig {
  max_pending_inbound_bytes : Z;
  max_pending_outbound_bytes : Z;
}.

(** ** State *)
Record Server (H : Type) : Type := mkServer {
  inbox : Inbox;                        (* channels, inbound, inbound_needs_reserve *)
  writer : W;                           (* common.packet_writer *)
  encrypted : option Encrypted;         (* common.encrypted *)
  kex_active : bool;                    (* kex.active() *)
  target_window_size : Z;
  outbound_acks : gmap Z (list Z);
  windows : gmap Z WindowSizeRef;       (* by sender *)
  handler : H;
  arrived : list (Z * InboundItem);
  calls : list (Z * DeferredCallback);
  resolved : list (Z * bool);
}.
#[global] Arguments mkServer {H} _ _ _ _ _ _ _ _ _ _ _.
#[global] Arguments inbox {H} _.
#[global] Arguments writer {H} _.
#[global] Arguments encrypted {H} _.
#[global] Arguments kex_active {H} _.
#[global] Arguments target_window_size {H} _.
#[global] Arguments outbound_acks {H} _.
#[global] Arguments windows {H} _.
#[global] Arguments handler {H} _.
#[global] Arguments arrived {H} _.
#[global] Arguments calls {H} _.
#[global] Arguments resolved {H} _.

Section Fields.
Context {H : Type}.
Implicit Types s : Server H.

Definition set_inbox (v : Inbox) s : Server H :=
  mkServer v s.(writer) s.(encrypted) s.(kex_active) s.(target_window_size) s.(outbound_acks)
    s.(windows) s.(handler) s.(arrived) s.(calls) s.(resolved).
Definition set_encrypted (v : option Encrypted) s : Server H :=
  mkServer s.(inbox) s.(writer) v s.(kex_active) s.(target_window_size) s.(outbound_acks)
    s.(windows) s.(handler) s.(arrived) s.(calls) s.(resolved).
Definition set_writer (v : W) s : Server H :=
  mkServer s.(inbox) v s.(encrypted) s.(kex_active) s.(target_window_size) s.(outbound_acks)
    s.(windows) s.(handler) s.(arrived) s.(calls) s.(resolved).
Definition set_target (v : Z) (h : H) s : Server H :=
  mkServer s.(inbox) s.(writer) s.(encrypted) s.(kex_active) v s.(outbound_acks)
    s.(windows) h s.(arrived) s.(calls) s.(resolved).
Definition set_acks (v : gmap Z (list Z)) (r : list (Z * bool)) s : Server H :=
  mkServer s.(inbox) s.(writer) s.(encrypted) s.(kex_active) s.(target_window_size) v
    s.(windows) s.(handler) s.(arrived) s.(calls) r.
Definition set_windows (v : gmap Z WindowSizeRef) s : Server H :=
  mkServer s.(inbox) s.(writer) s.(encrypted) s.(kex_active) s.(target_window_size) s.(outbound_acks)
    v s.(handler) s.(arrived) s.(calls) s.(resolved).
Definition add_arrived (v : list (Z * InboundItem)) s : Server H :=
  mkServer s.(inbox) s.(writer) s.(encrypted) s.(kex_active) s.(target_window_size) s.(outbound_acks)
    s.(windows) s.(handler) (s.(arrived) ++ v) s.(calls) s.(resolved).
Definition add_call (v : Z * DeferredCallback) s : Server H :=
  mkServer s.(inbox) s.(writer) s.(encrypted) s.(kex_active) s.(target_window_size) s.(outbound_acks)
    s.(windows) s.(handler) s.(arrived) (s.(calls) ++ [v]) s.(resolved).
End Fields.

(** ** The application's handler *)
Class Handler (H E : Type) : Type := {
  (** [handler.data], [extended_data], [channel_eof], [channel_close] *)
  callback : Z -> DeferredCallback -> st (Server H) E unit;
  adjust_window : H -> Z -> Z -> Z * H;
  window_adjusted : Z -> Z -> st (Server H) E unit;
  from_error : Error.error -> E;
}.

Section Operations.
Context (config : Config) {H E : Type} {HH : Handler H E}.
Implicit Types s : Server H.

(** A callback, recorded. *)
Definition call (id : Z) (cb : DeferredCallback) : st (Server H) E unit := fun s =>
  callback id cb (add_call (id, cb) s).

(** [e?] of a [crate::Error] in a function that returns [H::Error]. *)
Definition up {A} (m : st (Server H) Error.error A) : st (Server H) E A := st_map_err from_error m.

(** Code on [self.common.encrypted.as_mut()], nothing when it is [None]. *)
Definition on_encrypted (m : EM unit) : st (Server H) Error.error unit := fun s =>
  match s.(encrypted) with
  | Some e => let '(r, e') := m e in (r, set_encrypted (Some e') s)
  | None => (Ok tt, s)
  end.

(** The same with the packet writer. *)
Definition on_writer {A} (default : A) (m : st (W * Encrypted) Error.error A)
  : st (Server H) Error.error A := fun s =>
  match s.(encrypted) with
  | Some e =>
      let '(r, (w', e')) := m (s.(writer), e) in (r, set_writer w' (set_encrypted (Some e') s))
  | None => (Ok default, s)
  end.

(** [self.outbound_acks.remove(&id)]: the producers' awaits fail. *)
Definition drop_acks (id : Z) s : Server H :=
  match s.(outbound_acks) !! id with
  | Some acks =>
      set_acks (delete id s.(outbound_acks)) (s.(resolved) ++ map (fun a => (a, false)) acks) s
  | None => s
  end.

(** ** Teardown *)
Definition finalize_close (id : Z) s : Server H :=
  let s1 := set_inbox (forget_channel id (teardown_inbound id s.(inbox))) s in
  let s2 := drop_acks id s1 in
  match s2.(encrypted) with
  | Some e => set_encrypted (Some (set_channels (delete id e.(Session.channels)) e)) s2
  | None => s2
  end.

Definition discard_channel_outbound (id : Z) : st (Server H) Error.error unit :=
  on_encrypted (close_discarding_pending id) ;;; st_mod (drop_acks id).

Definition enforce_outbound_cap (id : Z) : st (Server H) Error.error unit := fun s =>
  match s.(encrypted) with
  | None => (Ok tt, s)
  | Some e =>
      if pending_data_bytes id e <=? config.(max_pending_outbound_bytes) then (Ok tt, s)
      else (discard_channel_outbound id ;;; st_mod (finalize_close id)) s
  end.

(** ** Producers waiting for their data to leave *)

Definition release_acks (drained : list Z) s : Server H :=
  foldl (fun s id =>
    match s.(outbound_acks) !! id with
    | Some acks =>
        set_acks (delete id s.(outbound_acks)) (s.(resolved) ++ map (fun a => (a, true)) acks) s
    | None => s
    end) s drained.

Definition release_outbound_acks s : Server H :=
  match s.(encrypted) with
  | None => s
  | Some e =>
      release_acks (List.filter (fun id => negb (has_pending_data id e))
                      (map fst (map_to_list s.(outbound_acks)))) s
  end.

(** [Session::data] and [extended_data]. *)
Definition session_data (channel : Z) (a : option Z) (buf : bytes) : st (Server H) Error.error unit :=
  fun s =>
    match s.(encrypted) with
    | None => (Panic, s)
    | Some _ =>
        (on_writer tt (data_with_writer channel a buf s.(kex_active)) ;;;
         enforce_outbound_cap channel) s
    end.

Definition session_eof (channel : Z) : st (Server H) Error.error unit := fun s =>
  match s.(encrypted) with
  | None => (Panic, s)
  | Some _ => on_encrypted (Session.eof channel) s
  end.

Definition reader_gone (channel : Z) s : bool :=
  match s.(inbox).(PendingInbound.channels) !! channel with
  | Some snd =>
      match s.(inbox).(buffers) !! snd with Some c => is_closed c | None => true end
  | None => false
  end.

Definition session_close (channel : Z) : st (Server H) Error.error unit := fun s =>
  match s.(encrypted) with
  | None => (Panic, s)
  | Some _ =>
      (on_encrypted (Session.close channel) ;;;
       fun s1 =>
         let emitted :=
           match s1.(encrypted) with Some e => negb (channel_exists channel e) | None => false end in
         if emitted && reader_gone channel s1
         then (Ok tt, finalize_close channel s1) else (Ok tt, s1)) s
  end.

(** The [Msg::ChannelDataAcked] arm of [dispatch_msg]. *)
Definition dispatch_data_acked (id : Z) (ext : option Z) (buf : bytes) (ack : Z)
  : st (Server H) Error.error unit :=
  session_data id ext buf ;;;
  fun s =>
    let '(exists_, pending) :=
      match s.(encrypted) with
      | Some e => (channel_exists id e, has_pending_data id e)
      | None => (false, false)
      end in
    if negb exists_ then (Ok tt, set_acks s.(outbound_acks) (s.(resolved) ++ [(ack, false)]) s)
    else if pending then
      (Ok tt, set_acks (<[id := default [] (s.(outbound_acks) !! id) ++ [ack]]> s.(outbound_acks))
                s.(resolved) s)
    else (Ok tt, set_acks s.(outbound_acks) (s.(resolved) ++ [(ack, true)]) s).

(** ** Inbound delivery *)

Definition session_deliver (id : Z) (item : InboundItem) s : InboundDelivery * Server H :=
  let '(r, x) := deliver_inbound config.(max_pending_inbound_bytes) id item s.(inbox) in
  (r, add_arrived (map (pair id) (taken id item s.(inbox) r)) (set_inbox x s)).

(** [try_into().unwrap_or(u32::MAX)] of the bytes still queued. *)
Definition undelivered_bytes (id : Z) (x : Inbox) : Z :=
  Z.min (match x.(inbound) !! id with Some q => q.(pending_bytes) | None => 0 end) U32_MAX.

Definition maybe_grant_after_delivery (id : Z) : st (Server H) Error.error unit := fun s =>
  let grant :=
    match s.(encrypted) with
    | Some e =>
        let '(r, e') :=
          maybe_grant_recv_window id s.(target_window_size) (undelivered_bytes id s.(inbox)) e in
        (r, set_encrypted (Some e') s)
    | None => (Ok false, s)
    end in
  match grant with
  | (Ok true, s1) =>
      let '(w, h) := adjust_window s1.(handler) id s1.(target_window_size) in
      (Ok tt, set_target (if 0 <? w then w else s1.(target_window_size)) h s1)
  | (Ok false, s1) => (Ok tt, s1)
  | (Err e, s1) => (Err e, s1)
  | (Panic, s1) => (Panic, s1)
  end.

(** [permit.send(item.into_msg())], the permit being of sender [p]. *)
Definition send_permit (p : Z) (m : ChannelMsg) (x : Inbox) : Inbox :=
  set_buffers (alter (fun c => permit_send c m) p x.(buffers)) x.

(** The end of [pump_inbound]: reserve for the next item, or return the channel
    to the fast path. *)
Definition pump_rearm (id : Z) (x : Inbox) : Inbox :=
  match x.(inbound) !! id with
  | Some q =>
      match q.(queue) with
      | [] => set_inbound (delete id x.(inbound)) x
      | _ => push_needs id (put_queue id (set_reserving true q) x)
      end
  | None => x
  end.

(** The callback of a delivered item and what follows it. *)
Definition pump_finish (id : Z) (item : InboundItem) : st (Server H) E unit :=
  call id (capture item) ;;;
  match capture item with
  | Close => st_mod (finalize_close id)
  | _ => st_mod (fun s => set_inbox (pump_rearm id s.(inbox)) s)
  end.

(** A [reserve_owned()] future resolved: [res] is the permit's sender, or
    [None] when the receiver is gone. *)
Definition pump_inbound (id gen : Z) (res : option Z) : st (Server H) E unit := fun s =>
  match s.(inbox).(inbound) !! id with
  | None => (Ok tt, s)
  | Some q =>
      if negb (gen =? q.(generation)) then (Ok tt, s) else
      let q1 := set_reserving false q in
      let x1 := put_queue id q1 s.(inbox) in
      let s1 := set_inbox x1 s in
      match res with
      | None =>
          if q1.(close_queued)
          then (call id Close ;;; st_mod (finalize_close id)) s1
          else (Ok tt, set_inbox (teardown_inbound id x1) s1)
      | Some p =>
          match pop_front q1 with
          | None => (Ok tt, s1)
          | Some (item, q2) =>
              let s2 := set_inbox (send_permit p (to_msg item) (put_queue id q2 x1)) s1 in
              ((if grants_window item then up (maybe_grant_after_delivery id) else st_ret tt) ;;;
               pump_finish id item) s2
          end
      end
  end.

(** ** Packets received on channels ([server_read_authenticated])

    Each arm of [match msg] that concerns established channels; [r] is the packet
    after its message byte. *)

Definition is_established_channel (channel : Z) s : bool :=
  match s.(encrypted) with
  | Some e =>
      match e.(Session.channels) !! channel with Some ch => ch.(confirmed) | None => false end
  | None => false
  end.

Definition dec {A} (m : res EncError A) : res E A := map_err from_error (enc_err m).
Definition finished (r : bytes) : res E unit := map_err from_error (ensure_end r).

(** The [Delivered], [Overflow] and [ChannelGone] arms of both close paths. *)
Definition close_now (channel : Z) : st (Server H) E unit :=
  call channel Close ;;; st_mod (finalize_close channel).

Definition recv_channel_close (r : bytes) : st (Server H) E unit := fun s =>
  match (let? (channel, r) := dec (decode_u32 r) in let? _ := finished r in Ok channel) with
  | Err x => (Err x, s)
  | Panic => (Panic, s)
  | Ok channel =>
      if negb (is_established_channel channel s) then
        let we_closed_first :=
          match s.(encrypted) with Some e => negb (channel_exists channel e) | None => false end in
        if we_closed_first && bool_decide (is_Some (s.(inbox).(PendingInbound.channels) !! channel))
        then
          match session_deliver channel Close s with
          | (Queued, s1) => (Ok tt, s1)
          | (_, s1) => close_now channel s1
          end
        else (Ok tt, s)
      else
        match up (discard_channel_outbound channel) s with
        | (Ok tt, s1) =>
            match session_deliver channel Close s1 with
            | (Queued, s2) => (Ok tt, s2)
            | (_, s2) => close_now channel s2
            end
        | (Err x, s1) => (Err x, s1)
        | (Panic, s1) => (Panic, s1)
        end
  end.

Definition recv_channel_eof (r : bytes) : st (Server H) E unit := fun s =>
  match (let? (channel, r) := dec (decode_u32 r) in let? _ := finished r in Ok channel) with
  | Err x => (Err x, s)
  | Panic => (Panic, s)
  | Ok channel =>
      if negb (is_established_channel channel s) then (Ok tt, s)
      else
        match session_deliver channel Eof s with
        | (Delivered, s1) | (ChannelGone, s1) => call channel Eof s1
        | (Queued, s1) | (Overflow, s1) => (Ok tt, s1)
        end
  end.

(** What follows the decoding of [CHANNEL_DATA] and [CHANNEL_EXTENDED_DATA]. *)
Definition receive_data (channel : Z) (ext : option Z) (data : bytes) : st (Server H) E unit := fun s =>
  let s1 :=
    match s.(encrypted) with
    | Some e => set_encrypted (Some (consume_recv_window channel (zlen data) e)) s
    | None => s
    end in
  let item := match ext with Some x => ExtendedData x data | None => Data data end in
  match session_deliver channel item s1 with
  | (Delivered, s2) | (ChannelGone, s2) =>
      (up (maybe_grant_after_delivery channel) ;;; call channel item) s2
  | (Queued, s2) => (Ok tt, s2)
  | (Overflow, s2) =>
      (up (discard_channel_outbound channel) ;;;
       st_mod (fun s3 => set_inbox (forget_channel channel (teardown_inbound channel s3.(inbox))) s3)) s2
  end.

Definition recv_channel_data (m : Z) (r : bytes) : st (Server H) E unit := fun s =>
  match dec (decode_u32 r) with
  | Err x => (Err x, s)
  | Panic => (Panic, s)
  | Ok (channel, r1) =>
      if negb (is_established_channel channel s) then (Ok tt, s)
      else
        match
          (let? (ext, r2) :=
             if m =? msg.CHANNEL_DATA then Ok (None, r1)
             else let? (x, r2) := dec (decode_u32 r1) in Ok (Some x, r2) in
           let? (data, r3) := dec (decode_bytes r2) in
           let? _ := finished r3 in
           Ok (ext, data))
        with
        | Err x => (Err x, s)
        | Panic => (Panic, s)
        | Ok (ext, data) => receive_data channel ext data s
        end
  end.

(** The window given by the peer grows, the channel's backlog is sent, and the
    writer half of the application learns the window that is left. *)
Definition receive_window_adjust (channel amount : Z) : st (Server H) E unit := fun s =>
  match s.(encrypted) with
  | None => window_adjusted channel 0 s
  | Some e =>
      match e.(Session.channels) !! channel with
      | None => (Err (from_error Error.Inconsistent), s)
      | Some ch =>
          let new_size := Z.min (ch.(LibInner.recipient_window_size) + amount) U32_MAX in
          let s1 := set_encrypted (Some (window_adjust channel amount e)) s in
          (do n <- up (on_writer 0 (flush_pending_with_writer channel)) ;;
           fun s2 =>
             if new_size <? to_u32 n then (Panic, s2)   (* u32 subtraction *)
             else
               let new_size := new_size - to_u32 n in
               let s3 :=
                 match s2.(inbox).(PendingInbound.channels) !! channel with
                 | Some p =>
                     set_inbox (send_to p (ChannelMsg.WindowAdjusted new_size) s2.(inbox)).2
                       (set_windows (alter (update new_size) p s2.(windows)) s2)
                 | None => s2
                 end in
               window_adjusted channel new_size s3) s1
      end
  end.

Definition recv_window_adjust (r : bytes) : st (Server H) E unit := fun s =>
  match (let? (channel, r1) := dec (decode_u32 r) in
         let? (amount, r2) := dec (decode_u32 r1) in
         let? _ := finished r2 in Ok (channel, amount)) with
  | Err x => (Err x, s)
  | Panic => (Panic, s)
  | Ok (channel, amount) =>
      if negb (is_established_channel channel s) then (Ok tt, s)
      else receive_window_adjust channel amount s
  end.
End Operations.
End Server.
