(* ===== verification/ServerFrames.v ===== *)
(** * What the handling of channel packets respects

    The code of [ServerSession] changes a session through a few fields.  A
    relation between sessions that allows those changes ([ServerFrame]) is
    respected by every operation, however it ends, if it is by the callbacks of
    the application ([HandlerFrame]).  Two relations are used: the trivial one, and
    [keeps_keys], that the session has its keys before and after or not at all. *)

From stdpp Require Import base list numbers option gmap.
From Stdlib Require Import ZArith Lia.
From S2P Require Import Prelude Encoding Parsing LibInner Msg Channels PendingInbound Cipher Session ServerSession.

Section Frames.
Context {enc : SshEncoding} {Q : Mpsc} {W : Type} {HW : PacketSink W} {H : Type}.
Abbreviation Srv := (@Server Q W H).
Implicit Types s : Srv.

Class ServerFrame (R : Srv -> Srv -> Prop) : Prop := {
  frame_preorder :: PreOrder R;
  frame_inbox x s : R s (set_inbox x s);
  frame_encrypted e e' s : s.(encrypted) = Some e -> R s (set_encrypted (Some e') s);
  frame_writer w s : R s (set_writer w s);
  frame_target v h s : R s (set_target v h s);
  frame_acks a r s : R s (set_acks a r s);
  frame_windows w s : R s (set_windows w s);
  frame_arrived l s : R s (add_arrived l s);
  frame_call c s : R s (add_call c s);
}.

Class HandlerFrame (R : Srv -> Srv -> Prop) {E} {HH : Handler H E} : Prop := {
  callback_framed id cb : framed R (callback id cb);
  window_adjusted_framed id w : framed R (window_adjusted id w);
}.

End Frames.

(** The state changes by steps that the relation allows. *)
Ltac frame_trans :=
  match goal with
  | |- ?R ?s ?s => reflexivity
  | |- ?R ?s (set_inbox ?x ?s') => transitivity s'; [|apply frame_inbox]
  | |- ?R ?s (set_writer ?x ?s') => transitivity s'; [|apply frame_writer]
  | |- ?R ?s (set_target ?v ?h ?s') => transitivity s'; [|apply frame_target]
  | |- ?R ?s (set_acks ?a ?r ?s') => transitivity s'; [|apply frame_acks]
  | |- ?R ?s (set_windows ?x ?s') => transitivity s'; [|apply frame_windows]
  | |- ?R ?s (add_arrived ?x ?s') => transitivity s'; [|apply frame_arrived]
  | |- ?R ?s (add_call ?x ?s') => transitivity s'; [|apply frame_call]
  | He : encrypted ?s' = Some _ |- ?R ?s (set_encrypted (Some ?x) ?s') =>
      transitivity s'; [|by eapply frame_encrypted]
  end.

Section Framed.
Context {enc : SshEncoding} {Q : Mpsc} {W : Type} {HW : PacketSink W} {H : Type}.
Abbreviation Srv := (@Server Q W H).
Implicit Types s : Srv.

Section Operations.
Context (R : Srv -> Srv -> Prop) `{!ServerFrame R}.

Lemma on_encrypted_framed m : framed R (on_encrypted m : st Srv _ _).
Proof. intros s. unfold on_encrypted. destruct (encrypted s) eqn:He; [|done]. destruct (m e). cbn. by repeat frame_trans. Qed.

Lemma on_writer_framed {A} (d : A) m : framed R (on_writer d m : st Srv _ _).
Proof.
  intros s. unfold on_writer. destruct (encrypted s) eqn:He; [|done]. destruct (m _) as [r [w' e']]. cbn.
  by repeat frame_trans.
Qed.

Lemma drop_acks_framed id s : R s (drop_acks id s).
Proof. unfold drop_acks. case_match; by repeat frame_trans. Qed.

Lemma finalize_close_framed id s : R s (finalize_close id s).
Proof.
  unfold finalize_close. transitivity (drop_acks id (set_inbox (forget_channel id (teardown_inbound id s.(inbox))) s)).
  { etransitivity; [|apply drop_acks_framed]. by repeat frame_trans. }
  case_match eqn:He; [|done]. by repeat frame_trans.
Qed.

Lemma discard_framed id : framed R (discard_channel_outbound id : st Srv _ _).
Proof.
  apply framed_bind; [apply _|apply on_encrypted_framed|]. intros _. apply framed_mod, drop_acks_framed.
Qed.

Lemma enforce_cap_framed config id : framed R (enforce_outbound_cap config id : st Srv _ _).
Proof.
  intros s. unfold enforce_outbound_cap. destruct (encrypted s); [|done]. destruct (_ <=? _); [done|].
  apply framed_bind; [apply _|apply discard_framed|]. intros _. apply framed_mod, finalize_close_framed.
Qed.

Lemma release_acks_framed s : R s (release_outbound_acks s).
Proof.
  unfold release_outbound_acks. destruct (encrypted s); [|done]. unfold release_acks.
  generalize (List.filter (fun id => negb (has_pending_data id e)) (map fst (map_to_list (outbound_acks s)))).
  intros l. revert s. induction l as [|id l IH]; intros s; [done|]. cbn [foldl]. etransitivity; [|apply IH].
  case_match; by repeat frame_trans.
Qed.

Lemma session_data_framed config c a b : framed R (session_data config c a b : st Srv _ _).
Proof.
  intros s. unfold session_data. destruct (encrypted s); [|done].
  apply framed_bind; [apply _|apply on_writer_framed|]. intros _. apply enforce_cap_framed.
Qed.

Lemma session_eof_framed c : framed R (session_eof c : st Srv _ _).
Proof. intros s. unfold session_eof. destruct (encrypted s); [|done]. apply on_encrypted_framed. Qed.

Lemma session_close_framed c : framed R (session_close c : st Srv _ _).
Proof.
  intros s. unfold session_close. destruct (encrypted s); [|done].
  apply framed_bind; [apply _|apply on_encrypted_framed|]. intros _ s1.
  destruct (_ && _); [apply finalize_close_framed|done].
Qed.

Lemma data_acked_framed config id x b a : framed R (dispatch_data_acked config id x b a : st Srv _ _).
Proof.
  apply framed_bind; [apply _|apply session_data_framed|]. intros _ s.
  destruct (match encrypted s with Some e => _ | None => _ end) as [ex pe].
  destruct (negb ex); [|destruct pe]; cbn; by repeat frame_trans.
Qed.

Lemma deliver_framed config id item s : R s (session_deliver config id item s).2.
Proof. unfold session_deliver. destruct (deliver_inbound _ _ _ _). cbn. by repeat frame_trans. Qed.

Section Callbacks.
Context {E : Type} {HH : Handler H E} {HF : HandlerFrame R}.

Lemma grant_framed id : framed R (maybe_grant_after_delivery id : st Srv _ _).
Proof.
  intros s. unfold maybe_grant_after_delivery. destruct (encrypted s) as [e|] eqn:He; [|done].
  destruct (maybe_grant_recv_window _ _ _ _) as [r e'].
  assert (H1 : R s (set_encrypted (Some e') s)) by by repeat frame_trans.
  destruct r as [[]| |]; [|done..]. destruct (adjust_window _ _ _). cbn. etransitivity; [exact H1|].
  by repeat frame_trans.
Qed.

Lemma call_framed id cb : framed R (call id cb : st Srv E unit).
Proof. intros s. etransitivity; [apply frame_call|]. apply callback_framed. Qed.

Lemma up_framed {A} (m : st Srv Error.error A) : framed R m -> framed R (up m : st Srv E A).
Proof. apply framed_map_err. Qed.

Lemma close_now_framed id : framed R (close_now id : st Srv E unit).
Proof.
  apply framed_bind; [apply _|apply call_framed|]. intros _. apply framed_mod, finalize_close_framed.
Qed.

Lemma pump_finish_framed id item : framed R (pump_finish id item : st Srv E unit).
Proof.
  apply framed_bind; [apply _|apply call_framed|]. intros _.
  destruct (capture item); apply framed_mod; first [apply finalize_close_framed|intros; by repeat frame_trans].
Qed.

Lemma pump_inbound_framed id gen res : framed R (pump_inbound id gen res : st Srv E unit).
Proof.
  intros s. unfold pump_inbound. destruct (_ !! id) as [q|]; [|done]. destruct (negb _); [done|].
  cbv zeta. destruct res as [p|].
  - destruct (pop_front _) as [[item q2]|]; [|cbn; by repeat frame_trans].
    match goal with |- R _ (st_bind ?m ?k ?s0).2 => transitivity s0; [by repeat frame_trans|] end.
    apply framed_bind; [apply _| |intros; apply pump_finish_framed].
    destruct (grants_window item); [apply up_framed, grant_framed|apply framed_ret; apply _].
  - destruct (close_queued _); [|cbn; by repeat frame_trans].
    match goal with |- R _ (st_bind ?m ?k ?s0).2 => transitivity s0; [by repeat frame_trans|] end.
    apply close_now_framed.
Qed.

Lemma recv_close_framed config r : framed R (recv_channel_close config r : st Srv E unit).
Proof.
  intros s. unfold recv_channel_close. destruct (res_bind _ _) as [channel| |]; [|done..].
  destruct (negb _).
  - destruct (_ && _); [|done]. pose proof (deliver_framed config channel Close s) as Hd.
    destruct (session_deliver _ _ _ _) as [[] s1]; cbn [snd] in *; try done; (etransitivity; [exact Hd|apply close_now_framed]).
  - pose proof (up_framed _ (discard_framed channel) s) as Hu. destruct (up _ s) as [[[]| |] s1]; [|done..].
    cbn [snd] in Hu. etransitivity; [exact Hu|]. pose proof (deliver_framed config channel Close s1) as Hd.
    destruct (session_deliver _ _ _ _) as [[] s2]; cbn [snd] in *; try done; (etransitivity; [exact Hd|apply close_now_framed]).
Qed.

Lemma recv_eof_framed config r : framed R (recv_channel_eof config r : st Srv E unit).
Proof.
  intros s. unfold recv_channel_eof. destruct (res_bind _ _) as [channel| |]; [|done..].
  destruct (negb _); [done|]. pose proof (deliver_framed config channel Eof s) as Hd.
  destruct (session_deliver _ _ _ _) as [[] s1]; cbn [snd] in *; try done; (etransitivity; [exact Hd|apply call_framed]).
Qed.

Lemma receive_data_framed config c x d : framed R (receive_data config c x d : st Srv E unit).
Proof.
  intros s. unfold receive_data.
  set (s1 := match encrypted s with Some e => _ | None => s end).
  assert (H1 : R s s1) by (subst s1; case_match; [by repeat frame_trans|done]).
  etransitivity; [exact H1|]. clearbody s1. clear H1.
  pose proof (deliver_framed config c (match x with Some x => ExtendedData x d | None => Data d end) s1) as Hd.
  destruct (session_deliver _ _ _ _) as [[] s2]; cbn [snd] in *; try done; (etransitivity; [exact Hd|]).
  1, 3: apply framed_bind; [apply _|apply up_framed, grant_framed|intros; apply call_framed].
  apply framed_bind; [apply _|apply up_framed, discard_framed|]. intros _. apply framed_mod. intros; by repeat frame_trans.
Qed.

Lemma recv_data_framed config m r : framed R (recv_channel_data config m r : st Srv E unit).
Proof.
  intros s. unfold recv_channel_data. destruct (dec _) as [[channel r1]| |]; [|done..].
  destruct (negb _); [done|]. destruct (res_bind _ _) as [[x d]| |]; [|done..]. apply receive_data_framed.
Qed.

Lemma receive_adjust_framed c n : framed R (receive_window_adjust c n : st Srv E unit).
Proof.
  intros s. unfold receive_window_adjust. destruct (encrypted s) as [e|] eqn:He; [|apply window_adjusted_framed].
  destruct (_ !! c); [|done].
  match goal with |- R _ (st_bind ?m ?k ?s0).2 => transitivity s0; [by repeat frame_trans|] end.
  apply framed_bind; [apply _|apply up_framed, on_writer_framed|]. intros k s2.
  destruct (_ <? _); [done|]. cbv zeta.
  etransitivity; [|apply window_adjusted_framed]. case_match; by repeat frame_trans.
Qed.

Lemma recv_adjust_framed r : framed R (recv_window_adjust r : st Srv E unit).
Proof.
  intros s. unfold recv_window_adjust. destruct (res_bind _ _) as [[c n]| |]; [|done..].
  destruct (negb _); [done|]. apply receive_adjust_framed.
Qed.
End Callbacks.
End Operations.

(** ** The keys are there or not *)
Definition keeps_keys s s' : Prop := is_Some s'.(encrypted) <-> is_Some s.(encrypted).

#[export] Instance keeps_keys_frame : ServerFrame keeps_keys.
Proof.
  split; try done.
  - split; [done|]. intros s1 s2 s3 H1 H2. unfold keeps_keys in *. by rewrite H2.
Qed.
End Framed.
