(* ===== verification/ServerInbound.v ===== *)
(** * Inbound delivery of the server session: invariants

    The run loop's steps as a relation ([step]) and what holds in every state it
    reaches: the queues stay bounded and no queued item is forgotten, the
    application and the callbacks see each channel's items in order, and the
    receive window granted to the peer accounts for what is still undelivered. *)

From stdpp Require Import base list numbers option gmap.
From Stdlib Require Import ZArith Lia.
From S2P Require Import Prelude Encoding LibInner Msg Channels PendingInbound Cipher Session ServerSession.

Section Inbound.
Context {enc : SshEncoding} `{!SshEncodingLaws enc} {Q : Mpsc} {HQ : MpscLaws Q}.
Context {W : Type} {HW : PacketSink W}.
Context (config : Config) {H E : Type} {HH : @Handler Q W H E}.

(** The largest receive window: at least [config.window_size] and whatever
    [adjust_window] answers. *)
Context (max_window : Z).

Abbreviation cap := (config.(max_pending_inbound_bytes)).
Abbreviation reserves := (list (Z * Z * Z)) (only parsing).
Abbreviation Srv := (@Server Q W H).

(** ** What the session's sending side does to the receiving side *)

Definition window_of (s : Srv) (id : Z) : option Z :=
  match s.(encrypted) with
  | Some e => sender_window_size <$> e.(Session.channels) !! id
  | None => None
  end.

(** [frame s s']: channels may have been closed, and new ones opened; the
    delivery state of the others, the history, and the receive windows are those
    of [s]. *)
Record frame (s s' : Srv) : Prop := {
  fr_inbox : shrinks s.(inbox) s'.(inbox);
  fr_arrived : s'.(arrived) = s.(arrived);
  fr_calls : s'.(calls) = s.(calls);
  fr_target : s'.(target_window_size) = s.(target_window_size);
  fr_window : forall id, window_of s' id = window_of s id \/
    forall w, window_of s' id = Some w -> 0 <= w <= max_window /\ queue_of id s'.(inbox) = [];
}.

(** A callback acts on the session through its public methods, which send; and
    the windows it asks for are bounded. *)
Class HandlerLaws : Prop := {
  callback_frame id cb (s s' : Srv) : callback id cb s = (Ok tt, s') -> frame s s';
  window_adjusted_frame id n (s s' : Srv) : window_adjusted id n s = (Ok tt, s') -> frame s s';
  adjust_window_le h id t : (adjust_window h id t).1 <= max_window;
}.

Lemma frame_refl s : frame s s.
Proof. split; auto using shrinks_refl. Qed.

Lemma frame_trans s1 s2 s3 : frame s1 s2 -> frame s2 s3 -> frame s1 s3.
Proof.
  intros [I1 A1 C1 T1 W1] [I2 A2 C2 T2 W2]. split; try congruence; [by eapply shrinks_trans|].
  intros id. destruct (W2 id) as [->|]; [|by right]. destruct (W1 id) as [|Hw]; [by left|].
  right. intros w Hs. apply Hw in Hs as [? Hq]. split; [done|]. unfold queue_of in *.
  destruct I2 as (_ & _ & I2). destruct (I2 id) as [[_ ->]|[_ ->]]; done.
Qed.

Lemma shrinks_queue x x' id : shrinks x x' -> queue_of id x' = queue_of id x \/ queue_of id x' = [].
Proof.
  intros (_ & _ & Hs). unfold queue_of. destruct (Hs id) as [[_ ->]|[_ ->]]; [by left|by right].
Qed.

(** ** The invariant *)

(** The items of one channel in a history. *)
Definition on (id : Z) (l : list (Z * InboundItem)) : list InboundItem :=
  map snd (List.filter (fun p => p.1 =? id) l).

Lemma on_app id a b : on id (a ++ b) = on id a ++ on id b.
Proof. unfold on. by rewrite List.filter_app, map_app. Qed.

Lemma on_map id id' l : on id (map (pair id') l) = if decide (id' = id) then l else [].
Proof.
  unfold on. induction l as [|i l IH]; cbn; [by case_decide|].
  destruct (Z.eqb_spec id' id); cbn; rewrite IH; by repeat case_decide.
Qed.

(** Callbacks for items that were delivered: an empty payload is answered at
    once and not delivered. *)
Definition payload_calls (id : Z) (l : list (Z * DeferredCallback)) : list InboundItem :=
  List.filter (fun i => negb (empty_payload i)) (on id l).

Lemma payload_calls_app id a b : payload_calls id (a ++ b) = payload_calls id a ++ payload_calls id b.
Proof. unfold payload_calls. by rewrite on_app, List.filter_app. Qed.

(** [good R due s]: the delivery state is well formed with the reservations [R]
    in flight; the buffer of every channel whose receiver is there accepted,
    followed by what is queued, exactly what arrived; and so were the callbacks
    made, [due] being the ones about to be made. *)
Record good (R : reserves) (due : list (Z * DeferredCallback)) (s : Srv) : Prop := {
  g_inbox : inbox_ok cap s.(inbox) R;
  g_stream : forall id c l, holds s.(inbox) id c l -> is_closed c = false ->
    l = map to_msg (on id s.(arrived));
  g_calls : forall id c l, holds s.(inbox) id c l -> is_closed c = false ->
    payload_calls id (s.(calls) ++ due) ++ queue_of id s.(inbox) = on id s.(arrived);
}.

(** The window a peer may still use and the bytes it already used that wait for
    the application are within the maximum. *)
Record credit (s : Srv) : Prop := {
  cr_target : 0 <= s.(target_window_size) <= max_window;
  cr_window : forall id w, window_of s id = Some w ->
    0 <= w /\ w + total_bytes (queue_of id s.(inbox)) <= max_window;
}.

Lemma frame_good R due s s' : frame s s' -> good R due s -> good R due s'.
Proof.
  intros [Hi Ha Hc _ _] [Gi Gs Gc]. split.
  - by eapply shrinks_ok.
  - intros id c l Hl Ho. rewrite Ha. eapply Gs; [|done]. by eapply shrinks_holds.
  - intros id c l Hl Ho. rewrite Ha, Hc. rewrite <- (Gc id c l); [|by eapply shrinks_holds|done].
    f_equal. destruct Hl as (snd & Hsnd & _). destruct Hi as (_ & _ & Hi). unfold queue_of.
    destruct (Hi id) as [[_ ->]|[Hn _]]; [done|congruence].
Qed.

Lemma frame_credit s s' : frame s s' -> credit s -> credit s'.
Proof.
  intros [Hi _ _ Ht Hw] [Ct Cw]. split; [by rewrite Ht|]. intros id w Hs.
  destruct (Hw id) as [Heq|Hnew].
  - rewrite Heq in Hs. destruct (Cw id w Hs) as [Hw0 Hw1]. split; [done|].
    pose proof (total_bytes_nonneg (queue_of id s.(inbox))).
    destruct (shrinks_queue _ _ id Hi) as [->| ->]; [done|]. cbn. lia.
  - destruct (Hnew w Hs) as [? ->]. cbn. split; lia.
Qed.

(** The same delivery state and history. *)
Lemma good_same R due s s' :
  s'.(inbox) = s.(inbox) -> s'.(arrived) = s.(arrived) -> s'.(calls) = s.(calls) ->
  good R due s -> good R due s'.
Proof. intros Hi Ha Hc [Gi Gs Gc]. split; rewrite ?Hi, ?Ha, ?Hc; done. Qed.

(** ** The session's own operations *)

Lemma frame_acks (s : Srv) v r : frame s (set_acks v r s).
Proof. split; try done; [apply shrinks_refl|by left]. Qed.

Lemma frame_drop_acks (s : Srv) id : frame s (drop_acks id s).
Proof. unfold drop_acks. destruct (_ !! id); [apply frame_acks|apply frame_refl]. Qed.

(** Receive windows of the channels that [e'] still has. *)
Definition keeps_windows (e e' : Encrypted) : Prop :=
  forall id ch', e'.(Session.channels) !! id = Some ch' ->
    exists ch, e.(Session.channels) !! id = Some ch /\ ch'.(sender_window_size) = ch.(sender_window_size).

Lemma keeps_refl e : keeps_windows e e.
Proof. intros id ch. eauto. Qed.

Lemma keeps_trans e1 e2 e3 : keeps_windows e1 e2 -> keeps_windows e2 e3 -> keeps_windows e1 e3.
Proof. intros H1 H2 id ch Hc. apply H2 in Hc as (ch2 & Hc & ->). by apply H1. Qed.

Lemma keeps_same_channels e e' : e'.(Session.channels) = e.(Session.channels) -> keeps_windows e e'.
Proof. intros Hc id ch. rewrite Hc. eauto. Qed.

Lemma keeps_put e c ch ch' :
  e.(Session.channels) !! c = Some ch -> ch'.(sender_window_size) = ch.(sender_window_size) ->
  keeps_windows e (put_channel c ch' e).
Proof.
  intros Hc Hw id ch1. cbn. rewrite lookup_insert. case_decide; [intros [= <-]; subst; eauto|eauto].
Qed.

Lemma keeps_delete e c : keeps_windows e (set_channels (delete c e.(Session.channels)) e).
Proof. intros id ch. cbn. rewrite lookup_delete_Some. intros [_ ?]. eauto. Qed.

Lemma frame_encrypted (s : Srv) e e' :
  s.(encrypted) = Some e -> keeps_windows e e' -> frame s (set_encrypted (Some e') s).
Proof.
  intros He Hk. split; try done; [apply shrinks_refl|]. intros id. unfold window_of. cbn. rewrite He.
  destruct (e'.(Session.channels) !! id) as [ch'|] eqn:Hc; [|by right].
  left. apply Hk in Hc as (ch & -> & Hw). cbn. congruence.
Qed.

Lemma frame_finalize_close (s : Srv) id : frame s (finalize_close id s).
Proof.
  unfold finalize_close. set (s1 := set_inbox _ s).
  assert (H1 : frame s s1).
  { split; try done; [apply teardown_forget_shrinks|by left]. }
  pose proof (frame_trans _ _ _ H1 (frame_drop_acks s1 id)) as H2.
  destruct ((drop_acks id s1).(encrypted)) as [e|] eqn:He; [|done].
  eapply frame_trans; [exact H2|]. eapply frame_encrypted; [done|apply keeps_delete].
Qed.

Lemma byte_channels c m e : (byte c m e).2.(Session.channels) = e.(Session.channels).
Proof.
  unfold byte. destruct (_ !! c); [|done]. unfold on_write. by destruct (push_packet _ _).
Qed.

Lemma keeps_bind {A B} (m : EM A) (k : A -> EM B) e :
  keeps_windows e (m e).2 -> (forall a e', keeps_windows e' (k a e').2) ->
  keeps_windows e (st_bind m k e).2.
Proof.
  intros Hm Hk. unfold st_bind. destruct (m e) as [[a|x|] e']; cbn in *; [|done..].
  eapply keeps_trans; [done|apply Hk].
Qed.

Lemma keeps_byte c m e : keeps_windows e (byte c m e).2.
Proof. apply keeps_same_channels, byte_channels. Qed.

Lemma keeps_close_byte c e : keeps_windows e ((byte c msg.CHANNEL_CLOSE ;;; remove_channel c) e).2.
Proof. apply keeps_bind; [apply keeps_byte|]. intros _ e'. apply keeps_delete. Qed.

Lemma has_pending_mut_lookup c e ch :
  has_pending_data_mut c e = Some ch -> e.(Session.channels) !! c = Some ch.
Proof. unfold has_pending_data_mut. destruct (_ !! c) as [ch'|]; [|done]. by destruct ch'.(pending_data). Qed.

Lemma keeps_eof c e : keeps_windows e (Session.eof c e).2.
Proof.
  unfold Session.eof. destruct (has_pending_data_mut c e) eqn:Hp; [|apply keeps_byte].
  eapply keeps_put; [by apply has_pending_mut_lookup|done].
Qed.

Lemma keeps_close c e : keeps_windows e (Session.close c e).2.
Proof.
  unfold Session.close. destruct (has_pending_data_mut c e) eqn:Hp; [|apply keeps_close_byte].
  eapply keeps_put; [by apply has_pending_mut_lookup|done].
Qed.

Lemma keeps_close_discarding c e : keeps_windows e (close_discarding_pending c e).2.
Proof.
  unfold close_discarding_pending. destruct (e.(Session.channels) !! c) as [ch|] eqn:Hc;
    [|apply keeps_close_byte].
  eapply keeps_trans; [|apply keeps_close_byte]. by eapply keeps_put.
Qed.

Lemma data_loop_window {S} (emit : Encoding.writer Error.error -> st S Error.error unit) a m fuel :
  forall buf s ch, (data_loop emit a m fuel buf s ch).2.2.(sender_window_size) = ch.(sender_window_size).
Proof.
  induction fuel as [|fuel IH]; intros [|x buf] s ch; try done. cbn [data_loop].
  destruct (emit _ s) as [[[]|e|] s']; try done. by rewrite IH.
Qed.

Lemma send_window_window {S} (emit : Encoding.writer Error.error -> st S Error.error unit) s ch buf a from :
  (send_window emit s ch buf a from).2.2.(sender_window_size) = ch.(sender_window_size).
Proof.
  unfold send_window. repeat case_match; try done; simplify_eq/=;
    match goal with Hd : data_loop ?em ?a ?m ?f ?b ?s ?ch = _ |- _ =>
      rewrite <- (data_loop_window em a m f b s ch); by rewrite Hd end.
Qed.

Lemma data_any_window (w : W) wr ch buf a from :
  (data_any w wr ch buf a from).2.2.(sender_window_size) = ch.(sender_window_size).
Proof.
  unfold data_any, data_noqueue_direct, data_noqueue.
  destruct wr; [pose proof (send_window_window sink_write_packet w ch buf a from)|
                pose proof (send_window_window push_packet (z :: wr) ch buf a from)];
    by destruct (send_window _ _ _ _ _ _) as [? [? ?]].
Qed.

Lemma flush_loop_window (w : W) wr ch queue : forall sz,
  (flush_channel_with_writer_loop w wr ch queue sz).2.2.(sender_window_size) = ch.(sender_window_size).
Proof.
  revert w wr ch. induction queue as [|[[buf a] from] queue IH]; intros w wr ch sz;
    cbn [flush_channel_with_writer_loop].
  - unfold complete. by destruct ch.
  - pose proof (data_any_window w wr ch buf a from) as Hd.
    destruct (data_any w wr ch buf a from) as [[n|x|] [[w' wr'] ch']]; cbn in Hd |- *; try done.
    destruct (_ <? _); [done|]. by rewrite IH.
Qed.

Lemma keeps_handle_flushed c r e : keeps_windows e (handle_flushed_channel c r e).2.
Proof.
  destruct r as [|n eof_it close_it]; [apply keeps_refl|]. cbn [handle_flushed_channel].
  apply keeps_bind; [destruct eof_it; [apply keeps_eof|apply keeps_refl]|].
  intros _ e'. destruct close_it; [apply keeps_close|apply keeps_refl].
Qed.

Lemma keeps_flush_pending c (w : W) e : keeps_windows e (flush_pending_with_writer c (w, e)).2.2.
Proof.
  unfold flush_pending_with_writer. destruct (e.(Session.channels) !! c) as [ch|] eqn:Hc; [|apply keeps_refl].
  pose proof (flush_loop_window w e.(enc_write) ch ch.(pending_data) 0) as Hf.
  destruct (flush_channel_with_writer_loop _ _ _ _ _) as [r [[w' wr'] ch']]. cbn in Hf.
  set (e' := put_channel c ch' (set_write wr' e.(write_cursor) e)).
  assert (Hk : keeps_windows e e').
  { eapply keeps_trans; [by apply (keeps_same_channels e (set_write wr' e.(write_cursor) e))|].
    by eapply keeps_put. }
  destruct r as [r|x|]; [|done|done]. eapply keeps_trans; [exact Hk|].
  unfold on_enc. pose proof (keeps_bind (handle_flushed_channel c r) (fun _ => st_ret (wrote r)) e'
    (keeps_handle_flushed c r e') (fun _ => keeps_refl)) as Hb.
  by destruct (st_bind _ _ _).
Qed.

Lemma keeps_data c a buf rk (w : W) e : keeps_windows e (data_with_writer c a buf rk (w, e)).2.2.
Proof.
  unfold data_with_writer. destruct (e.(Session.channels) !! c) as [ch|] eqn:Hc; [|apply keeps_refl].
  destruct (negb _); [apply keeps_refl|]. destruct (_ || rk); [by eapply keeps_put|].
  pose proof (data_any_window w e.(enc_write) ch buf a 0) as Hd.
  destruct (data_any _ _ _ _ _ _) as [r [[w' wr'] ch']]. cbn in Hd.
  assert (Hk : forall ch2, ch2.(sender_window_size) = ch.(sender_window_size) ->
    keeps_windows e (put_channel c ch2 (set_write wr' e.(write_cursor) e))).
  { intros ch2 H2. eapply keeps_trans; [by apply (keeps_same_channels e (set_write wr' e.(write_cursor) e))|].
    by eapply keeps_put. }
  destruct r as [n|x|]; cbn; apply Hk; [|done..]. by destruct (n <? zlen buf).
Qed.

(** Operations of the sending side, on the whole session. *)
Lemma frame_preorder_inbound : PreOrder frame.
Proof. split; [intros s; apply frame_refl|intros s1 s2 s3; apply frame_trans]. Qed.

Abbreviation framed := (Prelude.framed frame).

Lemma framed_on_encrypted m : (forall e, keeps_windows e (m e).2) -> framed (on_encrypted m).
Proof.
  intros Hk s. unfold on_encrypted. destruct s.(encrypted) as [e|] eqn:He; [|apply frame_refl].
  specialize (Hk e). destruct (m e) as [r e']. by eapply frame_encrypted.
Qed.

Lemma framed_on_writer {A} (d : A) m :
  (forall w e, keeps_windows e (m (w, e)).2.2) -> framed (on_writer d m).
Proof.
  intros Hk s. unfold on_writer. destruct s.(encrypted) as [e|] eqn:He; [|apply frame_refl].
  specialize (Hk s.(writer) e). destruct (m _) as [r [w' e']]. cbn.
  destruct (frame_encrypted s e e' He Hk) as [F1 F2 F3 F4 F5]. by split.
Qed.

Lemma framed_discard id : framed (discard_channel_outbound id).
Proof.
  apply (@framed_bind _ frame frame_preorder_inbound _ _ _ _ _); [apply framed_on_encrypted; intros; apply keeps_close_discarding|].
  intros _. apply framed_mod. intros. apply frame_drop_acks.
Qed.

Lemma framed_enforce id : framed (enforce_outbound_cap config id).
Proof.
  intros s. unfold enforce_outbound_cap. destruct s.(encrypted); [|apply frame_refl].
  destruct (_ <=? _); [apply frame_refl|].
  apply (@framed_bind _ frame frame_preorder_inbound _ _ _ (discard_channel_outbound id)); [apply framed_discard|].
  intros _. apply framed_mod. intros. apply frame_finalize_close.
Qed.

Lemma framed_data c a buf : framed (session_data config c a buf).
Proof.
  intros s. unfold session_data. destruct s.(encrypted); [|apply frame_refl].
  apply (@framed_bind _ frame frame_preorder_inbound _ _ _ (on_writer tt _)); [apply framed_on_writer; intros; apply keeps_data|].
  intros _. apply framed_enforce.
Qed.

Lemma framed_eof c : framed (session_eof c).
Proof.
  intros s. unfold session_eof. destruct s.(encrypted); [|apply frame_refl].
  apply framed_on_encrypted. intros. apply keeps_eof.
Qed.

Lemma framed_close c : framed (session_close c).
Proof.
  intros s. unfold session_close. destruct s.(encrypted); [|apply frame_refl].
  apply (@framed_bind _ frame frame_preorder_inbound _ _ _ (on_encrypted (Session.close c))); [apply framed_on_encrypted; intros; apply keeps_close|].
  intros _ s1. destruct (_ && _); [apply frame_finalize_close|apply frame_refl].
Qed.

Lemma framed_dispatch id ext buf ack : framed (dispatch_data_acked config id ext buf ack).
Proof.
  apply (@framed_bind _ frame frame_preorder_inbound _ _ _ _ _); [apply framed_data|]. intros _ s.
  destruct s.(encrypted); cbn; repeat case_match; simplify_eq; apply frame_acks.
Qed.

(** ** Delivery *)

Hypothesis cap_range : 0 <= cap < USIZE_MAX.

(** The callback that is due after a delivery. *)
Definition due_after (r : InboundDelivery) (id : Z) (item : InboundItem) : list (Z * DeferredCallback) :=
  match r with Delivered | ChannelGone => [(id, item)] | Queued | Overflow => [] end.

Lemma payload_calls_one id id' item :
  payload_calls id [(id', item)] =
    if decide (id' = id) then if empty_payload item then [] else [item] else [].
Proof.
  unfold payload_calls. change [(id', item)] with (map (pair id') [item]). rewrite on_map.
  case_decide; [|done]. cbn. by destruct (empty_payload item).
Qed.

Lemma session_deliver_good R id item s :
  good R [] s ->
  let '(r, s') := session_deliver config id item s in
  good R (due_after r id item) s' /\
  s'.(encrypted) = s.(encrypted) /\ s'.(target_window_size) = s.(target_window_size) /\
  (forall id', queue_of id' s'.(inbox) =
     queue_of id' s.(inbox) ++ (if decide (id' = id /\ r = Queued) then taken id item s.(inbox) r else [])) /\
  (r = Overflow -> s'.(inbox) = s.(inbox) /\ cap < total_bytes (queue_of id s.(inbox)) + byte_len item).
Proof.
  intros [Gi Gs Gc]. unfold session_deliver.
  pose proof (deliver_inbound_spec cap id item s.(inbox) R cap_range Gi) as Hd.
  destruct (deliver_inbound cap id item s.(inbox)) as [r x].
  destruct Hd as [Dok Dch Dst Dgone Dq Dfast Ddrop Doth Dover].
  split; [|done]. cbn.
  (* a channel that is there afterwards was there before *)
  assert (Hback : forall id' c l, holds x id' c l -> is_closed c = false ->
    exists c0 l0, holds s.(inbox) id' c0 l0 /\ is_closed c0 = false /\
      l = l0 ++ map to_msg (if decide (id' = id) then taken id item s.(inbox) r else [])).
  { intros id' c l Hl Ho. assert (Hl' := Hl). destruct Hl' as (snd & Hs & Hb & _). rewrite Dch in Hs.
    destruct (ib_senders _ _ _ Gi _ _ Hs) as [c0 Hc0].
    assert (H0 : holds s.(inbox) id' c0 (stream c0 ++ map to_msg (queue_of id' s.(inbox)))) by (by exists snd).
    destruct (Dst id' _ _ H0) as (c1 & H1 & Hc1). exists c0. eexists. split; [exact H0|].
    destruct Hl as (s2 & Hs2 & Hb2 & ->), H1 as (s1 & Hs1 & Hb1 & E1). simplify_eq.
    split; [congruence|done]. }
  split; [done|..]; cbn [inbox arrived calls add_arrived set_inbox].
  - intros id' c l Hl Ho. destruct (Hback id' c l Hl Ho) as (c0 & l0 & H0 & Ho0 & ->).
    rewrite (Gs id' c0 l0 H0 Ho0), on_app, on_map, map_app. clear - Q.
    destruct (decide (id' = id)) as [->|]; [by rewrite decide_True|by rewrite decide_False by congruence].
  - intros id' c l Hl Ho. destruct (Hback id' c l Hl Ho) as (c0 & l0 & H0 & Ho0 & ->).
    pose proof (Gc id' c0 l0 H0 Ho0) as Hcalls. rewrite app_nil_r in Hcalls.
    rewrite payload_calls_app, Dq, on_app, <- Hcalls, on_map, <- !app_assoc. f_equal.
    destruct (decide (id = id')) as [<-|Hne].
    2: { rewrite decide_False by (intros [? _]; done). rewrite app_nil_r.
         replace (payload_calls id' (due_after r id item)) with ([] : list InboundItem); [done|].
         unfold due_after. destruct r; try done; by rewrite payload_calls_one, decide_False. }
    destruct r; cbn [due_after].
    + rewrite (decide_False (P := id = id /\ _)) by (intros [_ ?]; done).
      rewrite payload_calls_one, !decide_True by done. unfold taken.
      destruct (dropped id item s.(inbox)) eqn:Hdr.
      * rewrite Ddrop by done. by rewrite !app_nil_r.
      * rewrite Dfast by done. destruct (empty_payload item) eqn:He; [|done].
        unfold dropped in Hdr. by rewrite He in Hdr.
    + by rewrite !decide_True.
    + by rewrite (decide_False (P := id = id /\ _)) by (intros [_ ?]; done).
    + exfalso. rewrite (Dgone eq_refl c0 _ H0) in Ho0. done.
Qed.

(** ** Granting window *)

Lemma maybe_grant_channels c t u e b e' :
  maybe_grant_recv_window c t u e = (Ok b, e') ->
  if b then
    exists ch, e.(Session.channels) !! c = Some ch /\
      ch.(sender_window_size) < saturating_sub t u / 2 /\
      e'.(Session.channels) =
        <[c := set_sender_window_size (saturating_sub t u) ch]> e.(Session.channels)
  else e'.(Session.channels) = e.(Session.channels).
Proof.
  unfold maybe_grant_recv_window. destruct (e.(Session.channels) !! c) as [ch|] eqn:Hc; [|by intros [= <- <-]].
  destruct (Z.ltb_spec ch.(sender_window_size) (saturating_sub t u / 2)) as [Hlt|]; [|by intros [= <- <-]].
  unfold on_write. destruct (push_packet _ _) as [[[]|x|] wr]; intros [= <- <-].
  exists ch. split; [done|]. split; [done|]. done.
Qed.

Lemma grant_inbox id s s' :
  maybe_grant_after_delivery id s = (Ok tt, s') ->
  s'.(inbox) = s.(inbox) /\ s'.(arrived) = s.(arrived) /\ s'.(calls) = s.(calls).
Proof.
  unfold maybe_grant_after_delivery.
  destruct s.(encrypted) as [e|]; [|by intros [= <-]].
  destruct (maybe_grant_recv_window _ _ _ e) as [[[]|x|] e']; [|by intros [= <-]|done..].
  cbn. destruct (adjust_window _ _ _). by intros [= <-].
Qed.

Context {HL : HandlerLaws}.
Hypothesis max_range : max_window <= U32_MAX.

Lemma undelivered_spec R id x : inbox_ok cap x R ->
  undelivered_bytes id x = Z.min (total_bytes (queue_of id x)) U32_MAX.
Proof.
  intros Hok. unfold undelivered_bytes, queue_of. destruct (x.(inbound) !! id) as [q|] eqn:Hq; [|done].
  destruct (ib_queues _ _ _ Hok _ _ Hq) as [Hqok _]. by rewrite (qok_bytes _ _ Hqok).
Qed.

Lemma grant_credit id s s' :
  undelivered_bytes id s.(inbox) = Z.min (total_bytes (queue_of id s.(inbox))) U32_MAX ->
  credit s -> maybe_grant_after_delivery id s = (Ok tt, s') -> credit s'.
Proof.
  intros Hund [Ct Cw] Hg. destruct (grant_inbox id s s' Hg) as (Hi & _ & _).
  unfold maybe_grant_after_delivery in Hg.
  destruct s.(encrypted) as [e|] eqn:He; [|by injection Hg as <-].
  destruct (maybe_grant_recv_window _ _ _ e) as [[b|x|] e'] eqn:Hm; [|by simpl in Hg..].
  apply maybe_grant_channels in Hm. destruct b.
  - destruct Hm as (ch & Hch & Hlt & He').
    pose proof (adjust_window_le s.(handler) id s.(target_window_size)) as Hle. cbn in Hg.
    destruct (adjust_window s.(handler) id s.(target_window_size)) as [w h]. cbn in Hle.
    injection Hg as <-. split; cbn; [destruct (Z.ltb_spec 0 w); lia|].
    intros id' w'. unfold window_of. cbn. rewrite He', lookup_insert. case_decide as Hid.
    + subst id'. cbn. intros [= <-]. rewrite Hund in *.
      pose proof (total_bytes_nonneg (queue_of id s.(inbox))).
      unfold saturating_sub in *. specialize (Cw id ch.(sender_window_size)).
      unfold window_of in Cw. rewrite He, Hch in Cw. destruct (Cw eq_refl) as [Hw0 Hw1].
      unfold U32_MAX in *.
      destruct (Z.max_spec (target_window_size s - Z.min (total_bytes (queue_of id (inbox s))) 4294967295) 0)
        as [[Hx Ex]|[Hx Ex]]; rewrite Ex in *; [|lia].
      replace (0 / 2) with 0 in Hlt by done. lia.
    + intros Hw. apply (Cw id' w'). unfold window_of. by rewrite He.
  - injection Hg as <-. split; [done|]. intros id' w'. unfold window_of. cbn. rewrite Hm.
    intros Hw. apply (Cw id' w'). unfold window_of. by rewrite He.
Qed.

(** ** Callbacks *)
Lemma call_good R id cb s s' :
  good R [(id, cb)] s -> call id cb s = (Ok tt, s') -> good R [] s'.
Proof.
  intros [Gi Gs Gc] Hc. unfold call in Hc. apply callback_frame in Hc.
  eapply frame_good; [exact Hc|]. split; [done..|]. cbn. by rewrite app_nil_r.
Qed.

Lemma call_credit id cb s s' : credit s -> call id cb s = (Ok tt, s') -> credit s'.
Proof.
  intros [Ct Cw] Hc. unfold call in Hc. apply callback_frame in Hc. eapply frame_credit; [exact Hc|].
  by split.
Qed.

Lemma up_ok {A} (m : st Srv Error.error A) s a s' : up m s = (Ok a, s') -> m s = (Ok a, s').
Proof. unfold up, st_map_err. destruct (m s) as [[]]; cbn; congruence. Qed.

(** [keeps_ok m]: when [m] succeeds both invariants are preserved. *)
Definition preserves (m : st Srv E unit) : Prop := forall R s s',
  m s = (Ok tt, s') -> good R [] s -> good R [] s' /\ (credit s -> credit s').

Lemma frame_preserves (f : Srv -> Srv) :
  (forall s, frame s (f s)) -> preserves (st_mod f).
Proof. intros Hf R s s' [= <-] Hg. split; [by eapply frame_good|by apply frame_credit]. Qed.

Lemma close_now_spec R id s s' :
  close_now id s = (Ok tt, s') -> good R [(id, Close)] s -> good R [] s' /\ (credit s -> credit s').
Proof.
  intros Hm Hg. apply st_bind_ok in Hm as ([] & s1 & H1 & [= <-]). split.
  - eapply frame_good; [apply frame_finalize_close|]. by eapply call_good.
  - intros Hc. eapply frame_credit; [apply frame_finalize_close|]. by eapply call_credit.
Qed.

(** ** Receiving *)

Lemma deliver_credit R id item s r s1 :
  good R [] s -> session_deliver config id item s = (r, s1) ->
  0 <= s.(target_window_size) <= max_window ->
  (forall id' w, window_of s id' = Some w -> 0 <= w /\
     w + total_bytes (queue_of id' s.(inbox)) + (if decide (id' = id) then byte_len item else 0)
       <= max_window) ->
  credit s1.
Proof.
  intros Hg Hd Ht Hw. pose proof (session_deliver_good R id item s Hg) as H1. rewrite Hd in H1.
  destruct H1 as (_ & He & Htg & Hq & _). split; [by rewrite Htg|]. intros id' w Hs.
  unfold window_of in Hs. rewrite He in Hs. destruct (Hw id' w Hs) as [Hw0 Hw1]. split; [done|].
  rewrite Hq, total_bytes_app. pose proof (byte_len_nonneg item).
  destruct (decide (id' = id /\ r = Queued)) as [[-> ->]|Hn].
  - rewrite decide_True in Hw1 by done. unfold taken. destruct (dropped _ _ _); cbn; lia.
  - cbn. destruct (decide (id' = id)); lia.
Qed.

(** A control item adds nothing to the bytes that wait. *)
Lemma deliver_control_credit R id item s r s1 :
  good R [] s -> session_deliver config id item s = (r, s1) -> byte_len item = 0 -> credit s -> credit s1.
Proof.
  intros Hg Hd Hb [Ct Cw]. eapply deliver_credit; try done. intros id' w Hw.
  destruct (Cw id' w Hw) as [? ?]. split; [done|]. rewrite Hb. destruct (decide _); lia.
Qed.

Lemma recv_close_preserves r : preserves (recv_channel_close config r).
Proof.
  intros R s s' Hm Hg. unfold recv_channel_close in Hm.
  destruct (res_bind _ _) as [channel|x|]; [|done..].
  assert (Hdeliver : forall s0, good R [] s0 ->
    match session_deliver config channel Close s0 with
    | (Queued, s1) => (Ok tt, s1)
    | (_, s1) => close_now channel s1
    end = (Ok tt, s') -> good R [] s' /\ (credit s0 -> credit s')).
  { intros s0 H0 Hd. pose proof (session_deliver_good R channel Close s0 H0) as H1.
    pose proof (deliver_control_credit R channel Close s0) as H2.
    destruct (session_deliver config channel Close s0) as [rr s1]. specialize (H2 _ _ H0 eq_refl eq_refl).
    destruct H1 as (H1 & _ & _ & _ & H1o). destruct rr; cbn [due_after] in H1.
    - apply (close_now_spec R) in Hd as [? ?]; auto.
    - injection Hd as <-. auto.
    - destruct (H1o eq_refl) as [_ Hbad]. cbn in Hbad.
      destruct H0 as [Gi _ _]. exfalso. unfold queue_of in Hbad. destruct (s0.(inbox).(inbound) !! channel) as [q|] eqn:Hq.
      + destruct (ib_queues _ _ _ Gi _ _ Hq) as [Hqok _]. pose proof (qok_cap _ _ Hqok).
        rewrite (qok_bytes _ _ Hqok) in *. lia.
      + cbn in Hbad. lia.
    - apply (close_now_spec R) in Hd as [? ?]; auto. }
  destruct (negb (is_established_channel channel s)).
  - destruct (_ && _); [by apply Hdeliver|]. by injection Hm as <-.
  - destruct (up (discard_channel_outbound channel) s) as [[[]|x|] s1] eqn:Hd; [|done..].
    apply up_ok in Hd. pose proof (framed_discard channel s) as Hf. rewrite Hd in Hf. cbn in Hf.
    destruct (Hdeliver s1) as [H1 H2]; [by eapply frame_good|done|].
    split; [done|]. intros Hc. apply H2. by eapply frame_credit.
Qed.

Lemma recv_eof_preserves r : preserves (recv_channel_eof config r).
Proof.
  intros R s s' Hm Hg. unfold recv_channel_eof in Hm.
  destruct (res_bind _ _) as [channel|x|]; [|done..].
  destruct (negb _); [by injection Hm as <-|].
  pose proof (session_deliver_good R channel Eof s Hg) as H1.
  pose proof (deliver_control_credit R channel Eof s) as H2.
  destruct (session_deliver config channel Eof s) as [rr s1]. specialize (H2 _ _ Hg eq_refl eq_refl).
  destruct H1 as (H1 & _ & _ & _ & H1o). destruct rr; cbn [due_after] in H1;
    try (injection Hm as <-; auto; done).
  - split; [by eapply call_good|]. intros. eapply call_credit; [|done]. auto.
  - split; [by eapply call_good|]. intros. eapply call_credit; [|done]. auto.
Qed.

(** The peer stays within the window it was granted. *)
Definition obeys (id len : Z) (s : Srv) : Prop := forall w, window_of s id = Some w -> len <= w.

Lemma consume_window c n (s : Srv) e :
  s.(encrypted) = Some e -> 0 <= n -> obeys c n s -> credit s ->
  forall id w, window_of (set_encrypted (Some (consume_recv_window c n e)) s) id = Some w ->
    exists w0, window_of s id = Some w0 /\ 0 <= w /\ w + (if decide (id = c) then n else 0) = w0.
Proof.
  intros He Hn Ho [Ct Cw] id w. unfold window_of. cbn. rewrite He. unfold consume_recv_window.
  destruct (e.(Session.channels) !! c) as [ch|] eqn:Hc.
  - assert (Hwin : window_of s c = Some ch.(sender_window_size)) by (unfold window_of; by rewrite He, Hc).
    specialize (Ho _ Hwin). destruct (Cw _ _ Hwin) as [Hw0 Hw1].
    pose proof (total_bytes_nonneg (queue_of c s.(inbox))).
    rewrite to_u32_small by (unfold is_u32, U32_MAX, U32_MOD in *; lia).
    replace (n <=? sender_window_size ch) with true by lia. cbn. rewrite lookup_insert.
    case_decide as Hid; [subst id; rewrite decide_True by done|rewrite decide_False by done].
    + cbn. intros [= <-]. exists ch.(sender_window_size). rewrite Hc. split; [done|]. lia.
    + intros Hw. exists w. split; [done|]. destruct (Cw id w) as [? ?]; [unfold window_of; by rewrite He|]. lia.
  - intros Hw. exists w. split; [done|].
    destruct (Cw id w) as [? ?]; [unfold window_of; by rewrite He|].
    case_decide; [subst; by rewrite Hc in Hw|]. lia.
Qed.

Lemma receive_data_preserves channel ext data R s s' :
  receive_data config channel ext data s = (Ok tt, s') -> good R [] s ->
  good R [] s' /\ (obeys channel (zlen data) s -> credit s -> credit s').
Proof.
  intros Hm Hg. unfold receive_data in Hm.
  set (s1 := match s.(encrypted) with Some _ => _ | None => _ end) in Hm.
  set (item := match ext with Some _ => _ | None => _ end) in Hm.
  assert (Hg1 : good R [] s1) by (unfold s1; destruct s.(encrypted); [by apply (good_same R [] s)|done]).
  assert (Hlen : byte_len item = zlen data) by (unfold item; by destruct ext).
  pose proof (session_deliver_good R channel item s1 Hg1) as Hd1.
  destruct (session_deliver config channel item s1) as [rr s2] eqn:Hd.
  destruct Hd1 as (Hg2 & _ & _ & _ & _).
  assert (Hc2 : obeys channel (zlen data) s -> credit s -> credit s2).
  { intros Ho Hc. eapply deliver_credit; [exact Hg1|exact Hd|..].
    - unfold s1. destruct s.(encrypted); apply Hc.
    - intros id' w Hw. unfold s1 in Hw. destruct s.(encrypted) as [e|] eqn:He.
      + destruct (consume_window channel (zlen data) s e He (zlen_nonneg _) Ho Hc id' w Hw)
          as (w0 & Hw0 & Hpos & <-).
        destruct (cr_window _ Hc _ _ Hw0) as [_ Hle].
        replace (queue_of id' s1.(inbox)) with (queue_of id' s.(inbox)) by (unfold s1; by rewrite ?He).
        rewrite Hlen. split; [done|]. lia.
      + unfold window_of in Hw. by rewrite He in Hw. }
  assert (Hgo : good R [(channel, item)] s2 ->
    st_bind (up (maybe_grant_after_delivery channel)) (fun _ => call channel item) s2 = (Ok tt, s') ->
    good R [] s' /\ (obeys channel (zlen data) s -> credit s -> credit s')).
  { intros Hg3 Hb. apply st_bind_ok in Hb as ([] & s3 & Hgr & Hcall). apply up_ok in Hgr.
    destruct (grant_inbox _ _ _ Hgr) as (Hi & Ha & Hc). split.
    - eapply call_good; [|exact Hcall]. by eapply good_same.
    - intros Ho Hcr. eapply call_credit; [|exact Hcall]. eapply grant_credit; [|by apply Hc2|exact Hgr].
      eapply undelivered_spec. apply Hg3. }
  destruct rr; cbn [due_after] in Hg2.
  - by apply Hgo.
  - injection Hm as <-. auto.
  - apply st_bind_ok in Hm as ([] & s3 & Hdis & [= <-]). apply up_ok in Hdis.
    pose proof (framed_discard channel s2) as Hf. rewrite Hdis in Hf. cbn in Hf.
    assert (Hf2 : frame s3 (set_inbox (forget_channel channel (teardown_inbound channel s3.(inbox))) s3)).
    { split; try done; [apply teardown_forget_shrinks|by left]. }
    pose proof (frame_trans _ _ _ Hf Hf2) as Hf3. split; [by eapply frame_good|].
    intros Ho Hc. eapply frame_credit; [exact Hf3|]. auto.
  - by apply Hgo.
Qed.

Lemma holds_channels x x' id c l :
  x'.(PendingInbound.channels) = x.(PendingInbound.channels) -> x'.(buffers) = x.(buffers) ->
  queue_of id x' = queue_of id x -> holds x' id c l -> holds x id c l.
Proof. intros Hc Hb Hq (p & H1 & H2 & ->). exists p. by rewrite <- Hc, <- Hb, <- Hq. Qed.

(** [WindowAdjusted] notices are not part of the inbound stream. *)
Lemma notice_good R due p n s :
  good R due s -> good R due (set_inbox (send_to p (ChannelMsg.WindowAdjusted n) s.(inbox)).2 s).
Proof.
  intros [Gi Gs Gc]. unfold send_to. destruct (s.(inbox).(buffers) !! p) as [c0|] eqn:Hp; [|by split].
  destruct (try_send c0 (ChannelMsg.WindowAdjusted n)) as [c1 rr] eqn:Ht. cbn.
  assert (Hc : stream c1 = stream c0 /\ (is_closed c1 = false -> is_closed c0 = false)).
  { destruct rr.
    - apply try_send_ok in Ht as [Ha Hcl]. unfold stream. rewrite Ha, List.filter_app. cbn.
      by rewrite app_nil_r, Hcl.
    - apply try_send_full in Ht. by subst.
    - apply try_send_closed in Ht as [-> _]. done. }
  destruct Hc as [Hst Hcl].
  assert (Hh : forall id c l, holds (set_buffers (<[p := c1]> s.(inbox).(buffers)) s.(inbox)) id c l ->
    is_closed c = false -> exists c', holds s.(inbox) id c' l /\ is_closed c' = false).
  { intros id c l (q & H1 & H2 & ->) Ho. cbn in H1, H2. rewrite lookup_insert in H2.
    case_decide as Hq; [subst q; simplify_eq|].
    - exists c0. split; [|auto]. exists p. by rewrite Hst.
    - exists c. split; [|done]. by exists q. }
  split; cbn; [by apply set_buffer_ok|..].
  - intros id c l Hl Ho. destruct (Hh id c l Hl Ho) as (c' & ? & ?). by apply (Gs id c').
  - intros id c l Hl Ho. destruct (Hh id c l Hl Ho) as (c' & ? & ?). by apply (Gc id c' l).
Qed.

Lemma window_adjust_keeps channel amount e : keeps_windows e (window_adjust channel amount e).
Proof.
  unfold window_adjust. destruct (e.(Session.channels) !! channel) eqn:Hc; [by eapply keeps_put|apply keeps_refl].
Qed.

Lemma recv_adjust_preserves r : preserves (recv_window_adjust r).
Proof.
  intros R s s' Hm Hg. unfold recv_window_adjust in Hm.
  destruct (res_bind _ _) as [[channel amount]|x|]; [|done..].
  destruct (negb _); [by injection Hm as <-|]. unfold receive_window_adjust in Hm.
  assert (Hwa : forall s0, window_adjusted channel 0 s0 = (Ok tt, s') -> frame s0 s')
    by (intros; by eapply window_adjusted_frame).
  destruct s.(encrypted) as [e|] eqn:He.
  2: { specialize (Hwa s Hm). split; [by eapply frame_good|by apply frame_credit]. }
  destruct (e.(Session.channels) !! channel) as [ch|]; [|done].
  apply st_bind_ok in Hm as (n & s2 & Hf & Hm). apply up_ok in Hf. set (s1 := set_encrypted _ s) in Hf.
  assert (Hf1 : frame s s1) by (eapply frame_encrypted; [done|apply window_adjust_keeps]).
  pose proof (framed_on_writer 0 (flush_pending_with_writer channel)
    (fun w e => keeps_flush_pending channel w e) s1) as Hf2. rewrite Hf in Hf2. cbn in Hf2.
  pose proof (frame_trans _ _ _ Hf1 Hf2) as Hf3. destruct (_ <? _); [done|].
  set (n' := _ - _) in Hm. set (s3 := match _ with Some p => _ | None => s2 end) in Hm.
  apply window_adjusted_frame in Hm.
  assert (Hg2 : good R [] s2) by (by eapply frame_good).
  split.
  - eapply frame_good; [exact Hm|]. unfold s3. destruct (_ !! channel) as [p|]; [|done].
    apply (good_same R [] (set_inbox (send_to p (ChannelMsg.WindowAdjusted n') s2.(inbox)).2 s2)); try done.
    by apply notice_good.
  - intros Hc. eapply frame_credit; [exact Hm|]. apply (frame_credit _ _ Hf3) in Hc as [Ct Cw].
    unfold s3. destruct (_ !! channel) as [p|]; [|by split]. split; [done|]. intros id w Hw.
    specialize (Cw id w Hw). unfold queue_of in *. cbn. unfold send_to.
    destruct (_ !! p); [|done]. by destruct (try_send _ _).
Qed.

(** ** Pumping a queue *)

(** The state of a queue whose reservation has resolved, as if it were still
    pending: what [pump_inbound] keeps invariant until it makes the next one. *)
Definition norm_queue (q : InboundQueue) : InboundQueue :=
  set_reserving (match q.(queue) with [] => false | _ => true end) q.
Definition norm (id : Z) (x : Inbox) : Inbox := set_inbound (alter norm_queue id x.(inbound)) x.

Lemma norm_queue_ok q : queue_ok cap q -> norm_queue (set_reserving false q) = q.
Proof.
  intros Hq. pose proof (qok_reserving _ _ Hq) as Hr. unfold norm_queue, set_reserving. cbn.
  destruct q as [[|i l] b g [] e c]; cbn in *; try done.
  - by destruct (proj1 Hr eq_refl).
  - by specialize (proj2 Hr ltac:(done)).
Qed.

Lemma queue_of_norm id id' x : queue_of id' (norm id x) = queue_of id' x.
Proof.
  unfold queue_of, norm. cbn. destruct (decide (id = id')) as [<-|].
  - rewrite lookup_alter_eq. by destruct (_ !! id).
  - by rewrite lookup_alter_ne.
Qed.

Lemma norm_shrinks id x x' : shrinks x x' -> shrinks (norm id x) (norm id x').
Proof.
  intros (Hb & Hn & Hs). split; [done|]. split; [done|]. intros i. cbn.
  destruct (Hs i) as [[Hc Hi]|[Hc Hi]]; [left|right]; (split; [done|]);
    (destruct (decide (id = i)) as [<-|]; [rewrite !lookup_alter_eq|rewrite !lookup_alter_ne by done]); by rewrite Hi.
Qed.

(** [mid R due id s]: [good] during the pumping of [id]. *)
Definition mid (R : reserves) (due : list (Z * DeferredCallback)) (id : Z) (s : Srv) : Prop :=
  good R due (set_inbox (norm id s.(inbox)) s).

Lemma frame_mid R due id s s' : frame s s' -> mid R due id s -> mid R due id s'.
Proof.
  intros [Fi Fa Fc Ft Fw]. apply frame_good. split; cbn; try done; [by apply norm_shrinks|].
  intros i. rewrite queue_of_norm. apply Fw.
Qed.

(** The resolved reservation is used up. *)
Lemma drop_reserve x R1 R2 id g p :
  inbox_ok cap x (R1 ++ (id, g, p) :: R2) ->
  (forall q, x.(inbound) !! id = Some q -> q.(reserving) = true -> id ∈ x.(needs_reserve)) ->
  inbox_ok cap x (R1 ++ R2).
Proof.
  intros [Hs Hi Hq Hr] Hid. split; try done.
  - intros i q Hin. destruct (Hq i q Hin) as (H1 & H2 & H3). split; [done|]. split; [done|]. intros Hres.
    destruct (decide (i = id)) as [->|Hne]; [left; eauto|].
    destruct (H3 Hres) as [|(g' & p' & Hp & Hg)]; [by left|right]. exists g', p'. split; [|done]. set_solver.
  - intros i g' p' Hin. apply Hr. set_solver.
Qed.

(** Leaving the pump: with the queue removed, or with a new reservation asked
    for. *)
Lemma good_inbox_change R R' due s x :
  good R due s -> inbox_ok cap x R' ->
  (forall id c l, holds x id c l -> holds s.(inbox) id c l) ->
  (forall id, is_Some (x.(PendingInbound.channels) !! id) -> queue_of id x = queue_of id s.(inbox)) ->
  good R' due (set_inbox x s).
Proof.
  intros [Gi Gs Gc] Hok Hh Hq. split; cbn; [done|eauto|].
  intros id c l Hl Ho. rewrite Hq; [eauto|]. destruct Hl as (p & Hp & _). by eexists.
Qed.

Lemma rearm_good R1 R2 due id g p s :
  mid (R1 ++ (id, g, p) :: R2) due id s ->
  good (R1 ++ R2) due (set_inbox (pump_rearm id s.(inbox)) s).
Proof.
  intros Hm. pose proof (g_inbox _ _ _ Hm) as Hok. cbn in Hok.
  assert (Hq : forall i, queue_of i (pump_rearm id s.(inbox)) = queue_of i s.(inbox)).
  { intros i. unfold pump_rearm, queue_of. destruct (s.(inbox).(inbound) !! id) as [q|] eqn:Hq; [|done].
    destruct q.(queue) as [|it l] eqn:Hl; cbn; (destruct (decide (i = id)) as [->|]);
      rewrite ?lookup_delete_eq, ?lookup_delete_ne, ?lookup_insert_eq, ?lookup_insert_ne, ?Hq by done;
      cbn; by rewrite ?Hl. }
  apply (good_inbox_change (R1 ++ (id, g, p) :: R2) (R1 ++ R2) due (set_inbox (norm id s.(inbox)) s)); [done| |..].
  - apply drop_reserve with id g p.
    + unfold pump_rearm. destruct (s.(inbox).(inbound) !! id) as [q|] eqn:Hiq.
      * destruct q.(queue) as [|it l] eqn:Hl.
        -- apply (teardown_ok cap id) in Hok. rewrite teardown_inbound_eq in Hok. unfold norm in Hok.
           cbn in Hok. by rewrite delete_alter_eq in Hok.
        -- destruct Hok as [Hs Hi Hqs Hr]. split; cbn; try done. intros i qi Hin.
           assert (Hn : (norm id s.(inbox)).(inbound) !! i = Some qi).
           { cbn. destruct (decide (i = id)) as [->|].
             - rewrite lookup_insert_eq in Hin. rewrite lookup_alter_eq, Hiq. cbn. unfold norm_queue. by rewrite Hl.
             - rewrite lookup_insert_ne in Hin by done. by rewrite lookup_alter_ne. }
           destruct (Hqs i qi Hn) as (H1 & H2 & H3). split; [done|]. split; [done|].
           intros Hres. destruct (H3 Hres) as [|]; [left; set_solver|by right].
      * unfold norm in Hok. rewrite alter_id in Hok by (intros ? Hx; congruence).
        by destruct s.(inbox).
    + intros q Hin Hres. unfold pump_rearm in *. destruct (s.(inbox).(inbound) !! id) as [q0|] eqn:Hiq.
      * destruct q0.(queue); cbn in *; [by rewrite lookup_delete_eq in Hin|set_solver].
      * congruence.
  - intros i c l Hl. eapply holds_channels; [..|exact Hl]; [..|by rewrite Hq; cbn; rewrite queue_of_norm];
      unfold pump_rearm; repeat case_match; done.
  - intros i _. cbn. by rewrite Hq, queue_of_norm.
Qed.

Lemma good_drop R1 R2 due id g p s :
  good (R1 ++ (id, g, p) :: R2) due s ->
  (forall q, s.(inbox).(inbound) !! id = Some q -> q.(reserving) = true -> id ∈ s.(inbox).(needs_reserve)) ->
  good (R1 ++ R2) due s.
Proof. intros [Gi Gs Gc] Hid. split; [by eapply drop_reserve|done..]. Qed.

Lemma norm_absent id x : x.(inbound) !! id = None -> norm id x = x.
Proof. intros Hx. unfold norm. rewrite alter_id by (intros ? Hy; congruence). by destruct x. Qed.

(** Closing the channel that is being pumped. *)
Lemma mid_finalize R1 R2 due id g p s :
  mid (R1 ++ (id, g, p) :: R2) due id s -> good (R1 ++ R2) due (finalize_close id s).
Proof.
  intros Hm. apply (frame_mid _ _ _ _ _ (frame_finalize_close s id)) in Hm.
  assert (Hnone : (finalize_close id s).(inbox).(inbound) !! id = None).
  { replace ((finalize_close id s).(inbox)) with (forget_channel id (teardown_inbound id s.(inbox)))
      by (unfold finalize_close, drop_acks; repeat case_match; done).
    rewrite teardown_inbound_eq. cbn. by rewrite lookup_delete_eq. }
  unfold mid in Hm. rewrite norm_absent in Hm by done.
  eapply good_drop; [|by intros q Hq; rewrite Hnone in Hq]. eapply good_same; [..|exact Hm]; done.
Qed.

(** The head item moves from the queue to the buffer. *)
Lemma pop_mid R id g p q item q2 s :
  good R [] s -> (id, g, p) ∈ R -> s.(inbox).(inbound) !! id = Some q ->
  pop_front (set_reserving false q) = Some (item, q2) ->
  mid R [(id, item)] id
    (set_inbox (send_permit p (to_msg item) (put_queue id q2 (put_queue id (set_reserving false q) s.(inbox)))) s).
Proof.
  intros [Gi Gs Gc] Hin Hq Hpop.
  destruct (ib_queues _ _ _ Gi _ _ Hq) as (Hqok & Hch & _).
  destruct (pop_front_ok cap _ _ _ (idle_ok_resolved _ _ Hqok) Hpop) as ([_ Hq2ok] & Hhead & Hgen & _).
  cbn in Hhead, Hgen. destruct (ib_reserves _ _ _ Gi _ _ _ Hin) as [Hg0 Hp]. specialize (Hp Hch).
  destruct (ib_senders _ _ _ Gi _ _ Hp) as [c0 Hc0].
  assert (Hitem : empty_payload item = false).
  { pose proof (qok_payload _ _ Hqok) as Hall. rewrite Hhead in Hall. by apply Forall_cons_iff in Hall as [? _]. }
  set (x' := set_buffers (<[p := permit_send c0 (to_msg item)]> s.(inbox).(buffers))
               (put_queue id (norm_queue q2) s.(inbox))).
  assert (Hx : norm id (send_permit p (to_msg item) (put_queue id q2
      (put_queue id (set_reserving false q) s.(inbox)))) = x').
  { unfold norm, send_permit, x', put_queue, set_inbound, set_buffers. cbn. f_equal.
    - apply map_eq. intros i. destruct (decide (i = p)) as [->|].
      + by rewrite lookup_alter_eq, lookup_insert_eq, Hc0.
      + by rewrite lookup_alter_ne, lookup_insert_ne.
    - rewrite insert_insert_eq. apply map_eq. intros i. destruct (decide (i = id)) as [->|].
      + by rewrite lookup_alter_eq, !lookup_insert_eq.
      + by rewrite lookup_alter_ne, !lookup_insert_ne. }
  assert (Hqs : forall i, queue_of i x' = if decide (i = id) then q2.(queue) else queue_of i s.(inbox)).
  { intros i. unfold queue_of, x'. cbn. rewrite lookup_insert. repeat case_decide; subst; done. }
  assert (Hqid : queue_of id s.(inbox) = item :: q2.(queue)) by (unfold queue_of; by rewrite Hq).
  (* a channel now, and the same channel before *)
  assert (Hback : forall i c l, holds x' i c l -> is_closed c = false ->
    exists c', holds s.(inbox) i c' l /\ is_closed c' = false).
  { intros i c l (pi & H1 & H2 & ->) Ho. cbn in H1, H2. rewrite Hqs. rewrite lookup_insert in H2.
    destruct (decide (p = pi)) as [<-|Hne].
    - assert (i = id) as -> by (by eapply (ib_inj _ _ _ Gi)). simplify_eq.
      rewrite decide_True by done. exists c0. rewrite permit_send_closed in Ho. split; [|done].
      exists p. split; [done|]. split; [done|]. rewrite Hqid. unfold stream.
      rewrite permit_send_accepted, List.filter_app. cbn. rewrite inbound_to_msg. by rewrite <- app_assoc.
    - exists c. split; [|done]. rewrite decide_False by (intros ->; congruence). by exists pi. }
  unfold mid. cbn [inbox set_inbox]. rewrite Hx. split; cbn [inbox arrived calls set_inbox].
  - apply (set_buffer_ok cap (put_queue id (norm_queue q2) s.(inbox)) R p (permit_send c0 (to_msg item))).
    pose proof (put_queue_ok cap s.(inbox) R id q (norm_queue q2) [] Gi Hq2ok Hch (or_introl Hq)) as Hput.
    rewrite app_nil_r in Hput. apply Hput. right. exists g, p. split; [done|]. cbn.
    rewrite Hgen. rewrite (qok_generation _ _ Hqok). done.
  - intros i c l Hl Ho. destruct (Hback i c l Hl Ho) as (c' & ? & ?). by apply (Gs i c').
  - intros i c l Hl Ho. destruct (Hback i c l Hl Ho) as (c' & Hl' & Ho').
    pose proof (Gc i c' l Hl' Ho') as Hcalls. rewrite app_nil_r in Hcalls.
    rewrite <- Hcalls, payload_calls_app, payload_calls_one, Hqs, <- app_assoc. f_equal.
    destruct (decide (id = i)) as [<-|]; [|by rewrite decide_False].
    by rewrite Hitem, decide_True, Hqid.
Qed.

Lemma queue_of_set_reserving id b q x :
  x.(inbound) !! id = Some q -> forall i, queue_of i (put_queue id (set_reserving b q) x) = queue_of i x.
Proof.
  intros Hq i. unfold queue_of. cbn. rewrite lookup_insert. case_decide; [|done]. subst. by rewrite Hq.
Qed.

Lemma pump_pop_credit id q item q2 p s :
  s.(inbox).(inbound) !! id = Some q -> pop_front (set_reserving false q) = Some (item, q2) ->
  credit s ->
  credit (set_inbox (send_permit p (to_msg item)
    (put_queue id q2 (put_queue id (set_reserving false q) s.(inbox)))) s).
Proof.
  intros Hq Hpop [Ct Cw]. split; [done|]. intros i w Hw. destruct (Cw i w Hw) as [? Hle]. split; [done|].
  unfold queue_of in *. cbn. rewrite insert_insert_eq, lookup_insert.
  case_decide as Hi; [subst i|done]. rewrite Hq in Hle. unfold pop_front in Hpop. cbn in Hpop.
  destruct q.(queue) as [|it rest]; simplify_eq. cbn in *. pose proof (byte_len_nonneg item). lia.
Qed.

Lemma credit_same_queues s x :
  (forall i, queue_of i x = queue_of i s.(inbox) \/ queue_of i x = []) -> credit s -> credit (set_inbox x s).
Proof.
  intros Hq [Ct Cw]. split; [done|]. intros i w Hw. destruct (Cw i w Hw) as [? Hle]. split; [done|]. cbn.
  pose proof (total_bytes_nonneg (queue_of i s.(inbox))).
  destruct (Hq i) as [-> | ->]; [done|cbn; lia].
Qed.

Lemma pump_rearm_queues id x i : queue_of i (pump_rearm id x) = queue_of i x \/ queue_of i (pump_rearm id x) = [].
Proof.
  unfold pump_rearm, queue_of. destruct (x.(inbound) !! id) as [q|] eqn:Hq; [|by left].
  destruct q.(queue) eqn:Hl; cbn; (destruct (decide (i = id)) as [->|]);
    rewrite ?lookup_delete_eq, ?lookup_delete_ne, ?lookup_insert_eq, ?lookup_insert_ne, ?Hq by done; auto.
Qed.

Lemma pump_finish_spec R1 R2 id g p item s s' :
  mid (R1 ++ (id, g, p) :: R2) [(id, item)] id s ->
  pump_finish id item s = (Ok tt, s') ->
  good (R1 ++ R2) [] s' /\ (credit s -> credit s').
Proof.
  intros Hm Hf. unfold pump_finish in Hf. replace (capture item) with item in Hf by (by destruct item).
  apply st_bind_ok in Hf as ([] & s1 & Hc & Hf).
  assert (Hcr : credit s -> credit s1) by (intros; by eapply call_credit).
  assert (Hm1 : mid (R1 ++ (id, g, p) :: R2) [] id s1).
  { unfold call in Hc. apply callback_frame in Hc. eapply frame_mid; [exact Hc|].
    destruct Hm as [Gi Gs Gc]. split; [done..|]. cbn [calls add_call set_inbox inbox arrived] in *.
    by rewrite app_nil_r. }
  destruct item; injection Hf as <-.
  1-3: split; [by eapply rearm_good|]; intros Hcr0; apply credit_same_queues; [|by auto];
    intros; apply pump_rearm_queues.
  split; [by eapply mid_finalize|]. intros. eapply frame_credit; [apply frame_finalize_close|]. auto.
Qed.

(** How a reservation resolves: with a permit of the sender it was made from, or
    with an error when the receiver is gone. *)
Definition resolves (s : Srv) (p : Z) (res : option Z) : Prop :=
  res = Some p \/ (res = None /\ forall c, s.(inbox).(buffers) !! p = Some c -> is_closed c = true).

Lemma mid_undelivered R due id s : mid R due id s ->
  undelivered_bytes id s.(inbox) = Z.min (total_bytes (queue_of id s.(inbox))) U32_MAX.
Proof.
  intros Hm. pose proof (undelivered_spec R id _ (g_inbox _ _ _ Hm)) as Hu. cbn [inbox set_inbox] in Hu.
  rewrite queue_of_norm in Hu. rewrite <- Hu. unfold undelivered_bytes, norm. cbn.
  rewrite lookup_alter_eq. by destruct (_ !! id).
Qed.

(** A permit: the head item is delivered. *)
Lemma pump_permit R1 R2 id g p q item q2 s s' :
  let R := R1 ++ (id, g, p) :: R2 in
  good R [] s -> s.(inbox).(inbound) !! id = Some q ->
  pop_front (set_reserving false q) = Some (item, q2) ->
  ((if grants_window item then up (maybe_grant_after_delivery id) else st_ret tt) ;;;
    pump_finish id item)
    (set_inbox (send_permit p (to_msg item)
       (put_queue id q2 (put_queue id (set_reserving false q) s.(inbox)))) s) = (Ok tt, s') ->
  good (R1 ++ R2) [] s' /\ (credit s -> credit s').
Proof.
  intros R Hg Hq Hpop Hm. set (s2 := set_inbox (send_permit _ _ _) _) in Hm.
  assert (Hm2 : mid R [(id, item)] id s2).
  { apply (pop_mid R id g p q item q2 s); try done. unfold R. set_solver. }
  assert (Hc2 : credit s -> credit s2) by (by apply pump_pop_credit).
  apply st_bind_ok in Hm as ([] & s3 & Hgr & Hfin).
  assert (H3 : mid R [(id, item)] id s3 /\ (credit s2 -> credit s3)).
  { destruct (grants_window item); [|by injection Hgr as <-].
    apply up_ok in Hgr. destruct (grant_inbox _ _ _ Hgr) as (Hi & Ha & Hc). split.
    - unfold mid. eapply (good_same R _ (set_inbox (norm id s2.(inbox)) s2)); cbn; [by rewrite Hi|done..].
    - intros Hcr. eapply grant_credit; [|exact Hcr|exact Hgr]. by eapply mid_undelivered. }
  destruct H3 as [Hm3 Hc3].
  destruct (pump_finish_spec R1 R2 id g p item s3 s' Hm3 Hfin) as [H1 H2]. auto.
Qed.

(** No permit: the receiver is gone. *)
Definition gone (id : Z) (s : Srv) : Prop := forall c l, holds s.(inbox) id c l -> is_closed c = true.

Lemma mid_due_gone R id cb s : gone id s -> mid R [] id s -> mid R [(id, cb)] id s.
Proof.
  intros Hgone [Gi Gs Gc]. split; [done..|]. cbn [inbox set_inbox calls arrived] in *.
  intros i c l Hl Ho. rewrite <- (Gc i c l Hl Ho), !payload_calls_app, payload_calls_one.
  destruct (decide (id = i)) as [<-|]; [|done]. exfalso.
  destruct Hl as (p & H1 & H2 & _). rewrite (Hgone c (stream c ++ map to_msg (queue_of id s.(inbox)))) in Ho; [done|].
  by exists p.
Qed.

Lemma teardown_good R1 R2 id g p s :
  gone id s -> mid (R1 ++ (id, g, p) :: R2) [] id s ->
  good (R1 ++ R2) [] (set_inbox (teardown_inbound id s.(inbox)) s).
Proof.
  intros Hgone [Gi Gs Gc]. cbn [inbox set_inbox calls arrived] in *.
  assert (Ht : teardown_inbound id s.(inbox) = teardown_inbound id (norm id s.(inbox))).
  { rewrite !teardown_inbound_eq. unfold norm. cbn. by rewrite delete_alter_eq. }
  assert (Hq : forall i, i <> id -> queue_of i (teardown_inbound id s.(inbox)) = queue_of i s.(inbox)).
  { intros i Hi. rewrite teardown_inbound_eq. unfold queue_of. cbn. by rewrite lookup_delete_ne. }
  assert (Hback : forall i c l, holds (teardown_inbound id s.(inbox)) i c l -> is_closed c = false ->
    i <> id /\ holds (norm id s.(inbox)) i c l).
  { intros i c l (pi & H1 & H2 & ->) Ho. destruct (decide (i = id)) as [->|Hne].
    - rewrite (Hgone c (stream c ++ map to_msg (queue_of id s.(inbox)))) in Ho; [done|]. by exists pi.
    - split; [done|]. exists pi. by rewrite queue_of_norm, Hq. }
  split; cbn [inbox set_inbox calls arrived].
  - apply drop_reserve with id g p; [rewrite Ht; by apply teardown_ok|].
    intros q. rewrite teardown_inbound_eq. cbn. by rewrite lookup_delete_eq.
  - intros i c l Hl Ho. destruct (Hback i c l Hl Ho) as [_ Hl']. by apply (Gs i c l).
  - intros i c l Hl Ho. destruct (Hback i c l Hl Ho) as [Hne Hl'].
    rewrite Hq by done. rewrite <- (Gc i c l Hl' Ho). by rewrite queue_of_norm.
Qed.

Lemma pump_spec R1 R2 id g p res s s' :
  good (R1 ++ (id, g, p) :: R2) [] s -> resolves s p res ->
  pump_inbound id g res s = (Ok tt, s') ->
  good (R1 ++ R2) [] s' /\ (credit s -> credit s').
Proof.
  intros Hg Hres Hm. unfold pump_inbound in Hm. set (R := R1 ++ (id, g, p) :: R2) in *.
  assert (Hin : (id, g, p) ∈ R) by (unfold R; set_solver).
  destruct (s.(inbox).(inbound) !! id) as [q|] eqn:Hq.
  2: { injection Hm as <-. split; [|done]. eapply good_drop; [exact Hg|]. intros ? Hx. congruence. }
  destruct (ib_queues _ _ _ (g_inbox _ _ _ Hg) _ _ Hq) as (Hqok & Hch & _).
  destruct (ib_reserves _ _ _ (g_inbox _ _ _ Hg) _ _ _ Hin) as [Hg0 Hp]. specialize (Hp Hch).
  rewrite (qok_generation _ _ Hqok), Hg0 in Hm. cbn [negb Z.eqb] in Hm.
  set (x1 := put_queue id (set_reserving false q) s.(inbox)) in *.
  assert (Hmid : mid R [] id (set_inbox x1 s)).
  { unfold mid. cbn [inbox set_inbox]. replace (norm id x1) with s.(inbox); [by apply (good_same R [] s)|].
    unfold norm, x1, put_queue, set_inbound. cbn. rewrite alter_insert_eq.
    rewrite norm_queue_ok by done. rewrite insert_id by done. by destruct s.(inbox). }
  assert (Hcr1 : credit s -> credit (set_inbox x1 s)).
  { apply credit_same_queues. intros i. left. by apply queue_of_set_reserving. }
  destruct res as [p'|].
  - destruct Hres as [[= ->]|[? _]]; [|done].
    destruct (pop_front (set_reserving false q)) as [[item q2]|] eqn:Hpop; [by eapply pump_permit|].
    injection Hm as <-. split; [|done]. unfold pop_front in Hpop. cbn in Hpop.
    destruct q.(queue) eqn:Hl; [|done].
    assert (Hr : q.(reserving) = false).
    { destruct q.(reserving) eqn:Hr; [|done]. by apply (qok_reserving _ _ Hqok) in Hr. }
    replace (set_inbox x1 s) with s; [eapply good_drop; [exact Hg|congruence]|].
    unfold x1, put_queue, set_inbound, set_reserving. rewrite <- Hr.
    replace (mkInboundQueue _ _ _ _ _ _) with q by (by destruct q).
    rewrite insert_id by done. by destruct s as [[] ? ? ? ? ? ? ? ? ? ?].
  - destruct Hres as [|[_ Hclosed]]; [done|].
    assert (Hgone : gone id (set_inbox x1 s)).
    { intros c l (pi & H1 & H2 & _). cbn in H1, H2. simplify_eq. eauto. }
    destruct (close_queued _).
    + apply st_bind_ok in Hm as ([] & s3 & Hc & [= <-]).
      assert (Hm3 : mid R [] id s3).
      { unfold call in Hc. apply callback_frame in Hc. eapply frame_mid; [exact Hc|].
        apply (mid_due_gone _ _ Close) in Hmid; [|done]. destruct Hmid as [Gi Gs Gc].
        split; [done..|]. cbn [calls add_call set_inbox inbox arrived] in *. by rewrite app_nil_r. }
      split; [by eapply mid_finalize|]. intros Hcr. eapply frame_credit; [apply frame_finalize_close|].
      eapply call_credit; [|exact Hc]. auto.
    + injection Hm as <-. split; [by eapply (teardown_good R1 R2 id g p (set_inbox x1 s))|].
      intros Hcr. apply credit_same_queues; [|by apply Hcr1]. intros i. cbn. rewrite teardown_inbound_eq.
      unfold queue_of. cbn. destruct (decide (i = id)) as [->|]; [right; by rewrite lookup_delete_eq|].
      left. by rewrite lookup_delete_ne.
Qed.

(** ** The run loop *)

(** After each arm that may have queued something: [drain_needs_reserve]. *)
Definition drain (s : Srv) (R : reserves) : Srv * reserves :=
  let '(x, R') := drain_needs_reserve s.(inbox) R in (set_inbox x s, R').

(** What the application and the callbacks make the session send. *)
Inductive send_op : st Srv Error.error unit -> Prop :=
| SendData c a buf : send_op (session_data config c a buf)
| SendAcked id ext buf ack : send_op (dispatch_data_acked config id ext buf ack)
| SendEof c : send_op (session_eof c)
| SendClose c : send_op (session_close c).

(** One step of the run loop or of the tasks around it.  [obedient]: the peer
    sends no more data than the window it was granted. *)
Inductive step (obedient : bool) : Srv * reserves -> Srv * reserves -> Prop :=
| step_data channel ext data s s' R :
    is_established_channel channel s = true ->
    (obedient = true -> obeys channel (zlen data) s) ->
    receive_data config channel ext data s = (Ok tt, s') ->
    step obedient (s, R) (drain s' R)
| step_eof r s s' R : recv_channel_eof config r s = (Ok tt, s') -> step obedient (s, R) (drain s' R)
| step_close r s s' R : recv_channel_close config r s = (Ok tt, s') -> step obedient (s, R) (drain s' R)
| step_adjust r s s' R : recv_window_adjust r s = (Ok tt, s') -> step obedient (s, R) (drain s' R)
| step_pump id g p R1 R2 res s s' :
    resolves s p res -> pump_inbound id g res s = (Ok tt, s') ->
    step obedient (s, R1 ++ (id, g, p) :: R2) (drain s' (R1 ++ R2))
| step_send m r s s' R : send_op m -> m s = (r, s') -> step obedient (s, R) (s', R)
| step_release s R : step obedient (s, R) (release_outbound_acks s, R)
(** the application reads from a buffer, or drops it, or is told of something else:
    a request, or that an open was confirmed or refused *)
| step_app p c c' s R :
    s.(inbox).(buffers) !! p = Some c -> stream c' = stream c ->
    (is_closed c = true -> is_closed c' = true) ->
    step obedient (s, R) (set_inbox (set_buffers (<[p := c']> s.(inbox).(buffers)) s.(inbox)) s, R)
(** what only sends, notes something about channels or closes some, in whatever
    way: the rest of the packets, and the calls of handles *)
| step_other s s' R : frame s s' -> step obedient (s, R) (s', R)
(** a channel is opened: [new_channel_id] gave a number no channel had, and
    none with that number was used before *)
| step_open id p c ch e s R :
    s.(inbox).(PendingInbound.channels) !! id = None -> s.(inbox).(buffers) !! p = None ->
    (forall g p', (id, g, p') ∉ R) -> on id s.(arrived) = [] -> on id s.(calls) = [] ->
    stream c = [] -> s.(encrypted) = Some e -> 0 <= ch.(sender_window_size) <= max_window ->
    step obedient (s, R)
      (set_inbox (open_channel id p c s.(inbox)) (set_encrypted (Some (put_channel id ch e)) s), R).

(** A session before any channel. *)
Record initial (s : Srv) : Prop := {
  in_inbox : s.(inbox) = mkInbox ∅ ∅ ∅ [];
  in_arrived : s.(arrived) = [];
  in_calls : s.(calls) = [];
  in_target : 0 <= s.(target_window_size) <= max_window;
  in_window : forall id w, window_of s id = Some w -> 0 <= w <= max_window;
}.

Inductive reachable (obedient : bool) : Srv * reserves -> Prop :=
| reach_start s : initial s -> reachable obedient (s, [])
| reach_step sr sr' : reachable obedient sr -> step obedient sr sr' -> reachable obedient sr'.

Definition invariant (obedient : bool) (sr : Srv * reserves) : Prop :=
  good sr.2 [] sr.1 /\ sr.1.(inbox).(needs_reserve) = [] /\ (obedient = true -> credit sr.1).

Lemma drain_invariant obedient s R :
  good R [] s -> (obedient = true -> credit s) -> invariant obedient (drain s R).
Proof.
  intros [Gi Gs Gc] Hc. unfold drain.
  destruct (drain_needs_reserve_spec cap s.(inbox) R Gi) as (R' & -> & Hok).
  split; [|split; [done|]]; cbn.
  - split; cbn [inbox set_inbox arrived calls]; [done|exact Gs|exact Gc].
  - intros Ho. destruct (Hc Ho) as [Ct Cw]. by split.
Qed.

Lemma preserves_step obedient m s s' R :
  preserves m -> m s = (Ok tt, s') -> invariant obedient (s, R) -> invariant obedient (drain s' R).
Proof.
  intros Hp Hm (Hg & _ & Hc). destruct (Hp R s s' Hm Hg) as [H1 H2].
  apply drain_invariant; [done|]. intros Ho. apply H2. by apply Hc.
Qed.

Lemma frame_step obedient s s' R :
  frame s s' -> invariant obedient (s, R) -> invariant obedient (s', R).
Proof.
  intros Hf (Hg & Hn & Hc). cbn in *. split; [by eapply frame_good|]. split.
  - cbn. destruct (fr_inbox _ _ Hf) as (_ & -> & _). done.
  - intros Ho. eapply frame_credit; [exact Hf|]. by apply Hc.
Qed.

Lemma frame_release_acks l : forall s, frame s (release_acks l s).
Proof.
  unfold release_acks. induction l as [|id l IH]; intros s; cbn [foldl]; [apply frame_refl|].
  eapply frame_trans; [|apply IH]. destruct (_ !! id); [apply frame_acks|apply frame_refl].
Qed.

Lemma send_op_framed m : send_op m -> framed m.
Proof.
  intros []; [apply framed_data|apply framed_dispatch|apply framed_eof|apply framed_close].
Qed.

Lemma app_invariant obedient p c c' s R :
  s.(inbox).(buffers) !! p = Some c -> stream c' = stream c ->
  (is_closed c = true -> is_closed c' = true) -> invariant obedient (s, R) ->
  invariant obedient (set_inbox (set_buffers (<[p := c']> s.(inbox).(buffers)) s.(inbox)) s, R).
Proof.
  intros Hp Ha Hcl ([Gi Gs Gc] & Hn & Hc). cbn [fst snd] in *.
  assert (Hback : forall id d l,
    holds (set_buffers (<[p := c']> s.(inbox).(buffers)) s.(inbox)) id d l -> is_closed d = false ->
    exists d', holds s.(inbox) id d' l /\ is_closed d' = false).
  { intros id d l (q & H1 & H2 & ->) Ho. cbn in H1, H2. rewrite lookup_insert in H2.
    case_decide as Hq; [subst q; simplify_eq|].
    - exists c. split; [exists p; by rewrite Ha|].
      destruct (is_closed c); [|done]. by rewrite Hcl in Ho.
    - exists d. split; [|done]. by exists q. }
  split; [|split; [done|]].
  - split; cbn [inbox set_inbox arrived calls fst snd]; [by apply set_buffer_ok|..].
    + intros id d l Hl Ho. destruct (Hback id d l Hl Ho) as (d' & ? & ?). by apply (Gs id d').
    + intros id d l Hl Ho. destruct (Hback id d l Hl Ho) as (d' & ? & ?). by apply (Gc id d' l).
  - intros Ho. destruct (Hc Ho) as [Ct Cw]. by split.
Qed.

Lemma open_invariant obedient id p c ch e s R :
  s.(inbox).(PendingInbound.channels) !! id = None -> s.(inbox).(buffers) !! p = None ->
  (forall g p', (id, g, p') ∉ R) -> on id s.(arrived) = [] -> on id s.(calls) = [] ->
  stream c = [] -> s.(encrypted) = Some e -> 0 <= ch.(sender_window_size) <= max_window ->
  invariant obedient (s, R) ->
  invariant obedient
    (set_inbox (open_channel id p c s.(inbox)) (set_encrypted (Some (put_channel id ch e)) s), R).
Proof.
  intros Hid Hp HR Ha Hca Hst He Hw ([Gi Gs Gc] & Hn & Hc). cbn [fst snd] in *.
  assert (Hq0 : queue_of id s.(inbox) = []).
  { unfold queue_of. destruct (s.(inbox).(inbound) !! id) as [q|] eqn:Hq; [|done].
    destruct (ib_queues _ _ _ Gi _ _ Hq) as (_ & [? Hx] & _). congruence. }
  assert (Hback : forall i d l, holds (open_channel id p c s.(inbox)) i d l ->
    (i = id /\ l = []) \/ (i <> id /\ holds s.(inbox) i d l)).
  { intros i d l (q & H1 & H2 & ->). cbn in H1, H2.
    change (queue_of i (open_channel id p c s.(inbox))) with (queue_of i s.(inbox)).
    destruct (decide (i = id)) as [->|Hne].
    - left. split; [done|]. rewrite lookup_insert_eq in H1. simplify_eq. rewrite lookup_insert_eq in H2.
      simplify_eq. by rewrite Hst, Hq0.
    - right. split; [done|]. rewrite lookup_insert_ne in H1 by done. exists q. split; [done|].
      split; [|done]. rewrite lookup_insert_ne in H2; [done|]. intros <-.
      destruct (ib_senders _ _ _ Gi _ _ H1) as [? Hx]. congruence. }
  split; [|split; [done|]].
  - split; cbn [inbox set_inbox set_encrypted arrived calls fst snd]; [by apply open_channel_ok|..].
    + intros i d l Hl Ho. destruct (Hback i d l Hl) as [[-> ->]|[Hne Hl']]; [by rewrite Ha|by apply (Gs i d)].
    + intros i d l Hl Ho. change (queue_of i (open_channel id p c s.(inbox))) with (queue_of i s.(inbox)).
      destruct (Hback i d l Hl) as [[-> ->]|[Hne Hl']]; [|by apply (Gc i d l)].
      rewrite Hq0, Ha, !app_nil_r. unfold payload_calls. by rewrite Hca.
  - intros Ho. destruct (Hc Ho) as [Ct Cw]. split; [done|]. intros i w. unfold window_of. cbn.
    change (queue_of i (open_channel id p c s.(inbox))) with (queue_of i s.(inbox)).
    rewrite lookup_insert. case_decide as Hi; [subst i|].
    + cbn. intros [= <-]. rewrite Hq0. cbn. lia.
    + intros Hx. apply Cw. unfold window_of. by rewrite He.
Qed.

Lemma step_invariant obedient sr sr' :
  step obedient sr sr' -> invariant obedient sr -> invariant obedient sr'.
Proof.
  intros Hs. destruct Hs as [channel ext data s s' R Hest Hob Hm|r s s' R Hm|r s s' R Hm|r s s' R Hm
    |id g p R1 R2 res s s' Hres Hm|m r s s' R Hop Hm|s R|p c c' s R ???|s s' R Hf|id p c ch e s R ????????]; intros Hi.
  - destruct Hi as (Hg & _ & Hc).
    destruct (receive_data_preserves channel ext data R s s' Hm Hg) as [H1 H2].
    apply drain_invariant; [done|]. intros Ho. apply H2; auto.
  - eapply preserves_step; [apply recv_eof_preserves|done..].
  - eapply preserves_step; [apply recv_close_preserves|done..].
  - eapply preserves_step; [apply recv_adjust_preserves|done..].
  - destruct Hi as (Hg & _ & Hc). destruct (pump_spec R1 R2 id g p res s s' Hg Hres Hm) as [H1 H2].
    apply drain_invariant; [done|]. intros Ho. apply H2. by apply Hc.
  - pose proof (send_op_framed m Hop s) as Hf. rewrite Hm in Hf. by eapply frame_step.
  - eapply frame_step; [|done]. unfold release_outbound_acks.
    destruct s.(encrypted); [apply frame_release_acks|apply frame_refl].
  - by eapply app_invariant.
  - by eapply frame_step.
  - by apply open_invariant.
Qed.

Lemma reachable_invariant obedient sr : reachable obedient sr -> invariant obedient sr.
Proof.
  induction 1 as [s [Hi Ha Hc Ht Hw]|sr sr' _ IH Hs]; [|by eapply step_invariant].
  split; [|split; [by cbn; rewrite Hi|]]; cbn.
  - split; rewrite ?Hi.
    + split; cbn; intros *; rewrite ?lookup_empty; try done; set_solver.
    + intros id c l (p & Hp & _). cbn in Hp. by rewrite lookup_empty in Hp.
    + intros id c l (p & Hp & _). cbn in Hp. by rewrite lookup_empty in Hp.
  - intros _. split; [done|]. intros id w Hx. rewrite Hi. change (queue_of id _) with ([] : list InboundItem).
    cbn. specialize (Hw id w Hx). lia.
Qed.

(** The packets that make the first kind of step. *)
Lemma recv_data_packet channel ext data s :
  is_u32 channel -> (forall x, ext = Some x -> is_u32 x) -> zlen data <= MAX_ENCODED_LEN ->
  is_established_channel channel s = true ->
  recv_channel_data config (match ext with None => msg.CHANNEL_DATA | Some _ => msg.CHANNEL_EXTENDED_DATA end)
    (be32 channel ++ match ext with None => [] | Some x => be32 x end ++ be32 (zlen data) ++ data) s =
  receive_data config channel ext data s.
Proof.
  intros Hc Hx Hl He. unfold recv_channel_data, dec, enc_err. rewrite decode_u32_be32 by done.
  cbn [map_err]. rewrite He. cbn [negb].
  assert (Hd : decode_bytes (be32 (zlen data) ++ data) = Ok (data, [])).
  { rewrite <- (app_nil_r data) at 2. by apply decode_bytes_prefixed. }
  destruct ext as [x|].
  - replace (msg.CHANNEL_EXTENDED_DATA =? msg.CHANNEL_DATA) with false by done.
    rewrite decode_u32_be32 by (by apply Hx). cbn [map_err res_bind]. rewrite Hd. done.
  - replace (msg.CHANNEL_DATA =? msg.CHANNEL_DATA) with true by done. cbn [app res_bind]. rewrite Hd. done.
Qed.

(** ** Properties *)

(** C24. Memory and progress: in every reachable state, whatever the peer sends,
    the undelivered bytes of a channel stay within
    [max_pending_inbound_bytes], the queued items (empty ones included) number at
    most that plus two, and a queue that holds items has a reservation in flight,
    made from the channel's own sender, that will wake it. *)
Theorem inbound_bounded obedient s R id q :
  reachable obedient (s, R) -> s.(inbox).(inbound) !! id = Some q ->
  total_bytes q.(queue) <= cap /\ zlen q.(queue) <= cap + 2 /\
  (q.(queue) <> [] -> exists p, s.(inbox).(PendingInbound.channels) !! id = Some p /\
     (id, q.(generation), p) ∈ R).
Proof.
  intros Hr Hq. destruct (reachable_invariant _ _ Hr) as ([Gi _ _] & Hn & _). cbn [fst snd] in *.
  destruct (ib_queues _ _ _ Gi _ _ Hq) as (Hqok & Hch & Hwake).
  split; [rewrite <- (qok_bytes _ _ Hqok); apply Hqok|]. split; [by apply queue_ok_length|].
  intros Hne. apply (qok_reserving _ _ Hqok) in Hne. apply Hwake in Hne as [Hin|(g & p & Hin & ->)].
  - rewrite Hn in Hin. by apply not_elem_of_nil in Hin.
  - exists p. split; [|done]. by apply (ib_reserves _ _ _ Gi _ _ _ Hin).
Qed.

(** C7. Order and completeness: in every reachable state, for every open channel
    whose application still listens, the messages its buffer accepted followed by
    those still queued are exactly the items that arrived, in order; and the
    callbacks made so far for items with content are exactly the messages accepted,
    in the same order (an empty item has a callback but makes no message).  The
    states are those that the steps reach: data, EOF and close, the peer's windows,
    deliveries, sends, opens, whatever the application is told besides - requests and
    the answers to opens are made of these ([ServerRequests]) - and whatever
    leaves deliveries alone. *)
Theorem inbound_fifo obedient s R id p c :
  reachable obedient (s, R) ->
  s.(inbox).(PendingInbound.channels) !! id = Some p -> s.(inbox).(buffers) !! p = Some c ->
  is_closed c = false ->
  stream c ++ map to_msg (queue_of id s.(inbox)) = map to_msg (on id s.(arrived)) /\
  stream c = map to_msg (payload_calls id s.(calls)).
Proof.
  intros Hr Hp Hc Ho. destruct (reachable_invariant _ _ Hr) as ([_ Gs Gc] & _ & _). cbn [fst snd] in *.
  assert (Hh : holds s.(inbox) id c (stream c ++ map to_msg (queue_of id s.(inbox)))) by (by exists p).
  pose proof (Gs _ _ _ Hh Ho) as H1. pose proof (Gc _ _ _ Hh Ho) as H2. split; [done|].
  rewrite app_nil_r in H2. rewrite <- H2, map_app in H1. by apply app_inv_tail in H1.
Qed.

(** C8. Flow control: with a peer that keeps to the window it was granted, the
    window it has left plus the bytes that wait for the application never exceeds
    the maximum window; so if the cap, [max_pending_inbound_bytes], is no less than
    the maximum window, data that is within the window is not refused. *)
Theorem inbound_flow_control s R id w data ext :
  reachable true (s, R) -> window_of s id = Some w ->
  0 <= w /\ w + total_bytes (queue_of id s.(inbox)) <= max_window /\
  (max_window <= cap -> zlen data <= w ->
   (session_deliver config id (match ext with Some x => ExtendedData x data | None => Data data end) s).1
     <> Overflow).
Proof.
  intros Hr Hw. destruct (reachable_invariant _ _ Hr) as (Hg & _ & Hc). cbn [fst snd] in *.
  destruct (cr_window _ (Hc eq_refl) _ _ Hw) as [Hw0 Hle]. split; [done|]. split; [done|].
  intros Hcap Hlen Hover. set (item := match ext with Some _ => _ | None => _ end) in Hover.
  pose proof (session_deliver_good R id item s Hg) as Hd.
  destruct (session_deliver config id item s) as [r s']. cbn in Hover. subst r.
  destruct Hd as (_ & _ & _ & _ & Ho). destruct (Ho eq_refl) as [_ Hbad].
  assert (byte_len item = zlen data) by (unfold item; by destruct ext). lia.
Qed.
End Inbound.

(** ** A session with an echoing handler *)
Module Example.
Definition cfg : Config := mkConfig 100 100.

#[local] Existing Instance packet_log.
#[local] Existing Instance rfc4251.
#[local] Existing Instance Bounded.mpsc.
#[local] Existing Instance Bounded.mpsc_laws.

#[local] Instance echo : Handler (W := list bytes) unit Error.error := {|
  callback id cb := match cb with Data d => session_data cfg id None d | _ => st_ret tt end;
  adjust_window h _ t := (Z.min t 50, h);
  window_adjusted _ _ := st_ret tt;
  from_error e := e;
|}.

#[local] Instance echo_laws : HandlerLaws 50.
Proof.
  split; cbn.
  - intros id cb s s' Hm. destruct cb as [d|ext d| |].
    + pose proof (framed_data (H := unit) cfg 50 id None d s) as Hf. by rewrite Hm in Hf.
    + injection Hm as <-. apply frame_refl.
    + injection Hm as <-. apply frame_refl.
    + injection Hm as <-. apply frame_refl.
  - intros id n s s' [= <-]. apply frame_refl.
  - intros. lia.
Qed.

Abbreviation Srv := (@Server Bounded.mpsc (list bytes) unit).

Definition enc0 : Encrypted := mkEncrypted ∅ 0 [] 0 0 false false.
Definition chan0 : ChannelParams := mkChannelParams 7 0 1000 50 100 100 true false [] false false.
Definition s0 : Srv :=
  mkServer (mkInbox ∅ ∅ ∅ []) [] (Some enc0) false 50 ∅ ∅ tt [] [] [].
Definition s1 : Srv :=
  set_inbox (open_channel 0 0 (Bounded.mkBounded 1 false [] []) s0.(inbox))
    (set_encrypted (Some (put_channel 0 chan0 enc0)) s0).
Definition sr2 := drain (receive_data cfg 0 None [1; 2] s1).2 [].
Definition sr3 := drain (receive_data cfg 0 None [3; 4; 5] sr2.1).2 sr2.2.

Lemma data_step obedient (s : Srv) R data w :
  is_established_channel 0 s = true -> window_of s 0 = Some w -> zlen data <= w ->
  (receive_data cfg 0 None data s).1 = Ok tt ->
  step cfg 50 obedient (s, R) (drain (receive_data cfg 0 None data s).2 R).
Proof.
  intros He Hw Hl Hr. apply step_data with 0 None data; [done| |].
  - intros _ w' Hw'. rewrite Hw in Hw'. by injection Hw' as <-.
  - rewrite <- Hr. apply surjective_pairing.
Qed.

Lemma reach_sr3 obedient : reachable cfg 50 obedient sr3.
Proof.
  apply reach_step with sr2; [apply reach_step with (s1, []); [apply reach_step with (s0, [])|]|].
  - apply reach_start. split; done.
  - apply step_open; try done; set_solver.
  - apply data_step with 50; vm_compute; congruence.
  - unfold sr3. rewrite (surjective_pairing sr2) at 1. apply data_step with 48; vm_compute; congruence.
Qed.

Lemma cap_ok : 0 <= cfg.(max_pending_inbound_bytes) < USIZE_MAX.
Proof. by split. Qed.
Lemma max_ok : 50 <= U32_MAX.
Proof. done. Qed.

Definition q0 : InboundQueue := default InboundQueue_default (sr3.1.(inbox).(inbound) !! 0).

Lemma inbound_bounded_witness :
  total_bytes q0.(queue) <= 100 /\ zlen q0.(queue) <= 100 + 2 /\
  (q0.(queue) <> [] -> exists p, sr3.1.(inbox).(PendingInbound.channels) !! 0 = Some p /\
     (0, q0.(generation), p) ∈ sr3.2).
Proof.
  apply (inbound_bounded (H := unit) (E := Error.error) cfg 50 cap_ok max_ok true sr3.1 sr3.2 0 q0).
  - rewrite <- surjective_pairing. apply reach_sr3.
  - vm_compute. reflexivity.
Defined.

Lemma inbound_fifo_witness :
  [ChannelMsg.Data [1; 2]] ++ map to_msg (queue_of 0 sr3.1.(inbox)) =
    map to_msg (on 0 sr3.1.(arrived)) /\
  [ChannelMsg.Data [1; 2]] = map to_msg (payload_calls 0 sr3.1.(calls)).
Proof.
  apply (inbound_fifo (H := unit) (E := Error.error) cfg 50 cap_ok max_ok
    true sr3.1 sr3.2 0 0 (Bounded.mkBounded 1 false [ChannelMsg.Data [1; 2]] [ChannelMsg.Data [1; 2]])).
  - rewrite <- surjective_pairing. apply reach_sr3.
  - vm_compute. reflexivity.
  - vm_compute. reflexivity.
  - reflexivity.
Defined.

Lemma inbound_flow_control_witness :
  0 <= 45 /\ 45 + total_bytes (queue_of 0 sr3.1.(inbox)) <= 50 /\
  (50 <= 100 -> zlen [6; 7] <= 45 ->
   (session_deliver cfg 0 (Data [6; 7]) sr3.1).1 <> Overflow).
Proof.
  apply (inbound_flow_control (H := unit) (E := Error.error) cfg 50 cap_ok max_ok
    sr3.1 sr3.2 0 45 [6; 7] None).
  - rewrite <- surjective_pairing. apply reach_sr3.
  - vm_compute. reflexivity.
Defined.
End Example.
