(* ===== verification/ChannelOpen.v ===== *)
(** * Channels opened by the peer
    ([server_handle_channel_open], [finalize_channel_open_reply], [drain_open_replies])

    A [CHANNEL_OPEN] gives the application's callback a reply handle (module
    [OpenHandle] of [LibInner]); what the handle sends is queued and turned into
    the confirmation or the refusal by the session loop.  The callback is the
    application's: [decide] says what it does with the handle. *)

From stdpp Require Import base list numbers option gmap strings.
From Stdlib Require Import ZArith Lia.
From S2P Require Import Prelude Encoding LibInner Msg Cipher Parsing Session ChannelIds.

Record PendingChannelOpen : Type := mkPending {
  po_recipient_channel : Z;
  po_sender_channel : Z;
  po_window_size : Z;
  po_packet_size : Z;
  po_channel_ref : Z;              (* the sender of the new channel's buffer *)
  po_channel_params : ChannelParams;
}.

Abbreviation handle := (OpenHandle.handle PendingChannelOpen).
Abbreviation reply := (PendingChannelOpen * (unit + ChannelOpenFailure.failure))%type.

(** What a callback does with the handle before it returns. *)
Inductive action : Type :=
| Accept
| Reject (reason : ChannelOpenFailure.failure)
| Ignore                            (* the handle is dropped *)
| Stash.                            (* kept, to reply later *)

(** What the handle sent, and the handle if it is kept. *)
Definition act (a : action) (h : handle) : list reply * list handle :=
  match a with
  | Accept => ((OpenHandle.accept h).(OpenHandle.sent), [])
  | Reject reason => ((OpenHandle.reject reason h).(OpenHandle.sent), [])
  | Ignore => ((OpenHandle.drop_handle h).(OpenHandle.sent), [])
  | Stash => ([], [h])
  end.

(** [enc], the queue of [open_reply_rx], the handles still held, and the
    application side of the registered channels. *)
Record OpenState : Type := mkOpenState {
  enc_ : Encrypted;
  open_replies : list reply;
  stashed : list handle;
  registered : gmap Z Z;
}.

Definition set_enc (e : Encrypted) (s : OpenState) : OpenState :=
  mkOpenState e s.(open_replies) s.(stashed) s.(registered).

Section ChannelOpen.
Context {enc : SshEncoding}.
Context (window_size maximum_packet_size : Z).    (* of [config] *)

Abbreviation OM A := (st OpenState Error.error A).

Definition on_enc {A} (m : EM A) : OM A := fun s =>
  let '(r, e) := m s.(enc_) in (r, set_enc e s).

Definition open_params (m : OpenChannelMessage) (id : Z) : ChannelParams :=
  mkChannelParams m.(Parsing.recipient_channel) id m.(Parsing.recipient_window_size) window_size
    m.(Parsing.recipient_maximum_packet_size) maximum_packet_size true false [] false false.

Definition open_pending (m : OpenChannelMessage) (id sender : Z) : PendingChannelOpen :=
  mkPending m.(Parsing.recipient_channel) id window_size maximum_packet_size sender (open_params m id).

(** The callback, and the drop of a handle that was not passed to one. *)
Definition run_handle (a : action) (p : PendingChannelOpen) : OM unit := st_mod (fun s =>
  let '(sent, kept) := act a (OpenHandle.new p) in
  mkOpenState s.(enc_) (s.(open_replies) ++ sent) (s.(stashed) ++ kept) s.(registered)).

(** [msg.fail(..)?] or [msg.unknown_type(..)?]; the handle goes out of scope on
    both exits. *)
Definition refuse (w : writer Error.error) (p : PendingChannelOpen) : OM unit := fun s =>
  let '(r, s1) := on_enc (on_write w) s in
  let '(_, s2) := run_handle Ignore p s1 in (r, s2).

Definition server_handle_channel_open (decide : ChannelType.type -> action) (sender : Z) (r : bytes)
  : OM unit :=
  do m <- st_lift (parse r) ;;
  do id <- on_enc new_channel_id ;;
  let p := open_pending m id sender in
  match m.(typ) with
  | ChannelType.ForwardedStreamLocal _ | ChannelType.AgentForward =>
      refuse (fail m msg.SSH_OPEN_ADMINISTRATIVELY_PROHIBITED (str "Unsupported channel type")) p
  | ChannelType.Unknown _ => refuse (unknown_type m) p
  | t => run_handle (decide t) p
  end.

(** The client passes every known type to a callback, and an unknown one when
    [should_accept_unknown_server_channel] says so. *)
Definition client_handle_channel_open (decide : ChannelType.type -> action) (accept_unknown : bool)
    (sender : Z) (r : bytes) : OM unit :=
  do m <- st_lift (parse r) ;;
  do id <- on_enc new_channel_id ;;
  let p := open_pending m id sender in
  match m.(typ) with
  | ChannelType.Unknown t =>
      if accept_unknown then run_handle (decide (ChannelType.Unknown t)) p
      else refuse (unknown_type m) p
  | t => run_handle (decide t) p
  end.

Definition confirmation_body (p : PendingChannelOpen) : writer Error.error :=
  enc_w (encode_u8 msg.CHANNEL_OPEN_CONFIRMATION) ;;;
  enc_w (encode_u32 p.(po_recipient_channel)) ;;;
  enc_w (encode_u32 p.(po_sender_channel)) ;;;
  enc_w (encode_u32 p.(po_window_size)) ;;;
  enc_w (encode_u32 p.(po_packet_size)).

Definition failure_body (p : PendingChannelOpen) (reason : ChannelOpenFailure.failure)
  : writer Error.error :=
  enc_w (encode_u8 msg.CHANNEL_OPEN_FAILURE) ;;;
  enc_w (encode_u32 p.(po_recipient_channel)) ;;;
  enc_w (encode_u32 (ChannelOpenFailure.code reason)) ;;;
  enc_w (encode_bytes (ChannelOpenFailure.description reason)) ;;;
  enc_w (encode_bytes (str "en")).

Definition finalize_channel_open_reply (rep : reply) : OM unit :=
  match rep with
  | (p, inl tt) =>
      on_enc (on_write (push_packet (confirmation_body p))) ;;;
      st_mod (fun s =>
        mkOpenState (put_channel p.(po_sender_channel) p.(po_channel_params) s.(enc_))
          s.(open_replies) s.(stashed) (<[p.(po_sender_channel) := p.(po_channel_ref)]> s.(registered)))
  | (p, inr reason) => on_enc (on_write (push_packet (failure_body p reason)))
  end.

(** [while let Ok(msg) = self.open_reply_rx.try_recv()]: the queue does not grow
    meanwhile, so its length is fuel enough. *)
Fixpoint drain_loop (fuel : nat) : OM unit := fun s =>
  match s.(open_replies) with
  | [] => (Ok tt, s)
  | rep :: rest =>
      match fuel with
      | O => (Panic, s)
      | Datatypes.S fuel' =>
          (finalize_channel_open_reply rep ;;; drain_loop fuel')
            (mkOpenState s.(enc_) rest s.(stashed) s.(registered))
      end
  end.

Definition drain_open_replies : OM unit := fun s => drain_loop (length s.(open_replies)) s.
End ChannelOpen.

(** ** Replies *)

Definition confirmation_payload (p : PendingChannelOpen) : bytes :=
  [msg.CHANNEL_OPEN_CONFIRMATION] ++ be32 p.(po_recipient_channel) ++ be32 p.(po_sender_channel) ++
  be32 p.(po_window_size) ++ be32 p.(po_packet_size).

Definition failure_payload (recipient code : Z) (description : bytes) : bytes :=
  [msg.CHANNEL_OPEN_FAILURE] ++ be32 recipient ++ be32 code ++ prefixed description ++ prefixed (str "en").

Definition failure_ok (f : ChannelOpenFailure.failure) : Prop :=
  is_u32 (ChannelOpenFailure.code f) /\ zlen (ChannelOpenFailure.description f) < U32_MOD.

Definition refusal (p : PendingChannelOpen) (f : ChannelOpenFailure.failure) : bytes :=
  failure_payload p.(po_recipient_channel) (ChannelOpenFailure.code f) (ChannelOpenFailure.description f).

(** What a request is answered with, once the handle's reply went out. *)
Definition replies_to (p : PendingChannelOpen) (a : action) : list bytes :=
  match a with
  | Accept => [confirmation_payload p]
  | Reject f => [refusal p f]
  | Ignore => [refusal p ChannelOpenFailure.AdministrativelyProhibited]
  | Stash => []
  end.

Section Replies.
Context {enc : SshEncoding} `{!SshEncodingLaws enc}.
Context (window_size maximum_packet_size : Z).
Hypothesis window_u32 : is_u32 window_size.
Hypothesis packet_u32 : is_u32 maximum_packet_size.

Lemma new_id_spec e : is_u32 e.(last_channel_id) -> Z.of_nat (size e.(channels)) < U32_MOD ->
  exists id, new_channel_id e = (Ok id, set_last_channel_id id e) /\ is_u32 id /\ e.(channels) !! id = None.
Proof.
  intros Hl Hs. unfold new_channel_id.
  pose proof (to_u32_range (e.(last_channel_id) + 1) : is_u32 (wrapping_add32 e.(last_channel_id) 1)) as Hid.
  destruct (next_free_total (wrapping_add32 e.(last_channel_id) 1) e.(channels) Hid Hs) as [r Hr].
  pose proof (next_free_spec (size e.(channels)) _ e.(channels) Hid) as Hspec. rewrite Hr in Hspec |- *.
  destruct Hspec as (Hfree & Hu & _). by exists r.
Qed.

Definition pending_ok (p : PendingChannelOpen) : Prop :=
  is_u32 p.(po_recipient_channel) /\ is_u32 p.(po_sender_channel) /\
  is_u32 p.(po_window_size) /\ is_u32 p.(po_packet_size).

Lemma confirmation_appends p : pending_ok p -> appends (confirmation_body p) (confirmation_payload p).
Proof.
  intros (? & ? & ? & ?). assert (is_u8 msg.CHANNEL_OPEN_CONFIRMATION) by done.
  unfold confirmation_body, confirmation_payload, enc_w. auto 10 with wire.
Qed.

Lemma failure_appends r c d : is_u32 r -> is_u32 c -> zlen d < U32_MOD ->
  appends (enc_w (encode_u8 msg.CHANNEL_OPEN_FAILURE) ;;; enc_w (encode_u32 r) ;;; enc_w (encode_u32 c) ;;;
           enc_w (encode_bytes d) ;;; enc_w (encode_bytes (str "en"))) (failure_payload r c d).
Proof.
  intros. assert (is_u8 msg.CHANNEL_OPEN_FAILURE) by done. assert (zlen (str "en") < U32_MOD) by done.
  unfold failure_payload, prefixed, enc_w. auto 10 with wire.
Qed.

(** Appending a packet to [enc.write]. *)
Lemma on_write_packet w p (s : OpenState) :
  appends w p ->
  on_enc (on_write w) s =
    (Ok tt, set_enc (set_write (s.(enc_).(enc_write) ++ p) s.(enc_).(write_cursor) s.(enc_)) s).
Proof. intros Hw. unfold on_enc, on_write. by rewrite Hw. Qed.

(** The state once the replies [ps] of a request went out. *)
Definition answered (ps : list bytes) (e : Encrypted) : Encrypted :=
  set_write (e.(enc_write) ++ flat_map frame ps) e.(write_cursor) e.

Lemma flat_frame_one x : flat_map frame [x] = frame x.
Proof. cbn [flat_map]. apply app_nil_r. Qed.

Lemma drain_one_reply p (a : action) e st reg :
  pending_ok p -> (forall f, a = Reject f -> failure_ok f) ->
  drain_open_replies (mkOpenState e (act a (OpenHandle.new p)).1 st reg) =
    (Ok tt, match a with
            | Accept => mkOpenState (put_channel p.(po_sender_channel) p.(po_channel_params)
                          (answered (replies_to p a) e)) [] st (<[p.(po_sender_channel) := p.(po_channel_ref)]> reg)
            | _ => mkOpenState (answered (replies_to p a) e) [] st reg
            end).
Proof.
  intros Hp Ha. unfold drain_open_replies. destruct Hp as (H1 & H2 & H3 & H4).
  destruct a as [|f| |]; cbn [act OpenHandle.accept OpenHandle.reject OpenHandle.drop_handle
    OpenHandle.try_send_reply OpenHandle.new OpenHandle.inner OpenHandle.sent fst app open_replies length
    drain_loop replies_to]; unfold finalize_channel_open_reply; unfold st_bind.
  - rewrite (on_write_packet _ (frame (confirmation_payload p))); [|].
    + unfold answered. by rewrite flat_frame_one.
    + apply appends_push_packet. by apply confirmation_appends.
  - destruct (Ha f eq_refl). unfold failure_body.
    rewrite (on_write_packet _ (frame (refusal p f))); [|by apply appends_push_packet, failure_appends].
    unfold answered. by rewrite flat_frame_one.
  - unfold failure_body.
    rewrite (on_write_packet _ (frame (refusal p ChannelOpenFailure.AdministrativelyProhibited)));
      [|by apply appends_push_packet, failure_appends].
    unfold answered. by rewrite flat_frame_one.
  - unfold answered. cbn. rewrite app_nil_r. by destruct e.
Qed.

(** The types the server refuses itself: reason and message. *)
Definition refused_by_server (t : ChannelType.type) : option (Z * bytes) :=
  match t with
  | ChannelType.ForwardedStreamLocal _ | ChannelType.AgentForward =>
      Some (msg.SSH_OPEN_ADMINISTRATIVELY_PROHIBITED, str "Unsupported channel type")
  | ChannelType.Unknown _ => Some (msg.SSH_OPEN_UNKNOWN_CHANNEL_TYPE, str "Unknown channel type")
  | _ => None
  end.

Definition open_then_drain (decide : ChannelType.type -> action) (sender : Z) (r : bytes)
  : st OpenState Error.error unit :=
  server_handle_channel_open window_size maximum_packet_size decide sender r ;;; drain_open_replies.

Lemma refuse_spec m reason text p s :
  is_u32 m.(Parsing.recipient_channel) -> is_u32 reason -> zlen text < U32_MOD ->
  refuse (fail m reason text) p s =
    (Ok tt, mkOpenState
      (answered [failure_payload m.(Parsing.recipient_channel) reason text] s.(enc_))
      (s.(open_replies) ++ (act Ignore (OpenHandle.new p)).1) s.(stashed) s.(registered)).
Proof.
  intros Hm Hr Ht. unfold refuse.
  rewrite (on_write_packet _ (frame (failure_payload m.(Parsing.recipient_channel) reason text)));
    [|by apply appends_push_packet, failure_appends].
  unfold answered. rewrite flat_frame_one. unfold run_handle, st_mod. cbn [act fst].
  cbn [set_enc stashed]. by rewrite app_nil_r.
Qed.

Lemma open_then_drain_spec decide sender r m s :
  parse r = Ok m -> is_u32 m.(Parsing.recipient_channel) -> s.(open_replies) = [] ->
  is_u32 s.(enc_).(last_channel_id) -> Z.of_nat (size s.(enc_).(channels)) < U32_MOD ->
  (forall f, decide m.(typ) = Reject f -> failure_ok f) ->
  exists id, is_u32 id /\ s.(enc_).(channels) !! id = None /\
    let p := open_pending window_size maximum_packet_size m id sender in
    let e := set_last_channel_id id s.(enc_) in
    open_then_drain decide sender r s =
      (Ok tt,
       match refused_by_server m.(typ) with
       | Some (reason, text) =>
           mkOpenState (answered [failure_payload m.(Parsing.recipient_channel) reason text;
                                  refusal p ChannelOpenFailure.AdministrativelyProhibited] e)
             [] s.(stashed) s.(registered)
       | None =>
           match decide m.(typ) with
           | Accept =>
               mkOpenState (put_channel id (open_params window_size maximum_packet_size m id)
                              (answered [confirmation_payload p] e))
                 [] s.(stashed) (<[id := sender]> s.(registered))
           | Stash => mkOpenState e [] (s.(stashed) ++ [OpenHandle.new p]) s.(registered)
           | a => mkOpenState (answered (replies_to p a) e) [] s.(stashed) s.(registered)
           end
       end).
Proof.
  intros Hp Hm Hrep Hl Hs Hf. destruct (new_id_spec _ Hl Hs) as (id & Hid & Hu & Hnone).
  exists id. split; [done|]. split; [done|]. cbv zeta.
  set (p := open_pending _ _ _ _ _). set (e := set_last_channel_id _ _).
  assert (Hpok : pending_ok p) by done.
  unfold open_then_drain, server_handle_channel_open, st_bind, st_lift. rewrite Hp.
  unfold on_enc. rewrite Hid. fold e. fold p.
  assert (Hrefuse : forall reason text, is_u32 reason -> zlen text < U32_MOD ->
    match refuse (fail m reason text) p (set_enc e s) with
    | (Ok _, s') => drain_open_replies s'
    | (Err x, s') => (Err x, s')
    | (Panic, s') => (Panic, s')
    end = (Ok tt, mkOpenState (answered [failure_payload m.(Parsing.recipient_channel) reason text;
        refusal p ChannelOpenFailure.AdministrativelyProhibited] e) [] s.(stashed) s.(registered))).
  { intros reason text Hr Ht. rewrite refuse_spec by done. cbn [set_enc open_replies enc_ stashed registered].
    rewrite Hrep. cbn [app].
    rewrite (drain_one_reply p Ignore _ s.(stashed) s.(registered) Hpok ltac:(done)).
    unfold answered. cbn [replies_to enc_write write_cursor set_write flat_map]. by rewrite !app_nil_r, <- app_assoc. }
  assert (Hact : forall a, (forall f, a = Reject f -> failure_ok f) ->
    drain_open_replies (run_handle a p (set_enc e s)).2 =
    (Ok tt, match a with
     | Accept => mkOpenState (put_channel id (open_params window_size maximum_packet_size m id)
                     (answered [confirmation_payload p] e)) [] s.(stashed) (<[id := sender]> s.(registered))
     | Stash => mkOpenState e [] (s.(stashed) ++ [OpenHandle.new p]) s.(registered)
     | a => mkOpenState (answered (replies_to p a) e) [] s.(stashed) s.(registered)
     end)).
  { intros a Ha. unfold run_handle, st_mod. cbn [snd set_enc enc_ open_replies stashed registered]. rewrite Hrep.
    pose proof (drain_one_reply p a e (s.(stashed) ++ (act a (OpenHandle.new p)).2) s.(registered) Hpok Ha) as Hd.
    destruct a as [|f| |]; cbn [act snd fst] in Hd |- *; rewrite ?app_nil_r in Hd; rewrite ?app_nil_r;
      cbn [app]; rewrite Hd; done. }
  destruct m.(typ) eqn:Ht; cbn [refused_by_server];
    first [by apply Hrefuse|etransitivity; [exact (Hact _ Hf)|by destruct (decide _)]].
Qed.

(** A peer's [CHANNEL_OPEN] and the replies it gets, once the reply queue is
    drained: a type passed to the application gets exactly the reply that the
    callback gave to its handle (a refusal when the handle is dropped, nothing yet
    when it is kept), and an accepted channel is registered under a fresh number
    with the configured window; but a type that the server refuses itself gets
    two [CHANNEL_OPEN_FAILURE] messages, its own and that of the dropped
    handle. *)
Theorem server_open_replies decide sender r m s :
  parse r = Ok m -> is_u32 m.(Parsing.recipient_channel) -> s.(open_replies) = [] ->
  is_u32 s.(enc_).(last_channel_id) -> Z.of_nat (size s.(enc_).(channels)) < U32_MOD ->
  (forall f, decide m.(typ) = Reject f -> failure_ok f) ->
  exists id, is_u32 id /\ s.(enc_).(channels) !! id = None /\
    let p := open_pending window_size maximum_packet_size m id sender in
    let e := set_last_channel_id id s.(enc_) in
    open_then_drain decide sender r s =
      (Ok tt,
       match refused_by_server m.(typ) with
       | Some (reason, text) =>
           mkOpenState (answered [failure_payload m.(Parsing.recipient_channel) reason text;
                                  refusal p ChannelOpenFailure.AdministrativelyProhibited] e)
             [] s.(stashed) s.(registered)
       | None =>
           match decide m.(typ) with
           | Accept =>
               mkOpenState (put_channel id (open_params window_size maximum_packet_size m id)
                              (answered [confirmation_payload p] e))
                 [] s.(stashed) (<[id := sender]> s.(registered))
           | Stash => mkOpenState e [] (s.(stashed) ++ [OpenHandle.new p]) s.(registered)
           | a => mkOpenState (answered (replies_to p a) e) [] s.(stashed) s.(registered)
           end
       end).
Proof. apply open_then_drain_spec. Qed.
End Replies.

(** ** Witness: an agent channel opened by a client is refused twice *)
Module OpenExample.
#[local] Existing Instance rfc4251.
Definition e0 : Encrypted := mkEncrypted ∅ 4 [] 0 0 false false.
Definition packet : bytes := prefixed (str "auth-agent@openssh.com") ++ be32 9 ++ be32 100 ++ be32 50.
Definition m0 : OpenChannelMessage := mkOpen ChannelType.AgentForward 9 100 50.

Lemma server_open_replies_witness :
  open_then_drain 2097152 32768 (fun _ => Accept) 3 packet (mkOpenState e0 [] [] ∅) =
    (Ok tt, mkOpenState
      (answered [failure_payload 9 1 (str "Unsupported channel type");
                 failure_payload 9 1 (str "Administratively prohibited")] (set_last_channel_id 5 e0)) [] [] ∅).
Proof.
  assert (H1 : is_u32 2097152) by (unfold is_u32, U32_MOD; lia).
  assert (H2 : is_u32 32768) by (unfold is_u32, U32_MOD; lia).
  destruct (server_open_replies 2097152 32768 H1 H2 (fun _ => Accept) 3 packet m0
    (mkOpenState e0 [] [] ∅)) as (id & _ & _ & Hs).
  - vm_compute. reflexivity.
  - unfold is_u32, U32_MOD. cbn. lia.
  - reflexivity.
  - unfold is_u32, U32_MOD. cbn. lia.
  - reflexivity.
  - intros f Hf. discriminate.
  - vm_compute in Hs |- *. injection Hs as <-. reflexivity.
Defined.
End OpenExample.
