(* ===== verification/Auth.v ===== *)
(** * Authentication data ([russh/src/auth.rs], [cert.rs], [keys/key.rs],
    [helpers.rs])

    Methods, sets of methods, the state [AuthRequest] of an authentication in
    progress, and the keys and certificates of users.  Keys, certificates and
    signatures are those of the [ssh_key] crate, a parameter ([UserKeys],
    [UserKeysLaws]). *)

From stdpp Require Import base list numbers option sets strings.
From Stdlib Require Import ZArith Lia.
From S2P Require Import Prelude Encoding LibInner NameList.

(** ** Methods *)
Module MethodKind.
Inductive kind : Type := None | Password | PublicKey | HostBased | KeyboardInteractive.

#[global] Instance kind_eq_dec : EqDecision kind.
Proof. solve_decision. Defined.

(** [From<&MethodKind> for &str]. *)
Definition as_str (k : kind) : bytes :=
  match k with
  | None => str "none"
  | Password => str "password"
  | PublicKey => str "publickey"
  | HostBased => str "hostbased"
  | KeyboardInteractive => str "keyboard-interactive"
  end.

(** [FromStr]. *)
Definition from_str (b : bytes) : option kind :=
  if beq b (str "none") then Some None
  else if beq b (str "password") then Some Password
  else if beq b (str "publickey") then Some PublicKey
  else if beq b (str "hostbased") then Some HostBased
  else if beq b (str "keyboard-interactive") then Some KeyboardInteractive
  else Datatypes.None.

Lemma from_as_str k : from_str (as_str k) = Some k.
Proof. by destruct k. Qed.
End MethodKind.
Abbreviation MethodKind := MethodKind.kind.

(** ** An ordered set of methods *)
Module MethodSet.
Definition set : Type := list MethodKind.

Definition empty : set := [].
Definition all : set :=
  [MethodKind.None; MethodKind.Password; MethodKind.PublicKey; MethodKind.HostBased;
   MethodKind.KeyboardInteractive].

(** [retain(|x| *x != method)]. *)
Definition remove (method : MethodKind) (s : set) : set :=
  List.filter (fun x => negb (bool_decide (x = method))) s.
Definition push (method : MethodKind) (s : set) : set := remove method s ++ [method].

(** [From<&[MethodKind]>]. *)
Definition from_slice (value : list MethodKind) : set :=
  fold_left (fun this method => push method this) value empty.

(** [From<&MethodSet> for NameList] and back. *)
Definition to_name_list (s : set) : list bytes := map MethodKind.as_str s.
Definition from_name_list (l : list bytes) : set := omap MethodKind.from_str l.

Lemma elem_of_remove m x s : x ∈ remove m s <-> x ∈ s /\ x <> m.
Proof.
  unfold remove. rewrite !list_elem_of_In, filter_In, negb_true_iff, bool_decide_eq_false. done.
Qed.

Lemma remove_NoDup m s : NoDup s -> NoDup (remove m s).
Proof. unfold remove. rewrite !NoDup_ListNoDup. apply List.NoDup_filter. Qed.

Lemma push_NoDup m s : NoDup s -> NoDup (push m s).
Proof.
  intros Hs. apply NoDup_app. split_and!; [by apply remove_NoDup| |apply NoDup_singleton].
  intros x [_ Hx]%elem_of_remove. by rewrite list_elem_of_singleton.
Qed.

Lemma from_slice_NoDup l : NoDup (from_slice l).
Proof.
  unfold from_slice, empty.
  assert (H : forall s, NoDup s -> NoDup (fold_left (fun this method => push method this) l s)).
  { induction l as [|m l IH]; intros s Hs; [done|]. apply IH. by apply push_NoDup. }
  apply H. constructor.
Qed.

Lemma elem_of_from_slice x l : x ∈ from_slice l <-> x ∈ l.
Proof.
  unfold from_slice, empty. transitivity (x ∈ ([] : set) \/ x ∈ l); [|set_solver].
  generalize ([] : set). induction l as [|m l IH]; intros s; cbn [fold_left]; [set_solver|].
  rewrite IH. unfold push. rewrite elem_of_app, elem_of_remove, list_elem_of_singleton, elem_of_cons.
  destruct (decide (x = m)); tauto.
Qed.

Lemma from_to_name_list s : from_name_list (to_name_list s) = s.
Proof.
  unfold from_name_list, to_name_list. induction s as [|m s IH]; [done|].
  cbn [map omap list_omap]. by rewrite MethodKind.from_as_str, IH.
Qed.

Lemma to_name_list_valid s : Forall NameList.valid_name (to_name_list s).
Proof.
  unfold to_name_list. apply List.Forall_map, List.Forall_forall. intros k _.
  unfold NameList.valid_name, NameList.COMMA. destruct k; cbn [MethodKind.as_str];
    (split_and!; [discriminate|reflexivity|apply (bool_decide_unpack _); vm_compute; exact I]).
Qed.
End MethodSet.
Abbreviation MethodSet := MethodSet.set.

(** ** The answer of the application to a request *)
Inductive Auth : Type :=
| Reject (proceed_with_methods : option MethodSet) (partial_success : bool)
| Accept
| UnsupportedMethod
| Partial (name instructions : bytes) (prompts : list (bytes * bool)).

(** [Auth::reject()]. *)
Definition Auth_reject : Auth := Reject None false.

(** [auth == Auth::Accept]. *)
Definition is_accept (a : Auth) : bool := match a with Accept => true | _ => false end.

(** ** An authentication in progress *)
Inductive CurrentRequest : Type :=
| CurrentPublicKey (key algo : bytes) (sent_pk_ok : bool)
| CurrentKeyboardInteractive (submethods : bytes).

Record AuthPrincipal : Type := mkPrincipal { p_user : bytes; p_service : bytes }.

Record AuthRequest : Type := mkAuthRequest {
  initial_methods : MethodSet;
  methods : MethodSet;
  partial_success : bool;
  current : option CurrentRequest;
  principal : option AuthPrincipal;
  rejection_count : Z;
}.

Definition set_methods (m : MethodSet) (partial : bool) (a : AuthRequest) : AuthRequest :=
  mkAuthRequest a.(initial_methods) m partial a.(current) a.(principal) a.(rejection_count).
Definition set_current (c : option CurrentRequest) (a : AuthRequest) : AuthRequest :=
  mkAuthRequest a.(initial_methods) a.(methods) a.(partial_success) c a.(principal)
    a.(rejection_count).
Definition set_rejection_count (n : Z) (a : AuthRequest) : AuthRequest :=
  mkAuthRequest a.(initial_methods) a.(methods) a.(partial_success) a.(current) a.(principal) n.

(** [AuthRequest::server]. *)
Definition AuthRequest_server (m : MethodSet) : AuthRequest := mkAuthRequest m m false None None 0.

(** The new request, and whether the principal changed. *)
Definition bind_or_reset_principal (user service : bytes) (a : AuthRequest) : bool * AuthRequest :=
  let fresh :=
    (true, mkAuthRequest a.(initial_methods) a.(initial_methods) false None
             (Some (mkPrincipal user service)) a.(rejection_count)) in
  match a.(principal) with
  | Some bound => if beq bound.(p_user) user && beq bound.(p_service) service then (false, a) else fresh
  | None => fresh
  end.

(** [EncryptedState] ([session.rs]). *)
Inductive EncryptedState : Type :=
| WaitingAuthServiceRequest (sent accepted : bool)
| WaitingAuthRequest (a : AuthRequest)
| InitCompression
| Authenticated.

(** ** Keys of users, from [ssh_key] *)
Inductive HashAlg : Type := Sha256 | Sha512.

(** [ssh_key::Error]: the variants that the code tells apart. *)
Inductive KeyError : Type :=
| AlgorithmUnknown
| AlgorithmUnsupported
| CertificateValidation
| KeyEncoding (code : Z)
| KeyOther (code : Z).

Definition from_key_error (e : KeyError) : Error.error :=
  Error.SshKey (match e with
    | AlgorithmUnknown => 0 | AlgorithmUnsupported => 1 | CertificateValidation => 2
    | KeyEncoding c => 3 + 2 * c | KeyOther c => 4 + 2 * c
    end).

Class UserKeys : Type := {
  Algorithm : Type;
  PublicKey : Type;
  PrivateKey : Type;
  Certificate : Type;
  Signature : Type;
  (** [Algorithm::Rsa { hash }] as a constructor and as a pattern; the pattern
      [Algorithm::Other(_)] *)
  Rsa : option HashAlg -> Algorithm;
  as_rsa : Algorithm -> option (option HashAlg);
  is_other : Algorithm -> bool;
  alg_as_str : Algorithm -> bytes;
  to_certificate_type : Algorithm -> bytes;
  Algorithm_new : bytes -> res KeyError Algorithm;
  Algorithm_new_certificate : bytes -> res KeyError Algorithm;
  (** [KeyData::decode] then [into] *)
  PublicKey_decode : bytes -> res KeyError PublicKey;
  Certificate_decode : bytes -> res KeyError Certificate;
  PublicKey_to_bytes : PublicKey -> res KeyError bytes;
  Certificate_to_bytes : Certificate -> res KeyError bytes;
  public_algorithm : PublicKey -> Algorithm;
  private_algorithm : PrivateKey -> Algorithm;
  public_key : PrivateKey -> PublicKey;
  cert_algorithm : Certificate -> Algorithm;
  cert_public_key : Certificate -> PublicKey;
  (** times since the epoch, [None] when not representable *)
  valid_after_time : Certificate -> option Z;
  valid_before_time : Certificate -> option Z;
  verify_signature : Certificate -> bool;
  Signature_decode : bytes -> res KeyError (Signature * bytes);
  (** [Verifier::verify(..).is_ok()] *)
  verify : PublicKey -> bytes -> Signature -> bool;
  (** [Signer::try_sign(..)] then [encoded()], of the key pair and of an RSA key
      pair with a hash *)
  try_sign : PrivateKey -> bytes -> res KeyError bytes;
  try_sign_rsa : PrivateKey -> option HashAlg -> bytes -> res KeyError bytes;
}.

Section Keys.
Context {UK : UserKeys}.

(** [AlgorithmExt]. *)
Definition hash_alg (a : Algorithm) : option HashAlg :=
  match as_rsa a with Some hash => hash | None => None end.
Definition with_hash_alg (h : option HashAlg) (a : Algorithm) : Algorithm :=
  match as_rsa a with Some _ => Rsa h | None => a end.
Definition new_certificate_ext (algo : bytes) : res KeyError Algorithm :=
  if beq algo (str "rsa-sha2-256-cert-v01@openssh.com") then Ok (Rsa (Some Sha256))
  else if beq algo (str "rsa-sha2-512-cert-v01@openssh.com") then Ok (Rsa (Some Sha512))
  else Algorithm_new_certificate algo.

(** [PrivateKeyWithHashAlg]. *)
Record PrivateKeyWithHashAlg : Type := mkPrivateKeyWithHashAlg {
  pk_key : PrivateKey;
  pk_hash_alg : option HashAlg;
}.

Definition is_rsa (a : Algorithm) : bool := bool_decide (is_Some (as_rsa a)).

Definition PrivateKeyWithHashAlg_new (key : PrivateKey) (h : option HashAlg)
  : PrivateKeyWithHashAlg :=
  mkPrivateKeyWithHashAlg key (if negb (is_rsa (private_algorithm key)) then None else h).

Definition PrivateKeyWithHashAlg_algorithm (k : PrivateKeyWithHashAlg) : Algorithm :=
  with_hash_alg k.(pk_hash_alg) (private_algorithm k.(pk_key)).

(** [sign_with_hash_alg]; [unreachable!()] is the panic. *)
Definition sign_with_hash_alg (k : PrivateKeyWithHashAlg) (data : bytes) : res KeyError bytes :=
  if is_rsa (private_algorithm k.(pk_key)) then
    match as_rsa (PrivateKeyWithHashAlg_algorithm k) with
    | Some hash => try_sign_rsa k.(pk_key) hash data
    | None => Panic
    end
  else try_sign k.(pk_key) data.

(** [cert.rs]. *)
Inductive PublicKeyOrCertificate : Type :=
| IsPublicKey (key : PublicKey) (h : option HashAlg)
| IsCertificate (cert : Certificate).

Definition of_private_key (k : PrivateKeyWithHashAlg) : PublicKeyOrCertificate :=
  IsPublicKey (public_key k.(pk_key)) k.(pk_hash_alg).

Definition PublicKeyOrCertificate_decode (pubkey_algo buf : bytes)
  : res KeyError PublicKeyOrCertificate :=
  let plain :=
    let? key := PublicKey_decode buf in
    let? a := Algorithm_new pubkey_algo in
    Ok (IsPublicKey key (hash_alg a)) in
  match new_certificate_ext pubkey_algo with
  | Ok a => if is_other a then plain else let? c := Certificate_decode buf in Ok (IsCertificate c)
  | Err (KeyEncoding _) => plain
  | Err _ => let? c := Certificate_decode buf in Ok (IsCertificate c)
  | Panic => Panic
  end.

(** [Method], the ways in which a client authenticates. *)
Inductive Method : Type :=
| MethodNone
| MethodPassword (password : bytes)
| MethodPublicKey (key : PrivateKeyWithHashAlg)
| MethodOpenSshCertificate (key : PrivateKey) (cert : Certificate)
| MethodFuturePublicKey (key : PublicKey) (h : option HashAlg)
| MethodFutureCertificate (cert : Certificate) (h : option HashAlg)
| MethodKeyboardInteractive (submethods : bytes).

(** [AuthRequest::new]. *)
Definition AuthRequest_new (m : Method) : AuthRequest :=
  let current :=
    match m with
    | MethodKeyboardInteractive submethods => Some (CurrentKeyboardInteractive submethods)
    | _ => None
    end in
  mkAuthRequest MethodSet.all MethodSet.all false current None 0.
End Keys.
Arguments PrivateKeyWithHashAlg : clear implicits.
Arguments PrivateKeyWithHashAlg {UK}.

(** What the [ssh_key] crate promises for a key pair: its encodings and those of
    its certificates are read back, the names of its algorithms are recognised,
    and what it signs is verified with its public key. *)
Class UserKeysLaws (UK : UserKeys) : Prop := {
  as_rsa_Rsa h : as_rsa (Rsa h) = Some h;
  public_algorithm_of key : public_algorithm (public_key key) = private_algorithm key;
  PublicKey_roundtrip key b : PublicKey_to_bytes key = Ok b ->
    PublicKey_decode b = Ok key /\ zlen b <= MAX_ENCODED_LEN;
  Certificate_roundtrip cert b : Certificate_to_bytes cert = Ok b ->
    Certificate_decode b = Ok cert /\ zlen b <= MAX_ENCODED_LEN;
  certificate_type_ok a : is_utf8 (to_certificate_type a) = true /\ zlen (to_certificate_type a) <= 255;
  certificate_type_known a : is_other a = false ->
    match new_certificate_ext (to_certificate_type a) with Ok b => is_other b = false | _ => False end;
  alg_str_ok a : is_utf8 (alg_as_str a) = true /\ zlen (alg_as_str a) <= 255;
  Algorithm_new_str a : Algorithm_new (alg_as_str a) = Ok a;
  alg_str_not_certificate a :
    alg_as_str a <> str "rsa-sha2-256-cert-v01@openssh.com" /\
    alg_as_str a <> str "rsa-sha2-512-cert-v01@openssh.com" /\
    match Algorithm_new_certificate (alg_as_str a) with
    | Ok b => is_other b = true | Err (KeyEncoding _) => True | _ => False
    end;
  try_sign_verifies key data s : try_sign key data = Ok s ->
    zlen s <= MAX_ENCODED_LEN /\
    exists sg, Signature_decode s = Ok (sg, []) /\ verify (public_key key) data sg = true;
  try_sign_rsa_verifies key h data s : try_sign_rsa key h data = Ok s ->
    zlen s <= MAX_ENCODED_LEN /\
    exists sg, Signature_decode s = Ok (sg, []) /\ verify (public_key key) data sg = true;
  keys_no_panic b : PublicKey_decode b <> Panic /\ Certificate_decode b <> Panic /\
    Algorithm_new b <> Panic /\ Algorithm_new_certificate b <> Panic /\ Signature_decode b <> Panic;
}.

Section KeyLemmas.
Context {UK : UserKeys} `{!UserKeysLaws UK}.

Lemma sign_verifies k data s : sign_with_hash_alg k data = Ok s ->
  zlen s <= MAX_ENCODED_LEN /\
  exists sg, Signature_decode s = Ok (sg, []) /\ verify (public_key k.(pk_key)) data sg = true.
Proof.
  unfold sign_with_hash_alg. destruct (is_rsa _); [|by apply try_sign_verifies].
  destruct (as_rsa (PrivateKeyWithHashAlg_algorithm k)); [apply try_sign_rsa_verifies|done].
Qed.

(** A key sent under the name of its own algorithm is read back as that key. *)
Lemma decode_public_key a key b : PublicKey_to_bytes key = Ok b ->
  PublicKeyOrCertificate_decode (alg_as_str a) b = Ok (IsPublicKey key (hash_alg a)).
Proof.
  intros [Hb _]%PublicKey_roundtrip. unfold PublicKeyOrCertificate_decode, new_certificate_ext.
  destruct (alg_str_not_certificate a) as (H1 & H2 & H3).
  rewrite (proj2 (beq_false _ _) H1), (proj2 (beq_false _ _) H2), Hb, Algorithm_new_str.
  cbn [res_bind].
  destruct (Algorithm_new_certificate (alg_as_str a)) as [c|[]|]; [by rewrite H3|done..].
Qed.

(** Likewise a certificate, under the name of its type. *)
Lemma decode_certificate a cert b : is_other a = false -> Certificate_to_bytes cert = Ok b ->
  PublicKeyOrCertificate_decode (to_certificate_type a) b = Ok (IsCertificate cert).
Proof.
  intros Ha [Hb _]%Certificate_roundtrip. unfold PublicKeyOrCertificate_decode.
  pose proof (certificate_type_known _ Ha) as H. destruct (new_certificate_ext _) as [c|?|]; [|done..].
  by rewrite H, Hb.
Qed.
End KeyLemmas.

(** ** Keys that satisfy the laws, enough to run the model *)
Module Example.
Inductive alg : Type := Ed25519 | RsaAlg (h : option HashAlg).

Definition alg_str (a : alg) : bytes :=
  match a with
  | Ed25519 => str "ssh-ed25519"
  | RsaAlg None => str "ssh-rsa"
  | RsaAlg (Some Sha256) => str "rsa-sha2-256"
  | RsaAlg (Some Sha512) => str "rsa-sha2-512"
  end.

Definition alg_new (b : bytes) : res KeyError alg :=
  if beq b (str "ssh-ed25519") then Ok Ed25519
  else if beq b (str "ssh-rsa") then Ok (RsaAlg None)
  else if beq b (str "rsa-sha2-256") then Ok (RsaAlg (Some Sha256))
  else if beq b (str "rsa-sha2-512") then Ok (RsaAlg (Some Sha512))
  else Err AlgorithmUnknown.

(** An RSA key or not, and its number. *)
Definition key : Type := bool * Z.
Definition key_alg (k : key) : alg := if k.1 then RsaAlg None else Ed25519.

Definition signature (k : key) (data : bytes) : bytes := [k.2; fold_right Z.add 0 data].

Definition keys : UserKeys := {|
  Algorithm := alg; PublicKey := key; PrivateKey := key; Certificate := key * (Z * Z);
  Signature := bytes;
  Rsa h := RsaAlg h;
  as_rsa a := match a with RsaAlg h => Some h | Ed25519 => None end;
  is_other _ := false;
  alg_as_str := alg_str;
  to_certificate_type a :=
    match a with
    | Ed25519 => str "ssh-ed25519-cert-v01@openssh.com"
    | RsaAlg _ => str "ssh-rsa-cert-v01@openssh.com"
    end;
  Algorithm_new := alg_new;
  Algorithm_new_certificate b :=
    if beq b (str "ssh-ed25519-cert-v01@openssh.com") then Ok Ed25519
    else if beq b (str "ssh-rsa-cert-v01@openssh.com") then Ok (RsaAlg None)
    else Err (KeyEncoding 0);
  PublicKey_decode b := match b with [r; k] => Ok (r =? 1, k) | _ => Err (KeyOther 0) end;
  Certificate_decode b :=
    match b with [r; k; from; until] => Ok ((r =? 1, k), (from, until)) | _ => Err (KeyOther 0) end;
  PublicKey_to_bytes k := Ok [if k.1 then 1 else 0; k.2];
  Certificate_to_bytes c := Ok [if c.1.1 then 1 else 0; c.1.2; c.2.1; c.2.2];
  public_algorithm := key_alg; private_algorithm := key_alg; public_key k := k;
  cert_algorithm c := key_alg c.1; cert_public_key c := c.1;
  valid_after_time c := Some c.2.1; valid_before_time c := Some c.2.2;
  verify_signature c := true;
  Signature_decode b := Ok (b, []);
  verify k data s := beq s (signature k data);
  try_sign k data := Ok (signature k data);
  try_sign_rsa k _ data := Ok (signature k data);
|}.

Lemma keys_laws : UserKeysLaws keys.
Proof.
  split; cbn; try done.
  - intros [[] k] b; intros [= <-]; done.
  - intros [[[] k] [x y]] b; intros [= <-]; done.
  - by intros [|h].
  - by intros [|h].
  - by intros [|[[]|]].
  - by intros [|[[]|]].
  - by intros [|[[]|]].
  - intros k data s [= <-]. split; [done|]. eexists. split; [done|apply beq_refl].
  - intros k h data s [= <-]. split; [done|]. eexists. split; [done|apply beq_refl].
  - intros b. unfold alg_new. split_and!; repeat case_match; done.
Qed.
End Example.
