(* ===== verification/ServerAuth.v ===== *)
(** * Authentication on the server ([russh/src/server/encrypted.rs])

    How the server answers [USERAUTH_REQUEST] and [USERAUTH_INFO_RESPONSE]: the
    methods [none], [password], [publickey] (keys and certificates, probes and
    signed requests) and [keyboard-interactive].

    The application's callbacks are [AuthHandler].  [a_trace] is a history
    variable: the callbacks made with their answers, and the waits before a
    rejection is answered. *)

From stdpp Require Import base list numbers option sets strings.
From Stdlib Require Import ZArith Lia.
From S2P Require Import Prelude Encoding LibInner Msg NameList Parsing Auth.

(** ** The application *)
Class AuthHandler {UK : UserKeys} (H E : Type) : Type := {
  authentication_banner : st H E (option bytes);
  auth_none : bytes -> st H E Auth;
  auth_password : bytes -> bytes -> st H E Auth;
  auth_publickey_offered : bytes -> PublicKey -> st H E Auth;
  auth_publickey : bytes -> PublicKey -> st H E Auth;
  auth_openssh_certificate : bytes -> Certificate -> st H E Auth;
  (** user, submethods, and the responses (an undecodable one is [None]) *)
  auth_keyboard_interactive : bytes -> bytes -> option (list (option bytes)) -> st H E Auth;
  auth_error : Error.error -> E;
}.

Section ServerAuth.
Context {enc : SshEncoding} {UK : UserKeys}.

Inductive AuthEvent : Type :=
| CallNone (user : bytes) (answer : Auth)
| CallPassword (user password : bytes) (answer : Auth)
| CallOffered (user : bytes) (key : PublicKey) (answer : Auth)
| CallPublicKey (user : bytes) (key : PublicKey) (answer : Auth)
| CallCertificate (user : bytes) (cert : Certificate) (answer : Auth)
| CallKeyboardInteractive (user submethods : bytes) (responses : option (list (option bytes)))
    (answer : Auth)
| SleptUntil (t : Z).

(** ** State: the parts of [Encrypted] and [CommonSession] that the requests
    touch *)
Record AuthCtx (H : Type) : Type := mkAuthCtx {
  a_state : EncryptedState;         (* enc.state *)
  a_write : bytes;                  (* enc.write *)
  a_user : bytes;                   (* common.auth_user *)
  a_handler : H;
  a_trace : list AuthEvent;
}.
#[global] Arguments mkAuthCtx {H} _ _ _ _ _.
#[global] Arguments a_state {H} _.
#[global] Arguments a_write {H} _.
#[global] Arguments a_user {H} _.
#[global] Arguments a_handler {H} _.
#[global] Arguments a_trace {H} _.

Context {H E : Type} {AH : AuthHandler H E}.
Context (session_id : bytes).
Implicit Types c : AuthCtx H.

Definition set_state (v : EncryptedState) c : AuthCtx H :=
  mkAuthCtx v c.(a_write) c.(a_user) c.(a_handler) c.(a_trace).
Definition set_auth_write (v : bytes) c : AuthCtx H :=
  mkAuthCtx c.(a_state) v c.(a_user) c.(a_handler) c.(a_trace).
Definition set_user (v : bytes) c : AuthCtx H :=
  mkAuthCtx c.(a_state) c.(a_write) v c.(a_handler) c.(a_trace).
Definition asked (h : H) (evs : list AuthEvent) c : AuthCtx H :=
  mkAuthCtx c.(a_state) c.(a_write) c.(a_user) h (c.(a_trace) ++ evs).

Definition up {A} (m : res Error.error A) : res E A := map_err auth_error m.
Definition dec {A} (m : res EncError A) : res E A := up (enc_err m).
Definition key_err {A} (m : res KeyError A) : res E A := up (map_err from_key_error m).

(** Code that stages a packet in [enc.write]. *)
Definition stage (body : writer Error.error) : st (AuthCtx H) E unit := fun c =>
  let '(r, w) := push_packet body c.(a_write) in (up r, set_auth_write w c).

(** A callback, recorded with its answer. *)
Definition ask (m : st H E Auth) (ev : Auth -> AuthEvent) : st (AuthCtx H) E Auth := fun c =>
  match m c.(a_handler) with
  | (Ok a, h) => (Ok a, asked h [ev a] c)
  | (Err e, h) => (Err e, asked h [] c)
  | (Panic, h) => (Panic, asked h [] c)
  end.

(** Code on the [AuthRequest] of the state; any other state is the [unreachable!()]. *)
Definition get_request : st (AuthCtx H) E AuthRequest := fun c =>
  match c.(a_state) with WaitingAuthRequest a => (Ok a, c) | _ => (Panic, c) end.
Definition mod_request (f : AuthRequest -> AuthRequest) : st (AuthCtx H) E unit := fun c =>
  match c.(a_state) with
  | WaitingAuthRequest a => (Ok tt, set_state (WaitingAuthRequest (f a)) c)
  | _ => (Panic, c)
  end.

(** ** Answers *)

Definition success_body : writer Error.error := push_byte msg.USERAUTH_SUCCESS.
Definition failure_body (a : AuthRequest) : writer Error.error :=
  push_byte msg.USERAUTH_FAILURE ;;;
  enc_w (NameList.encode (MethodSet.to_name_list a.(methods))) ;;;
  push_byte (if a.(partial_success) then 1 else 0).
Definition pk_ok_body (pubkey_algo pubkey_key : bytes) : writer Error.error :=
  push_byte msg.USERAUTH_PK_OK ;;; enc_w (encode_bytes pubkey_algo) ;;; enc_w (encode_bytes pubkey_key).

(** The prompts of a challenge; [usize::encode] writes a [u32]. *)
Fixpoint prompts_body (prompts : list (bytes * bool)) : writer EncError :=
  match prompts with
  | [] => st_ret tt
  | (a, b) :: rest =>
      encode_bytes a ;;; encode_u8 (if b then 1 else 0) ;;; prompts_body rest
  end.
Definition encode_usize (n : Z) : writer EncError :=
  if n <? U32_MOD then encode_u32 n else st_err Length.
Definition info_request_body (name instructions : bytes) (prompts : list (bytes * bool))
  : writer Error.error :=
  enc_w (encode_u8 msg.USERAUTH_INFO_REQUEST ;;; encode_bytes name ;;; encode_bytes instructions ;;;
         encode_bytes [] ;;; encode_usize (zlen prompts) ;;; prompts_body prompts).

(** [sleep_until(until)] is an event. *)
Definition reject_auth_request (until : Z) : st (AuthCtx H) E unit :=
  do a <- get_request ;;
  stage (failure_body a) ;;;
  mod_request (fun a => set_rejection_count (a.(rejection_count) + 1) (set_current None a)) ;;;
  st_mod (fun c => asked c.(a_handler) [SleptUntil until] c).

Definition server_auth_request_success : st (AuthCtx H) E unit :=
  stage success_body.

Definition accept_request : st (AuthCtx H) E unit :=
  server_auth_request_success ;;; st_mod (set_state InitCompression).

(** The methods that the client can go on with after a rejected request. *)
Definition note_rejection (auth : Auth) (f : MethodSet -> MethodSet) (a : AuthRequest) : AuthRequest :=
  let a1 :=
    match auth with
    | Reject (Some proceed_with_methods) partial => set_methods proceed_with_methods partial a
    | _ => set_methods (f a.(methods)) a.(partial_success) a
    end in
  set_methods a1.(methods) false a1.

Definition reply_userauth_info_response (until : Z) (auth : Auth) : st (AuthCtx H) E bool :=
  match auth with
  | Accept => server_auth_request_success ;;; st_ret true
  | Reject proceed_with_methods partial =>
      mod_request (fun a =>
        set_methods (default a.(methods) proceed_with_methods) partial a) ;;;
      reject_auth_request until ;;; st_ret false
  | Partial name instructions prompts =>
      stage (info_request_body name instructions prompts) ;;;
      st_ret false
  | UnsupportedMethod => st_err (auth_error Error.UnsupportedAuthMethod)
  end.

(** A new authentication; the client gets the banner, if there is one. *)
Definition server_accept_service (m : MethodSet) : st (AuthCtx H) E AuthRequest :=
  do banner <- (fun c => let '(r, h) := authentication_banner c.(a_handler) in (r, asked h [] c)) ;;
  stage (push_byte msg.SERVICE_ACCEPT ;;; enc_w (encode_bytes (str "ssh-userauth"))) ;;;
  match banner with
  | Some b =>
      stage (push_byte msg.USERAUTH_BANNER ;;; enc_w (encode_bytes b) ;;; enc_w (encode_bytes []))
  | None => st_ret tt
  end ;;;
  st_ret (AuthRequest_server m).

(** ** Public keys and certificates *)

(** The key that has to sign; [None] for a certificate that is refused. *)
Definition cert_in_time (now : Z) (cert : Certificate) : bool :=
  negb (match valid_after_time cert with Some t => now <? t | None => false end ||
        match valid_before_time cert with Some t => t <? now | None => false end).

Definition key_to_verify (now : Z) (k : PublicKeyOrCertificate) : option PublicKey :=
  match k with
  | IsPublicKey key _ => Some key
  | IsCertificate cert =>
      if negb (cert_in_time now cert) then None
      else if negb (verify_signature cert) then None
      else Some (cert_public_key cert)
  end.

(** The client was told that this key is acceptable. *)
Definition accepted_probe_matches (pubkey_algo pubkey_key : bytes) (a : AuthRequest) : bool :=
  match a.(current) with
  | Some (CurrentPublicKey key algo sent_pk_ok) =>
      sent_pk_ok && beq algo pubkey_algo && beq key pubkey_key
  | _ => false
  end.

(** What the signature of a request is checked against. *)
Definition signed_data (sig_init_buffer : bytes) : res E bytes :=
  match enc_w (encode_bytes session_id) [] with
  | (Ok tt, buf) => Ok (buf ++ sig_init_buffer)
  | (Err e, _) => up (Err e)
  | (Panic, _) => Panic
  end.

(** The request carries a signature ([is_real != 0]). *)
Definition signed_request (until : Z) (original_packet : bytes) (user pubkey_algo pubkey_key : bytes)
    (pk_or_cert : PublicKeyOrCertificate) (pubkey : PublicKey) (r : bytes) : st (AuthCtx H) E unit :=
  let sig_init_buffer := ztake (zlen original_packet - zlen r) original_packet in
  do a <- get_request ;;
  let accepted_probe_matches := accepted_probe_matches pubkey_algo pubkey_key a in
  do (encoded_signature, r) <- st_lift (dec (decode_bytes r)) ;;
  do (sig, signature_reader) <- st_lift (key_err (Signature_decode encoded_signature)) ;;
  st_lift (up (ensure_end signature_reader)) ;;;
  st_lift (up (ensure_end r)) ;;;
  do is_valid <-
    (fun c =>
       if accepted_probe_matches && beq user c.(a_user) then (Ok true, c)
       else (st_mod (set_user user) ;;;
             do auth <- ask (auth_publickey_offered user pubkey) (CallOffered user pubkey) ;;
             st_ret (is_accept auth)) c) ;;
  if is_valid then
    do buf <- st_lift (signed_data sig_init_buffer) ;;
    if verify pubkey buf sig then
      do auth <-
        match pk_or_cert with
        | IsPublicKey key _ => ask (auth_publickey user key) (CallPublicKey user key)
        | IsCertificate cert => ask (auth_openssh_certificate user cert) (CallCertificate user cert)
        end ;;
      if is_accept auth then accept_request
      else
        mod_request (note_rejection auth id) ;;; st_mod (set_user []) ;;; reject_auth_request until
    else st_mod (set_user []) ;;; reject_auth_request until
  else st_mod (set_user []) ;;; reject_auth_request until.

(** The request asks whether the key would do. *)
Definition probe_request (until : Z) (user pubkey_algo pubkey_key : bytes) (pubkey : PublicKey)
    (r : bytes) : st (AuthCtx H) E unit :=
  st_lift (up (ensure_end r)) ;;;
  st_mod (set_user user) ;;;
  do auth <- ask (auth_publickey_offered user pubkey) (CallOffered user pubkey) ;;
  match auth with
  | Accept =>
      stage (pk_ok_body pubkey_algo pubkey_key) ;;;
      mod_request (set_current (Some (CurrentPublicKey pubkey_key pubkey_algo true)))
  | auth =>
      mod_request (note_rejection auth id) ;;; st_mod (set_user []) ;;; reject_auth_request until
  end.

Definition server_read_auth_request_pk (until now : Z) (original_packet user r : bytes)
  : st (AuthCtx H) E unit :=
  do _ <- get_request ;;
  do (is_real, r) <- st_lift (dec (decode_u8 r)) ;;
  do (pubkey_algo, r) <- st_lift (dec (decode_string r)) ;;
  do (pubkey_key, r) <- st_lift (dec (decode_bytes r)) ;;
  match PublicKeyOrCertificate_decode pubkey_algo pubkey_key with
  | Ok pk_or_cert =>
      match key_to_verify now pk_or_cert with
      | None => reject_auth_request until
      | Some pubkey =>
          if negb (is_real =? 0)
          then signed_request until original_packet user pubkey_algo pubkey_key pk_or_cert pubkey r
          else probe_request until user pubkey_algo pubkey_key pubkey r
      end
  | Err (AlgorithmUnknown | AlgorithmUnsupported | CertificateValidation) => reject_auth_request until
  | Err e => st_err (auth_error (from_key_error e))
  | Panic => st_panic
  end.

(** ** The other methods *)

(** The end of [password] and [none]. *)
Definition answer_or_remove (until : Z) (method : MethodKind) (auth : Auth) : st (AuthCtx H) E unit :=
  if is_accept auth then accept_request
  else
    st_mod (set_user []) ;;;
    mod_request (note_rejection auth (MethodSet.remove method)) ;;;
    reject_auth_request until.

Definition read_password (until : Z) (user r : bytes) : st (AuthCtx H) E unit :=
  st_mod (set_user user) ;;;
  do (change, r) <- st_lift (dec (decode_u8 r)) ;;
  do (password, r) <- st_lift (dec (decode_string r)) ;;
  do r <- st_lift (if negb (change =? 0) then let? (_, r) := dec (decode_string r) in Ok r else Ok r) ;;
  st_lift (up (ensure_end r)) ;;;
  do auth <- (if negb (change =? 0) then st_ret (Reject None false)
              else ask (auth_password user password) (CallPassword user password)) ;;
  answer_or_remove until MethodKind.Password auth.

Definition read_none (initial_auth_until : Z) (user r : bytes) : st (AuthCtx H) E unit :=
  st_lift (up (ensure_end r)) ;;;
  do auth <- ask (auth_none user) (CallNone user) ;;
  answer_or_remove initial_auth_until MethodKind.None auth.

Definition read_keyboard_interactive (until : Z) (user r : bytes) : st (AuthCtx H) E unit :=
  st_mod (set_user user) ;;;
  do (_, r) <- st_lift (dec (decode_string r)) ;;
  do (submethods, r) <- st_lift (dec (decode_string r)) ;;
  st_lift (up (ensure_end r)) ;;;
  mod_request (set_current (Some (CurrentKeyboardInteractive submethods))) ;;;
  do auth <- ask (auth_keyboard_interactive user submethods None)
               (CallKeyboardInteractive user submethods None) ;;
  do accepted <- reply_userauth_info_response until auth ;;
  if accepted then st_mod (set_state InitCompression) else st_ret tt.

(** The principal of the request; another one starts afresh. *)
Definition bind_principal (user service : bytes) : st (AuthCtx H) E unit :=
  do a <- get_request ;;
  let '(changed, a') := bind_or_reset_principal user service a in
  st_mod (fun c => set_state (WaitingAuthRequest a') (if changed then set_user [] c else c)).

Definition server_read_auth_request (until initial_auth_until now : Z) (original_packet r : bytes)
  : st (AuthCtx H) E unit :=
  do (user, r) <- st_lift (dec (decode_string r)) ;;
  do (service_name, r) <- st_lift (dec (decode_string r)) ;;
  do (method, r) <- st_lift (dec (decode_string r)) ;;
  if beq service_name (str "ssh-connection") then
    bind_principal user service_name ;;;
    if beq method (str "password") then read_password until user r
    else if beq method (str "publickey") then
      server_read_auth_request_pk until now original_packet user r
    else if beq method (str "none") then read_none initial_auth_until user r
    else if beq method (str "keyboard-interactive") then read_keyboard_interactive until user r
    else reject_auth_request until
  else st_err (auth_error Error.Inconsistent).

(** ** [USERAUTH_INFO_RESPONSE] *)

(** What a failed [Bytes::decode] leaves of the reader. *)
Context (after_failure : bytes -> bytes).

(** [responses.push(Bytes::decode(r).ok())], [n] times. *)
Fixpoint read_responses (n : nat) (r : bytes) : list (option bytes) * bytes :=
  match n with
  | O => ([], r)
  | S n =>
      match decode_bytes r with
      | Ok (b, r') => let '(l, r'') := read_responses n r' in (Some b :: l, r'')
      | _ => let '(l, r'') := read_responses n (after_failure r) in (None :: l, r'')
      end
  end.

Definition read_userauth_info_response (until : Z) (user r : bytes) : st (AuthCtx H) E bool :=
  do a <- get_request ;;
  match a.(current) with
  | Some (CurrentKeyboardInteractive submethods) =>
      do (n, r) <- st_lift (dec (decode_u32 r)) ;;
      let max_responses := saturating_add (zlen r) 3 / 4 in
      let '(responses, r) := read_responses (Z.to_nat (Z.min n max_responses)) r in
      st_lift (up (ensure_end r)) ;;;
      do auth <- ask (auth_keyboard_interactive user submethods (Some responses))
                   (CallKeyboardInteractive user submethods (Some responses)) ;;
      reply_userauth_info_response until auth
  | _ => reject_auth_request until ;;; st_ret false
  end.
End ServerAuth.

(** ** Who is authenticated *)

(** The callback let the user in. *)
Definition grants {UK : UserKeys} (ev : AuthEvent) : bool :=
  match ev with
  | CallNone _ a | CallPassword _ _ a | CallPublicKey _ _ a | CallCertificate _ _ a
  | CallKeyboardInteractive _ _ _ a => is_accept a
  | CallOffered _ _ _ | SleptUntil _ => false
  end.

Definition key_of {UK : UserKeys} (k : PublicKeyOrCertificate) : PublicKey :=
  match k with IsPublicKey key _ => key | IsCertificate cert => cert_public_key cert end.

Section Sound.
Context {enc : SshEncoding} {UK : UserKeys}.

(** The packet is a [publickey] request of [user] with a signature, about the
    key that [algo] and [key] encode; [r] is what follows them. *)
Definition signed_request_of (packet user algo key r : bytes) : Prop :=
  exists r0 r1 r2 r3 real r4 r5,
    packet = msg.USERAUTH_REQUEST :: r0 /\
    decode_string r0 = Ok (user, r1) /\
    decode_string r1 = Ok (str "ssh-connection", r2) /\
    decode_string r2 = Ok (str "publickey", r3) /\
    decode_u8 r3 = Ok (real, r4) /\ real <> 0 /\
    decode_string r4 = Ok (algo, r5) /\ decode_bytes r5 = Ok (key, r).

(** ... and it carries a signature by the key of [k] of the session id and of the
    request up to the signature. *)
Definition signed_by (session_id user : bytes) (k : PublicKeyOrCertificate) (packet : bytes) : Prop :=
  exists algo key r sig_bytes sig id,
    signed_request_of packet user algo key r /\
    PublicKeyOrCertificate_decode algo key = Ok k /\
    (exists r', decode_bytes r = Ok (sig_bytes, r')) /\
    (exists s', Signature_decode sig_bytes = Ok (sig, s')) /\
    encode_bytes session_id [] = (Ok tt, id) /\
    verify (key_of k) (id ++ ztake (zlen packet - zlen r) packet) sig = true.

(** Why [ev] lets [u] in, after the events [pre]. *)
Definition justified (session_id u : bytes) (pre : list AuthEvent) (ev : AuthEvent) : Prop :=
  match ev with
  | CallNone user Accept => u = user \/ u = []
  | CallPassword user _ Accept => u = user
  | CallKeyboardInteractive user _ _ Accept => u = user
  | CallPublicKey user key Accept =>
      u = user /\ CallOffered user key Accept ∈ pre /\
      exists h packet, signed_by session_id user (IsPublicKey key h) packet
  | CallCertificate user cert Accept =>
      u = user /\ CallOffered user (cert_public_key cert) Accept ∈ pre /\
      verify_signature cert = true /\ (exists now, cert_in_time now cert = true) /\
      exists packet, signed_by session_id user (IsCertificate cert) packet
  | _ => False
  end.

Definition ungranted (tr : list AuthEvent) : Prop := Forall (fun ev => grants ev = false) tr.

Context {H E : Type} {AH : AuthHandler H E}.

(** The application answered so, in some state of it. *)
Definition given (ev : AuthEvent) : Prop :=
  match ev with
  | CallNone user a => exists h h', auth_none user h = (Ok a, h')
  | CallPassword user password a => exists h h', auth_password user password h = (Ok a, h')
  | CallOffered user key a => exists h h', auth_publickey_offered user key h = (Ok a, h')
  | CallPublicKey user key a => exists h h', auth_publickey user key h = (Ok a, h')
  | CallCertificate user cert a => exists h h', auth_openssh_certificate user cert h = (Ok a, h')
  | CallKeyboardInteractive user submethods responses a =>
      exists h h', auth_keyboard_interactive user submethods responses h = (Ok a, h')
  | SleptUntil _ => True
  end.

Definition authenticated (session_id u : bytes) (tr : list AuthEvent) : Prop :=
  exists pre ev, tr = pre ++ [ev] /\ ungranted pre /\ justified session_id u pre ev /\ given ev.

Context (session_id : bytes).
Implicit Types c : AuthCtx H.

Ltac given_answer := intros ? ?; do 2 eexists; eassumption.

(** A remembered probe is one that the application accepted for the user. *)
Definition probe_known (u : bytes) (tr : list AuthEvent) (a : AuthRequest) : Prop :=
  match a.(current) with
  | Some (CurrentPublicKey key algo true) =>
      exists k, PublicKeyOrCertificate_decode algo key = Ok k /\ CallOffered u (key_of k) Accept ∈ tr
  | _ => True
  end.

(** The user that is remembered is the one of the principal. *)
Definition user_known (u : bytes) (a : AuthRequest) : Prop :=
  u = [] \/ exists service, a.(principal) = Some (mkPrincipal u service).

Definition auth_inv c : Prop :=
  match c.(a_state) with
  | WaitingAuthServiceRequest _ _ => ungranted c.(a_trace) /\ c.(a_user) = []
  | WaitingAuthRequest a =>
      ungranted c.(a_trace) /\ user_known c.(a_user) a /\ probe_known c.(a_user) c.(a_trace) a
  | InitCompression | Authenticated => authenticated session_id c.(a_user) c.(a_trace)
  end.

Definition waiting c : Prop :=
  ungranted c.(a_trace) /\ exists a, c.(a_state) = WaitingAuthRequest a /\ user_known c.(a_user) a.

(** The principal is the user [u]. *)
Definition named (u : bytes) c : Prop :=
  exists a service, c.(a_state) = WaitingAuthRequest a /\ a.(principal) = Some (mkPrincipal u service).

Lemma ungranted_snoc tr ev : ungranted tr -> grants ev = false -> ungranted (tr ++ [ev]).
Proof. intros Ht He. apply Forall_app. by repeat constructor. Qed.

Lemma dec_ok {A} (m : res EncError A) a : dec (E := E) m = Ok a -> m = Ok a.
Proof. unfold dec, up, enc_err. by rewrite !map_err_ok. Qed.

Lemma key_err_ok {A} (m : res KeyError A) a : key_err (E := E) m = Ok a -> m = Ok a.
Proof. unfold key_err, up. by rewrite !map_err_ok. Qed.

(** *** The steps, when they succeed *)

Lemma stage_ok body c x c' : stage body c = (Ok x, c') -> exists w, c' = set_auth_write w c.
Proof.
  unfold stage. destruct (push_packet _ _) as [[?|?|] w]; [|done..]. intros [= _ <-]. eauto.
Qed.

Lemma ask_ok (m : st H E Auth) ev c a c' : ask m ev c = (Ok a, c') -> exists h, c' = asked h [ev a] c.
Proof. unfold ask. destruct (m _) as [[?|?|] h]; [|done..]. intros [= <- <-]. eauto. Qed.

Lemma get_request_ok c a c' : get_request (E := E) c = (Ok a, c') -> c' = c /\ c.(a_state) = WaitingAuthRequest a.
Proof. unfold get_request. destruct (a_state c) eqn:Hs; try done. by intros [= <- <-]. Qed.

Lemma mod_request_ok f c x c' : mod_request (E := E) f c = (Ok x, c') ->
  exists a, c.(a_state) = WaitingAuthRequest a /\ c' = set_state (WaitingAuthRequest (f a)) c.
Proof. unfold mod_request. destruct (a_state c) eqn:Hs; try done. intros [= _ <-]. eauto. Qed.

Lemma reject_ok until c x c' : reject_auth_request until c = (Ok x, c') ->
  exists a w, c.(a_state) = WaitingAuthRequest a /\
    c' = mkAuthCtx (WaitingAuthRequest (set_rejection_count (a.(rejection_count) + 1) (set_current None a)))
           w c.(a_user) c.(a_handler) (c.(a_trace) ++ [SleptUntil until]).
Proof.
  unfold reject_auth_request. intros Hr. inv_st Hr.
  apply get_request_ok in E0 as [-> Ha]. apply stage_ok in E1 as [w ->].
  apply mod_request_ok in E2 as (a' & Ha' & ->). injection Hr as <-. cbn in Ha'.
  rewrite Ha in Ha'. injection Ha' as <-. exists a, w. by split.
Qed.

Lemma reject_inv until c x c' : waiting c -> reject_auth_request until c = (Ok x, c') -> auth_inv c'.
Proof.
  intros (Ht & a & Ha & Hu) (a' & w & Ha' & ->)%reject_ok. rewrite Ha in Ha'. injection Ha' as <-.
  unfold auth_inv. cbn. split_and!; [|exact Hu|done]. by apply ungranted_snoc.
Qed.

Lemma accept_inv c x c' : authenticated session_id c.(a_user) c.(a_trace) ->
  accept_request c = (Ok x, c') -> auth_inv c'.
Proof.
  intros Ha Hr. unfold accept_request, server_auth_request_success in Hr. inv_st Hr.
  apply stage_ok in E0 as [w ->]. by injection Hr as <- <-.
Qed.

(** *** The invariant *)

Lemma auth_inv_waiting c a : auth_inv c -> c.(a_state) = WaitingAuthRequest a -> waiting c.
Proof.
  unfold auth_inv, waiting. intros Hc Ha. rewrite Ha in *. destruct Hc as (? & ? & _). eauto.
Qed.

Lemma waiting_forget c : waiting c -> waiting (set_user [] c).
Proof. intros (Ht & a & Ha & _). split; [done|]. exists a. split; [done|by left]. Qed.

Lemma waiting_set_user u c : waiting c -> named u c -> waiting (set_user u c).
Proof. intros [Ht _] (a & service & Ha & Hp). split; [done|]. exists a. split; [done|]. right. eauto. Qed.

Lemma waiting_mod_request f c x c' : (forall a, (f a).(principal) = a.(principal)) ->
  waiting c -> mod_request (E := E) f c = (Ok x, c') -> waiting c'.
Proof.
  intros Hf (Ht & a & Ha & Hu) (a' & Ha' & ->)%mod_request_ok. rewrite Ha in Ha'. injection Ha' as <-.
  split; [done|]. eexists. split; [done|]. unfold user_known. by rewrite Hf.
Qed.

Lemma note_rejection_principal auth f a : (note_rejection auth f a).(principal) = a.(principal).
Proof. by destruct auth as [[]| | |]. Qed.

Lemma ask_waiting (m : st H E Auth) ev c a c' :
  waiting c -> ask m ev c = (Ok a, c') -> grants (ev a) = false -> waiting c'.
Proof. intros [Ht Ha] [h ->]%ask_ok Hg. split; [by apply ungranted_snoc|done]. Qed.

(** An accepting callback after which the user is the one it was asked about. *)
Lemma ask_granted (m : st H E Auth) ev c a c' : waiting c -> ask m ev c = (Ok a, c') ->
  (forall h, m c.(a_handler) = (Ok a, h) -> given (ev a)) -> justified session_id c.(a_user) c.(a_trace) (ev a) ->
  authenticated session_id c'.(a_user) c'.(a_trace).
Proof.
  intros [Ht _] Ha Hg Hj. exists c.(a_trace), (ev a). unfold ask in Ha.
  destruct (m _) as [[?|?|] h]; [|done..]. injection Ha as <- <-. split_and!; [done..|by eapply Hg].
Qed.

(** Rejected: the user is forgotten, the methods are noted and the failure is sent. *)
Lemma rejected_inv until auth f c x c' : waiting c ->
  (st_mod (set_user []) ;;; mod_request (E := E) (note_rejection auth f) ;;; reject_auth_request until) c
    = (Ok x, c') -> auth_inv c'.
Proof.
  intros Hc Hr. inv_st Hr.
  eapply reject_inv; [|exact Hr]. eapply waiting_mod_request; [..|exact E1];
    [apply note_rejection_principal|by apply waiting_forget].
Qed.

Lemma rejected_inv' until auth f c x c' : waiting c ->
  (mod_request (E := E) (note_rejection auth f) ;;; st_mod (set_user []) ;;; reject_auth_request until) c
    = (Ok x, c') -> auth_inv c'.
Proof.
  intros Hc Hr. inv_st Hr. eapply reject_inv; [|exact Hr]. apply waiting_forget.
  eapply waiting_mod_request; [..|exact E0]; [apply note_rejection_principal|done].
Qed.

Lemma forgotten_inv until c x c' : waiting c ->
  (st_mod (set_user []) ;;; reject_auth_request until) c = (Ok x, c') -> auth_inv c'.
Proof.
  intros Hc Hr. inv_st Hr. eapply reject_inv; [|exact Hr]. by apply waiting_forget.
Qed.

Lemma answer_inv until k auth c x c' :
  (if is_accept auth then authenticated session_id c.(a_user) c.(a_trace) else waiting c) ->
  answer_or_remove until k auth c = (Ok x, c') -> auth_inv c'.
Proof.
  unfold answer_or_remove. destruct (is_accept auth); [apply accept_inv|apply rejected_inv].
Qed.

Lemma reply_info_ok until auth c b c' :
  (if is_accept auth then authenticated session_id c.(a_user) c.(a_trace)
   else waiting c /\ auth_inv c) ->
  reply_userauth_info_response until auth c = (Ok b, c') ->
  if b then authenticated session_id c'.(a_user) c'.(a_trace) else auth_inv c'.
Proof.
  destruct auth as [m p| | |name instr prompts]; cbn [is_accept reply_userauth_info_response];
    intros Hc Hr.
  - inv_st Hr. subst b. eapply reject_inv; [|exact E1]. by eapply waiting_mod_request; [|apply Hc|exact E0].
  - unfold server_auth_request_success in Hr. inv_st Hr. subst b.
    by apply stage_ok in E0 as [w ->].
  - done.
  - inv_st Hr. subst b. apply stage_ok in E0 as [w ->]. apply Hc.
Qed.

Lemma bind_or_reset_cases user service a :
  bind_or_reset_principal user service a = (false, a) /\ a.(principal) = Some (mkPrincipal user service) \/
  exists a', bind_or_reset_principal user service a = (true, a') /\ a'.(current) = None /\
    a'.(principal) = Some (mkPrincipal user service).
Proof.
  unfold bind_or_reset_principal. destruct (principal a) as [[u v]|]; [|right; by eexists].
  destruct (_ && _) eqn:Hb; [left|right; by eexists]. cbn in Hb.
  apply andb_true_iff in Hb as [->%beq_true ->%beq_true]. done.
Qed.

Lemma bind_inv user service c x c' : auth_inv c -> bind_principal (E := E) user service c = (Ok x, c') ->
  waiting c' /\ named user c' /\ (forall a, c'.(a_state) = WaitingAuthRequest a -> 
    probe_known c'.(a_user) c'.(a_trace) a).
Proof.
  intros Hc Hr. unfold bind_principal in Hr.
  apply st_bind_ok in Hr as (a & s1 & E0 & Hr). apply get_request_ok in E0 as [-> Ha].
  unfold auth_inv in Hc. rewrite Ha in Hc. destruct Hc as (Ht & Hu & Hp).
  destruct (bind_or_reset_cases user service a) as [(Hb & Hn)|(a' & Hb & Hn & Hn')]; rewrite Hb in Hr;
    injection Hr as <- <-; unfold waiting, named, user_known, probe_known; cbn.
  - split_and!; [eauto..|]. by intros ? [= <-].
  - split_and!; [eauto..|]. intros ? [= <-]. by rewrite Hn.
Qed.

Lemma read_password_inv until user r c x c' : waiting c -> named user c ->
  read_password until user r c = (Ok x, c') -> auth_inv c'.
Proof.
  intros Hc Hn Hr. unfold read_password in Hr. inv_st Hr.
  pose proof (waiting_set_user _ _ Hc Hn) as Hw.
  eapply answer_inv; [|exact Hr]. destruct (negb (_ =? 0)).
  - by apply st_ret_ok in E5 as [-> ->].
  - destruct (is_accept _) eqn:Ha; [|by eapply ask_waiting; [|exact E5|exact Ha]].
    eapply ask_granted; [|exact E5|given_answer|]; [done|]. by destruct a2.
Qed.

Lemma read_none_inv until user r c x c' : waiting c -> named user c ->
  read_none until user r c = (Ok x, c') -> auth_inv c'.
Proof.
  intros Hc (b & service & Hb & Hp) Hr. unfold read_none in Hr. inv_st Hr.
  eapply answer_inv; [|exact Hr].
  destruct (is_accept _) eqn:Ha; [|by eapply ask_waiting; [|exact E1|exact Ha]].
  eapply ask_granted; [|exact E1|given_answer|]; [done|]. destruct a0; try done. cbn.
  destruct Hc as (_ & b' & Hb' & [Hu|[service' Hu]]); [by right|]. left. congruence.
Qed.

Lemma read_keyboard_inv until user r c x c' : waiting c -> named user c ->
  read_keyboard_interactive until user r c = (Ok x, c') -> auth_inv c'.
Proof.
  intros Hc Hn Hr. unfold read_keyboard_interactive in Hr. inv_st Hr.
  pose proof (waiting_set_user _ _ Hc Hn) as Hw.
  eapply reply_info_ok in E6; [destruct a3; [by injection Hr as <- <-|by apply st_ret_ok in Hr as [_ ->]]|].
  assert (Hw' : waiting s1) by (eapply waiting_mod_request; [|exact Hw|exact E4]; done).
  destruct (is_accept a2) eqn:Ha.
  - eapply ask_granted; [|exact E5|given_answer|]; [done|]. apply mod_request_ok in E4 as (b & _ & ->).
    by destruct a2.
  - pose proof (ask_waiting _ _ _ _ _ Hw' E5 Ha) as Hw2. split; [done|].
    apply mod_request_ok in E4 as (b & _ & ->). apply ask_ok in E5 as [h ->].
    destruct Hw2 as (? & b' & Hb' & ?). injection Hb' as <-. by split_and!.
Qed.

Lemma probe_inv until user algo key pubkey r k c x c' : waiting c -> named user c ->
  PublicKeyOrCertificate_decode algo key = Ok k -> key_of k = pubkey ->
  probe_request until user algo key pubkey r c = (Ok x, c') -> auth_inv c'.
Proof.
  intros Hc Hn Hk Hp Hr. unfold probe_request in Hr. inv_st Hr.
  pose proof (waiting_set_user _ _ Hc Hn) as Hw.
  pose proof (ask_waiting _ _ _ _ _ Hw E2 eq_refl) as Hw2.
  destruct a1; try by eapply rejected_inv'. inv_st Hr. apply stage_ok in E3 as [w ->].
  apply ask_ok in E2 as [h ->]. apply mod_request_ok in Hr as (b & Hb & ->).
  destruct Hw2 as (Ht & b' & Hb' & Hu). cbn in Hb, Hb'. rewrite Hb in Hb'. injection Hb' as <-.
  split_and!; [exact Ht|exact Hu|]. exists k. split; [done|]. rewrite Hp. cbn. set_solver.
Qed.

(** The callback after a signature that verified. *)
Lemma signature_callback_ok until (k : PublicKeyOrCertificate) user now packet pubkey c x c' :
  waiting c -> c.(a_user) = user -> key_to_verify now k = Some pubkey ->
  CallOffered user pubkey Accept ∈ c.(a_trace) -> signed_by session_id user k packet ->
  (do auth <-
     match k with
     | IsPublicKey key _ => ask (auth_publickey user key) (CallPublicKey user key)
     | IsCertificate cert => ask (auth_openssh_certificate user cert) (CallCertificate user cert)
     end ;;
   if is_accept auth then accept_request
   else mod_request (note_rejection auth id) ;;; st_mod (set_user []) ;;; reject_auth_request until) c
    = (Ok x, c') -> auth_inv c'.
Proof.
  intros Hc Hu Hk Ho Hs Hr. apply st_bind_ok in Hr as (auth & s1 & Ea & Hr).
  destruct (is_accept auth) eqn:Ha.
  - eapply accept_inv; [|exact Hr]. destruct auth; try done.
    destruct k as [key h|cert]; (eapply ask_granted; [exact Hc|exact Ea|given_answer|]).
    + injection Hk as ->. split_and!; [done..|by eauto].
    + cbn in Hk. destruct (cert_in_time now cert) eqn:Ht; [|done].
      destruct (verify_signature cert) eqn:Hv; [|done]. injection Hk as <-.
      split_and!; [done|done|done|by eauto|by eauto].
  - eapply rejected_inv'; [|exact Hr]. destruct k; by eapply ask_waiting; [| |].
Qed.

Lemma key_to_verify_key now k pubkey : key_to_verify now k = Some pubkey -> key_of k = pubkey.
Proof. destruct k; cbn; [congruence|]. by repeat case_match; intros [= ->]. Qed.

(** The key was offered, now or in the probe that is remembered. *)
Lemma offered_ok user algo key k pubkey a c valid c' :
  waiting c -> named user c -> probe_known c.(a_user) c.(a_trace) a ->
  PublicKeyOrCertificate_decode algo key = Ok k -> key_of k = pubkey ->
  (fun c =>
     if accepted_probe_matches algo key a && beq user c.(a_user) then (Ok true, c)
     else (st_mod (set_user user) ;;;
           do auth <- ask (auth_publickey_offered user pubkey) (CallOffered user pubkey) ;;
           st_ret (is_accept auth)) c) c = (Ok valid, c') ->
  waiting c' /\ (valid = true -> c'.(a_user) = user /\ CallOffered user pubkey Accept ∈ c'.(a_trace)).
Proof.
  intros Hc Hn Hp Hd Hk Hr. cbv beta in Hr. destruct (_ && _) eqn:Hm.
  - injection Hr as <- <-. split; [done|]. intros _.
    apply andb_true_iff in Hm as [Hm ->%beq_true]. split; [done|].
    unfold accepted_probe_matches, probe_known in *. destruct (current a) as [[pk al [|]|]|]; try done.
    apply andb_true_iff in Hm as [->%beq_true ->%beq_true]. destruct Hp as (k' & Hk' & Ho). congruence.
  - inv_st Hr. pose proof (waiting_set_user _ _ Hc Hn) as Hw. split.
    + by eapply ask_waiting.
    + apply ask_ok in E1 as [h ->]. intros ->. destruct a1; try done. cbn. split; [done|set_solver].
Qed.

Lemma signed_inv until now packet user algo key k pubkey r c x c' :
  waiting c -> named user c ->
  (forall a, c.(a_state) = WaitingAuthRequest a -> probe_known c.(a_user) c.(a_trace) a) ->
  signed_request_of packet user algo key r ->
  PublicKeyOrCertificate_decode algo key = Ok k -> key_to_verify now k = Some pubkey ->
  signed_request session_id until packet user algo key k pubkey r c = (Ok x, c') -> auth_inv c'.
Proof.
  intros Hc Hn Hpk Hq Hd Hk Hr. unfold signed_request in Hr.
  inv_st Hr. apply get_request_ok in E0 as [-> Ha].
  pose proof (key_to_verify_key _ _ _ Hk) as Hkk.
  destruct (offered_ok _ _ _ _ _ _ _ _ _ Hc Hn (Hpk _ Ha) Hd Hkk E5) as [Hw Ho].
  destruct a2; [|by eapply forgotten_inv]. destruct (Ho eq_refl) as [Hu Hin].
  apply st_bind_ok in Hr as (buf & s2 & E6 & Hr). apply st_lift_ok in E6 as [Hbuf ->].
  destruct (verify pubkey buf s) eqn:Hv; [|by eapply forgotten_inv].
  eapply signature_callback_ok; [exact Hw|exact Hu|exact Hk|exact Hin| |exact Hr].
  unfold signed_data, enc_w, st_map_err in Hbuf.
  destruct (encode_bytes session_id []) as [[[]|?|] id] eqn:Hid; [|done..]. injection Hbuf as <-.
  apply dec_ok in E1. apply key_err_ok in E2. subst pubkey.
  exists algo, key, r, l, s, id. split_and!; eauto.
Qed.

Lemma pk_inv until now packet user r c x c' : waiting c -> named user c ->
  (forall a, c.(a_state) = WaitingAuthRequest a -> probe_known c.(a_user) c.(a_trace) a) ->
  (exists r0 r1 r2, packet = msg.USERAUTH_REQUEST :: r0 /\ decode_string r0 = Ok (user, r1) /\
    decode_string r1 = Ok (str "ssh-connection", r2) /\ decode_string r2 = Ok (str "publickey", r)) ->
  server_read_auth_request_pk session_id until now packet user r c = (Ok x, c') -> auth_inv c'.
Proof.
  intros Hc Hn Hpk (r0 & r1 & r2 & Hpkt & Hu & Hs & Hm) Hr. unfold server_read_auth_request_pk in Hr.
  inv_st Hr. apply get_request_ok in E0 as [-> Ha].
  apply dec_ok in E1, E2, E3.
  destruct (PublicKeyOrCertificate_decode l l0) as [k|[]|] eqn:Hd; try done; try by eapply reject_inv.
  destruct (key_to_verify now k) as [pubkey|] eqn:Hk; [|by eapply reject_inv].
  destruct (z =? 0) eqn:Hz; cbn [negb] in Hr.
  - eapply probe_inv; [exact Hc|exact Hn|exact Hd| |exact Hr]. by eapply key_to_verify_key.
  - eapply signed_inv; [exact Hc|exact Hn|exact Hpk| |exact Hd|exact Hk|exact Hr].
    apply Z.eqb_neq in Hz. exists r0, r1, r2, r, z, y, y0. by split_and!.
Qed.

Lemma server_read_auth_request_inv until iuntil now packet r c x c' :
  packet = msg.USERAUTH_REQUEST :: r -> auth_inv c ->
  server_read_auth_request session_id until iuntil now packet r c = (Ok x, c') -> auth_inv c'.
Proof.
  intros Hp Hc Hr. unfold server_read_auth_request in Hr. inv_st Hr. apply dec_ok in E0, E1, E2.
  destruct (beq l0 _) eqn:Hs; [|done]. apply beq_true in Hs. subst l0.
  inv_st Hr. destruct (bind_inv _ _ _ _ _ Hc E3) as (Hw & Hn & Hpk).
  destruct (beq l1 (str "password")); [by eapply read_password_inv|].
  destruct (beq l1 (str "publickey")) eqn:Hm.
  { apply beq_true in Hm. subst l1. eapply pk_inv; [exact Hw|exact Hn|exact Hpk| |exact Hr].
    by exists r, y, y0. }
  destruct (beq l1 (str "none")); [by eapply read_none_inv|].
  destruct (beq l1 (str "keyboard-interactive")); [by eapply read_keyboard_inv|].
  by eapply reject_inv.
Qed.

Lemma read_info_inv af until r c b c' : auth_inv c ->
  read_userauth_info_response af until c.(a_user) r c = (Ok b, c') ->
  if b then authenticated session_id c'.(a_user) c'.(a_trace) else auth_inv c'.
Proof.
  intros Hc Hr. unfold read_userauth_info_response in Hr.
  apply st_bind_ok in Hr as (a & s1 & E0 & Hr). apply get_request_ok in E0 as [-> Ha].
  pose proof (auth_inv_waiting _ _ Hc Ha) as Hw.
  destruct (current a) as [[|sub]|] eqn:Hcur;
    try (inv_st Hr; subst b; eapply reject_inv; [|done]; exact Hw).
  apply st_bind_ok in Hr as ([n r1] & s1 & E0 & Hr). apply st_lift_ok in E0 as [_ ->].
  destruct (read_responses af _ r1) as [responses r2]. inv_st Hr.
  eapply reply_info_ok; [|exact Hr].
  destruct (is_accept a1) eqn:Hg; [|split].
  - eapply ask_granted; [|exact E1|given_answer|]; [done|]. by destruct a1.
  - by eapply ask_waiting.
  - apply ask_ok in E1 as [h ->]. unfold auth_inv in Hc |- *. cbn. rewrite Ha in *.
    destruct Hc as (? & ? & _). split_and!; [by apply ungranted_snoc|done|].
    unfold probe_known. by rewrite Hcur.
Qed.
End Sound.

(** ** One answer per request *)
Section Answers.
Context {enc : SshEncoding} {UK : UserKeys} {H E : Type} {AH : AuthHandler H E}.
Implicit Types c : AuthCtx H.

(** [c] has answered a request that came when the staging buffer held [w] and
    [n] requests had been rejected. *)
Inductive answered (until : Z) (w : bytes) (n : Z) c : Prop :=
| answered_success :
    push_packet success_body w = (Ok tt, c.(a_write)) -> c.(a_state) = InitCompression ->
    answered until w n c
| answered_failure a :
    push_packet (failure_body a) w = (Ok tt, c.(a_write)) -> c.(a_state) = WaitingAuthRequest a ->
    a.(current) = None -> a.(rejection_count) = n + 1 ->
    last c.(a_trace) = Some (SleptUntil until) -> answered until w n c
| answered_pk_ok a algo key :
    push_packet (pk_ok_body algo key) w = (Ok tt, c.(a_write)) ->
    c.(a_state) = WaitingAuthRequest a -> a.(current) = Some (CurrentPublicKey key algo true) ->
    a.(rejection_count) = n -> answered until w n c
| answered_info a submethods name instructions prompts :
    push_packet (info_request_body name instructions prompts) w = (Ok tt, c.(a_write)) ->
    c.(a_state) = WaitingAuthRequest a ->
    a.(current) = Some (CurrentKeyboardInteractive submethods) ->
    a.(rejection_count) = n -> answered until w n c.

(** Not yet answered. *)
Definition unanswered (w : bytes) (n : Z) c : Prop :=
  c.(a_write) = w /\ exists a, c.(a_state) = WaitingAuthRequest a /\ a.(rejection_count) = n.

Lemma stage_pushes body c x c' : stage body c = (Ok x, c') ->
  exists w, push_packet body c.(a_write) = (Ok tt, w) /\ c' = set_auth_write w c.
Proof.
  unfold stage. destruct (push_packet _ _) as [[[]|?|] w] eqn:Hp; [|done..]. intros [= _ <-]. eauto.
Qed.

Lemma unanswered_mod_request w n f c x c' : (forall a, (f a).(rejection_count) = a.(rejection_count)) ->
  unanswered w n c -> mod_request (E := E) f c = (Ok x, c') -> unanswered w n c'.
Proof.
  intros Hf (Hw & a & Ha & Hn) (b & Hb & ->)%mod_request_ok. rewrite Ha in Hb. injection Hb as <-.
  split; [done|]. eexists. split; [done|]. by rewrite Hf.
Qed.

Lemma unanswered_ask w n (m : st H E Auth) ev c a c' :
  unanswered w n c -> ask m ev c = (Ok a, c') -> unanswered w n c'.
Proof. by intros Hc [h ->]%ask_ok. Qed.

Lemma note_rejection_count auth f a : (note_rejection auth f a).(rejection_count) = a.(rejection_count).
Proof. by destruct auth as [[]| | |]. Qed.

Lemma reject_answers until w n c x c' :
  unanswered w n c -> reject_auth_request until c = (Ok x, c') -> answered until w n c'.
Proof.
  intros (Hw & a & Ha & Hn) Hr. unfold reject_auth_request in Hr. inv_st Hr.
  apply get_request_ok in E0 as [-> Ha']. rewrite Ha in Ha'. injection Ha' as <-.
  apply stage_pushes in E1 as (w' & Hp & ->). apply mod_request_ok in E2 as (b & Hb & ->).
  cbn in Hb. rewrite Ha in Hb. injection Hb as <-. injection Hr as _ <-. subst w n.
  eapply answered_failure; [|reflexivity|done|done|]; [exact Hp|]. cbn. apply last_snoc.
Qed.

Lemma accept_answers until w n c x c' :
  unanswered w n c -> accept_request c = (Ok x, c') -> answered until w n c'.
Proof.
  intros (Hw & _) Hr. unfold accept_request, server_auth_request_success in Hr. inv_st Hr.
  apply stage_pushes in E0 as (w' & Hp & ->). injection Hr as <- <-. subst w. by apply answered_success.
Qed.

Lemma note_answers until w n auth f c x c' : unanswered w n c ->
  (mod_request (E := E) (note_rejection auth f) ;;; st_mod (set_user []) ;;; reject_auth_request until) c
    = (Ok x, c') -> answered until w n c'.
Proof.
  intros Hc Hr. inv_st Hr. eapply reject_answers; [|exact Hr].
  eapply (unanswered_mod_request w n _ c) in E0; [exact E0|apply note_rejection_count|done].
Qed.

Lemma answer_answers until w n k auth c x c' : unanswered w n c ->
  answer_or_remove until k auth c = (Ok x, c') -> answered until w n c'.
Proof.
  unfold answer_or_remove. destruct (is_accept auth); [apply accept_answers|].
  intros Hc Hr. inv_st Hr. eapply reject_answers; [|exact Hr].
  eapply unanswered_mod_request; [apply note_rejection_count| |exact E1]. exact Hc.
Qed.

(** The answer of a keyboard-interactive step; [true] leaves the state to the caller. *)
Lemma reply_answers until w n sub auth c b c' : unanswered w n c ->
  (forall a, c.(a_state) = WaitingAuthRequest a -> a.(current) = Some (CurrentKeyboardInteractive sub)) ->
  reply_userauth_info_response until auth c = (Ok b, c') ->
  answered until w n (if b then set_state InitCompression c' else c').
Proof.
  intros Hc Hk Hr. destruct auth as [m p| | |name instr prompts]; cbn in Hr; [| |done|].
  - inv_st Hr. subst b. eapply reject_answers; [|exact E1].
    by eapply unanswered_mod_request; [|exact Hc|exact E0].
  - unfold server_auth_request_success in Hr. inv_st Hr. subst b. destruct Hc as [<- _].
    apply stage_pushes in E0 as (w' & Hp & ->). by apply answered_success.
  - inv_st Hr. subst b. destruct Hc as (<- & a1 & Ha & Hn).
    apply stage_pushes in E0 as (w' & Hp & ->). by eapply answered_info; [exact Hp|exact Ha|apply Hk|].
Qed.

Lemma password_answers until w n user r c x c' : unanswered w n c ->
  read_password until user r c = (Ok x, c') -> answered until w n c'.
Proof.
  intros Hc Hr. unfold read_password in Hr. inv_st Hr. eapply answer_answers; [|exact Hr].
  destruct (negb _); [by apply st_ret_ok in E5 as [_ ->]|by eapply unanswered_ask; [|exact E5]].
Qed.

Lemma none_answers until w n user r c x c' : unanswered w n c ->
  read_none until user r c = (Ok x, c') -> answered until w n c'.
Proof.
  intros Hc Hr. unfold read_none in Hr. inv_st Hr. eapply answer_answers; [|exact Hr].
  by eapply unanswered_ask; [|exact E1].
Qed.

Lemma keyboard_answers until w n user r c x c' : unanswered w n c ->
  read_keyboard_interactive until user r c = (Ok x, c') -> answered until w n c'.
Proof.
  intros Hc Hr. unfold read_keyboard_interactive in Hr. inv_st Hr.
  eapply (reply_answers until w n l0) in E6.
  - destruct a3; [by injection Hr as <- <-|by apply st_ret_ok in Hr as [_ ->]].
  - eapply unanswered_ask; [|exact E5]. by eapply (unanswered_mod_request w n _ (set_user user c)); [|exact Hc|exact E4].
  - apply mod_request_ok in E4 as (b & _ & ->). apply ask_ok in E5 as [h ->].
    by intros ? [= <-].
Qed.

Lemma probe_answers until w n user algo key pubkey r c x c' : unanswered w n c ->
  probe_request until user algo key pubkey r c = (Ok x, c') -> answered until w n c'.
Proof.
  intros Hc Hr. unfold probe_request in Hr. inv_st Hr.
  pose proof (unanswered_ask w n _ _ (set_user user c) _ _ Hc E2) as Hc1.
  destruct a1; try by eapply note_answers. inv_st Hr. destruct Hc1 as (<- & b1 & Ha & Hn).
  apply stage_pushes in E3 as (w' & Hp & ->). apply mod_request_ok in Hr as (b & Hb & ->).
  cbn in Hb. rewrite Ha in Hb. injection Hb as <-. by eapply answered_pk_ok.
Qed.

Lemma signed_answers sid until w n packet user algo key k pubkey r c x c' : unanswered w n c ->
  signed_request sid until packet user algo key k pubkey r c = (Ok x, c') -> answered until w n c'.
Proof.
  intros Hc Hr. unfold signed_request in Hr. inv_st Hr. apply get_request_ok in E0 as [-> _].
  assert (Hs : unanswered w n s0).
  { destruct (_ && _); [by injection E5 as _ <-|]. inv_st E5. by eapply unanswered_ask; [|eassumption]. }
  destruct a2; [|inv_st Hr; by eapply reject_answers; [|exact Hr]].
  apply st_bind_ok in Hr as (buf & s2 & E6 & Hr). apply st_lift_ok in E6 as [_ ->].
  destruct (verify pubkey buf s); [|inv_st Hr; by eapply reject_answers; [|exact Hr]].
  apply st_bind_ok in Hr as (auth & s2 & E7 & Hr).
  assert (Hs2 : unanswered w n s2) by (destruct k; by eapply unanswered_ask; [|exact E7]).
  destruct (is_accept auth); [by eapply accept_answers|by eapply note_answers].
Qed.

Lemma pk_answers sid until w n now packet user r c x c' : unanswered w n c ->
  server_read_auth_request_pk sid until now packet user r c = (Ok x, c') -> answered until w n c'.
Proof.
  intros Hc Hr. unfold server_read_auth_request_pk in Hr. inv_st Hr. apply get_request_ok in E0 as [-> _].
  destruct (PublicKeyOrCertificate_decode _ _) as [k|[]|]; try done; try by eapply reject_answers.
  destruct (key_to_verify now k); [|by eapply reject_answers].
  destruct (negb _); [by eapply signed_answers|by eapply probe_answers].
Qed.

(** Every authentication request that the server handles gets exactly one
    answer: success, which ends the authentication; failure, with the methods
    that can continue, after which nothing is remembered of the request and the
    server has waited until the rejection time; PK_OK for a probe, which is
    remembered; or a challenge.  The waiting time is the initial one for the
    method [none] only. *)
Theorem request_answered_once sid until initial_until now packet r c x c' a :
  c.(a_state) = WaitingAuthRequest a ->
  server_read_auth_request sid until initial_until now packet r c = (Ok x, c') ->
  answered until c.(a_write) a.(rejection_count) c' \/
  (exists user service r1 r2 r3, decode_string r = Ok (user, r1) /\ decode_string r1 = Ok (service, r2) /\
     decode_string r2 = Ok (str "none", r3) /\
     answered initial_until c.(a_write) a.(rejection_count) c').
Proof.
  intros Ha Hr. unfold server_read_auth_request in Hr. inv_st Hr. apply dec_ok in E0, E1, E2.
  destruct (beq l0 _); [|done].
  apply st_bind_ok in Hr as (u & s1 & E3 & Hr). unfold bind_principal in E3.
  apply st_bind_ok in E3 as (b & s2 & E4 & E3). apply get_request_ok in E4 as [-> Hb].
  assert (Hc : unanswered c.(a_write) a.(rejection_count) s1).
  { rewrite Ha in Hb. injection Hb as <-. revert E3. unfold bind_or_reset_principal.
    repeat case_match; intros [= _ <-]; simplify_eq; cbn; (split; [done|]; by eexists). }
  destruct (beq l1 (str "password")); [left; by eapply password_answers|].
  destruct (beq l1 (str "publickey")); [left; by eapply pk_answers|].
  destruct (beq l1 (str "none")) eqn:Hm.
  { right. apply beq_true in Hm. subst l1. exists l, l0, y, y0, y1. split_and!; [done..|].
    by eapply none_answers. }
  destruct (beq l1 (str "keyboard-interactive")); [left; by eapply keyboard_answers|].
  left. by eapply reject_answers.
Qed.
End Answers.
