(* ===== verification/ClientAuth.v ===== *)
(** * Authentication on the client ([russh/src/client/encrypted.rs],
    [russh/src/client/mod.rs])

    What the client stages to authenticate ([write_auth_request],
    [client_make_to_sign], [client_send_signature],
    [client_send_auth_response]), and what it does with the packets of the
    server until it is authenticated (the part of [process_packet] before
    [client_read_authenticated]).

    The session and the [Handle] of the application exchange messages: [Reply]
    to the application, [Msg] to the session.  What [self.receiver] will yield
    is the list [c_queue]; at its end the senders are gone.

    The second half shows that both sides understand each other: with the server
    of [ServerAuth], each request of the client makes the server ask the question
    the client meant. *)

From stdpp Require Import base list numbers option gmap strings.
From Stdlib Require Import ZArith Lia.
From S2P Require Import Prelude Encoding Parsing LibInner Msg NameList Compression Session Auth ServerAuth.

(** A prompt and whether the answer is echoed. *)
Abbreviation Prompt := (bytes * bool)%type.

Section ClientAuth.
Context {enc : SshEncoding} {UK : UserKeys} {F : Flate2}.

Inductive Reply : Type :=
| AuthSuccess
| AuthFailure (proceed_with_methods : MethodSet) (partial_success : bool)
| ReplyChannelOpenFailure
| SignRequest (key : PublicKey) (data : bytes)
| SignRequestCert (cert : Certificate) (h : option HashAlg) (data : bytes)
| AuthInfoRequest (name instructions : bytes) (prompts : list Prompt).

(** [Msg]: those of authentication; [MsgOther] is any other. *)
Inductive Msg : Type :=
| Authenticate (user : bytes) (method : Method)
| AuthInfoResponse (responses : list bytes)
| Signed (data : bytes)
| MsgOther.

(** ** State: the parts of [Encrypted], [CommonSession] and [Session] that
    authentication touches *)
Record ClientCtx (W H : Type) : Type := mkClientCtx {
  c_state : EncryptedState;          (* enc.state *)
  c_write : bytes;                   (* enc.write *)
  c_user : bytes;                    (* common.auth_user *)
  c_method : option Method;          (* common.auth_method *)
  c_buffer : bytes;                  (* common.buffer *)
  c_writer : W;                      (* common.packet_writer *)
  c_decompress : Decompress;         (* enc.decompress *)
  c_sig_algs : option (list Algorithm);      (* server_sig_algs *)
  c_extensions : list bytes;                 (* enc.received_extensions *)
  c_awaiters : gmap bytes (list Z);          (* enc.extension_info_awaiters *)
  c_woken : list Z;                          (* the awaiters that were sent () *)
  c_replies : list Reply;            (* sent by self.sender *)
  c_listening : bool;                (* whether its receiver still exists *)
  c_queue : list Msg;                (* what self.receiver will yield *)
  c_handler : H;
}.
#[global] Arguments mkClientCtx {W H} _ _ _ _ _ _ _ _ _ _ _ _ _ _ _.
#[global] Arguments c_state {W H} _.
#[global] Arguments c_write {W H} _.
#[global] Arguments c_user {W H} _.
#[global] Arguments c_method {W H} _.
#[global] Arguments c_buffer {W H} _.
#[global] Arguments c_writer {W H} _.
#[global] Arguments c_decompress {W H} _.
#[global] Arguments c_sig_algs {W H} _.
#[global] Arguments c_extensions {W H} _.
#[global] Arguments c_awaiters {W H} _.
#[global] Arguments c_woken {W H} _.
#[global] Arguments c_replies {W H} _.
#[global] Arguments c_listening {W H} _.
#[global] Arguments c_queue {W H} _.
#[global] Arguments c_handler {W H} _.

Section Fields.
Context {W H : Type}.
Implicit Types c : ClientCtx W H.

(** The authentication of the client. *)
Definition set_c_auth (st : EncryptedState) (user : bytes) (m : option Method) c : ClientCtx W H :=
  mkClientCtx st c.(c_write) user m c.(c_buffer) c.(c_writer) c.(c_decompress) c.(c_sig_algs)
    c.(c_extensions) c.(c_awaiters) c.(c_woken) c.(c_replies) c.(c_listening) c.(c_queue) c.(c_handler).
Definition set_c_state (st : EncryptedState) c : ClientCtx W H := set_c_auth st c.(c_user) c.(c_method) c.
Definition set_c_method (m : option Method) c : ClientCtx W H := set_c_auth c.(c_state) c.(c_user) m c.
Definition set_c_write (w b : bytes) c : ClientCtx W H :=
  mkClientCtx c.(c_state) w c.(c_user) c.(c_method) b c.(c_writer) c.(c_decompress) c.(c_sig_algs)
    c.(c_extensions) c.(c_awaiters) c.(c_woken) c.(c_replies) c.(c_listening) c.(c_queue) c.(c_handler).
Definition set_c_buffer (b : bytes) c : ClientCtx W H := set_c_write c.(c_write) b c.
Definition set_c_streams (w : W) (d : Decompress) c : ClientCtx W H :=
  mkClientCtx c.(c_state) c.(c_write) c.(c_user) c.(c_method) c.(c_buffer) w d c.(c_sig_algs)
    c.(c_extensions) c.(c_awaiters) c.(c_woken) c.(c_replies) c.(c_listening) c.(c_queue) c.(c_handler).
Definition set_c_extensions (algs : option (list Algorithm)) (ext : list bytes) (aw : gmap bytes (list Z))
    (woken : list Z) c : ClientCtx W H :=
  mkClientCtx c.(c_state) c.(c_write) c.(c_user) c.(c_method) c.(c_buffer) c.(c_writer) c.(c_decompress)
    algs ext aw woken c.(c_replies) c.(c_listening) c.(c_queue) c.(c_handler).
Definition set_c_messages (l : list Reply) (q : list Msg) c : ClientCtx W H :=
  mkClientCtx c.(c_state) c.(c_write) c.(c_user) c.(c_method) c.(c_buffer) c.(c_writer) c.(c_decompress)
    c.(c_sig_algs) c.(c_extensions) c.(c_awaiters) c.(c_woken) l c.(c_listening) q c.(c_handler).
End Fields.

(** The application's callback, and errors of the crate. *)
Class ClientAuthHandler (W H E : Type) : Type := {
  auth_banner : bytes -> st (ClientCtx W H) E unit;
  client_error : Error.error -> E;
}.

Section Operations.
Context (session_id : bytes) (server_compression : Compression).
Context {W H : Type} {HW : PacketSink W}.
Implicit Types c : ClientCtx W H.
Abbreviation M A := (st (ClientCtx W H) Error.error A).

Definition stage_c (body : writer Error.error) : M unit := fun c =>
  let '(r, w) := push_packet body c.(c_write) in (r, set_c_write w c.(c_buffer) c).

Definition key_w {E A} (m : res KeyError A) : st E Error.error A := st_lift (map_err from_key_error m).

(** ** Requests *)

Definition request_start (user method : bytes) : writer Error.error :=
  enc_w (encode_bytes user) ;;; enc_w (encode_bytes (str "ssh-connection")) ;;;
  enc_w (encode_bytes method).

(** A probe for a key or a certificate. *)
Definition probe_body (user algo : bytes) (key : res KeyError bytes) : writer Error.error :=
  request_start user (str "publickey") ;;; push_byte 0 ;;;
  enc_w (encode_bytes algo) ;;;
  do b <- key_w key ;; enc_w (encode_bytes b).

Definition auth_request_body (user : bytes) (auth_method : Method) : writer Error.error :=
  push_byte msg.USERAUTH_REQUEST ;;;
  match auth_method with
  | MethodNone => request_start user (str "none")
  | MethodPassword password =>
      request_start user (str "password") ;;;
      enc_w (encode_u8 0) ;;; enc_w (encode_bytes password)
  | MethodPublicKey key =>
      probe_body user (alg_as_str (PrivateKeyWithHashAlg_algorithm key))
        (PublicKey_to_bytes (public_key key.(pk_key)))
  | MethodOpenSshCertificate _ cert | MethodFutureCertificate cert _ =>
      probe_body user (to_certificate_type (cert_algorithm cert)) (Certificate_to_bytes cert)
  | MethodFuturePublicKey key h =>
      probe_body user (alg_as_str (with_hash_alg h (public_algorithm key))) (PublicKey_to_bytes key)
  | MethodKeyboardInteractive submethods =>
      request_start user (str "keyboard-interactive") ;;;
      enc_w (encode_bytes []) ;;; enc_w (encode_bytes submethods)
  end.

Definition write_auth_request (user : bytes) (auth_method : Method) : M bool :=
  stage_c (auth_request_body user auth_method) ;;; st_ret true.

(** [common.encrypted] is there; without it only the user and the method are
    noted. *)
Definition write_auth_request_if_needed (user : bytes) (meth : Method) : M bool :=
  do is_waiting <-
    (fun c =>
       match c.(c_state) with
       | WaitingAuthRequest _ => (Ok true, c)
       | WaitingAuthServiceRequest sent accepted =>
           if negb sent then
             let '(r, w) :=
               sink_write_packet (enc_w (encode_u8 msg.SERVICE_REQUEST) ;;;
                                  enc_w (encode_bytes (str "ssh-userauth"))) c.(c_writer) in
             let c := set_c_streams w c.(c_decompress) c in
             match r with
             | Ok tt => (Ok accepted, set_c_state (WaitingAuthServiceRequest true accepted) c)
             | Err e => (Err e, c)
             | Panic => (Panic, c)
             end
           else (Ok accepted, c)
       | InitCompression | Authenticated => (Ok false, c)
       end) ;;
  (if is_waiting : bool then
     do _ <- write_auth_request user meth ;;
     st_mod (set_c_state (WaitingAuthRequest (AuthRequest_new meth)))
   else st_ret tt) ;;;
  st_mod (fun c => set_c_auth c.(c_state) user (Some meth) c) ;;;
  st_ret is_waiting.

(** ** Signatures *)

(** What is signed, after the session id. *)
Definition to_sign_body (user : bytes) (key : PublicKeyOrCertificate) : writer Error.error :=
  push_byte msg.USERAUTH_REQUEST ;;;
  request_start user (str "publickey") ;;;
  enc_w (encode_u8 1) ;;;
  match key with
  | IsCertificate cert =>
      enc_w (encode_bytes (to_certificate_type (cert_algorithm cert))) ;;;
      do b <- key_w (Certificate_to_bytes cert) ;; enc_w (encode_bytes b)
  | IsPublicKey key h =>
      enc_w (encode_bytes (alg_as_str (with_hash_alg h (public_algorithm key)))) ;;;
      do b <- key_w (PublicKey_to_bytes key) ;; enc_w (encode_bytes b)
  end.

(** The buffer, and where the packet starts in it. *)
Definition client_make_to_sign (user : bytes) (key : PublicKeyOrCertificate) : st bytes Error.error Z :=
  st_mod (fun _ => []) ;;;
  enc_w (encode_bytes session_id) ;;;
  do b <- st_get ;;
  to_sign_body user key ;;;
  st_ret (zlen b).

(** Code on [self.common.buffer]. *)
Definition on_buffer {A} (m : st bytes Error.error A) : M A := fun c =>
  let '(r, b) := m c.(c_buffer) in (r, set_c_buffer b c).

(** [enc.write.extend_from_slice(&buffer[i0..])] as a packet. *)
Definition stage_from (i0 : Z) : M unit := fun c =>
  stage_c (if zlen c.(c_buffer) <? i0 then st_panic else push_bytes (zdrop i0 c.(c_buffer))) c.

Definition client_send_signature (user : bytes) (method : Method) : M unit :=
  match method with
  | MethodPublicKey key =>
      do i0 <- on_buffer (client_make_to_sign user (of_private_key key)) ;;
      on_buffer (do b <- st_get ;; do s <- key_w (sign_with_hash_alg key b) ;; enc_w (encode_bytes s)) ;;;
      stage_from i0
  | MethodOpenSshCertificate key cert =>
      do i0 <- on_buffer (client_make_to_sign user (IsCertificate cert)) ;;
      on_buffer (do b <- st_get ;; do s <- key_w (try_sign key b) ;; enc_w (encode_bytes s)) ;;;
      stage_from i0
  | _ => st_ret tt
  end.

(** ** The application *)

Definition send_reply (r : Reply) : M unit := fun c =>
  if c.(c_listening) then (Ok tt, set_c_messages (c.(c_replies) ++ [r]) c.(c_queue) c)
  else (Err Error.SendError, c).

(** [loop { match receiver.recv().await { .. } }]: other messages are dropped. *)
Fixpoint wait_for {X A} (f : X -> option A) (q : list X) : option A * list X :=
  match q with
  | [] => (None, [])
  | m :: q => match f m with Some a => (Some a, q) | None => wait_for f q end
  end.
Definition wait_msg {A} (f : Msg -> option A) : M A := fun c =>
  let '(a, q) := wait_for f c.(c_queue) in
  (ok_or a Error.RecvError, set_c_messages c.(c_replies) q c).

Definition as_signed (m : Msg) : option bytes := match m with Signed data => Some data | _ => None end.
Definition as_responses (m : Msg) : option (list bytes) :=
  match m with AuthInfoResponse l => Some l | _ => None end.

(** The signature is made by the application: it gets what is to be signed and
    answers with what is to be sent; an answer of the same length is taken for
    a refusal. *)
Definition delegate_signature (key : PublicKeyOrCertificate) (request : bytes -> Reply) : M unit :=
  do user <- (fun c => (Ok c.(c_user), c)) ;;
  do i <- on_buffer (client_make_to_sign user key) ;;
  do buf <- on_buffer (fun b => (Ok b, [])) ;;
  send_reply (request buf) ;;;
  do data <- wait_msg as_signed ;;
  st_mod (set_c_buffer data) ;;;
  if negb (zlen data =? zlen buf) then stage_from i else st_ret tt.

Definition client_send_auth_response (responses : list bytes) : M unit :=
  stage_c (
    enc_w (encode_u8 msg.USERAUTH_INFO_RESPONSE) ;;;
    enc_w (encode_u32 (if zlen responses <=? 2147483647 then zlen responses else 0)) ;;;
    foldr (fun r k => enc_w (encode_bytes r) ;;; k) (st_ret tt) responses).
End Operations.

(** ** Packets of the server *)
Section Packets.
Context (session_id : bytes) (server_compression : Compression).
Context {W H E : Type} {HW : PacketSink W} {CH : ClientAuthHandler W H E}.
Implicit Types c : ClientCtx W H.
Abbreviation M A := (st (ClientCtx W H) E A).

Definition cup {A} (m : st (ClientCtx W H) Error.error A) : M A := st_map_err client_error m.
Definition cdec {A} (m : Result A) : M A := st_lift (map_err client_error m).

(** *** [EXT_INFO] *)
Definition handle_server_sig_algs_ext (r : bytes) : M bytes :=
  do (algs, r) <- cdec (enc_err (NameList.decode r)) ;;
  st_mod (fun c =>
    set_c_extensions
      (Some (omap (fun x => match Algorithm_new x with Ok a => Some a | _ => None end) algs))
      c.(c_extensions) c.(c_awaiters) c.(c_woken) c) ;;;
  st_ret r.

(** The extension was seen: those who wait for it are woken. *)
Definition note_extension (name : bytes) c : ClientCtx W H :=
  set_c_extensions c.(c_sig_algs) (c.(c_extensions) ++ [name]) (delete name c.(c_awaiters))
    (c.(c_woken) ++ default [] (c.(c_awaiters) !! name)) c.

Fixpoint ext_loop (n : nat) (r : bytes) : M bytes :=
  match n with
  | O => st_ret r
  | S n =>
      do (name, r) <- cdec (enc_err (decode_string r)) ;;
      do r <- (if beq name (str "server-sig-algs") then handle_server_sig_algs_ext r
               else do (_, r) <- cdec (enc_err (decode_bytes r)) ;; st_ret r) ;;
      st_mod (note_extension name) ;;;
      ext_loop n r
  end.

Definition handle_ext_info (r : bytes) : M unit :=
  do (n_extensions, r) <- cdec (enc_err (decode_u32 r)) ;;
  do r <- ext_loop (Z.to_nat n_extensions) r ;;
  cdec (ensure_end r).

(** *** [SERVICE_ACCEPT] *)
Definition recv_service_accept (r : bytes) : M unit :=
  do (name, r) <- cdec (enc_err (decode_bytes r)) ;;
  if beq name (str "ssh-userauth") then
    cdec (ensure_end r) ;;;
    st_mod (fun c =>
      match c.(c_state) with
      | WaitingAuthServiceRequest sent _ => set_c_state (WaitingAuthServiceRequest sent true) c
      | _ => c
      end) ;;;
    fun c =>
      match c.(c_method) with
      | Some meth =>
          (do _ <- cup (write_auth_request c.(c_user) meth) ;;
           st_mod (set_c_state (WaitingAuthRequest (AuthRequest_new meth)))) c
      | None => (Ok tt, c)
      end
  else st_ret tt.

(** *** Answers to the request *)
Definition recv_success (r : bytes) : M unit :=
  cdec (ensure_end r) ;;;
  cup (send_reply AuthSuccess) ;;;
  st_mod (fun c =>
    set_c_streams c.(c_writer)
      (if is_deferred server_compression then init_decompress server_compression c.(c_decompress)
       else c.(c_decompress))
      (set_c_state InitCompression c)).

Definition recv_banner (r : bytes) : M unit :=
  do (banner, r) <- cdec (enc_err (decode_string r)) ;;
  do (_, r) <- cdec (enc_err (decode_string r)) ;;
  cdec (ensure_end r) ;;;
  auth_banner banner.

Definition set_request_methods (m : MethodSet) c : ClientCtx W H :=
  match c.(c_state) with
  | WaitingAuthRequest a => set_c_state (WaitingAuthRequest (set_methods m a.(partial_success) a)) c
  | _ => c
  end.

Definition recv_failure (r : bytes) : M unit :=
  do (names, r) <- cdec (enc_err (NameList.decode r)) ;;
  let remaining_methods := MethodSet.from_name_list names in
  do (partial_success, r) <- cdec (enc_err (decode_u8 r)) ;;
  cdec (ensure_end r) ;;;
  st_mod (set_request_methods remaining_methods) ;;;
  st_mod (set_c_method None) ;;;
  cup (send_reply (AuthFailure remaining_methods (negb (partial_success =? 0)))) ;;;
  if bool_decide (remaining_methods = []) then st_err (client_error Error.NoAuthMethod) else st_ret tt.

Fixpoint read_prompts (n : nat) (r : bytes) : Result (list Prompt * bytes) :=
  match n with
  | O => Ok ([], r)
  | S n =>
      let? (prompt, r) := enc_err (decode_string r) in
      let? (echo, r) := enc_err (decode_u8 r) in
      let? (l, r) := read_prompts n r in
      Ok ((prompt, negb (echo =? 0)) :: l, r)
  end.

(** A challenge of [keyboard-interactive]. *)
Definition recv_info_request (r : bytes) : M unit :=
  do (name, r) <- cdec (enc_err (decode_string r)) ;;
  do (instructions, r) <- cdec (enc_err (decode_string r)) ;;
  do (_, r) <- cdec (enc_err (decode_string r)) ;;
  do (n_prompts, r) <- cdec (enc_err (decode_u32 r)) ;;
  if zlen r / 5 <? n_prompts then st_err (client_error Error.Inconsistent)
  else
    do (prompts, r) <- cdec (read_prompts (Z.to_nat n_prompts) r) ;;
    cdec (ensure_end r) ;;;
    cup (send_reply (AuthInfoRequest name instructions prompts)) ;;;
    do responses <- cup (wait_msg as_responses) ;;
    cup (client_send_auth_response responses).

(** The server would accept the key: [auth_method.take()], and the signature. *)
Definition continue_with_signature : M unit := fun c =>
  let meth := c.(c_method) in
  (match meth with
   | Some ((MethodPublicKey _ | MethodOpenSshCertificate _ _) as auth_method) =>
       st_mod (set_c_buffer []) ;;;
       do user <- (fun c => (Ok c.(c_user), c)) ;;
       cup (client_send_signature session_id user auth_method)
   | Some (MethodFuturePublicKey key h) =>
       st_mod (set_c_buffer []) ;;;
       cup (delegate_signature session_id (IsPublicKey key h) (SignRequest key))
   | Some (MethodFutureCertificate cert h) =>
       st_mod (set_c_buffer []) ;;;
       cup (delegate_signature session_id (IsCertificate cert) (SignRequestCert cert h))
   | _ => st_ret tt
   end) (set_c_method None c).

Definition recv_info_request_or_pk_ok (a : AuthRequest) (r : bytes) : M unit :=
  match a.(current) with
  | Some (CurrentPublicKey key algo _) =>
      do (_, r) <- cdec (enc_err (decode_string r)) ;;
      do (_, r) <- cdec (enc_err (decode_bytes r)) ;;
      cdec (ensure_end r) ;;;
      st_mod (set_c_state (WaitingAuthRequest (set_current (Some (CurrentPublicKey key algo true)) a))) ;;;
      continue_with_signature
  | Some (CurrentKeyboardInteractive _) => recv_info_request r
  | None => continue_with_signature
  end.

(** [process_packet] when [common.encrypted] is there: whether the packet is for
    [client_read_authenticated]. *)
Definition read_unauthenticated (buf : bytes) : M bool := fun c =>
  match c.(c_state), buf with
  | WaitingAuthServiceRequest _ _, m :: r =>
      (if m =? msg.SERVICE_ACCEPT then recv_service_accept r
       else if m =? msg.EXT_INFO then handle_ext_info r
       else st_err (client_error Error.Inconsistent)) ;;; st_ret false
  | WaitingAuthRequest a, m :: r =>
      (if m =? msg.USERAUTH_SUCCESS then recv_success r
       else if m =? msg.USERAUTH_BANNER then recv_banner r
       else if m =? msg.USERAUTH_FAILURE then recv_failure r
       else if m =? msg.USERAUTH_INFO_REQUEST_OR_USERAUTH_PK_OK then recv_info_request_or_pk_ok a r
       else if m =? msg.EXT_INFO then handle_ext_info r
       else st_err (client_error Error.Inconsistent)) ;;; st_ret false
  | (WaitingAuthServiceRequest _ _ | WaitingAuthRequest _), [] => st_err (client_error Error.Inconsistent)
  | InitCompression, _ => st_panic
  | Authenticated, _ => st_ret true
  end c.
End Packets.

(** ** The application's handle ([client/mod.rs]) *)

Inductive AuthResult : Type :=
| AuthResultSuccess
| AuthResultFailure (remaining_methods : MethodSet) (partial_success : bool).

Inductive KeyboardInteractiveAuthResponse : Type :=
| KiSuccess
| KiFailure (remaining_methods : MethodSet) (partial_success : bool)
| KiInfoRequest (name instructions : bytes) (prompts : list Prompt).

(** [h_open]: the session still receives; [h_replies] is what [receiver] will
    yield before the session is gone. *)
Record Handle : Type := mkHandle {
  h_open : bool;
  h_sent : list Msg;
  h_replies : list Reply;
}.

Definition handle_send (m : Msg) : st Handle Error.error unit := fun h =>
  if h.(h_open) then (Ok tt, mkHandle true (h.(h_sent) ++ [m]) h.(h_replies))
  else (Err Error.SendError, h).

Definition as_result (r : Reply) : option AuthResult :=
  match r with
  | AuthSuccess => Some AuthResultSuccess
  | AuthFailure m p => Some (AuthResultFailure m p)
  | _ => None
  end.
Definition as_ki_response (r : Reply) : option KeyboardInteractiveAuthResponse :=
  match r with
  | AuthSuccess => Some KiSuccess
  | AuthFailure m p => Some (KiFailure m p)
  | AuthInfoRequest name instructions prompts => Some (KiInfoRequest name instructions prompts)
  | _ => None
  end.

Definition wait_recv_reply : st Handle Error.error AuthResult := fun h =>
  let '(a, q) := wait_for as_result h.(h_replies) in
  (Ok (default (AuthResultFailure MethodSet.empty false) a), mkHandle h.(h_open) h.(h_sent) q).
Definition wait_recv_keyboard_interactive_reply : st Handle Error.error KeyboardInteractiveAuthResponse :=
  fun h =>
    let '(a, q) := wait_for as_ki_response h.(h_replies) in
    (ok_or a Error.RecvError, mkHandle h.(h_open) h.(h_sent) q).

Definition authenticate (user : bytes) (m : Method) : st Handle Error.error AuthResult :=
  handle_send (Authenticate user m) ;;; wait_recv_reply.

Definition authenticate_none (user : bytes) := authenticate user MethodNone.
Definition authenticate_password (user password : bytes) := authenticate user (MethodPassword password).
Definition authenticate_publickey (user : bytes) (key : PrivateKeyWithHashAlg) :=
  authenticate user (MethodPublicKey key).
Definition authenticate_openssh_cert (user : bytes) (key : PrivateKey) (cert : Certificate) :=
  authenticate user (MethodOpenSshCertificate key cert).

Definition authenticate_keyboard_interactive_start (user : bytes) (submethods : option bytes)
  : st Handle Error.error KeyboardInteractiveAuthResponse :=
  handle_send (Authenticate user (MethodKeyboardInteractive (default [] submethods))) ;;;
  wait_recv_keyboard_interactive_reply.
Definition authenticate_keyboard_interactive_respond (responses : list bytes)
  : st Handle Error.error KeyboardInteractiveAuthResponse :=
  handle_send (AuthInfoResponse responses) ;;; wait_recv_keyboard_interactive_reply.

(** [best_supported_rsa_hash] once the session has answered [GetServerSigAlgs]. *)
Definition best_supported_rsa_hash (ssa : option (list Algorithm)) (contains : list Algorithm -> Algorithm -> bool)
  : option (option HashAlg) :=
  match ssa with
  | Some ssa => find (fun alg => contains ssa (Rsa alg)) [Some Sha512; Some Sha256; None]
  | None => None
  end.

(** *** Signers ([auth.rs]) *)
Class Signer (S SE : Type) : Type := {
  auth_sign : PublicKeyOrCertificate -> option HashAlg -> bytes -> st S SE bytes;
  signer_error : Error.error -> SE;
}.

(** The loop of [authenticate_publickey_with] and [authenticate_certificate_with]:
    a request to sign is passed to the signer and its answer to the session. *)
Fixpoint sign_loop {S SE} {SG : Signer S SE}
    (pick : Reply -> option (PublicKeyOrCertificate * option HashAlg * bytes)) (q : list Reply)
  : st (S * Handle) SE AuthResult := fun '(sg, h) =>
  match q with
  | [] => (Ok (AuthResultFailure MethodSet.empty false), (sg, mkHandle h.(h_open) h.(h_sent) []))
  | r :: q =>
      let h := mkHandle h.(h_open) h.(h_sent) q in
      match as_result r with
      | Some a => (Ok a, (sg, h))
      | None =>
          match pick r with
          | Some (key, hash_alg, data) =>
              match auth_sign key hash_alg data sg with
              | (Ok data, sg) =>
                  match handle_send (Signed data) h with
                  | (Ok _, h) => sign_loop pick q (sg, h)
                  | (Err e, h) => (Err (signer_error e), (sg, h))
                  | (Panic, h) => (Panic, (sg, h))
                  end
              | (Err e, sg) => (Err e, (sg, h))
              | (Panic, sg) => (Panic, (sg, h))
              end
          | None => sign_loop pick q (sg, h)
          end
      end
  end.

Definition authenticate_with {S SE} {SG : Signer S SE} (user : bytes) (m : Method)
    (pick : Reply -> option (PublicKeyOrCertificate * option HashAlg * bytes))
  : st (S * Handle) SE AuthResult := fun '(sg, h) =>
  match handle_send (Authenticate user m) h with
  | (Ok _, h) => sign_loop pick h.(h_replies) (sg, h)
  | (Err e, h) => (Err (signer_error e), (sg, h))
  | (Panic, h) => (Panic, (sg, h))
  end.

Definition authenticate_publickey_with {S SE} {SG : Signer S SE} (user : bytes) (key : PublicKey)
    (hash_alg : option HashAlg) : st (S * Handle) SE AuthResult :=
  authenticate_with user (MethodFuturePublicKey key hash_alg)
    (fun r => match r with SignRequest key data => Some (IsPublicKey key None, hash_alg, data) | _ => None end).
Definition authenticate_certificate_with {S SE} {SG : Signer S SE} (user : bytes) (cert : Certificate)
    (hash_alg : option HashAlg) : st (S * Handle) SE AuthResult :=
  authenticate_with user (MethodFutureCertificate cert hash_alg)
    (fun r => match r with SignRequestCert cert h data => Some (IsCertificate cert, h, data) | _ => None end).

(** ** Lemmas *)

Lemma wait_for_first {X A} (f : X -> option A) q x a q' : Forall (fun y => f y = None) q -> f x = Some a ->
  wait_for f (q ++ x :: q') = (Some a, q').
Proof. intros Hq Hx. induction Hq as [|y q Hy _ IH]; cbn; [by rewrite Hx|by rewrite Hy]. Qed.

Lemma wait_for_none {X A} (f : X -> option A) q : Forall (fun y => f y = None) q -> wait_for f q = (None, []).
Proof. induction 1 as [|y q Hy _ IH]; cbn; [done|by rewrite Hy]. Qed.

(** The application gets the verdict of the session, and a failure without
    methods when the session ends first. *)
Lemma authenticate_verdict user m h pre r v q : h.(h_open) = true ->
  h.(h_replies) = pre ++ r :: q -> Forall (fun r => as_result r = None) pre -> as_result r = Some v ->
  authenticate user m h = (Ok v, mkHandle true (h.(h_sent) ++ [Authenticate user m]) q).
Proof.
  intros Ho Hq Hpre Hr. unfold authenticate, handle_send, wait_recv_reply, st_bind. rewrite Ho.
  cbn [h_replies h_open h_sent]. by rewrite Hq, (wait_for_first _ _ _ v).
Qed.

(** Each request to sign costs one signature, whose result goes to the session
    before anything later is read. *)
Lemma sign_loop_step {S SE} {SG : Signer S SE} pick r key hash_alg data q sg sg' out h :
  as_result r = None -> pick r = Some (key, hash_alg, data) -> h.(h_open) = true ->
  auth_sign key hash_alg data sg = (Ok out, sg') ->
  sign_loop pick (r :: q) (sg, h) = sign_loop pick q (sg', mkHandle true (h.(h_sent) ++ [Signed out]) q).
Proof.
  intros Hr Hp Ho Hs. cbn [sign_loop]. rewrite Hr, Hp, Hs. unfold handle_send.
  cbn [h_open h_sent h_replies]. by rewrite Ho.
Qed.

(** A server that lists its algorithms but none for RSA is reported like one
    that lists nothing. *)
Lemma no_rsa_reported ssa contains :
  (forall alg, contains ssa (Rsa alg) = false) -> best_supported_rsa_hash (Some ssa) contains = None.
Proof. intros Hc. cbn. by rewrite !Hc. Qed.
End ClientAuth.
