(* ===== verification/AuthExchange.v ===== *)
(** * Client and server authenticate

    The client of [ClientAuth] against the server of [ServerAuth]: every request
    of the client is understood as it was meant ([auth_request_understood]), a
    client that holds the key of its request gets in when the application accepts
    the user and the key ([publickey_login]), and the prompts and responses of a
    challenge arrive unchanged ([challenge_roundtrip]). *)

From stdpp Require Import base list numbers option gmap strings.
From Stdlib Require Import ZArith Lia.
From S2P Require Import Prelude Encoding Parsing LibInner Msg NameList Compression Session Auth ServerAuth ClientAuth.

Section Exchange.
Context {enc : SshEncoding} `{!SshEncodingLaws enc}.
Context {UK : UserKeys} `{!UserKeysLaws UK} {F : Flate2}.

(** ** What the client sends *)

(** The name and the encoding of a key or certificate. *)
Definition kc_algo (k : PublicKeyOrCertificate) : bytes :=
  match k with
  | IsPublicKey key h => alg_as_str (with_hash_alg h (public_algorithm key))
  | IsCertificate cert => to_certificate_type (cert_algorithm cert)
  end.
Definition kc_bytes (k : PublicKeyOrCertificate) : res KeyError bytes :=
  match k with
  | IsPublicKey key _ => PublicKey_to_bytes key
  | IsCertificate cert => Certificate_to_bytes cert
  end.

(** A certificate of a type that servers know. *)
Definition kc_ok (k : PublicKeyOrCertificate) : Prop :=
  match k with
  | IsPublicKey _ _ => True
  | IsCertificate cert => is_other (cert_algorithm cert) = false
  end.

(** What the server reads: the hash of a key without one is forgotten. *)
Definition read_as (k : PublicKeyOrCertificate) : PublicKeyOrCertificate :=
  match k with
  | IsPublicKey key h => IsPublicKey key (hash_alg (with_hash_alg h (public_algorithm key)))
  | IsCertificate cert => IsCertificate cert
  end.

(** The key or certificate that a method is about. *)
Definition method_key (m : Method) : option PublicKeyOrCertificate :=
  match m with
  | MethodPublicKey k => Some (of_private_key k)
  | MethodOpenSshCertificate _ cert | MethodFutureCertificate cert _ => Some (IsCertificate cert)
  | MethodFuturePublicKey key h => Some (IsPublicKey key h)
  | _ => None
  end.

Definition request_head (user method : bytes) : bytes :=
  prefixed user ++ prefixed (str "ssh-connection") ++ prefixed method.

(** A [publickey] request up to the signature. *)
Definition pk_payload (user : bytes) (flag : Z) (algo key : bytes) : bytes :=
  request_head user (str "publickey") ++ [flag] ++ prefixed algo ++ prefixed key.

Lemma kc_algo_ok k : string_ok (kc_algo k).
Proof.
  destruct k as [key h|cert]; cbn [kc_algo].
  - destruct (alg_str_ok (with_hash_alg h (public_algorithm key))). split; [done|unfold MAX_ENCODED_LEN; lia].
  - destruct (certificate_type_ok (cert_algorithm cert)). split; [done|unfold MAX_ENCODED_LEN; lia].
Qed.

Lemma kc_bytes_len k b : kc_bytes k = Ok b -> zlen b <= MAX_ENCODED_LEN.
Proof. destruct k; [apply PublicKey_roundtrip|apply Certificate_roundtrip]. Qed.

Lemma kc_decode k b : kc_ok k -> kc_bytes k = Ok b ->
  PublicKeyOrCertificate_decode (kc_algo k) b = Ok (read_as k).
Proof.
  destruct k as [key h|cert]; cbn; intros Hok Hb.
  - by apply decode_public_key.
  - by apply decode_certificate.
Qed.

Lemma key_of_read_as k : key_of (read_as k) = key_of k.
Proof. by destruct k. Qed.

Lemma len_u32 (b : bytes) : zlen b <= MAX_ENCODED_LEN -> zlen b < U32_MOD.
Proof. unfold MAX_ENCODED_LEN, U32_MOD. lia. Qed.
#[local] Hint Resolve len_u32 : wire.

Lemma bytes_appends (b : bytes) : zlen b <= MAX_ENCODED_LEN -> appends (encode_bytes b) (prefixed b).
Proof. intros. apply encode_bytes_appends. by apply len_u32. Qed.

Lemma enc_w_appends (m : writer EncError) p : appends m p -> appends (enc_w m) p.
Proof. apply appends_map_err. Qed.

Lemma head_appends user method : string_ok user -> zlen method <= MAX_ENCODED_LEN ->
  appends (request_start user method) (request_head user method).
Proof.
  intros [_ Hu] Hm. repeat apply appends_bind; apply enc_w_appends, bytes_appends; done.
Qed.

Lemma key_appends k b : kc_bytes k = Ok b ->
  appends (do b <- key_w (kc_bytes k) ;; enc_w (encode_bytes b)) (prefixed b).
Proof.
  intros Hb w. unfold key_w, st_bind, st_lift. rewrite Hb. cbn.
  apply enc_w_appends, bytes_appends. by eapply kc_bytes_len.
Qed.

Lemma probe_appends user k b : string_ok user -> kc_bytes k = Ok b ->
  appends (probe_body user (kc_algo k) (kc_bytes k)) (pk_payload user 0 (kc_algo k) b).
Proof.
  intros Hu Hb. pose proof (kc_algo_ok k) as [_ Ha]. unfold probe_body, pk_payload.
  apply appends_bind; [by apply head_appends|]. apply appends_bind; [apply appends_push_byte|].
  apply appends_bind; [by apply enc_w_appends, bytes_appends|]. by apply key_appends.
Qed.

Lemma to_sign_appends user k b : string_ok user -> kc_bytes k = Ok b ->
  appends (to_sign_body user k) (msg.USERAUTH_REQUEST :: pk_payload user 1 (kc_algo k) b).
Proof.
  intros Hu Hb. pose proof (kc_algo_ok k) as [_ Ha]. unfold to_sign_body, pk_payload.
  apply (appends_bind _ _ [msg.USERAUTH_REQUEST]); [apply appends_push_byte|].
  apply appends_bind; [by apply head_appends|].
  apply (appends_bind _ _ [1]); [apply enc_w_appends; by apply encode_u8_appends|].
  destruct k as [key h|cert]; (apply appends_bind; [by apply enc_w_appends, bytes_appends|]).
  - by apply (key_appends (IsPublicKey key h)).
  - by apply (key_appends (IsCertificate cert)).
Qed.

(** ** Every request is understood *)

Definition method_ok (m : Method) : Prop :=
  match m with
  | MethodNone => True
  | MethodPassword p => string_ok p
  | MethodKeyboardInteractive s => string_ok s
  | _ => exists k b, method_key m = Some k /\ kc_ok k /\ kc_bytes k = Ok b
  end.

(** What follows the message number. *)
Definition auth_payload (user : bytes) (m : Method) : bytes :=
  match m with
  | MethodNone => request_head user (str "none")
  | MethodPassword p => request_head user (str "password") ++ [0] ++ prefixed p
  | MethodKeyboardInteractive s =>
      request_head user (str "keyboard-interactive") ++ prefixed [] ++ prefixed s
  | _ =>
      match method_key m with
      | Some k => pk_payload user 0 (kc_algo k) (match kc_bytes k with Ok b => b | _ => [] end)
      | None => []
      end
  end.

Lemma method_key_probe m k : method_key m = Some k -> forall user,
  auth_request_body user m = (push_byte msg.USERAUTH_REQUEST ;;; probe_body user (kc_algo k) (kc_bytes k)).
Proof.
  destruct m as [| |pk|key cert|key h|cert h|]; try done; intros [= <-] user; try done.
  unfold auth_request_body, of_private_key, kc_algo, PrivateKeyWithHashAlg_algorithm.
  by rewrite public_algorithm_of.
Qed.

Lemma auth_request_appends user m : string_ok user -> method_ok m ->
  appends (auth_request_body user m) (msg.USERAUTH_REQUEST :: auth_payload user m).
Proof.
  intros Hu Hm.
  assert (Hk : (exists k b, method_key m = Some k /\ kc_ok k /\ kc_bytes k = Ok b) ->
    appends (auth_request_body user m) (msg.USERAUTH_REQUEST ::
      match method_key m with
      | Some k => pk_payload user 0 (kc_algo k) (match kc_bytes k with Ok b => b | _ => [] end)
      | None => []
      end)).
  { intros (k & b & Hk & _ & Hb). rewrite (method_key_probe _ _ Hk), Hk.
    replace (match kc_bytes k with Ok b => b | _ => [] end) with b by (by rewrite Hb).
    apply (appends_bind _ _ [_]); [apply appends_push_byte|]. by apply probe_appends. }
  destruct m as [|p|pk|key cert|key h|cert h|s]; try by apply Hk.
  all: apply (appends_bind _ _ [_]); [apply appends_push_byte|]; cbn [auth_payload].
  - by apply head_appends.
  - apply appends_bind; [by apply head_appends|].
    apply (appends_bind _ _ [0]); [apply enc_w_appends; by apply encode_u8_appends|].
    apply enc_w_appends, bytes_appends, Hm.
  - apply appends_bind; [by apply head_appends|].
    apply appends_bind; apply enc_w_appends, bytes_appends; [done|apply Hm].
Qed.

(** *** At the server *)
Context {H E : Type} {AH : AuthHandler H E}.
Context (session_id : bytes).
Implicit Types s : AuthCtx H.
Abbreviation conn := (str "ssh-connection").

(** What the server asks of its application for a request, and how it answers;
    [now] is the time of the request. *)
Definition answer_method (until initial_until now : Z) (user : bytes) (m : Method) : st (AuthCtx H) E unit :=
  match m with
  | MethodNone =>
      do auth <- ask (auth_none user) (CallNone user) ;;
      answer_or_remove initial_until MethodKind.None auth
  | MethodPassword p =>
      st_mod (set_user user) ;;;
      do auth <- ask (auth_password user p) (CallPassword user p) ;;
      answer_or_remove until MethodKind.Password auth
  | MethodKeyboardInteractive submethods =>
      st_mod (set_user user) ;;;
      mod_request (set_current (Some (CurrentKeyboardInteractive submethods))) ;;;
      do auth <- ask (auth_keyboard_interactive user submethods None)
                   (CallKeyboardInteractive user submethods None) ;;
      do accepted <- reply_userauth_info_response until auth ;;
      if accepted then st_mod (set_state InitCompression) else st_ret tt
  | _ =>
      match method_key m with
      | Some k =>
          match key_to_verify now (read_as k), kc_bytes k with
          | Some key, Ok b => probe_request until user (kc_algo k) b key []
          | _, _ => reject_auth_request until
          end
      | None => st_ret tt
      end
  end.

Lemma st_lift_Ok {S X A B} (a : A) (k : A -> st S X B) : st_bind (st_lift (Ok a)) k = k a.
Proof. done. Qed.

Lemma request_head_read user method rest until initial_until now packet s :
  string_ok user -> string_ok method ->
  server_read_auth_request session_id until initial_until now packet (request_head user method ++ rest) s =
    (bind_principal user conn ;;;
     if beq method (str "password") then read_password until user rest
     else if beq method (str "publickey") then
       server_read_auth_request_pk session_id until now packet user rest
     else if beq method (str "none") then read_none initial_until user rest
     else if beq method (str "keyboard-interactive") then read_keyboard_interactive until user rest
     else reject_auth_request until) s.
Proof.
  intros Hu Hm. unfold server_read_auth_request, request_head, dec.
  rewrite <- !app_assoc, (decode_string_ok user) by done. cbn [up enc_err map_err].
  rewrite st_lift_Ok. rewrite (decode_string_ok conn) by done. cbn [up enc_err map_err].
  rewrite st_lift_Ok. rewrite (decode_string_ok method) by done. cbn [up enc_err map_err].
  by rewrite st_lift_Ok, beq_refl.
Qed.

Lemma bind_principal_waits user service s x s' : bind_principal (E := E) user service s = (Ok x, s') ->
  exists a, s'.(a_state) = WaitingAuthRequest a.
Proof.
  unfold bind_principal, get_request, st_bind. destruct (a_state s) as [| a| |]; [done| |done..].
  destruct (bind_or_reset_principal user service a) as [[] a'] eqn:Hb; intros [= _ <-]; by exists a'.
Qed.

(** Two computations that agree once the request is bound. *)
Lemma after_bind user {A} (m1 m2 : st (AuthCtx H) E A) s :
  (forall s' a, s'.(a_state) = WaitingAuthRequest a -> m1 s' = m2 s') ->
  (bind_principal user conn ;;; m1) s = (bind_principal user conn ;;; m2) s.
Proof.
  intros Hm. unfold st_bind. destruct (bind_principal user conn s) as [[x|e|] s'] eqn:Hb; [|done..].
  apply bind_principal_waits in Hb as [a Ha]. by eapply Hm.
Qed.

Lemma server_reads_pk user k b flag rest until initial_until now packet s :
  string_ok user -> kc_ok k -> kc_bytes k = Ok b ->
  server_read_auth_request session_id until initial_until now packet
    (pk_payload user flag (kc_algo k) b ++ rest) s =
    (bind_principal user conn ;;;
     match key_to_verify now (read_as k) with
     | None => reject_auth_request until
     | Some key =>
         if negb (flag =? 0)
         then signed_request session_id until packet user (kc_algo k) b (read_as k) key rest
         else probe_request until user (kc_algo k) b key rest
     end) s.
Proof.
  intros Hu Hk Hb. unfold pk_payload. rewrite <- !app_assoc, request_head_read by done. resolve_names.
  apply after_bind. intros s' a Ha. unfold server_read_auth_request_pk, get_request. cbn beta.
  unfold st_bind at 1. rewrite Ha. cbn [app]. unfold dec.
  rewrite decode_u8_cons. cbn [enc_err map_err up]. rewrite st_lift_Ok.
  rewrite (decode_string_ok (kc_algo k)) by apply kc_algo_ok. cbn [enc_err map_err up]. rewrite st_lift_Ok.
  rewrite (decode_bytes_ok b) by (by eapply kc_bytes_len). cbn [enc_err map_err up]. rewrite st_lift_Ok.
  by rewrite kc_decode.
Qed.

Lemma server_reads_probe user m k b until initial_until now packet s :
  string_ok user -> method_key m = Some k -> kc_ok k -> kc_bytes k = Ok b ->
  server_read_auth_request session_id until initial_until now packet (pk_payload user 0 (kc_algo k) b) s =
    (bind_principal user conn ;;; answer_method until initial_until now user m) s.
Proof.
  intros Hu Hm Hk Hb. rewrite <- (app_nil_r (pk_payload _ _ _ _)), server_reads_pk by done.
  assert (Ha : answer_method until initial_until now user m =
    match key_to_verify now (read_as k) with
    | Some key => probe_request until user (kc_algo k) b key []
    | None => reject_auth_request until
    end).
  { destruct m; try done; injection Hm as <-; cbn [answer_method method_key]; rewrite Hb; by case_match. }
  rewrite Ha. apply after_bind. intros s' a _. by destruct (key_to_verify _ _).
Qed.

Lemma request_understood user m until initial_until now packet s : string_ok user -> method_ok m ->
  server_read_auth_request session_id until initial_until now packet (auth_payload user m) s =
    (bind_principal user conn ;;; answer_method until initial_until now user m) s.
Proof.
  intros Hu Hm.
  assert (Hk : (exists k b, method_key m = Some k /\ kc_ok k /\ kc_bytes k = Ok b) ->
    auth_payload user m = match method_key m with
      | Some k => pk_payload user 0 (kc_algo k) (match kc_bytes k with Ok b => b | _ => [] end)
      | None => [] end ->
    server_read_auth_request session_id until initial_until now packet (auth_payload user m) s =
      (bind_principal user conn ;;; answer_method until initial_until now user m) s).
  { intros (k & b & Hmk & Hk & Hb) ->. rewrite Hmk.
    replace (match kc_bytes k with Ok b => b | _ => [] end) with b by (by rewrite Hb).
    by apply server_reads_probe. }
  destruct m as [|p|pk|key cert|key h|cert h|sub]; try (by apply Hk); cbn [auth_payload].
  - rewrite <- (app_nil_r (request_head _ _)), request_head_read by done. by resolve_names.
  - rewrite request_head_read by done. resolve_names. apply after_bind. intros s' a Ha.
    unfold read_password, dec. cbn [app]. unfold st_bind at 1, st_mod at 1. rewrite decode_u8_cons.
    cbn [enc_err map_err up]. rewrite st_lift_Ok.
    rewrite <- (app_nil_r (prefixed p)), decode_string_ok by apply Hm. cbn [enc_err map_err up].
    by rewrite st_lift_Ok.
  - rewrite request_head_read by done. resolve_names. apply after_bind. intros s' a Ha.
    unfold read_keyboard_interactive, dec. unfold st_bind at 1, st_mod at 1.
    rewrite decode_string_ok by done. cbn [enc_err map_err up]. rewrite st_lift_Ok.
    rewrite <- (app_nil_r (prefixed sub)), decode_string_ok by apply Hm. cbn [enc_err map_err up].
    by rewrite st_lift_Ok.
Qed.

(** *** From the client *)
Context {W HC EC : Type} {HW : PacketSink W} {CH : ClientAuthHandler W HC EC}.
Context (server_compression : Compression).
Implicit Types c : ClientCtx W HC.

Lemma stage_c_appends body p c : appends body p ->
  stage_c body c = (Ok tt, set_c_write (c.(c_write) ++ frame p) c.(c_buffer) c).
Proof. intros Hb. unfold stage_c. by rewrite (appends_push_packet _ _ Hb). Qed.

Lemma write_auth_request_ok user m c : string_ok user -> method_ok m ->
  write_auth_request user m c =
    (Ok true, set_c_write (c.(c_write) ++ frame (msg.USERAUTH_REQUEST :: auth_payload user m)) c.(c_buffer) c).
Proof.
  intros Hu Hm. unfold write_auth_request, st_bind.
  by rewrite (stage_c_appends _ _ _ (auth_request_appends _ _ Hu Hm)).
Qed.

(** The server understands every authentication request of the client as it
    was meant: for each of the methods ([none], [password], [publickey] with a
    key or a certificate, held or delegated, [keyboard-interactive]) the packet
    that the client stages makes the server bind the user to the session, ask
    its application the one question of that method, with the user and the
    credentials of the client, and answer accordingly; a certificate is offered
    only when it is valid at the time. *)
Theorem auth_request_understood user m c until initial_until now s : string_ok user -> method_ok m ->
  exists p,
    write_auth_request user m c =
      (Ok true, set_c_write (c.(c_write) ++ frame (msg.USERAUTH_REQUEST :: p)) c.(c_buffer) c) /\
    server_read_auth_request session_id until initial_until now (msg.USERAUTH_REQUEST :: p) p s =
      (bind_principal user conn ;;; answer_method until initial_until now user m) s.
Proof.
  intros Hu Hm. exists (auth_payload user m). split; [by apply write_auth_request_ok|].
  by apply request_understood.
Qed.

(** ** Logging in with a key *)

(** The client, or its application, signs [data]. *)
Inductive signs (data sg : bytes) c : Method -> Prop :=
| signs_key k : sign_with_hash_alg k data = Ok sg -> signs data sg c (MethodPublicKey k)
| signs_certificate key cert :
    try_sign key data = Ok sg -> cert_public_key cert = public_key key -> signs data sg c (MethodOpenSshCertificate key cert)
| signs_delegated m k sig :
    (exists key h, m = MethodFuturePublicKey key h) \/ (exists cert h, m = MethodFutureCertificate cert h) ->
    method_key m = Some k -> (wait_for as_signed c.(c_queue)).1 = Some (data ++ prefixed sg) ->
    Signature_decode sg = Ok (sig, []) -> verify (key_of k) data sig = true ->
    zlen sg <= MAX_ENCODED_LEN -> signs data sg c m.

Lemma signs_verifies data sg c m k : signs data sg c m -> method_key m = Some k ->
  zlen sg <= MAX_ENCODED_LEN /\
  exists sig, Signature_decode sg = Ok (sig, []) /\ verify (key_of k) data sig = true.
Proof.
  destruct 1 as [pk Hs|key cert Hs Hc|m k' sig _ Hk _ Hd Hv Hl]; intros Hm.
  - injection Hm as <-. by apply sign_verifies.
  - injection Hm as <-. cbn [key_of]. rewrite Hc. by apply try_sign_verifies.
  - rewrite Hk in Hm. injection Hm as <-. eauto.
Qed.

Abbreviation to_sign user k b :=
  (prefixed session_id ++ msg.USERAUTH_REQUEST :: pk_payload user 1 (kc_algo k) b).

Lemma make_to_sign_ok user k b w : zlen session_id <= MAX_ENCODED_LEN -> string_ok user ->
  kc_bytes k = Ok b ->
  client_make_to_sign session_id user k w = (Ok (zlen (prefixed session_id)), to_sign user k b).
Proof.
  intros Hs Hu Hb. unfold client_make_to_sign, st_bind, st_mod, st_get.
  rewrite (enc_w_appends _ _ (bytes_appends _ Hs)). cbn [app].
  by rewrite (to_sign_appends _ _ _ Hu Hb).
Qed.

Lemma stage_from_ok user k b sg c : c.(c_buffer) = to_sign user k b ++ prefixed sg ->
  stage_from (zlen (prefixed session_id)) c =
    (Ok tt, set_c_write (c.(c_write) ++
       frame (msg.USERAUTH_REQUEST :: pk_payload user 1 (kc_algo k) b ++ prefixed sg)) c.(c_buffer) c).
Proof.
  intros Hb. unfold stage_from. rewrite Hb.
  replace (_ <? _) with false by (symmetry; apply Z.ltb_ge; zlia).
  rewrite <- app_assoc, zdrop_app_exact by done.
  rewrite (stage_c_appends _ _ _ (appends_push_bytes _)), Hb. by rewrite <- app_assoc.
Qed.

(** What signing leaves of the client. *)
Definition sent_signature (user : bytes) (k : PublicKeyOrCertificate) (b sg : bytes) c c' : Prop :=
  c'.(c_write) = c.(c_write) ++
    frame (msg.USERAUTH_REQUEST :: pk_payload user 1 (kc_algo k) b ++ prefixed sg) /\
  c'.(c_method) = None /\ c'.(c_state) = c.(c_state) /\ c'.(c_listening) = c.(c_listening).

Lemma signature_appended m k data sg c w : signs data sg c m -> method_key m = Some k ->
  (enc_w (encode_bytes sg) : writer Error.error) w = (Ok tt, w ++ prefixed sg).
Proof. intros Hs Hm. apply enc_w_appends, bytes_appends. by destruct (signs_verifies _ _ _ _ _ Hs Hm). Qed.

(** The client holds the key. *)
Lemma send_signature_ok user m k b sg c : zlen session_id <= MAX_ENCODED_LEN -> string_ok user ->
  method_key m = Some k -> kc_bytes k = Ok b -> signs (to_sign user k b) sg c m ->
  (match m with MethodPublicKey _ | MethodOpenSshCertificate _ _ => True | _ => False end) ->
  client_send_signature session_id user m c =
    (Ok tt, set_c_write (c.(c_write) ++
       frame (msg.USERAUTH_REQUEST :: pk_payload user 1 (kc_algo k) b ++ prefixed sg))
       (to_sign user k b ++ prefixed sg) c).
Proof.
  intros Hsid Hu Hm Hb Hs Hheld. pose proof (signature_appended _ _ _ _ _ (to_sign user k b) Hs Hm) as Ha.
  inversion Hs as [pk Hsg e1|key cert Hsg _ e1|m' k' sig Hd]; subst.
  - injection Hm as <-. unfold client_send_signature, on_buffer at 1, st_bind at 1.
    rewrite (make_to_sign_ok _ _ _ _ Hsid Hu Hb). unfold on_buffer, st_bind, st_get, key_w, st_lift.
    cbn [c_buffer set_c_buffer set_c_write]. rewrite Hsg. cbn [map_err]. rewrite Ha.
    by rewrite (stage_from_ok user (of_private_key pk) b sg).
  - injection Hm as <-. unfold client_send_signature, on_buffer at 1, st_bind at 1.
    rewrite (make_to_sign_ok _ _ _ _ Hsid Hu Hb). unfold on_buffer, st_bind, st_get, key_w, st_lift.
    cbn [c_buffer set_c_buffer set_c_write]. rewrite Hsg. cbn [map_err]. rewrite Ha.
    by rewrite (stage_from_ok user (IsCertificate cert) b sg).
  - destruct Hd as [(? & ? & ->)|(? & ? & ->)]; done.
Qed.

(** The application signs. *)
Lemma delegate_ok user k b sg req c : zlen session_id <= MAX_ENCODED_LEN -> string_ok user ->
  kc_bytes k = Ok b -> c.(c_user) = user -> c.(c_listening) = true -> c.(c_method) = None ->
  (wait_for as_signed c.(c_queue)).1 = Some (to_sign user k b ++ prefixed sg) ->
  exists c', delegate_signature session_id k req c = (Ok tt, c') /\ sent_signature user k b sg c c'.
Proof.
  intros Hsid Hu Hb Huser Hl Hmeth Hw. unfold delegate_signature, st_bind at 1. rewrite Huser.
  unfold on_buffer at 1, st_bind at 1. rewrite (make_to_sign_ok _ _ _ _ Hsid Hu Hb).
  unfold on_buffer, send_reply, st_bind at 1. cbn [c_buffer set_c_buffer set_c_write].
  unfold st_bind at 1. cbn [c_listening set_c_buffer set_c_write]. rewrite Hl.
  unfold wait_msg, st_bind at 1. cbn [c_queue set_c_messages set_c_buffer set_c_write].
  destruct (wait_for as_signed (c_queue c)) as [a q]. cbn [fst] in Hw. subst a. cbn [ok_or].
  unfold st_bind, st_mod.
  replace (zlen (_ ++ _) =? _) with false
    by (symmetry; apply Z.eqb_neq; rewrite (zlen_app _ (prefixed sg)), (zlen_frame sg : zlen (prefixed sg) = _); zlia).
  cbn [negb].
  rewrite (stage_from_ok user k b sg) by done. eexists. split; [done|]. by repeat split.
Qed.

Lemma signature_sent user m k b sg c : zlen session_id <= MAX_ENCODED_LEN -> string_ok user ->
  method_key m = Some k -> kc_bytes k = Ok b -> signs (to_sign user k b) sg c m ->
  c.(c_user) = user -> c.(c_method) = Some m -> c.(c_listening) = true ->
  exists c', continue_with_signature session_id c = (Ok tt, c') /\ sent_signature user k b sg c c'.
Proof.
  intros Hsid Hu Hm Hb Hs Huser Hmeth Hl. unfold continue_with_signature. rewrite Hmeth.
  set (c0 := set_c_buffer [] (set_c_method None c)).
  assert (Hheld : (match m with MethodPublicKey _ | MethodOpenSshCertificate _ _ => True | _ => False end) ->
    exists c', cup (E := EC) (client_send_signature session_id user m) c0 = (Ok tt, c') /\
      sent_signature user k b sg c c').
  { intros Hheld. eexists. unfold cup, st_map_err. rewrite (send_signature_ok user m k b sg c0); try done.
    inversion Hs as [? ? e|? ? ? ? e|? ? ? [(? & ? & ->)|(? & ? & ->)]]; subst; try done; by constructor. }
  assert (Hdel : forall req, (exists key h, m = MethodFuturePublicKey key h) \/
      (exists cert h, m = MethodFutureCertificate cert h) ->
    exists c', cup (E := EC) (delegate_signature session_id k req) c0 = (Ok tt, c') /\
      sent_signature user k b sg c c').
  { intros req Hd. destruct (delegate_ok user k b sg req c0) as (c' & Hr & Hc'); try done.
    - inversion Hs as [? ? e|? ? ? ? e|? k' ? _ Hk' Hw]; subst; [| |exact Hw].
      all: destruct Hd as [(? & ? & ?)|(? & ? & ?)]; discriminate.
    - exists c'. unfold cup, st_map_err. by rewrite Hr. }
  destruct m as [| |pk|key cert|key h|cert h|]; try done; injection Hm as <-.
  - destruct (Hheld I) as (c' & Hr & Hc'). exists c'. split; [|done].
    by rewrite <- Huser in Hr.
  - destruct (Hheld I) as (c' & Hr & Hc'). exists c'. split; [|done].
    by rewrite <- Huser in Hr.
  - apply Hdel. eauto.
  - apply Hdel. eauto.
Qed.

(** *** The steps at the server *)

Lemma stage_appends body p s : appends body p ->
  stage (E := E) body s = (Ok tt, set_auth_write (s.(a_write) ++ frame p) s).
Proof. intros Hb. unfold stage. by rewrite (appends_push_packet _ _ Hb). Qed.

(** The session names [user], who was offered [k]. *)
Definition offered (user : bytes) (k : PublicKeyOrCertificate) (b : bytes) s : Prop :=
  s.(a_user) = user /\
  exists a, s.(a_state) = WaitingAuthRequest a /\ a.(principal) = Some (mkPrincipal user conn) /\
    a.(current) = Some (CurrentPublicKey b (kc_algo k) true).

Lemma bind_same user s a : s.(a_state) = WaitingAuthRequest a ->
  a.(principal) = Some (mkPrincipal user conn) -> bind_principal (E := E) user conn s = (Ok tt, s).
Proof.
  intros Ha Hp. unfold bind_principal, get_request, st_bind. rewrite Ha.
  unfold bind_or_reset_principal. rewrite Hp. cbn [p_user p_service]. rewrite !beq_refl. cbn [andb].
  destruct s; cbn in *. by subst.
Qed.

Lemma bind_named user s a : s.(a_state) = WaitingAuthRequest a ->
  exists a' u, bind_principal (E := E) user conn s =
      (Ok tt, set_state (WaitingAuthRequest a') (set_user u s)) /\
    a'.(principal) = Some (mkPrincipal user conn).
Proof.
  intros Ha. unfold bind_principal, get_request, st_bind. rewrite Ha.
  unfold bind_or_reset_principal. destruct (principal a) as [[pu ps]|] eqn:Hp.
  - cbn [p_user p_service]. destruct (beq pu user && beq ps conn) eqn:Hsame; [|by eexists _, []].
    apply andb_true_iff in Hsame as [->%beq_true ->%beq_true].
    exists a, s.(a_user). split; [|done]. destruct s; cbn in *. by subst.
  - by eexists _, [].
Qed.

Lemma pk_ok_appends k b : zlen b <= MAX_ENCODED_LEN ->
  appends (pk_ok_body (kc_algo k) b) (msg.USERAUTH_PK_OK :: prefixed (kc_algo k) ++ prefixed b).
Proof.
  intros Hb. pose proof (kc_algo_ok k) as [_ Ha].
  apply (appends_bind _ _ [_]); [apply appends_push_byte|].
  apply appends_bind; by apply enc_w_appends, bytes_appends.
Qed.

(** A probe for a key that the application accepts. *)
Lemma probe_served user k b until initial_until now packet s a h1 : string_ok user -> kc_ok k ->
  kc_bytes k = Ok b -> key_to_verify now (read_as k) = Some (key_of k) ->
  s.(a_state) = WaitingAuthRequest a ->
  auth_publickey_offered user (key_of k) s.(a_handler) = (Ok Accept, h1) ->
  exists s1,
    server_read_auth_request session_id until initial_until now packet (pk_payload user 0 (kc_algo k) b) s =
      (Ok tt, s1) /\
    s1.(a_write) = s.(a_write) ++ frame (msg.USERAUTH_PK_OK :: prefixed (kc_algo k) ++ prefixed b) /\
    offered user k b s1 /\ s1.(a_handler) = h1.
Proof.
  intros Hu Hk Hb Hv Ha Hoff.
  rewrite <- (app_nil_r (pk_payload _ _ _ _)), server_reads_pk by done. rewrite Hv.
  change (negb (0 =? 0)) with false. cbn match.
  destruct (bind_named user s a Ha) as (a' & u & Hbind & Hp). unfold st_bind at 1. rewrite Hbind.
  unfold probe_request, ensure_end, st_bind at 1. cbn [map_err up st_lift]. unfold st_bind at 1, st_mod at 1.
  unfold ask, st_bind at 1. cbn [a_handler set_user set_state]. rewrite Hoff. unfold st_bind.
  rewrite (stage_appends _ _ _ (pk_ok_appends k b (kc_bytes_len _ _ Hb))).
  eexists. split; [reflexivity|]. split; [done|]. split; [|done]. split; [done|].
  eexists. split; [done|]. by split.
Qed.

Definition accepts (user : bytes) (k : PublicKeyOrCertificate) : st H E Auth :=
  match k with
  | IsPublicKey key _ => auth_publickey user key
  | IsCertificate cert => auth_openssh_certificate user cert
  end.

(** The signed request for it. *)
Lemma signed_served user k b sg sig until initial_until now s h2 : string_ok user -> kc_ok k ->
  kc_bytes k = Ok b -> key_to_verify now (read_as k) = Some (key_of k) ->
  zlen session_id <= MAX_ENCODED_LEN -> zlen sg <= MAX_ENCODED_LEN ->
  Signature_decode sg = Ok (sig, []) -> verify (key_of k) (to_sign user k b) sig = true ->
  offered user k b s -> accepts user k s.(a_handler) = (Ok Accept, h2) ->
  let p := pk_payload user 1 (kc_algo k) b ++ prefixed sg in
  exists s2,
    server_read_auth_request session_id until initial_until now (msg.USERAUTH_REQUEST :: p) p s = (Ok tt, s2) /\
    s2.(a_write) = s.(a_write) ++ frame [msg.USERAUTH_SUCCESS] /\
    s2.(a_state) = InitCompression /\ s2.(a_user) = user /\ s2.(a_handler) = h2.
Proof.
  intros Hu Hk Hb Hv Hsid Hsg Hdec Hver (Huser & a & Ha & Hp & Hcur) Hacc p. unfold p.
  rewrite server_reads_pk by done. rewrite Hv. change (negb (1 =? 0)) with true. cbn match.
  unfold st_bind at 1. rewrite (bind_same user s a Ha Hp).
  unfold signed_request, st_bind at 1, get_request at 1. rewrite Ha. unfold accepted_probe_matches.
  rewrite Hcur. unfold dec. rewrite <- (app_nil_r (prefixed sg)), decode_bytes_ok by done.
  cbn [enc_err map_err up]. rewrite st_lift_Ok. unfold key_err. rewrite Hdec. cbn [map_err up].
  rewrite st_lift_Ok. unfold ensure_end at 1 2. cbn [map_err up]. rewrite !st_lift_Ok.
  unfold st_bind at 1. rewrite Huser, !beq_refl. cbn [andb].
  unfold signed_data. rewrite (enc_w_appends _ _ (bytes_appends _ Hsid)). rewrite st_lift_Ok.
  rewrite !app_nil_r. cbn [app].
  rewrite (app_comm_cons (pk_payload user 1 (kc_algo k) b)), ztake_app_exact by zlia. rewrite Hver.
  assert (Hfin : forall h evs, exists s2, (accept_request : st (AuthCtx H) E unit) (asked h evs s) = (Ok tt, s2) /\
    s2.(a_write) = s.(a_write) ++ frame [msg.USERAUTH_SUCCESS] /\
    s2.(a_state) = InitCompression /\ s2.(a_user) = user /\ s2.(a_handler) = h).
  { intros h evs. unfold accept_request, server_auth_request_success, st_bind.
    rewrite (stage_appends success_body [_] _ (appends_push_byte _)). eexists. split; [reflexivity|]. by repeat split. }
  destruct k as [key h|cert]; cbn [read_as accepts] in *; unfold ask, st_bind at 1; rewrite Hacc; apply Hfin.
Qed.

(** *** The steps at the client *)
Abbreviation read := (read_unauthenticated session_id server_compression).

Lemma probe_sent user m k b c a0 : string_ok user -> method_key m = Some k -> kc_ok k -> kc_bytes k = Ok b ->
  c.(c_state) = WaitingAuthRequest a0 ->
  exists c1, write_auth_request_if_needed user m c = (Ok true, c1) /\
    c1.(c_write) = c.(c_write) ++ frame (msg.USERAUTH_REQUEST :: pk_payload user 0 (kc_algo k) b) /\
    c1.(c_state) = WaitingAuthRequest (AuthRequest_new m) /\ c1.(c_user) = user /\
    c1.(c_method) = Some m /\ c1.(c_listening) = c.(c_listening) /\ c1.(c_queue) = c.(c_queue).
Proof.
  intros Hu Hm Hk Hb Hc.
  assert (Hmok : method_ok m) by (destruct m; try done; exists k, b; done).
  assert (Hp1 : auth_payload user m = pk_payload user 0 (kc_algo k) b).
  { destruct m; try done; injection Hm as <-; cbn [auth_payload method_key]; by rewrite Hb. }
  unfold write_auth_request_if_needed, st_bind at 1. rewrite Hc. unfold st_bind, st_mod, st_ret.
  rewrite write_auth_request_ok, Hp1 by done. eexists. split; [reflexivity|]. by repeat split.
Qed.

Lemma signs_queue data sg c c1 m : c1.(c_queue) = c.(c_queue) -> signs data sg c m -> signs data sg c1 m.
Proof. intros Hq [| |]; [by constructor..|]. eapply signs_delegated; try done. by rewrite Hq. Qed.

Lemma read_challenge body c a : c.(c_state) = WaitingAuthRequest a ->
  read (msg.USERAUTH_INFO_REQUEST_OR_USERAUTH_PK_OK :: body) c =
    (recv_info_request_or_pk_ok session_id a body ;;; st_ret false) c.
Proof. intros Hst. unfold read_unauthenticated. by rewrite Hst. Qed.

Lemma pk_ok_read user m k b sg body c : zlen session_id <= MAX_ENCODED_LEN -> string_ok user ->
  method_key m = Some k -> kc_bytes k = Ok b -> signs (to_sign user k b) sg c m ->
  c.(c_state) = WaitingAuthRequest (AuthRequest_new m) -> c.(c_user) = user -> c.(c_method) = Some m ->
  c.(c_listening) = true ->
  exists c', read (msg.USERAUTH_PK_OK :: body) c = (Ok false, c') /\ sent_signature user k b sg c c'.
Proof.
  intros Hsid Hu Hm Hb Hs Hst Huser Hmeth Hl.
  destruct (signature_sent user m k b sg c) as (c' & Hr & Hc'); try done.
  exists c'. split; [|done].
  assert (Hcur : (AuthRequest_new m).(current) = None) by (by destruct m).
  rewrite (read_challenge _ _ _ Hst). unfold recv_info_request_or_pk_ok, st_bind.
  by rewrite Hcur, Hr.
Qed.

Lemma success_read c a : c.(c_state) = WaitingAuthRequest a -> c.(c_listening) = true ->
  exists c', read [msg.USERAUTH_SUCCESS] c = (Ok false, c') /\ c'.(c_state) = InitCompression /\
    c'.(c_replies) = c.(c_replies) ++ [AuthSuccess].
Proof.
  intros Hst Hl. unfold read_unauthenticated. rewrite Hst. cbn -[recv_success].
  unfold recv_success, cup, st_map_err, send_reply, st_bind. cbn. rewrite Hl. eexists. by split_and!.
Qed.

Definition serve (until initial_until now : Z) (p : bytes) : st (AuthCtx H) E unit :=
  server_read_auth_request session_id until initial_until now (msg.USERAUTH_REQUEST :: p) p.

(** C6. A client that holds the key of its request, or whose application signs
    with it, gets in when the application of the server accepts the user and the
    key: the probe is answered with [PK_OK], upon which the client sends exactly
    one signed request for the same key, over the session id; its signature
    verifies, the server answers success and names the user, and the client
    tells its application.  The key or the certificate, of RSA or another kind, has to be
    of a type that is known and to have a serialisation ([kc_ok], [kc_bytes]); a
    certificate has to be valid when the server reads it, the first and the second
    time; user and session id are of a size that can be encoded. *)
Theorem publickey_login user m k b sg c s until initial_until now now' a0 a h1 h2 :
  string_ok user -> zlen session_id <= MAX_ENCODED_LEN ->
  method_key m = Some k -> kc_ok k -> kc_bytes k = Ok b -> signs (to_sign user k b) sg c m ->
  c.(c_state) = WaitingAuthRequest a0 -> c.(c_listening) = true ->
  s.(a_state) = WaitingAuthRequest a ->
  key_to_verify now (read_as k) = Some (key_of k) -> key_to_verify now' (read_as k) = Some (key_of k) ->
  auth_publickey_offered user (key_of k) s.(a_handler) = (Ok Accept, h1) ->
  accepts user k h1 = (Ok Accept, h2) ->
  exists p1 p2 p3 c1 c2 c3 s1 s2,
    write_auth_request_if_needed user m c = (Ok true, c1) /\
    c1.(c_write) = c.(c_write) ++ frame (msg.USERAUTH_REQUEST :: p1) /\
    serve until initial_until now p1 s = (Ok tt, s1) /\ s1.(a_write) = s.(a_write) ++ frame p2 /\
    read p2 c1 = (Ok false, c2) /\
    c2.(c_write) = c1.(c_write) ++ frame (msg.USERAUTH_REQUEST :: p3) /\ c2.(c_method) = None /\
    serve until initial_until now' p3 s1 = (Ok tt, s2) /\
    s2.(a_write) = s1.(a_write) ++ frame [msg.USERAUTH_SUCCESS] /\
    s2.(a_state) = InitCompression /\ s2.(a_user) = user /\ s2.(a_handler) = h2 /\
    read [msg.USERAUTH_SUCCESS] c2 = (Ok false, c3) /\ c3.(c_state) = InitCompression /\
    c3.(c_replies) = c2.(c_replies) ++ [AuthSuccess].
Proof.
  intros Hu Hsid Hm Hk Hb Hs Hc Hl Ha Hv Hv' Hoff Hacc.
  destruct (signs_verifies _ _ _ _ _ Hs Hm) as (Hsg & sig & Hdec & Hver).
  destruct (probe_sent user m k b c a0) as (c1 & Hw & Hw1 & Hc1 & Huser & Hmeth & Hl1 & Hq); try done.
  destruct (probe_served user k b until initial_until now
    (msg.USERAUTH_REQUEST :: pk_payload user 0 (kc_algo k) b) s a h1) as (s1 & Hs1 & Hws1 & Hoffd & Hh1);
    try done.
  apply (signs_queue _ _ _ c1) in Hs; [|done]. rewrite Hl in Hl1.
  destruct (pk_ok_read user m k b sg (prefixed (kc_algo k) ++ prefixed b) c1)
    as (c2 & Hr2 & Hw2 & Hm2 & Hst2 & Hl2); try done.
  rewrite <- Hh1 in Hacc.
  destruct (signed_served user k b sg sig until initial_until now' s1 h2)
    as (s2 & Hs2 & Hws2 & Hst & Hus & Hh2); try done.
  rewrite Hc1 in Hst2. rewrite Hl1 in Hl2.
  destruct (success_read c2 _ Hst2 Hl2) as (c3 & Hr3 & Hst3 & Hrep).
  eexists _, _, _, c1, c2, c3, s1, s2. split_and!; try eassumption; eassumption.
Qed.

(** ** Challenges *)

Definition prompt_bytes (p : Prompt) : bytes := prefixed p.1 ++ [if p.2 then 1 else 0].
Definition info_payload (name instructions : bytes) (prompts : list Prompt) : bytes :=
  prefixed name ++ prefixed instructions ++ prefixed [] ++ be32 (zlen prompts) ++
  concat (map prompt_bytes prompts).
Definition responses_payload (responses : list bytes) : bytes :=
  be32 (zlen responses) ++ concat (map prefixed responses).

Definition prompts_ok (prompts : list Prompt) : Prop :=
  Forall (fun p : Prompt => string_ok p.1) prompts /\ zlen prompts < U32_MOD.
Definition responses_ok (responses : list bytes) : Prop :=
  Forall (fun r => zlen r <= MAX_ENCODED_LEN) responses /\ zlen responses <= 2147483647.

Lemma prompts_appends prompts : Forall (fun p : Prompt => string_ok p.1) prompts ->
  appends (prompts_body prompts) (concat (map prompt_bytes prompts)).
Proof.
  induction 1 as [|[p e] l [_ Hp] _ IH]; cbn [prompts_body map concat]; [apply appends_ret|].
  unfold prompt_bytes at 1. cbn [fst snd] in *. rewrite <- app_assoc.
  apply appends_bind; [by apply bytes_appends|]. apply appends_bind; [|done].
  apply encode_u8_appends. by destruct e.
Qed.

Lemma info_request_appends name instructions prompts : string_ok name -> string_ok instructions ->
  prompts_ok prompts ->
  appends (info_request_body name instructions prompts)
    (msg.USERAUTH_INFO_REQUEST :: info_payload name instructions prompts).
Proof.
  intros [_ Hn] [_ Hi] [Hp Hl]. apply enc_w_appends.
  apply (appends_bind _ _ [_]); [by apply encode_u8_appends|].
  do 3 (apply appends_bind; [by apply bytes_appends|]). apply appends_bind; [|by apply prompts_appends].
  unfold encode_usize. rewrite (proj2 (Z.ltb_lt _ _) Hl). apply encode_u32_appends.
  split; [unfold zlen; lia|done].
Qed.

Lemma prompts_read prompts : Forall (fun p : Prompt => string_ok p.1) prompts ->
  read_prompts (length prompts) (concat (map prompt_bytes prompts)) = Ok (prompts, []).
Proof.
  induction 1 as [|[p e] l Hp _ IH]; [done|]. cbn [length read_prompts map concat].
  unfold prompt_bytes at 1. cbn [fst snd] in *. rewrite <- app_assoc, decode_string_ok by done.
  cbn [enc_err map_err res_bind app]. rewrite decode_u8_cons. cbn [enc_err map_err res_bind].
  rewrite IH. cbn [res_bind]. by destruct e.
Qed.

Lemma prompts_size prompts : 5 * zlen prompts <= zlen (concat (map prompt_bytes prompts)).
Proof.
  induction prompts as [|[p e] l IH]; [done|]. cbn [map concat]. unfold prompt_bytes at 1.
  cbn [fst snd]. rewrite !zlen_app, (zlen_frame p : zlen (prefixed p) = _). zlia.
Qed.

Lemma responses_sent responses c : responses_ok responses ->
  client_send_auth_response responses c =
    (Ok tt, set_c_write (c.(c_write) ++ frame (msg.USERAUTH_INFO_RESPONSE :: responses_payload responses))
              c.(c_buffer) c).
Proof.
  intros [Hr Hl]. unfold client_send_auth_response. apply stage_c_appends.
  apply (appends_bind _ _ [_]); [apply enc_w_appends; by apply encode_u8_appends|].
  rewrite (proj2 (Z.leb_le _ _) Hl).
  apply appends_bind; [apply enc_w_appends, encode_u32_appends; unfold is_u32, U32_MOD; zlia|].
  clear -Hr SshEncodingLaws0. induction Hr as [|r l Hr _ IH]; [apply appends_ret|]. cbn [foldr map concat].
  apply appends_bind; [by apply enc_w_appends, bytes_appends|done].
Qed.

(** The client reads the challenge and answers it. *)
Lemma challenge_read name instructions prompts sub a responses q c : string_ok name ->
  string_ok instructions -> prompts_ok prompts -> responses_ok responses ->
  c.(c_state) = WaitingAuthRequest a -> a.(current) = Some (CurrentKeyboardInteractive sub) ->
  c.(c_listening) = true -> wait_for as_responses c.(c_queue) = (Some responses, q) ->
  exists c', read (msg.USERAUTH_INFO_REQUEST :: info_payload name instructions prompts) c = (Ok false, c') /\
    c'.(c_replies) = c.(c_replies) ++ [AuthInfoRequest name instructions prompts] /\
    c'.(c_write) = c.(c_write) ++ frame (msg.USERAUTH_INFO_RESPONSE :: responses_payload responses) /\
    c'.(c_queue) = q /\ c'.(c_state) = c.(c_state).
Proof.
  intros Hn Hi [Hp Hpl] Hr Hst Hcur Hl Hq. rewrite (read_challenge _ _ _ Hst).
  unfold recv_info_request_or_pk_ok. rewrite Hcur.
  unfold recv_info_request, info_payload, st_bind at 1, cdec.
  rewrite decode_string_ok by done. cbn [enc_err map_err]. rewrite st_lift_Ok.
  rewrite decode_string_ok by done. cbn [enc_err map_err]. rewrite st_lift_Ok.
  rewrite decode_string_ok by apply empty_ok. cbn [enc_err map_err]. rewrite st_lift_Ok.
  rewrite decode_u32_be32 by (split; [unfold zlen; lia|done]). cbn [enc_err map_err]. rewrite st_lift_Ok.
  replace (_ <? zlen prompts) with false
    by (symmetry; apply Z.ltb_ge; pose proof (prompts_size prompts); apply Z.div_le_lower_bound; lia).
  unfold zlen at 1. rewrite Nat2Z.id, prompts_read by done. cbn [map_err]. rewrite st_lift_Ok.
  cbn [ensure_end map_err]. rewrite st_lift_Ok. unfold cup, st_bind, st_map_err, send_reply. rewrite Hl.
  unfold wait_msg. cbn [c_queue set_c_messages]. rewrite Hq. cbn [ok_or map_err].
  rewrite responses_sent by done. eexists. split; [reflexivity|]. by split_and!.
Qed.

(** *** At the server *)
Context (after_failure : bytes -> bytes).

Lemma responses_read responses : Forall (fun r => zlen r <= MAX_ENCODED_LEN) responses ->
  read_responses after_failure (length responses) (concat (map prefixed responses)) =
    (map Some responses, []).
Proof.
  induction 1 as [|r l Hr _ IH]; [done|]. cbn [length read_responses map concat].
  by rewrite decode_bytes_ok, IH.
Qed.

Lemma responses_size responses : 4 * zlen responses <= zlen (concat (map prefixed responses)).
Proof.
  induction responses as [|r l IH]; [done|]. cbn [map concat].
  rewrite !zlen_app, (zlen_frame r : zlen (prefixed r) = _). zlia.
Qed.

Lemma responses_served user sub until responses s a : responses_ok responses ->
  s.(a_state) = WaitingAuthRequest a -> a.(current) = Some (CurrentKeyboardInteractive sub) ->
  read_userauth_info_response after_failure until user (responses_payload responses) s =
    (do auth <- ask (auth_keyboard_interactive user sub (Some (map Some responses)))
                  (CallKeyboardInteractive user sub (Some (map Some responses))) ;;
     reply_userauth_info_response until auth) s.
Proof.
  intros [Hr Hl] Ha Hcur. unfold read_userauth_info_response, get_request, st_bind at 1. rewrite Ha.
  rewrite Hcur. unfold responses_payload, dec.
  rewrite decode_u32_be32 by (split; unfold U32_MOD; zlia). cbn [enc_err map_err up]. rewrite st_lift_Ok.
  rewrite Z.min_l.
  2:{ pose proof (responses_size responses). unfold saturating_add, USIZE_MAX.
      apply Z.div_le_lower_bound; lia. }
  unfold zlen at 1. rewrite Nat2Z.id, responses_read by done. unfold ensure_end. cbn [map_err up].
  by rewrite st_lift_Ok.
Qed.

(** A challenge of [keyboard-interactive] and the answers to it arrive
    unchanged: when the application of the server asks for more, the application
    of the client gets the name, the instructions and the prompts with their
    echo flags; the responses that it gives are staged as one packet, which makes
    the server ask its application again for the same user and submethods, with
    these responses in order. *)
Theorem challenge_roundtrip user name instructions prompts sub sub' responses q until c s a0 a :
  string_ok name -> string_ok instructions -> prompts_ok prompts -> responses_ok responses ->
  c.(c_state) = WaitingAuthRequest a0 -> a0.(current) = Some (CurrentKeyboardInteractive sub') ->
  c.(c_listening) = true -> wait_for as_responses c.(c_queue) = (Some responses, q) ->
  s.(a_state) = WaitingAuthRequest a -> a.(current) = Some (CurrentKeyboardInteractive sub) ->
  exists p1 p2 s1 c1,
    reply_userauth_info_response until (Partial name instructions prompts) s = (Ok false, s1) /\
    s1 = set_auth_write (s.(a_write) ++ frame p1) s /\
    read p1 c = (Ok false, c1) /\
    c1.(c_replies) = c.(c_replies) ++ [AuthInfoRequest name instructions prompts] /\
    c1.(c_write) = c.(c_write) ++ frame (msg.USERAUTH_INFO_RESPONSE :: p2) /\ c1.(c_queue) = q /\
    read_userauth_info_response after_failure until user p2 s1 =
      (do auth <- ask (auth_keyboard_interactive user sub (Some (map Some responses)))
                    (CallKeyboardInteractive user sub (Some (map Some responses))) ;;
       reply_userauth_info_response until auth) s1.
Proof.
  intros Hn Hi Hp Hr Hst Hcur Hl Hq Ha Hcur'.
  destruct (challenge_read name instructions prompts sub' a0 responses q c)
    as (c1 & Hread & Hrep & Hw & Hq1 & _); try done.
  eexists _, _, _, c1. split; [|split; [reflexivity|split_and!; try eassumption]].
  - cbn [reply_userauth_info_response]. unfold st_bind.
    by rewrite (stage_appends _ _ _ (info_request_appends _ _ _ Hn Hi Hp)).
  - by apply (responses_served _ _ _ _ _ a).
Qed.
End Exchange.

(** ** Examples *)
Module Example.
#[local] Existing Instance rfc4251.
#[local] Existing Instance rfc4251_laws.
#[local] Existing Instance Auth.Example.keys.
#[local] Existing Instance Auth.Example.keys_laws.
#[local] Existing Instance Doubling.flate2.
#[local] Existing Instance packet_log.

(** An application that accepts every key and asks for more otherwise. *)
#[local] Instance handler : AuthHandler unit Error.error := {|
  authentication_banner := st_ret None;
  auth_none _ := st_ret Auth_reject;
  auth_password _ _ := st_ret Auth_reject;
  auth_publickey_offered _ _ := st_ret Accept;
  auth_publickey _ _ := st_ret Accept;
  auth_openssh_certificate _ _ := st_ret Accept;
  auth_keyboard_interactive _ _ r :=
    st_ret (match r with Some [Some _] => Accept | _ => Auth_reject end);
  auth_error e := e;
|}.

#[local] Instance client : ClientAuthHandler (list bytes) unit Error.error := {|
  auth_banner _ := st_ret tt;
  client_error e := e;
|}.

Definition sid : bytes := [7; 7].
Definition user : bytes := str "alice".

(** An RSA certificate whose signatures its owner's agent makes. *)
Definition owner : Auth.Example.key := (false, 9).
Definition cert : Auth.Example.key * (Z * Z) := (owner, (0, 100)).
Definition method : Method := MethodFutureCertificate cert None.
Definition kc : PublicKeyOrCertificate := IsCertificate cert.
Definition kcb : bytes := [0; 9; 0; 100].
Definition data : bytes := prefixed sid ++ msg.USERAUTH_REQUEST :: pk_payload user 1 (kc_algo kc) kcb.
Definition signature : bytes := Auth.Example.signature owner data.

Definition waits (a : AuthRequest) (q : list Msg) : ClientCtx (list bytes) unit :=
  mkClientCtx (WaitingAuthRequest a) [] [] None [] [] DecompressNone None [] ∅ [] [] true q tt.
Definition server (a : AuthRequest) : AuthCtx unit := mkAuthCtx (WaitingAuthRequest a) [] [] tt [].
Definition fresh : AuthRequest := AuthRequest_server MethodSet.all.

Definition c0 : ClientCtx (list bytes) unit := waits fresh [MsgOther; Signed (data ++ prefixed signature)].

Lemma auth_request_understood_witness :
  exists p,
    write_auth_request user (MethodPassword (str "secret")) c0 =
      (Ok true, set_c_write (frame (msg.USERAUTH_REQUEST :: p)) [] c0) /\
    server_read_auth_request (E := Error.error) sid 10 5 0 (msg.USERAUTH_REQUEST :: p) p (server fresh) =
      (bind_principal user (str "ssh-connection") ;;;
       answer_method 10 5 0 user (MethodPassword (str "secret"))) (server fresh).
Proof.
  apply (auth_request_understood (E := Error.error) sid user (MethodPassword (str "secret")) c0 10 5 0
    (server fresh)).
  - by split.
  - by split.
Defined.

Lemma publickey_login_witness :
  exists p1 p2 p3 c1 c2 c3 s1 s2,
    write_auth_request_if_needed user method c0 = (Ok true, c1) /\
    c1.(c_write) = frame (msg.USERAUTH_REQUEST :: p1) /\
    serve (E := Error.error) sid 10 5 50 p1 (server fresh) = (Ok tt, s1) /\ s1.(a_write) = frame p2 /\
    read_unauthenticated (E := Error.error) sid CompressionNone p2 c1 = (Ok false, c2) /\
    c2.(c_write) = c1.(c_write) ++ frame (msg.USERAUTH_REQUEST :: p3) /\ c2.(c_method) = None /\
    serve (E := Error.error) sid 10 5 60 p3 s1 = (Ok tt, s2) /\
    s2.(a_write) = s1.(a_write) ++ frame [msg.USERAUTH_SUCCESS] /\
    s2.(a_state) = InitCompression /\ s2.(a_user) = user /\ s2.(a_handler) = tt /\
    read_unauthenticated (E := Error.error) sid CompressionNone [msg.USERAUTH_SUCCESS] c2 = (Ok false, c3) /\
    c3.(c_state) = InitCompression /\ c3.(c_replies) = c2.(c_replies) ++ [AuthSuccess].
Proof.
  apply (publickey_login (E := Error.error) sid CompressionNone user method kc kcb signature c0 (server fresh)
    10 5 50 60 fresh fresh tt tt); try reflexivity; try done.
  eapply (signs_delegated (UK := Auth.Example.keys) _ _ _ _ _ signature); [right; by eexists _, _|reflexivity..| |].
  - vm_compute. reflexivity.
  - vm_compute. congruence.
Defined.

Definition asked : AuthRequest := set_current (Some (CurrentKeyboardInteractive (str "pam"))) fresh.
Definition prompts : list Prompt := [(str "Password: ", false)].
Definition c1 : ClientCtx (list bytes) unit := waits asked [MsgOther; AuthInfoResponse [str "secret"]].

Lemma challenge_roundtrip_witness :
  exists p1 p2 s1 c2,
    reply_userauth_info_response (E := Error.error) 10 (Partial (str "login") [] prompts) (server asked) =
      (Ok false, s1) /\
    s1 = set_auth_write (frame p1) (server asked) /\
    read_unauthenticated (E := Error.error) sid CompressionNone p1 c1 = (Ok false, c2) /\
    c2.(c_replies) = [AuthInfoRequest (str "login") [] prompts] /\
    c2.(c_write) = frame (msg.USERAUTH_INFO_RESPONSE :: p2) /\ c2.(c_queue) = [] /\
    read_userauth_info_response (E := Error.error) (fun r => r) 10 user p2 s1 =
      (do auth <- ask (auth_keyboard_interactive user (str "pam") (Some [Some (str "secret")]))
                    (CallKeyboardInteractive user (str "pam") (Some [Some (str "secret")])) ;;
       reply_userauth_info_response 10 auth) s1.
Proof.
  apply (challenge_roundtrip (E := Error.error) sid CompressionNone (fun r => r) user (str "login") [] prompts
    (str "pam") (str "pam") [str "secret"] [] 10 c1 (server asked) asked asked); try reflexivity; try done.
  - split; [|done]. repeat constructor; done.
  - split; [|done]. repeat constructor; done.
Defined.

(** A signer that answers with fewer bytes than the session id takes makes the
    session panic ([buffer[i..]]). *)
Definition c2 (q : list Msg) : ClientCtx (list bytes) unit :=
  set_c_auth (WaitingAuthRequest (AuthRequest_new method)) user (Some method) (waits fresh q).

Lemma short_signature_panics :
  (read_unauthenticated (E := Error.error) sid CompressionNone [msg.USERAUTH_PK_OK] (c2 [Signed [1; 2]])).1 = Panic.
Proof. vm_compute. reflexivity. Qed.

(** The body of [PK_OK] is not looked at: a request for a key has no [current],
    so a [PK_OK] without a body makes the client sign. *)
Lemma pk_ok_not_parsed :
  (read_unauthenticated (E := Error.error) sid CompressionNone [msg.USERAUTH_PK_OK]
     (c2 [Signed (data ++ prefixed signature)])).2.(c_write) =
  frame (msg.USERAUTH_REQUEST :: pk_payload user 1 (kc_algo kc) kcb ++ prefixed signature).
Proof. vm_compute. reflexivity. Qed.
End Example.
