(* ===== verification/ChannelRequests.v ===== *)
(** * Channel requests on the wire ([russh/src/client/session.rs],
    [russh/src/server/session.rs], [russh/src/server/encrypted.rs],
    [russh/src/client/encrypted.rs])

    The requests that a client makes on a channel (terminal, environment, shell,
    command, ...) and those that a server makes (exit status, ...), how each side
    writes them and how the other side reads them. *)

From stdpp Require Import base list numbers option gmap strings.
From Stdlib Require Import ZArith Lia.
From S2P Require Import Prelude Encoding Parsing LibInner Msg Pty Session.

(** ** Requests *)

(** What a client asks for, as the server decodes it.  [modes] is the array of
    [MODES] entries, [n] the number of those that were sent. *)
Inductive ChannelRequest : Type :=
| PtyReq (term : bytes) (col_width row_height pix_width pix_height : Z) (modes : list (Pty * Z)) (n : Z)
| X11Req (single_connection : bool) (protocol cookie : bytes) (screen_number : Z)
| EnvReq (name value : bytes)
| ShellReq
| AgentReq
| ExecReq (command : bytes)
| SubsystemReq (name : bytes)
| WindowChangeReq (col_width row_height pix_width pix_height : Z)
| SignalReq (signal : Sig.sig).

(** What a server tells a client about a channel. *)
Inductive ServerRequest : Type :=
| XonXoffReq (client_can_do : bool)
| ExitStatusReq (exit_status : Z)
| ExitSignalReq (signal : Sig.sig) (core_dumped : bool) (error_message lang_tag : bytes)
| ChannelKeepalive (wants_reply : Z)
| UnknownServerRequest (wants_reply : Z).

Definition u8_of_bool (b : bool) : Z := if b then 1 else 0.

(** The size of the array of terminal modes. *)
Definition MODES : Z := 130.

Section Requests.
Context {enc : SshEncoding}.

(** ** Writing *)

(** [if let Some(channel) = enc.channels.get(&channel) { push_packet!(..) }]. *)
Definition on_channel (channel : Z) (body : ChannelParams -> writer Error.error) : EM unit := fun e =>
  match e.(channels) !! channel with
  | Some ch => on_write (push_packet (body ch)) e
  | None => (Ok tt, e)
  end.

(** The same after [assert!(channel.confirmed)]. *)
Definition on_confirmed_channel (channel : Z) (body : ChannelParams -> writer Error.error) : EM unit :=
  fun e =>
    match e.(channels) !! channel with
    | Some ch => if ch.(confirmed) then on_write (push_packet (body ch)) e else (Panic, e)
    | None => (Ok tt, e)
    end.

Definition request_header (ch : ChannelParams) (kind : bytes) (want_reply : bool)
  : writer Error.error :=
  enc_w (encode_u8 msg.CHANNEL_REQUEST) ;;;
  enc_w (encode_u32 ch.(recipient_channel)) ;;;
  enc_w (encode_bytes kind) ;;;
  enc_w (encode_u8 (u8_of_bool want_reply)).

Fixpoint modes_body (terminal_modes : list (Pty * Z)) : writer Error.error :=
  match terminal_modes with
  | [] => st_ret tt
  | (code, value) :: rest =>
      (if bool_decide (code = TTY_OP_END) then st_ret tt
       else enc_w (encode_u8 (Pty.as_u8 code)) ;;; enc_w (encode_u32 value)) ;;;
      modes_body rest
  end.

(** *** The client *)

Definition pty_body (want_reply : bool) (term : bytes) (col_width row_height pix_width pix_height : Z)
    (terminal_modes : list (Pty * Z)) (ch : ChannelParams) : writer Error.error :=
  request_header ch (str "pty-req") want_reply ;;;
  enc_w (encode_bytes term) ;;;
  enc_w (encode_u32 col_width) ;;; enc_w (encode_u32 row_height) ;;;
  enc_w (encode_u32 pix_width) ;;; enc_w (encode_u32 pix_height) ;;;
  enc_w (encode_u32 (to_u32 (1 + 5 * zlen terminal_modes))) ;;;
  modes_body terminal_modes ;;;
  enc_w (encode_u8 (Pty.as_u8 TTY_OP_END)).

Definition request_pty (channel : Z) (want_reply : bool) (term : bytes)
    (col_width row_height pix_width pix_height : Z) (terminal_modes : list (Pty * Z)) : EM unit :=
  on_channel channel
    (pty_body want_reply term col_width row_height pix_width pix_height terminal_modes).

Definition x11_body (want_reply single_connection : bool) (protocol cookie : bytes) (screen_number : Z)
    (ch : ChannelParams) : writer Error.error :=
  enc_w (encode_u8 msg.CHANNEL_REQUEST) ;;;
  enc_w (encode_u32 ch.(recipient_channel)) ;;;
  enc_w (encode_bytes (str "x11-req")) ;;;
  push_byte (u8_of_bool want_reply) ;;;
  push_byte (u8_of_bool single_connection) ;;;
  enc_w (encode_bytes protocol) ;;; enc_w (encode_bytes cookie) ;;;
  enc_w (encode_u32 screen_number).

Definition request_x11 (channel : Z) (want_reply single_connection : bool) (protocol cookie : bytes)
    (screen_number : Z) : EM unit :=
  on_channel channel (x11_body want_reply single_connection protocol cookie screen_number).

Definition set_env (channel : Z) (want_reply : bool) (name value : bytes) : EM unit :=
  on_channel channel (fun ch =>
    request_header ch (str "env") want_reply ;;;
    enc_w (encode_bytes name) ;;; enc_w (encode_bytes value)).

Definition request_shell (want_reply : bool) (channel : Z) : EM unit :=
  on_channel channel (fun ch => request_header ch (str "shell") want_reply).

Definition exec (channel : Z) (want_reply : bool) (command : bytes) : EM unit :=
  on_channel channel (fun ch =>
    request_header ch (str "exec") want_reply ;;; enc_w (encode_bytes command)).

Definition signal (channel : Z) (s : Sig.sig) : EM unit :=
  on_channel channel (fun ch =>
    request_header ch (str "signal") false ;;; enc_w (encode_bytes (Sig.name s))).

Definition request_subsystem (want_reply : bool) (channel : Z) (name : bytes) : EM unit :=
  on_channel channel (fun ch =>
    request_header ch (str "subsystem") want_reply ;;; enc_w (encode_bytes name)).

Definition window_change (channel col_width row_height pix_width pix_height : Z) : EM unit :=
  on_channel channel (fun ch =>
    request_header ch (str "window-change") false ;;;
    enc_w (encode_u32 col_width) ;;; enc_w (encode_u32 row_height) ;;;
    enc_w (encode_u32 pix_width) ;;; enc_w (encode_u32 pix_height)).

Definition agent_forward (channel : Z) (want_reply : bool) : EM unit :=
  on_channel channel (fun ch => request_header ch (str "auth-agent-req@openssh.com") want_reply).

(** *** The server *)

Definition xon_xoff_request (channel : Z) (client_can_do : bool) : EM unit :=
  on_confirmed_channel channel (fun ch =>
    request_header ch (str "xon-xoff") false ;;; enc_w (encode_u8 (u8_of_bool client_can_do))).

Definition exit_status_request (channel exit_status : Z) : EM unit :=
  on_confirmed_channel channel (fun ch =>
    request_header ch (str "exit-status") false ;;; enc_w (encode_u32 exit_status)).

Definition exit_signal_request (channel : Z) (s : Sig.sig) (core_dumped : bool)
    (error_message language_tag : bytes) : EM unit :=
  on_confirmed_channel channel (fun ch =>
    request_header ch (str "exit-signal") false ;;;
    enc_w (encode_bytes (Sig.name s)) ;;; enc_w (encode_u8 (u8_of_bool core_dumped)) ;;;
    enc_w (encode_bytes error_message) ;;; enc_w (encode_bytes language_tag)).

(** [channel_success] and [channel_failure]: at most one reply per request. *)
Definition set_wants_reply (v : bool) (c : ChannelParams) : ChannelParams :=
  mkChannelParams c.(recipient_channel) c.(sender_channel) c.(recipient_window_size)
    c.(sender_window_size) c.(recipient_maximum_packet_size) c.(sender_maximum_packet_size)
    c.(confirmed) v c.(pending_data) c.(pending_eof) c.(pending_close).

Definition channel_reply (m channel : Z) : EM unit := fun e =>
  match e.(channels) !! channel with
  | Some ch =>
      if negb ch.(confirmed) then (Panic, e)
      else if ch.(wants_reply) then
        on_write (push_packet (enc_w (encode_u8 m) ;;; enc_w (encode_u32 ch.(recipient_channel))))
          (put_channel channel (set_wants_reply false ch) e)
      else (Ok tt, e)
  | None => (Ok tt, e)
  end.
Definition channel_success (channel : Z) : EM unit := channel_reply msg.CHANNEL_SUCCESS channel.
Definition channel_failure (channel : Z) : EM unit := channel_reply msg.CHANNEL_FAILURE channel.

(** ** Reading *)

(** One iteration of [while !mode_bytes.is_empty()]; the slice of modes shrinks. *)
Fixpoint parse_modes (mode_bytes : bytes) (modes : list (Pty * Z)) (i : Z)
  : Result (list (Pty * Z) * Z) :=
  match mode_bytes with
  | [] => Ok (modes, i)
  | code :: rest =>
      if code =? 0 then
        match rest with [] => Ok (modes, i) | _ => Err Error.Inconsistent end
      else
        match rest with
        | b0 :: b1 :: b2 :: b3 :: rest' =>
            let num := b0 * 16777216 + b1 * 65536 + b2 * 256 + b3 in
            if zlen modes <=? i then Err Error.Inconsistent
            else
              let modes' :=
                match Pty.from_u8 code with
                | Some code => <[Z.to_nat i := (code, num)]> modes
                | None => modes
                end in
              parse_modes rest' modes' (i + 1)
        | _ => Err Error.Inconsistent
        end
  end.

Definition no_modes : list (Pty * Z) := replicate (Z.to_nat MODES) (TTY_OP_END, 0).

(** The arms of [match req_type.as_str()]: the fields of the request, [None] for
    an unknown type (nothing more is read). *)
Definition parse_request (req_type r : bytes) : Result (option ChannelRequest) :=
  if beq req_type (str "pty-req") then
    let? (term, r) := enc_err (decode_string r) in
    let? (col_width, r) := enc_err (decode_u32 r) in
    let? (row_height, r) := enc_err (decode_u32 r) in
    let? (pix_width, r) := enc_err (decode_u32 r) in
    let? (pix_height, r) := enc_err (decode_u32 r) in
    let? (mode_string, r) := enc_err (decode_bytes r) in
    let? (modes, i) := parse_modes mode_string no_modes 0 in
    let? _ := ensure_end r in
    Ok (Some (PtyReq term col_width row_height pix_width pix_height modes i))
  else if beq req_type (str "x11-req") then
    let? (single, r) := enc_err (decode_u8 r) in
    let? (protocol, r) := enc_err (decode_string r) in
    let? (cookie, r) := enc_err (decode_string r) in
    let? (screen, r) := enc_err (decode_u32 r) in
    let? _ := ensure_end r in
    Ok (Some (X11Req (negb (single =? 0)) protocol cookie screen))
  else if beq req_type (str "env") then
    let? (name, r) := enc_err (decode_string r) in
    let? (value, r) := enc_err (decode_string r) in
    let? _ := ensure_end r in
    Ok (Some (EnvReq name value))
  else if beq req_type (str "shell") then
    let? _ := ensure_end r in Ok (Some ShellReq)
  else if beq req_type (str "auth-agent-req@openssh.com") then
    let? _ := ensure_end r in Ok (Some AgentReq)
  else if beq req_type (str "exec") then
    let? (req, r) := enc_err (decode_bytes r) in
    let? _ := ensure_end r in
    Ok (Some (ExecReq req))
  else if beq req_type (str "subsystem") then
    let? (name, r) := enc_err (decode_string r) in
    let? _ := ensure_end r in
    Ok (Some (SubsystemReq name))
  else if beq req_type (str "window-change") then
    let? (col_width, r) := enc_err (decode_u32 r) in
    let? (row_height, r) := enc_err (decode_u32 r) in
    let? (pix_width, r) := enc_err (decode_u32 r) in
    let? (pix_height, r) := enc_err (decode_u32 r) in
    let? _ := ensure_end r in
    Ok (Some (WindowChangeReq col_width row_height pix_width pix_height))
  else if beq req_type (str "signal") then
    let? (name, r) := enc_err (decode_string r) in
    let? _ := ensure_end r in
    Ok (Some (SignalReq (Sig.from_name name)))
  else Ok None.

(** The header of a request: channel, type and whether a reply is wanted. *)
Definition parse_header (r : bytes) : Result (Z * bytes * Z * bytes) :=
  let? (channel_num, r) := enc_err (decode_u32 r) in
  let? (req_type, r) := enc_err (decode_string r) in
  let? (wants_reply, r) := enc_err (decode_u8 r) in
  Ok (channel_num, req_type, wants_reply, r).

(** The arms of the client; an unknown request is not read to its end. *)
Definition parse_server_request (r : bytes) : Result (Z * ServerRequest) :=
  let? (channel_num, r) := enc_err (decode_u32 r) in
  let? (req, r) := enc_err (decode_string r) in
  if beq req (str "xon-xoff") then
    let? (_, r) := enc_err (decode_u8 r) in
    let? (can, r) := enc_err (decode_u8 r) in
    let? _ := ensure_end r in
    Ok (channel_num, XonXoffReq (negb (can =? 0)))
  else if beq req (str "exit-status") then
    let? (_, r) := enc_err (decode_u8 r) in
    let? (status, r) := enc_err (decode_u32 r) in
    let? _ := ensure_end r in
    Ok (channel_num, ExitStatusReq status)
  else if beq req (str "exit-signal") then
    let? (_, r) := enc_err (decode_u8 r) in
    let? (name, r) := enc_err (decode_string r) in
    let? (core, r) := enc_err (decode_u8 r) in
    let? (message, r) := enc_err (decode_string r) in
    let? (lang, r) := enc_err (decode_string r) in
    let? _ := ensure_end r in
    Ok (channel_num, ExitSignalReq (Sig.from_name name) (negb (core =? 0)) message lang)
  else if beq req (str "keepalive@openssh.com") then
    let? (wants_reply, r) := enc_err (decode_u8 r) in
    let? _ := ensure_end r in
    Ok (channel_num, ChannelKeepalive wants_reply)
  else
    let? (wants_reply, r) := enc_err (decode_u8 r) in
    Ok (channel_num, UnknownServerRequest wants_reply).
End Requests.

(** ** Round trips *)

(** The client's operation that makes a request. *)
Definition send_request {enc : SshEncoding} (channel : Z) (want_reply : bool) (req : ChannelRequest)
  : EM unit :=
  match req with
  | PtyReq term c r pw ph modes n => request_pty channel want_reply term c r pw ph (ztake n modes)
  | X11Req single protocol cookie screen => request_x11 channel want_reply single protocol cookie screen
  | EnvReq name value => set_env channel want_reply name value
  | ShellReq => request_shell want_reply channel
  | AgentReq => agent_forward channel want_reply
  | ExecReq command => exec channel want_reply command
  | SubsystemReq name => request_subsystem want_reply channel name
  | WindowChangeReq c r pw ph => window_change channel c r pw ph
  | SignalReq s => signal channel s
  end.

(** Requests of these types never ask for a reply. *)
Definition wants (want_reply : bool) (req : ChannelRequest) : bool :=
  match req with WindowChangeReq _ _ _ _ | SignalReq _ => false | _ => want_reply end.

Definition kind (req : ChannelRequest) : bytes :=
  match req with
  | PtyReq _ _ _ _ _ _ _ => str "pty-req"
  | X11Req _ _ _ _ => str "x11-req"
  | EnvReq _ _ => str "env"
  | ShellReq => str "shell"
  | AgentReq => str "auth-agent-req@openssh.com"
  | ExecReq _ => str "exec"
  | SubsystemReq _ => str "subsystem"
  | WindowChangeReq _ _ _ _ => str "window-change"
  | SignalReq _ => str "signal"
  end.

(** The array of the server for the modes [ms]. *)
Definition fill (ms : list (Pty * Z)) : list (Pty * Z) :=
  ms ++ replicate (Z.to_nat (MODES - zlen ms)) (TTY_OP_END, 0).

Definition mode_ok (m : Pty * Z) : Prop := m.1 <> TTY_OP_END /\ is_u32 m.2.

(** A request that fits the wire: strings are text of a bounded size, numbers
    are [u32], and the terminal modes are at most [MODES] proper modes. *)
Definition request_ok (req : ChannelRequest) : Prop :=
  match req with
  | PtyReq term c r pw ph modes n =>
      string_ok term /\ is_u32 c /\ is_u32 r /\ is_u32 pw /\ is_u32 ph /\
      0 <= n <= MODES /\ modes = fill (ztake n modes) /\ Forall mode_ok (ztake n modes)
  | X11Req _ protocol cookie screen => string_ok protocol /\ string_ok cookie /\ is_u32 screen
  | EnvReq name value => string_ok name /\ string_ok value
  | ShellReq | AgentReq => True
  | ExecReq command => zlen command <= MAX_ENCODED_LEN
  | SubsystemReq name => string_ok name
  | WindowChangeReq c r pw ph => is_u32 c /\ is_u32 r /\ is_u32 pw /\ is_u32 ph
  | SignalReq s => string_ok (Sig.name s) /\ Sig.from_name (Sig.name s) = s
  end.

Definition mode_bytes (m : Pty * Z) : bytes := Pty.as_u8 m.1 :: be32 m.2.

(** What follows the header. *)
Definition request_bytes (req : ChannelRequest) : bytes :=
  match req with
  | PtyReq term c r pw ph modes n =>
      prefixed term ++ be32 c ++ be32 r ++ be32 pw ++ be32 ph ++
      prefixed (flat_map mode_bytes (ztake n modes) ++ [0])
  | X11Req single protocol cookie screen =>
      [u8_of_bool single] ++ prefixed protocol ++ prefixed cookie ++ be32 screen
  | EnvReq name value => prefixed name ++ prefixed value
  | ShellReq | AgentReq => []
  | ExecReq command => prefixed command
  | SubsystemReq name => prefixed name
  | WindowChangeReq c r pw ph => be32 c ++ be32 r ++ be32 pw ++ be32 ph
  | SignalReq s => prefixed (Sig.name s)
  end.

Definition request_payload (recipient : Z) (want_reply : bool) (kind rest : bytes) : bytes :=
  be32 recipient ++ prefixed kind ++ [u8_of_bool want_reply] ++ rest.

Section Roundtrip.
Context {enc : SshEncoding} `{!SshEncodingLaws enc}.

Lemma u8_of_bool_u8 b : is_u8 (u8_of_bool b).
Proof. unfold is_u8. destruct b; cbn; lia. Qed.

Lemma u8_of_bool_nonzero b : negb (u8_of_bool b =? 0) = b.
Proof. by destruct b. Qed.

Lemma zlen_modes ms : zlen (flat_map mode_bytes ms) = 5 * zlen ms.
Proof. induction ms as [|m ms IH]; [done|]. cbn [flat_map]. rewrite zlen_app, IH, zlen_cons. unfold mode_bytes. rewrite zlen_cons, zlen_be32. lia. Qed.

Lemma modes_appends ms : Forall mode_ok ms -> appends (modes_body ms) (flat_map mode_bytes ms).
Proof.
  induction 1 as [|[code v] ms [Hc Hv] _ IH]; cbn [modes_body flat_map]; [auto with wire|].
  rewrite bool_decide_eq_false_2 by done. unfold mode_bytes, enc_w. cbn [fst snd].
  assert (is_u8 (Pty.as_u8 code)) by apply as_u8_is_u8.
  apply appends_bind; [|done]. change (Pty.as_u8 code :: be32 v) with ([Pty.as_u8 code] ++ be32 v).
  auto with wire.
Qed.

Lemma header_appends ch k want : is_u32 ch.(recipient_channel) -> zlen k < U32_MOD ->
  appends (request_header ch k want)
    ([msg.CHANNEL_REQUEST] ++ be32 ch.(recipient_channel) ++ prefixed k ++ [u8_of_bool want]).
Proof.
  intros Hr Hk. assert (is_u8 msg.CHANNEL_REQUEST) by done. pose proof (u8_of_bool_u8 want).
  unfold request_header, prefixed, enc_w. auto 8 with wire.
Qed.

(** The loop over the modes fills the array from position [zlen pre] on. *)
Lemma parse_modes_ok ms : forall pre,
  Forall mode_ok ms -> zlen pre + zlen ms <= MODES ->
  parse_modes (flat_map mode_bytes ms ++ [0]) (fill pre) (zlen pre) =
  Ok (fill (pre ++ ms), zlen (pre ++ ms)).
Proof.
  induction ms as [|[code v] ms IH]; intros pre Hms Hl; [by rewrite app_nil_r|].
  apply Forall_cons in Hms as [[Hc Hv] Hms]. cbn [fst snd] in *. rewrite zlen_cons in Hl.
  pose proof (zlen_nonneg ms). pose proof (zlen_nonneg pre).
  assert (Hcode : Pty.from_u8 (Pty.as_u8 code) = Some code)
    by (rewrite from_u8_as_u8; by rewrite bool_decide_eq_false_2).
  assert (Hz : (Pty.as_u8 code =? 0) = false) by (apply Z.eqb_neq; intros He; by rewrite He in Hcode).
  cbn [flat_map mode_bytes fst snd app parse_modes]. rewrite Hz. cbn [be32 app].
  assert (Hf : zlen (fill pre) = MODES) by (unfold fill; zlia).
  rewrite Hf. replace (MODES <=? zlen pre) with false by (symmetry; apply Z.leb_gt; lia).
  rewrite Hcode.
  pose proof (read_u32_be32 v []) as Hr. rewrite to_u32_small in Hr by done. injection Hr as Hr.
  rewrite Hr. specialize (IH (pre ++ [(code, v)])). rewrite <- !app_assoc in IH. cbn [app] in IH.
  rewrite <- IH; [|done|zlia]. f_equal; [|zlia].
  unfold fill. rewrite zlen_app. change (zlen [(code, v)]) with 1.
  replace (Z.to_nat (MODES - zlen pre)) with (S (Z.to_nat (MODES - (zlen pre + 1)))) by lia.
  cbn [replicate]. unfold zlen. rewrite Nat2Z.id.
  rewrite insert_app_r_alt by lia. rewrite Nat.sub_diag. cbn. by rewrite <- app_assoc.
Qed.

Lemma on_channel_appends c ch body p e :
  e.(channels) !! c = Some ch -> appends (body ch) p ->
  on_channel c body e = (Ok tt, set_write (e.(enc_write) ++ frame p) e.(write_cursor) e).
Proof.
  intros Hc Hb. unfold on_channel, on_write. rewrite Hc.
  by rewrite (appends_push_packet _ _ Hb).
Qed.

Lemma send_request_ok c ch want req e :
  request_ok req -> e.(channels) !! c = Some ch -> is_u32 ch.(recipient_channel) ->
  send_request c want req e =
    (Ok tt, set_write (e.(enc_write) ++
       frame (msg.CHANNEL_REQUEST ::
         request_payload ch.(recipient_channel) (wants want req) (kind req) (request_bytes req)))
       e.(write_cursor) e).
Proof.
  intros Hok Hc Hr.
  assert (Hh : forall k w rest body, zlen k < U32_MOD -> appends body rest ->
    appends (request_header ch k w ;;; body)
      (msg.CHANNEL_REQUEST :: request_payload ch.(recipient_channel) w k rest)).
  { intros k w rest body Hk Hb. unfold request_payload.
    pose proof (header_appends ch k w Hr Hk) as Hh. pose proof (appends_bind _ (fun _ => body) _ _ Hh Hb) as H.
    rewrite <- !app_assoc in H. exact H. }
  assert (Hn : forall k w, zlen k < U32_MOD ->
    appends (request_header ch k w) (msg.CHANNEL_REQUEST :: request_payload ch.(recipient_channel) w k [])).
  { intros k w Hk. exact (header_appends ch k w Hr Hk). }
  destruct req as [term c0 r pw ph modes n|single protocol cookie screen|name value| | |cmd|name|c0 r pw ph|s];
    cbn [send_request wants kind request_bytes request_ok] in *; eapply on_channel_appends; try exact Hc;
    cbv beta; try (apply Hn; done).
  - destruct Hok as (Ht & ? & ? & ? & ? & Hn' & Hm & Hms). unfold pty_body.
    apply Hh; [done|]. unfold prefixed at 2.
    assert (is_u8 (Pty.as_u8 TTY_OP_END)) by apply as_u8_is_u8.
    pose proof (modes_appends _ Hms).
    replace (zlen (flat_map mode_bytes (ztake n modes) ++ [0]))
      with (to_u32 (1 + 5 * zlen (ztake n modes))).
    2: { rewrite zlen_app, zlen_modes, to_u32_small; [change (zlen [0]) with 1; lia|].
         rewrite zlen_ztake. unfold is_u32, U32_MOD, MODES in *. pose proof (zlen_nonneg modes). lia. }
    pose proof (to_u32_range (1 + 5 * zlen (ztake n modes))).
    unfold enc_w. repeat (apply appends_bind; [by auto with wire|]). auto with wire.
  - destruct Hok as (Hp & Hk & Hs). assert (is_u8 msg.CHANNEL_REQUEST) by done.
    assert (string_ok (str "x11-req")) by done. unfold x11_body, request_payload, enc_w.
    change (msg.CHANNEL_REQUEST :: ?x) with ([msg.CHANNEL_REQUEST] ++ x).
    repeat (apply appends_bind; [by auto with wire|]). auto with wire.
  - destruct Hok as (Hp & Hv). apply Hh; [done|]. unfold enc_w. auto with wire.
  - apply Hh; [done|]. unfold enc_w, prefixed. apply appends_map_err, encode_bytes_appends.
    unfold MAX_ENCODED_LEN in Hok. unfold U32_MOD. lia.
  - apply Hh; [done|]. unfold enc_w. auto with wire.
  - destruct Hok as (? & ? & ? & ?). apply Hh; [done|]. unfold enc_w. auto 8 with wire.
  - destruct Hok. apply Hh; [done|]. unfold enc_w. auto with wire.
Qed.

Lemma parse_header_ok recipient want k rest : is_u32 recipient -> string_ok k ->
  parse_header (request_payload recipient want k rest) = Ok (recipient, k, u8_of_bool want, rest).
Proof. intros Hr Hk. unfold parse_header, request_payload. by decode_fields. Qed.

Lemma parse_request_ok req rest : request_ok req ->
  parse_request (kind req) (request_bytes req ++ rest) = let? _ := ensure_end rest in Ok (Some req).
Proof.
  intros Hok. unfold parse_request.
  destruct req as [term c r pw ph modes n|single protocol cookie screen|name value| | |cmd|name|c r pw ph|s];
    cbn [request_bytes request_ok kind] in *;
    resolve_names;
    try done;
    repeat match goal with H : _ /\ _ |- _ => destruct H end;
    decode_fields.
  - assert (Hn : zlen (ztake n modes) = n).
    { apply (f_equal zlen) in H5. unfold fill in H5. autorewrite with zlen in *.
      pose proof (zlen_nonneg modes). lia. }
    rewrite decode_bytes_ok.
    2: { rewrite zlen_app, zlen_modes, Hn. unfold MODES, MAX_ENCODED_LEN in *. change (zlen [0]) with 1. lia. }
    cbn [enc_err map_err res_bind].
    pose proof (parse_modes_ok (ztake n modes) [] H6) as Hp. cbn [app] in Hp.
    change (fill []) with no_modes in Hp. change (zlen []) with 0 in Hp. rewrite Hp by lia.
    cbn [res_bind]. by rewrite <- H5, Hn.
  - by rewrite u8_of_bool_nonzero.
  - done.
  - done.
  - done.
  - done.
  - by rewrite H0.
Qed.

(** Every request that a client can make on a channel (terminal, X11,
    environment, shell, agent, command, subsystem, window size, signal) is staged
    as one packet, whose header the server reads as the peer's channel number,
    the type, and whether a reply is wanted, and whose body it reads as the same
    request: in particular the terminal modes, up to 130 of them, come out in
    order.  Trailing bytes make it an error. *)
Theorem channel_request_roundtrip c ch want req e rest :
  request_ok req -> e.(channels) !! c = Some ch -> is_u32 ch.(recipient_channel) ->
  exists p body,
    send_request c want req e =
      (Ok tt, set_write (e.(enc_write) ++ frame (msg.CHANNEL_REQUEST :: p)) e.(write_cursor) e) /\
    parse_header p = Ok (ch.(recipient_channel), kind req, u8_of_bool (wants want req), body) /\
    parse_request (kind req) (body ++ rest) =
      match rest with
      | [] => Ok (Some req)
      | _ => Err (Error.SshEncoding (TrailingData (zlen rest)))
      end.
Proof.
  intros Hok Hc Hr. eexists _, (request_bytes req). split; [by apply send_request_ok|].
  split; [apply parse_header_ok; [done|by destruct req]|].
  rewrite parse_request_ok by done. by destruct rest.
Qed.

(** ** What the server tells the client *)

Definition send_server_request (channel : Z) (req : ServerRequest) : EM unit :=
  match req with
  | XonXoffReq can => xon_xoff_request channel can
  | ExitStatusReq n => exit_status_request channel n
  | ExitSignalReq s core message lang => exit_signal_request channel s core message lang
  | ChannelKeepalive _ | UnknownServerRequest _ => st_ret tt
  end.

Definition server_request_ok (req : ServerRequest) : Prop :=
  match req with
  | XonXoffReq _ => True
  | ExitStatusReq n => is_u32 n
  | ExitSignalReq s _ message lang =>
      string_ok (Sig.name s) /\ Sig.from_name (Sig.name s) = s /\ string_ok message /\ string_ok lang
  | ChannelKeepalive _ | UnknownServerRequest _ => False
  end.

Definition server_request_payload (recipient : Z) (req : ServerRequest) : bytes :=
  match req with
  | XonXoffReq can => request_payload recipient false (str "xon-xoff") [u8_of_bool can]
  | ExitStatusReq n => request_payload recipient false (str "exit-status") (be32 n)
  | ExitSignalReq s core message lang =>
      request_payload recipient false (str "exit-signal")
        (prefixed (Sig.name s) ++ [u8_of_bool core] ++ prefixed message ++ prefixed lang)
  | ChannelKeepalive _ | UnknownServerRequest _ => []
  end.

Lemma send_server_request_ok c ch req e :
  server_request_ok req -> e.(channels) !! c = Some ch -> ch.(confirmed) = true ->
  is_u32 ch.(recipient_channel) ->
  send_server_request c req e =
    (Ok tt, set_write (e.(enc_write) ++
       frame (msg.CHANNEL_REQUEST :: server_request_payload ch.(recipient_channel) req))
       e.(write_cursor) e).
Proof.
  intros Hok Hc Hconf Hr.
  assert (Hb : forall k rest body, zlen k < U32_MOD -> appends body rest ->
    on_confirmed_channel c (fun ch => request_header ch k false ;;; body) e =
      (Ok tt, set_write (e.(enc_write) ++
         frame (msg.CHANNEL_REQUEST :: request_payload ch.(recipient_channel) false k rest))
         e.(write_cursor) e)).
  { intros k rest body Hk Hb. unfold on_confirmed_channel, on_write. rewrite Hc, Hconf.
    pose proof (header_appends ch k false Hr Hk) as Hh.
    pose proof (appends_bind _ (fun _ => body) _ _ Hh Hb) as H. rewrite <- !app_assoc in H.
    by rewrite (appends_push_packet _ _ H). }
  pose proof u8_of_bool_u8.
  destruct req as [can|n|s core message lang| |]; try done; apply Hb; try done; unfold enc_w;
    cbn [server_request_ok] in Hok; [by auto with wire..|].
  destruct Hok as (? & _ & ? & ?). auto 8 with wire.
Qed.

(** What a server tells a client about a channel (flow control, exit status,
    exit signal) is read back by the client as the same message on the peer's
    channel number. *)
Theorem server_request_roundtrip c ch req e :
  server_request_ok req -> e.(channels) !! c = Some ch -> ch.(confirmed) = true ->
  is_u32 ch.(recipient_channel) ->
  exists p,
    send_server_request c req e =
      (Ok tt, set_write (e.(enc_write) ++ frame (msg.CHANNEL_REQUEST :: p)) e.(write_cursor) e) /\
    parse_server_request p = Ok (ch.(recipient_channel), req).
Proof.
  intros Hok Hc Hconf Hr. eexists. split; [by apply send_server_request_ok|].
  rewrite <- (app_nil_r (server_request_payload _ _)). unfold parse_server_request.
  destruct req as [can|n|s core message lang| |]; try done; cbn [server_request_payload server_request_ok] in *;
    unfold request_payload; try destruct Hok as (? & Hs & ? & ?);
    decode_fields; resolve_names; decode_fields; rewrite ?u8_of_bool_nonzero, ?Hs; done.
Qed.

(** ** Replies to channel requests *)

(** A callback, and the code around it, may reply several times. *)
Fixpoint send_replies (channel : Z) (oks : list bool) : EM unit :=
  match oks with
  | [] => st_ret tt
  | ok :: rest =>
      (if ok : bool then channel_success channel else channel_failure channel) ;;;
      send_replies channel rest
  end.

Definition reply_payload (recipient : Z) (ok : bool) : bytes :=
  (if ok then msg.CHANNEL_SUCCESS else msg.CHANNEL_FAILURE) :: be32 recipient.

(** A channel request gets at most one reply: of any sequence of
    [channel_success] and [channel_failure] that follows it, the first sends its
    packet if the request asked for a reply, and nothing else is sent. *)
Theorem channel_replies_once c ch oks e :
  e.(channels) !! c = Some ch -> ch.(confirmed) = true -> is_u32 ch.(recipient_channel) ->
  send_replies c oks e =
    (Ok tt,
     match oks with
     | ok :: _ =>
         if ch.(wants_reply)
         then set_write (e.(enc_write) ++ frame (reply_payload ch.(recipient_channel) ok)) e.(write_cursor)
                (put_channel c (set_wants_reply false ch) e)
         else e
     | [] => e
     end).
Proof.
  intros Hc Hconf Hr.
  assert (Hno : forall oks e ch, e.(channels) !! c = Some ch -> ch.(confirmed) = true ->
    ch.(wants_reply) = false -> send_replies c oks e = (Ok tt, e)).
  { clear. intros oks. induction oks as [|ok oks IH]; intros e ch Hc Hconf Hw; [done|].
    cbn [send_replies]. unfold channel_success, channel_failure, channel_reply, st_bind.
    destruct ok; rewrite Hc, Hconf, Hw; by eapply IH. }
  destruct oks as [|ok oks]; [done|]. destruct (wants_reply ch) eqn:Hw; [|by eapply Hno].
  cbn [send_replies].
  assert (Hone : (if ok : bool then channel_success c else channel_failure c) e =
    (Ok tt, set_write (e.(enc_write) ++ frame (reply_payload ch.(recipient_channel) ok)) e.(write_cursor)
       (put_channel c (set_wants_reply false ch) e))).
  { assert (Hb : forall m, is_u8 m ->
      channel_reply m c e = (Ok tt, set_write (e.(enc_write) ++ frame (m :: be32 ch.(recipient_channel)))
        e.(write_cursor) (put_channel c (set_wants_reply false ch) e))).
    { intros m Hm. unfold channel_reply, on_write. rewrite Hc, Hconf, Hw. cbn [negb].
      rewrite (appends_push_packet _ (m :: be32 ch.(recipient_channel))); [done|].
      change (m :: be32 ch.(recipient_channel)) with ([m] ++ be32 ch.(recipient_channel)).
      unfold enc_w. auto with wire. }
    destruct ok; by apply Hb. }
  unfold st_bind. rewrite Hone. eapply (Hno oks _ (set_wants_reply false ch)); [|done|done].
  cbn. by rewrite lookup_insert_eq.
Qed.
End Roundtrip.

(** ** Concrete requests *)
Module Example.
#[local] Existing Instance rfc4251.

Definition channel7 : ChannelParams :=
  mkChannelParams 7 3 100 100 32768 32768 true false [] false false.
Definition session : Encrypted := mkEncrypted {[3 := channel7]} 3 [] 0 0 false false.

Definition modes : list (Pty * Z) := [(ECHO, 1); (TTY_OP_ISPEED, 38400)].
Definition pty : ChannelRequest := PtyReq (str "xterm") 80 24 0 0 (fill modes) 2.

Lemma pty_ok : request_ok pty.
Proof.
  cbn. split_and!; try done; try (unfold is_u32, U32_MOD, MODES; lia).
  unfold fill, ztake. cbn. repeat constructor; cbn; try done; unfold U32_MOD; lia.
Qed.

Lemma channel_request_roundtrip_witness :
  exists p body,
    send_request 3 true pty session =
      (Ok tt, set_write (session.(enc_write) ++ frame (msg.CHANNEL_REQUEST :: p)) 0 session) /\
    parse_header p = Ok (7, str "pty-req", 1, body) /\
    parse_request (str "pty-req") (body ++ []) = Ok (Some pty).
Proof. by apply (channel_request_roundtrip 3 channel7 true pty session [] pty_ok). Defined.

Lemma server_request_roundtrip_witness :
  exists p,
    send_server_request 3 (ExitStatusReq 1) session =
      (Ok tt, set_write (session.(enc_write) ++ frame (msg.CHANNEL_REQUEST :: p)) 0 session) /\
    parse_server_request p = Ok (7, ExitStatusReq 1).
Proof. by apply (server_request_roundtrip 3 channel7 (ExitStatusReq 1) session). Defined.

Lemma channel_replies_once_witness :
  send_replies 3 [true; false; true] (put_channel 3 (set_wants_reply true channel7) session) =
    (Ok tt, set_write (frame (reply_payload 7 true)) 0
              (put_channel 3 (set_wants_reply false channel7) session)).
Proof.
  rewrite (channel_replies_once 3 (set_wants_reply true channel7)); [|done..].
  vm_compute. reflexivity.
Defined.

(** A list of modes with the end marker in it, which [request_pty] leaves out but
    counts in the length of the modes: the server refuses the packet.  The array
    that the server gives to its application has such entries. *)
Lemma request_pty_end_marker :
  exists e' body,
    request_pty 3 true (str "xterm") 80 24 0 0 [(ECHO, 1); (TTY_OP_END, 0)] session = (Ok tt, e') /\
    parse_header (zdrop 5 e'.(enc_write)) = Ok (7, str "pty-req", 1, body) /\
    parse_request (str "pty-req") body = Err (Error.SshEncoding Length).
Proof. do 2 eexists. split; [vm_compute; reflexivity|]. split; vm_compute; reflexivity. Qed.
End Example.
