(* ===== verification/ServerEncrypted.v ===== *)
(** * What the server does with a packet ([russh/src/server/encrypted.rs])

    [process_packet] dispatches a decrypted packet by the state of the session:
    the service request, authentication ([ServerAuth]), and then
    [server_read_authenticated], which dispatches by message type: channels
    ([ServerSession], [ChannelOpen]), channel requests ([ChannelRequests]),
    global requests and the replies to the session's own.

    [Session] puts together the states of those parts.  Two of its fields are
    history variables: [auth_trace] (see [ServerAuth]) and [answers], what the
    oneshot channels of the session's global requests were sent. *)

From stdpp Require Import base list numbers option gmap strings.
From Stdlib Require Import ZArith Lia.
From S2P Require Import Prelude Encoding Parsing LibInner Msg Pty Channels PendingInbound Cipher Compression.
From S2P Require Import Session ServerSession ServerFrames ChannelOpen ChannelRequests Auth ServerAuth.

(** ** The session's own global requests *)
Inductive GlobalRequestResponse : Type :=
| Keepalive
| Ping (reply : Z)
| NoMoreSessions
| TcpIpForward (reply : Z)
| CancelTcpIpForward (reply : Z)
| StreamLocalForward (reply : Z)
| CancelStreamLocalForward (reply : Z).

(** What is sent over the oneshot channel [reply]. *)
Inductive answer : Type := GotPing | GotPort (port : option Z) | GotBool (b : bool).

(** [Sender::send] of tokio's mpsc once it completes: the application may have
    read in the meantime; [false] when the receiver is gone. *)
Class MpscSend (Q : Mpsc) : Type := {
  send_wait : chan -> ChannelMsg -> chan * bool;
}.

Section ServerEncrypted.
Context {enc : SshEncoding} {UK : UserKeys} {Q : Mpsc} {QS : MpscSend Q} {F : Flate2}.
Context {W : Type} {HW : PacketSink W}.

Abbreviation Srv H := (@Server Q W H).

(** ** State *)
Record Session (H : Type) : Type := mkSession {
  srv : Srv H;
  state : EncryptedState;                 (* enc.state *)
  session_id : bytes;                     (* enc.session_id *)
  auth_user : bytes;                      (* common.auth_user *)
  auth_attempts : Z;                      (* common.auth_attempts *)
  auth_trace : list AuthEvent;
  client_compression : Compression;       (* of enc *)
  server_compression : Compression;
  compress : Compress;                    (* common.packet_writer.compress() *)
  decompress : Decompress;                (* enc.decompress *)
  wants_reply : bool;                     (* common.wants_reply *)
  open_global_requests : list GlobalRequestResponse;
  answers : list (Z * answer);
  open_replies : list reply;              (* the queue of open_reply_rx *)
  stashed : list handle;                  (* reply handles kept by the application *)
}.
#[global] Arguments mkSession {H} _ _ _ _ _ _ _ _ _ _ _ _ _ _ _.
#[global] Arguments srv {H} _.
#[global] Arguments state {H} _.
#[global] Arguments session_id {H} _.
#[global] Arguments auth_user {H} _.
#[global] Arguments auth_attempts {H} _.
#[global] Arguments auth_trace {H} _.
#[global] Arguments client_compression {H} _.
#[global] Arguments server_compression {H} _.
#[global] Arguments compress {H} _.
#[global] Arguments decompress {H} _.
#[global] Arguments wants_reply {H} _.
#[global] Arguments open_global_requests {H} _.
#[global] Arguments answers {H} _.
#[global] Arguments open_replies {H} _.
#[global] Arguments stashed {H} _.

Section Fields.
Context {H : Type}.
Implicit Types s : Session H.

Definition set_srv (v : Srv H) s : Session H :=
  mkSession v s.(state) s.(session_id) s.(auth_user) s.(auth_attempts) s.(auth_trace)
    s.(client_compression) s.(server_compression) s.(compress) s.(decompress) s.(wants_reply)
    s.(open_global_requests) s.(answers) s.(open_replies) s.(stashed).
Definition set_auth (st : EncryptedState) (user : bytes) (tr : list AuthEvent) s : Session H :=
  mkSession s.(srv) st s.(session_id) user s.(auth_attempts) tr
    s.(client_compression) s.(server_compression) s.(compress) s.(decompress) s.(wants_reply)
    s.(open_global_requests) s.(answers) s.(open_replies) s.(stashed).
Definition set_state (st : EncryptedState) s : Session H := set_auth st s.(auth_user) s.(auth_trace) s.
Definition set_attempts (n : Z) s : Session H :=
  mkSession s.(srv) s.(state) s.(session_id) s.(auth_user) n s.(auth_trace)
    s.(client_compression) s.(server_compression) s.(compress) s.(decompress) s.(wants_reply)
    s.(open_global_requests) s.(answers) s.(open_replies) s.(stashed).
Definition set_streams (c : Compress) (d : Decompress) s : Session H :=
  mkSession s.(srv) s.(state) s.(session_id) s.(auth_user) s.(auth_attempts) s.(auth_trace)
    s.(client_compression) s.(server_compression) c d s.(wants_reply)
    s.(open_global_requests) s.(answers) s.(open_replies) s.(stashed).
Definition set_wants_reply (b : bool) s : Session H :=
  mkSession s.(srv) s.(state) s.(session_id) s.(auth_user) s.(auth_attempts) s.(auth_trace)
    s.(client_compression) s.(server_compression) s.(compress) s.(decompress) b
    s.(open_global_requests) s.(answers) s.(open_replies) s.(stashed).
Definition set_requests (l : list GlobalRequestResponse) (a : list (Z * answer)) s : Session H :=
  mkSession s.(srv) s.(state) s.(session_id) s.(auth_user) s.(auth_attempts) s.(auth_trace)
    s.(client_compression) s.(server_compression) s.(compress) s.(decompress) s.(wants_reply)
    l a s.(open_replies) s.(stashed).
Definition set_opens (v : Srv H) (l : list reply) (k : list handle) s : Session H :=
  mkSession v s.(state) s.(session_id) s.(auth_user) s.(auth_attempts) s.(auth_trace)
    s.(client_compression) s.(server_compression) s.(compress) s.(decompress) s.(wants_reply)
    s.(open_global_requests) s.(answers) l k.
End Fields.

(** ** The application *)
Class RequestHandler (H E : Type) : Type := {
  (** [auth_succeeded] *)
  auth_succeeded : st (Session H) E unit;
  (** [pty_request], [x11_request], [env_request], [shell_request],
      [exec_request], [subsystem_request], [window_change_request], [signal] *)
  channel_request : Z -> ChannelRequest -> st (Session H) E unit;
  agent_request : Z -> st (Session H) E bool;
  channel_open_confirmation : Z -> Z -> Z -> st (Session H) E unit;
  (** the answer, and the port that was chosen *)
  tcpip_forward : bytes -> Z -> st (Session H) E (bool * Z);
  cancel_tcpip_forward : bytes -> Z -> st (Session H) E bool;
  streamlocal_forward : bytes -> st (Session H) E bool;
  cancel_streamlocal_forward : bytes -> st (Session H) E bool;
  (** what the channel-open callbacks do with their reply handle *)
  open_decision : ChannelType.type -> action;
}.

Section Operations.
Context (config : Config) (window_size maximum_packet_size : Z) (auth_methods : MethodSet).
(** [config.auth_rejection_time] and [auth_rejection_time_initial] *)
Context (auth_rejection_time : Z) (auth_rejection_time_initial : option Z).
Context (after_failure : bytes -> bytes).
Context {H E : Type} {HH : @Handler Q W H E} {AH : AuthHandler H E} {RH : RequestHandler H E}.
Implicit Types s : Session H.

Definition up {A} (m : st (Session H) Error.error A) : st (Session H) E A := st_map_err from_error m.
Definition dec {A} (m : Result A) : st (Session H) E A := st_lift (map_err from_error m).

(** Code of [ServerSession]. *)
Definition on_srv {X A} (m : st (Srv H) X A) : st (Session H) X A := fun s =>
  let '(r, v) := m s.(srv) in (r, set_srv v s).

(** Code on [enc.write] and the channels, nothing without [common.encrypted]. *)
Definition on_enc (m : EM unit) : st (Session H) Error.error unit := on_srv (on_encrypted m).

(** Code of [ServerAuth]; the callers have checked that [common.encrypted] is there. *)
Definition on_auth {A} (m : st (AuthCtx H) E A) : st (Session H) E A := fun s =>
  match s.(srv).(encrypted) with
  | None => (Panic, s)
  | Some e =>
      let '(r, c) :=
        m (mkAuthCtx s.(state) e.(enc_write) s.(auth_user) s.(srv).(handler) s.(auth_trace)) in
      let v := set_target s.(srv).(target_window_size) c.(a_handler)
                 (set_encrypted (Some (set_write c.(a_write) e.(write_cursor) e)) s.(srv)) in
      (r, set_auth c.(a_state) c.(a_user) c.(a_trace) (set_srv v s))
  end.

(** Code of [ChannelOpen]. *)
Definition on_open {A} (m : st OpenState Error.error A) : st (Session H) Error.error A := fun s =>
  match s.(srv).(encrypted) with
  | None => (Panic, s)
  | Some e =>
      let x := s.(srv).(inbox) in
      let '(r, o) := m (mkOpenState e s.(open_replies) s.(stashed) x.(PendingInbound.channels)) in
      let x' := mkInbox o.(registered) x.(buffers) x.(inbound) x.(needs_reserve) in
      (r, set_opens (set_inbox x' (set_encrypted (Some o.(enc_)) s.(srv)))
            o.(ChannelOpen.open_replies) o.(ChannelOpen.stashed) s)
  end.

(** ** Messages to the application *)

(** [if let Some(chan) = self.channels.get(&id) { chan.send(m).await }]: whether
    it was sent, [true] when there is no such channel. *)
Definition send_app (id : Z) (m : ChannelMsg) : st (Session H) Error.error bool := fun s =>
  let x := s.(srv).(inbox) in
  match x.(PendingInbound.channels) !! id with
  | None => (Ok true, s)
  | Some p =>
      match x.(buffers) !! p with
      | None => (Ok false, s)
      | Some c =>
          let '(c', sent) := send_wait c m in
          (Ok sent, set_srv (set_inbox (set_buffers (<[p := c']> x.(buffers)) x) s.(srv)) s)
      end
  end.

(** ** Channel requests *)

Definition request_msg (req : ChannelRequest) : ChannelMsg :=
  match req with
  | PtyReq term c r pw ph modes _ => ChannelMsg.RequestPty true term c r pw ph modes
  | X11Req single protocol cookie screen => ChannelMsg.RequestX11 true single protocol cookie screen
  | EnvReq name value => ChannelMsg.SetEnv true name value
  | ShellReq => ChannelMsg.RequestShell true
  | AgentReq => ChannelMsg.AgentForward true
  | ExecReq command => ChannelMsg.Exec true command
  | SubsystemReq name => ChannelMsg.RequestSubsystem true name
  | WindowChangeReq c r pw ph => ChannelMsg.WindowChange c r pw ph
  | SignalReq s => ChannelMsg.Signal s
  end.

(** [request_success], [request_failure]: replies to a global request. *)
Definition request_success : st (Session H) Error.error unit := fun s =>
  if s.(wants_reply) then
    match s.(srv).(encrypted) with
    | Some _ => on_enc (on_write (push_packet (push_byte msg.REQUEST_SUCCESS))) (set_wants_reply false s)
    | None => (Ok tt, s)
    end
  else (Ok tt, s).
Definition request_failure : st (Session H) Error.error unit := fun s =>
  match s.(srv).(encrypted) with
  | Some _ => on_enc (on_write (push_packet (push_byte msg.REQUEST_FAILURE))) (set_wants_reply false s)
  | None => (Ok tt, s)
  end.

Definition note_wants_reply (channel : Z) (b : bool) s : Session H :=
  match s.(srv).(encrypted) with
  | Some e =>
      match e.(Session.channels) !! channel with
      | Some ch =>
          set_srv (set_encrypted
            (Some (put_channel channel (ChannelRequests.set_wants_reply b ch) e)) s.(srv)) s
      | None => s
      end
  | None => s
  end.

Definition established (channel : Z) s : bool := is_established_channel channel s.(srv).

Definition serve_request (channel : Z) (req : ChannelRequest) : st (Session H) E unit :=
  do _ <- up (send_app channel (request_msg req)) ;;
  match req with
  | AgentReq =>
      do response <- agent_request channel ;;
      up (if response : bool then request_success else request_failure)
  | req => channel_request channel req
  end.

Definition recv_channel_request (r : bytes) : st (Session H) E unit :=
  do (channel, req_type, wants_reply, r) <- dec (parse_header r) ;;
  st_mod (note_wants_reply channel (negb (wants_reply =? 0))) ;;;
  fun s =>
    if negb (established channel s) then (Ok tt, s)
    else
      (do req <- dec (parse_request req_type r) ;;
       match req with
       | Some req => serve_request channel req
       | None => up (on_enc (channel_failure channel))
       end) s.

(** ** Global requests *)

Definition answer_global (result : bool) : st (Session H) E unit :=
  up (on_enc (on_write (push_packet
    (push_byte (if result then msg.REQUEST_SUCCESS else msg.REQUEST_FAILURE))))).

(** The [tcpip-forward] arm. *)
Definition recv_tcpip_forward (r : bytes) : st (Session H) E unit :=
  do (address, r) <- dec (enc_err (decode_string r)) ;;
  do (port, r) <- dec (enc_err (decode_u32 r)) ;;
  dec (ensure_end r) ;;;
  do (result, returned_port) <- tcpip_forward address port ;;
  if result : bool then
    fun s =>
      up (on_enc (on_write (push_packet
        (push_byte msg.REQUEST_SUCCESS ;;;
         if s.(wants_reply) && (port =? 0) && negb (returned_port =? 0)
         then enc_w (encode_u32 returned_port) else st_ret tt)))) s
  else answer_global false.

Definition recv_global_request (r : bytes) : st (Session H) E unit :=
  do (req_type, r) <- dec (enc_err (decode_string r)) ;;
  do (want, r) <- dec (enc_err (decode_u8 r)) ;;
  st_mod (set_wants_reply (negb (want =? 0))) ;;;
  if beq req_type (str "tcpip-forward") then recv_tcpip_forward r
  else if beq req_type (str "cancel-tcpip-forward") then
    do (address, r) <- dec (enc_err (decode_string r)) ;;
    do (port, r) <- dec (enc_err (decode_u32 r)) ;;
    dec (ensure_end r) ;;;
    do result <- cancel_tcpip_forward address port ;; answer_global result
  else if beq req_type (str "streamlocal-forward@openssh.com") then
    do (path, r) <- dec (enc_err (decode_string r)) ;;
    dec (ensure_end r) ;;;
    do result <- streamlocal_forward path ;; answer_global result
  else if beq req_type (str "cancel-streamlocal-forward@openssh.com") then
    do (path, r) <- dec (enc_err (decode_string r)) ;;
    dec (ensure_end r) ;;;
    do result <- cancel_streamlocal_forward path ;; answer_global result
  else answer_global false.

(** *** Replies to the session's own *)

(** [self.open_global_requests.pop_front()]. *)
Definition pop_request : st (Session H) E (option GlobalRequestResponse) := fun s =>
  match s.(open_global_requests) with
  | [] => (Ok None, s)
  | g :: rest => (Ok (Some g), set_requests rest s.(answers) s)
  end.

Definition send_answer (reply : Z) (a : answer) : st (Session H) E unit :=
  st_mod (fun s => set_requests s.(open_global_requests) (s.(answers) ++ [(reply, a)]) s).

(** The port of a successful [tcpip-forward] request. *)
Definition forwarded_port (r : bytes) : option Z :=
  match r with
  | [] => Some 0
  | _ =>
      match decode_u32 r with
      | Ok (port, r') => match ensure_end r' with Ok _ => Some port | _ => None end
      | _ => None
      end
  end.

Definition recv_request_success (r : bytes) : st (Session H) E unit :=
  do g <- pop_request ;;
  match g with
  | Some Keepalive => dec (ensure_end r)
  | Some (Ping reply) => dec (ensure_end r) ;;; send_answer reply GotPing
  | Some (TcpIpForward reply) => send_answer reply (GotPort (forwarded_port r))
  | Some (CancelTcpIpForward reply) => dec (ensure_end r) ;;; send_answer reply (GotBool true)
  | _ => st_ret tt
  end.

Definition recv_request_failure (r : bytes) : st (Session H) E unit :=
  dec (ensure_end r) ;;;
  do g <- pop_request ;;
  match g with
  | Some (Ping reply) => send_answer reply GotPing
  | Some (TcpIpForward reply) => send_answer reply (GotPort None)
  | Some (CancelTcpIpForward reply) => send_answer reply (GotBool false)
  | _ => st_ret tt
  end.

(** ** Channels that this side opened *)

Definition recv_open_confirmation (r : bytes) : st (Session H) E unit :=
  do (m, r) <- dec (enc_err (ChannelOpenConfirmation_decode r)) ;;
  dec (ensure_end r) ;;;
  let local_id := m.(coc_recipient_channel) in
  (fun s =>
     match s.(srv).(encrypted) with
     | Some e =>
         match e.(Session.channels) !! local_id with
         | Some parameters =>
             (Ok tt, set_srv (set_encrypted
                (Some (put_channel local_id (confirm m parameters) e)) s.(srv)) s)
         | None => (Err (from_error Error.Inconsistent), s)
         end
     | None => (Err (from_error Error.Inconsistent), s)
     end) ;;;
  do _ <- up (send_app local_id
    (ChannelMsg.Open local_id m.(coc_maximum_packet_size) m.(coc_initial_window_size))) ;;
  channel_open_confirmation local_id m.(coc_maximum_packet_size) m.(coc_initial_window_size).

Definition recv_open_failure (r : bytes) : st (Session H) E unit :=
  do (channel, r) <- dec (enc_err (decode_u32 r)) ;;
  do (code, r) <- dec (enc_err (decode_u32 r)) ;;
  let reason := default ChannelOpenFailure.AdministrativelyProhibited (ChannelOpenFailure.from_u32 code) in
  do (_, r) <- dec (enc_err (decode_string r)) ;;
  do (_, r) <- dec (enc_err (decode_string r)) ;;
  dec (ensure_end r) ;;;
  up (on_enc (remove_channel channel)) ;;;
  do sent <- up (send_app channel (ChannelMsg.OpenFailure reason)) ;;
  st_mod (fun s => set_srv (set_inbox (forget_channel channel s.(srv).(inbox)) s.(srv)) s) ;;;
  if sent : bool then st_ret tt else st_err (from_error Error.SendError).

(** ** The dispatch *)

(** [new_sender] is the sender of the buffer made for a [CHANNEL_OPEN]. *)
Definition server_read_authenticated (new_sender m : Z) (r : bytes) : st (Session H) E unit :=
  if m =? msg.CHANNEL_OPEN then
    up (on_open (server_handle_channel_open window_size maximum_packet_size open_decision new_sender r))
  else if m =? msg.CHANNEL_CLOSE then on_srv (recv_channel_close config r)
  else if m =? msg.CHANNEL_EOF then on_srv (recv_channel_eof config r)
  else if (m =? msg.CHANNEL_EXTENDED_DATA) || (m =? msg.CHANNEL_DATA) then
    on_srv (recv_channel_data config m r)
  else if m =? msg.CHANNEL_WINDOW_ADJUST then on_srv (recv_window_adjust r)
  else if m =? msg.CHANNEL_OPEN_CONFIRMATION then recv_open_confirmation r
  else if m =? msg.CHANNEL_REQUEST then recv_channel_request r
  else if m =? msg.GLOBAL_REQUEST then recv_global_request r
  else if m =? msg.CHANNEL_OPEN_FAILURE then recv_open_failure r
  else if m =? msg.REQUEST_SUCCESS then recv_request_success r
  else if m =? msg.REQUEST_FAILURE then recv_request_failure r
  else st_ret tt.

(** The deferred compression of what the client sends. *)
Definition start_decompress s : Session H :=
  if is_deferred s.(client_compression)
  then set_streams s.(compress) (init_decompress s.(client_compression) s.(decompress)) s
  else s.
Definition start_compress s : Session H :=
  if is_deferred s.(server_compression)
  then set_streams (init_compress s.(server_compression) s.(compress)) s.(decompress) s
  else s.

Definition recv_service_request (r : bytes) : st (Session H) E unit :=
  do (request, r) <- dec (enc_err (decode_string r)) ;;
  dec (ensure_end r) ;;;
  if beq request (str "ssh-userauth") then
    do auth_request <- on_auth (server_accept_service auth_methods) ;;
    st_mod (set_state (WaitingAuthRequest auth_request))
  else st_ret tt.

Definition recv_auth_request (until initial_until now : Z) (buf r : bytes) : st (Session H) E unit :=
  (fun s => on_auth (server_read_auth_request s.(session_id) until initial_until now buf r) s) ;;;
  st_mod (fun s => set_attempts (s.(auth_attempts) + 1) s) ;;;
  fun s =>
    match s.(state) with
    | InitCompression => (st_mod start_decompress ;;; auth_succeeded) s
    | _ => (Ok tt, s)
    end.

Definition recv_info_response (until : Z) (r : bytes) : st (Session H) E unit :=
  do resp <- (fun s => on_auth (read_userauth_info_response after_failure until s.(auth_user) r) s) ;;
  if resp : bool then
    st_mod (set_state InitCompression) ;;; st_mod start_decompress ;;; auth_succeeded
  else st_ret tt.

(** [now] is the time at which the packet arrives. *)
Definition process_packet (now new_sender : Z) (buf : bytes) : st (Session H) E unit := fun s =>
  let rejection_wait_until := now + auth_rejection_time in
  let initial_none_rejection_wait_until :=
    if s.(auth_attempts) =? 0 then now + default auth_rejection_time auth_rejection_time_initial
    else rejection_wait_until in
  match s.(srv).(encrypted) with
  | None => (Err (from_error Error.Inconsistent), s)
  | Some _ =>
      match s.(state), buf with
      | WaitingAuthServiceRequest _ _, m :: r =>
          if m =? msg.SERVICE_REQUEST then recv_service_request r s else (Ok tt, s)
      | WaitingAuthRequest _, m :: r =>
          if m =? msg.USERAUTH_REQUEST then
            recv_auth_request rejection_wait_until initial_none_rejection_wait_until now buf r s
          else if m =? msg.USERAUTH_INFO_RESPONSE then recv_info_response rejection_wait_until r s
          else (Ok tt, s)
      | InitCompression, m :: r =>
          (st_mod start_compress ;;; st_mod (set_state Authenticated) ;;;
           server_read_authenticated new_sender m r) s
      | Authenticated, m :: r => server_read_authenticated new_sender m r s
      | _, [] => (Ok tt, s)
      end
  end.
End Operations.
End ServerEncrypted.

(** ** What the packets of an authenticated client respect *)
Section Frames.
Context {enc : SshEncoding} {UK : UserKeys} {Q : Mpsc} {QS : MpscSend Q} {F : Flate2}.
Context {W : Type} {HW : PacketSink W} {H E : Type}.
Context {HH : @Handler Q W H E} {AH : AuthHandler H E} {RH : @RequestHandler UK Q F W H E}.
Implicit Types s : @Session UK Q F W H.
Abbreviation Sess := (@Session UK Q F W H).

(** A relation that allows the changes that requests make, given one for the
    code of [ServerSession]. *)
Class SessionFrame (R : Sess -> Sess -> Prop) (RS : @Server Q W H -> @Server Q W H -> Prop) : Prop := {
  session_preorder :: PreOrder R;
  session_server :: ServerFrame RS;
  session_srv v s : RS s.(srv) v -> R s (set_srv v s);
  session_opens v l k s : RS s.(srv) v -> R s (set_opens v l k s);
  session_wants b s : R s (set_wants_reply b s);
  session_requests l a s : R s (set_requests l a s);
  session_streams c d s : R s (set_streams c d s);
}.

Class RequestHandlerFrame (R : Sess -> Sess -> Prop) : Prop := {
  auth_succeeded_frames : framed R auth_succeeded;
  channel_request_frames c req : framed R (channel_request c req);
  agent_request_frames c : framed R (agent_request c);
  open_confirmation_frames c p w : framed R (channel_open_confirmation c p w);
  tcpip_forward_frames a p : framed R (tcpip_forward a p);
  cancel_tcpip_forward_frames a p : framed R (cancel_tcpip_forward a p);
  streamlocal_forward_frames p : framed R (streamlocal_forward p);
  cancel_streamlocal_forward_frames p : framed R (cancel_streamlocal_forward p);
}.

Lemma handler_frame_mono (R R' : Sess -> Sess -> Prop) :
  (forall s s', R s s' -> R' s s') -> RequestHandlerFrame R -> RequestHandlerFrame R'.
Proof. intros Hi [H1 H2 H3 H4 H5 H6 H7 H8]. unfold framed in *. split; unfold framed; intros; apply Hi; auto. Qed.

Section Packets.
Context (R : Sess -> Sess -> Prop) (RS : @Server Q W H -> @Server Q W H -> Prop).
Context `{!SessionFrame R RS} `{!HandlerFrame RS} `{!RequestHandlerFrame R}.
Abbreviation frames := (framed R).

Lemma frames_on_srv {X A} (m : st (@Server Q W H) X A) : framed RS m -> frames (on_srv m).
Proof.
  intros Hm s. unfold on_srv. specialize (Hm (srv s)). destruct (m (srv s)). by apply session_srv.
Qed.

Lemma frames_on_enc m : frames (on_enc m : st Sess _ _).
Proof. apply frames_on_srv, on_encrypted_framed. apply _. Qed.

Lemma frames_on_open {A} (m : st OpenState Error.error A) : frames (on_open m).
Proof.
  intros s. unfold on_open. destruct (encrypted _) as [e|] eqn:He; [|done]. destruct (m _) as [r o].
  apply session_opens. etransitivity; [|apply frame_inbox]. by eapply frame_encrypted.
Qed.

Lemma frames_send_app id m : frames (send_app id m).
Proof. intros s. unfold send_app. repeat case_match; try done. cbn. apply session_srv, frame_inbox. Qed.

Lemma frames_up {A} (m : st Sess Error.error A) : frames m -> frames (up m).
Proof. apply framed_map_err. Qed.

Lemma frames_dec {A} (r : Result A) : frames (dec r).
Proof. by intros s. Qed.

#[local] Hint Resolve auth_succeeded_frames channel_request_frames agent_request_frames
  open_confirmation_frames tcpip_forward_frames cancel_tcpip_forward_frames
  streamlocal_forward_frames cancel_streamlocal_forward_frames : framed.
#[local] Hint Resolve frames_up frames_dec frames_on_enc frames_on_open frames_send_app : framed.

(** Follow the structure of the code. *)
Ltac frames_step :=
  match goal with
  | |- frames (let '(_, _) := ?x in _) => destruct x
  | |- frames (if ?b then _ else _) => destruct b
  | |- frames (match ?x with _ => _ end) => destruct x
  | |- frames (st_bind _ _) => apply framed_bind; [apply _| |intros]
  | |- frames (up _) => apply frames_up
  | |- frames (dec _) => apply frames_dec
  | |- frames (st_ret _) => apply framed_ret; apply _
  | |- frames (st_err _) => apply framed_err; apply _
  | |- frames _ => solve [auto with framed]
  end.

Lemma frames_note_wants_reply c b : frames (st_mod (note_wants_reply c b) : st Sess E unit).
Proof.
  apply framed_mod. intros s. unfold note_wants_reply. repeat case_match; try done.
  apply session_srv. by eapply frame_encrypted.
Qed.

Lemma frames_request_reply : frames request_success /\ frames request_failure.
Proof.
  split; intros s; unfold request_success, request_failure; repeat case_match; try done;
    (etransitivity; [apply session_wants|apply frames_on_enc]).
Qed.

Lemma frames_serve_request c req : frames (serve_request c req).
Proof.
  unfold serve_request. destruct frames_request_reply. apply framed_bind; [apply _|by frames_step; auto with framed|].
  intros a. destruct req; repeat frames_step.
Qed.

Lemma frames_channel_request r : frames (recv_channel_request r).
Proof.
  unfold recv_channel_request. apply framed_bind; [apply _|apply frames_dec|].
  intros [[[c ty] want] r']. apply framed_bind; [apply _|apply frames_note_wants_reply|]. intros _.
  apply (framed_if R (fun s => negb (established c s)) (st_ret tt)); [frames_step|].
  apply framed_bind; [apply _|apply frames_dec|]. intros [req|]; [apply frames_serve_request|].
  repeat frames_step.
Qed.

Lemma frames_answer b : frames (answer_global b).
Proof. unfold answer_global. repeat frames_step. Qed.

Lemma frames_tcpip_forward r : frames (recv_tcpip_forward r).
Proof.
  unfold recv_tcpip_forward. repeat first [apply frames_answer|frames_step].
  apply (framed_read R (fun s => wants_reply s) (fun w => up (on_enc (on_write (push_packet
    (push_byte msg.REQUEST_SUCCESS ;;;
     if w && (_ =? 0) && negb (_ =? 0) then enc_w (encode_u32 _) else st_ret tt)))))).
  intros w. repeat frames_step.
Qed.

Lemma frames_global_request r : frames (recv_global_request r).
Proof.
  unfold recv_global_request.
  repeat first [apply frames_tcpip_forward|apply frames_answer|apply framed_mod; intros; apply session_wants|frames_step].
Qed.

Lemma frames_pop : frames (pop_request : st Sess E _).
Proof. intros s. unfold pop_request. destruct (open_global_requests s); [done|]. apply session_requests. Qed.

Lemma frames_request_answers r : frames (recv_request_success r) /\ frames (recv_request_failure r).
Proof.
  split; unfold recv_request_success, recv_request_failure, send_answer;
    repeat first [apply frames_pop | apply framed_mod; intros; apply session_requests | frames_step].
Qed.

Lemma frames_open_confirmation r : frames (recv_open_confirmation r).
Proof.
  unfold recv_open_confirmation. repeat frames_step. intros s. repeat case_match; try done.
  apply session_srv. by eapply frame_encrypted.
Qed.

Lemma frames_open_failure r : frames (recv_open_failure r).
Proof.
  unfold recv_open_failure. repeat first [apply framed_mod; intros; apply session_srv, frame_inbox|frames_step].
Qed.

Lemma frames_authenticated config ws mp p m r : frames (server_read_authenticated config ws mp p m r).
Proof.
  destruct (frames_request_answers r). unfold server_read_authenticated.
  repeat (destruct (_ : bool); [first [assumption|apply frames_channel_request|apply frames_global_request
    |apply frames_open_confirmation|apply frames_open_failure|apply frames_up, frames_on_open
    |apply frames_on_srv; first [apply recv_close_framed|apply recv_eof_framed|apply recv_data_framed|apply recv_adjust_framed]; apply _]|]).
  frames_step.
Qed.

Lemma frames_start_decompress : frames (st_mod start_decompress : st Sess E unit).
Proof. apply framed_mod. intros s. unfold start_decompress. case_match; [apply session_streams|done]. Qed.

Lemma frames_start_compress : frames (st_mod start_compress : st Sess E unit).
Proof. apply framed_mod. intros s. unfold start_compress. case_match; [apply session_streams|done]. Qed.

Lemma frames_admit : frames (st_mod start_decompress ;;; auth_succeeded).
Proof. apply framed_bind; [apply _|apply frames_start_decompress|]. intros. apply auth_succeeded_frames. Qed.
End Packets.
End Frames.

(** ** What does not touch the authentication *)
Section Sound.
Context {enc : SshEncoding} {UK : UserKeys} {Q : Mpsc} {QS : MpscSend Q} {F : Flate2}.
Context {W : Type} {HW : PacketSink W} {H E : Type}.
Context {HH : @Handler Q W H E} {AH : AuthHandler H E} {RH : @RequestHandler UK Q F W H E}.
Implicit Types s : @Session UK Q F W H.
Abbreviation Sess := (@Session UK Q F W H).

Definition same_auth s s' : Prop :=
  s'.(state) = s.(state) /\ s'.(session_id) = s.(session_id) /\ s'.(auth_user) = s.(auth_user) /\
  s'.(auth_trace) = s.(auth_trace).

(** Of the rest of the session nothing is asked. *)
Definition anything (_ _ : @Server Q W H) : Prop := True.

#[export] Instance same_auth_frame : SessionFrame same_auth anything.
Proof.
  split; try by repeat split. split; [by repeat split|].
  intros s1 s2 s3 (? & ? & ? & ?) (? & ? & ? & ?). repeat split; congruence.
Qed.
#[export] Instance anything_handler : HandlerFrame anything.
Proof. by split. Qed.

(** The application's callbacks have no access to the private fields of the session. *)

Context {RL : RequestHandlerFrame same_auth}.
Abbreviation frames := (framed same_auth).

Lemma frames_result {X A} (m : st Sess X A) s r s' : frames m -> m s = (r, s') -> same_auth s s'.
Proof. apply framed_result. Qed.

Lemma admit_frames : frames (st_mod start_decompress ;;; auth_succeeded).
Proof. apply (frames_admit same_auth anything). Qed.
Lemma authenticated_frames config ws mp p m r : frames (server_read_authenticated config ws mp p m r).
Proof. apply (frames_authenticated same_auth anything). Qed.

(** ** Nobody is let in without the application's consent *)

Definition abs s : AuthCtx H := mkAuthCtx s.(state) [] s.(auth_user) s.(srv).(handler) s.(auth_trace).

Definition sound s : Prop := auth_inv s.(session_id) (abs s).

Lemma auth_inv_ext sid (c c' : AuthCtx H) :
  c'.(a_state) = c.(a_state) -> c'.(a_user) = c.(a_user) -> c'.(a_trace) = c.(a_trace) ->
  auth_inv sid c -> auth_inv sid c'.
Proof. unfold auth_inv. by intros -> -> ->. Qed.

Lemma sound_same_auth s s' : same_auth s s' -> sound s -> sound s'.
Proof. intros (H1 & H2 & H3 & H4). unfold sound. rewrite H2. by apply auth_inv_ext. Qed.

Lemma on_auth_ok {A} (m : st (AuthCtx H) E A) s a s' : on_auth m s = (Ok a, s') ->
  exists c c', m c = (Ok a, c') /\
    c.(a_state) = s.(state) /\ c.(a_user) = s.(auth_user) /\ c.(a_trace) = s.(auth_trace) /\
    c'.(a_state) = s'.(state) /\ c'.(a_user) = s'.(auth_user) /\ c'.(a_trace) = s'.(auth_trace) /\
    s'.(session_id) = s.(session_id).
Proof.
  unfold on_auth. destruct (encrypted (srv s)) as [e|]; [|done].
  destruct (m _) as [r c'] eqn:Hm. intros [= -> <-]. eexists _, c'. by split_and!.
Qed.

Lemma sound_auth_request until iuntil now r s x s' : sound s ->
  recv_auth_request until iuntil now (msg.USERAUTH_REQUEST :: r) r s = (Ok x, s') -> sound s'.
Proof.
  intros Hs Hr. unfold recv_auth_request in Hr.
  apply st_bind_ok in Hr as (a & s1 & H1 & Hr). apply st_bind_ok in Hr as (b & s2 & H2 & Hr).
  apply on_auth_ok in H1 as (c & c' & Hm & Hst & Hu & Ht & Hst' & Hu' & Ht' & Hid).
  assert (Hs1 : sound s1).
  { unfold sound. rewrite Hid. apply server_read_auth_request_inv in Hm; [|done|].
    - by eapply auth_inv_ext; [..|exact Hm].
    - by eapply auth_inv_ext; [..|exact Hs]. }
  injection H2 as _ <-. unfold set_attempts in Hr at 1. cbn [state] in Hr.
  assert (Hs2 : sound (set_attempts (auth_attempts s1 + 1) s1)) by exact Hs1.
  destruct (state s1); try by injection Hr as _ <-.
  eapply sound_same_auth; [|exact Hs2]. eapply frames_result; [|exact Hr]. apply admit_frames.
Qed.

Lemma sound_info_response af until r s x s' : sound s ->
  recv_info_response af until r s = (Ok x, s') -> sound s'.
Proof.
  intros Hs Hr. unfold recv_info_response in Hr. apply st_bind_ok in Hr as (b & s1 & H1 & Hr).
  apply on_auth_ok in H1 as (c & c' & Hm & Hst & Hu & Ht & Hst' & Hu' & Ht' & Hid).
  rewrite <- Hu in Hm. eapply (read_info_inv (session_id s)) in Hm; [|by eapply auth_inv_ext; [..|exact Hs]].
  destruct b.
  - apply st_bind_ok in Hr as (? & s2 & H2 & Hr). injection H2 as _ <-.
    eapply sound_same_auth.
    + eapply frames_result; [|exact Hr]. apply admit_frames.
    + unfold sound, auth_inv. cbn. by rewrite Hid, <- Hu', <- Ht'.
  - apply st_ret_ok in Hr as [_ ->]. unfold sound. rewrite Hid. by eapply auth_inv_ext; [..|exact Hm].
Qed.

Lemma accept_service_trace m (c : AuthCtx H) a c' : server_accept_service m c = (Ok a, c') ->
  a = AuthRequest_server m /\ c'.(a_user) = c.(a_user) /\ c'.(a_trace) = c.(a_trace).
Proof.
  unfold server_accept_service. intros Hr. apply st_bind_ok in Hr as (banner & c1 & H1 & Hr).
  destruct (authentication_banner _) as [r h]. injection H1 as _ <-.
  inv_st Hr. apply stage_ok in E0 as [w ->]. split; [done|]. cbn.
  destruct banner; [apply stage_ok in E1 as [w' ->]|apply st_ret_ok in E1 as [_ ->]]; cbn; by rewrite ?app_nil_r.
Qed.

Lemma sound_service_request methods r s x s' : sound s ->
  (exists sent accepted, s.(state) = WaitingAuthServiceRequest sent accepted) ->
  recv_service_request methods r s = (Ok x, s') -> sound s'.
Proof.
  intros Hs (sent & accepted & Hst) Hr. unfold recv_service_request in Hr. inv_st Hr.
  destruct (beq _ _); [|by apply st_ret_ok in Hr as [_ ->]].
  apply st_bind_ok in Hr as (a1 & s1 & H1 & Hr). injection Hr as _ <-.
  apply on_auth_ok in H1 as (c & c' & Hm & _ & Hu & Ht & _ & Hu' & Ht' & Hid).
  apply accept_service_trace in Hm as (-> & Hu'' & Ht'').
  unfold sound, auth_inv in Hs. cbn in Hs. rewrite Hst in Hs. destruct Hs as [Hun Hno].
  unfold sound, auth_inv, user_known. cbn. rewrite <- Ht', Ht'', Ht, <- Hu', Hu'', Hu. by auto.
Qed.

Context (config : Config) (window_size maximum_packet_size : Z) (auth_methods : MethodSet).
Context (auth_rejection_time : Z) (auth_rejection_time_initial : option Z) (after_failure : bytes -> bytes).

Abbreviation process := (process_packet config window_size maximum_packet_size auth_methods
  auth_rejection_time auth_rejection_time_initial after_failure).

Lemma sound_process now p buf s s' : sound s -> process now p buf s = (Ok tt, s') -> sound s'.
Proof.
  intros Hs Hr. unfold process_packet in Hr. destruct (encrypted (srv s)); [|done].
  destruct (state s) eqn:Hst, buf as [|m r]; try by injection Hr as <-.
  - destruct (m =? _); [|by injection Hr as <-]. eapply sound_service_request; [done|by eauto|exact Hr].
  - destruct (m =? msg.USERAUTH_REQUEST) eqn:Hm.
    { apply Z.eqb_eq in Hm. subst m. by eapply sound_auth_request. }
    destruct (m =? msg.USERAUTH_INFO_RESPONSE); [|by injection Hr as <-]. by eapply sound_info_response.
  - apply st_bind_ok in Hr as (? & s1 & H1 & Hr). apply st_bind_ok in Hr as (? & s2 & H2 & Hr).
    injection H2 as _ <-. pose proof (frames_result _ _ _ _ (frames_start_compress same_auth anything) H1) as Hf.
    eapply sound_same_auth; [by eapply frames_result; [apply authenticated_frames|exact Hr]|].
    destruct Hf as (Hf1 & Hf2 & Hf3 & Hf4).
    unfold sound, auth_inv in *. cbn in *. rewrite Hst in Hs. by rewrite Hf2, Hf3, Hf4.
  - eapply sound_same_auth; [|exact Hs]. by eapply frames_result; [apply authenticated_frames|exact Hr].
Qed.

(** A session from the end of the key exchange on: packets, and whatever else the
    run loop does, which is not to touch the authentication. *)
Inductive session_reach : Sess -> Prop :=
| reach_start s sent accepted :
    s.(state) = WaitingAuthServiceRequest sent accepted -> s.(auth_user) = [] -> s.(auth_trace) = [] ->
    session_reach s
| reach_packet s now p buf s' :
    session_reach s -> process now p buf s = (Ok tt, s') -> session_reach s'
| reach_other s s' : session_reach s -> same_auth s s' -> session_reach s'.

(** The authentication of the server is sound.  Whatever packets the client
    sends, the session counts as authenticated only after a callback of the
    application accepted: [auth_none] (after which the session may name nobody,
    as the code does not remember the user there), or, for the user that the
    session then names, [auth_password], [auth_keyboard_interactive], or
    [auth_publickey] / [auth_openssh_certificate] for a key that the application
    had also accepted when it was offered for that user, by a packet that names
    the user and the key and carries a signature, verified with the key, of the
    session id and the packet (for a certificate: one whose own signature
    verified and that was in its validity period).  Before that no callback had
    accepted anyone, and nothing is asked of the application after it. *)
Theorem server_auth_sound s : session_reach s ->
  match s.(state) with
  | InitCompression | Authenticated => authenticated s.(session_id) s.(auth_user) s.(auth_trace)
  | _ => ungranted s.(auth_trace)
  end.
Proof.
  intros Hr. enough (Hs : sound s).
  { unfold sound, auth_inv in Hs. cbn in Hs. destruct (state s); [apply Hs|apply Hs|exact Hs|exact Hs]. }
  induction Hr as [s sent accepted Hs Hu Ht|s now p buf s' _ IH Hp|s s' _ IH Hs].
  - unfold sound, auth_inv. cbn. rewrite Hs, Hu, Ht. by split; [constructor|].
  - by eapply sound_process.
  - by eapply sound_same_auth.
Qed.

(** ** Nothing but authentication before it *)

(** The channels, what was delivered to the application, and the requests. *)
Definition same_channels s s' : Prop :=
  s'.(srv).(inbox) = s.(srv).(inbox) /\
  Session.channels <$> s'.(srv).(encrypted) = Session.channels <$> s.(srv).(encrypted) /\
  s'.(srv).(arrived) = s.(srv).(arrived) /\ s'.(srv).(calls) = s.(srv).(calls) /\
  s'.(srv).(outbound_acks) = s.(srv).(outbound_acks) /\ s'.(srv).(resolved) = s.(srv).(resolved) /\
  s'.(open_global_requests) = s.(open_global_requests) /\ s'.(answers) = s.(answers) /\
  s'.(open_replies) = s.(open_replies) /\ s'.(stashed) = s.(stashed) /\
  s'.(wants_reply) = s.(wants_reply) /\ s'.(compress) = s.(compress).

Lemma on_auth_channels {A} (m : st (AuthCtx H) E A) s r s' : on_auth m s = (r, s') -> same_channels s s'.
Proof.
  unfold on_auth. destruct (encrypted (srv s)) as [e|] eqn:He; [|by intros [= _ <-]].
  destruct (m _) as [r' c']. intros [= _ <-]. unfold same_channels. cbn. by rewrite He.
Qed.

(** C16. A packet received before the client is authenticated, and that does not
    complete its authentication, changes nothing of the channels: none is opened,
    closed or written to, nothing is delivered to the application and no channel
    callback or global request is made. *)
Theorem unauthenticated_inert now p buf s s' :
  process now p buf s = (Ok tt, s') ->
  (s.(state) <> InitCompression /\ s.(state) <> Authenticated) -> s'.(state) <> InitCompression ->
  same_channels s s'.
Proof.
  intros Hr [Hs1 Hs2] Hs'. unfold process_packet in Hr. destruct (encrypted (srv s)); [|done].
  destruct (state s) eqn:Hst, buf as [|m r]; try done; try by injection Hr as <-.
  - destruct (m =? _); [|by injection Hr as <-]. unfold recv_service_request in Hr. inv_st Hr.
    destruct (beq _ _); [|by apply st_ret_ok in Hr as [_ ->]].
    apply st_bind_ok in Hr as (a1 & s1 & H1 & Hr). injection Hr as <-.
    by apply on_auth_channels in H1.
  - destruct (m =? msg.USERAUTH_REQUEST).
    { unfold recv_auth_request in Hr. apply st_bind_ok in Hr as (? & s1 & H1 & Hr).
      apply st_bind_ok in Hr as (? & s2 & H2 & Hr). injection H2 as _ <-.
      apply on_auth_channels in H1. cbn [state set_attempts] in Hr.
      destruct (state s1) eqn:Hs; try (injection Hr as <-; exact H1).
      exfalso. apply Hs'. eapply frames_result in Hr; [destruct Hr as [-> _]; exact Hs|].
      apply admit_frames. }
    destruct (m =? msg.USERAUTH_INFO_RESPONSE); [|by injection Hr as <-].
    unfold recv_info_response in Hr. apply st_bind_ok in Hr as (b & s1 & H1 & Hr).
    apply on_auth_channels in H1. destruct b; [|apply st_ret_ok in Hr as [_ ->]; exact H1].
    exfalso. apply Hs'. apply st_bind_ok in Hr as (? & s2 & H2 & Hr). injection H2 as _ <-.
    eapply frames_result in Hr; [destruct Hr as [-> _]; done|].
    apply admit_frames.
Qed.
End Sound.

(** ** Requests and replies *)
Section Requests.
Context {enc : SshEncoding} `{!SshEncodingLaws enc} {UK : UserKeys} {Q : Mpsc} {QS : MpscSend Q} {F : Flate2}.
Context {W : Type} {HW : PacketSink W} {H E : Type}.
Context {HH : @Handler Q W H E} {AH : AuthHandler H E} {RH : @RequestHandler UK Q F W H E}.
Implicit Types s : @Session UK Q F W H.
Abbreviation Sess := (@Session UK Q F W H).

(** *** Replies to the session's own global requests *)

(** A reply of the peer: success with a payload, or failure. *)
Abbreviation peer_reply := (option bytes).

Definition recv_reply (p : peer_reply) : st Sess E unit :=
  match p with Some r => recv_request_success r | None => recv_request_failure [] end.

Fixpoint recv_replies (ps : list peer_reply) : st Sess E unit :=
  match ps with [] => st_ret tt | p :: rest => recv_reply p ;;; recv_replies rest end.

(** What the waiter of a request learns from a reply. *)
Definition learns (g : GlobalRequestResponse) (p : peer_reply) : list (Z * answer) :=
  match g, p with
  | Ping reply, _ => [(reply, GotPing)]
  | TcpIpForward reply, Some r => [(reply, GotPort (forwarded_port r))]
  | TcpIpForward reply, None => [(reply, GotPort None)]
  | CancelTcpIpForward reply, p => [(reply, GotBool (bool_decide (is_Some p)))]
  | _, _ => []
  end.

(** A reply that the request can have: only the success of [tcpip-forward] has a
    payload. *)
Definition fits (g : GlobalRequestResponse) (p : peer_reply) : Prop :=
  match g, p with
  | TcpIpForward _, _ | _, None => True
  | _, Some r => r = []
  end.

(** Replies to global requests reach those who asked, in order: after any
    number of replies, as many of the oldest requests are settled, each with the
    reply at its position (the port of a forwarding, 0 when the reply names none,
    nothing for an undecodable port); replies beyond the open requests are
    ignored. *)
Theorem global_replies_in_order ps : forall s,
  Forall (fun '(g, p) => fits g p) (zip s.(open_global_requests) ps) ->
  recv_replies ps s =
    (Ok tt, set_requests (drop (length ps) s.(open_global_requests))
              (s.(answers) ++ concat (zip_with learns s.(open_global_requests) ps)) s).
Proof.
  induction ps as [|p ps IH]; intros s Hf; cbn [recv_replies length].
  { destruct s as []; unfold st_ret, set_requests; cbn. rewrite zip_with_nil_r. by rewrite app_nil_r. }
  assert (Hone : recv_reply p s =
    (Ok tt, set_requests (drop 1 s.(open_global_requests))
       (s.(answers) ++ concat (zip_with learns (take 1 s.(open_global_requests)) [p])) s)).
  { destruct s as [? ? ? ? ? ? ? ? ? ? ? gs]. cbn in *. destruct gs as [|g gs].
    - destruct p; cbn; by rewrite app_nil_r.
    - cbn in Hf. apply Forall_cons in Hf as [Hg _].
      destruct p as [r|], g; cbn in Hg |- *; subst; cbn; rewrite ?app_nil_r; done. }
  unfold st_bind. rewrite Hone, IH; cbn [set_requests open_global_requests answers].
  - destruct (open_global_requests s) as [|g gs]; cbn; [by rewrite drop_nil, !app_nil_r|].
    rewrite !drop_0, zip_with_nil_r. cbn. by rewrite app_nil_r, <- app_assoc.
  - destruct (open_global_requests s) as [|g gs]; cbn in *; [constructor|].
    apply Forall_cons in Hf as [_ Hf]. by rewrite drop_0.
Qed.

(** *** Channel requests, from one end to the other *)

Class MpscSendLaws : Prop := {
  send_wait_sent c m c' : send_wait c m = (c', true) -> accepted c' = accepted c ++ [m];
}.
Context {QSL : MpscSendLaws}.

(** The session after the request was noted on the channel [ce], one of those of
    [se], and passed to the application: nothing else has changed. *)
Definition requested (channel p : Z) (c : chan) (se : Encrypted) (ce : ChannelParams) (want : bool) s : Sess :=
  let noted := put_channel channel (ChannelRequests.set_wants_reply want ce) se in
  let x := s.(srv).(inbox) in
  set_srv (set_inbox (set_buffers (<[p := c]> x.(buffers)) x) (set_encrypted (Some noted) s.(srv))) s.

(** C23. A request that the client makes on a channel reaches the application of
    the server as the same request, whichever of the nine it is and whether or
    not a reply is wanted.  For a channel that the client has, that is established at
    the server and has a receiver there, the packet that the client stages makes the server note
    whether a reply is wanted, append the request to the channel's messages -
    if the application still receives them - and call the handler with it, on the channel of the
    packet, and nothing else.  Window changes and signals never want a reply; the
    message appended always says that one is wanted.  After the handler for agent forwarding the server itself answers,
    with the reply to a global request (see [agent_refused_globally]). *)
Theorem channel_request_served id ch want req e (ce : ChannelParams) se s p c c' sent :
  request_ok req ->
  e.(Session.channels) !! id = Some ch -> is_u32 ch.(recipient_channel) ->
  s.(srv).(encrypted) = Some se -> se.(Session.channels) !! ch.(recipient_channel) = Some ce ->
  ce.(confirmed) = true ->
  s.(srv).(inbox).(PendingInbound.channels) !! ch.(recipient_channel) = Some p ->
  s.(srv).(inbox).(buffers) !! p = Some c -> send_wait c (request_msg req) = (c', sent) ->
  exists payload,
    send_request id want req e =
      (Ok tt, set_write (e.(enc_write) ++ frame (msg.CHANNEL_REQUEST :: payload)) e.(write_cursor) e) /\
    (sent = true -> accepted c' = accepted c ++ [request_msg req]) /\
    recv_channel_request payload s =
      match req with
      | AgentReq =>
          do response <- agent_request ch.(recipient_channel) ;;
          up (if response : bool then request_success else request_failure)
      | req => channel_request ch.(recipient_channel) req
      end (requested ch.(recipient_channel) p c' se ce (wants want req) s).
Proof.
  intros Hok Hch Hr Hse Hce Hconf Hp Hc Hsend. eexists. split; [by apply send_request_ok|].
  split; [intros ->; by eapply send_wait_sent|]. unfold recv_channel_request, st_bind, dec, st_lift, st_mod.
  rewrite parse_header_ok by (done || by destruct req). cbn [map_err].
  rewrite u8_of_bool_nonzero.
  assert (Hest : established ch.(recipient_channel)
    (note_wants_reply ch.(recipient_channel) (wants want req) s) = true).
  { unfold established, is_established_channel, note_wants_reply. rewrite Hse, Hce. cbn.
    by rewrite lookup_insert_eq. }
  rewrite Hest. cbn [negb].
  rewrite <- (app_nil_r (request_bytes req)), parse_request_ok by done. cbn [ensure_end res_bind map_err].
  assert (Hin : (note_wants_reply ch.(recipient_channel) (wants want req) s).(srv).(inbox) = s.(srv).(inbox)).
  { unfold note_wants_reply. by rewrite Hse, Hce. }
  assert (Happ : (up (send_app ch.(recipient_channel) (request_msg req)) : st Sess E bool)
      (note_wants_reply ch.(recipient_channel) (wants want req) s) =
    (Ok sent, requested ch.(recipient_channel) p c' se ce (wants want req) s)).
  { unfold up, st_map_err, send_app. rewrite Hin, Hp, Hc, Hsend. unfold requested, note_wants_reply. by rewrite Hse, Hce. }
  unfold serve_request, st_bind. rewrite Happ. by destruct req.
Qed.

(** *** Delayed compression *)

(** What the server sends from the acceptance of the client until the client's
    next packet is not compressed, although the client decompresses from
    [USERAUTH_SUCCESS] on. *)
Lemma success_leaves_compress config ws mp ms rt rti af now p buf s s' a :
  s.(state) = WaitingAuthRequest a ->
  (forall s, (auth_succeeded s).2.(compress) = s.(compress)) ->
  process_packet config ws mp ms rt rti af now p buf s = (Ok tt, s') -> s'.(compress) = s.(compress).
Proof.
  intros Ha Hl Hr. unfold process_packet in Hr. destruct (encrypted (srv s)); [|done]. rewrite Ha in Hr.
  assert (Hd : forall s1 s2, (st_mod start_decompress ;;; auth_succeeded) s1 = (Ok tt, s2) ->
    s2.(compress) = s1.(compress)).
  { intros s1 s2 Hm. unfold st_bind, st_mod in Hm. specialize (Hl (start_decompress s1)). rewrite Hm in Hl.
    cbn [snd] in Hl. rewrite Hl. clear. unfold start_decompress. by destruct (is_deferred _). }
  destruct buf as [|m r]; [by injection Hr as <-|]. destruct (m =? msg.USERAUTH_REQUEST).
  - unfold recv_auth_request in Hr. apply st_bind_ok in Hr as (? & s1 & H1 & Hr).
    apply st_bind_ok in Hr as (? & s2 & H2 & Hr). injection H2 as _ <-.
    apply on_auth_channels in H1. cbn [state set_attempts] in Hr.
    assert (H1' : s1.(compress) = s.(compress)) by apply H1.
    destruct (state s1); try by injection Hr as <-. apply Hd in Hr. by rewrite Hr.
  - destruct (m =? msg.USERAUTH_INFO_RESPONSE); [|by injection Hr as <-].
    unfold recv_info_response in Hr. apply st_bind_ok in Hr as (b & s1 & H1 & Hr).
    apply on_auth_channels in H1. assert (H1' : s1.(compress) = s.(compress)) by apply H1.
    destruct b; [|by apply st_ret_ok in Hr as [_ ->]].
    apply st_bind_ok in Hr as (? & s2 & H2 & Hr). injection H2 as _ <-. apply Hd in Hr. by rewrite Hr.
Qed.

(** *** Replies that were not asked for *)

(** A global request of an unknown type is refused even when it asks for no
    reply, and the peer takes the refusal for the answer to its oldest request
    ([global_replies_in_order]). *)
Lemma unwanted_reply kind e s :
  string_ok kind -> s.(srv).(encrypted) = Some e ->
  kind <> str "tcpip-forward" -> kind <> str "cancel-tcpip-forward" ->
  kind <> str "streamlocal-forward@openssh.com" -> kind <> str "cancel-streamlocal-forward@openssh.com" ->
  recv_global_request (prefixed kind ++ [0]) s =
    (Ok tt, set_srv (set_encrypted (Some (set_write (e.(enc_write) ++ frame [msg.REQUEST_FAILURE])
       e.(write_cursor) e)) s.(srv)) (set_wants_reply false s)).
Proof.
  intros Hk He H1 H2 H3 H4. unfold recv_global_request, st_bind, dec, st_lift.
  rewrite decode_string_ok by done. cbn [enc_err map_err]. rewrite decode_u8_cons. cbn [enc_err map_err].
  rewrite !(proj2 (beq_false _ _)) by done.
  unfold answer_global, up, st_map_err, st_mod, on_enc, on_srv, on_encrypted, on_write. cbn [srv set_wants_reply].
  rewrite He. rewrite (appends_push_packet _ [msg.REQUEST_FAILURE]) by auto with wire. done.
Qed.

(** The refusal of agent forwarding, a channel request, goes out as the reply to
    a global request. *)
Lemma agent_refused_globally channel s s1 s2 e :
  send_app channel (request_msg AgentReq) s = (Ok true, s1) ->
  agent_request channel s1 = (Ok false, s2) -> s2.(srv).(encrypted) = Some e ->
  serve_request channel AgentReq s =
    (Ok tt, set_srv (set_encrypted (Some (set_write (e.(enc_write) ++ frame [msg.REQUEST_FAILURE])
       e.(write_cursor) e)) s2.(srv)) (set_wants_reply false s2)).
Proof.
  intros H1 H2 He. unfold serve_request, st_bind, up, st_map_err. rewrite H1. cbn [map_err]. rewrite H2.
  unfold request_failure. rewrite He. unfold on_enc, on_srv, on_encrypted, on_write.
  cbn [srv set_wants_reply]. rewrite He.
  rewrite (appends_push_packet _ [msg.REQUEST_FAILURE]) by auto with wire. done.
Qed.
End Requests.

(** ** A concrete session *)
Module Example.
#[local] Existing Instance rfc4251.
#[local] Existing Instance Auth.Example.keys.
#[local] Existing Instance Bounded.mpsc.
#[local] Existing Instance Doubling.flate2.

#[local] Instance bounded_send : MpscSend Bounded.mpsc := {|
  send_wait c m := if c.(Bounded.closed) then (c, false) else (Bounded.put c m, true);
|}.
#[local] Instance bounded_send_laws : MpscSendLaws.
Proof. split. intros c m c'. cbn. destruct (Bounded.closed c); [done|]. by intros [= <-]. Qed.

(** Packets are recorded. *)
#[local] Existing Instance packet_log.
Abbreviation Sess := (@Session Auth.Example.keys Bounded.mpsc Doubling.flate2 (list bytes) unit).

#[local] Instance handler : @Handler Bounded.mpsc (list bytes) unit Error.error := {|
  callback _ _ := st_ret tt;
  adjust_window h _ t := (t, h);
  window_adjusted _ _ := st_ret tt;
  from_error e := e;
|}.

(** Alice may use any key, and the password "secret". *)
#[local] Instance auth_handler : AuthHandler unit Error.error := {|
  authentication_banner := st_ret None;
  auth_none _ := st_ret Auth_reject;
  auth_password _ p := st_ret (if beq p (str "secret") then Accept else Reject (Some [MethodKind.PublicKey]) true);
  auth_publickey_offered u _ := st_ret (if beq u (str "alice") then Accept else Auth_reject);
  auth_publickey _ _ := st_ret Accept;
  auth_openssh_certificate _ _ := st_ret Auth_reject;
  auth_keyboard_interactive _ _ _ := st_ret UnsupportedMethod;
  auth_error e := e;
|}.

#[local] Instance request_handler : @RequestHandler _ _ _ (list bytes) unit Error.error := {|
  auth_succeeded := st_ret tt;
  channel_request _ _ := st_ret tt;
  agent_request _ := st_ret false;
  channel_open_confirmation _ _ _ := st_ret tt;
  tcpip_forward _ p := st_ret (true, p);
  cancel_tcpip_forward _ _ := st_ret true;
  streamlocal_forward _ := st_ret true;
  cancel_streamlocal_forward _ := st_ret true;
  open_decision _ := ChannelOpen.Accept;
|}.
#[local] Instance request_handler_laws : (RequestHandlerFrame same_auth).
Proof. by split. Qed.

Definition enc0 : Encrypted := mkEncrypted ∅ 0 [] 0 0 false false.
Definition sid : bytes := [1; 2; 3].
Definition s0 : Sess :=
  mkSession (mkServer (mkInbox ∅ ∅ ∅ []) [] (Some enc0) false 50 ∅ ∅ tt [] [] [])
    (WaitingAuthServiceRequest false false) sid [] 0 [] CompressionNone CompressionNone
    CompressNone DecompressNone false [] [] [] [].

Definition service : bytes := msg.SERVICE_REQUEST :: prefixed (str "ssh-userauth").
Definition request (real : Z) : bytes :=
  msg.USERAUTH_REQUEST :: prefixed (str "alice") ++ prefixed (str "ssh-connection") ++
  prefixed (str "publickey") ++ [real] ++ prefixed (str "ssh-ed25519") ++ prefixed [0; 9].
Definition probe : bytes := request 0.
Definition signed : bytes :=
  request 1 ++ prefixed (Auth.Example.signature (false, 9) (prefixed sid ++ request 1)).
Definition ping : bytes := msg.GLOBAL_REQUEST :: prefixed (str "keepalive@openssh.com") ++ [1].

Abbreviation process := (process_packet (mkConfig 100 100) 50 100 MethodSet.all 3 (Some 1) (fun r => r)
  (H := unit) (E := Error.error)).

Definition after (buf : bytes) (s : Sess) : Sess := (process 1000 7 buf s).2.
Definition s1 : Sess := after service s0.
Definition s2 : Sess := after probe s1.
Definition s3 : Sess := after signed s2.
Definition s4 : Sess := after ping s3.

Lemma after_step buf s : (process 1000 7 buf s).1 = Ok tt ->
  process 1000 7 buf s = (Ok tt, after buf s).
Proof. intros Hr. unfold after. rewrite <- Hr. apply surjective_pairing. Qed.

Lemma run_reach : session_reach (mkConfig 100 100) 50 100 MethodSet.all 3 (Some 1) (fun r => r)
  (H := unit) (E := Error.error) s4.
Proof.
  eapply reach_packet; [|apply after_step; vm_compute; reflexivity].
  eapply reach_packet; [|apply after_step; vm_compute; reflexivity].
  eapply reach_packet; [|apply after_step; vm_compute; reflexivity].
  eapply reach_packet; [|apply after_step; vm_compute; reflexivity].
  by eapply reach_start.
Qed.

Lemma s4_trace : s4.(auth_trace) =
  [CallOffered (str "alice") (false, 9) Accept; CallPublicKey (str "alice") (false, 9) Accept].
Proof. vm_compute. reflexivity. Qed.

Lemma server_auth_sound_witness : authenticated sid (str "alice") s4.(auth_trace).
Proof. apply (server_auth_sound _ _ _ _ _ _ _ s4 run_reach). Defined.

Lemma unauthenticated_inert_witness : same_channels s1 s2.
Proof.
  apply (unauthenticated_inert (E := Error.error) (mkConfig 100 100) 50 100 MethodSet.all 3 (Some 1) (fun r => r)
    1000 7 probe).
  - apply after_step. vm_compute. reflexivity.
  - split; vm_compute; congruence.
  - vm_compute. congruence.
Defined.

Definition asking : Sess :=
  set_requests [Ping 4; TcpIpForward 5; CancelTcpIpForward 6] [] s0.

Lemma global_replies_in_order_witness :
  recv_replies (E := Error.error) [Some []; Some [0; 0; 31; 144]; None; None] asking =
    (Ok tt, set_requests [] [(4, GotPing); (5, GotPort (Some 8080)); (6, GotBool false)] asking).
Proof.
  rewrite (global_replies_in_order (E := Error.error) [Some []; Some [0; 0; 31; 144]; None; None] asking).
  - vm_compute. reflexivity.
  - by repeat constructor.
Defined.

(** A wrong password. *)
Definition c0 : AuthCtx unit := mkAuthCtx (WaitingAuthRequest (AuthRequest_server MethodSet.all)) [] [] tt [].
Definition wrong : bytes :=
  prefixed (str "alice") ++ prefixed (str "ssh-connection") ++ prefixed (str "password") ++ [0] ++
  prefixed (str "guess").
Definition r_wrong := server_read_auth_request (E := Error.error) sid 10 5 0 (msg.USERAUTH_REQUEST :: wrong) wrong c0.

Lemma request_answered_once_witness :
  answered 10 [] 0 r_wrong.2 \/
  (exists user service r1 r2 r3, decode_string wrong = Ok (user, r1) /\ decode_string r1 = Ok (service, r2) /\
     decode_string r2 = Ok (str "none", r3) /\ answered 5 [] 0 r_wrong.2).
Proof.
  apply (request_answered_once (E := Error.error) sid 10 5 0 (msg.USERAUTH_REQUEST :: wrong) wrong c0 tt r_wrong.2
    (AuthRequest_server MethodSet.all)).
  - reflexivity.
  - change tt with tt. transitivity (r_wrong.1, r_wrong.2); [apply surjective_pairing|]. vm_compute. reflexivity.
Defined.

(** The application rejected with partial success; the client is told that there
    was none. *)
Lemma partial_success_not_told :
  r_wrong.2.(a_write) = frame (msg.USERAUTH_FAILURE :: prefixed (str "publickey") ++ [0]).
Proof. vm_compute. reflexivity. Qed.

(** A session with an established channel. *)
Definition served : Sess :=
  set_srv (mkServer (open_channel 7 0 (Bounded.mkBounded 1 false [] []) (mkInbox ∅ ∅ ∅ [])) []
    (Some (put_channel 7 ChannelRequests.Example.channel7 enc0)) false 50 ∅ ∅ tt [] [] []) s0.

Lemma channel_request_served_witness :
  (exists payload,
    send_request 3 true ChannelRequests.Example.pty ChannelRequests.Example.session =
      (Ok tt, set_write (frame (msg.CHANNEL_REQUEST :: payload)) 0 ChannelRequests.Example.session) /\
    recv_channel_request (E := Error.error) payload served =
      channel_request 7 ChannelRequests.Example.pty
        (requested 7 0 (Bounded.put (Bounded.mkBounded 1 false [] []) (request_msg ChannelRequests.Example.pty))
           (put_channel 7 ChannelRequests.Example.channel7 enc0) ChannelRequests.Example.channel7 true served)) /\
  (exists payload,
    send_request 3 false AgentReq ChannelRequests.Example.session =
      (Ok tt, set_write (frame (msg.CHANNEL_REQUEST :: payload)) 0 ChannelRequests.Example.session) /\
    (recv_channel_request (E := Error.error) payload served).1 = Ok tt).
Proof.
  split.
  - destruct (channel_request_served (E := Error.error) 3 ChannelRequests.Example.channel7 true
      ChannelRequests.Example.pty ChannelRequests.Example.session ChannelRequests.Example.channel7
      (put_channel 7 ChannelRequests.Example.channel7 enc0) served 0 (Bounded.mkBounded 1 false [] [])
      (Bounded.put (Bounded.mkBounded 1 false [] []) (request_msg ChannelRequests.Example.pty)) true)
      as (payload & H1 & _ & H3); try done; [exact ChannelRequests.Example.pty_ok|].
    exists payload. split; [exact H1|exact H3].
  - destruct (channel_request_served (E := Error.error) 3 ChannelRequests.Example.channel7 false
      AgentReq ChannelRequests.Example.session ChannelRequests.Example.channel7
      (put_channel 7 ChannelRequests.Example.channel7 enc0) served 0 (Bounded.mkBounded 1 false [] [])
      (Bounded.put (Bounded.mkBounded 1 false [] []) (request_msg AgentReq)) true)
      as (payload & H1 & _ & H3); try done.
    exists payload. split; [exact H1|]. rewrite H3. vm_compute. reflexivity.
Defined.
End Example.
