(* ===== verification/ServerRequests.v ===== *)
(** * Requests and delivery at the server

    [ServerInbound] has the steps that deliver what a channel carries.  The other
    packets about channels - a request on a channel, the confirmation and the
    refusal of an open - go through the dispatch of [ServerEncrypted]; here they are
    shown to be made of those steps, so that what holds in every state that
    [ServerInbound.reachable] reaches also holds after them. *)

From stdpp Require Import base list numbers option relations gmap.
From Stdlib Require Import ZArith Lia.
From S2P Require Import Prelude Encoding LibInner Msg Channels PendingInbound Cipher Session ServerSession ServerInbound.
From S2P Require Import ChannelRequests Compression Auth ServerAuth ServerEncrypted.

(** Of [tokio]: a message that is sent is behind the others, one that is not is
    lost, and a receiver that is gone does not come back. *)
Class MpscSendFrame {Q : Mpsc} (QS : MpscSend Q) : Prop := {
  send_wait_accepted c m c' sent : send_wait c m = (c', sent) ->
    accepted c' = accepted c ++ (if sent : bool then [m] else []) /\ (is_closed c = true -> is_closed c' = true);
}.

Section InboundSteps.
Context {enc : SshEncoding} {UK : UserKeys} {Q : Mpsc} {HQ : MpscLaws Q} {QS : MpscSend Q} {F : Flate2}.
Context {W : Type} {HW : PacketSink W} {H E : Type}.
Context {HH : @Handler Q W H E} {AH : AuthHandler H E} {RH : @RequestHandler UK Q F W H E} `{!MpscSendFrame QS}.
Context (config : Config) (max_window : Z) (obedient : bool).
Implicit Types s : @Session UK Q F W H.
Abbreviation Sess := (@Session UK Q F W H).

(** The server takes steps of [ServerInbound], the reservations in flight being
    left alone. *)
Definition steps s s' : Prop := forall R, rtc (step config max_window obedient) (s.(srv), R) (s'.(srv), R).
#[local] Instance steps_preorder : PreOrder steps.
Proof. split; [by intros s R|]. intros s1 s2 s3 H1 H2 R. etransitivity; [apply H1|apply H2]. Qed.

Lemma frame_steps s s' : ServerInbound.frame max_window s.(srv) s'.(srv) -> steps s s'.
Proof. intros Hf R. by apply rtc_once, step_other. Qed.

Lemma steps_same_srv s s' : s'.(srv) = s.(srv) -> steps s s'.
Proof. intros Hs R. by rewrite Hs. Qed.

(** What the callbacks of the application do are steps. *)
Context {RL : RequestHandlerFrame steps}.
Abbreviation framed := (Prelude.framed steps).

Lemma send_app_steps id m : inbound_msg m = false -> framed (send_app id m).
Proof.
  intros Hm s R. unfold send_app. destruct (PendingInbound.channels _ !! id) as [p|]; [|done].
  destruct (buffers _ !! p) as [c|] eqn:Hc; [|done]. destruct (send_wait c m) as [c' sent] eqn:Hs.
  apply send_wait_accepted in Hs as [Ha Hcl]. cbn [snd srv set_srv]. apply rtc_once.
  eapply (step_app _ _ _ p c c'); [exact Hc| |exact Hcl]. unfold stream. rewrite Ha, List.filter_app.
  destruct sent; cbn; [rewrite Hm|]; by rewrite app_nil_r.
Qed.

Lemma on_enc_steps m : (forall e, keeps_windows e (m e).2) -> framed (on_enc m : st Sess _ _).
Proof.
  intros Hk s. apply frame_steps. unfold on_enc, on_srv.
  pose proof (framed_on_encrypted max_window (H := H) m Hk (srv s)) as Hf.
  by destruct (on_encrypted m (srv s)).
Qed.

Lemma note_steps c b : framed (st_mod (note_wants_reply c b) : st Sess E unit).
Proof.
  apply framed_mod. intros s. unfold note_wants_reply. destruct (encrypted _) as [e|] eqn:He; [|done].
  destruct (Session.channels e !! c) as [ch|] eqn:Hc; [|done]. apply frame_steps. cbn [srv set_srv].
  apply frame_encrypted with e; [done|]. by eapply keeps_put.
Qed.

Lemma keeps_on_write m e : keeps_windows e (on_write m e).2.
Proof. unfold on_write. destruct (m _). by apply keeps_same_channels. Qed.

Lemma keeps_reply m c e : keeps_windows e (channel_reply m c e).2.
Proof.
  unfold channel_reply. destruct (Session.channels e !! c) as [ch|] eqn:Hc; [|apply keeps_refl].
  destruct (negb _); [apply keeps_refl|]. destruct (LibInner.wants_reply ch); [|apply keeps_refl].
  eapply keeps_trans; [|apply keeps_on_write]. by eapply keeps_put.
Qed.

Lemma global_reply_steps : framed (request_success : st Sess _ _) /\ framed (request_failure : st Sess _ _).
Proof.
  assert (Hr : forall m s, steps s (on_enc (on_write m) (set_wants_reply false s)).2).
  { intros m s. etransitivity; [by apply (steps_same_srv s (set_wants_reply false s))|].
    apply on_enc_steps. intros e. apply keeps_on_write. }
  split; intros s; unfold request_success, request_failure; repeat case_match; try done; apply Hr.
Qed.

Lemma serve_steps c req : framed (serve_request c req : st Sess E unit).
Proof.
  unfold serve_request. destruct RL, global_reply_steps as [Hs Hf].
  apply framed_bind; [apply _|apply framed_map_err, send_app_steps; by destruct req|].
  intros _. destruct req; try apply channel_request_frames. apply framed_bind; [apply _|apply agent_request_frames|].
  intros b. apply framed_map_err. by destruct b.
Qed.

(** A request on a channel. *)
Lemma channel_request_steps r s x s' : recv_channel_request r s = (x, s') -> steps s s'.
Proof.
  assert (Hf : framed (recv_channel_request r : st Sess E unit)); [|apply framed_result, Hf].
  unfold recv_channel_request. apply framed_bind; [apply _|by intros s0|].
  intros [[[c ty] want] r']. apply framed_bind; [apply _|apply note_steps|]. intros _.
  apply (framed_if steps (fun s => negb (established c s)) (st_ret tt)); [by intros s0|].
  apply framed_bind; [apply _|by intros s0|]. intros [req|]; [apply serve_steps|].
  apply framed_map_err, on_enc_steps, keeps_reply.
Qed.

(** The confirmation of an open. *)
Lemma open_confirmation_steps r s x s' : recv_open_confirmation r s = (x, s') -> steps s s'.
Proof.
  assert (Hf : framed (recv_open_confirmation r : st Sess E unit)); [|apply framed_result, Hf].
  unfold recv_open_confirmation. apply framed_bind; [apply _|by intros s0|]. intros [m r'].
  apply framed_bind; [apply _|by intros s0|]. intros _. cbv zeta. apply framed_bind; [apply _| |intros _].
  - intros s0. destruct (encrypted _) as [e|] eqn:He; [|done].
    destruct (Session.channels e !! _) as [ch|] eqn:Hc; [|done]. apply frame_steps. cbn [snd srv set_srv].
    apply frame_encrypted with e; [done|]. by eapply keeps_put.
  - apply framed_bind; [apply _|by apply framed_map_err, send_app_steps|]. intros _. apply open_confirmation_frames.
Qed.

(** The refusal of one.  The session forgets the channel and leaves its queue: the
    steps do the same where nothing is queued for it. *)
Definition quiet (c : Z) s : Prop := s.(srv).(inbox).(inbound) !! c = None.
Definition quiet_steps c s s' : Prop := quiet c s -> steps s s' /\ quiet c s'.
#[local] Instance quiet_steps_preorder c : PreOrder (quiet_steps c).
Proof.
  split; [by intros s|]. intros s1 s2 s3 H1 H2 Hq. destruct (H1 Hq) as [S1 Q1], (H2 Q1) as [S2 Q2].
  split; [by transitivity s2|done].
Qed.

Lemma remove_quiet c : Prelude.framed (quiet_steps c) (on_enc (remove_channel c) : st Sess _ _).
Proof.
  intros s Hq. split; [apply on_enc_steps; intros e; apply keeps_delete|].
  unfold quiet, on_enc, on_srv, on_encrypted in *. by destruct (encrypted _).
Qed.

Lemma send_app_quiet id m c : inbound_msg m = false -> Prelude.framed (quiet_steps c) (send_app id m).
Proof.
  intros Hm s Hq. split; [by apply send_app_steps|]. unfold quiet, send_app in *.
  repeat (case_match; try done).
Qed.

Lemma forget_quiet c :
  Prelude.framed (quiet_steps c)
    (st_mod (fun s => set_srv (set_inbox (forget_channel c s.(srv).(inbox)) s.(srv)) s) : st Sess E unit).
Proof.
  apply framed_mod. intros s Hq. split; [|done]. apply frame_steps. unfold quiet in Hq.
  split; try done; [|by left]. split; [done|]. split; [done|]. intros id. cbn.
  destruct (decide (id = c)) as [->|]; [right; by rewrite lookup_delete_eq|left; by rewrite lookup_delete_ne].
Qed.

Lemma open_failure_steps channel r r' s x s' : decode_u32 r = Ok (channel, r') -> quiet channel s ->
  recv_open_failure r s = (x, s') -> steps s s'.
Proof.
  intros Hr Hq. assert (Hf : Prelude.framed (quiet_steps channel) (recv_open_failure r : st Sess E unit)).
  2: { intros Hs. specialize (Hf s Hq). rewrite Hs in Hf. by destruct Hf. }
  unfold recv_open_failure. rewrite Hr.
  match goal with |- Prelude.framed _ (st_bind _ ?k) =>
    change (Prelude.framed (quiet_steps channel) (k (channel, r'))) end.
  cbv beta iota zeta.
  repeat (apply framed_bind; [apply _|first [by intros s0|apply framed_map_err, remove_quiet
    |by apply framed_map_err, send_app_quiet|apply forget_quiet]|intros ?]; repeat case_match; try by intros s0).
Qed.
End InboundSteps.
