(* ===== verification/Supervisor.v ===== *)
(** * Supervision of a server connection ([russh/src/server/supervisor.rs], and
    the part of the run loop of [russh/src/server/session.rs] that uses it)

    [WriteWatchdog] notices a peer that does not take what is sealed for it,
    [RekeyDeadline] a key re-exchange that does not end; the head of the run loop
    polls both, and the deadline of the handshake.

    Instants and durations are integers (nanoseconds); every operation that reads
    the clock takes the instant [now]. *)

From stdpp Require Import base list numbers option sets.
From Stdlib Require Import ZArith Lia.
From S2P Require Import Prelude.

(** [Instant::duration_since] saturates. *)
Definition duration_since (later earlier : Z) : Z := Z.max 0 (later - earlier).

Definition MILLI : Z := 1000000.
Definition U64_MOD : Z := 18446744073709551616.
Definition saturating_add64 (x y : Z) : Z := Z.min (x + y) (U64_MOD - 1).

(** ** Causes *)
Inductive DisconnectCause : Type :=
| WriteStalled
| RekeyTimeout
| HandshakeTimeout
| PeerError
| LocalShutdown.

Definition as_u8 (c : DisconnectCause) : Z :=
  match c with
  | WriteStalled => 1 | RekeyTimeout => 2 | HandshakeTimeout => 3 | PeerError => 4 | LocalShutdown => 5
  end.
Definition from_u8 (v : Z) : option DisconnectCause :=
  if v =? 1 then Some WriteStalled
  else if v =? 2 then Some RekeyTimeout
  else if v =? 3 then Some HandshakeTimeout
  else if v =? 4 then Some PeerError
  else if v =? 5 then Some LocalShutdown
  else None.

(** [DisconnectCauseSlot]: an atomic byte. *)
Module Slot.
Definition new : Z := 0.
(** [compare_exchange(0, ..)]. *)
Definition record (cause : DisconnectCause) (raw : Z) : Z := if raw =? 0 then as_u8 cause else raw.
Definition get (raw : Z) : option DisconnectCause := from_u8 raw.
Definition clear (raw : Z) : Z := 0.
End Slot.

(** ** The write watchdog *)
Record WriteProgress : Type := mkWriteProgress {
  generation : Z;
  last_write_ok_ms : Z;
  wire_eligible_bytes : Z;
  drained_bytes_epoch : Z;
}.

Record WriteWatchdog : Type := mkWriteWatchdog {
  armed_at : option Z;
  last_progress_at : option Z;
  drain_window_start : option Z;
  drained_in_window : Z;
  base : Z;
  snapshot : WriteProgress;
  snapshot_gen : Z;
}.

Definition WriteWatchdog_new (now : Z) : WriteWatchdog :=
  mkWriteWatchdog None None None 0 now (mkWriteProgress 0 0 0 0) 0.

(** The milliseconds since [base], as a [u64]. *)
Definition now_ms (now : Z) (w : WriteWatchdog) : Z := (duration_since now w.(base) / MILLI) mod U64_MOD.

Definition set_clocks (armed last window : option Z) (drained : Z) (p : WriteProgress) (w : WriteWatchdog)
  : WriteWatchdog :=
  mkWriteWatchdog armed last window drained w.(base) p w.(snapshot_gen).

Definition observe_eligible (now bytes : Z) (w : WriteWatchdog) : WriteWatchdog :=
  let p := mkWriteProgress w.(snapshot_gen) w.(snapshot).(last_write_ok_ms) bytes
             w.(snapshot).(drained_bytes_epoch) in
  if bytes =? 0 then set_clocks None None None 0 p w
  else
    match w.(armed_at) with
    | None =>
        set_clocks (Some now) (Some now) (Some now) 0
          (mkWriteProgress p.(generation) (now_ms now w) bytes p.(drained_bytes_epoch)) w
    | Some _ => set_clocks w.(armed_at) w.(last_progress_at) w.(drain_window_start) w.(drained_in_window) p w
    end.

Definition note_write_ok (now n : Z) (w : WriteWatchdog) : WriteWatchdog :=
  if n =? 0 then w
  else
    let g := (w.(snapshot_gen) + 1) mod U64_MOD in
    mkWriteWatchdog w.(armed_at) (Some now) w.(drain_window_start)
      (saturating_add64 w.(drained_in_window) n) w.(base)
      (mkWriteProgress g (now_ms now w) w.(snapshot).(wire_eligible_bytes)
         (saturating_add64 w.(snapshot).(drained_bytes_epoch) n)) g.

Definition poll_timeout (now write_progress_deadline : Z) (write_min_drain : option (Z * Z))
    (w : WriteWatchdog) : option DisconnectCause * WriteWatchdog :=
  match w.(armed_at) with
  | None => (None, w)
  | Some armed_at =>
      let last := default armed_at w.(last_progress_at) in
      if write_progress_deadline <=? duration_since now last then (Some WriteStalled, w)
      else
        match write_min_drain with
        | Some (min_bytes, window) =>
            let win_start := default armed_at w.(drain_window_start) in
            if window <=? duration_since now win_start then
              if w.(drained_in_window) <? min_bytes then (Some WriteStalled, w)
              else (None, set_clocks w.(Supervisor.armed_at) w.(last_progress_at) (Some now) 0
                            w.(snapshot) w)
            else (None, w)
        | None => (None, w)
        end
  end.

Definition next_activity_deadline (now write_progress_deadline : Z) (w : WriteWatchdog) : option Z :=
  match w.(armed_at) with
  | None => None
  | Some armed_at =>
      let last := default armed_at w.(last_progress_at) in
      Some (Z.max (saturating_sub write_progress_deadline (duration_since now last)) MILLI)
  end.

Definition next_min_drain_deadline (now : Z) (write_min_drain : option (Z * Z)) (w : WriteWatchdog)
  : option Z :=
  match write_min_drain, w.(armed_at) with
  | Some (_, window), Some armed_at =>
      let win_start := default armed_at w.(drain_window_start) in
      Some (Z.max (saturating_sub window (duration_since now win_start)) MILLI)
  | _, _ => None
  end.

(** ** The deadline of a key re-exchange *)
Record RekeyDeadline : Type := mkRekeyDeadline {
  rd_generation : option Z;
  deadline_at : option Z;
}.

Definition RekeyDeadline_default : RekeyDeadline := mkRekeyDeadline None None.
Definition register (now generation deadline : Z) (r : RekeyDeadline) : RekeyDeadline :=
  mkRekeyDeadline (Some generation) (Some (now + deadline)).
Definition clear (r : RekeyDeadline) : RekeyDeadline := mkRekeyDeadline None None.
Definition clear_if_generation (generation : Z) (r : RekeyDeadline) : RekeyDeadline :=
  if bool_decide (r.(rd_generation) = Some generation) then clear r else r.

Definition poll (now : Z) (current_active_generation : option Z) (r : RekeyDeadline) : option Z :=
  match r.(rd_generation), r.(deadline_at) with
  | Some generation, Some at_ =>
      if negb (bool_decide (current_active_generation = Some generation)) then None
      else if at_ <=? now then Some generation else None
  | _, _ => None
  end.

Definition remaining (now : Z) (r : RekeyDeadline) : option Z :=
  match r.(deadline_at) with
  | Some at_ => Some (if at_ <=? now then 0 else duration_since at_ now)
  | None => None
  end.

(** ** The head of the run loop *)
Record Limits : Type := mkLimits {
  write_progress_deadline : Z;
  write_min_drain : option (Z * Z);
  handshake_deadline_at : Z;
}.

Record Supervision : Type := mkSupervision {
  watchdog : WriteWatchdog;
  handshake_done : bool;
  supervisor_cause : option DisconnectCause;
  drained_seen : Z;
}.

(** What the loop reads of the session: whether it is authenticated, the bytes
    sealed and not flushed, the re-exchange in progress and its deadline. *)
Record View : Type := mkView {
  auth_done : bool;
  eligible : Z;
  active_rekey_gen : option Z;
  rekey : RekeyDeadline;
}.

(** [record_cause]: the first cause stays. *)
Definition record_cause (cause : DisconnectCause) (slot : option DisconnectCause) : option DisconnectCause :=
  match slot with None => Some cause | Some _ => slot end.

Definition torn_down (cause : DisconnectCause) (w : WriteWatchdog) (done : bool) (s : Supervision)
  : Supervision :=
  mkSupervision w done (record_cause cause s.(supervisor_cause)) s.(drained_seen).

(** Whether the connection is given up ([disconnected = true; break]). *)
Definition supervise (l : Limits) (now : Z) (v : View) (s : Supervision) : bool * Supervision :=
  let done := s.(handshake_done) || v.(auth_done) in
  if negb done && (l.(handshake_deadline_at) <=? now) then
    (true, torn_down HandshakeTimeout s.(watchdog) done s)
  else
    let w := observe_eligible now v.(eligible) s.(watchdog) in
    match poll_timeout now l.(write_progress_deadline) l.(write_min_drain) w with
    | (Some cause, w) => (true, torn_down cause w done s)
    | (None, w) =>
        match poll now v.(active_rekey_gen) v.(rekey) with
        | Some _ => (true, torn_down RekeyTimeout w done s)
        | None => (false, mkSupervision w done s.(supervisor_cause) s.(drained_seen))
        end
    end.

Definition HOUR : Z := 3600 * 1000 * MILLI.

(** How long the loop sleeps before it looks again. *)
Definition supervisor_sleep (l : Limits) (now : Z) (v : View) (s : Supervision) : Z :=
  let wd_sleep := default HOUR (next_activity_deadline now l.(write_progress_deadline) s.(watchdog)) in
  let min_drain_sleep := default HOUR (next_min_drain_deadline now l.(write_min_drain) s.(watchdog)) in
  let rekey_sleep := default HOUR (remaining now v.(rekey)) in
  let hs_sleep := if s.(handshake_done) then HOUR else duration_since l.(handshake_deadline_at) now in
  Z.max (Z.min (Z.min (Z.min wd_sleep min_drain_sleep) rekey_sleep) hs_sleep) MILLI.

(** After [select!]: the watchdog learns what was written. *)
Definition credit_drained (now drained_now : Z) (s : Supervision) : Supervision :=
  if s.(drained_seen) <? drained_now then
    mkSupervision (note_write_ok now (drained_now - s.(drained_seen)) s.(watchdog)) s.(handshake_done)
      s.(supervisor_cause) drained_now
  else s.

(** The other timers of the loop; [None] is a timer that is not configured. *)
Record Timers : Type := mkTimers {
  keepalive_at : option Z;
  inactivity_at : option Z;
  alive_timeouts : Z;
}.

(** The keepalive timer fired: the connection is given up ([None]) or a
    keepalive is sent. *)
Definition keepalive_fired (keepalive_max : Z) (t : Timers) : option Timers :=
  let n := saturating_add t.(alive_timeouts) 1 in
  if negb (keepalive_max =? 0) && (keepalive_max <? n) then None
  else Some (mkTimers t.(keepalive_at) t.(inactivity_at) n).

(** The end of an iteration. *)
Definition end_of_iteration (now : Z) (keepalive_interval inactivity_timeout : option Z)
    (received_data sent_keepalive : bool) (t : Timers) : Timers :=
  mkTimers
    (if received_data || sent_keepalive then
       match t.(keepalive_at), keepalive_interval with Some _, Some d => Some (now + d) | k, _ => k end
     else t.(keepalive_at))
    (if negb sent_keepalive then
       match t.(inactivity_at), inactivity_timeout with Some _, Some d => Some (now + d) | k, _ => k end
     else t.(inactivity_at))
    (if received_data then 0 else t.(alive_timeouts)).

(** ** What the watchdog detects *)

(** What happens to it: the bytes pending are observed, bytes are written. *)
Inductive event : Type := Observed (t n : Z) | Wrote (t n : Z).

Definition time (e : event) : Z := match e with Observed t _ | Wrote t _ => t end.

Definition apply (e : event) (w : WriteWatchdog) : WriteWatchdog :=
  match e with Observed t n => observe_eligible t n w | Wrote t n => note_write_ok t n w end.
Definition run (h : list event) (w : WriteWatchdog) : WriteWatchdog := fold_left (fun w e => apply e w) h w.

(** The clock does not run backwards. *)
Definition ordered (now : Z) (h : list event) : Prop :=
  (forall h1 e1 h2 e2 h3, h = h1 ++ e1 :: h2 ++ e2 :: h3 -> time e1 <= time e2) /\
  Forall (fun e => time e <= now) h.

(** Bytes have been pending for at least [d], and none was written in the last
    [d]. *)
Definition stalled (d now : Z) (h : list event) : Prop :=
  exists h1 t n h2, h = h1 ++ Observed t n :: h2 /\ n <> 0 /\ t + d <= now /\
    Forall (fun e => match e with
                     | Observed _ m => m <> 0
                     | Wrote t' m => m = 0 \/ t' + d <= now
                     end) h2.

(** The state as a function of the history: since when bytes are pending without
    progress. *)
Definition pending_since (w : WriteWatchdog) : option Z :=
  match w.(armed_at) with Some a => Some (default a w.(last_progress_at)) | None => None end.

Definition step_since (o : option Z) (e : event) : option Z :=
  match e with
  | Observed t n => if n =? 0 then None else match o with Some p => Some p | None => Some t end
  | Wrote t n => match o with Some p => if n =? 0 then Some p else Some t | None => None end
  end.

Lemma pending_since_apply e w : (w.(armed_at) <> None -> w.(last_progress_at) <> None) ->
  pending_since (apply e w) = step_since (pending_since w) e /\
  ((apply e w).(armed_at) <> None -> (apply e w).(last_progress_at) <> None).
Proof.
  intros Hl. destruct e as [t n|t n], w as [[a|] [p|] ws dr b sn g];
    cbn in *; unfold pending_since, note_write_ok, observe_eligible; cbn;
    destruct (n =? 0) eqn:Hn; cbn; rewrite ?Hn; try done; exfalso; by apply Hl.
Qed.

Lemma pending_since_run h w : (w.(armed_at) <> None -> w.(last_progress_at) <> None) ->
  pending_since (run h w) = fold_left step_since h (pending_since w).
Proof.
  revert w. induction h as [|e h IH]; intros w Hw; [done|]. cbn [run fold_left].
  destruct (pending_since_apply e w Hw) as [He Hl]. fold (run h (apply e w)). by rewrite IH, He.
Qed.

Lemma ordered_before now h1 e1 h2 e2 : ordered now (h1 ++ e2 :: h2) -> e1 ∈ h1 -> time e1 <= time e2.
Proof.
  intros [Ho _] Hin. apply list_elem_of_split in Hin as (l1 & l2 & ->).
  apply (Ho l1 e1 l2 e2 h2). by rewrite <- app_assoc.
Qed.

Lemma ordered_app now h1 h2 : ordered now (h1 ++ h2) -> ordered now h1.
Proof.
  intros [Ho Hn]. split; [|by apply Forall_app in Hn as [? _]].
  intros l1 e1 l2 e2 l3 ->. apply (Ho l1 e1 l2 e2 (l3 ++ h2)). by rewrite <- !app_assoc; cbn; rewrite <- app_assoc.
Qed.

Lemma ordered_now now h e : ordered now h -> e ∈ h -> time e <= now.
Proof. intros [_ Hn] Hin. rewrite List.Forall_forall in Hn. by apply Hn, list_elem_of_In. Qed.

Lemma since_event h p : fold_left step_since h None = Some p -> exists e, e ∈ h /\ time e = p.
Proof.
  revert p. induction h as [|e h IH] using rev_ind; intros p; [done|]. rewrite fold_left_app. cbn.
  intros Hp. destruct (fold_left step_since h None) as [q|].
  - destruct (IH q eq_refl) as (e' & He' & Ht'). destruct e as [t n|t n]; cbn in Hp;
      destruct (n =? 0); try done; injection Hp as <-.
    all: first [exists e'; split; [set_solver|done] | exists (Wrote t n); split; [set_solver|done]].
  - destruct e as [t n|t n]; cbn in Hp; [|done]. destruct (n =? 0); [done|]. injection Hp as <-.
    exists (Observed t n). split; [set_solver|done].
Qed.

(** Without an observation of zero the period goes on. *)
Definition goes_on (e : event) : Prop := match e with Observed _ m => m <> 0 | Wrote _ _ => True end.
Lemma since_goes_on h q : Forall goes_on h ->
  exists p, fold_left step_since h (Some q) = Some p /\ (p = q \/ exists m, m <> 0 /\ Wrote p m ∈ h).
Proof.
  revert q. induction h as [|e h IH]; intros q Hf; [by exists q; auto|].
  apply Forall_cons in Hf as [He Hf]. cbn [fold_left]. destruct e as [t n|t n]; cbn [step_since].
  - rewrite (proj2 (Z.eqb_neq _ _) He). destruct (IH q Hf) as (p & Hp & Hor). exists p. split; [done|].
    destruct Hor as [->|(m & Hm & Hin)]; [by left|]. right. exists m. split; [done|]. by constructor.
  - destruct (n =? 0) eqn:Hn.
    + destruct (IH q Hf) as (p & Hp & Hor). exists p. split; [done|].
      destruct Hor as [->|(m & Hm & Hin)]; [by left|]. right. exists m. split; [done|]. by constructor.
    + apply Z.eqb_neq in Hn. destruct (IH t Hf) as (p & Hp & Hor). exists p. split; [done|].
      right. destruct Hor as [->|(m & Hm & Hin)]; [exists n|exists m]; split; try done; by constructor.
Qed.

(** What [p] is: bytes are pending since before, and nothing was written later. *)
Lemma since_period now h p : ordered now h -> fold_left step_since h None = Some p ->
  exists h1 t n h2, h = h1 ++ Observed t n :: h2 /\ n <> 0 /\ t <= p /\
    Forall (fun e => match e with Observed _ m => m <> 0 | Wrote t' m => m = 0 \/ t' <= p end) h2.
Proof.
  revert p. induction h as [|e h IH] using rev_ind; intros p Ho; [done|]. rewrite fold_left_app. cbn.
  specialize (IH). pose proof (ordered_app _ _ _ Ho) as Hoh.
  destruct (fold_left step_since h None) as [q|] eqn:Hq.
  - destruct (IH q Hoh eq_refl) as (h1 & t1 & n1 & h2 & -> & Hn1 & Ht1 & Hf).
    assert (Hqe : q <= time e).
    { destruct (since_event _ _ Hq) as (e' & He' & <-). by apply (ordered_before now _ _ [] e Ho). }
    assert (Hext : forall r, q <= r -> Forall (fun e => match e with Observed _ m => m <> 0 | Wrote t' m => m = 0 \/ t' <= r end) h2).
    { intros r Hr. eapply Forall_impl; [exact Hf|]. intros [? m|t' m]; cbn; [done|]. intros [?|?]; [by left|right; lia]. }
    destruct e as [t n|t n]; cbn in *; destruct (n =? 0) eqn:Hn; try done; intros [= <-];
      eexists h1, t1, n1, (h2 ++ [_]); rewrite <- app_assoc; (split; [reflexivity|]);
      (split; [done|]); (split; [lia|]); apply Forall_app; (split; [by apply Hext; lia|]);
      apply Forall_singleton; rewrite ?Z.eqb_neq, ?Z.eqb_eq in Hn; auto. right. lia.
  - destruct e as [t n|t n]; cbn; [|done]. destruct (n =? 0) eqn:Hn; [done|]. intros [= <-].
    apply Z.eqb_neq in Hn. exists h, t, n, []. split_and!; try done; lia.
Qed.

Lemma stalled_since d now h : ordered now h -> 
  (stalled d now h <-> exists p, fold_left step_since h None = Some p /\ p + d <= now).
Proof.
  intros Ho. split.
  - intros (h1 & t & n & h2 & -> & Hn & Ht & Hf).
    assert (Hg : Forall goes_on h2) by (eapply Forall_impl; [exact Hf|]; by intros [? m|t' m]).
    assert (Hq : exists q, step_since (fold_left step_since h1 None) (Observed t n) = Some q /\ q <= t).
    { cbn. rewrite (proj2 (Z.eqb_neq _ _) Hn). destruct (fold_left step_since h1 None) as [q|] eqn:Hq.
      - exists q. split; [done|]. destruct (since_event _ _ Hq) as (e & He & <-).
        by apply (ordered_before now h1 e h2 (Observed t n) Ho).
      - exists t. split; [done|lia]. }
    destruct Hq as (q & Hq & Hqt). destruct (since_goes_on h2 q Hg) as (p & Hp & Hor).
    exists p. rewrite fold_left_app. cbn [fold_left]. rewrite Hq. split; [done|].
    destruct Hor as [->|(m & Hm & Hin)]; [lia|]. rewrite List.Forall_forall in Hf. apply list_elem_of_In in Hin.
    destruct (Hf _ Hin); [done|lia].
  - intros (p & Hp & Hd). destruct (since_period _ _ _ Ho Hp) as (h1 & t & n & h2 & -> & Hn & Ht & Hf).
    exists h1, t, n, h2. split_and!; try done; [lia|]. eapply Forall_impl; [exact Hf|].
    intros [? m|t' m]; cbn; [done|]. intros [?|?]; [by left|right; lia].
Qed.

(** The write watchdog gives a peer up exactly when it has stalled: without a
    minimum rate, after any history of observations and writes, [poll_timeout]
    reports [WriteStalled] if and only if bytes have been pending without
    interruption for the whole deadline and no byte was written during it. *)
Theorem stall_detected_exactly d now start h : 0 < d -> ordered now h ->
  (poll_timeout now d None (run h (WriteWatchdog_new start))).1 = Some WriteStalled <-> stalled d now h.
Proof.
  intros Hd Ho. rewrite stalled_since by done. set (w := run h _).
  assert (Hs : pending_since w = fold_left step_since h None) by (by apply pending_since_run).
  rewrite <- Hs. unfold poll_timeout, pending_since. destruct (armed_at w) as [a|]; cbn.
  - destruct (d <=? _) eqn:Hp; cbn.
    + split; [|done]. intros _. eexists. split; [done|]. apply Z.leb_le in Hp. unfold duration_since in Hp. lia.
    + split; [done|]. intros (p & [= <-] & Hle). apply Z.leb_gt in Hp. unfold duration_since in Hp. lia.
  - split; [done|]. by intros (p & ? & _).
Qed.

(** ** The loop wakes up in time *)

Lemma poll_timeout_fires now t d m w : now <= t ->
  (poll_timeout t d m w).1 <> None ->
  (exists x, next_activity_deadline now d w = Some x /\ now + x <= Z.max t (now + MILLI)) \/
  (exists x, next_min_drain_deadline now m w = Some x /\ now + x <= Z.max t (now + MILLI)).
Proof.
  intros Ht. unfold poll_timeout, next_activity_deadline, next_min_drain_deadline, saturating_sub, duration_since.
  destruct (armed_at w) as [a|]; [|done]. destruct (d <=? _) eqn:Hd.
  - intros _. left. eexists. split; [done|]. apply Z.leb_le in Hd. lia.
  - destruct m as [[mb win]|]; [|done]. destruct (win <=? _) eqn:Hw; [|done]. intros _. right.
    eexists. split; [done|]. apply Z.leb_le in Hw. lia.
Qed.

(** The clocks of the watchdog after [n] was observed. *)
Definition settled (n : Z) (w : WriteWatchdog) : Prop :=
  if n =? 0
  then w.(armed_at) = None /\ w.(last_progress_at) = None /\ w.(drain_window_start) = None /\ w.(drained_in_window) = 0
  else w.(armed_at) <> None.

Definition same_clocks (w w' : WriteWatchdog) : Prop :=
  w.(armed_at) = w'.(armed_at) /\ w.(last_progress_at) = w'.(last_progress_at) /\
  w.(drain_window_start) = w'.(drain_window_start) /\ w.(drained_in_window) = w'.(drained_in_window).

Lemma observe_settled now n w : settled n (observe_eligible now n w).
Proof.
  unfold settled, observe_eligible. destruct (n =? 0); [done|]. by destruct w as [[a|] ? ? ? ? ? ?].
Qed.

Lemma settled_observe t n w : settled n w -> same_clocks (observe_eligible t n w) w.
Proof.
  unfold settled, same_clocks, observe_eligible. destruct (n =? 0).
  - by intros (-> & -> & -> & ->).
  - by destruct w as [[a|] ? ? ? ? ? ?].
Qed.

Lemma poll_settled t d m n w : settled n w -> settled n (poll_timeout t d m w).2.
Proof.
  unfold settled, poll_timeout. destruct (n =? 0).
  - intros (Ha & ? & ? & ?). by rewrite Ha.
  - destruct w as [[a|] la ws dr b sn g], m as [[mb win]|]; cbn; intros Hs; by repeat case_match.
Qed.

Lemma poll_timeout_clocks t d m w w' : same_clocks w w' ->
  (poll_timeout t d m w).1 = (poll_timeout t d m w').1.
Proof.
  intros (Ha & Hl & Hw & Hd). unfold poll_timeout. rewrite Ha, Hl, Hw, Hd. by repeat case_match.
Qed.

(** C40. The run loop does not sleep through a deadline: when it goes to sleep with
    nothing to report and nothing happens in the meantime, then at the instant
    at which the supervision would report (a stalled write, too low a rate, a
    late re-exchange or handshake) it is awake, at most a millisecond late. *)
Theorem supervision_not_overslept l now t v s s' : supervise l now v s = (false, s') -> now <= t ->
  (supervise l t v s').1 = true -> now + supervisor_sleep l now v s' <= Z.max t (now + MILLI).
Proof.
  intros Hnow Ht Hfire.
  assert (Hmin : forall x, now + x <= Z.max t (now + MILLI) ->
    (x = default HOUR (next_activity_deadline now l.(write_progress_deadline) s'.(watchdog)) \/
     x = default HOUR (next_min_drain_deadline now l.(write_min_drain) s'.(watchdog)) \/
     x = default HOUR (remaining now v.(rekey)) \/
     x = (if s'.(handshake_done) then HOUR else duration_since l.(handshake_deadline_at) now)) ->
    now + supervisor_sleep l now v s' <= Z.max t (now + MILLI)).
  { intros x Hx Hor. unfold supervisor_sleep, MILLI in *. cbv zeta. destruct Hor as [?|[?|[?|?]]]; lia. }
  assert (Hs : settled v.(eligible) s'.(watchdog) /\ s'.(handshake_done) = s.(handshake_done) || v.(auth_done)).
  { unfold supervise in Hnow. destruct (_ && _); [done|].
    pose proof (poll_settled now l.(write_progress_deadline) l.(write_min_drain) _ _
      (observe_settled now v.(eligible) s.(watchdog))) as Hp.
    destruct (poll_timeout _ _ _ _) as [[c|] w]; [done|]. destruct (poll _ _ _); [done|]. by injection Hnow as <-. }
  destruct Hs as [Hset Hdone]. unfold supervise in Hfire.
  destruct (negb _ && _) eqn:Hhs.
  { apply andb_true_iff in Hhs as [Hd Hle]. apply negb_true_iff, orb_false_iff in Hd as [Hd _].
    apply Z.leb_le in Hle. eapply Hmin; [|do 3 right; reflexivity]. rewrite Hd. unfold duration_since, MILLI. lia. }
  assert (Hp : (poll_timeout t l.(write_progress_deadline) l.(write_min_drain) s'.(watchdog)).1 =
    (poll_timeout t l.(write_progress_deadline) l.(write_min_drain) (observe_eligible t v.(eligible) s'.(watchdog))).1).
  { symmetry. by apply poll_timeout_clocks, settled_observe. }
  destruct (poll_timeout _ _ _ (observe_eligible _ _ _)) as [[c|] w].
  { destruct (poll_timeout_fires now t l.(write_progress_deadline) l.(write_min_drain) s'.(watchdog) Ht)
      as [(x & Hx & Hle)|(x & Hx & Hle)]; [by rewrite Hp| |].
    - eapply (Hmin x Hle). left. by rewrite Hx.
    - eapply (Hmin x Hle). right. left. by rewrite Hx. }
  destruct (poll t _ _) eqn:Hr; [|done]. unfold poll in Hr.
  destruct (rd_generation (rekey v)) as [g|]; [|done]. destruct (deadline_at (rekey v)) as [a|] eqn:Ha; [|done].
  destruct (bool_decide (v.(active_rekey_gen) = Some g)); [|done]. cbn in Hr.
  destruct (a <=? t) eqn:Hat; [|done]. apply Z.leb_le in Hat.
  eapply (Hmin (if a <=? now then 0 else duration_since a now)).
  - destruct (a <=? now) eqn:Han; [unfold MILLI; lia|]. apply Z.leb_gt in Han. unfold duration_since. lia.
  - right. right. left. unfold remaining. by rewrite Ha.
Qed.

(** The first cause stays, in the loop and in the slot. *)
Lemma first_cause_stays c c' : record_cause c' (record_cause c None) = Some c.
Proof. done. Qed.
Lemma slot_first_cause c c' : Slot.get (Slot.record c' (Slot.record c Slot.new)) = Some c.
Proof. by destruct c, c'. Qed.

(** A re-exchange that completed, or was followed by another, does not time out. *)
Lemma completed_rekey_silent now g d cur r : poll now cur (clear_if_generation g (register now g d r)) = None.
Proof. unfold clear_if_generation, register. cbn. by rewrite bool_decide_true. Qed.
Lemma superseded_rekey_silent now start g g' d r : g <> g' -> poll now (Some g') (register start g d r) = None.
Proof. intros Hg. unfold poll, register. cbn. rewrite bool_decide_false; [done|congruence]. Qed.

(** An iteration in which nothing was received and nothing happened but the
    supervisor's own wake-up postpones the inactivity timer. *)
Lemma idle_wakeup_postpones_inactivity now at_ d k n :
  (end_of_iteration now None (Some d) false false (mkTimers k (Some at_) n)).(inactivity_at) = Some (now + d).
Proof. done. Qed.

(** The loop wakes up at least once an hour, so that a longer inactivity timeout
    never fires. *)
Lemma sleep_at_most_an_hour l now v s : supervisor_sleep l now v s <= HOUR \/
  s.(handshake_done) = false.
Proof. unfold supervisor_sleep, HOUR, MILLI. destruct (handshake_done s); [left; lia|by right]. Qed.

(** ** Examples *)
Module Example.
(** Two writes keep a slow peer alive; then nothing for 30 seconds. *)
Definition h : list event := [Observed 0 5; Wrote 10 2; Observed 20 3; Wrote 25 0; Observed 31 3].

Lemma h_ordered : ordered 40 h.
Proof.
  split.
  - intros h1 e1 h2 e2 h3 Hh.
    assert (H1 : h !! length h1 = Some e1) by (rewrite Hh; by apply list_lookup_middle).
    assert (H2 : h !! (length h1 + S (length h2))%nat = Some e2).
    { rewrite Hh, lookup_app_r by lia. replace (_ - _)%nat with (S (length h2)) by lia.
      cbn. by apply list_lookup_middle. }
    clear Hh. revert H1 H2. generalize (length h1) (length h2). intros i j H1 H2.
    do 5 (destruct i as [|i]; [injection H1 as <-; do 5 (destruct j as [|j]; [first [discriminate|injection H2 as <-; cbn; lia]|]);
      discriminate|]). discriminate.
  - repeat constructor; cbn; lia.
Qed.

Lemma stall_detected_exactly_witness :
  (poll_timeout 40 30 None (run h (WriteWatchdog_new 0))).1 = Some WriteStalled <-> stalled 30 40 h.
Proof. apply (stall_detected_exactly 30 40 0 h); [lia|exact h_ordered]. Defined.

Definition limits : Limits := mkLimits 30 (Some (100, 20)) 1000.
Definition view : View := mkView true 7 None RekeyDeadline_default.
Definition before : Supervision := mkSupervision (WriteWatchdog_new 0) false None 0.

Lemma supervision_not_overslept_witness :
  0 + supervisor_sleep limits 0 view (supervise limits 0 view before).2 <= Z.max 25 (0 + MILLI).
Proof.
  apply (supervision_not_overslept limits 0 25 view before (supervise limits 0 view before).2);
    vm_compute; congruence || reflexivity.
Defined.
End Example.
