(* ===== verification/CommonSession.v ===== *)
(** * What both session types share ([CommonSession] of [russh/src/session.rs],
    [SessionKexState] of [russh/src/kex/mod.rs])

    The keys of a connection: how the keys of a completed exchange are installed,
    in the first exchange ([encrypted]) and in later ones ([newkeys]), and the
    messages that a session can send before there are keys ([disconnect],
    [debug]).  Both [russh/src/server/mod.rs] and [russh/src/client/mod.rs]
    apply them to the state of their sessions. *)

From stdpp Require Import base list numbers option gmap strings.
From Stdlib Require Import ZArith Lia.
From S2P Require Import Prelude Encoding LibInner Msg Compression Session Negotiation KexKeys Dh Kex Auth.

(** ** The state of the key exchange *)
Inductive SessionKexState (T : Type) : Type :=
| Idle
| InProgress (kex : T)
| Taken.
Arguments Idle {T}.
Arguments InProgress {T} _.
Arguments Taken {T}.

Definition active {T} (s : SessionKexState T) : bool :=
  match s with Idle => false | InProgress _ => true | Taken => true end.

(** What is taken, and what stays. *)
Definition take {T} (s : SessionKexState T) : SessionKexState T * SessionKexState T :=
  (s, match s with Idle => Idle | _ => Taken end).

(** [PartialEq] compares the variants only. *)
Definition is_idle {T} (s : SessionKexState T) : bool := match s with Idle => true | _ => false end.

(** ** The packet writer, where keys are installed *)
Class KeyedSink {F : Flate2} (W SK : Type) : Type := {
  sink_set_cipher : SK -> W -> W;
  sink_reset_seqn : W -> W;
  sink_reset_bytes : W -> W;                              (* buffer().bytes = 0 *)
  sink_buffer : writer Error.error -> st W Error.error unit;   (* on buffer().buffer *)
  sink_compress : W -> Compress;                          (* compress() *)
  sink_set_compress : Compress -> W -> W;
}.

Section CommonSession.
Context {enc : SshEncoding} {SKY : SshKeys} {F : Flate2}.
Context {K SK OK : Type} {KA : KexAlgorithmImplementor K SK OK}.
Context {W : Type} {KW : KeyedSink W SK}.

(** The fields of [CommonSession] and, while [encrypted] is there, of
    [Encrypted] that depend on the keys; the other fields of [Encrypted] are in
    [Session.Encrypted].  The fields [kex], [key] and the names of the MACs are
    written and never read (except [kex.skip_exchange()]). *)
Record Common : Type := mkCommon {
  packet_writer : W;
  remote_to_local : OK;
  strict_kex : bool;
  disconnected : bool;
  encrypted : option Encrypted;
  exchange : option Exchange;
  session_id : bytes;
  state : EncryptedState;
  client_compression : Compression;
  server_compression : Compression;
  decompress : Decompress;
}.

(** [NewKeys] of this connection. *)
Abbreviation Keys := (@NewKeys SKY K SK OK).

(** The channels and the staging buffer of a connection that has just got its
    first keys; [now] is the time. *)
Definition Encrypted_new (now : Z) (kex : K) : Encrypted :=
  mkEncrypted ∅ 1 [] 0 now false (skip_exchange kex).

Definition set_kex_skip (kex : K) (e : Encrypted) : Encrypted :=
  mkEncrypted e.(channels) e.(last_channel_id) e.(enc_write) e.(write_cursor) e.(last_rekey)
    e.(rekey_wanted) (skip_exchange kex).
Definition set_last_rekey (now : Z) (e : Encrypted) : Encrypted :=
  mkEncrypted e.(channels) e.(last_channel_id) e.(enc_write) e.(write_cursor) now
    e.(rekey_wanted) e.(kex_skip_exchange).

(** [CommonSession::newkeys]. *)
Definition newkeys (nk : Keys) (c : Common) : Common :=
  match c.(encrypted) with
  | None => c
  | Some e =>
      let w := sink_set_cipher nk.(nk_cipher).(local_to_remote) c.(packet_writer) in
      mkCommon
        (sink_set_compress (init_compress c.(client_compression) (sink_compress w)) w)
        nk.(nk_cipher).(KexKeys.remote_to_local)
        (c.(strict_kex) || nk.(nk_names).(Negotiation.strict_kex))
        c.(disconnected)
        (Some (set_kex_skip nk.(nk_kex) e))
        (Some nk.(nk_exchange))
        c.(session_id) c.(state) c.(client_compression) c.(server_compression)
        (init_decompress c.(server_compression) c.(decompress))
  end.

(** [CommonSession::encrypted]. *)
Definition make_encrypted (now : Z) (st : EncryptedState) (nk : Keys) (c : Common) : Common :=
  let client := nk.(nk_names).(Negotiation.client_compression) in
  let server := nk.(nk_names).(Negotiation.server_compression) in
  let w := sink_set_cipher nk.(nk_cipher).(local_to_remote) c.(packet_writer) in
  mkCommon
    (if is_deferred client then w else sink_set_compress (init_compress client (sink_compress w)) w)
    nk.(nk_cipher).(KexKeys.remote_to_local)
    nk.(nk_names).(Negotiation.strict_kex)
    c.(disconnected)
    (Some (Encrypted_new now nk.(nk_kex)))
    (Some nk.(nk_exchange))
    nk.(nk_session_id) st client server
    (if is_deferred server then DecompressNone else init_decompress server DecompressNone).

(** ** Messages that may come before the keys *)
Definition disconnect_body (reason : Disconnect.disconnect) (description language_tag : bytes) : writer Error.error :=
  enc_w (encode_u8 msg.DISCONNECT) ;;; enc_w (encode_u32 (Disconnect.as_u32 reason)) ;;;
  enc_w (encode_bytes description) ;;; enc_w (encode_bytes language_tag).
Definition debug_body (always_display : bool) (message language_tag : bytes) : writer Error.error :=
  enc_w (encode_u8 msg.DEBUG) ;;; enc_w (encode_u8 (Z.b2z always_display)) ;;;
  enc_w (encode_bytes message) ;;; enc_w (encode_bytes language_tag).

(** Into [enc.write], or into the buffer of the packet writer. *)
Definition push_early (body : writer Error.error) : st Common Error.error unit := fun c =>
  match c.(encrypted) with
  | Some e =>
      let '(r, e') := on_write (push_packet body) e in
      (r, mkCommon c.(packet_writer) c.(remote_to_local) c.(strict_kex) c.(disconnected) (Some e')
            c.(exchange) c.(session_id) c.(state) c.(client_compression) c.(server_compression)
            c.(decompress))
  | None =>
      let '(r, w) := sink_buffer (push_packet body) c.(packet_writer) in
      (r, mkCommon w c.(remote_to_local) c.(strict_kex) c.(disconnected) None
            c.(exchange) c.(session_id) c.(state) c.(client_compression) c.(server_compression)
            c.(decompress))
  end.

Definition set_disconnected (c : Common) : Common :=
  mkCommon c.(packet_writer) c.(remote_to_local) c.(strict_kex) true c.(encrypted)
    c.(exchange) c.(session_id) c.(state) c.(client_compression) c.(server_compression) c.(decompress).

Definition disconnect (reason : Disconnect.disconnect) (description language_tag : bytes)
  : st Common Error.error unit := fun c =>
  if negb c.(disconnected) then push_early (disconnect_body reason description language_tag) (set_disconnected c)
  else (Ok tt, c).

Definition debug (always_display : bool) (message language_tag : bytes) : st Common Error.error unit :=
  push_early (debug_body always_display message language_tag).

(** [PacketWriter::reset_seqn]. *)
Definition reset_seqn (c : Common) : Common :=
  mkCommon (sink_reset_seqn c.(packet_writer)) c.(remote_to_local) c.(strict_kex) c.(disconnected)
    c.(encrypted) c.(exchange) c.(session_id) c.(state) c.(client_compression) c.(server_compression)
    c.(decompress).

(** The rest of what a completed re-exchange does to the connection: the
    block after [is_some()] of both [reply] functions. *)
Context {HW : PacketSink W}.
Definition finish_rekey (now : Z) (nk : Keys) : st Common Error.error unit := fun c0 =>
  let c := newkeys nk c0 in
  let w := sink_reset_bytes c.(packet_writer) in
  match c.(encrypted) with
  | None => (Ok tt, c)
  | Some e =>
      let '(r, (w', e')) := flush_all_pending_with_writer (w, set_last_rekey now e) in
      (r, mkCommon w' c.(remote_to_local) c.(strict_kex) c.(disconnected) (Some e')
            c.(exchange) c.(session_id) c.(state) c.(client_compression) c.(server_compression)
            c.(decompress))
  end.

(** [maybe_decompress]: the payload of a packet that was read. *)
Definition maybe_decompress (buffer : bytes) (c : Common) : Result (bytes * Common) :=
  let payload := zdrop 5 buffer in
  match c.(encrypted) with
  | None => Ok (payload, c)
  | Some _ =>
      let? (out, d) := Compression.decompress c.(decompress) payload in
      Ok (out, mkCommon c.(packet_writer) c.(remote_to_local) c.(strict_kex) c.(disconnected)
                 c.(encrypted) c.(exchange) c.(session_id) c.(state) c.(client_compression)
                 c.(server_compression) d)
  end.
End CommonSession.
