(* ===== verification/ServerReply.v ===== *)
(** * A packet on a server connection ([reply] of [russh/src/server/mod.rs], and
    [begin_rekey], [flush], [maybe_send_ext_info] of [server/session.rs])

    [reply] is what the run loop does with a packet: key exchange packets drive
    the state machine of [Kex], whose keys [CommonSession] installs, and the others
    go to [ServerEncrypted.process_packet].  [Conn] is the session with the parts
    that those files leave out: the exchange in progress, the keys, and the deadline
    of a re-exchange ([Supervisor]).

    The field [pending_reads] is never filled by the program and is not in the
    model. *)

From stdpp Require Import base list numbers option gmap strings.
From Stdlib Require Import ZArith Lia.
From S2P Require Import Supervisor.
From S2P Require Import Prelude Encoding Parsing LibInner Msg NameList PendingInbound Cipher Compression Session.
From S2P Require Import CipherImpls Negotiation KexKeys Dh Kex KexRun.
From S2P Require Import ServerSession ServerFrames ChannelOpen Auth ServerAuth ServerEncrypted CommonSession.

(** What the environment supplies while a packet is handled: the time, the random
    cookies of the KEXINIT packets that may be sent, the randomness of the key
    exchange, the buffer of a channel that may be opened, and the application's
    [lookup_dh_gex_group]. *)
Record Input : Type := mkInput {
  now : Z;
  cookie : bytes;
  flush_cookie : bytes;
  rnd : Z;
  new_sender : Z;
  lookup : GexParams -> Result (option DhGroup);
}.

Section ServerReply.
Context {enc : SshEncoding} {SKY : SshKeys} {HKS : HostKeys} {UK : UserKeys}.
Context {Q : Mpsc} {QS : MpscSend Q} {F : Flate2}.
Context {K SK OK : Type} {KA : KexAlgorithmImplementor K SK OK} (KEXES : bytes -> option K).
Context {W : Type} {HW : PacketSink W} {KW : KeyedSink W SK}.

Abbreviation ServerKex := (@ServerKex SKY K SK OK).
Abbreviation Session := (@ServerEncrypted.Session UK Q F W).
Abbreviation Common := (@Common F OK W).
Abbreviation Keys := (@NewKeys SKY K SK OK).

(** ** State *)
Record Conn (H : Type) : Type := mkConn {
  app : Session H;
  kex : SessionKexState ServerKex;
  conn_exchange : option Exchange;         (* enc.exchange *)
  conn_remote_to_local : OK;               (* common.remote_to_local *)
  conn_strict_kex : bool;                  (* common.strict_kex *)
  conn_disconnected : bool;                (* common.disconnected *)
  rekey_gen : Z;
  rekey_deadline : RekeyDeadline;
}.
#[global] Arguments mkConn {H} _ _ _ _ _ _ _ _.
#[global] Arguments app {H} _.
#[global] Arguments kex {H} _.
#[global] Arguments conn_exchange {H} _.
#[global] Arguments conn_remote_to_local {H} _.
#[global] Arguments conn_strict_kex {H} _.
#[global] Arguments conn_disconnected {H} _.
#[global] Arguments rekey_gen {H} _.
#[global] Arguments rekey_deadline {H} _.

(** ** The views of the state *)
Section Views.
Context {H : Type}.
Implicit Types c : Conn H.
Implicit Types s : Session H.

Definition set_server (v : @Server Q W H) (w : W) (e : option Encrypted) (active_ : bool) : @Server Q W H :=
  mkServer v.(inbox) w e active_ v.(target_window_size) v.(outbound_acks) v.(windows) v.(handler)
    v.(arrived) v.(calls) v.(resolved).

(** [enc] before there are keys. *)
Definition encrypted_of c : option Encrypted := c.(app).(srv).(ServerSession.encrypted).

Definition set_app s c : Conn H :=
  mkConn s c.(kex) c.(conn_exchange) c.(conn_remote_to_local) c.(conn_strict_kex) c.(conn_disconnected)
    c.(rekey_gen) c.(rekey_deadline).
Definition set_conn_exchange x c : Conn H :=
  mkConn c.(app) c.(kex) x c.(conn_remote_to_local) c.(conn_strict_kex) c.(conn_disconnected)
    c.(rekey_gen) c.(rekey_deadline).
Definition set_strict_kex b c : Conn H :=
  mkConn c.(app) c.(kex) c.(conn_exchange) c.(conn_remote_to_local) b c.(conn_disconnected)
    c.(rekey_gen) c.(rekey_deadline).
Definition set_rekey g d c : Conn H :=
  mkConn c.(app) c.(kex) c.(conn_exchange) c.(conn_remote_to_local) c.(conn_strict_kex)
    c.(conn_disconnected) g d.
(** [kex.active()] is also a field of the server's state. *)
Definition set_kex k c : Conn H :=
  let s := c.(app) in
  mkConn (set_srv (set_server s.(srv) s.(srv).(writer) s.(srv).(ServerSession.encrypted) (active k)) s) k
    c.(conn_exchange) c.(conn_remote_to_local) c.(conn_strict_kex) c.(conn_disconnected)
    c.(rekey_gen) c.(rekey_deadline).

(** The part that both session types share. *)
Definition common c : Common :=
  mkCommon c.(app).(srv).(writer) c.(conn_remote_to_local) c.(conn_strict_kex) c.(conn_disconnected)
    (encrypted_of c) c.(conn_exchange) c.(app).(ServerEncrypted.session_id) c.(app).(ServerEncrypted.state)
    c.(app).(ServerEncrypted.client_compression) c.(app).(ServerEncrypted.server_compression)
    c.(app).(ServerEncrypted.decompress).
Definition set_common (m : Common) c : Conn H :=
  let s := c.(app) in
  mkConn
    (ServerEncrypted.mkSession (set_server s.(srv) m.(packet_writer) m.(encrypted) (active c.(kex)))
       m.(CommonSession.state) m.(CommonSession.session_id) s.(auth_user) s.(auth_attempts) s.(auth_trace)
       m.(CommonSession.client_compression) m.(CommonSession.server_compression)
       (sink_compress m.(packet_writer)) m.(CommonSession.decompress) s.(wants_reply)
       s.(open_global_requests) s.(answers) s.(ServerEncrypted.open_replies) s.(ServerEncrypted.stashed))
    c.(kex) m.(exchange) m.(remote_to_local) m.(strict_kex) m.(disconnected) c.(rekey_gen) c.(rekey_deadline).

Definition on_common {A} (m : st Common Error.error A) : st (Conn H) Error.error A := fun c =>
  let '(r, m') := m (common c) in (r, set_common m' c).

(** Code on [common.packet_writer]. *)
Definition on_sink {A} (m : st W Error.error A) : st (Conn H) Error.error A := fun c =>
  let v := c.(app).(srv) in
  let '(r, w) := m v.(writer) in (r, set_app (set_srv (ServerSession.set_writer w v) c.(app)) c).

(** Code of [ServerEncrypted], which has the compression state of the packet
    writer as a field. *)
Definition on_app {E A} (m : st (Session H) E A) : st (Conn H) E A := fun c =>
  let s := c.(app) in
  let '(r, s') := m (set_streams (sink_compress s.(srv).(writer)) s.(ServerEncrypted.decompress) s) in
  let v := s'.(srv) in
  (r, set_app (set_srv (set_server v (sink_set_compress s'.(compress) v.(writer)) v.(ServerSession.encrypted)
                          (active c.(kex))) s') c).
End Views.

Section Operations.
(** The configuration: of the key exchange, the identification strings, the
    limits, the time for a re-exchange; and what [ServerEncrypted] takes. *)
Context (kconfig : ServerConfig) (remote_sshid server_id : bytes) (limits : Limits) (rekey_timeout : Z).
Context (config : Config) (window_size maximum_packet_size : Z) (auth_methods : MethodSet).
Context (auth_rejection_time : Z) (auth_rejection_time_initial : option Z) (after_failure : bytes -> bytes).
Context {H E : Type} {HH : @Handler Q W H E} {AH : AuthHandler H E} {RH : @RequestHandler UK Q F W H E}.
Implicit Types c : Conn H.

Definition up {A} (m : st (Conn H) Error.error A) : st (Conn H) E A := st_map_err from_error m.

(** ** Starting a key exchange *)
Definition rekey_cause c : KexCause :=
  match encrypted_of c with
  | None => Initial
  | Some _ => Rekey c.(conn_strict_kex) c.(app).(ServerEncrypted.session_id)
  end.

Definition begin_rekey (now : Z) (cookie : bytes) : st (Conn H) Error.error unit := fun c =>
  (do kx <- on_sink (server_kexinit cookie (ServerKex_new kconfig remote_sshid server_id (rekey_cause c))) ;;
   st_mod (set_kex (InProgress kx)) ;;;
   st_mod (fun c =>
     match encrypted_of c with
     | Some _ =>
         let kex_gen := (c.(rekey_gen) + 1) mod U64_MOD in
         set_rekey kex_gen (register now kex_gen rekey_timeout c.(rekey_deadline)) c
     | None => c
     end)) c.

Definition clear_rekey_deadline c : Conn H :=
  set_rekey c.(rekey_gen)
    (match c.(rekey_deadline).(rd_generation) with
     | Some kex_gen => clear_if_generation kex_gen c.(rekey_deadline)
     | None => Supervisor.clear c.(rekey_deadline)
     end) c.

Definition active_rekey_gen c : option Z :=
  if active c.(kex)
  then match c.(rekey_deadline).(rd_generation) with Some g => Some g | None => Some c.(rekey_gen) end
  else None.

Definition flush (now : Z) (cookie : bytes) : st (Conn H) Error.error unit := fun c =>
  match encrypted_of c with
  | None => (Ok tt, c)
  | Some e =>
      let v := c.(app).(srv) in
      let '(r, (w, e')) := Session.flush limits now (v.(writer), e) in
      let c' := set_app (set_srv (set_server v w (Some e') v.(kex_active)) c.(app)) c in
      match r with
      | Ok wanted =>
          if wanted && is_idle c'.(kex) then
            match c'.(conn_exchange) with
            | Some _ => begin_rekey now cookie (set_conn_exchange None c')
            | None => (Ok tt, c')
            end
          else (Ok tt, c')
      | Err x => (Err x, c')
      | Panic => (Panic, c')
      end
  end.

(** Whether the client's KEXINIT offers [ext-info-c]; [None] when it is too short. *)
Definition key_extension_client (x : option Exchange) : option bool :=
  match x with
  | None => Some false
  | Some x =>
      if zlen x.(client_kex_init) <? 17 then None
      else
        Some (match NameList.decode (zdrop 17 x.(client_kex_init)) with
              | Ok (kex_list, _) =>
                  match Server_select (fun x => x) (fun x => x) [kex.EXTENSION_SUPPORT_AS_CLIENT] kex_list
                          KindKex with
                  | Ok _ => true
                  | _ => false
                  end
              | _ => false
              end)
  end.

Definition ext_info_body : Encoding.writer Error.error :=
  enc_w (encode_u8 msg.EXT_INFO) ;;; enc_w (encode_u32 1) ;;;
  enc_w (encode_bytes (str "server-sig-algs")) ;;;
  encode_names (map alg_str kconfig.(s_preferred).(p_key)).

Definition maybe_send_ext_info : st (Conn H) Error.error unit := fun c =>
  match encrypted_of c, key_extension_client c.(conn_exchange) with
  | Some _, Some true =>
      let v := c.(app).(srv) in
      let '(r, v') := on_encrypted (on_write (push_packet ext_info_body)) v in
      (r, set_app (set_srv v' c.(app)) c)
  | _, _ => (Ok tt, c)
  end.

(** ** [reply] *)
Definition ignored (m : Z) : bool := memb m [msg.IGNORE; msg.UNIMPLEMENTED; msg.DEBUG].

(** The first check; [seqn] counts the packet already. *)
Definition check_strict (pkt : IncomingSshPacket) c : Result unit :=
  match pkt.(pkt_buffer) with
  | [] => Ok tt
  | message_type :: _ =>
      if c.(conn_strict_kex) && bool_decide (encrypted_of c = None) then
        if pkt.(pkt_seqn) =? 0 then Panic
        else validate_client_msg_strict_kex message_type (pkt.(pkt_seqn) - 1)
      else Ok tt
  end.

(** The keys of a completed exchange, in use. *)
Definition kex_done (i : Input) (nk : Keys) : st (Conn H) E unit :=
  st_mod (fun c => set_strict_kex (c.(conn_strict_kex) || nk.(nk_names).(Negotiation.strict_kex)) c) ;;;
  (fun c =>
     match encrypted_of c with
     | Some _ => (up (on_common (finish_rekey i.(now) nk)) ;;; up (flush i.(now) i.(flush_cookie))) c
     | None =>
         (up (on_common (st_mod (make_encrypted i.(now) (WaitingAuthServiceRequest false false) nk))) ;;;
          up maybe_send_ext_info) c
     end) ;;;
  st_mod (set_kex Idle) ;;; st_mod clear_rekey_deadline.

Definition kex_progress (i : Input) (seqn : Z) (progress : KexProgress ServerKex) : st (Conn H) E Z :=
  match progress with
  | NeedsReply kx reset_seqn_ =>
      st_mod (set_kex (InProgress kx)) ;;;
      (if reset_seqn_ : bool then up (on_common (st_mod CommonSession.reset_seqn)) else st_ret tt) ;;;
      st_ret seqn
  | Done _ nk =>
      kex_done i nk ;;;
      (fun c => (Ok (if c.(conn_strict_kex) then 0 else seqn), c))
  end.

Definition kex_packet (i : Input) (pkt : IncomingSshPacket) (kx : ServerKex) : st (Conn H) E Z :=
  do progress <- up (on_sink (server_step KEXES i.(lookup) i.(rnd) (Some pkt) kx)) ;;
  do seqn <- kex_progress i pkt.(pkt_seqn) progress ;;
  up (flush i.(now) i.(flush_cookie)) ;;;
  st_ret seqn.

Abbreviation process := (process_packet config window_size maximum_packet_size auth_methods
  auth_rejection_time auth_rejection_time_initial after_failure).

(** The packet number that the reading side goes on with. *)
Definition reply (i : Input) (pkt : IncomingSshPacket) : st (Conn H) E Z := fun c =>
  match map_err from_error (check_strict pkt c) with
  | Err x => (Err x, c)
  | Panic => (Panic, c)
  | Ok _ =>
      let first := head pkt.(pkt_buffer) in
      if match first with Some m => ignored m | None => false end then (Ok pkt.(pkt_seqn), c)
      else
        ((if bool_decide (first = Some msg.KEXINIT) && is_idle c.(kex)
          then up (begin_rekey i.(now) i.(cookie)) else st_ret tt) ;;;
         fun c =>
           match (if match first with Some m => is_kex_msg m | None => false end then fst (take c.(kex)) else Idle) with
           | InProgress kx => kex_packet i pkt kx (set_kex (snd (take c.(kex))) c)
           | _ =>
               (on_app (process i.(now) i.(new_sender) pkt.(pkt_buffer)) ;;;
                st_ret pkt.(pkt_seqn)) c
           end) c
  end.

(** A connection before its first packet ([run_stream]). *)
Definition Conn_new (w : W) (key : OK) (handler : H) (target : Z) : Conn H :=
  mkConn
    (ServerEncrypted.mkSession (mkServer (mkInbox ∅ ∅ ∅ []) w None false target ∅ ∅ handler [] [] [])
       (WaitingAuthServiceRequest false false) [] [] 0 [] CompressionNone CompressionNone
       (sink_compress w) DecompressNone false [] [] [] [])
    Idle None key false false 0 RekeyDeadline_default.
End Operations.
End ServerReply.

(** ** What holds of every connection *)
Section Connection.
Context {enc : SshEncoding} {SKY : SshKeys} {HKS : HostKeys} {UK : UserKeys}.
Context {Q : Mpsc} {QS : MpscSend Q} {F : Flate2}.
Context {K SK OK : Type} {KA : KexAlgorithmImplementor K SK OK} (KEXES : bytes -> option K).
Context {W : Type} {HW : PacketSink W} {KW : KeyedSink W SK}.
Context (kconfig : ServerConfig) (remote_sshid server_id : bytes) (limits : Limits) (rekey_timeout : Z).
Context (config : Config) (window_size maximum_packet_size : Z) (auth_methods : MethodSet).
Context (auth_rejection_time : Z) (auth_rejection_time_initial : option Z) (after_failure : bytes -> bytes).
Context {H E : Type} {HH : @Handler Q W H E} {AH : AuthHandler H E} {RH : @RequestHandler UK Q F W H E}.

Abbreviation Conn := (@Conn SKY UK Q F K SK OK W H).
Implicit Types c : Conn.
Abbreviation ServerKex := (@ServerKex SKY K SK OK).
Abbreviation Session := (@ServerEncrypted.Session UK Q F W H).

Abbreviation begin_rekey := (begin_rekey kconfig remote_sshid server_id rekey_timeout).
Abbreviation flush := (flush kconfig remote_sshid server_id limits rekey_timeout).
Abbreviation reply := (reply KEXES kconfig remote_sshid server_id limits rekey_timeout config window_size
  maximum_packet_size auth_methods auth_rejection_time auth_rejection_time_initial after_failure (E := E)).

(** What the application's callbacks and the rest of the run loop leave alone:
    the authentication, and that there are keys. *)
Definition same_session (s s' : Session) : Prop := same_auth s s' /\ keeps_keys s.(srv) s'.(srv).

#[export] Instance same_session_frame : SessionFrame same_session keeps_keys.
Proof.
  split; try apply _; try (intros; by repeat split).
  - split; [done|]. intros s1 s2 s3 [A1 K1] [A2 K2]. split; [by etransitivity|].
    unfold keeps_keys in *. by rewrite K2.
  - intros v s Hk. split; [by repeat split|exact Hk].
  - intros v l k s Hk. split; [by repeat split|exact Hk].
Qed.

(** Code that leaves these, and the key exchange, alone. *)
Definition steady c c' : Prop :=
  same_session c.(app) c'.(app) /\ c'.(kex) = c.(kex) /\ c'.(conn_strict_kex) = c.(conn_strict_kex) /\
  c'.(rekey_gen) = c.(rekey_gen) /\ c'.(rekey_deadline) = c.(rekey_deadline).

(** A connection, from the first KEXINIT on: packets, flushes, and whatever
    else the run loop does. *)
Definition started c : Prop :=
  exists w key h target t cookie, begin_rekey t cookie (Conn_new w key h target) = (Ok tt, c).

Inductive conn_step c : Conn -> Prop :=
| step_packet i pkt n c' : reply i pkt c = (Ok n, c') -> conn_step c c'
| step_flush t cookie c' : flush t cookie c = (Ok tt, c') -> conn_step c c'
| step_other c' : steady c c' -> conn_step c c'.

(** *** The invariant *)
Definition has_keys c : Prop := is_Some (encrypted_of c).

(** The exchange in progress is the right one: the first, or a later one of this
    session. *)
Definition kex_ok c : Prop :=
  match c.(kex) with
  | Idle => has_keys c
  | InProgress kx => kx.(s_cause) = rekey_cause c
  | Taken => False
  end.

(** A deadline is set exactly while a re-exchange is in progress. *)
Definition deadline_ok c : Prop :=
  if active c.(kex) && bool_decide (has_keys c)
  then c.(rekey_deadline).(rd_generation) = Some c.(rekey_gen) /\ is_Some c.(rekey_deadline).(deadline_at)
  else c.(rekey_deadline) = RekeyDeadline_default.

Definition auth_ok c : Prop :=
  if bool_decide (has_keys c) then sound c.(app)
  else c.(app).(ServerEncrypted.state) = WaitingAuthServiceRequest false false /\
       c.(app).(auth_user) = [] /\ c.(app).(auth_trace) = [].

Record conn_inv c : Prop := mkConnInv {
  inv_strict : c.(conn_strict_kex) = true -> has_keys c;
  inv_kex : kex_ok c;
  inv_deadline : deadline_ok c;
  inv_auth : auth_ok c;
}.

#[local] Instance steady_preorder : PreOrder steady.
Proof.
  split; [by repeat split|]. intros c1 c2 c3 (A1 & ? & ? & ? & ?) (A2 & ? & ? & ? & ?).
  split_and!; try congruence. by etransitivity.
Qed.

Lemma steady_keys c c' : steady c c' -> has_keys c' <-> has_keys c.
Proof. by intros ([_ Hk] & _). Qed.

Lemma steady_cause c c' : steady c c' -> rekey_cause c' = rekey_cause c.
Proof.
  intros Hs. pose proof (steady_keys _ _ Hs) as Hk. destruct Hs as ([(_ & Hid & _) _] & _ & Hstrict & _).
  unfold rekey_cause, has_keys in *. rewrite Hid, Hstrict.
  destruct (encrypted_of c), (encrypted_of c'); try done.
  - by destruct (proj2 Hk (ex_intro _ _ eq_refl)).
  - by destruct (proj1 Hk (ex_intro _ _ eq_refl)).
Qed.

Lemma steady_inv c c' : steady c c' -> conn_inv c -> conn_inv c'.
Proof.
  intros Hs [H1 H2 H3 H4]. pose proof (steady_keys _ _ Hs) as Hk. pose proof (steady_cause _ _ Hs) as Hc.
  destruct Hs as ([Ha _] & Hkex & Hst & Hg & Hd).
  split; unfold kex_ok, deadline_ok, auth_ok in *; rewrite ?Hkex, ?Hst, ?Hg, ?Hd, ?Hc, ?(bool_decide_ext _ _ Hk).
  - rewrite Hk. exact H1.
  - destruct (kex c); [by apply Hk|done|done].
  - done.
  - destruct (bool_decide (has_keys c)); [by eapply sound_same_auth|].
    destruct Ha as (-> & _ & -> & ->). done.
Qed.

(** *** The steps *)
Lemma conn_up_ok {A} (m : st Conn Error.error A) c a c' :
  (up m : st Conn E A) c = (Ok a, c') -> m c = (Ok a, c').
Proof. unfold up, st_map_err. by destruct (m c) as [[| |] ?]; intros [= <- <-]. Qed.

Lemma on_sink_steady {A} (m : st W Error.error A) : framed steady (on_sink m : st Conn _ A).
Proof. intros c. unfold on_sink. destruct (m _). by repeat split. Qed.

(** The exchange that a step of the machine goes on with has the same cause. *)
Lemma server_kexinit_cause ck (kx : ServerKex) (w : W) kx' w' :
  server_kexinit ck kx w = (Ok kx', w') -> kx'.(s_cause) = kx.(s_cause).
Proof. unfold server_kexinit. intros H1. inv_st H1. by simplify_eq. Qed.

Lemma server_step_cause lookup rnd input (kx : ServerKex) (w : W) kx' b w' :
  server_step KEXES lookup rnd input kx w = (Ok (NeedsReply kx' b), w') -> kx'.(s_cause) = kx.(s_cause).
Proof.
  unfold server_step. destruct input as [input|]; [|done]. destruct (s_state kx).
  - unfold server_created. intros H1. destruct (negb _); [done|]. inv_st H1.
    destruct (skip_exchange _); inv_st H1; by simplify_eq.
  - unfold server_gex_request. intros H1. destruct (negb _); [done|]. inv_st H1.
    match type of H1 with (match ?x with _ => _ end) _ = _ => destruct x end; inv_st H1; by simplify_eq.
  - unfold server_dh_init. intros H1. destruct (ignore_guessed _); [inv_st H1; by simplify_eq|].
    destruct (negb _); [done|]. inv_st H1. destruct (List.find _ _); inv_st H1; by simplify_eq.
  - unfold server_new_keys. intros H1. destruct (negb _); [done|]. inv_st H1. by simplify_eq.
Qed.

(** Another exchange in progress, or none. *)
Lemma set_kex_inv c k g d :
  (c.(conn_strict_kex) = true -> has_keys c) -> auth_ok c -> kex_ok (set_kex k c) ->
  deadline_ok (set_rekey g d (set_kex k c)) -> conn_inv (set_rekey g d (set_kex k c)).
Proof. intros H1 H2 H3 H4. by split. Qed.

Lemma keys_cases c : {e | encrypted_of c = Some e /\ has_keys c} + {encrypted_of c = None /\ ~ has_keys c}.
Proof.
  unfold has_keys. destruct (encrypted_of c) as [e|].
  - left. exists e. split; [done|by exists e].
  - right. split; [done|]. by intros [? ?].
Qed.

Lemma begin_rekey_ok t ck c c' : begin_rekey t ck c = (Ok tt, c') ->
  (c.(conn_strict_kex) = true -> has_keys c) -> auth_ok c ->
  (has_keys c \/ c.(rekey_deadline) = RekeyDeadline_default) ->
  conn_inv c' /\ same_session c.(app) c'.(app).
Proof.
  intros H1 Hst Ha Hd. unfold ServerReply.begin_rekey in H1.
  apply st_bind_ok in H1 as (kx & c1 & H2 & H1).
  pose proof (framed_result _ _ _ _ _ (on_sink_steady _) H2) as Hs1.
  assert (Hc : s_cause kx = rekey_cause c).
  { unfold on_sink in H2. destruct (server_kexinit _ _ _) as [r w] eqn:Hm. injection H2 as -> _.
    by apply server_kexinit_cause in Hm. }
  unfold st_bind, st_mod in H1. injection H1 as <-.
  pose proof (steady_keys _ _ Hs1) as Hkeys. pose proof (steady_cause _ _ Hs1) as Hcause.
  assert (Hauth : auth_ok c1).
  { revert Ha. unfold auth_ok. rewrite (bool_decide_ext _ _ Hkeys). destruct Hs1 as ([Hsa _] & _).
    destruct (bool_decide _); [by apply sound_same_auth|]. destruct Hsa as (-> & _ & -> & ->). done. }
  assert (Hst1 : conn_strict_kex c1 = true -> has_keys c1).
  { destruct Hs1 as (_ & _ & -> & _). by rewrite Hkeys. }
  assert (Hkex : kex_ok (set_kex (InProgress kx) c1)) by (cbn; by rewrite Hc, <- Hcause).
  destruct Hs1 as (Hss & _ & _ & Hg & Hrd).
  change (encrypted_of (set_kex (InProgress kx) c1)) with (encrypted_of c1).
  destruct (keys_cases c1) as [(e & -> & Hy)|[-> Hn]]; (split; [|exact Hss]).
  - apply set_kex_inv; try done. unfold deadline_ok. cbn. rewrite bool_decide_true by exact Hy.
    split; [done|by eexists].
  - apply (set_kex_inv c1 _ (rekey_gen c1) (rekey_deadline c1)); try done. unfold deadline_ok. cbn.
    rewrite bool_decide_false by exact Hn. rewrite Hrd. destruct Hd as [Hd|Hd]; [|done]. by apply Hkeys in Hd.
Qed.

Lemma set_encrypted_steady c w e e' a : encrypted_of c = Some e ->
  steady c (set_app (set_srv (set_server c.(app).(srv) w (Some e') a) c.(app)) c).
Proof.
  intros He. split; [|by repeat split]. split; [by repeat split|]. unfold keeps_keys. cbn.
  unfold encrypted_of in He. rewrite He. split; eauto.
Qed.

(** Flushing, while an exchange is in progress or not. *)
Lemma flush_busy t ck c r c' : flush t ck c = (r, c') -> is_idle c.(kex) = false -> steady c c'.
Proof.
  intros H1 Hk. unfold ServerReply.flush in H1. destruct (keys_cases c) as [(e & He & Hy)|[He Hn]]; rewrite He in H1.
  - destruct (Session.flush _ _ _) as [x [w e']]. cbv zeta in H1. cbn [kex set_app] in H1. rewrite Hk in H1.
    destruct x as [wanted| |]; rewrite ?andb_false_r in H1; injection H1 as _ <-; by eapply set_encrypted_steady.
  - by injection H1 as _ <-.
Qed.

Lemma flush_ok t ck c c' : flush t ck c = (Ok tt, c') -> conn_inv c ->
  conn_inv c' /\ same_session c.(app) c'.(app).
Proof.
  intros H1 Hinv. destruct (is_idle (kex c)) eqn:Hk.
  2: { apply flush_busy in H1; [|done]. split; [by eapply steady_inv|apply H1]. }
  unfold ServerReply.flush in H1. destruct (keys_cases c) as [(e & He & Hy)|[He Hn]]; rewrite He in H1;
    [|by injection H1 as <-].
  destruct (Session.flush _ _ _) as [r [w e']]. cbv zeta in H1.
  set (c1 := set_app _ c) in H1.
  assert (Hs : steady c c1) by by eapply set_encrypted_steady.
  clearbody c1. assert (Hinv1 : conn_inv c1) by by eapply steady_inv.
  destruct r as [wanted| |]; try done. destruct (_ && _); [|by injection H1 as <-; split; [|apply Hs]].
  destruct (conn_exchange c1); [|by injection H1 as <-; split; [|apply Hs]].
  apply begin_rekey_ok in H1 as [H1 H2].
  - split; [done|]. transitivity (app c1); [apply Hs|exact H2].
  - apply Hinv1.
  - apply Hinv1.
  - left. by apply (steady_keys _ _ Hs).
Qed.

(** *** Packets for [ServerEncrypted] *)
Context {HF : HandlerFrame keeps_keys} {RF : RequestHandlerFrame same_session}.

Abbreviation process := (process_packet config window_size maximum_packet_size auth_methods
  auth_rejection_time auth_rejection_time_initial after_failure (H := H) (E := E)).

#[local] Instance handler_same_auth : RequestHandlerFrame same_auth.
Proof. eapply handler_frame_mono, RF. by intros s s' [? _]. Qed.

(** A session keeps its id and its keys. *)
Definition same_id (s s' : Session) : Prop :=
  s'.(ServerEncrypted.session_id) = s.(ServerEncrypted.session_id) /\ keeps_keys s.(srv) s'.(srv).

#[local] Instance same_id_preorder : PreOrder same_id.
Proof.
  split; [by split|]. intros s1 s2 s3 [A1 K1] [A2 K2]. split; [congruence|]. unfold keeps_keys in *. by rewrite K2.
Qed.

Lemma same_session_id s s' : same_session s s' -> same_id s s'.
Proof. intros [(_ & Hid & _) Hk]. by split. Qed.

Lemma framed_same_id {X A} (m : st Session X A) : framed same_session m -> framed same_id m.
Proof. intros Hm s. apply same_session_id, Hm. Qed.

Lemma on_auth_same_id {A} (m : st (AuthCtx H) E A) : framed same_id (on_auth m).
Proof.
  intros s. unfold on_auth. destruct (ServerSession.encrypted (srv s)) eqn:He; [|done]. destruct (m _) as [r c].
  split; [done|]. unfold keeps_keys. cbn. rewrite He. split; eauto.
Qed.

Lemma process_same_id t p buf : framed same_id (process t p buf).
Proof.
  assert (Hadmit : framed same_id (st_mod start_decompress ;;; auth_succeeded : st Session E unit))
    by (apply framed_same_id, (frames_admit same_session keeps_keys)).
  assert (Hread : forall m r, framed same_id (server_read_authenticated config window_size maximum_packet_size p m r))
    by (intros; apply framed_same_id, (frames_authenticated same_session keeps_keys)).
  intros s. unfold process_packet. destruct (ServerSession.encrypted (srv s)); [|done].
  destruct (ServerEncrypted.state s) eqn:Hst, buf as [|m r]; try done.
  - destruct (m =? _); [|done]. refine ((_ : framed same_id (recv_service_request _ r)) s).
    unfold recv_service_request. apply framed_bind; [apply _|by intros s1|]. intros [request r'].
    apply framed_bind; [apply _|by intros s1|]. intros _. destruct (beq _ _); [|by intros s1].
    apply framed_bind; [apply _|apply on_auth_same_id|]. intros a. by apply framed_mod.
  - destruct (m =? _).
    { refine ((_ : framed same_id (recv_auth_request _ _ _ _ _)) s). unfold recv_auth_request.
      apply framed_bind; [apply _|intros s1; apply on_auth_same_id|]. intros _. apply framed_bind; [apply _|by apply framed_mod|].
      intros _ s1. destruct (ServerEncrypted.state s1); done. }
    destruct (m =? _); [|done]. refine ((_ : framed same_id (recv_info_response _ _ r)) s).
    unfold recv_info_response. apply framed_bind; [apply _|intros s1; apply on_auth_same_id|].
    intros [|]; [|by intros s1]. apply framed_bind; [apply _|by apply framed_mod|]. intros _. apply Hadmit.
  - match goal with |- same_id _ (?m0 s).2 => refine ((_ : framed same_id m0) s) end.
    apply framed_bind; [apply _|apply framed_same_id, (frames_start_compress same_session keeps_keys)|]. intros _.
    apply framed_bind; [apply _|by apply framed_mod|]. intros _. apply Hread.
  - apply Hread.
Qed.

(** *** Packets of the key exchange *)

(** A change of the keys, in the first exchange ([id] is free) or a later one. *)
Lemma on_common_keys {A} (m : st (@Common F OK W) Error.error A) c a c' :
  on_common m c = (Ok a, c') -> exists m', m (common c) = (Ok a, m') /\ c' = set_common m' c.
Proof. unfold on_common. destruct (m (common c)) as [r m']. intros [= -> <-]. by exists m'. Qed.

Lemma set_common_steady m c :
  m.(CommonSession.session_id) = c.(app).(ServerEncrypted.session_id) ->
  m.(CommonSession.state) = c.(app).(ServerEncrypted.state) ->
  m.(strict_kex) = c.(conn_strict_kex) -> (is_Some m.(encrypted) <-> has_keys c) ->
  steady c (set_common m c).
Proof. intros H1 H2 H3 H4. split; [|by repeat split]. by split. Qed.

Lemma reset_seqn_steady : framed steady (on_common (st_mod CommonSession.reset_seqn) : st Conn _ _).
Proof. intros c. by apply set_common_steady. Qed.

Lemma exchange_goes_on c kx kx' c1 : conn_inv c -> c.(kex) = InProgress kx -> s_cause kx' = s_cause kx ->
  steady (set_kex Taken c) c1 ->
  conn_inv (set_kex (InProgress kx') c1) /\ same_session c.(app) c1.(app).
Proof.
  intros [I1 I2 I3 I4] Hk Hc Hs. pose proof (steady_keys _ _ Hs) as Hkeys. pose proof (steady_cause _ _ Hs) as Hcause.
  change (has_keys (set_kex Taken c)) with (has_keys c) in Hkeys.
  change (rekey_cause (set_kex Taken c)) with (rekey_cause c) in Hcause.
  destruct Hs as ([Ha Hp] & _ & Hst & Hg & Hd). cbn in Hst, Hg, Hd.
  split; [|by split]. split.
  - cbn. change (has_keys (set_kex (InProgress kx') c1)) with (has_keys c1). rewrite Hst, Hkeys. exact I1.
  - unfold kex_ok in *. rewrite Hk in I2. cbn. by rewrite Hc, I2, <- Hcause.
  - unfold deadline_ok in *. rewrite Hk in I3. cbn in *.
    change (has_keys (set_kex (InProgress kx') c1)) with (has_keys c1).
    by rewrite (bool_decide_ext _ _ Hkeys), Hg, Hd.
  - unfold auth_ok in *. change (has_keys (set_kex (InProgress kx') c1)) with (has_keys c1).
    rewrite (bool_decide_ext _ _ Hkeys). destruct (bool_decide _); [by eapply sound_same_auth|].
    cbn. destruct Ha as (-> & _ & -> & ->). done.
Qed.

(** The end of an exchange. *)
Lemma exchange_ends c : has_keys c -> sound c.(app) -> conn_inv (clear_rekey_deadline (set_kex Idle c)).
Proof.
  intros Hk Hs. apply (set_kex_inv c Idle); try done.
  - unfold auth_ok. by rewrite bool_decide_true.
  - unfold deadline_ok. cbn. destruct (rd_generation _) as [g|] eqn:Hg; [|done].
    unfold clear_if_generation. by rewrite bool_decide_true.
Qed.

Lemma finish_rekey_keeps t (nk : @NewKeys SKY K SK OK) (m m' : @Common F OK W) a :
  finish_rekey t nk m = (Ok a, m') -> is_Some m.(encrypted) ->
  is_Some m'.(encrypted) /\ m'.(CommonSession.session_id) = m.(CommonSession.session_id) /\
  m'.(CommonSession.state) = m.(CommonSession.state).
Proof.
  unfold finish_rekey, CommonSession.newkeys. intros H1 [e He]. rewrite He in H1. cbn in H1.
  destruct (flush_pending_list_with_writer _ _) as [r [w e']]. injection H1 as _ <-. cbn. by split; [eexists|].
Qed.

Lemma ext_info_steady : framed steady (maybe_send_ext_info kconfig : st Conn _ _).
Proof.
  intros c. unfold maybe_send_ext_info. destruct (keys_cases c) as [(e & He & Hy)|[-> Hn]]; [rewrite He|done].
  destruct (key_extension_client _) as [[]|]; try done. unfold on_encrypted.
  unfold encrypted_of in He. rewrite He. destruct (on_write _ e) as [r e'].
  split; [|by repeat split]. split; [by repeat split|]. unfold keeps_keys. cbn. rewrite He. split; eauto.
Qed.

(** The session goes on: the invariant, and, once there are keys, the session
    id. *)
Definition goes_on c c' : Prop := conn_inv c' /\ (has_keys c -> same_id c.(app) c'.(app)).

Lemma goes_on_trans c1 c2 c3 : goes_on c1 c2 -> (has_keys c2 -> same_id c2.(app) c3.(app)) -> conn_inv c3 ->
  goes_on c1 c3.
Proof.
  intros [_ H1] H2 H3. split; [done|]. intros Hk. specialize (H1 Hk). etransitivity; [exact H1|].
  apply H2. by apply H1.
Qed.

Lemma kex_done_ok i nk c c' : kex_done kconfig remote_sshid server_id limits rekey_timeout i nk c = (Ok tt, c') ->
  c.(kex) = Taken -> auth_ok c -> goes_on c c'.
Proof.
  intros H1 Hk Ha. unfold kex_done in H1.
  apply st_bind_ok in H1 as ([] & c0 & H2 & H1). injection H2 as <-.
  apply st_bind_ok in H1 as ([] & c1 & H2 & H1). unfold st_bind, st_mod in H1. injection H1 as <-.
  change (encrypted_of (set_strict_kex _ c)) with (encrypted_of c) in H2.
  enough (Hg : has_keys c1 /\ sound c1.(app) /\ (has_keys c -> same_id c.(app) c1.(app))).
  { destruct Hg as (G1 & G2 & G3). split; [by apply exchange_ends|exact G3]. }
  unfold auth_ok in Ha. destruct (keys_cases c) as [(e & He & Hy)|[He Hn]]; rewrite He in H2.
  - rewrite bool_decide_true in Ha by done.
    apply st_bind_ok in H2 as ([] & c2 & H3 & H2). apply conn_up_ok in H2, H3.
    apply on_common_keys in H3 as (m' & Hm & ->). apply flush_busy in H2; [|by cbn; rewrite Hk].
    apply finish_rekey_keeps in Hm as (M1 & M2 & M3); [|done]. cbn in M2, M3.
    split_and!.
    + apply (steady_keys _ _ H2). exact M1.
    + destruct H2 as ([Hs _] & _). eapply sound_same_auth; [exact Hs|]. revert Ha. unfold sound.
      cbn. rewrite M2. apply auth_inv_ext; cbn; congruence.
    + intros _. etransitivity; [|apply same_session_id, H2]. split; [exact M2|]. unfold keeps_keys. by split.
  - rewrite bool_decide_false in Ha by done. destruct Ha as (A1 & A2 & A3).
    apply st_bind_ok in H2 as ([] & c2 & H3 & H2). apply conn_up_ok in H2, H3.
    apply on_common_keys in H3 as (m' & Hm & ->). injection Hm as <-.
    pose proof (framed_result _ _ _ _ _ ext_info_steady H2) as Hs. split_and!; [| |by intros ?].
    + apply (steady_keys _ _ Hs). by eexists.
    + destruct Hs as ([Hs _] & _). eapply sound_same_auth; [exact Hs|]. unfold sound, auth_inv. cbn.
      rewrite A2, A3. split; [by constructor|done].
Qed.

Lemma kex_packet_ok i pkt kx c n c' :
  kex_packet KEXES kconfig remote_sshid server_id limits rekey_timeout i pkt kx (set_kex Taken c) = (Ok n, c') ->
  conn_inv c -> c.(kex) = InProgress kx -> goes_on c c'.
Proof.
  intros H1 Hinv Hk. unfold kex_packet in H1.
  apply st_bind_ok in H1 as (progress & c1 & H2 & H1). apply conn_up_ok in H2.
  pose proof (framed_result _ _ _ _ _ (on_sink_steady _) H2) as Hs.
  apply st_bind_ok in H1 as (seqn & c2 & H3 & H1). apply st_bind_ok in H1 as ([] & c3 & H4 & H1).
  apply st_ret_ok in H1 as [-> ->]. apply conn_up_ok in H4.
  enough (Hg : goes_on c c2).
  { pose proof Hg as [Hg1 _]. apply flush_ok in H4 as [F1 F2]; [|done].
    eapply goes_on_trans; [exact Hg| |done]. intros _. by apply same_session_id. }
  destruct progress as [kx' b|host nk]; cbn [kex_progress] in H3.
  - assert (Hc : s_cause kx' = s_cause kx).
    { unfold on_sink in H2. destruct (server_step _ _ _ _ _ _) as [r w] eqn:Hst. injection H2 as -> _.
      by eapply server_step_cause. }
    pose proof (exchange_goes_on c kx kx' c1 Hinv Hk Hc Hs) as [G1 G2].
    apply st_bind_ok in H3 as ([] & c4 & H5 & H3). injection H5 as <-.
    apply st_bind_ok in H3 as ([] & c5 & H5 & H3). apply st_ret_ok in H3 as [-> ->].
    assert (Hs2 : steady (set_kex (InProgress kx') c1) c5).
    { destruct b; [|by apply st_ret_ok in H5 as [_ ->]]. apply conn_up_ok in H5.
      by eapply framed_result; [apply reset_seqn_steady|]. }
    split; [by eapply steady_inv|]. intros _. etransitivity; [by apply same_session_id|].
    apply same_session_id, Hs2.
  - apply st_bind_ok in H3 as ([] & c4 & H5 & H3). injection H3 as _ <-.
    apply kex_done_ok in H5.
    + eapply goes_on_trans; [split; [exact Hinv|reflexivity]| |apply H5]. intros Hy.
      transitivity (app c1); [apply same_session_id, Hs|]. apply H5. by apply (steady_keys _ _ Hs).
    + by destruct Hs as (_ & -> & _).
    + pose proof (steady_keys _ _ Hs) as Hkeys. change (has_keys (set_kex Taken c)) with (has_keys c) in Hkeys.
      pose proof (inv_auth _ Hinv) as Ha. unfold auth_ok in *. rewrite (bool_decide_ext _ _ Hkeys).
      destruct Hs as ([Hsa _] & _). destruct (bool_decide _); [by eapply sound_same_auth|].
      destruct Hsa as (-> & _ & -> & ->). done.
Qed.

Lemma on_app_process_ok t p buf c c' : on_app (process t p buf) c = (Ok tt, c') -> conn_inv c -> goes_on c c'.
Proof.
  intros H1 Hinv. unfold on_app in H1.
  set (s0 := set_streams _ _ (app c)) in H1. destruct (process t p buf s0) as [r s'] eqn:Hp.
  injection H1 as -> <-.
  pose proof (framed_result _ _ _ _ _ (process_same_id t p buf) Hp) as [Hid Hkeep].
  destruct (keys_cases c) as [(e & He & Hy)|[He Hn]].
  2: { unfold process_packet in Hp. unfold encrypted_of in He. cbn in Hp. by rewrite He in Hp. }
  assert (Hs : sound (app c)).
  { pose proof (inv_auth _ Hinv) as Ha. unfold auth_ok in Ha. by rewrite bool_decide_true in Ha. }
  apply sound_process in Hp; [|exact Hs]. destruct Hinv as [I1 I2 I3 I4].
  assert (Hy' : has_keys (set_app (set_srv (set_server (srv s') (sink_set_compress (compress s') (writer (srv s')))
    (ServerSession.encrypted (srv s')) (active (kex c))) s') c)) by by apply Hkeep.
  split; [|intros _; by split].
  split; [done| | |].
  - unfold kex_ok in *. cbn [kex set_app]. destruct (kex c); [exact Hy'| |done]. rewrite I2.
    unfold rekey_cause. destruct Hy' as [e' He']. rewrite He', He. cbn. by rewrite Hid.
  - unfold deadline_ok in *. by rewrite bool_decide_true in * by done.
  - unfold auth_ok. by rewrite bool_decide_true.
Qed.

Lemma reply_ok i pkt c n c' : reply i pkt c = (Ok n, c') -> conn_inv c -> goes_on c c'.
Proof.
  intros H1 Hinv. unfold ServerReply.reply in H1. destruct (map_err _ _); [|done..].
  destruct (match head _ with Some m => ignored m | None => false end).
  { injection H1 as _ <-. by split. }
  apply st_bind_ok in H1 as ([] & c1 & H2 & H1).
  assert (Hg : goes_on c c1).
  { destruct (_ && _); [|apply st_ret_ok in H2 as [_ ->]; by split].
    apply conn_up_ok, begin_rekey_ok in H2 as [G1 G2]; [|apply Hinv|apply Hinv|].
    - split; [done|]. intros _. by apply same_session_id.
    - destruct (keys_cases c) as [(e & _ & Hy)|[_ Hn]]; [by left|right].
      pose proof (inv_deadline _ Hinv) as Hd. unfold deadline_ok in Hd.
      by rewrite (bool_decide_false (has_keys c)), andb_false_r in Hd. }
  eapply goes_on_trans; [exact Hg| |]; destruct Hg as [Hinv1 _].
  all: destruct (match head _ with Some m => is_kex_msg m | None => false end); [destruct (kex c1) as [|kx|] eqn:Hk; cbn in H1|].
  all: try (apply st_bind_ok in H1 as ([] & c2 & H3 & H1); apply st_ret_ok in H1 as [_ ->]; by eapply on_app_process_ok).
  all: by eapply kex_packet_ok.
Qed.

Lemma step_ok c c' : conn_step c c' -> conn_inv c -> goes_on c c'.
Proof.
  intros [i pkt n c1 H1|t ck c1 H1|c1 Hst] Hinv.
  - by eapply reply_ok.
  - apply flush_ok in H1 as [G1 G2]; [|done]. split; [done|]. intros _. by apply same_session_id.
  - split; [by eapply steady_inv|]. intros _. apply same_session_id, Hst.
Qed.

Lemma started_inv c : started c -> conn_inv c.
Proof.
  intros (w & key & h & target & t & ck & H1). apply begin_rekey_ok in H1 as [H1 _]; [done|done| |by right].
  unfold auth_ok. by rewrite bool_decide_false by by intros [? ?].
Qed.

Lemma steps_ok c c' : rtc conn_step c c' -> conn_inv c -> goes_on c c'.
Proof.
  induction 1 as [c|c1 c2 c3 Hs _ IH]; intros Hinv; [by split|].
  pose proof (step_ok _ _ Hs Hinv) as Hg. pose proof Hg as [Hinv2 _].
  eapply goes_on_trans; [exact Hg| |]; by apply IH.
Qed.

(** ** The properties *)

(** The server lets nobody in without the consent of the application, over the
    whole connection: whatever packets the client sends from the first KEXINIT
    on, the key exchanges and re-exchanges and the other work of the run loop
    included, before there are keys no callback of the authentication is made,
    and afterwards the session counts as authenticated only if a callback
    accepted the user that the session then names (for a key: one that was offered
    and whose signature of the session id and the packet verified).  A re-exchange
    neither grants nor takes away anything. *)
Theorem connection_auth_sound c0 c : started c0 -> rtc conn_step c0 c ->
  match encrypted_of c with
  | None => c.(app).(auth_trace) = []
  | Some _ =>
      match c.(app).(ServerEncrypted.state) with
      | InitCompression | Authenticated =>
          authenticated c.(app).(ServerEncrypted.session_id) c.(app).(auth_user) c.(app).(auth_trace)
      | _ => ungranted c.(app).(auth_trace)
      end
  end.
Proof.
  intros H0 Hs. apply started_inv in H0. apply steps_ok in Hs as [Hinv _]; [|done].
  pose proof (inv_auth _ Hinv) as Ha. unfold auth_ok in Ha.
  destruct (keys_cases c) as [(e & -> & Hy)|[-> Hn]].
  - rewrite bool_decide_true in Ha by done. unfold sound, auth_inv in Ha. cbn in Ha.
    destruct (ServerEncrypted.state _); [apply Ha|apply Ha|exact Ha|exact Ha].
  - rewrite bool_decide_false in Ha by done. apply Ha.
Qed.

(** C13. A session keeps its identity: once the first exchange has given a connection
    its keys, no packet and no re-exchange changes the session id (the hash of
    the first exchange, which signatures of users are bound to), and the
    connection never falls back to being without keys. *)
Theorem session_id_fixed c0 c c' : started c0 -> rtc conn_step c0 c -> rtc conn_step c c' -> has_keys c ->
  has_keys c' /\ c'.(app).(ServerEncrypted.session_id) = c.(app).(ServerEncrypted.session_id).
Proof.
  intros H0 Hs Hs' Hk. apply started_inv in H0. apply steps_ok in Hs as [Hinv _]; [|done].
  apply steps_ok in Hs' as [_ Hg]; [|done]. destruct (Hg Hk) as [Hid Hkeep]. split; [by apply Hkeep|exact Hid].
Qed.

(** Before the first keys the server takes nothing but the key exchange: a
    packet that is neither ignored nor of the key exchange ends the connection
    with [Inconsistent].  The order of messages of a strict exchange is never
    checked then, because [strict_kex] is set only together with the keys. *)
Theorem nothing_before_keys c0 c i m p seqn : started c0 -> rtc conn_step c0 c -> ~ has_keys c ->
  let r := reply i (mkPacket (m :: p) seqn) c in
  if ignored m then r = (Ok seqn, c)
  else if is_kex_msg m then check_strict (mkPacket (m :: p) seqn) c = Ok tt
  else r.1 = Err (from_error Error.Inconsistent).
Proof.
  intros H0 Hs Hn. apply started_inv in H0. apply steps_ok in Hs as [Hinv _]; [|done].
  assert (Hst : conn_strict_kex c = false).
  { destruct (conn_strict_kex c) eqn:Hst; [|done]. by destruct (Hn (inv_strict _ Hinv Hst)). }
  assert (Hc : check_strict (mkPacket (m :: p) seqn) c = Ok tt) by (unfold check_strict; cbn; by rewrite Hst).
  cbv zeta. unfold ServerReply.reply. rewrite Hc. cbn [map_err pkt_buffer pkt_seqn head].
  destruct (ignored m); [done|]. destruct (is_kex_msg m) eqn:Hm; [done|].
  assert (Hinit : bool_decide (Some m = Some msg.KEXINIT) && is_idle (kex c) = false).
  { apply andb_false_iff. left. apply bool_decide_eq_false. intros [= ->]. by vm_compute in Hm. }
  rewrite Hinit. unfold st_bind, st_ret, on_app. cbv beta iota.
  destruct (keys_cases c) as [(e & He & Hy)|[He _]]; [done|].
  unfold process_packet, encrypted_of in *. cbn. by rewrite He.
Qed.

(** The deadline of a re-exchange is that of the exchange in progress: the
    supervisor reports a late re-exchange exactly when one is in progress that
    began more than the configured time ago; one that ended, or the first
    exchange, is never reported. *)
Theorem rekey_deadline_exact c0 c t g : started c0 -> rtc conn_step c0 c ->
  poll t (active_rekey_gen c) c.(rekey_deadline) = Some g <->
  active c.(kex) = true /\ has_keys c /\ g = c.(rekey_gen) /\
    exists at_, c.(rekey_deadline).(deadline_at) = Some at_ /\ at_ <= t.
Proof.
  intros H0 Hs. apply started_inv in H0. apply steps_ok in Hs as [Hinv _]; [|done].
  pose proof (inv_deadline _ Hinv) as Hd. unfold deadline_ok in Hd. unfold poll, active_rekey_gen.
  destruct (active (kex c)) eqn:Ha; cbn [andb] in Hd.
  - case_bool_decide as Hk.
    + destruct Hd as [Hg [at_ Hat]]. rewrite Hg, Hat. rewrite bool_decide_true by done. cbn.
      destruct (Z.leb_spec at_ t); split.
      * intros [= <-]. split_and!; try done. by exists at_.
      * intros (_ & _ & -> & _). done.
      * done.
      * intros (_ & _ & _ & a & [= <-] & ?). lia.
    + rewrite Hd. cbn. split; [done|]. by intros (_ & ? & _).
  - rewrite Hd. cbn. split; [done|]. by intros (? & _).
Qed.
End Connection.

(** ** A connection *)
Module Example.
#[local] Existing Instance rfc4251.
#[local] Existing Instance Negotiation.Example.keys.
#[local] Existing Instance Negotiation.Example.encodable_dec.
#[local] Existing Instance KexRun.Example.host_keys.
#[local] Existing Instance KexRun.Example.dh_kex.
#[local] Existing Instance Auth.Example.keys.
#[local] Existing Instance Bounded.mpsc.
#[local] Existing Instance Doubling.flate2.
#[local] Existing Instance ServerEncrypted.Example.bounded_send.
#[local] Existing Instance ServerEncrypted.Example.handler.
#[local] Existing Instance ServerEncrypted.Example.auth_handler.
#[local] Existing Instance ServerEncrypted.Example.request_handler.
#[local] Existing Instance packet_log.

Abbreviation key := CipherImpls.Example.key.

#[local] Instance log_keys : KeyedSink (list bytes) key := {|
  sink_set_cipher _ w := w; sink_reset_seqn w := w; sink_reset_bytes w := w;
  sink_buffer f w := ((f []).1, w);
  sink_compress _ := CompressNone; sink_set_compress _ w := w;
|}.

#[local] Instance handler_keeps : HandlerFrame keeps_keys.
Proof. by split. Qed.
#[local] Instance requests_keep : RequestHandlerFrame same_session.
Proof. by split. Qed.

Definition limits : Limits := {| rekey_write_limit := 1000; rekey_read_limit := 1000; rekey_time_limit := 1000 |}.
Abbreviation Conn := (@Conn _ _ Bounded.mpsc _ Dh.DhGroupKex key key (list bytes) unit).
Abbreviation reply := (reply KexRun.Example.KEXES KexRun.Example.sc (str "SSH-2.0-c") (str "SSH-2.0-s") limits 60
  (mkConfig 100 100) 50 100 MethodSet.all 3 (Some 1) (fun r => r) (H := unit) (E := Error.error)).
Abbreviation step := (conn_step KexRun.Example.KEXES KexRun.Example.sc (str "SSH-2.0-c") (str "SSH-2.0-s") limits 60
  (mkConfig 100 100) 50 100 MethodSet.all 3 (Some 1) (fun r => r) (H := unit) (E := Error.error)).

Definition begun := begin_rekey KexRun.Example.sc (str "SSH-2.0-c") (str "SSH-2.0-s") 60 0 KexRun.Example.cookie
  (Conn_new [] CipherImpls.Example.k0 tt 50 : Conn).
Definition c0 : Conn := begun.2.
Lemma begun_ok : begun = (Ok tt, c0).
Proof. unfold c0. assert (H : begun.1 = Ok tt) by (vm_compute; reflexivity). by destruct begun as [r c], H. Qed.
Lemma c0_started : started KexRun.Example.sc (str "SSH-2.0-c") (str "SSH-2.0-s") 60 c0.
Proof. do 6 eexists. exact begun_ok. Qed.

(** Packets with their numbers. *)
Definition input : Input := mkInput 1000 KexRun.Example.cookie KexRun.Example.cookie 9 7 lookup_dh_gex_group.
Fixpoint run (ps : list (Z * bytes)) (c : Conn) : option Conn :=
  match ps with
  | [] => Some c
  | (n, p) :: ps =>
      match reply input (mkPacket p n) c with
      | (Ok _, c') => run ps c'
      | _ => None
      end
  end.

Lemma run_steps ps : forall c c', run ps c = Some c' -> rtc step c c'.
Proof.
  induction ps as [|[n p] ps IH]; intros c c'; cbn [run]; [by intros [= <-]|].
  destruct (reply _ _ c) as [[m| |] c1] eqn:Hr; try done. intros Hrun.
  eapply rtc_l; [by eapply step_packet|by apply IH].
Qed.

Definition fine (o : option Conn) : bool := match o with Some _ => true | None => false end.
Lemma run_fine ps c : fine (run ps c) = true -> rtc step c (default c (run ps c)).
Proof. intros Hf. apply (run_steps ps). by destruct (run ps c). Qed.

(** The client's side of an exchange. *)
Definition kex_packets : list (Z * bytes) :=
  [(1, KexRun.Example.c1.(c_exchange).(client_kex_init)); (2, KexRun.Example.init); (3, [msg.NEWKEYS])].
Definition keyed : Conn := default c0 (run kex_packets c0).
Definition sid : bytes := keyed.(app).(ServerEncrypted.session_id).
Definition login : list (Z * bytes) :=
  [(0, ServerEncrypted.Example.service); (1, ServerEncrypted.Example.probe);
   (2, ServerEncrypted.Example.request 1 ++
         prefixed (Auth.Example.signature (false, 9) (prefixed sid ++ ServerEncrypted.Example.request 1)));
   (3, ServerEncrypted.Example.ping)].
Definition logged_in : Conn := default keyed (run login keyed).
Definition rekeyed : Conn := default logged_in (run (kex_packets ++ [(0, ServerEncrypted.Example.ping)]) logged_in).

Lemma keyed_run : rtc step c0 keyed.
Proof. apply run_fine. vm_compute. reflexivity. Qed.
Lemma login_run : rtc step keyed logged_in.
Proof. apply run_fine. vm_compute. reflexivity. Qed.
Lemma rekey_run : rtc step logged_in rekeyed.
Proof. apply run_fine. vm_compute. reflexivity. Qed.
Lemma whole_run : rtc step c0 rekeyed.
Proof. etransitivity; [apply keyed_run|]. etransitivity; [apply login_run|apply rekey_run]. Qed.

Lemma rekeyed_state : is_Some (encrypted_of rekeyed) /\
  rekeyed.(app).(ServerEncrypted.state) = Authenticated /\ rekeyed.(app).(auth_user) = str "alice" /\
  is_Some (encrypted_of keyed).
Proof. split_and!; vm_compute; try reflexivity; by eexists. Qed.

Lemma connection_auth_sound_witness :
  authenticated rekeyed.(app).(ServerEncrypted.session_id) (str "alice") rekeyed.(app).(auth_trace).
Proof.
  pose proof (connection_auth_sound _ _ _ _ _ _ _ _ _ _ _ _ _ _ _ c0_started whole_run) as H.
  destruct rekeyed_state as ([e He] & Hs & Hu & _). rewrite He, Hs, Hu in H. exact H.
Defined.

Lemma session_id_fixed_witness :
  has_keys rekeyed /\ rekeyed.(app).(ServerEncrypted.session_id) = keyed.(app).(ServerEncrypted.session_id).
Proof.
  apply (session_id_fixed _ _ _ _ _ _ _ _ _ _ _ _ _ c0 keyed rekeyed c0_started keyed_run).
  - etransitivity; [apply login_run|apply rekey_run].
  - apply rekeyed_state.
Defined.

Lemma nothing_before_keys_witness : (reply input (mkPacket [msg.SERVICE_REQUEST] 1) c0).1 = Err Error.Inconsistent.
Proof.
  assert (Hn : ~ has_keys c0) by (vm_compute; by intros [? ?]).
  exact (nothing_before_keys _ _ _ _ _ _ _ _ _ _ _ _ _ c0 c0 input msg.SERVICE_REQUEST [] 1 c0_started
    (rtc_refl step c0) Hn).
Defined.

(** A re-exchange in progress, 61 seconds after it began. *)
Definition rekeying : Conn := default logged_in (run (firstn 1 kex_packets) logged_in).
Lemma rekeying_run : rtc step c0 rekeying.
Proof.
  etransitivity; [apply keyed_run|]. etransitivity; [apply login_run|].
  apply (run_fine (firstn 1 kex_packets)). vm_compute. reflexivity.
Qed.

Lemma rekey_deadline_exact_witness :
  poll 1060 (active_rekey_gen rekeying) rekeying.(rekey_deadline) = Some 1 <->
  active rekeying.(kex) = true /\ has_keys rekeying /\ 1 = rekeying.(rekey_gen) /\
    exists at_, rekeying.(rekey_deadline).(deadline_at) = Some at_ /\ at_ <= 1060.
Proof. exact (rekey_deadline_exact _ _ _ _ _ _ _ _ _ _ _ _ _ c0 rekeying 1060 1 c0_started rekeying_run). Defined.
End Example.
