(* ===== verification/ServerLoop.v ===== *)
(** * The run loop of a server ([run] and [dispatch_msg] of
    [russh/src/server/session.rs])

    One turn of the loop is [turn]: the supervisor looks at the connection
    ([Supervisor.supervise]), what the application has queued is dispatched, one
    event is handled, and the turn ends with a flush, the bookkeeping of the
    watchdog and the timers.  [Loop] is the connection of [ServerReply] with what
    [run] keeps in local variables.

    The timeout around [reply] during the handshake is not a separate event: a
    handler that is cut off leaves the connection to the teardown, which is what
    [supervise] does at the next turn. *)

From stdpp Require Import base list numbers option gmap strings.
From Stdlib Require Import ZArith Lia.
From S2P Require Import Supervisor.
From S2P Require Import Prelude Encoding Parsing LibInner Msg NameList PacketWriter PendingInbound Cipher Compression Session.
From S2P Require Import CipherImpls Negotiation KexKeys Dh Kex KexRun.
From S2P Require Import ServerSession ServerFrames ChannelOpen ChannelRequests Auth ServerAuth ServerEncrypted CommonSession ServerReply.

(** The messages of the application ([Msg] of [server/session.rs]). *)
Inductive ServerMsg : Type :=
| SData (id : Z) (ext : option Z) (data : bytes)
| SDataAcked (id : Z) (ext : option Z) (data : bytes) (ack : Z)
| SEof (id : Z)
| SClose (id : Z)
| SReply (id : Z) (ok : bool)                       (* Success, Failure *)
| SRequest (id : Z) (req : ServerRequest)           (* XonXoff, ExitStatus, ExitSignal *)
| SWindowAdjusted (id new_size : Z)
| SChannelOpen (t : ChannelType.type) (channel_ref : Z)
| STcpIpForward (reply_channel : option Z) (address : bytes) (port : Z)
| SCancelTcpIpForward (reply_channel : option Z) (address : bytes) (port : Z)
| SDisconnect (reason : Disconnect.disconnect) (description language_tag : bytes)
| SClientOnly.

Section ServerLoop.
Context {enc : SshEncoding} {SKY : SshKeys} {HKS : HostKeys} {UK : UserKeys}.
Context {Q : Mpsc} {QS : MpscSend Q} {F : Flate2}.
Context {K SK OK : Type} {KA : KexAlgorithmImplementor K SK OK} (KEXES : bytes -> option K).
Context {W : Type} {HW : PacketSink W} {KW : KeyedSink W SK}.

Abbreviation Session := (@ServerEncrypted.Session UK Q F W).
Abbreviation Conn := (@ServerReply.Conn SKY UK Q F K SK OK W).

(** ** What the session does for the application *)
Section Messages.
Context (config : Config) (window_size maximum_packet_size : Z).
Context {H : Type}.
Implicit Types s : Session H.
Abbreviation M A := (st (Session H) Error.error A).

(** A global request of the server; without [common.encrypted] nothing is done. *)
Definition server_request (name : bytes) (entry : option GlobalRequestResponse) (want_reply : bool)
    (rest : Encoding.writer Error.error) : M unit := fun s =>
  match s.(srv).(ServerSession.encrypted) with
  | None => (Ok tt, s)
  | Some _ =>
      let s1 := match entry with
                | Some g => set_requests (s.(open_global_requests) ++ [g]) s.(answers) s
                | None => s
                end in
      on_enc (on_write (push_packet (
        enc_w (encode_u8 msg.GLOBAL_REQUEST) ;;; enc_w (encode_bytes name) ;;;
        enc_w (encode_u8 (u8_of_bool want_reply)) ;;; rest))) s1
  end.

Definition keepalive_request : M unit :=
  server_request (str "keepalive@openssh.com") (Some Keepalive) true (st_ret tt).
Definition server_send_ping (reply_channel : Z) : M unit :=
  server_request (str "keepalive@openssh.com") (Some (Ping reply_channel)) true (st_ret tt).
Definition server_tcpip_forward (address : bytes) (port : Z) (reply_channel : option Z) : M unit :=
  server_request (str "tcpip-forward") (TcpIpForward <$> reply_channel) (bool_decide (is_Some reply_channel))
    (enc_w (encode_bytes address) ;;; enc_w (encode_u32 port)).
Definition server_cancel_tcpip_forward (address : bytes) (port : Z) (reply_channel : option Z) : M unit :=
  server_request (str "cancel-tcpip-forward") (CancelTcpIpForward <$> reply_channel)
    (bool_decide (is_Some reply_channel)) (enc_w (encode_bytes address) ;;; enc_w (encode_u32 port)).

(** [channel_open_generic], and the channel of the application gets the number. *)
Definition server_channel_open (t : ChannelType.type) (channel_ref : Z) : M unit := fun s =>
  let v := s.(srv) in
  match v.(ServerSession.encrypted) with
  | None => (Err Error.Inconsistent, s)
  | Some e =>
      match s.(ServerEncrypted.state) with
      | Authenticated | InitCompression =>
          match new_channel window_size maximum_packet_size e with
          | (Ok id, e') =>
              let '(kind, suffix) := channel_open t in
              let '(r, e'') := on_write (push_packet (open_body kind id window_size maximum_packet_size suffix)) e' in
              let v' := ServerSession.set_encrypted (Some e'') v in
              match r with
              | Ok _ =>
                  let x := v.(inbox) in
                  (Ok tt, set_srv (set_inbox
                     (mkInbox (<[id := channel_ref]> x.(PendingInbound.channels)) x.(buffers) x.(inbound)
                        x.(needs_reserve)) v') s)
              | Err x => (Err x, set_srv v' s)
              | Panic => (Panic, set_srv v' s)
              end
          | (Err x, e') => (Err x, set_srv (ServerSession.set_encrypted (Some e') v) s)
          | (Panic, e') => (Panic, set_srv (ServerSession.set_encrypted (Some e') v) s)
          end
      | _ => (Err Error.Inconsistent, s)
      end
  end.

(** Replies to channel opens of the client; without [common.encrypted] they are
    dropped. *)
Definition server_on_replies (m : st OpenState Error.error unit) : M unit := fun s =>
  match s.(srv).(ServerSession.encrypted) with
  | Some _ => on_open m s
  | None => (Ok tt, set_opens s.(srv) [] s.(ServerEncrypted.stashed) s)
  end.

(** [dispatch_msg] after the replies, but for [Disconnect]. *)
Definition dispatch_session (m : ServerMsg) : M unit :=
  match m with
  | SData id ext data => on_srv (session_data config id ext data)
  | SDataAcked id ext data ack => on_srv (dispatch_data_acked config id ext data ack)
  | SEof id => on_srv (session_eof id)
  | SClose id => on_srv (session_close id)
  | SReply id ok => on_enc (if ok : bool then channel_success id else channel_failure id)
  | SRequest id req => on_enc (send_server_request id req)
  | SWindowAdjusted _ _ => st_ret tt
  | SChannelOpen t channel_ref => server_channel_open t channel_ref
  | STcpIpForward r a p => server_tcpip_forward a p r
  | SCancelTcpIpForward r a p => server_cancel_tcpip_forward a p r
  | SDisconnect _ _ _ | SClientOnly => st_panic
  end.
End Messages.

(** ** State *)
Record Loop (H : Type) : Type := mkLoop {
  conn : Conn H;
  supervision : Supervision;
  timers : Timers;
}.
#[global] Arguments mkLoop {H} _ _ _.
#[global] Arguments conn {H} _.
#[global] Arguments supervision {H} _.
#[global] Arguments timers {H} _.

Section Turns.
Context (kconfig : ServerConfig) (remote_sshid server_id : bytes) (limits : LibInner.Limits) (rekey_timeout : Z).
Context (config : Config) (window_size maximum_packet_size : Z) (auth_methods : MethodSet).
Context (auth_rejection_time : Z) (auth_rejection_time_initial : option Z) (after_failure : bytes -> bytes).
(** The configuration of the supervisor and the timers; [pending_bytes] and
    [drained_total] are those of the packet writer. *)
Context (deadlines : Supervisor.Limits) (keepalive_max : Z) (keepalive_interval inactivity_timeout : option Z).
Context (pending_bytes drained_total : W -> Z).
Context {H E : Type} {HH : @Handler Q W H E} {AH : AuthHandler H E} {RH : @RequestHandler UK Q F W H E}.
Implicit Types c : Conn H.
Implicit Types l : Loop H.

Abbreviation conn_flush := (flush kconfig remote_sshid server_id limits rekey_timeout (H := H)).
Abbreviation conn_reply := (reply KEXES kconfig remote_sshid server_id limits rekey_timeout config window_size
  maximum_packet_size auth_methods auth_rejection_time auth_rejection_time_initial after_failure (H := H) (E := E)).
Abbreviation replies := (fun m => on_app (server_on_replies m : st (Session H) Error.error unit)).

Definition writer_of c : W := c.(app).(srv).(ServerSession.writer).

Definition dispatch_msg (m : ServerMsg) : st (Conn H) Error.error unit :=
  replies drain_open_replies ;;;
  match m with
  | SDisconnect reason description language_tag => on_common (disconnect reason description language_tag)
  | m => on_app (dispatch_session config window_size maximum_packet_size m)
  end.

Definition can_receive_outbound c : bool :=
  negb (active c.(kex)) && (pending_bytes (writer_of c) <? OUTBOUND_HIGH_WATERMARK).

Definition BATCH : nat := 64.    (* MAX_MESSAGES_PER_BATCH *)

(** What is queued before the loop waits: at most [BATCH] messages, and a flush
    if there was any; what is left of the queue. *)
Fixpoint dispatch_all (q : list ServerMsg) : st (Conn H) Error.error unit :=
  match q with
  | [] => st_ret tt
  | m :: q => dispatch_msg m ;;; dispatch_all q
  end.
Definition backlog (i : Input) (q : list ServerMsg) : st (Conn H) Error.error unit := fun c =>
  if can_receive_outbound c then
    (dispatch_all (firstn BATCH q) ;;;
     match q with [] => st_ret tt | _ => conn_flush i.(now) i.(flush_cookie) end) c
  else (Ok tt, c).

(** What the loop waits for. *)
Inductive event : Type :=
| EPacket (buffer : bytes) (seqn : Z)
| EReserved (id generation : Z) (res : option Z)
| EOpenReply (rep : ChannelOpen.reply)
| EKeepalive
| EInactivity
| EFlushed (w : W)                          (* bytes went to the socket *)
| EMessage (m : option ServerMsg)           (* [None]: all handles are gone *)
| EWakeUp.                                  (* the supervisor's sleep ended *)

(** The guards of the arms; [can] is [can_receive_outbound] from before the queue
    was looked at. *)
Definition enabled (can : bool) (ev : event) c : bool :=
  match ev with
  | EReserved _ _ _ | EOpenReply _ => negb (active c.(kex))
  | EFlushed _ => 0 <? pending_bytes (writer_of c)
  | EMessage _ => can
  | _ => true
  end.

(** The result of an arm: go on, with the number of the next packet if one was
    read and whether data was received or a keepalive sent; or [break]. *)
Inductive step_result : Type :=
| Go (seqn : option Z) (received_data sent_keepalive : bool)
| Break.

Definition packet_arm (i : Input) (buffer : bytes) (seqn : Z) : st (Conn H) E step_result :=
  if zlen buffer <? 5 then st_ret Break
  else
    do payload <- (fun c =>
      match map_err from_error (maybe_decompress buffer (common c)) with
      | Ok (p, m) => (Ok p, set_common m c)
      | Err x => (Err x, c)
      | Panic => (Panic, c)
      end) ;;
    match payload with
    | [] => st_ret (Go (Some seqn) false false)
    | m :: _ =>
        if m =? msg.DISCONNECT then st_ret Break
        else do n <- conn_reply i (mkPacket payload seqn) ;; st_ret (Go (Some n) true false)
    end.

Definition arm (i : Input) (ev : event) (t : Timers) : st (Conn H) E (step_result * Timers) :=
  match ev with
  | EPacket buffer seqn => do r <- packet_arm i buffer seqn ;; st_ret (r, t)
  | EReserved id generation res =>
      on_app (on_srv (pump_inbound id generation res)) ;;; st_ret (Go None false false, t)
  | EOpenReply rep =>
      ServerReply.up (replies (finalize_channel_open_reply rep ;;; drain_open_replies)) ;;;
      st_ret (Go None false false, t)
  | EKeepalive =>
      match keepalive_fired keepalive_max t with
      | None => st_err (from_error Error.KeepaliveTimeout)
      | Some t => ServerReply.up (on_app keepalive_request) ;;; st_ret (Go None false true, t)
      end
  | EInactivity => st_err (from_error Error.InactivityTimeout)
  | EFlushed w =>
      st_mod (fun c => set_app (set_srv (ServerSession.set_writer w c.(app).(srv)) c.(app)) c) ;;;
      st_ret (Go None false false, t)
  | EMessage (Some m) => ServerReply.up (dispatch_msg m) ;;; st_ret (Go None false false, t)
  | EMessage None | EWakeUp => st_ret (Go None false false, t)
  end.

(** What the supervisor sees. *)
Definition view c : View :=
  mkView
    (match encrypted_of c, c.(app).(ServerEncrypted.state) with
     | Some _, (InitCompression | Authenticated) => true
     | _, _ => false
     end)
    (pending_bytes (writer_of c)) (ServerReply.active_rekey_gen c) c.(ServerReply.rekey_deadline).

Definition set_conn_disconnected c : Conn H :=
  mkConn c.(app) c.(kex) c.(conn_exchange) c.(conn_remote_to_local) c.(conn_strict_kex) true
    c.(rekey_gen) c.(ServerReply.rekey_deadline).

Definition on_conn {X A} (m : st (Conn H) X A) : st (Loop H) X A := fun l =>
  let '(r, c) := m l.(conn) in (r, mkLoop c l.(supervision) l.(timers)).

(** The end of a turn, [t] being the time. *)
Definition end_of_turn (i : Input) (received sent : bool) : st (Loop H) E unit :=
  st_mod (fun l => mkLoop l.(conn)
    (credit_drained i.(now) (drained_total (writer_of l.(conn))) l.(supervision)) l.(timers)) ;;;
  on_conn (ServerReply.up (conn_flush i.(now) i.(flush_cookie))) ;;;
  on_conn (st_mod (fun c => set_app (set_srv (release_outbound_acks c.(app).(srv)) c.(app)) c)) ;;;
  st_mod (fun l => mkLoop l.(conn) l.(supervision)
    (end_of_iteration i.(now) keepalive_interval inactivity_timeout received sent l.(timers))).

(** A turn: the queue of the application and what happens next (what is not
    enabled does not happen before the sleep ends); whether the loop goes on. *)
Definition turn (i : Input) (q : list ServerMsg) (ev : event) : st (Loop H) E (bool * option Z) := fun l =>
  let '(abandon, s) := supervise deadlines i.(now) (view l.(conn)) l.(supervision) in
  let l := mkLoop l.(conn) s l.(timers) in
  if abandon : bool then (Ok (false, None), mkLoop (set_conn_disconnected l.(conn)) s l.(timers))
  else
    let can := can_receive_outbound l.(conn) in
    (on_conn (ServerReply.up (backlog i q)) ;;;
     fun l =>
       if l.(conn).(conn_disconnected) then (Ok (false, None), l)      (* [continue] *)
       else
         (do (r, t) <- on_conn (arm i (if enabled can ev l.(conn) then ev else EWakeUp) l.(timers)) ;;
          match r with
          | Break => st_ret (false, None)
          | Go seqn received sent =>
              st_mod (fun l => mkLoop l.(conn) l.(supervision) t) ;;;
              end_of_turn i received sent ;;;
              fun l => (Ok (negb l.(conn).(conn_disconnected), seqn), l)
          end) l) l.

(** ** The end *)

(** [disconnect] when the supervisor ended the loop. *)
Definition teardown (now : Z) (cookie : bytes) (describe : DisconnectCause -> bytes) (l : Loop H) : Loop H :=
  match l.(supervision).(supervisor_cause) with
  | Some cause =>
      let c := (on_common (disconnect Disconnect.ByApplication (describe cause) (str "en")) l.(conn)).2 in
      mkLoop (conn_flush now cookie c).2 l.(supervision) l.(timers)
  | None => l
  end.

(** What [run] returns after an orderly end of the loop. *)
Definition run_result (l : Loop H) : Result unit :=
  match l.(supervision).(supervisor_cause) with
  | Some WriteStalled => Err Error.WriteStalled
  | Some RekeyTimeout => Err (Error.RekeyTimeout l.(conn).(rekey_gen))
  | Some HandshakeTimeout => Err Error.HandshakeTimeout
  | Some PeerError | Some LocalShutdown | None => Ok tt
  end.
End Turns.
End ServerLoop.

(** ** A turn is made of the steps of [ServerReply] *)
Section Steps.
Context {enc : SshEncoding} {SKY : SshKeys} {HKS : HostKeys} {UK : UserKeys}.
Context {Q : Mpsc} {QS : MpscSend Q} {F : Flate2}.
Context {K SK OK : Type} {KA : KexAlgorithmImplementor K SK OK} (KEXES : bytes -> option K).
Context {W : Type} {HW : PacketSink W} {KW : KeyedSink W SK}.
Context (kconfig : ServerConfig) (remote_sshid server_id : bytes) (limits : LibInner.Limits) (rekey_timeout : Z).
Context (config : Config) (window_size maximum_packet_size : Z) (auth_methods : MethodSet).
Context (auth_rejection_time : Z) (auth_rejection_time_initial : option Z) (after_failure : bytes -> bytes).
Context (deadlines : Supervisor.Limits) (keepalive_max : Z) (keepalive_interval inactivity_timeout : option Z).
Context (pending_bytes drained_total : W -> Z).
Context {H E : Type} {HH : @Handler Q W H E} {AH : AuthHandler H E} {RH : @RequestHandler UK Q F W H E}.

Abbreviation Session := (@ServerEncrypted.Session UK Q F W H).
Abbreviation Conn := (@ServerReply.Conn SKY UK Q F K SK OK W H).
Implicit Types c : Conn.
Implicit Types l : @Loop SKY UK Q F K SK OK W H.

Abbreviation step := (conn_step KEXES kconfig remote_sshid server_id limits rekey_timeout config window_size
  maximum_packet_size auth_methods auth_rejection_time auth_rejection_time_initial after_failure (H := H) (E := E)).
Abbreviation steps := (rtc step).
Context {HF : HandlerFrame keeps_keys} {RF : RequestHandlerFrame same_session}.

(** *** What leaves the authentication and the key exchange alone *)
Lemma on_app_steady {X A} (m : st Session X A) : framed same_session m -> framed steady (on_app m : st Conn X A).
Proof.
  intros Hm c. unfold on_app. set (s0 := set_streams _ _ (app c)). specialize (Hm s0).
  destruct (m s0) as [r s']. destruct Hm as [Ha Hk].
  split; [split; [exact Ha|exact Hk]|by repeat split].
Qed.

Lemma steady_steps {X A} (m : st Conn X A) : framed steady m -> leads steps m.
Proof. apply framed_leads. intros c c' Hs. by apply rtc_once, step_other. Qed.

Lemma app_steps {X A} (m : st Session X A) : framed same_session m -> leads steps (on_app m : st Conn X A).
Proof. intros Hm. by apply steady_steps, on_app_steady. Qed.

Lemma mod_steps {X} (f : Conn -> Conn) : (forall c, steady c (f c)) -> leads steps (st_mod f : st Conn X unit).
Proof. intros Hf. by apply steady_steps, framed_mod. Qed.

Lemma up_steps {A} (m : st Conn Error.error A) : leads steps m -> leads steps (ServerReply.up m : st Conn E A).
Proof. apply leads_map_err. Qed.

Lemma disconnect_steady reason d t : framed steady (on_common (disconnect reason d t) : st Conn Error.error unit).
Proof.
  intros c. unfold on_common, disconnect, push_early. destruct (negb _); [|by apply set_common_steady].
  cbn [encrypted set_disconnected]. destruct (keys_cases c) as [(e & He & Hy)|[He Hn]]; cbn; rewrite He.
  - destruct (on_write _ e) as [r e']. apply set_common_steady; done.
  - destruct (sink_buffer _ _) as [r w]. cbn. apply set_common_steady; try done. split; [by intros [? ?]|done].
Qed.

(** *** The messages of the application *)
Lemma server_request_same name entry want rest : framed same_session (server_request name entry want rest : st Session _ _).
Proof.
  intros s. unfold server_request. destruct (ServerSession.encrypted (srv s)); [|done].
  etransitivity; [|apply (frames_on_enc same_session keeps_keys)].
  destruct entry; [apply session_requests|done].
Qed.

Lemma on_replies_same m : framed same_session (server_on_replies m : st Session _ _).
Proof.
  intros s. unfold server_on_replies. destruct (ServerSession.encrypted (srv s)) eqn:He.
  - apply (frames_on_open same_session keeps_keys).
  - apply (session_opens (R := same_session)). unfold keeps_keys. by rewrite He.
Qed.

Lemma channel_open_same t r :
  framed same_session (server_channel_open window_size maximum_packet_size t r : st Session _ _).
Proof.
  intros s. unfold server_channel_open. destruct (ServerSession.encrypted (srv s)) as [e|] eqn:He; [|done].
  destruct (ServerEncrypted.state s); try done.
  all: destruct (new_channel _ _ e) as [[id| |] e']; [|by apply (session_srv (R := same_session)), (frame_encrypted e)..].
  all: destruct (channel_open t) as [kind suffix]; destruct (on_write _ e') as [[u| |] e''];
    apply (session_srv (R := same_session)); try (by apply (frame_encrypted e)).
  all: etransitivity; [by apply (frame_encrypted e)|apply frame_inbox].
Qed.

Lemma dispatch_session_same m :
  framed same_session (dispatch_session config window_size maximum_packet_size m : st Session _ _).
Proof.
  destruct m; cbn [dispatch_session]; try (by intros s); try apply server_request_same; try apply channel_open_same;
    try apply (frames_on_enc same_session keeps_keys).
  all: apply (frames_on_srv same_session keeps_keys).
  all: first [apply session_data_framed|apply data_acked_framed|apply session_eof_framed|apply session_close_framed]; apply _.
Qed.

(** *** The arms of the loop *)
Lemma flush_steps t ck : leads steps (flush kconfig remote_sshid server_id limits rekey_timeout t ck (H := H)).
Proof. intros c [] c' H1. by eapply rtc_once, step_flush. Qed.

Lemma dispatch_steps m : leads steps (dispatch_msg config window_size maximum_packet_size m : st Conn _ _).
Proof.
  apply leads_bind; [apply _|by apply app_steps, on_replies_same|]. intros _.
  destruct m; try apply app_steps, dispatch_session_same. by apply steady_steps, disconnect_steady.
Qed.

Lemma dispatch_all_steps q : leads steps (dispatch_all config window_size maximum_packet_size q : st Conn _ _).
Proof.
  induction q as [|m q IH]; [by apply leads_ret; apply _|].
  apply leads_bind; [apply _|apply dispatch_steps|done].
Qed.

Lemma backlog_steps i q : leads steps (backlog kconfig remote_sshid server_id limits rekey_timeout config window_size
  maximum_packet_size pending_bytes i q : st Conn _ _).
Proof.
  intros c. unfold backlog. destruct (can_receive_outbound _ c); [|by intros [] c' [= <-]]. revert c.
  apply leads_bind; [apply _|apply dispatch_all_steps|]. intros _.
  destruct q; [by apply leads_ret; apply _|apply flush_steps].
Qed.

Lemma packet_arm_steps i b n : leads steps (packet_arm KEXES kconfig remote_sshid server_id limits rekey_timeout config
  window_size maximum_packet_size auth_methods auth_rejection_time auth_rejection_time_initial after_failure i b n
  : st Conn E _).
Proof.
  unfold packet_arm. destruct (_ <? 5); [by apply leads_ret; apply _|].
  apply leads_bind; [apply _| |].
  - apply steady_steps. intros c. unfold maybe_decompress.
    destruct (keys_cases c) as [(e & He & Hy)|[He Hn]]; cbn; rewrite He; cbn.
    + destruct (Compression.decompress _ _) as [[out d]|x|]; by cbn.
    + by apply set_common_steady.
  - intros [|m p]; [by apply leads_ret; apply _|]. destruct (m =? _); [by apply leads_ret; apply _|].
    apply leads_bind; [apply _| |intros k; by apply leads_ret; apply _].
    intros c k c' H1. by eapply rtc_once, step_packet.
Qed.

Abbreviation arm := (arm KEXES kconfig remote_sshid server_id limits rekey_timeout config window_size
  maximum_packet_size auth_methods auth_rejection_time auth_rejection_time_initial after_failure keepalive_max
  (H := H) (E := E)).

Lemma arm_steps i ev t : leads steps (arm i ev t).
Proof.
  destruct ev; cbn [ServerLoop.arm].
  - apply leads_bind; [apply _|apply packet_arm_steps|intros r; by apply leads_ret; apply _].
  - apply leads_bind; [apply _| |intros r; by apply leads_ret; apply _].
    apply app_steps, (frames_on_srv same_session keeps_keys), pump_inbound_framed; apply _.
  - apply leads_bind; [apply _| |intros r; by apply leads_ret; apply _]. by apply up_steps, app_steps, on_replies_same.
  - destruct (keepalive_fired _ t); [|by apply leads_err].
    apply leads_bind; [apply _| |intros r; by apply leads_ret; apply _]. by apply up_steps, app_steps, server_request_same.
  - by apply leads_err.
  - apply leads_bind; [apply _|apply mod_steps; by repeat split|intros r; by apply leads_ret; apply _].
  - destruct m; [|by apply leads_ret; apply _].
    apply leads_bind; [apply _|apply up_steps, dispatch_steps|intros r; by apply leads_ret; apply _].
  - by apply leads_ret; apply _.
Qed.

(** *** The turn *)
Definition loop_steps l l' : Prop := steps l.(conn) l'.(conn).

#[local] Instance loop_steps_preorder : PreOrder loop_steps.
Proof. split; [intros l; apply rtc_refl|]. intros l1 l2 l3 H1 H2. unfold loop_steps in *. by etransitivity. Qed.

Lemma on_conn_steps {X A} (m : st Conn X A) : leads steps m -> leads loop_steps (on_conn m : st (Loop H) X A).
Proof.
  intros Hm l a l' H1. unfold on_conn in H1. destruct (m (conn l)) as [r c] eqn:Hc. injection H1 as -> <-.
  by eapply Hm.
Qed.

Lemma bookkeeping_steps {X} (f : _ -> Loop H) : (forall l, (f l).(conn) = l.(conn)) ->
  leads loop_steps (st_mod f : st _ X unit).
Proof. intros Hf. apply leads_mod. intros l. unfold loop_steps. by rewrite Hf. Qed.

Lemma end_of_turn_steps i r b : leads loop_steps (end_of_turn kconfig remote_sshid server_id limits rekey_timeout
  keepalive_interval inactivity_timeout drained_total i r b : st _ E _).
Proof.
  unfold end_of_turn. apply leads_bind; [apply _|by apply bookkeeping_steps|]. intros _.
  apply leads_bind; [apply _|by apply on_conn_steps, up_steps, flush_steps|]. intros _.
  apply leads_bind; [apply _| |intros _; by apply bookkeeping_steps].
  apply on_conn_steps, mod_steps. intros c. split; [|by repeat split]. split; [by repeat split|].
  apply (release_acks_framed keeps_keys).
Qed.

Abbreviation turn := (turn KEXES kconfig remote_sshid server_id limits rekey_timeout config window_size
  maximum_packet_size auth_methods auth_rejection_time auth_rejection_time_initial after_failure deadlines
  keepalive_max keepalive_interval inactivity_timeout pending_bytes drained_total (H := H) (E := E)).

(** The run loop of a server does nothing to a connection but the steps for
    which [ServerReply] has its theorems: a turn - the check of the supervisor, the
    messages of the application, an arm of the [select!], the flush and the
    bookkeeping after it - that does not fail takes the connection through
    packets, flushes, and work that leaves the authentication and the key exchange
    alone. *)
Theorem turn_refines_steps i q ev l r l' : turn i q ev l = (Ok r, l') -> rtc step l.(conn) l'.(conn).
Proof.
  unfold ServerLoop.turn. destruct (supervise _ _ _ _) as [[] s].
  { intros [= _ <-]. by apply rtc_once, step_other. }
  intros H1. apply st_bind_ok in H1 as ([] & l1 & H2 & H1).
  apply (on_conn_steps _ (up_steps _ (backlog_steps i q))) in H2. unfold loop_steps in H2. cbn in H2.
  etransitivity; [exact H2|]. destruct (conn_disconnected (conn l1)); [by injection H1 as _ <-|].
  apply st_bind_ok in H1 as ([t tm] & l2 & H3 & H1). apply (on_conn_steps _ (arm_steps i _ _)) in H3.
  etransitivity; [exact H3|]. destruct t; [|by injection H1 as _ <-].
  apply st_bind_ok in H1 as ([] & l3 & H4 & H1). injection H4 as <-.
  apply st_bind_ok in H1 as ([] & l4 & H4 & H1). apply end_of_turn_steps in H4. injection H1 as _ <-. exact H4.
Qed.

(** ** The verdict of the supervisor *)
Abbreviation teardown := (teardown kconfig remote_sshid server_id limits rekey_timeout (H := H)).
Abbreviation supervised := (fun i l => supervise deadlines i.(now) (view pending_bytes l.(conn)) l.(supervision)).

Lemma supervise_cause d t v s : s.(supervisor_cause) = None ->
  match supervise d t v s with
  | (true, s') =>
      s'.(supervisor_cause) = Some HandshakeTimeout \/ s'.(supervisor_cause) = Some WriteStalled \/
      s'.(supervisor_cause) = Some RekeyTimeout /\ is_Some v.(Supervisor.active_rekey_gen)
  | (false, s') => s'.(supervisor_cause) = None
  end.
Proof.
  intros Hs. unfold supervise. destruct (_ && _); [left; cbn; by rewrite Hs|].
  destruct (poll_timeout _ _ _ _) as [[cause|] w] eqn:Hp.
  - right. left. cbn. rewrite Hs. cbn. f_equal. unfold poll_timeout in Hp. repeat case_match; by simplify_eq.
  - destruct (poll _ _ _) as [g|] eqn:Hg; [|done]. right. right. cbn. rewrite Hs. split; [done|].
    unfold poll in Hg. repeat case_match; try done. apply negb_false_iff, bool_decide_eq_true in H2.
    rewrite H2. by eexists.
Qed.

(** The supervisor's state is changed by it and by the watchdog's credit only. *)
Definition same_cause l l' : Prop := l'.(supervision).(supervisor_cause) = l.(supervision).(supervisor_cause).

#[local] Instance same_cause_preorder : PreOrder same_cause.
Proof. split; [done|]. intros l1 l2 l3 H1 H2. unfold same_cause in *. congruence. Qed.

Lemma on_conn_cause {X A} (m : st Conn X A) : framed same_cause (on_conn m : st (Loop H) X A).
Proof. intros l. unfold on_conn. by destruct (m _). Qed.

Lemma end_of_turn_cause i r b : framed same_cause (end_of_turn kconfig remote_sshid server_id limits rekey_timeout
  keepalive_interval inactivity_timeout drained_total i r b : st _ E _).
Proof.
  unfold end_of_turn. apply framed_bind; [apply _|apply framed_mod|intros _].
  - intros l. unfold same_cause. cbn. unfold credit_drained. by case_match.
  - apply framed_bind; [apply _|apply on_conn_cause|intros _].
    apply framed_bind; [apply _|apply on_conn_cause|intros _]. by apply framed_mod.
Qed.

(** The run loop reports why it gave up: when the check at the head of a turn finds
    the connection stalled or late, the turn does nothing but mark it disconnected,
    and [run] returns the error of that cause, the timeout of a re-exchange with the
    number of the one that was in progress; otherwise it has no cause, and a loop
    that ends returns [Ok].  The DISCONNECT that the code then means to send is not
    sent: the flush of the teardown finds exactly what was already staged, because
    [disconnect] does nothing on a connection marked disconnected. *)
Theorem verdict_reported i q ev l go l' t ck describe :
  l.(supervision).(supervisor_cause) = None -> turn i q ev l = (Ok go, l') ->
  let e := teardown t ck describe l' in
  if (supervised i l).1 then
    go = (false, None) /\ l'.(conn) = set_conn_disconnected l.(conn) /\
    match l'.(supervision).(supervisor_cause) with
    | Some HandshakeTimeout => run_result e = Err Error.HandshakeTimeout
    | Some WriteStalled => run_result e = Err Error.WriteStalled
    | Some RekeyTimeout => run_result e = Err (Error.RekeyTimeout l.(conn).(rekey_gen))
    | _ => False
    end /\
    exists c, encrypted_of c = encrypted_of l.(conn) /\ writer_of c = writer_of l.(conn) /\
      e.(conn) = (flush kconfig remote_sshid server_id limits rekey_timeout t ck c).2
  else l'.(supervision).(supervisor_cause) = None /\ e = l' /\ run_result e = Ok tt.
Proof.
  intros Hn. unfold ServerLoop.turn.
  pose proof (supervise_cause deadlines (now i) (view pending_bytes (conn l)) _ Hn) as Hc.
  destruct (supervise _ _ _ _) as [[] s].
  - intros [= <- <-]. cbn. split_and!; [done|done| |].
    + unfold ServerLoop.teardown. destruct Hc as [Hc|[Hc|[Hc [g Hg]]]]; cbn; rewrite Hc; unfold run_result; cbn; rewrite Hc;
        [done..|]. do 2 f_equal.
      match goal with |- context [flush _ _ _ _ _ _ _ ?c0] =>
        destruct (flush kconfig remote_sshid server_id limits rekey_timeout t ck c0) as [r c] eqn:Hf end.
      apply flush_busy in Hf; [destruct Hf as (_ & _ & _ & Hf & _); exact Hf|]. cbn. unfold view in Hg. cbn in Hg.
      unfold ServerReply.active_rekey_gen in Hg. destruct (kex (conn l)); [discriminate Hg|done..].
    + unfold ServerLoop.teardown. destruct Hc as [Hc|[Hc|[Hc _]]]; cbn; rewrite Hc; cbn; eexists; (split_and!; [| |reflexivity]); done.
  - intros H1. assert (Hl : supervisor_cause (supervision l') = None).
    { apply st_bind_ok in H1 as ([] & l1 & H2 & H1). apply (framed_result _ _ _ _ _ (on_conn_cause _)) in H2.
      unfold same_cause in H2. cbn in H2. rewrite Hc in H2.
      destruct (conn_disconnected (conn l1)); [by injection H1 as _ <-|].
      apply st_bind_ok in H1 as ([tr tm] & l2 & H3 & H1). apply (framed_result _ _ _ _ _ (on_conn_cause _)) in H3.
      unfold same_cause in H3. destruct tr; [|injection H1 as _ <-; congruence].
      apply st_bind_ok in H1 as ([] & l3 & H4 & H1). injection H4 as <-.
      apply st_bind_ok in H1 as ([] & l4 & H4 & H1). apply (framed_result _ _ _ _ _ (end_of_turn_cause _ _ _)) in H4.
      injection H1 as _ <-. unfold same_cause in H4. cbn in H4. congruence. }
    cbn. unfold ServerLoop.teardown, run_result. by rewrite Hl, Hl.
Qed.
End Steps.

(** ** Turns *)
Module Example.
#[local] Existing Instance rfc4251.
#[local] Existing Instance Negotiation.Example.keys.
#[local] Existing Instance Negotiation.Example.encodable_dec.
#[local] Existing Instance KexRun.Example.host_keys.
#[local] Existing Instance KexRun.Example.dh_kex.
#[local] Existing Instance Auth.Example.keys.
#[local] Existing Instance Bounded.mpsc.
#[local] Existing Instance Doubling.flate2.
#[local] Existing Instance ServerEncrypted.Example.bounded_send.
#[local] Existing Instance ServerEncrypted.Example.handler.
#[local] Existing Instance ServerEncrypted.Example.auth_handler.
#[local] Existing Instance ServerEncrypted.Example.request_handler.
#[local] Existing Instance packet_log.
#[local] Existing Instance ServerReply.Example.log_keys.
#[local] Existing Instance ServerReply.Example.handler_keeps.
#[local] Existing Instance ServerReply.Example.requests_keep.

(** Bytes have to move for a minute at most; the handshake is over by 2000. *)
Definition deadlines : Supervisor.Limits := Supervisor.mkLimits 60 None 2000.
Definition loop_of (c : ServerReply.Example.Conn) : Loop unit :=
  mkLoop c (mkSupervision (WriteWatchdog_new 1000) false None 0) (mkTimers None None 0).
Abbreviation turn := (turn KexRun.Example.KEXES KexRun.Example.sc (str "SSH-2.0-c") (str "SSH-2.0-s")
  ServerReply.Example.limits 60 (mkConfig 100 100) 50 100 MethodSet.all 3 (Some 1) (fun r => r) deadlines 3 None None
  (fun _ => 0) (fun _ => 0) (H := unit) (E := Error.error)).

(** The application writes to a channel that is not open, and the client pings. *)
Definition queue : list ServerMsg := [SData 7 None [1]; SWindowAdjusted 7 1].
Definition ping : event (W := list bytes) := EPacket (replicate 5 0 ++ ServerEncrypted.Example.ping) 4.
Lemma result_of {A B} (x : A * B) a : x.1 = a -> x = (a, x.2).
Proof. destruct x. by intros <-. Qed.
Abbreviation pinged := (turn ServerReply.Example.input queue ping (loop_of ServerReply.Example.logged_in)).
Lemma pinged_ok : pinged = (Ok (true, Some 4), pinged.2).
Proof. apply result_of. vm_compute. reflexivity. Qed.

Lemma turn_refines_steps_witness :
  rtc ServerReply.Example.step (conn (loop_of ServerReply.Example.logged_in)) (conn pinged.2).
Proof.
  exact (turn_refines_steps KexRun.Example.KEXES KexRun.Example.sc (str "SSH-2.0-c") (str "SSH-2.0-s")
    ServerReply.Example.limits 60 (mkConfig 100 100) 50 100 MethodSet.all 3 (Some 1) (fun r => r) deadlines 3 None None
    (fun _ => 0) (fun _ => 0) ServerReply.Example.input queue ping (loop_of ServerReply.Example.logged_in) _ _ pinged_ok).
Defined.

(** 60 seconds after a re-exchange began. *)
Definition late : Input := mkInput 1060 KexRun.Example.cookie KexRun.Example.cookie 9 7 lookup_dh_gex_group.
Abbreviation given_up := (turn late queue ping (loop_of ServerReply.Example.rekeying)).
Lemma given_up_ok : given_up = (Ok (false, None), given_up.2).
Proof. apply result_of. vm_compute. reflexivity. Qed.

Lemma verdict_reported_witness :
  run_result (teardown KexRun.Example.sc (str "SSH-2.0-c") (str "SSH-2.0-s") ServerReply.Example.limits 60 1060
    KexRun.Example.cookie (fun _ => str "supervisor") given_up.2) = Err (Error.RekeyTimeout 1).
Proof.
  pose proof (verdict_reported KexRun.Example.KEXES KexRun.Example.sc (str "SSH-2.0-c") (str "SSH-2.0-s")
    ServerReply.Example.limits 60 (mkConfig 100 100) 50 100 MethodSet.all 3 (Some 1) (fun r => r) deadlines 3 None None
    (fun _ => 0) (fun _ => 0) late queue ping (loop_of ServerReply.Example.rekeying) _ _ 1060 KexRun.Example.cookie
    (fun _ => str "supervisor") eq_refl given_up_ok) as H.
  cbv beta zeta in H.
  assert (Hs : (supervise deadlines (now late) (view (fun _ => 0) (conn (loop_of ServerReply.Example.rekeying)))
    (supervision (loop_of ServerReply.Example.rekeying))).1 = true) by (vm_compute; reflexivity).
  rewrite Hs in H. destruct H as (_ & _ & H & _).
  assert (Hc : supervisor_cause (supervision given_up.2) = Some RekeyTimeout) by (vm_compute; reflexivity).
  rewrite Hc in H. rewrite H. vm_compute. reflexivity.
Defined.
End Example.
