(* ===== verification/ServerRun.v ===== *)
(** * The whole run of a server session, and the server that accepts connections
    ([run_stream] and [run_on_socket] of [russh/src/server/mod.rs], [run] of
    [server/session.rs])

    [SessionRun] has the life of one connection: from the identification to the
    result of its task.  [Listener] has the accept loop with its tasks, which a
    shutdown reaches over a broadcast channel of [tokio] (a parameter,
    [Broadcast]). *)

From stdpp Require Import base list numbers option gmap strings.
From Stdlib Require Import ZArith Lia.
From S2P Require Import Supervisor.
From S2P Require Import Prelude Encoding Parsing LibInner Msg NameList PacketWriter PendingInbound Cipher Compression Session.
From S2P Require Import CipherImpls Negotiation KexKeys Dh Kex KexRun.
From S2P Require Import ServerSession ServerFrames ChannelOpen ChannelRequests Auth ServerAuth ServerEncrypted CommonSession ServerReply ServerLoop.

(** ** A session *)
Section SessionRun.
Context {enc : SshEncoding} {SKY : SshKeys} {HKS : HostKeys} {UK : UserKeys}.
Context {Q : Mpsc} {QS : MpscSend Q} {F : Flate2}.
Context {K SK OK : Type} {KA : KexAlgorithmImplementor K SK OK} (KEXES : bytes -> option K).
Context {W : Type} {HW : PacketSink W} {KW : KeyedSink W SK}.
Context (kconfig : ServerConfig) (remote_sshid server_id : bytes) (limits : LibInner.Limits) (rekey_timeout : Z).
Context (config : Config) (window_size maximum_packet_size : Z) (auth_methods : MethodSet).
Context (auth_rejection_time : Z) (auth_rejection_time_initial : option Z) (after_failure : bytes -> bytes).
Context (deadlines : Supervisor.Limits) (keepalive_max : Z) (keepalive_interval inactivity_timeout : option Z).
Context (pending_bytes drained_total : W -> Z).
Context {H E : Type} {HH : @Handler Q W H E} {AH : AuthHandler H E} {RH : @RequestHandler UK Q F W H E}.

Abbreviation Conn := (@ServerReply.Conn SKY UK Q F K SK OK W H).
Abbreviation Loop := (@ServerLoop.Loop SKY UK Q F K SK OK W H).
Implicit Types c : Conn.
Implicit Types l : Loop.

Abbreviation step := (conn_step KEXES kconfig remote_sshid server_id limits rekey_timeout config window_size
  maximum_packet_size auth_methods auth_rejection_time auth_rejection_time_initial after_failure (H := H) (E := E)).
Abbreviation begin_rekey := (begin_rekey kconfig remote_sshid server_id rekey_timeout (H := H)).
Abbreviation flush := (flush kconfig remote_sshid server_id limits rekey_timeout (H := H)).
Abbreviation turn := (turn KEXES kconfig remote_sshid server_id limits rekey_timeout config window_size
  maximum_packet_size auth_methods auth_rejection_time auth_rejection_time_initial after_failure deadlines
  keepalive_max keepalive_interval inactivity_timeout pending_bytes drained_total (H := H) (E := E)).
Abbreviation teardown := (teardown kconfig remote_sshid server_id limits rekey_timeout (H := H)).

(** A turn with what the application has queued and what happens; or the socket
    fails. *)
Inductive happening : Type :=
| Happens (i : Input) (q : list ServerMsg) (ev : event (W := W))
| SocketFails (x : Error.error).

(** The loop: [None] while it waits, [Ok] when it ended in order. *)
Fixpoint session_loop (script : list happening) l : option (res E unit) * Loop :=
  if l.(conn).(conn_disconnected) then (Some (Ok tt), l)
  else
    match script with
    | [] => (None, l)
    | SocketFails x :: _ => (Some (Err (from_error x)), l)
    | Happens i q ev :: script =>
        match turn i q ev l with
        | (Ok (true, _), l) => session_loop script l
        | (Ok (false, _), l) => (Some (Ok tt), l)
        | (Err e, l) => (Some (Err e), l)
        | (Panic, l) => (Some Panic, l)
        end
    end.

(** The loop before its first turn. *)
Definition Loop_new (now : Z) c : Loop :=
  mkLoop c (mkSupervision (WriteWatchdog_new now) false None (drained_total (writer_of c)))
    (mkTimers (Z.add now <$> keepalive_interval) (Z.add now <$> inactivity_timeout) 0).

(** [written]: what came of writing the KEXINIT before the deadline of the
    handshake ([None]: it passed).  [describe] names a cause in the DISCONNECT that
    is meant to be sent at the end, at [late]. *)
Definition run (i : Input) (written : option (res Error.error unit)) (script : list happening)
    (late : Z) (late_cookie : bytes) (describe : DisconnectCause -> bytes) c : option (res E unit) * Loop :=
  match (ServerReply.up (flush i.(now) i.(flush_cookie)) : st Conn E unit) c with
  | (Err e, c) => (Some (Err e), Loop_new i.(now) c)
  | (Panic, c) => (Some Panic, Loop_new i.(now) c)
  | (Ok _, c) =>
      let l := Loop_new i.(now) c in
      match written with
      | None => (Some (Err (from_error Error.HandshakeTimeout)), l)
      | Some (Err x) => (Some (Err (from_error x)), l)
      | Some Panic => (Some Panic, l)
      | Some (Ok _) =>
          match session_loop script l with
          | (Some (Ok _), l) =>
              let l := teardown late late_cookie describe l in (Some (map_err from_error (run_result l)), l)
          | r => r
          end
      end
  end.

(** [run_stream] up to the start of the task; [greeted]: what came of writing the
    identification and of reading that of the client, both before the deadline. *)
Definition run_stream (written read : option (res Error.error unit)) (w : W) (key : OK) (h : H) (t : Z) (cookie : bytes)
  : res E Conn :=
  let in_time (r : option (res Error.error unit)) : res E unit :=
    match r with None => Err (from_error Error.HandshakeTimeout) | Some r => map_err from_error r end in
  let? _ := in_time written in
  let? _ := in_time read in
  match begin_rekey t cookie (Conn_new w key h window_size) with
  | (Ok _, c) => Ok c
  | (Err x, _) => Err (from_error x)
  | (Panic, _) => Panic
  end.

(** ** What a session did is made of the steps of [ServerReply] *)
Context {HF : HandlerFrame keeps_keys} {RF : RequestHandlerFrame same_session}.
Abbreviation supervised := (fun i l => supervise deadlines i.(now) (view pending_bytes l.(conn)) l.(supervision)).

(** The supervisor has seen that the client is authenticated only when it was. *)
Definition seen_on_the_way c0 l : Prop :=
  l.(supervision).(handshake_done) = true ->
  exists c, rtc step c0 c /\ rtc step c l.(conn) /\ (view pending_bytes c).(auth_done) = true.

Lemma done_kept {X A} (m : st Conn X A) l : (on_conn m l).2.(supervision) = l.(supervision).
Proof. unfold on_conn. by destruct (m _). Qed.

Lemma turn_done i q ev l r l' : turn i q ev l = (Ok r, l') ->
  l'.(supervision).(handshake_done) = l.(supervision).(handshake_done) || (view pending_bytes l.(conn)).(auth_done).
Proof.
  unfold ServerLoop.turn.
  assert (Hd : (supervised i l).2.(handshake_done) = l.(supervision).(handshake_done) || (view pending_bytes l.(conn)).(auth_done)).
  { unfold supervise. destruct (_ && _); [by destruct (orb _ _)|]. destruct (poll_timeout _ _ _ _) as [[?|] ?]; [done|].
    by destruct (poll _ _ _). }
  cbv beta in Hd. destruct (supervise _ _ _ _) as [[] s]; cbn [snd] in Hd; [by intros [= _ <-]|]. rewrite <- Hd. clear Hd. intros H1.
  apply st_bind_ok in H1 as ([] & l1 & H2 & H1).
  assert (Hs1 : l1.(supervision) = s) by (pose proof (done_kept (ServerReply.up (backlog kconfig remote_sshid server_id limits rekey_timeout config window_size
    maximum_packet_size pending_bytes i q) : st Conn E _) (mkLoop (conn l) s (timers l))) as Hk; by rewrite H2 in Hk).
  destruct (conn_disconnected (conn l1)); [by injection H1 as _ <-; rewrite Hs1|].
  apply st_bind_ok in H1 as ([t tm] & l2 & H3 & H1).
  match type of H3 with on_conn ?m l1 = _ => pose proof (done_kept m l1) as Hk end. rewrite H3 in Hk. cbn [snd] in Hk.
  destruct t; [|injection H1 as _ <-; by rewrite Hk, Hs1].
  apply st_bind_ok in H1 as ([] & l3 & H4 & H1). injection H4 as <-.
  apply st_bind_ok in H1 as ([] & l4 & H4 & H1). injection H1 as _ <-.
  unfold end_of_turn in H4. apply st_bind_ok in H4 as ([] & l5 & H5 & H4). injection H5 as <-.
  apply st_bind_ok in H4 as ([] & l6 & H5 & H4).
  match type of H5 with on_conn ?m ?l0 = _ => pose proof (done_kept m l0) as Hk1 end. rewrite H5 in Hk1. cbn [snd supervision] in Hk1.
  apply st_bind_ok in H4 as ([] & l7 & H6 & H4).
  match type of H6 with on_conn ?m ?l0 = _ => pose proof (done_kept m l0) as Hk2 end. rewrite H6 in Hk2. cbn [snd] in Hk2.
  injection H4 as <-. cbn [supervision]. rewrite Hk2, Hk1, Hk, Hs1. unfold credit_drained.
  by destruct (_ <? _).
Qed.
(** A turn that goes on after the deadline finds an authenticated client. *)
Lemma turn_in_time i q ev l n l' : turn i q ev l = (Ok (true, n), l') ->
  deadlines.(handshake_deadline_at) <= i.(now) -> l'.(supervision).(handshake_done) = true.
Proof.
  intros H1 Ht. rewrite (turn_done _ _ _ _ _ _ H1). unfold ServerLoop.turn, supervise in H1.
  destruct (_ || _); [done|]. cbn [negb andb] in H1. by rewrite (proj2 (Z.leb_le _ _) Ht) in H1.
Qed.

Lemma seen_first c0 l : rtc step c0 l.(conn) -> l.(supervision).(handshake_done) = false -> seen_on_the_way c0 l.
Proof. intros _ Hd Ht. congruence. Qed.

Lemma turn_seen c0 i q ev l r l' : rtc step c0 l.(conn) -> seen_on_the_way c0 l -> turn i q ev l = (Ok r, l') ->
  rtc step c0 l'.(conn) /\ seen_on_the_way c0 l'.
Proof.
  intros Hs Hd H1. assert (Hst : rtc step (conn l) (conn l')) by (eapply turn_refines_steps; [exact HF|exact H1]).
  split; [by etransitivity|]. intros Hdone. rewrite (turn_done _ _ _ _ _ _ H1) in Hdone.
  apply orb_true_iff in Hdone as [Hdone|Hdone].
  - destruct (Hd Hdone) as (c & S1 & S2 & S3). exists c. split_and!; [done|by etransitivity|done].
  - by exists (conn l).
Qed.

(** When a turn was made. *)
Definition after_deadline (h : happening) : Prop :=
  match h with Happens i _ _ => deadlines.(handshake_deadline_at) <= i.(now) | SocketFails _ => False end.

Lemma loop_done_stays script : forall l l', session_loop script l = (None, l') ->
  l.(supervision).(handshake_done) = true -> l'.(supervision).(handshake_done) = true.
Proof.
  induction script as [|[i q ev|x] script IH]; intros l l' H1 Hd; cbn [session_loop] in H1;
    destruct (conn_disconnected _); try done; [by injection H1 as <-|].
  destruct (turn i q ev l) as [[[[] n]|e|] l1] eqn:Ht; try done. apply (IH _ _ H1).
  by rewrite (turn_done _ _ _ _ _ _ Ht), Hd.
Qed.

Lemma session_loop_steps script : forall c0 l r l', rtc step c0 l.(conn) -> seen_on_the_way c0 l ->
  session_loop script l = (r, l') -> r = None \/ r = Some (Ok tt) ->
  rtc step c0 l'.(conn) /\ seen_on_the_way c0 l' /\
  (r = None -> Exists after_deadline script -> l'.(supervision).(handshake_done) = true).
Proof.
  induction script as [|h script IH]; intros c0 l r l' Hs Hd H1 Hr; cbn [session_loop] in H1.
  { assert (Hl : l' = l) by (destruct (conn_disconnected _); by injection H1 as _ <-). subst.
    split_and!; [done..|]. intros _ He. by apply Exists_nil in He. }
  destruct (conn_disconnected _); [injection H1 as <- <-; by split_and!|].
  destruct h as [i q ev|x]; [|injection H1 as <- _; by destruct Hr].
  destruct (turn i q ev l) as [[[[] n]|e|] l1] eqn:Ht.
  - destruct (turn_seen _ _ _ _ _ _ _ Hs Hd Ht) as [Hs1 Hd1].
    destruct (IH _ _ _ _ Hs1 Hd1 H1 Hr) as (G1 & G2 & G3). split_and!; [done..|]. intros Hn He.
    apply Exists_cons in He as [He|He]; [|by apply G3].
    subst. eapply loop_done_stays; [exact H1|]. by eapply turn_in_time.
  - injection H1 as <- <-. destruct (turn_seen _ _ _ _ _ _ _ Hs Hd Ht) as [Hs1 Hd1]. by split_and!.
  - injection H1 as <- _. by destruct Hr.
  - injection H1 as <- _. by destruct Hr.
Qed.
(** When the loop ends in order, the teardown changes nothing; otherwise it is the
    verdict of the supervisor that is returned. *)
Lemma session_loop_end t ck describe script : forall l l',
  l.(supervision).(supervisor_cause) = None -> session_loop script l = (Some (Ok tt), l') ->
  let e := teardown t ck describe l' in
  e = l' /\ run_result e = Ok tt \/ exists x, run_result e = Err x.
Proof.
  induction script as [|[i q ev|x] script IH]; intros l l' Hn H1; cbn [session_loop] in H1;
    (destruct (conn_disconnected _);
      [injection H1 as <-; left; unfold ServerLoop.teardown, run_result; by rewrite Hn, Hn|]); try done.
  destruct (turn i q ev l) as [[[go n]|e|] l1] eqn:Ht; try done.
  pose proof (verdict_reported KEXES kconfig remote_sshid server_id limits rekey_timeout config window_size
    maximum_packet_size auth_methods auth_rejection_time auth_rejection_time_initial after_failure deadlines keepalive_max
    keepalive_interval inactivity_timeout pending_bytes drained_total i q ev l _ _ t ck describe Hn Ht) as Hv. cbv zeta in Hv.
  destruct (supervised i l).1.
  - destruct Hv as (Hgo & _ & Hv & _). injection Hgo as -> ->. injection H1 as <-. right.
    destruct (supervisor_cause (supervision l1)) as [[]|]; try done; eexists; exact Hv.
  - destruct Hv as (Hc & He & Hr). destruct go; [by apply (IH l1)|]. injection H1 as <-. left. by rewrite He at 1.
Qed.

(** The client is let in only with the consent of the application. *)
Definition consented c : Prop :=
  authenticated c.(app).(ServerEncrypted.session_id) c.(app).(auth_user) c.(app).(auth_trace).
Definition nobody_unasked c : Prop :=
  match encrypted_of c with
  | None => c.(app).(auth_trace) = []
  | Some _ =>
      match c.(app).(ServerEncrypted.state) with
      | InitCompression | Authenticated => consented c
      | _ => ungranted c.(app).(auth_trace)
      end
  end.

Lemma steps_nobody_unasked c0 c : started kconfig remote_sshid server_id rekey_timeout c0 -> rtc step c0 c -> nobody_unasked c.
Proof. intros H0 Hs. by eapply connection_auth_sound. Qed.

Lemma session_run_steps i written script late ck describe c0 r l : run i written script late ck describe c0 = (r, l) ->
  r = None \/ r = Some (Ok tt) ->
  rtc step c0 l.(conn) /\ seen_on_the_way c0 l /\
  (r = None -> Exists after_deadline script -> l.(supervision).(handshake_done) = true).
Proof.
  intros H1 Hr. unfold run in H1. destruct (ServerReply.up _ c0) as [[[]|e|] c1] eqn:Hf; try (injection H1 as <- _; by destruct Hr).
  assert (Hs : rtc step c0 c1).
  { apply rtc_once. apply (step_flush _ _ _ _ _ _ _ _ _ _ _ _ _ _ i.(now) i.(flush_cookie)).
    unfold ServerReply.up, st_map_err in Hf. destruct (ServerReply.flush _ _ _ _ _ _ _ c0) as [[[]| |] c2]; cbn in Hf; [by injection Hf as ->|done..]. }
  destruct written as [[[]|x|]|]; try (injection H1 as <- _; by destruct Hr).
  destruct (session_loop script (Loop_new (now i) c1)) as [[[[]|e|]|] l1] eqn:Hl; try (injection H1 as <- _; by destruct Hr).
  - destruct (session_loop_steps script c0 (Loop_new (now i) c1) _ _ Hs (seen_first c0 (Loop_new (now i) c1) Hs eq_refl) Hl (or_intror eq_refl)) as (G1 & G2 & _).
    destruct (session_loop_end late ck describe script (Loop_new (now i) c1) _ eq_refl Hl) as [[He Hrr]|[x Hrr]]; injection H1 as <- <-.
    + rewrite He. by split_and!.
    + rewrite Hrr in Hr. by destruct Hr.
  - injection H1 as <- <-. by apply (session_loop_steps script c0 (Loop_new (now i) c1) _ _ Hs (seen_first c0 (Loop_new (now i) c1) Hs eq_refl) Hl).
Qed.

Lemma run_stream_started w key h t cookie c0 : run_stream (Some (Ok tt)) (Some (Ok tt)) w key h t cookie = Ok c0 ->
  started kconfig remote_sshid server_id rekey_timeout c0.
Proof.
  intros H0. unfold run_stream in H0. cbn in H0. destruct (begin_rekey _ _ _) as [[[]| |] c1] eqn:Hb; try done.
  injection H0 as <-. by do 6 eexists.
Qed.

(** C4. A server session lets nobody in unasked, from its first byte to its end:
    whatever the client sends, the application queues and the socket does, a session
    that still runs or has ended in order counts as authenticated only if a callback
    of the application accepted the user that the session then names (after
    [auth_none], which does not remember the user, it may name nobody; for a key: one
    that was offered and whose signature of the session id and the packet verified);
    before there are keys no callback of the authentication is made; and a session
    that goes on after the deadline of the handshake has been authenticated. *)
Theorem session_sound w key h t cookie c0 i written script late ck describe r l :
  run_stream (Some (Ok tt)) (Some (Ok tt)) w key h t cookie = Ok c0 ->
  run i written script late ck describe c0 = (r, l) -> r = None \/ r = Some (Ok tt) ->
  nobody_unasked l.(conn) /\
  (r = None -> Exists after_deadline script -> exists c, rtc step c0 c /\ rtc step c l.(conn) /\ consented c).
Proof.
  intros H0 H1 Hr.
  pose proof (run_stream_started _ _ _ _ _ _ H0) as Hst.
  apply session_run_steps in H1 as (Hs & Hd & Ht); [|done]. split; [by eapply steps_nobody_unasked|].
  intros Hn He. destruct (Hd (Ht Hn He)) as (c & S1 & S2 & S3). exists c. split_and!; [done..|].
  pose proof (steps_nobody_unasked _ _ Hst S1) as Hc. unfold nobody_unasked in Hc. cbn in S3.
  destruct (encrypted_of c); [|done]. by destruct (ServerEncrypted.state (app c)).
Qed.
End SessionRun.

(** ** A session from beginning to end *)
Module SessionExample.
#[local] Existing Instance rfc4251.
#[local] Existing Instance Negotiation.Example.keys.
#[local] Existing Instance Negotiation.Example.encodable_dec.
#[local] Existing Instance KexRun.Example.host_keys.
#[local] Existing Instance KexRun.Example.dh_kex.
#[local] Existing Instance Auth.Example.keys.
#[local] Existing Instance Bounded.mpsc.
#[local] Existing Instance Doubling.flate2.
#[local] Existing Instance ServerEncrypted.Example.bounded_send.
#[local] Existing Instance ServerEncrypted.Example.handler.
#[local] Existing Instance ServerEncrypted.Example.auth_handler.
#[local] Existing Instance ServerEncrypted.Example.request_handler.
#[local] Existing Instance packet_log.
#[local] Existing Instance ServerReply.Example.log_keys.
#[local] Existing Instance ServerReply.Example.handler_keeps.
#[local] Existing Instance ServerReply.Example.requests_keep.

Abbreviation happenings := (list (happening (W := list bytes))).
Definition packets (ps : list (Z * bytes)) : happenings :=
  map (fun p => Happens ServerReply.Example.input [] (EPacket (replicate 5 0 ++ p.2) p.1)) ps.
(** The exchange and the login, and a turn long after the deadline (2000). *)
Definition script : happenings :=
  packets (ServerReply.Example.kex_packets ++ ServerReply.Example.login) ++
  [Happens (mkInput 3000 KexRun.Example.cookie KexRun.Example.cookie 9 7 lookup_dh_gex_group) [] EWakeUp].

Abbreviation runs := (run KexRun.Example.KEXES KexRun.Example.sc (str "SSH-2.0-c") (str "SSH-2.0-s")
  ServerReply.Example.limits 60 (mkConfig 100 100) 50 100 MethodSet.all 3 (Some 1) (fun r => r) ServerLoop.Example.deadlines 3 None None
  (fun _ => 0) (fun _ => 0) (H := unit) (E := Error.error) ServerReply.Example.input (Some (Ok tt)) script 4000
  KexRun.Example.cookie (fun _ => str "supervisor") ServerReply.Example.c0).
Abbreviation step := (ServerReply.Example.step).

Lemma session_sound_witness :
  runs.1 = None /\ nobody_unasked (W := list bytes) runs.2.(conn) /\
  exists c, rtc step ServerReply.Example.c0 c /\ rtc step c runs.2.(conn) /\ consented c.
Proof.
  assert (Hr : runs.1 = None) by (vm_compute; reflexivity). split; [exact Hr|].
  destruct (session_sound KexRun.Example.KEXES KexRun.Example.sc (str "SSH-2.0-c") (str "SSH-2.0-s")
    ServerReply.Example.limits 60 (mkConfig 100 100) 50 100 MethodSet.all 3 (Some 1) (fun r => r) ServerLoop.Example.deadlines 3 None None
    (fun _ => 0) (fun _ => 0) (H := unit) (E := Error.error)
    [] CipherImpls.Example.k0 tt 0 KexRun.Example.cookie ServerReply.Example.c0 ServerReply.Example.input (Some (Ok tt)) script 4000
    KexRun.Example.cookie (fun _ => str "supervisor") runs.1 runs.2) as [H1 H2].
  - unfold run_stream. cbn [map_err res_bind]. pose proof ServerReply.Example.begun_ok as Hb. unfold ServerReply.Example.begun in Hb.
    by rewrite Hb.
  - by destruct runs.
  - by left.
  - split; [exact H1|]. apply H2; [exact Hr|]. unfold script. apply Exists_app. right. apply Exists_cons. left. vm_compute. discriminate.
Defined.
End SessionExample.

(** ** The server *)

(** What comes over a broadcast channel: nothing yet, a value, or an error - the
    channel is closed, or values were lost. *)
Inductive received : Type :=
| Nothing
| Value (v : bytes)
| Failed.

(** [tokio::sync::broadcast] with room for one value; receivers have numbers. *)
Class Broadcast : Type := {
  Chan : Type;
  channel : Chan;                            (* with receiver 0 *)
  subscribe : Chan -> nat * Chan;
  broadcast : bytes -> Chan -> Chan;
  recv : nat -> Chan -> received * Chan;
  close : Chan -> Chan;                      (* the last sender is dropped *)
}.

(** Its documented behaviour, by what a receiver would get next: nothing before the
    first value after its subscription; then that value, once, unless another one
    takes its place, which is an error; other receivers make no difference. *)
Class BroadcastLaws (B : Broadcast) : Type := {
  next : nat -> Chan -> received;
  receivers : Chan -> nat;
  channel_new : receivers channel = 1%nat /\ next 0 channel = Nothing;
  subscribe_new c : subscribe c = (receivers c, (subscribe c).2) /\ receivers (subscribe c).2 = Datatypes.S (receivers c) /\
    next (receivers c) (subscribe c).2 = Nothing /\
    forall r, (r < receivers c)%nat -> next r (subscribe c).2 = next r c;
  broadcast_next v c : receivers (broadcast v c) = receivers c /\
    forall r, (r < receivers c)%nat -> next r (broadcast v c) = match next r c with Nothing => Value v | _ => Failed end;
  recv_next r c : (r < receivers c)%nat -> (recv r c).1 = next r c /\ receivers (recv r c).2 = receivers c /\
    (next r c = Nothing -> (recv r c).2 = c) /\
    (forall v, next r c = Value v -> next r (recv r c).2 = Nothing) /\
    forall r', r' <> r -> next r' (recv r c).2 = next r' c;
}.

Section Listener.
Context {B : Broadcast} {App Hd Addr Er : Type}.
(** The trait [Server]. *)
Context (new_client : option Addr -> App -> Hd * App) (handle_session_error : Er -> App -> App).

(** A connection: its handler, what it waits with, how far it is, and the messages
    that were put into the queue of its session. *)
Inductive phase : Type := Setup | Serving | Ended.
Record Task : Type := mkTask { thandler : Hd; shutdown_rx : nat; tphase : phase; told : list ServerMsg }.

(** The loop of [run_on_socket]: [result] is what it returned. *)
Record Srv : Type := mkSrv {
  sapp : App;
  main_rx : nat;
  chan : Chan;
  tasks : list Task;
  errors : list Er;
  result : option (res Z unit);
}.
Definition run_on_socket (a : App) : Srv := mkSrv a 0 channel [] [] None.

Definition set_tasks (t : list Task) (s : Srv) : Srv := mkSrv s.(sapp) s.(main_rx) s.(chan) t s.(errors) s.(result).
Definition set_chan (c : Chan) (s : Srv) : Srv := mkSrv s.(sapp) s.(main_rx) c s.(tasks) s.(errors) s.(result).
Definition set_result (r : res Z unit) (s : Srv) : Srv := mkSrv s.(sapp) s.(main_rx) s.(chan) s.(tasks) s.(errors) (Some r).
Definition set_phase (p : phase) (t : Task) : Task := mkTask t.(thandler) t.(shutdown_rx) p t.(told).
Definition put_error (e : Er) (s : Srv) : Srv := mkSrv s.(sapp) s.(main_rx) s.(chan) s.(tasks) (s.(errors) ++ [e]) s.(result).

(** What can happen: a handle of the server asks for a shutdown, or the last one is
    dropped; an arm of the loop; or a task gets on. *)
Inductive action : Type :=
| Shutdown (reason : bytes)
| HandlesDropped
| LoopShutdown
| LoopAccept (r : res Z Addr)
| LoopError
| TaskSetup (i : nat) (r : option Er)       (* [run_stream] *)
| TaskTold (i : nat)
| TaskResult (i : nat) (r : option Er).     (* the session ended *)

(** The arms of a task's [select!], which both end it. *)
Definition tell (reason : received) (t : Task) : Task :=
  mkTask t.(thandler) t.(shutdown_rx) Ended
    (t.(told) ++ [SDisconnect Disconnect.ByApplication (match reason with Value v => v | _ => [] end) []]).

(** [None]: it cannot happen now. *)
Definition act (a : action) (s : Srv) : option Srv :=
  match a with
  | Shutdown reason => Some (set_chan (broadcast reason s.(chan)) s)
  | HandlesDropped => Some (set_chan (close s.(chan)) s)
  | LoopShutdown =>
      match s.(result), recv s.(main_rx) s.(chan) with
      | Some _, _ | _, (Nothing, _) => None
      | None, (_, c) => Some (set_result (Ok tt) (set_chan c s))
      end
  | LoopAccept r =>
      match s.(result), r with
      | Some _, _ => None
      | None, Err e => Some (set_result (Err e) s)
      | None, Panic => None
      | None, Ok addr =>
          let '(rx, c) := subscribe s.(chan) in
          let '(h, a) := new_client (Some addr) s.(sapp) in
          Some (mkSrv a s.(main_rx) c (s.(tasks) ++ [mkTask h rx Setup []]) s.(errors) None)
      end
  | LoopError =>
      match s.(result), s.(errors) with
      | None, e :: es => Some (mkSrv (handle_session_error e s.(sapp)) s.(main_rx) s.(chan) s.(tasks) es None)
      | _, _ => None
      end
  | TaskSetup i r =>
      match s.(tasks) !! i with
      | Some t =>
          match t.(tphase), r with
          | Setup, None => Some (set_tasks (<[i := set_phase Serving t]> s.(tasks)) s)
          | Setup, Some e => Some (put_error e (set_tasks (<[i := set_phase Ended t]> s.(tasks)) s))
          | _, _ => None
          end
      | None => None
      end
  | TaskTold i =>
      match s.(tasks) !! i with
      | Some t =>
          match t.(tphase), recv t.(shutdown_rx) s.(chan) with
          | Serving, (Nothing, _) => None
          | Serving, (r, c) => Some (set_chan c (set_tasks (<[i := tell r t]> s.(tasks)) s))
          | _, _ => None
          end
      | None => None
      end
  | TaskResult i r =>
      match s.(tasks) !! i with
      | Some t =>
          match t.(tphase) with
          | Serving =>
              let s := set_tasks (<[i := set_phase Ended t]> s.(tasks)) s in
              Some (match r with Some e => put_error e s | None => s end)
          | _ => None
          end
      | None => None
      end
  end.

Fixpoint acts (l : list action) (s : Srv) : option Srv :=
  match l with
  | [] => Some s
  | a :: l => s ← act a s; acts l s
  end.

(** *** What a shutdown reaches *)
Context {BL : BroadcastLaws B}.
Implicit Types s : Srv.

(** Every task waits with a receiver of its own. *)
Record wired s : Prop := mkWired {
  wi_main : s.(main_rx) = 0%nat;
  wi_count : receivers s.(chan) = Datatypes.S (length s.(tasks));
  wi_rx i t : s.(tasks) !! i = Some t -> t.(shutdown_rx) = Datatypes.S i;
}.

Definition quiet s : Prop :=
  wired s /\ (forall r, (r < receivers s.(chan))%nat -> next r s.(chan) = Nothing) /\
  forall i t, s.(tasks) !! i = Some t -> t.(told) = [].

Definition disconnect_message (reason : bytes) : ServerMsg := SDisconnect Disconnect.ByApplication reason [].

(** After the shutdown, when there were [n] connections. *)
Definition shutting (n : nat) (reason : bytes) s : Prop :=
  wired s /\ (n <= length s.(tasks))%nat /\ (s.(result) = None -> next 0 s.(chan) = Value reason) /\
  forall i t, s.(tasks) !! i = Some t ->
    if decide (i < n)%nat
    then t.(told) = [] /\ next (Datatypes.S i) s.(chan) = Value reason \/
         t.(told) = [disconnect_message reason] /\ t.(tphase) = Ended
    else t.(told) = [] /\ next (Datatypes.S i) s.(chan) = Nothing.

(** Neither a shutdown nor the end of all handles. *)
Definition calm (a : action) : Prop := match a with Shutdown _ | HandlesDropped => False | _ => True end.

Lemma run_quiet a : quiet (run_on_socket a).
Proof.
  destruct channel_new as [H1 H2]. split; [split; try done; by rewrite H1|]. split.
  - intros r Hr. cbn in *. rewrite H1 in Hr. by destruct r; [|lia].
  - by intros [|i] t.
Qed.

(** A task changes, and keeps its receiver. *)
Lemma wired_task i t t' c e r s : wired s -> s.(tasks) !! i = Some t -> t'.(shutdown_rx) = t.(shutdown_rx) ->
  receivers c = receivers s.(chan) -> wired (mkSrv s.(sapp) s.(main_rx) c (<[i := t']> s.(tasks)) e r).
Proof.
  intros [W1 W2 W3] Hi Ht Hc. split; cbn; [done|by rewrite Hc, W2, length_insert|].
  intros j u. rewrite list_lookup_insert_Some. intros [(<- & <- & _)|[_ Hj]]; [rewrite Ht|]; by apply W3.
Qed.

Lemma wired_accept s h a : wired s ->
  wired (mkSrv a s.(main_rx) (subscribe s.(chan)).2 (s.(tasks) ++ [mkTask h (receivers s.(chan)) Setup []]) s.(errors) None).
Proof.
  intros [W1 W2 W3]. destruct (subscribe_new s.(chan)) as (_ & Hr & _). split; cbn; [done|rewrite Hr, W2, length_app; cbn; lia|].
  intros i t Hi. apply lookup_app_Some in Hi as [Hi|[Hl Hi]]; [by apply W3|].
  apply list_lookup_singleton_Some in Hi as [Hi <-]. cbn. rewrite W2. lia.
Qed.

(** What is known of connection [i]. *)
Definition task_shutting (n : nat) (reason : bytes) (i : nat) (t : Task) (c : Chan) : Prop :=
  if decide (i < n)%nat
  then t.(told) = [] /\ next (Datatypes.S i) c = Value reason \/ t.(told) = [disconnect_message reason] /\ t.(tphase) = Ended
  else t.(told) = [] /\ next (Datatypes.S i) c = Nothing.

Lemma shutting_task n reason i t t' c e s : shutting n reason s -> s.(tasks) !! i = Some t ->
  t'.(shutdown_rx) = t.(shutdown_rx) -> receivers c = receivers s.(chan) ->
  (forall r, r <> Datatypes.S i -> next r c = next r s.(chan)) -> task_shutting n reason i t' c ->
  shutting n reason (mkSrv s.(sapp) s.(main_rx) c (<[i := t']> s.(tasks)) e s.(result)).
Proof.
  intros (Hw & Hn & Hm & Ht) Hi Hrx Hc Ho Hti. split; [by eapply wired_task|]. cbn. rewrite length_insert. split; [done|].
  split; [rewrite Ho by done; exact Hm|]. intros j u. rewrite list_lookup_insert_Some.
  intros [(<- & <- & _)|[Hij Hj]]; [exact Hti|]. rewrite Ho by congruence. by apply Ht.
Qed.

Lemma act_shutting n reason a s s' : calm a -> act a s = Some s' ->
  shutting n reason s -> shutting n reason s'.
Proof.
  intros Ha H1 Hs. pose proof Hs as (Hw & Hn & Hm & Ht). destruct a as [v| | |r| |i r|i|i r]; cbn [act] in H1; try done.
  - destruct (result s) as [?|]; [done|]. destruct (recv (main_rx s) (chan s)) as [x c] eqn:Hr.
    destruct Hw as [W1 W2 W3]. destruct (recv_next (main_rx s) (chan s)) as (_ & R2 & _ & _ & R5); [rewrite W1, W2; lia|].
    rewrite Hr in R2, R5. cbn [snd] in R2, R5.
    destruct x; [done|..]; injection H1 as <-; (split; [by split; [done|cbn; by rewrite R2|done]|]); (split; [done|]); (split; [done|]);
      intros i t Hi; cbn; rewrite (R5 (Datatypes.S i)) by (rewrite W1; done); by apply Ht.
  - destruct (result s) eqn:Hres; [done|]. destruct r as [addr|e|]; [|injection H1 as <-; by split; [destruct Hw; split|]|done].
    destruct (subscribe_new (chan s)) as (Hsub & S1 & S2 & S3). rewrite Hsub in H1.
    destruct (new_client (Some addr) (sapp s)) as [h a']. injection H1 as <-. split; [by apply wired_accept|]. cbn.
    rewrite length_app. split; [lia|]. split; [intros _; rewrite S3 by (rewrite (wi_count s Hw); lia); by apply Hm|].
    intros i t Hi. apply lookup_app_Some in Hi as [Hi|[Hl Hi]].
    + rewrite S3; [by apply Ht|]. rewrite (wi_count s Hw). apply lookup_lt_Some in Hi. lia.
    + apply list_lookup_singleton_Some in Hi as [Hi <-]. rewrite decide_False by lia. split; [done|].
      replace (Datatypes.S i) with (receivers (chan s)) by (rewrite (wi_count s Hw); lia). exact S2.
  - destruct (result s) eqn:Hres; [done|]. destruct (errors s); [done|]. injection H1 as <-. split; [by destruct Hw; split|].
    split; [done|]. split; [intros _; by apply Hm|done].
  - destruct (tasks s !! i) as [t|] eqn:Hi; [|done].
    assert (Hti : forall p, t.(tphase) <> Ended -> task_shutting n reason i (set_phase p t) s.(chan)).
    { intros p Hp. specialize (Ht i t Hi). unfold task_shutting. case_decide; [|done]. left. by destruct Ht as [Ht|[_ Ht]]. }
    destruct (tphase t) eqn:Hp; try done.
    destruct r; injection H1 as <-.
    + by refine (shutting_task n reason i t (set_phase Ended t) (chan s) _ s Hs Hi eq_refl eq_refl (fun _ _ => eq_refl) (Hti _ _)).
    + by refine (shutting_task n reason i t (set_phase Serving t) (chan s) _ s Hs Hi eq_refl eq_refl (fun _ _ => eq_refl) (Hti _ _)).
  - destruct (tasks s !! i) as [t|] eqn:Hi; [|done]. destruct (tphase t) eqn:Hp; try done.
    specialize (Ht i t Hi). rewrite (wi_rx s Hw i t Hi) in H1.
    destruct (recv_next (Datatypes.S i) (chan s)) as (R1 & R2 & _ & R4 & R5).
    { rewrite (wi_count s Hw). apply lookup_lt_Some in Hi. lia. }
    destruct (recv (Datatypes.S i) (chan s)) as [x c]. cbn [fst snd] in R1, R2, R4, R5. subst x.
    destruct (decide (i < n)%nat) as [Hlt|Hge]; [|destruct Ht as [_ Ht]; by rewrite Ht in H1].
    destruct Ht as [[Ht1 Ht2]|[_ Ht]]; [|congruence]. rewrite Ht2 in H1. injection H1 as <-.
    refine (shutting_task n reason i t (tell (Value reason) t) c _ s Hs Hi eq_refl R2 R5 _). unfold task_shutting. rewrite decide_True by done. right. cbn. by rewrite Ht1.
  - destruct (tasks s !! i) as [t|] eqn:Hi; [|done]. destruct (tphase t) eqn:Hp; try done. injection H1 as <-.
    assert (Hti : task_shutting n reason i (set_phase Ended t) s.(chan)).
    { specialize (Ht i t Hi). unfold task_shutting. case_decide; [|done]. left. by destruct Ht as [Ht|[_ Ht]]; [|congruence]. }
    destruct r; by refine (shutting_task n reason i t (set_phase Ended t) (chan s) _ s Hs Hi eq_refl eq_refl (fun _ _ => eq_refl) Hti).
Qed.

(** Before the shutdown nobody is told anything. *)
Lemma quiet_task i t t' e s : quiet s -> s.(tasks) !! i = Some t ->
  t'.(shutdown_rx) = t.(shutdown_rx) -> t'.(told) = [] ->
  quiet (mkSrv s.(sapp) s.(main_rx) s.(chan) (<[i := t']> s.(tasks)) e s.(result)).
Proof.
  intros (Hw & Hn & Ht) Hi Hrx Htold. split; [by eapply wired_task|]. split; [exact Hn|]. cbn.
  intros j u. rewrite list_lookup_insert_Some. intros [(<- & <- & _)|[_ Hj]]; [done|by eapply Ht].
Qed.

Lemma act_quiet a s s' : calm a -> act a s = Some s' -> quiet s -> quiet s'.
Proof.
  intros Ha H1 Hs. pose proof Hs as (Hw & Hn & Ht).
  assert (Hr : forall r, (r < receivers (chan s))%nat -> (recv r (chan s)).1 = Nothing).
  { intros r Hr. destruct (recv_next r (chan s) Hr) as [-> _]. by apply Hn. }
  destruct a as [v| | |r| |i r|i|i r]; cbn [act] in H1; try done.
  - destruct (result s); [done|]. specialize (Hr (main_rx s)).
    rewrite (wi_main s Hw), (wi_count s Hw) in Hr. rewrite (wi_main s Hw) in H1.
    destruct (recv 0 (chan s)) as [x c]. cbn in Hr. by rewrite Hr in H1 by lia.
  - destruct (result s) eqn:Hres; [done|]. destruct r as [addr|e|]; [|injection H1 as <-; by split; [destruct Hw; split|]|done].
    destruct (subscribe_new (chan s)) as (Hsub & S1 & S2 & S3). rewrite Hsub in H1.
    destruct (new_client (Some addr) (sapp s)) as [h a']. injection H1 as <-. split; [by apply wired_accept|]. cbn.
    split.
    + intros r Hlt. rewrite S1 in Hlt. destruct (decide (r = receivers (chan s))) as [->|]; [exact S2|].
      rewrite S3 by lia. apply Hn. lia.
    + intros i t Hi. apply lookup_app_Some in Hi as [Hi|[Hl Hi]]; [by eapply Ht|].
      by apply list_lookup_singleton_Some in Hi as [_ <-].
  - destruct (result s) eqn:Hres; [done|]. destruct (errors s); [done|]. injection H1 as <-. split; [by destruct Hw; split|]. by split.
  - destruct (tasks s !! i) as [t|] eqn:Hi; [|done]. pose proof (Ht i t Hi) as Hti. destruct (tphase t); try done.
    destruct r; injection H1 as <-.
    + by refine (quiet_task i t (set_phase Ended t) _ s Hs Hi eq_refl Hti).
    + by refine (quiet_task i t (set_phase Serving t) _ s Hs Hi eq_refl Hti).
  - destruct (tasks s !! i) as [t|] eqn:Hi; [|done]. destruct (tphase t); try done.
    specialize (Hr (shutdown_rx t)). rewrite (wi_rx s Hw i t Hi), (wi_count s Hw) in Hr.
    rewrite (wi_rx s Hw i t Hi) in H1. destruct (recv (Datatypes.S i) (chan s)) as [x c]. cbn in Hr.
    rewrite Hr in H1; [done|]. apply lookup_lt_Some in Hi. lia.
  - destruct (tasks s !! i) as [t|] eqn:Hi; [|done]. pose proof (Ht i t Hi) as Hti. destruct (tphase t); try done.
    injection H1 as <-. destruct r; by refine (quiet_task i t (set_phase Ended t) _ s Hs Hi eq_refl Hti).
Qed.

Lemma acts_keep (P : Srv -> Prop) l : (forall a s s', calm a -> act a s = Some s' -> P s -> P s') ->
  forall s s', Forall calm l -> acts l s = Some s' -> P s -> P s'.
Proof.
  intros HP. induction l as [|a l IH]; intros s s' Hl H1 Hs; cbn in H1; [by injection H1 as <-|].
  apply Forall_cons in Hl as [Ha Hl]. apply bind_Some in H1 as (s1 & H1 & H2). eapply IH; [done|exact H2|by eapply HP].
Qed.

Lemma shutdown_starts reason s : quiet s -> shutting (length s.(tasks)) reason (set_chan (broadcast reason s.(chan)) s).
Proof.
  intros (Hw & Hn & Ht). destruct (broadcast_next reason s.(chan)) as [B1 B2]. pose proof (wi_count s Hw) as Hc.
  split; [destruct Hw; split; [done|cbn; by rewrite B1|done]|]. cbn. split; [done|].
  split; [intros _; rewrite B2 by lia; rewrite Hn by lia; done|].
  intros i t Hi. pose proof (lookup_lt_Some _ _ _ Hi). rewrite decide_True by done. left. split; [by eapply Ht|].
  rewrite B2 by lia. by rewrite Hn by lia.
Qed.

(** C15. A shutdown reaches the connections that there are, and only these: whatever
    else happens before and after, if a shutdown is asked for once and a handle of
    the server is kept, then every connection that was accepted before is told to
    disconnect with the reason that was given - at most once, and while it is served
    and was not told, it can be; nobody is told before, nor is a connection that the
    loop accepts before it notices the shutdown; and the loop can notice it as long
    as it runs. *)
Theorem shutdown_reaches a before reason after s s' :
  Forall calm before -> Forall calm after ->
  acts before (run_on_socket a) = Some s -> acts (Shutdown reason :: after) s = Some s' ->
  (forall i t, s.(tasks) !! i = Some t -> t.(told) = []) /\
  (forall i t, s'.(tasks) !! i = Some t ->
    if decide (i < length s.(tasks))%nat
    then t.(told) = [] /\ (t.(tphase) = Serving -> is_Some (act (TaskTold i) s')) \/
         t.(told) = [disconnect_message reason] /\ t.(tphase) = Ended
    else t.(told) = [] /\ act (TaskTold i) s' = None) /\
  (s'.(result) = None -> is_Some (act LoopShutdown s')).
Proof.
  intros Hb Ha H1 H2. assert (Hq : quiet s) by (eapply (acts_keep quiet); [exact act_quiet|exact Hb|exact H1|apply run_quiet]).
  cbn [acts] in H2. apply bind_Some in H2 as (s1 & Hs1 & H2). injection Hs1 as <-.
  pose proof (acts_keep _ _ (act_shutting (length (tasks s)) reason) _ _ Ha H2 (shutdown_starts reason s Hq)) as (Hw & Hn & Hm & Ht).
  split; [apply Hq|]. split.
  - intros i t Hi. specialize (Ht i t Hi). destruct (recv_next (Datatypes.S i) (chan s')) as (R1 & _).
    { rewrite (wi_count s' Hw). apply lookup_lt_Some in Hi. lia. }
    cbn [act]. rewrite Hi, (wi_rx s' Hw i t Hi). destruct (recv (Datatypes.S i) (chan s')) as [x c]. cbn in R1. subst x.
    case_decide.
    + destruct Ht as [[T1 T2]|Ht]; [left|by right]. split; [done|]. intros ->. rewrite T2. by eexists.
    + destruct Ht as [T1 T2]. split; [done|]. rewrite T2. by destruct (tphase t).
  - intros Hr. specialize (Hm Hr). destruct (recv_next 0 (chan s')) as (R1 & _); [rewrite (wi_count s' Hw); lia|].
    cbn [act]. rewrite Hr, (wi_main s' Hw). destruct (recv 0 (chan s')) as [x c]. cbn in R1. subst x. rewrite Hm. by eexists.
Qed.
End Listener.

(** ** A concrete server *)
Module ServerExample.
(** What each receiver gets next. *)
Definition taken (r : nat) (c : list received) : list received :=
  match c !! r with Some (Value _) => <[r := Nothing]> c | _ => c end.
#[local] Instance queues : Broadcast := {|
  Chan := list received;
  channel := [Nothing];
  subscribe c := (length c, c ++ [Nothing]);
  broadcast v := map (fun x => match x with Nothing => Value v | _ => Failed end);
  recv r c := (default Nothing (c !! r), taken r c);
  close := map (fun x => match x with Nothing => Failed | x => x end);
|}.
#[local] Instance queues_laws : BroadcastLaws queues.
Proof.
  refine {| next r c := default Nothing (c !! r); receivers c := length c |}; cbn.
  - done.
  - intros c. split_and!; [done|rewrite length_app; cbn; lia|by rewrite list_lookup_middle|].
    intros r Hr. by rewrite lookup_app_l.
  - intros v c. split; [by rewrite length_map|]. intros r Hr. rewrite list_lookup_fmap.
    by destruct (lookup_lt_is_Some_2 c r Hr) as [x ->].
  - intros r c Hr. unfold taken. destruct (c !! r) as [[|v|]|] eqn:Hc; cbn; (split_and!; [done| | | |]); try done;
      try (by rewrite Hc).
    + by rewrite length_insert.
    + intros v' _. by rewrite list_lookup_insert_eq.
    + intros r' Hr'. by rewrite list_lookup_insert_ne.
Defined.

(** The application counts the clients. *)
Definition new_client (_ : option Z) (n : Z) : Z * Z := (n, n + 1).
Definition handle_session_error (_ : Z) (n : Z) : Z := n.
Abbreviation acts := (acts new_client handle_session_error).
Abbreviation act := (act new_client handle_session_error).
Abbreviation start := (run_on_socket (Hd := Z) (Er := Z) 0).

Definition before : list (action (Addr := Z) (Er := Z)) := [LoopAccept (Ok 80); TaskSetup 0 None; LoopAccept (Ok 81)].
Definition after : list (action (Addr := Z) (Er := Z)) := [LoopAccept (Ok 82); TaskSetup 2 None; LoopShutdown; TaskTold 0; TaskSetup 1 None].
Definition at_shutdown := default start (acts before start).
Definition at_end := default start (acts (Shutdown (str "bye") :: after) at_shutdown).

(** The server's future is done, but two connections are served, and the one that
    was accepted last is not told. *)
Example shutdown_does_not_wait :
  at_end.(result) = Some (Ok tt) /\ tphase <$> at_end.(tasks) = [Ended; Serving; Serving] /\
  act (TaskTold 2) at_end = None.
Proof. vm_compute. by split_and!. Qed.

(** When a shutdown is asked for twice, the reason may be lost. *)
Example second_shutdown_loses_reason :
  (s ← acts (before ++ [Shutdown (str "a"); Shutdown (str "b"); TaskTold 0]) start; told <$> s.(tasks) !! 0%nat) =
  Some [SDisconnect Disconnect.ByApplication [] []].
Proof. vm_compute. done. Qed.

Lemma shutdown_reaches_witness :
  length at_shutdown.(tasks) = 2%nat /\ forall i t, at_end.(tasks) !! i = Some t ->
    if decide (i < 2)%nat
    then t.(told) = [] /\ (t.(tphase) = Serving -> is_Some (act (TaskTold i) at_end)) \/
         t.(told) = [disconnect_message (str "bye")] /\ t.(tphase) = Ended
    else t.(told) = [] /\ act (TaskTold i) at_end = None.
Proof.
  assert (H1 : acts before start = Some at_shutdown) by (vm_compute; reflexivity).
  assert (H2 : acts (Shutdown (str "bye") :: after) at_shutdown = Some at_end) by (vm_compute; reflexivity).
  destruct (shutdown_reaches new_client handle_session_error 0 before (str "bye") after at_shutdown at_end) as (_ & H & _); [..|split; [vm_compute; reflexivity|exact H]].
  - repeat constructor.
  - repeat constructor.
  - exact H1.
  - exact H2.
Defined.
End ServerExample.
