(* ===== verification/ClientSession.v ===== *)
(** * The session of a client ([russh/src/client/mod.rs], [client/session.rs] and
    [client_read_authenticated] of [client/encrypted.rs])

    A client multiplexes channels with the same state as a server, and the code
    that delivers, grants windows and tears channels down is a copy of the
    server's with small differences; the state [Server] of [ServerSession] is
    used for both, and so is every operation that is the same text.  What differs
    is here: the target of window grants, the handling of each packet of an
    authenticated session, the client's own global requests, and the messages
    that the application sends to the session ([handle_msg]).

    [ClientAuth.ClientCtx] is the authentication part of the state; its fields
    [c_write], [c_writer] and [c_handler] are copies of fields of [core], made
    before and written back after the code that uses them ([on_auth]). *)

From stdpp Require Import base list numbers option gmap strings.
From Stdlib Require Import ZArith Lia.
From S2P Require Import Prelude Encoding Parsing LibInner Msg Pty Channels PendingInbound Cipher Compression Session.
From S2P Require Import Negotiation Dh Kex CommonSession ServerSession ServerFrames ChannelOpen ChannelRequests Auth ServerAuth.
From S2P Require Import ServerEncrypted ClientAuth.

Section ClientSession.
Context {enc : SshEncoding} {SKY : SshKeys} {HKS : HostKeys} {UK : UserKeys}.
Context {Q : Mpsc} {QS : MpscSend Q} {F : Flate2}.
Context {W : Type} {HW : PacketSink W}.

Abbreviation Core H := (@Server Q W H).

(** ** Delivery on the client *)
Section Delivery.
Context (window_size : Z) {H E : Type} {HH : @Handler Q W H E}.
Implicit Types s : Core H.

(** The grant tops the window up to [config.window_size]; what the application
    chooses with [adjust_window] is stored and has no further effect. *)
Definition client_grant (id : Z) : st (Core H) Error.error unit := fun s =>
  let grant :=
    match s.(encrypted) with
    | Some e =>
        let '(r, e') := maybe_grant_recv_window id window_size (undelivered_bytes id s.(inbox)) e in
        (r, set_encrypted (Some e') s)
    | None => (Ok false, s)
    end in
  match grant with
  | (Ok true, s1) =>
      let '(w, h) := adjust_window s1.(handler) id s1.(target_window_size) in
      (Ok tt, set_target (if 0 <? w then w else s1.(target_window_size)) h s1)
  | (Ok false, s1) => (Ok tt, s1)
  | (Err e, s1) => (Err e, s1)
  | (Panic, s1) => (Panic, s1)
  end.

Definition client_pump_inbound (id gen : Z) (res : option Z) : st (Core H) E unit := fun s =>
  match s.(inbox).(inbound) !! id with
  | None => (Ok tt, s)
  | Some q =>
      if negb (gen =? q.(generation)) then (Ok tt, s) else
      let q1 := set_reserving false q in
      let x1 := put_queue id q1 s.(inbox) in
      let s1 := set_inbox x1 s in
      match res with
      | None =>
          if q1.(close_queued)
          then (call id Close ;;; st_mod (finalize_close id)) s1
          else (Ok tt, set_inbox (teardown_inbound id x1) s1)
      | Some p =>
          match pop_front q1 with
          | None => (Ok tt, s1)
          | Some (item, q2) =>
              let s2 := set_inbox (send_permit p (to_msg item) (put_queue id q2 x1)) s1 in
              ((if grants_window item then ServerSession.up (client_grant id) else st_ret tt) ;;;
               pump_finish id item) s2
          end
      end
  end.

Context (config : Config).

(** [CHANNEL_CLOSE]: unlike the server, the client tells an unconfirmed channel
    from an unknown one. *)
Definition client_recv_close (r : bytes) : st (Core H) E unit := fun s =>
  match (let? (channel, r) := ServerSession.dec (decode_u32 r) in let? _ := finished r in Ok channel) with
  | Err x => (Err x, s)
  | Panic => (Panic, s)
  | Ok channel =>
      let deliver s :=
        match session_deliver config channel Close s with
        | (Queued, s1) => (Ok tt, s1)
        | (_, s1) => close_now channel s1
        end in
      match (match s.(encrypted) with
             | Some e => confirmed <$> (e.(Session.channels) !! channel)
             | None => None
             end) with
      | Some false => (Ok tt, s)
      | Some true =>
          match ServerSession.up (discard_channel_outbound channel) s with
          | (Ok tt, s1) => deliver s1
          | (Err x, s1) => (Err x, s1)
          | (Panic, s1) => (Panic, s1)
          end
      | None =>
          if negb (bool_decide (is_Some (s.(inbox).(PendingInbound.channels) !! channel))) then (Ok tt, s)
          else deliver s
      end
  end.

Definition client_recv_eof (r : bytes) : st (Core H) E unit := fun s =>
  match (let? (channel, r) := ServerSession.dec (decode_u32 r) in let? _ := finished r in Ok channel) with
  | Err x => (Err x, s)
  | Panic => (Panic, s)
  | Ok channel =>
      match session_deliver config channel Eof s with
      | (Queued, s1) | (Overflow, s1) => (Ok tt, s1)
      | (Delivered, s1) | (ChannelGone, s1) => call channel Eof s1
      end
  end.

(** What follows the decoding of [CHANNEL_DATA] and [CHANNEL_EXTENDED_DATA]. *)
Definition client_receive_data (channel : Z) (ext : option Z) (data : bytes) : st (Core H) E unit := fun s =>
  let s1 :=
    match s.(encrypted) with
    | Some e => set_encrypted (Some (consume_recv_window channel (zlen data) e)) s
    | None => s
    end in
  let item := match ext with Some x => ExtendedData x data | None => Data data end in
  match session_deliver config channel item s1 with
  | (Delivered, s2) | (ChannelGone, s2) => (ServerSession.up (client_grant channel) ;;; call channel item) s2
  | (Queued, s2) => (Ok tt, s2)
  | (Overflow, s2) =>
      (ServerSession.up (discard_channel_outbound channel) ;;;
       st_mod (fun s3 => set_inbox (forget_channel channel (teardown_inbound channel s3.(inbox))) s3)) s2
  end.

Definition client_recv_data (m : Z) (r : bytes) : st (Core H) E unit := fun s =>
  match
    (let? (channel, r1) := ServerSession.dec (decode_u32 r) in
     let? (ext, r2) :=
       if m =? msg.CHANNEL_DATA then Ok (None, r1)
       else let? (x, r2) := ServerSession.dec (decode_u32 r1) in Ok (Some x, r2) in
     let? (data, r3) := ServerSession.dec (decode_bytes r2) in
     let? _ := finished r3 in
     Ok (channel, ext, data))
  with
  | Err x => (Err x, s)
  | Panic => (Panic, s)
  | Ok (channel, ext, data) => client_receive_data channel ext data s
  end.

Definition client_recv_window_adjust (r : bytes) : st (Core H) E unit := fun s =>
  match (let? (channel, r1) := ServerSession.dec (decode_u32 r) in
         let? (amount, r2) := ServerSession.dec (decode_u32 r1) in
         let? _ := finished r2 in Ok (channel, amount)) with
  | Err x => (Err x, s)
  | Panic => (Panic, s)
  | Ok (channel, amount) =>
      match s.(encrypted) with
      | Some e =>
          match e.(Session.channels) !! channel with
          | None => (Ok tt, s)
          | Some _ => receive_window_adjust channel amount s
          end
      | None => receive_window_adjust channel amount s
      end
  end.
End Delivery.

(** ** State *)
Record Client (H : Type) : Type := mkClient {
  core : Core H;                          (* channels, packet writer, encrypted, windows *)
  auth : ClientCtx W H;
  cl_session_id : bytes;
  cl_client_compression : Compression;
  cl_server_compression : Compression;
  cl_requests : list GlobalRequestResponse;     (* open_global_requests *)
  cl_answers : list (Z * answer);               (* what their oneshot channels were sent *)
  cl_open_replies : list reply;                 (* the queue of open_reply_rx *)
  cl_stashed : list handle;
  cl_received_data : bool;
}.
#[global] Arguments mkClient {H} _ _ _ _ _ _ _ _ _ _.
#[global] Arguments core {H} _.
#[global] Arguments auth {H} _.
#[global] Arguments cl_session_id {H} _.
#[global] Arguments cl_client_compression {H} _.
#[global] Arguments cl_server_compression {H} _.
#[global] Arguments cl_requests {H} _.
#[global] Arguments cl_answers {H} _.
#[global] Arguments cl_open_replies {H} _.
#[global] Arguments cl_stashed {H} _.
#[global] Arguments cl_received_data {H} _.

Section Fields.
Context {H : Type}.
Implicit Types c : Client H.

Definition set_core (v : Core H) c : Client H :=
  mkClient v c.(auth) c.(cl_session_id) c.(cl_client_compression) c.(cl_server_compression)
    c.(cl_requests) c.(cl_answers) c.(cl_open_replies) c.(cl_stashed) c.(cl_received_data).
Definition set_auth_part (a : ClientCtx W H) c : Client H :=
  mkClient c.(core) a c.(cl_session_id) c.(cl_client_compression) c.(cl_server_compression)
    c.(cl_requests) c.(cl_answers) c.(cl_open_replies) c.(cl_stashed) c.(cl_received_data).
Definition set_cl_requests (l : list GlobalRequestResponse) (a : list (Z * answer)) c : Client H :=
  mkClient c.(core) c.(auth) c.(cl_session_id) c.(cl_client_compression) c.(cl_server_compression)
    l a c.(cl_open_replies) c.(cl_stashed) c.(cl_received_data).
Definition set_cl_opens (v : Core H) (l : list reply) (k : list handle) c : Client H :=
  mkClient v c.(auth) c.(cl_session_id) c.(cl_client_compression) c.(cl_server_compression)
    c.(cl_requests) c.(cl_answers) l k c.(cl_received_data).
Definition set_received_data (b : bool) c : Client H :=
  mkClient c.(core) c.(auth) c.(cl_session_id) c.(cl_client_compression) c.(cl_server_compression)
    c.(cl_requests) c.(cl_answers) c.(cl_open_replies) c.(cl_stashed) b.

(** Code on [core]. *)
Definition on_core {X A} (m : st (Core H) X A) : st (Client H) X A := fun c =>
  let '(r, v) := m c.(core) in (r, set_core v c).

(** Code on [enc.write] and the channels, nothing without [common.encrypted]. *)
Definition on_cenc (m : EM unit) : st (Client H) Error.error unit := on_core (on_encrypted m).

Definition with_shared (w : bytes) (v : Core H) (a : ClientCtx W H) : ClientCtx W H :=
  mkClientCtx a.(c_state) w a.(c_user) a.(c_method) a.(c_buffer) v.(writer) a.(c_decompress) a.(c_sig_algs)
    a.(c_extensions) a.(c_awaiters) a.(c_woken) a.(c_replies) a.(c_listening) a.(c_queue) v.(handler).

(** Code of [ClientAuth], where [common.encrypted] is there. *)
Definition on_auth {X A} (e : Encrypted) (m : st (ClientCtx W H) X A) : st (Client H) X A := fun c =>
  let v := c.(core) in
  let '(r, a) := m (with_shared e.(enc_write) v c.(auth)) in
  let v' := set_writer a.(c_writer)
              (set_target v.(target_window_size) a.(c_handler)
                (set_encrypted (Some (set_write a.(c_write) e.(write_cursor) e)) v)) in
  (r, set_auth_part a (set_core v' c)).

(** Code of [ChannelOpen]. *)
Definition on_copen {A} (m : st OpenState Error.error A) : st (Client H) Error.error A := fun c =>
  match c.(core).(encrypted) with
  | None => (Err Error.Inconsistent, c)
  | Some e =>
      let x := c.(core).(inbox) in
      let '(r, o) := m (mkOpenState e c.(cl_open_replies) c.(cl_stashed) x.(PendingInbound.channels)) in
      let x' := mkInbox o.(registered) x.(buffers) x.(inbound) x.(needs_reserve) in
      (r, set_cl_opens (set_inbox x' (set_encrypted (Some o.(enc_)) c.(core)))
            o.(ChannelOpen.open_replies) o.(ChannelOpen.stashed) c)
  end.

(** [if let Some(chan) = self.channels.get(&id) { let _ = chan.send(m).await }]. *)
Definition client_send_app (id : Z) (m : ChannelMsg) : st (Client H) Error.error unit := fun c =>
  let x := c.(core).(inbox) in
  match x.(PendingInbound.channels) !! id with
  | None => (Ok tt, c)
  | Some p =>
      match x.(buffers) !! p with
      | None => (Ok tt, c)
      | Some q =>
          (Ok tt, set_core (set_inbox (set_buffers (<[p := (send_wait q m).1]> x.(buffers)) x) c.(core)) c)
      end
  end.
End Fields.

(** ** The application *)
Class ClientHandler (H E : Type) : Type := {
  cl_open_confirmation : Z -> Z -> Z -> st (Client H) E unit;
  cl_open_failure : Z -> ChannelOpenFailure.failure -> bytes -> bytes -> st (Client H) E unit;
  (** [xon_xoff], [exit_status], [exit_signal] *)
  cl_server_request : Z -> ServerRequest -> st (Client H) E unit;
  (** [channel_success], [channel_failure] *)
  cl_channel_reply : Z -> bool -> st (Client H) E unit;
  openssh_ext_host_keys_announced : list Kex.PublicKey -> st (Client H) E unit;
  cl_open_decision : ChannelType.type -> action;
  (** for the type that was received *)
  should_accept_unknown_server_channel : bool;
}.

Section Packets.
Context (config : Config) (window_size maximum_packet_size : Z).
Context {H E : Type} {HH : @Handler Q W H E} {AH : ClientAuthHandler W H E} {CH : ClientHandler H E}.
Implicit Types c : Client H.
Abbreviation M A := (st (Client H) E A).

Definition cl_up {A} (m : st (Client H) Error.error A) : M A := st_map_err from_error m.
Definition cl_dec {A} (m : Result A) : M A := st_lift (map_err from_error m).

(** ** The client's own global requests ([client/session.rs]) *)
Definition global_request (name : bytes) (want_reply : bool) (rest : Encoding.writer Error.error) : Encoding.writer Error.error :=
  enc_w (encode_u8 msg.GLOBAL_REQUEST) ;;; enc_w (encode_bytes name) ;;;
  enc_w (encode_u8 (u8_of_bool want_reply)) ;;; rest.

(** A request whose answer somebody may wait for: [make] is the entry of the
    queue for his oneshot channel. *)
Definition forward_request (name : bytes) (make : Z -> GlobalRequestResponse) (reply_channel : option Z)
    (rest : Encoding.writer Error.error) : st (Client H) Error.error unit := fun c =>
  match c.(core).(encrypted) with
  | None => (Ok tt, c)
  | Some _ =>
      let c1 :=
        match reply_channel with
        | Some r => set_cl_requests (c.(cl_requests) ++ [make r]) c.(cl_answers) c
        | None => c
        end in
      on_cenc (on_write (push_packet
        (global_request name (match reply_channel with Some _ => true | None => false end) rest))) c1
  end.

Definition cl_tcpip_forward (reply_channel : option Z) (address : bytes) (port : Z) :=
  forward_request (str "tcpip-forward") TcpIpForward reply_channel
    (enc_w (encode_bytes address) ;;; enc_w (encode_u32 port)).
Definition cl_cancel_tcpip_forward (reply_channel : option Z) (address : bytes) (port : Z) :=
  forward_request (str "cancel-tcpip-forward") CancelTcpIpForward reply_channel
    (enc_w (encode_bytes address) ;;; enc_w (encode_u32 port)).
Definition cl_streamlocal_forward (reply_channel : option Z) (socket_path : bytes) :=
  forward_request (str "streamlocal-forward@openssh.com") StreamLocalForward reply_channel
    (enc_w (encode_bytes socket_path)).
Definition cl_cancel_streamlocal_forward (reply_channel : option Z) (socket_path : bytes) :=
  forward_request (str "cancel-streamlocal-forward@openssh.com") CancelStreamLocalForward reply_channel
    (enc_w (encode_bytes socket_path)).

(** A request of the session itself, which expects an answer in any case. *)
Definition own_request (g : GlobalRequestResponse) (name : bytes) (want_reply : bool)
  : st (Client H) Error.error unit :=
  st_mod (fun c => set_cl_requests (c.(cl_requests) ++ [g]) c.(cl_answers) c) ;;;
  on_cenc (on_write (push_packet (global_request name want_reply (st_ret tt)))).
Definition send_keepalive (want_reply : bool) := own_request Keepalive (str "keepalive@openssh.com") want_reply.
Definition send_ping (reply_channel : Z) := own_request (Ping reply_channel) (str "keepalive@openssh.com") true.
Definition no_more_sessions (want_reply : bool) :=
  own_request NoMoreSessions (str "no-more-sessions@openssh.com") want_reply.

(** *** Their answers *)
Definition cl_pop : M (option GlobalRequestResponse) := fun c =>
  match c.(cl_requests) with
  | [] => (Ok None, c)
  | g :: rest => (Ok (Some g), set_cl_requests rest c.(cl_answers) c)
  end.
Definition cl_answer (reply : Z) (a : answer) : M unit :=
  st_mod (fun c => set_cl_requests c.(cl_requests) (c.(cl_answers) ++ [(reply, a)]) c).

Definition cl_recv_request_success (r : bytes) : M unit :=
  do g <- cl_pop ;;
  match g with
  | Some Keepalive | Some NoMoreSessions => cl_dec (ensure_end r)
  | Some (Ping reply) => cl_dec (ensure_end r) ;;; cl_answer reply GotPing
  | Some (TcpIpForward reply) => cl_answer reply (GotPort (forwarded_port r))
  | Some (CancelTcpIpForward reply) | Some (StreamLocalForward reply) | Some (CancelStreamLocalForward reply) =>
      cl_dec (ensure_end r) ;;; cl_answer reply (GotBool true)
  | None => st_ret tt
  end.

Definition cl_recv_request_failure (r : bytes) : M unit :=
  cl_dec (ensure_end r) ;;;
  do g <- cl_pop ;;
  match g with
  | Some Keepalive | Some NoMoreSessions | None => st_ret tt
  | Some (Ping reply) => cl_answer reply GotPing
  | Some (TcpIpForward reply) => cl_answer reply (GotPort None)
  | Some (CancelTcpIpForward reply) | Some (StreamLocalForward reply) | Some (CancelStreamLocalForward reply) =>
      cl_answer reply (GotBool false)
  end.

(** ** The server's global requests *)
Definition starts_with (p b : bytes) : bool := beq (ztake (zlen p) b) p.

(** Every blob is read; one that is no key is passed over.  A blob takes at least
    four bytes, so the length of the packet is fuel enough. *)
Fixpoint announced_keys (fuel : nat) (r : bytes) (keys : list Kex.PublicKey) : Result (list Kex.PublicKey) :=
  match r with
  | [] => Ok keys
  | _ =>
      match fuel with
      | O => Panic
      | Datatypes.S fuel' =>
          let? (key_blob, r') := enc_err (decode_bytes r) in
          match parse_public_key key_blob with
          | Ok key => announced_keys fuel' r' (keys ++ [key])
          | Err _ => announced_keys fuel' r' keys
          | Panic => Panic
          end
      end
  end.

Definition cl_recv_global_request (r : bytes) : M unit :=
  do (req, r) <- cl_dec (enc_err (decode_string r)) ;;
  do (wants_reply, r) <- cl_dec (enc_err (decode_u8 r)) ;;
  if starts_with (str "keepalive") req then
    cl_dec (ensure_end r) ;;;
    (if wants_reply =? 1
     then cl_up (on_cenc (on_write (push_packet (push_byte msg.REQUEST_SUCCESS)))) else st_ret tt) ;;;
    st_mod (set_received_data false)
  else if beq req (str "hostkeys-00@openssh.com") then
    do keys <- cl_dec (announced_keys (length r) r []) ;;
    openssh_ext_host_keys_announced keys
  else
    cl_up (on_cenc (on_write (push_packet (push_byte msg.REQUEST_FAILURE)))) ;;;
    st_mod (set_received_data false).

(** ** Packets on channels *)
Definition cl_recv_open_confirmation (r : bytes) : M unit :=
  do (m, r) <- cl_dec (enc_err (ChannelOpenConfirmation_decode r)) ;;
  cl_dec (ensure_end r) ;;;
  let local_id := m.(coc_recipient_channel) in
  (fun c =>
     match c.(core).(encrypted) with
     | Some e =>
         match e.(Session.channels) !! local_id with
         | Some parameters =>
             (Ok tt, set_core (set_encrypted (Some (put_channel local_id (confirm m parameters) e)) c.(core)) c)
         | None => (Err (from_error Error.Inconsistent), c)
         end
     | None => (Err (from_error Error.Inconsistent), c)
     end) ;;;
  cl_up (client_send_app local_id
    (ChannelMsg.Open local_id m.(coc_maximum_packet_size) m.(coc_initial_window_size))) ;;;
  cl_open_confirmation local_id m.(coc_maximum_packet_size) m.(coc_initial_window_size).

Definition cl_recv_open_failure (r : bytes) : M unit :=
  do (channel, r) <- cl_dec (enc_err (decode_u32 r)) ;;
  do (code, r) <- cl_dec (enc_err (decode_u32 r)) ;;
  let reason := default ChannelOpenFailure.AdministrativelyProhibited (ChannelOpenFailure.from_u32 code) in
  do (descr, r) <- cl_dec (enc_err (decode_string r)) ;;
  do (language, r) <- cl_dec (enc_err (decode_string r)) ;;
  cl_dec (ensure_end r) ;;;
  cl_up (on_cenc (remove_channel channel)) ;;;
  cl_up (client_send_app channel (ChannelMsg.OpenFailure reason)) ;;;
  st_mod (fun c => set_core (set_inbox (forget_channel channel c.(core).(inbox)) c.(core)) c) ;;;
  st_mod (fun c => set_auth_part (set_c_messages (c.(auth).(c_replies) ++ [ReplyChannelOpenFailure])
                                    c.(auth).(c_queue) c.(auth)) c) ;;;
  cl_open_failure channel reason descr language.

(** The message for the reading half of the channel. *)
Definition server_request_msg (req : ServerRequest) : ChannelMsg :=
  match req with
  | XonXoffReq b => ChannelMsg.XonXoff b
  | ExitStatusReq s => ChannelMsg.ExitStatus s
  | ExitSignalReq s core_dumped m l => ChannelMsg.ExitSignal s core_dumped m l
  | ChannelKeepalive _ | UnknownServerRequest _ => ChannelMsg.Failure
  end.

Definition cl_recv_channel_request (r : bytes) : M unit :=
  do (channel, req) <- cl_dec (parse_server_request r) ;;
  match req with
  | ChannelKeepalive wants_reply =>
      if wants_reply =? 1 then cl_up (on_cenc (byte channel msg.CHANNEL_SUCCESS)) else st_ret tt
  | UnknownServerRequest wants_reply =>
      if wants_reply =? 1 then cl_up (on_cenc (byte channel msg.CHANNEL_FAILURE)) else st_ret tt
  | req => cl_up (client_send_app channel (server_request_msg req)) ;;; cl_server_request channel req
  end.

Definition cl_recv_channel_reply (ok : bool) (r : bytes) : M unit :=
  do (channel, r) <- cl_dec (enc_err (decode_u32 r)) ;;
  cl_dec (ensure_end r) ;;;
  cl_up (client_send_app channel (if ok then ChannelMsg.Success else ChannelMsg.Failure)) ;;;
  cl_channel_reply channel ok.

(** ** The dispatch *)
Definition client_read_authenticated (new_sender m : Z) (r : bytes) : M unit :=
  if m =? msg.CHANNEL_OPEN_CONFIRMATION then cl_recv_open_confirmation r
  else if m =? msg.CHANNEL_CLOSE then on_core (client_recv_close config r)
  else if m =? msg.CHANNEL_EOF then on_core (client_recv_eof config r)
  else if m =? msg.CHANNEL_OPEN_FAILURE then cl_recv_open_failure r
  else if (m =? msg.CHANNEL_DATA) || (m =? msg.CHANNEL_EXTENDED_DATA) then
    on_core (client_recv_data window_size config m r)
  else if m =? msg.CHANNEL_REQUEST then cl_recv_channel_request r
  else if m =? msg.CHANNEL_WINDOW_ADJUST then on_core (client_recv_window_adjust r)
  else if m =? msg.GLOBAL_REQUEST then cl_recv_global_request r
  else if m =? msg.CHANNEL_SUCCESS then cl_recv_channel_reply true r
  else if m =? msg.CHANNEL_FAILURE then cl_recv_channel_reply false r
  else if m =? msg.CHANNEL_OPEN then
    cl_up (on_copen (client_handle_channel_open window_size maximum_packet_size cl_open_decision
                       should_accept_unknown_server_channel new_sender r))
  else if m =? msg.REQUEST_SUCCESS then cl_recv_request_success r
  else if m =? msg.REQUEST_FAILURE then cl_recv_request_failure r
  else st_ret tt.

(** [process_packet]; a packet without [common.encrypted] is passed over. *)
Definition client_process_packet (new_sender : Z) (buf : bytes) : M unit := fun c =>
  match c.(core).(encrypted) with
  | None => (Ok tt, c)
  | Some e =>
      (do authenticated <-
         on_auth e (read_unauthenticated c.(cl_session_id) c.(cl_server_compression) buf) ;;
       if authenticated : bool then
         match buf with
         | m :: r => client_read_authenticated new_sender m r
         | [] => st_ret tt
         end
       else st_ret tt) c
  end.

(** ** Opening channels *)

(** [channel_open_generic] with [Msg::ChannelOpen..]: the channel of the
    application gets the number. *)
Definition cl_channel_open (t : ChannelType.type) (sender : Z) : st (Client H) Error.error unit := fun c =>
  match c.(core).(encrypted) with
  | None => (Err Error.Inconsistent, c)
  | Some e =>
      match c.(auth).(c_state) with
      | Authenticated =>
          match new_channel window_size maximum_packet_size e with
          | (Ok id, e') =>
              let '(kind, suffix) := channel_open t in
              let '(r, e'') := on_write (push_packet
                (open_body kind id window_size maximum_packet_size suffix)) e' in
              let c' := set_core (set_encrypted (Some e'') c.(core)) c in
              match r with
              | Ok _ =>
                  let x := c.(core).(inbox) in
                  (Ok tt, set_core (set_inbox
                     (mkInbox (<[id := sender]> x.(PendingInbound.channels)) x.(buffers) x.(inbound)
                        x.(needs_reserve)) c'.(core)) c')
              | Err x => (Err x, c')
              | Panic => (Panic, c')
              end
          | (Err x, e') => (Err x, set_core (set_encrypted (Some e') c.(core)) c)
          | (Panic, e') => (Panic, set_core (set_encrypted (Some e') c.(core)) c)
          end
      | _ => (Err Error.NotAuthenticated, c)
      end
  end.
End Packets.
End ClientSession.
