(* ===== verification/ClientFrames.v ===== *)
(** * What the packets of an authenticated client respect

    As [ServerFrames], for the code of [ClientSession]: a relation between states
    of the session that allows what that code changes ([ClientFrame]) is respected
    by every operation, if it is by the callbacks of the application
    ([ClientHandlerFrame]). *)

From stdpp Require Import base list numbers option gmap strings.
From Stdlib Require Import ZArith Lia.
From S2P Require Import Prelude Encoding Parsing LibInner Msg Channels PendingInbound Cipher Compression Session.
From S2P Require Import Negotiation Dh Kex CommonSession ServerSession ServerFrames ChannelOpen ChannelRequests Auth ServerAuth.
From S2P Require Import ServerEncrypted ClientAuth ClientSession.

(** ** Delivery *)
Section Delivery.
Context {enc : SshEncoding} {Q : Mpsc} {W : Type} {HW : PacketSink W} {H E : Type}.
Abbreviation Srv := (@Server Q W H).
Context {HH : Handler H E} (R : Srv -> Srv -> Prop) `{!ServerFrame R} `{!HandlerFrame R}.
Implicit Types s : Srv.

Lemma client_grant_framed w id : framed R (client_grant w id : st Srv _ _).
Proof.
  intros s. unfold client_grant. destruct (encrypted s) as [e|] eqn:He; [|done].
  destruct (maybe_grant_recv_window _ _ _ _) as [r e'].
  assert (H1 : R s (set_encrypted (Some e') s)) by by repeat frame_trans.
  destruct r as [[]| |]; [|done..]. destruct (adjust_window _ _ _). cbn. etransitivity; [exact H1|].
  by repeat frame_trans.
Qed.

Lemma client_pump_framed w id gen res : framed R (client_pump_inbound w id gen res : st Srv E unit).
Proof.
  intros s. unfold client_pump_inbound. destruct (_ !! id) as [q|]; [|done]. destruct (negb _); [done|].
  cbv zeta. destruct res as [p|].
  - destruct (pop_front _) as [[item q2]|]; [|cbn; by repeat frame_trans].
    match goal with |- R _ (st_bind ?m ?k ?s0).2 => transitivity s0; [by repeat frame_trans|] end.
    apply framed_bind; [apply _| |intros; by apply (pump_finish_framed R)].
    destruct (grants_window item); [apply framed_map_err, client_grant_framed|apply framed_ret; apply _].
  - destruct (close_queued _); [|cbn; by repeat frame_trans].
    match goal with |- R _ (st_bind ?m ?k ?s0).2 => transitivity s0; [by repeat frame_trans|] end.
    by apply (close_now_framed R).
Qed.

Lemma client_close_framed config r : framed R (client_recv_close config r : st Srv E unit).
Proof.
  assert (Hd : forall id s1, R s1 (match session_deliver config id Close s1 with
                                   | (Queued, s2) => (Ok tt, s2) | (_, s2) => close_now id s2 end).2).
  { intros id s1. pose proof (deliver_framed R config id Close s1) as Hd.
    destruct (session_deliver _ _ _ _) as [[] s2]; cbn [snd] in *; try done;
      (etransitivity; [exact Hd|by apply (close_now_framed R)]). }
  intros s. unfold client_recv_close. destruct (res_bind _ _) as [channel| |]; [|done..]. cbv zeta.
  destruct (match encrypted s with Some e => _ | None => None end) as [[]|].
  - pose proof (framed_map_err R from_error _ (discard_framed R channel) s) as Hu. unfold ServerSession.up.
    destruct (st_map_err _ _ s) as [[[]| |] s1]; [|done..]. cbn [snd] in Hu. etransitivity; [exact Hu|apply Hd].
  - done.
  - destruct (negb _); [done|apply Hd].
Qed.

Lemma client_eof_framed config r : framed R (client_recv_eof config r : st Srv E unit).
Proof.
  intros s. unfold client_recv_eof. destruct (res_bind _ _) as [channel| |]; [|done..].
  pose proof (deliver_framed R config channel Eof s) as Hd.
  destruct (session_deliver _ _ _ _) as [[] s1]; cbn [snd] in *; try done;
    (etransitivity; [exact Hd|by apply (call_framed R)]).
Qed.

Lemma client_receive_data_framed w config c x d : framed R (client_receive_data w config c x d : st Srv E unit).
Proof.
  intros s. unfold client_receive_data.
  set (s1 := match encrypted s with Some e => _ | None => s end).
  assert (H1 : R s s1) by (subst s1; case_match; [by repeat frame_trans|done]).
  etransitivity; [exact H1|]. clearbody s1. clear H1.
  pose proof (deliver_framed R config c (match x with Some x => ExtendedData x d | None => Data d end) s1) as Hd.
  destruct (session_deliver _ _ _ _) as [[] s2]; cbn [snd] in *; try done; (etransitivity; [exact Hd|]).
  1, 3: apply framed_bind; [apply _|apply framed_map_err, client_grant_framed|intros; by apply (call_framed R)].
  apply framed_bind; [apply _|apply framed_map_err, discard_framed; apply _|]. intros _. apply framed_mod. intros; by repeat frame_trans.
Qed.

Lemma client_data_framed w config m r : framed R (client_recv_data w config m r : st Srv E unit).
Proof.
  intros s. unfold client_recv_data. destruct (res_bind _ _) as [[[channel x] d]| |]; [|done..].
  apply client_receive_data_framed.
Qed.

Lemma client_adjust_framed r : framed R (client_recv_window_adjust r : st Srv E unit).
Proof.
  intros s. unfold client_recv_window_adjust. destruct (res_bind _ _) as [[c n]| |]; [|done..].
  destruct (encrypted s); [case_match; [|done]|]; by apply (receive_adjust_framed R).
Qed.
End Delivery.

(** ** Packets *)
Section Packets.
Context {enc : SshEncoding} {SKY : SshKeys} {HKS : HostKeys} {UK : UserKeys}.
Context {Q : Mpsc} {QS : MpscSend Q} {F : Flate2} {W : Type} {HW : PacketSink W} {H E : Type}.
Context {HH : @Handler Q W H E} {CH : @ClientHandler SKY HKS UK Q F W H E}.
Abbreviation Cl := (@Client UK Q F W H).
Abbreviation Srv := (@Server Q W H).
Implicit Types c : Cl.

Class ClientFrame (R : Cl -> Cl -> Prop) (RS : Srv -> Srv -> Prop) : Prop := {
  client_preorder :: PreOrder R;
  client_server :: ServerFrame RS;
  client_core v c : RS c.(core) v -> R c (set_core v c);
  client_opens v l k c : RS c.(core) v -> R c (set_cl_opens v l k c);
  client_requests l a c : R c (set_cl_requests l a c);
  client_received b c : R c (set_received_data b c);
  client_messages l q c : R c (set_auth_part (set_c_messages l q c.(auth)) c);
}.

Class ClientHandlerFrame (R : Cl -> Cl -> Prop) : Prop := {
  open_confirmation_framed i p w : framed R (cl_open_confirmation i p w);
  open_failure_framed i f d l : framed R (cl_open_failure i f d l);
  server_request_framed i r : framed R (cl_server_request i r);
  channel_reply_framed i b : framed R (cl_channel_reply i b);
  announced_framed l : framed R (openssh_ext_host_keys_announced l);
}.

Context (R : Cl -> Cl -> Prop) (RS : Srv -> Srv -> Prop).
Context `{!ClientFrame R RS} `{!HandlerFrame RS} `{!ClientHandlerFrame R}.
Abbreviation keeps := (framed R).

Lemma on_core_framed {X A} (m : st Srv X A) : framed RS m -> keeps (on_core m).
Proof. intros Hm c. unfold on_core. specialize (Hm (core c)). destruct (m (core c)). by apply client_core. Qed.

Lemma on_cenc_framed m : keeps (on_cenc m : st Cl _ _).
Proof. apply on_core_framed, on_encrypted_framed. apply _. Qed.

Lemma on_copen_framed {A} (m : st OpenState Error.error A) : keeps (on_copen m).
Proof.
  intros c. unfold on_copen. destruct (encrypted _) as [e|] eqn:He; [|done]. destruct (m _) as [r o].
  apply client_opens. etransitivity; [|apply frame_inbox]. by eapply frame_encrypted.
Qed.

Lemma client_send_app_framed id m : keeps (client_send_app id m).
Proof. intros c. unfold client_send_app. repeat case_match; try done. cbn. apply client_core, frame_inbox. Qed.

Lemma cl_up_framed {A} (m : st Cl Error.error A) : keeps m -> keeps (cl_up m).
Proof. apply framed_map_err. Qed.
Lemma cl_dec_framed {A} (r : Result A) : keeps (cl_dec r : st Cl E A).
Proof. by intros c. Qed.
Lemma requests_framed f g : keeps (st_mod (fun c => set_cl_requests (f c) (g c) c) : st Cl E unit).
Proof. apply framed_mod. intros; apply client_requests. Qed.
Lemma received_framed b : keeps (st_mod (set_received_data b) : st Cl E unit).
Proof. apply framed_mod. intros; apply client_received. Qed.

#[local] Hint Resolve open_confirmation_framed open_failure_framed server_request_framed
  channel_reply_framed announced_framed : framed.
#[local] Hint Resolve on_cenc_framed on_copen_framed client_send_app_framed cl_dec_framed requests_framed
  received_framed : framed.

Ltac keeps_step :=
  match goal with
  | |- keeps (let '(_, _) := ?x in _) => destruct x
  | |- keeps (if ?b then _ else _) => destruct b
  | |- keeps (match ?x with _ => _ end) => destruct x
  | |- keeps (st_bind _ _) => apply framed_bind; [apply _| |intros]
  | |- keeps (cl_up _) => apply cl_up_framed
  | |- keeps (st_ret _) => apply framed_ret; apply _
  | |- keeps _ => solve [auto with framed]
  end.

(** *** Global requests *)
Lemma forward_request_framed n k r b : keeps (forward_request n k r b : st Cl _ _).
Proof.
  intros c. unfold forward_request. destruct (encrypted _); [|done]. etransitivity; [|apply on_cenc_framed].
  destruct r; [apply client_requests|done].
Qed.

Lemma own_request_framed g n b : keeps (own_request g n b : st Cl _ _).
Proof.
  unfold own_request. apply framed_bind; [apply _|apply framed_mod; intros; apply client_requests|].
  intros _. apply on_cenc_framed.
Qed.

Lemma cl_pop_framed : keeps (cl_pop : st Cl E _).
Proof. intros c. unfold cl_pop. destruct (cl_requests c); [done|]. apply client_requests. Qed.

Lemma request_answers_framed r : keeps (cl_recv_request_success r : st Cl E _) /\ keeps (cl_recv_request_failure r : st Cl E _).
Proof.
  split; unfold cl_recv_request_success, cl_recv_request_failure, cl_answer;
    repeat first [apply cl_pop_framed | keeps_step].
Qed.

Lemma global_request_framed r : keeps (cl_recv_global_request r).
Proof. unfold cl_recv_global_request. repeat keeps_step. Qed.

(** *** Channels *)
Lemma open_confirmed_framed r : keeps (cl_recv_open_confirmation r).
Proof.
  unfold cl_recv_open_confirmation. repeat keeps_step. intros c1. repeat case_match; try done.
  apply client_core. by eapply frame_encrypted.
Qed.

Lemma open_failed_framed r : keeps (cl_recv_open_failure r).
Proof.
  unfold cl_recv_open_failure.
  repeat first [apply framed_mod; intros; first [apply client_messages | apply client_core, frame_inbox] | keeps_step].
Qed.

Lemma channel_request_framed r : keeps (cl_recv_channel_request r).
Proof. unfold cl_recv_channel_request. repeat keeps_step. Qed.

Lemma channel_answered_framed b r : keeps (cl_recv_channel_reply b r).
Proof. unfold cl_recv_channel_reply. repeat keeps_step. Qed.

Lemma cl_channel_open_framed ws mp t sender : keeps (cl_channel_open ws mp t sender : st Cl _ _).
Proof.
  intros c. unfold cl_channel_open. destruct (encrypted (core c)) as [e|] eqn:He; [|done].
  destruct (c_state (auth c)); try done.
  assert (Hr : forall e', R c (set_core (set_encrypted (Some e') (core c)) c)).
  { intros e'. apply client_core. by eapply frame_encrypted. }
  destruct (new_channel ws mp e) as [[id| |] e1]; [|apply Hr..].
  destruct (channel_open t) as [kind suffix]. destruct (on_write _ e1) as [[u| |] e2]; [|apply Hr..].
  cbv zeta. cbn [snd]. etransitivity; [apply (Hr e2)|].
  apply client_core. etransitivity; [|apply frame_inbox]. reflexivity.
Qed.

Lemma authenticated_framed config ws mp p m r : keeps (client_read_authenticated ws mp config p m r).
Proof.
  destruct (request_answers_framed r). unfold client_read_authenticated.
  repeat (destruct (_ : bool); [first [assumption | apply open_confirmed_framed | apply open_failed_framed
    | apply channel_request_framed | apply channel_answered_framed | apply global_request_framed
    | apply cl_up_framed, on_copen_framed
    | apply on_core_framed; first [apply client_close_framed | apply client_eof_framed
        | apply client_data_framed | apply client_adjust_framed]; apply _]|]).
  keeps_step.
Qed.
End Packets.
