(* ===== verification/Forwarding.v ===== *)
(** * Forwarding requests, from one application to the other

    A client asks the server to forward a TCP port or a socket, or to stop; the
    server asks its application, answers, and the client hands the answer to
    whoever waits for it.  [ClientSession] and [ServerEncrypted] are put together:
    the packets of each side are read by the other. *)

From stdpp Require Import base list numbers option gmap strings.
From Stdlib Require Import ZArith Lia.
From S2P Require Import Prelude Encoding Parsing LibInner Msg Channels PendingInbound Cipher Compression Session.
From S2P Require Import Negotiation Dh Kex CommonSession ServerSession ServerFrames ChannelOpen ChannelRequests Auth ServerAuth.
From S2P Require Import KexRun ServerEncrypted ClientAuth AuthExchange ClientSession.

Inductive forward : Type :=
| Tcpip (address : bytes) (port : Z)
| CancelTcpip (address : bytes) (port : Z)
| Streamlocal (socket_path : bytes)
| CancelStreamlocal (socket_path : bytes).

Definition forward_ok (f : forward) : Prop :=
  match f with
  | Tcpip a p | CancelTcpip a p => string_ok a /\ is_u32 p
  | Streamlocal s | CancelStreamlocal s => string_ok s
  end.

(** What is queued on the client. *)
Definition entry (f : forward) : Z -> GlobalRequestResponse :=
  match f with
  | Tcpip _ _ => TcpIpForward
  | CancelTcpip _ _ => CancelTcpIpForward
  | Streamlocal _ => StreamLocalForward
  | CancelStreamlocal _ => CancelStreamLocalForward
  end.

Definition name (f : forward) : bytes :=
  match f with
  | Tcpip _ _ => str "tcpip-forward"
  | CancelTcpip _ _ => str "cancel-tcpip-forward"
  | Streamlocal _ => str "streamlocal-forward@openssh.com"
  | CancelStreamlocal _ => str "cancel-streamlocal-forward@openssh.com"
  end.
Definition args (f : forward) : bytes :=
  match f with
  | Tcpip a p | CancelTcpip a p => prefixed a ++ be32 p
  | Streamlocal s | CancelStreamlocal s => prefixed s
  end.
Definition payload (f : forward) : bytes := msg.GLOBAL_REQUEST :: prefixed (name f) ++ [1] ++ args f.

(** The port that the server's application chose is told if it was left open. *)
Definition chosen (f : forward) (returned_port : Z) : option Z :=
  match f with
  | Tcpip _ port => if (port =? 0) && negb (returned_port =? 0) then Some returned_port else None
  | _ => None
  end.
Definition reply_payload (f : forward) (result : bool * Z) : bytes :=
  if result.1
  then msg.REQUEST_SUCCESS :: match chosen f result.2 with Some p => be32 p | None => [] end
  else [msg.REQUEST_FAILURE].

(** What the waiting application of the client gets. *)
Definition verdict (f : forward) (result : bool * Z) : answer :=
  match f with
  | Tcpip _ _ => GotPort (if result.1 then Some (default 0 (chosen f result.2)) else None)
  | _ => GotBool result.1
  end.

Section Forwarding.
Context {enc : SshEncoding} `{!SshEncodingLaws enc} {SKY : SshKeys} {HKS : HostKeys} {UK : UserKeys}.
Context {Q : Mpsc} {QS : MpscSend Q} {F : Flate2}.
Context {W : Type} {HW : PacketSink W}.
(** The client and its application. *)
Context (cconfig : Config) (cwindow cpacket : Z) {HC EC : Type} {HHC : @Handler Q W HC EC}.
Context {AHC : ClientAuthHandler W HC EC} {CHC : @ClientHandler SKY HKS UK Q F W HC EC}.
(** The server and its application. *)
Context (config : Config) (window_size maximum_packet_size : Z) (auth_methods : MethodSet).
Context (auth_rejection_time : Z) (auth_rejection_time_initial : option Z) (after_failure : bytes -> bytes).
Context {H E : Type} {HH : @Handler Q W H E} {AH : AuthHandler H E} {RH : @RequestHandler UK Q F W H E}.

Abbreviation Client := (@Client UK Q F W HC).
Abbreviation Sess := (@Session UK Q F W H).
Implicit Types c : Client.
Implicit Types s : Sess.

Definition ask (f : forward) (reply : option Z) : st Client Error.error unit :=
  match f with
  | Tcpip a p => cl_tcpip_forward reply a p
  | CancelTcpip a p => cl_cancel_tcpip_forward reply a p
  | Streamlocal p => cl_streamlocal_forward reply p
  | CancelStreamlocal p => cl_cancel_streamlocal_forward reply p
  end.

(** The question that the server puts to its application. *)
Definition serve (f : forward) : st Sess E (bool * Z) :=
  match f with
  | Tcpip a p => tcpip_forward a p
  | CancelTcpip a p => do b <- cancel_tcpip_forward a p ;; st_ret (b, 0)
  | Streamlocal p => do b <- streamlocal_forward p ;; st_ret (b, 0)
  | CancelStreamlocal p => do b <- cancel_streamlocal_forward p ;; st_ret (b, 0)
  end.

Abbreviation process := (process_packet config window_size maximum_packet_size auth_methods
  auth_rejection_time auth_rejection_time_initial after_failure (H := H) (E := E)).
Abbreviation client_process := (client_process_packet cconfig cwindow cpacket (H := HC) (E := EC)).

(** A client and a server with one more packet staged. *)
Definition client_staged (p : bytes) (e : Encrypted) c : Client :=
  set_core (set_encrypted (Some (set_write (e.(enc_write) ++ frame p) e.(write_cursor) e)) c.(core)) c.
Definition server_staged (p : bytes) (e : Encrypted) s : Sess :=
  set_srv (set_encrypted (Some (set_write (e.(enc_write) ++ frame p) e.(write_cursor) e)) s.(srv)) s.

Lemma request_ok f reply c e : forward_ok f -> c.(core).(encrypted) = Some e ->
  ask f (Some reply) c =
    (Ok tt, client_staged (payload f) e (set_cl_requests (c.(cl_requests) ++ [entry f reply]) c.(cl_answers) c)).
Proof.
  intros Hok He.
  assert (Hf : forall k mk rest body, zlen k < U32_MOD -> appends body rest ->
    forward_request k mk (Some reply) body c =
      (Ok tt, client_staged (msg.GLOBAL_REQUEST :: prefixed k ++ [1] ++ rest) e
        (set_cl_requests (c.(cl_requests) ++ [mk reply]) c.(cl_answers) c))).
  { intros k mk rest body Hk Hb. unfold forward_request, on_cenc, on_core, on_encrypted. rewrite He. cbn [core set_cl_requests].
    rewrite He. unfold on_write.
    assert (Ha : appends (global_request k true body) (msg.GLOBAL_REQUEST :: prefixed k ++ [1] ++ rest)).
    { unfold global_request, prefixed, enc_w.
      change (msg.GLOBAL_REQUEST :: ?x) with ([msg.GLOBAL_REQUEST] ++ x). 
      assert (is_u8 msg.GLOBAL_REQUEST) by done. assert (is_u8 1) by done. auto 8 with wire. }
    by rewrite (appends_push_packet _ _ Ha). }
  unfold ask, cl_tcpip_forward, cl_cancel_tcpip_forward, cl_streamlocal_forward, cl_cancel_streamlocal_forward, payload.
  destruct f as [a p|a p|p|p]; cbn [forward_ok name args entry] in *; try match type of Hok with _ /\ is_u32 _ => destruct Hok as [Hok Hp] end;
    (apply Hf; [done|]); unfold prefixed, enc_w; apply zlen_u32 in Hok; auto with wire.
Qed.

(** The server's part: the question to its application, and the answer. *)
Lemma serve_ok f s s' se' result : forward_ok f ->
  serve f (set_wants_reply true s) = (Ok result, s') -> s'.(srv).(encrypted) = Some se' ->
  s'.(wants_reply) = true -> is_u32 result.2 ->
  recv_global_request (prefixed (name f) ++ [1] ++ args f) s =
    (Ok tt, server_staged (reply_payload f result) se' s').
Proof.
  intros Hok Hserve He Hw Hp.
  assert (Hans : forall b, answer_global b s' =
    (Ok tt, server_staged (if b then [msg.REQUEST_SUCCESS] else [msg.REQUEST_FAILURE]) se' s')).
  { intros b. unfold answer_global, up, st_map_err, on_enc, on_srv, on_encrypted. rewrite He.
    unfold on_write. rewrite (appends_push_packet _ _ (appends_push_byte _)). by destruct b. }
  assert (Hone : forall (m : st Sess E bool) b, (do b <- m ;; st_ret (b, 0)) (set_wants_reply true s) = (Ok result, s') ->
    result = (b, 0) -> (do b <- m ;; answer_global b) (set_wants_reply true s) =
      (Ok tt, server_staged (if b then [msg.REQUEST_SUCCESS] else [msg.REQUEST_FAILURE]) se' s')).
  { intros m b Hm ->. unfold st_bind, st_ret in *. destruct (m _) as [[x| |] s1]; simplify_eq. apply Hans. }
  assert (Hres : forall (m : st Sess E bool), (do b <- m ;; st_ret (b, 0)) (set_wants_reply true s) = (Ok result, s') ->
    result = (result.1, 0)).
  { intros m Hm. unfold st_bind, st_ret in *. by destruct (m _) as [[x| |] s1]; simplify_eq. }
  rewrite <- (app_nil_r (args f)). unfold recv_global_request, dec. unfold st_bind at 1 2 3, st_lift, st_mod.
  destruct f as [a p|a p|p|p]; cbn [forward_ok name args serve payload] in *;
    try match type of Hok with _ /\ is_u32 _ => destruct Hok as [Hok Hpp] end;
    decode_fields; resolve_names; cbn [map_err negb Z.eqb]; cbv beta iota.
  2-4: pose proof (Hres _ Hserve) as Hr; unfold reply_payload, chosen;
    replace (if result.1 then [msg.REQUEST_SUCCESS] else _) with
      (if result.1 then [msg.REQUEST_SUCCESS] else [msg.REQUEST_FAILURE]) by (by destruct result.1);
    rewrite <- (Hone _ _ Hserve Hr); unfold st_bind, st_lift; decode_fields; reflexivity.
  unfold recv_tcpip_forward, dec, st_lift. unfold st_bind. decode_fields. cbn [map_err ensure_end]. cbv beta iota.
  rewrite Hserve. destruct result as [[|] rp]; cbn [fst snd] in *; [|apply Hans].
  unfold up, st_map_err, on_enc, on_srv, on_encrypted. rewrite He, Hw. cbn [andb]. unfold on_write.
  assert (Ha : appends (push_byte msg.REQUEST_SUCCESS ;;;
      (if (p =? 0) && negb (rp =? 0) then enc_w (encode_u32 rp) else st_ret tt) : Encoding.writer Error.error)
    (reply_payload (Tcpip a p) (true, rp))).
  { unfold reply_payload, chosen. cbn [fst snd]. change (msg.REQUEST_SUCCESS :: ?x) with ([msg.REQUEST_SUCCESS] ++ x).
    destruct (_ && _); unfold enc_w; auto with wire. }
  by rewrite (appends_push_packet _ _ Ha).
Qed.
(** The client's part again: the answer goes to whoever waits for it. *)
Lemma answer_ok f result reply rest c e sender : is_u32 result.2 ->
  c.(core).(encrypted) = Some e -> c.(auth).(c_state) = Authenticated ->
  c.(cl_requests) = entry f reply :: rest ->
  exists c', client_process sender (reply_payload f result) c = (Ok tt, c') /\
    c'.(core) = c.(core) /\ c'.(cl_requests) = rest /\
    c'.(cl_answers) = c.(cl_answers) ++ [(reply, verdict f result)].
Proof.
  intros Hp He Ha Hr.
  assert (Hc : exists c0, on_auth e (read_unauthenticated c.(cl_session_id) c.(cl_server_compression)
      (reply_payload f result)) c = (Ok true, c0) /\
    c0.(core) = c.(core) /\ c0.(cl_requests) = c.(cl_requests) /\ c0.(cl_answers) = c.(cl_answers)).
  { eexists. split.
    - unfold on_auth, read_unauthenticated. cbn [c_state with_shared]. by rewrite Ha.
    - split_and!; [|done..]. cbn [core set_auth_part set_core with_shared c_writer c_handler c_write set_writer set_target].
      destruct c as [v]. cbn in *. destruct v, e. cbn in *. by subst. }
  destruct Hc as (c0 & Hc & Hcore & Hreqs & Hans).
  unfold client_process_packet. rewrite He. unfold st_bind at 1. rewrite Hc.
  rewrite Hr in Hreqs. rewrite <- Hcore, <- Hans. clear Hc Hr Hcore Hans He Ha.
  destruct c0 as [v a i k1 k2 reqs answers o h d]. cbn in Hreqs. subst reqs.
  assert (Hport : is_u32 result.2 -> forwarded_port (be32 result.2) = Some result.2).
  { intros H32. unfold forwarded_port. destruct (be32 result.2) as [|x l] eqn:Hb; [done|]. rewrite <- Hb.
    rewrite <- (app_nil_r (be32 result.2)). by decode_fields. }
  unfold reply_payload. destruct result as [[|] rp]; cbn [fst snd] in *.
  - change (client_read_authenticated cconfig cwindow cpacket (HH := HHC) sender msg.REQUEST_SUCCESS)
      with (cl_recv_request_success (HH := HHC)).
    unfold cl_recv_request_success, cl_pop, st_bind.
    destruct f as [ad p|ad p|p|p]; cbn [chosen entry verdict fst snd default cl_requests set_cl_requests];
      [destruct (_ && _); rewrite ?Hport by done|..]; (eexists; split; [reflexivity|done]).
  - change (client_read_authenticated cconfig cwindow cpacket (HH := HHC) sender msg.REQUEST_FAILURE [])
      with (cl_recv_request_failure (HH := HHC) []).
    destruct f as [ad p|ad p|p|p]; cbn [chosen entry verdict fst snd]; (eexists; split; [reflexivity|done]).
Qed.

(** What a client asks for with a forwarding request is what the server's
    application is asked, with the same address and port or path, and the answer
    of that application, with the port that it chose, is what the one who waits
    for the request is told; the reply settles the oldest request of the client
    and changes nothing else. *)
Theorem forwarding_served f reply c e s se s' se' result now sender :
  forward_ok f -> is_u32 result.2 ->
  c.(core).(encrypted) = Some e ->
  s.(srv).(encrypted) = Some se -> s.(state) = Authenticated ->
  serve f (set_wants_reply true s) = (Ok result, s') ->
  s'.(srv).(encrypted) = Some se' -> s'.(wants_reply) = true ->
  ask f (Some reply) c =
    (Ok tt, client_staged (payload f) e (set_cl_requests (c.(cl_requests) ++ [entry f reply]) c.(cl_answers) c)) /\
  process now sender (payload f) s = (Ok tt, server_staged (reply_payload f result) se' s') /\
  forall c1 e1 rest,
    c1.(core).(encrypted) = Some e1 -> c1.(auth).(c_state) = Authenticated ->
    c1.(cl_requests) = entry f reply :: rest ->
    exists c2, client_process sender (reply_payload f result) c1 = (Ok tt, c2) /\
      c2.(core) = c1.(core) /\ c2.(cl_requests) = rest /\
      c2.(cl_answers) = c1.(cl_answers) ++ [(reply, verdict f result)].
Proof.
  intros Hok Hp He Hse Hs Hserve Hse' Hw. split_and!; [by apply request_ok| |].
  - unfold process_packet. rewrite Hse, Hs. exact (serve_ok _ _ _ _ _ Hok Hserve Hse' Hw Hp).
  - intros c1 e1 rest He1 Ha1 Hr1. by eapply answer_ok.
Qed.
End Forwarding.

Module Example.
#[local] Existing Instance rfc4251.
#[local] Existing Instance rfc4251_laws.
#[local] Existing Instance Negotiation.Example.keys.
#[local] Existing Instance KexRun.Example.host_keys.
#[local] Existing Instance Auth.Example.keys.
#[local] Existing Instance Bounded.mpsc.
#[local] Existing Instance Doubling.flate2.
#[local] Existing Instance ServerEncrypted.Example.bounded_send.
#[local] Existing Instance ServerEncrypted.Example.handler.
#[local] Existing Instance ServerEncrypted.Example.auth_handler.
#[local] Existing Instance ServerEncrypted.Example.request_handler.
#[local] Existing Instance AuthExchange.Example.client.
#[local] Existing Instance packet_log.

(** A client whose application takes note of nothing. *)
#[local] Instance client_handler :
  @ClientHandler Negotiation.Example.keys KexRun.Example.host_keys _ _ _ (list bytes) unit Error.error := {|
  cl_open_confirmation _ _ _ := st_ret tt;
  cl_open_failure _ _ _ _ := st_ret tt;
  cl_server_request _ _ := st_ret tt;
  cl_channel_reply _ _ := st_ret tt;
  openssh_ext_host_keys_announced _ := st_ret tt;
  cl_open_decision _ := ChannelOpen.Accept;
  should_accept_unknown_server_channel := false;
|}.

Definition server : ServerEncrypted.Example.Sess := set_state Authenticated ServerEncrypted.Example.s0.
Definition authenticated : ClientCtx (list bytes) unit :=
  mkClientCtx Authenticated [] [] None [] [] DecompressNone None [] ∅ [] [] true [] tt.
Definition client (requests : list GlobalRequestResponse) :
  @Client Auth.Example.keys Bounded.mpsc Doubling.flate2 (list bytes) unit :=
  mkClient ServerEncrypted.Example.s0.(srv) authenticated [] CompressionNone CompressionNone requests [] [] [] false.

(** The client picks the port; the application of the server answers with the one
    it was asked for, so the client is told none. *)
Definition request : forward := Tcpip (str "localhost") 8080.

Lemma forwarding_served_witness :
  exists c2, client_process_packet (mkConfig 100 100) 50 100 7 (reply_payload request (true, 8080))
      (client [TcpIpForward 3; Keepalive]) = (Ok tt, c2) /\
    c2.(core) = (client [TcpIpForward 3; Keepalive]).(core) /\ c2.(cl_requests) = [Keepalive] /\
    c2.(cl_answers) = [(3, GotPort (Some 0))].
Proof.
  refine (proj2 (proj2 (forwarding_served (mkConfig 100 100) 50 100 (mkConfig 100 100) 50 100 MethodSet.all 3 (Some 1)
    (fun r => r) request 3 (client []) ServerEncrypted.Example.enc0 server ServerEncrypted.Example.enc0
    (set_wants_reply true server) ServerEncrypted.Example.enc0 (true, 8080) 1000 7 _ _ _ _ _ _ _ _)) _ _ [Keepalive] _ _ _).
  all: try reflexivity.
  - by split.
  - by split.
Defined.
End Example.
