(* ===== verification/ClientReply.v ===== *)
(** * The run loop of a client ([reply], [run_inner], [handle_msg] of
    [russh/src/client/mod.rs])

    One turn of the loop is [iteration]: a packet of the server, a slot that
    became free in a full channel, an answer to the server's request to open a
    channel, the keepalive timer, or messages of the application; and then what
    every turn ends with.  [CConn] is the session with the parts that
    [ClientSession] leaves out.

    The field [pending_reads] is never filled by the program and is not in the
    model; the timers are events, and writing to the socket is [PacketWriter]. *)

From stdpp Require Import base list numbers option gmap strings.
From Stdlib Require Import ZArith Lia.
From S2P Require Import Prelude Encoding Parsing LibInner Msg NameList PacketWriter Channels PendingInbound Cipher Compression Session.
From S2P Require Import Negotiation KexKeys Dh Kex ServerSession ServerFrames ChannelOpen ChannelRequests.
From S2P Require Import Auth ServerAuth ServerEncrypted ClientAuth ClientSession CommonSession.

(** What the environment supplies in one turn: the time, the random cookies of
    the KEXINIT packets that may be sent, the randomness of the key exchange, and
    the buffer of a channel that may be opened. *)
Record Input : Type := mkInput {
  now : Z;
  cookie : bytes;
  flush_cookie : bytes;
  rnd : Z;
  new_sender : Z;
}.

(** [RemoteDisconnectInfo]. *)
Record RemoteDisconnectInfo : Type := mkDisconnectInfo {
  reason_code : Disconnect.disconnect;
  message : bytes;
  lang_tag : bytes;
}.

(** The messages of the application ([Msg] of [client/mod.rs]). *)
Inductive ClientMsg {UK : UserKeys} : Type :=
| MAuthenticate (user : bytes) (method : Method)
| MSigned (data : bytes)
| MAuthInfoResponse (responses : list bytes)
| MChannelOpen (t : ChannelType.type) (channel_ref : Z)
| MTcpIpForward (reply_channel : option Z) (address : bytes) (port : Z)
| MCancelTcpIpForward (reply_channel : option Z) (address : bytes) (port : Z)
| MStreamLocalForward (reply_channel : option Z) (socket_path : bytes)
| MCancelStreamLocalForward (reply_channel : option Z) (socket_path : bytes)
| MDisconnect (reason : Disconnect.disconnect) (description language_tag : bytes)
| MData (id : Z) (ext : option Z) (data : bytes)
| MDataAcked (id : Z) (ext : option Z) (data : bytes) (ack : Z)
| MEof (id : Z)
| MRequest (id : Z) (want_reply : bool) (req : ChannelRequest)
| MClose (id : Z)
| MRekey
| MAwaitExtensionInfo (extension_name : bytes) (reply_channel : Z)
| MGetServerSigAlgs (reply_channel : Z)
| MKeepalive (want_reply : bool)
| MPing (reply_channel : Z)
| MNoMoreSessions (want_reply : bool)
| MServerOnly.

Section ClientReply.
Context {enc : SshEncoding} {SKY : SshKeys} {HKS : HostKeys} {UK : UserKeys}.
Context {Q : Mpsc} {QS : MpscSend Q} {F : Flate2}.
Context {K SK OK : Type} {KA : KexAlgorithmImplementor K SK OK} (KEXES : bytes -> option K).
Context {W : Type} {HW : PacketSink W} {KW : KeyedSink W SK}.

Abbreviation ClientKex := (@ClientKex SKY HKS K SK OK).
Abbreviation Client := (@ClientSession.Client UK Q F W).
Abbreviation Core := (@Server Q W).
Abbreviation Common := (@Common F OK W).
Abbreviation Keys := (@NewKeys SKY K SK OK).
Abbreviation HostKey := Kex.PublicKey.
Abbreviation SigAlgs := (option (list (@Algorithm UK))).

(** ** State *)
Record CConn (H : Type) : Type := mkCConn {
  cl : Client H;
  ckex : SessionKexState ClientKex;
  cc_exchange : option Exchange;               (* enc.exchange *)
  cc_remote_to_local : OK;                     (* common.remote_to_local *)
  cc_strict_kex : bool;                        (* common.strict_kex *)
  cc_disconnected : bool;                      (* common.disconnected *)
  cc_alive_timeouts : Z;                       (* common.alive_timeouts *)
  kex_done_signal : bool;                      (* whether [connect_stream] still waits *)
  checked : list (HostKey * bool);             (* the answers of [check_server_key] *)
  sig_algs_told : list (Z * SigAlgs);          (* the answers to [GetServerSigAlgs] *)
}.
#[global] Arguments mkCConn {H} _ _ _ _ _ _ _ _ _ _.
#[global] Arguments cl {H} _.
#[global] Arguments ckex {H} _.
#[global] Arguments cc_exchange {H} _.
#[global] Arguments cc_remote_to_local {H} _.
#[global] Arguments cc_strict_kex {H} _.
#[global] Arguments cc_disconnected {H} _.
#[global] Arguments cc_alive_timeouts {H} _.
#[global] Arguments kex_done_signal {H} _.
#[global] Arguments checked {H} _.
#[global] Arguments sig_algs_told {H} _.

Section Views.
Context {H : Type}.
Implicit Types c : CConn H.
Implicit Types s : Client H.

Definition cc_core c : Core H := c.(cl).(core).
Definition cc_encrypted c : option Encrypted := (cc_core c).(ServerSession.encrypted).
Definition cc_state c : EncryptedState := c.(cl).(auth).(c_state).

Definition set_cl s c : CConn H :=
  mkCConn s c.(ckex) c.(cc_exchange) c.(cc_remote_to_local) c.(cc_strict_kex) c.(cc_disconnected)
    c.(cc_alive_timeouts) c.(kex_done_signal) c.(checked) c.(sig_algs_told).
Definition set_cc_core (v : Core H) c : CConn H := set_cl (set_core v c.(cl)) c.
Definition set_cc_strict b c : CConn H :=
  mkCConn c.(cl) c.(ckex) c.(cc_exchange) c.(cc_remote_to_local) b c.(cc_disconnected)
    c.(cc_alive_timeouts) c.(kex_done_signal) c.(checked) c.(sig_algs_told).
Definition set_cc_disconnected c : CConn H :=
  mkCConn c.(cl) c.(ckex) c.(cc_exchange) c.(cc_remote_to_local) c.(cc_strict_kex) true
    c.(cc_alive_timeouts) c.(kex_done_signal) c.(checked) c.(sig_algs_told).
Definition set_cc_alive n c : CConn H :=
  mkCConn c.(cl) c.(ckex) c.(cc_exchange) c.(cc_remote_to_local) c.(cc_strict_kex) c.(cc_disconnected)
    n c.(kex_done_signal) c.(checked) c.(sig_algs_told).
Definition take_signal c : CConn H :=
  mkCConn c.(cl) c.(ckex) c.(cc_exchange) c.(cc_remote_to_local) c.(cc_strict_kex) c.(cc_disconnected)
    c.(cc_alive_timeouts) false c.(checked) c.(sig_algs_told).
Definition add_checked (a : HostKey * bool) c : CConn H :=
  mkCConn c.(cl) c.(ckex) c.(cc_exchange) c.(cc_remote_to_local) c.(cc_strict_kex) c.(cc_disconnected)
    c.(cc_alive_timeouts) c.(kex_done_signal) (c.(checked) ++ [a]) c.(sig_algs_told).
Definition tell_sig_algs (a : Z * SigAlgs) c : CConn H :=
  mkCConn c.(cl) c.(ckex) c.(cc_exchange) c.(cc_remote_to_local) c.(cc_strict_kex) c.(cc_disconnected)
    c.(cc_alive_timeouts) c.(kex_done_signal) c.(checked) (c.(sig_algs_told) ++ [a]).

(** [kex.active()] is also a field of the state of [ServerSession]. *)
Definition with_active (b : bool) (v : Core H) : Core H :=
  mkServer v.(inbox) v.(writer) v.(ServerSession.encrypted) b v.(target_window_size) v.(outbound_acks) v.(windows)
    v.(handler) v.(arrived) v.(calls) v.(resolved).
Definition set_ckex k c : CConn H :=
  mkCConn (set_core (with_active (active k) (cc_core c)) c.(cl)) k c.(cc_exchange) c.(cc_remote_to_local)
    c.(cc_strict_kex) c.(cc_disconnected) c.(cc_alive_timeouts) c.(kex_done_signal) c.(checked) c.(sig_algs_told).

(** The part that both session types share. *)
Definition cc_common c : Common :=
  mkCommon (cc_core c).(writer) c.(cc_remote_to_local) c.(cc_strict_kex) c.(cc_disconnected)
    (cc_encrypted c) c.(cc_exchange) c.(cl).(cl_session_id) (cc_state c)
    c.(cl).(cl_client_compression) c.(cl).(cl_server_compression) c.(cl).(auth).(c_decompress).
Definition set_cc_common (m : Common) c : CConn H :=
  let s := c.(cl) in
  let v := set_writer m.(packet_writer) (ServerSession.set_encrypted m.(encrypted) s.(core)) in
  let a := set_c_state m.(CommonSession.state)
             (set_c_streams s.(auth).(c_writer) m.(CommonSession.decompress) s.(auth)) in
  mkCConn
    (mkClient v a m.(CommonSession.session_id) m.(CommonSession.client_compression)
       m.(CommonSession.server_compression) s.(cl_requests) s.(cl_answers) s.(cl_open_replies) s.(cl_stashed)
       s.(cl_received_data))
    c.(ckex) m.(exchange) m.(remote_to_local) m.(strict_kex) m.(disconnected)
    c.(cc_alive_timeouts) c.(kex_done_signal) c.(checked) c.(sig_algs_told).

Definition on_cc_common {A} (m : st Common Error.error A) : st (CConn H) Error.error A := fun c =>
  let '(r, m') := m (cc_common c) in (r, set_cc_common m' c).

(** Code on [common.packet_writer]. *)
Definition on_cc_sink {A} (m : st W Error.error A) : st (CConn H) Error.error A := fun c =>
  let '(r, w) := m (cc_core c).(writer) in (r, set_cc_core (set_writer w (cc_core c)) c).

(** Code of [ClientSession]. *)
Definition on_cl {E A} (m : st (Client H) E A) : st (CConn H) E A := fun c =>
  let '(r, s) := m c.(cl) in (r, set_cl (set_core (with_active (active c.(ckex)) s.(core)) s) c).
Definition on_cc_core {E A} (m : st (Core H) E A) : st (CConn H) E A := on_cl (on_core m).
End Views.

(** ** The application *)
Class ConnHandler (H E : Type) : Type := {
  (** It is given the shared secret and the names, which the new keys hold. *)
  on_kex_done : Keys -> st (CConn H) E unit;
  check_server_key : HostKey -> st (CConn H) E bool;
}.

Section Operations.
(** The configuration: of the key exchange, the identification strings, the
    limits, whether the session is anonymous, [keepalive_max]; and what
    [ClientSession] takes.  [pending_bytes] is that of the packet writer. *)
Context (kconfig : ClientConfig) (client_id remote_sshid : bytes) (limits : Limits) (anonymous : bool).
Context (keepalive_max : Z) (pending_bytes : W -> Z).
Context (config : Config) (window_size maximum_packet_size : Z).
Context {H E : Type} {HH : @Handler Q W H E} {AH : ClientAuthHandler W H E}.
Context {CH : @ClientHandler SKY HKS UK Q F W H E} {NH : ConnHandler H E}.
Implicit Types c : CConn H.
Abbreviation M A := (st (CConn H) E A).
Abbreviation ME A := (st (CConn H) Error.error A).

Definition cc_up {A} (m : ME A) : M A := st_map_err from_error m.

(** ** Starting a key exchange *)
Definition client_rekey_cause c : KexCause :=
  match cc_encrypted c with
  | None => Initial
  | Some _ => Rekey c.(cc_strict_kex) c.(cl).(cl_session_id)
  end.

Definition client_begin_rekey (cookie : bytes) : ME unit := fun c =>
  (do kx <- on_cc_sink (client_kexinit cookie
             (ClientKex_new kconfig client_id remote_sshid (client_rekey_cause c))) ;;
   st_mod (set_ckex (InProgress kx))) c.

Definition client_flush (now : Z) (cookie : bytes) : ME unit := fun c =>
  match cc_encrypted c with
  | None => (Ok tt, c)
  | Some e =>
      let '(r, (w, e')) := Session.flush limits now ((cc_core c).(writer), e) in
      let c' := set_cc_core (set_writer w (ServerSession.set_encrypted (Some e') (cc_core c))) c in
      match r with
      | Ok wanted => if wanted && negb (active c'.(ckex)) then client_begin_rekey cookie c' else (Ok tt, c')
      | Err x => (Err x, c')
      | Panic => (Panic, c')
      end
  end.

Definition initiate_rekey (now : Z) (cookie : bytes) : ME unit := fun c =>
  match cc_encrypted c with
  | None => (Ok tt, c)
  | Some e =>
      client_flush now cookie
        (set_cc_core (ServerSession.set_encrypted (Some (set_rekey_wanted true e)) (cc_core c)) c)
  end.

(** ** [reply] *)
Definition client_ignored (m : Z) : bool := memb m [msg.IGNORE; msg.UNIMPLEMENTED; msg.DEBUG].

Definition client_check_strict (pkt : IncomingSshPacket) c : Result unit :=
  match pkt.(pkt_buffer) with
  | [] => Ok tt
  | message_type :: _ =>
      if c.(cc_strict_kex) && bool_decide (cc_encrypted c = None) then
        if pkt.(pkt_seqn) =? 0 then Panic
        else validate_server_msg_strict_kex message_type (pkt.(pkt_seqn) - 1)
      else Ok tt
  end.

Definition initial_encrypted_state : EncryptedState :=
  if anonymous then Authenticated else WaitingAuthServiceRequest false false.

(** The application is asked about the host key of the first exchange. *)
Definition check_host (server_host_key : option HostKey) : M unit :=
  match server_host_key with
  | Some k =>
      do check <- check_server_key k ;;
      st_mod (add_checked (k, check)) ;;;
      if check : bool then st_ret tt else st_err (from_error Error.UnknownKey)
  | None => st_ret tt
  end.

Definition client_kex_done (i : Input) (server_host_key : option HostKey) (nk : Keys) : M unit :=
  st_mod (fun c => set_cc_strict (c.(cc_strict_kex) || nk.(nk_names).(Negotiation.strict_kex)) c) ;;;
  on_kex_done nk ;;;
  (fun c =>
     match cc_encrypted c with
     | Some _ => cc_up (on_cc_common (finish_rekey i.(now) nk)) c
     | None =>
         (check_host server_host_key ;;;
          cc_up (on_cc_common (st_mod (make_encrypted i.(now) initial_encrypted_state nk))) ;;;
          st_mod take_signal) c
     end) ;;;
  st_mod (set_ckex Idle).

Definition client_kex_progress (i : Input) (seqn : Z) (progress : KexProgress ClientKex) : M Z :=
  match progress with
  | NeedsReply kx reset_seqn_ =>
      st_mod (set_ckex (InProgress kx)) ;;;
      (if reset_seqn_ : bool then cc_up (on_cc_common (st_mod CommonSession.reset_seqn)) else st_ret tt) ;;;
      st_ret seqn
  | Done host nk =>
      client_kex_done i host nk ;;;
      (fun c => (Ok (if c.(cc_strict_kex) then 0 else seqn), c))
  end.

Definition client_kex_packet (i : Input) (pkt : IncomingSshPacket) (kx : ClientKex) : M Z :=
  do progress <- cc_up (on_cc_sink (client_step KEXES i.(rnd) (Some pkt) kx)) ;;
  do seqn <- client_kex_progress i pkt.(pkt_seqn) progress ;;
  cc_up (client_flush i.(now) i.(flush_cookie)) ;;;
  st_ret seqn.

Abbreviation process := (client_process_packet config window_size maximum_packet_size (H := H) (E := E)).

Definition client_reply (i : Input) (pkt : IncomingSshPacket) : M Z := fun c =>
  match map_err from_error (client_check_strict pkt c) with
  | Err x => (Err x, c)
  | Panic => (Panic, c)
  | Ok _ =>
      let first := head pkt.(pkt_buffer) in
      if match first with Some m => client_ignored m | None => false end then (Ok pkt.(pkt_seqn), c)
      else
        ((if bool_decide (first = Some msg.KEXINIT) && is_idle c.(ckex)
          then cc_up (client_begin_rekey i.(cookie)) else st_ret tt) ;;;
         fun c =>
           match (if match first with Some m => is_kex_msg m | None => false end then fst (take c.(ckex)) else Idle) with
           | InProgress kx => client_kex_packet i pkt kx (set_ckex (snd (take c.(ckex))) c)
           | _ => (on_cl (process i.(new_sender) pkt.(pkt_buffer)) ;;; st_ret pkt.(pkt_seqn)) c
           end) c
  end.

(** ** The messages of the application *)

(** Replies to channel opens of the server, which come before anything that the
    application sends on those channels; without [common.encrypted] they are
    dropped. *)
Definition on_replies (m : st OpenState Error.error unit) : ME unit := fun c =>
  match cc_encrypted c with
  | Some _ => on_cl (on_copen m) c
  | None => (Ok tt, set_cl (set_cl_opens c.(cl).(core) [] c.(cl).(cl_stashed) c.(cl)) c)
  end.

(** [let _ = m]. *)
Definition ignore_result (m : ME unit) : ME unit := fun c =>
  match m c with
  | (Err _, c') => (Ok tt, c')
  | r => r
  end.

(** [write_auth_request_if_needed]; without [common.encrypted] the request is
    noted for later. *)
Definition handle_authenticate (user : bytes) (method : Method) : ME unit := fun c =>
  match cc_encrypted c with
  | Some e => (do _ <- on_cl (on_auth e (write_auth_request_if_needed user method)) ;; st_ret tt) c
  | None => (Ok tt, set_cl (set_auth_part (set_c_auth (cc_state c) user (Some method) c.(cl).(auth)) c.(cl)) c)
  end.

(** Who waits for an extension that may still come is noted; who waits for one
    that was seen, or cannot come any more, is dropped. *)
Definition handle_await_extension (extension_name : bytes) (reply_channel : Z) : ME unit := fun c =>
  let a := c.(cl).(auth) in
  match cc_encrypted c with
  | Some _ =>
      if negb (memb extension_name a.(c_extensions)) &&
         negb (match a.(c_state) with Authenticated => true | _ => false end)
      then
        let waiting := default [] (a.(c_awaiters) !! extension_name) ++ [reply_channel] in
        (Ok tt, set_cl (set_auth_part (set_c_extensions a.(c_sig_algs) a.(c_extensions)
                  (<[extension_name := waiting]> a.(c_awaiters)) a.(c_woken) a) c.(cl)) c)
      else (Ok tt, c)
  | None => (Ok tt, c)
  end.

Definition handle_msg (i : Input) (m : ClientMsg) : ME unit :=
  on_replies drain_open_replies ;;;
  match m with
  | MAuthenticate user method => handle_authenticate user method
  | MSigned _ | MAuthInfoResponse _ => st_ret tt
  | MChannelOpen t channel_ref => on_cl (cl_channel_open window_size maximum_packet_size t channel_ref)
  | MTcpIpForward r a p => on_cl (cl_tcpip_forward r a p)
  | MCancelTcpIpForward r a p => on_cl (cl_cancel_tcpip_forward r a p)
  | MStreamLocalForward r p => on_cl (cl_streamlocal_forward r p)
  | MCancelStreamLocalForward r p => on_cl (cl_cancel_streamlocal_forward r p)
  | MDisconnect reason description language_tag => on_cc_common (disconnect reason description language_tag)
  | MData id ext data => on_cc_core (session_data config id ext data)
  | MDataAcked id ext data ack => on_cc_core (dispatch_data_acked config id ext data ack)
  | MEof id => on_cc_core (session_eof id)
  | MRequest id want_reply req => on_cc_core (on_encrypted (send_request id want_reply req))
  | MClose id => on_cc_core (session_close id)
  | MRekey => initiate_rekey i.(now) i.(flush_cookie)
  | MAwaitExtensionInfo name r => handle_await_extension name r
  | MGetServerSigAlgs r => st_mod (fun c => tell_sig_algs (r, c.(cl).(auth).(c_sig_algs)) c)
  | MKeepalive want_reply => ignore_result (on_cl (send_keepalive want_reply))
  | MPing r => ignore_result (on_cl (send_ping r))
  | MNoMoreSessions want_reply => ignore_result (on_cl (no_more_sessions want_reply))
  | MServerOnly => st_panic
  end.

Definition MAX_MESSAGES_PER_BATCH : nat := 64.

(** More messages of the queue, while no exchange begins; what is left of it. *)
Fixpoint drain_messages (i : Input) (drained : nat) (q : list ClientMsg) : ME (list ClientMsg) := fun c =>
  match drained, q with
  | Datatypes.S n, next :: q' =>
      if negb (active c.(ckex)) then (handle_msg i next ;;; drain_messages i n q') c else (Ok q, c)
  | _, _ => (Ok q, c)
  end.

Definition handle_batch (i : Input) (q : list ClientMsg) : ME (list ClientMsg) :=
  match q with
  | [] => st_ret []
  | msg :: q => handle_msg i msg ;;; drain_messages i MAX_MESSAGES_PER_BATCH q
  end.

(** ** A turn of the loop *)
Definition process_disconnect (payload : bytes) : Result RemoteDisconnectInfo :=
  let? (_, r) := enc_err (decode_u8 payload) in
  let? (code, r) := enc_err (decode_u32 r) in
  let? reason := Disconnect.try_from code in
  let? (message, r) := enc_err (decode_string r) in
  let? (lang_tag, r) := enc_err (decode_string r) in
  Ok (mkDisconnectInfo reason message lang_tag).

(** What a turn comes to: the number of the next packet, the result of the
    session when the server disconnected, the messages that are left. *)
Inductive turn : Type :=
| TPacket (seqn : Z)
| TDisconnected (info : res E RemoteDisconnectInfo)
| TShort                                   (* [break] *)
| TQueue (q : list ClientMsg)
| TDone.

Definition received (b : bool) c : CConn H := set_cl (set_received_data b c.(cl)) c.

Definition packet_arm (i : Input) (buffer : bytes) (seqn : Z) : M turn :=
  if zlen buffer <? 5 then st_ret TShort
  else
    do payload <- (fun c =>
      match map_err from_error (maybe_decompress buffer (cc_common c)) with
      | Ok (p, m) => (Ok p, set_cc_common m c)
      | Err x => (Err x, c)
      | Panic => (Panic, c)
      end) ;;
    match payload with
    | [] => st_ret (TPacket seqn)
    | m :: _ =>
        if m =? msg.DISCONNECT then
          st_mod set_cc_disconnected ;;;
          st_ret (TDisconnected (map_err from_error (process_disconnect payload)))
        else
          st_mod (received true) ;;;
          do n <- client_reply i (mkPacket payload seqn) ;;
          st_ret (TPacket n)
    end.

Definition keepalive_arm : M turn := fun c =>
  match cc_encrypted c, cc_state c with
  | Some _, Authenticated =>
      let alive := Z.min (c.(cc_alive_timeouts) + 1) (2 ^ 64 - 1) in
      let c := set_cc_alive alive c in
      if negb (keepalive_max =? 0) && (keepalive_max <? alive) then (Err (from_error Error.KeepaliveTimeout), c)
      else (cc_up (on_cl (send_keepalive true)) ;;; st_ret TDone) c
  | _, _ => (Ok TDone, c)
  end.

(** What the loop can wake up for. *)
Inductive event : Type :=
| EPacket (buffer : bytes) (seqn : Z)
| EReserved (id generation : Z) (res : option Z)
| EFlushed (w : W)                          (* bytes went to the socket *)
| EOpenReply (rep : ChannelOpen.reply)
| EKeepalive
| EInactivity
| EMessages (q : list ClientMsg)
| EHandleDropped.                          (* the application let go of the session *)

Definition arm (i : Input) (ev : event) : M turn :=
  match ev with
  | EPacket buffer seqn => packet_arm i buffer seqn
  | EReserved id generation res => on_cc_core (client_pump_inbound window_size id generation res) ;;; st_ret TDone
  | EFlushed w => st_mod (fun c => set_cc_core (set_writer w (cc_core c)) c) ;;; st_ret TDone
  | EOpenReply rep =>
      cc_up (on_replies (finalize_channel_open_reply rep ;;; drain_open_replies)) ;;; st_ret TDone
  | EKeepalive => keepalive_arm
  | EInactivity => st_err (from_error Error.InactivityTimeout)
  | EMessages q => do q <- cc_up (handle_batch i q) ;; st_ret (TQueue q)
  | EHandleDropped => st_mod set_cc_disconnected ;;; st_ret TShort
  end.

(** The conditions of the arms. *)
Definition enabled (ev : event) c : bool :=
  negb c.(cc_disconnected) &&
  match ev with
  | EReserved _ _ _ | EOpenReply _ => negb (active c.(ckex))
  | EMessages _ | EHandleDropped =>
      negb (active c.(ckex)) && (pending_bytes (cc_core c).(writer) <? OUTBOUND_HIGH_WATERMARK)
  | _ => true
  end.

(** Compression starts after the turn in which the authentication succeeded. *)
Definition init_compression c : CConn H :=
  match cc_encrypted c, cc_state c with
  | Some _, InitCompression =>
      let comp := c.(cl).(cl_client_compression) in
      let v := cc_core c in
      let w := if is_deferred comp then sink_set_compress (init_compress comp (sink_compress v.(writer))) v.(writer)
               else v.(writer) in
      set_cl (set_auth_part (set_c_state Authenticated c.(cl).(auth)) (set_core (set_writer w v) c.(cl))) c
  | _, _ => c
  end.

Definition end_of_turn (i : Input) : M unit :=
  cc_up (client_flush i.(now) i.(flush_cookie)) ;;;
  st_mod (fun c => set_cc_core (release_outbound_acks (cc_core c)) c) ;;;
  st_mod init_compression ;;;
  st_mod (fun c => if c.(cl).(cl_received_data) then set_cc_alive 0 c else c).

(** After [break] nothing more is done. *)
Definition iteration (i : Input) (ev : event) : M turn :=
  st_mod (received false) ;;;
  do t <- arm i ev ;;
  match t with
  | TShort => st_ret TShort
  | t => end_of_turn i ;;; st_ret t
  end.

(** A connection before its first packet ([connect_stream]). *)
Definition CConn_new (w : W) (key : OK) (handler : H) : CConn H :=
  mkCConn
    (mkClient (mkServer (mkInbox ∅ ∅ ∅ []) w None false window_size ∅ ∅ handler [] [] [])
       (mkClientCtx (WaitingAuthServiceRequest false false) [] [] None [] w DecompressNone None [] ∅ [] [] true [] handler)
       [] CompressionNone CompressionNone [] [] [] [] false)
    Idle None key false false 0 true [] [].
End Operations.
End ClientReply.
