(* ===== verification/ClientConnection.v ===== *)
(** * What holds of every client connection

    The invariant of [ClientReply]: a client has keys only after an exchange of its
    own that ended as [Kex] says, with a host key that its application accepted. *)

From stdpp Require Import base list numbers option gmap strings.
From Stdlib Require Import ZArith Lia.
From S2P Require Import Supervisor CipherImpls KexRun AuthExchange ServerReply Forwarding.
From S2P Require Import Prelude Encoding Parsing LibInner Msg NameList PacketWriter Channels PendingInbound Cipher Compression Session.
From S2P Require Import Negotiation KexKeys Dh Kex ServerSession ServerFrames ChannelOpen ChannelRequests.
From S2P Require Import Auth ServerAuth ServerEncrypted ClientAuth ClientSession ClientFrames CommonSession ClientReply.

Section Connection.
Context {enc : SshEncoding} {SKY : SshKeys} {HKS : HostKeys} {UK : UserKeys}.
Context {Q : Mpsc} {QS : MpscSend Q} {F : Flate2}.
Context {K SK OK : Type} {KA : KexAlgorithmImplementor K SK OK} (KEXES : bytes -> option K).
Context {W : Type} {HW : PacketSink W} {KW : KeyedSink W SK}.
Context (kconfig : ClientConfig) (client_id remote_sshid : bytes) (limits : Limits) (anonymous : bool).
Context (keepalive_max : Z) (pending_bytes : W -> Z).
Context (config : Config) (window_size maximum_packet_size : Z).
Context {H E : Type} {HH : @Handler Q W H E} {AH : ClientAuthHandler W H E}.
Context {CH : @ClientHandler SKY HKS UK Q F W H E}.

Abbreviation Conn := (@CConn SKY HKS UK Q F K SK OK W H).
Abbreviation Cl := (@Client UK Q F W H).
Abbreviation ClientKex := (@ClientKex SKY HKS K SK OK).
Abbreviation Keys := (@NewKeys SKY K SK OK).
Implicit Types c : Conn.

(** ** What most code leaves alone *)
Definition client_has_keys c : Prop := is_Some (cc_encrypted c).

(** Requests on an authenticated session. *)
Definition same_client (s s' : Cl) : Prop :=
  s'.(cl_session_id) = s.(cl_session_id) /\ keeps_keys s.(core) s'.(core) /\
  s'.(ClientSession.auth).(c_state) = s.(ClientSession.auth).(c_state).

#[export] Instance same_client_frame : ClientFrame same_client keeps_keys.
Proof.
  split; try apply _; try done.
  split; [done|]. intros s1 s2 s3 (A1 & K1 & S1) (A2 & K2 & S2). unfold same_client, keeps_keys in *.
  rewrite A2, K2, S2. done.
Qed.

(** The key exchange, the session id and the answers about host keys stay, and the
    state of the authentication does unless there are keys. *)
Definition moves c c' : Prop :=
  c'.(cl).(cl_session_id) = c.(cl).(cl_session_id) /\ (client_has_keys c' <-> client_has_keys c) /\
  c'.(ckex) = c.(ckex) /\ c'.(cc_strict_kex) = c.(cc_strict_kex) /\ c'.(checked) = c.(checked) /\
  c'.(kex_done_signal) = c.(kex_done_signal) /\ (cc_state c' = cc_state c \/ client_has_keys c').

#[export] Instance moves_preorder : PreOrder moves.
Proof.
  split; [by repeat split; auto|].
  intros c1 c2 c3 (A1 & K1 & E1 & S1 & C1 & G1 & T1) (A2 & K2 & E2 & S2 & C2 & G2 & T2).
  split_and!; [congruence|by rewrite K2|congruence..|].
  destruct T2 as [T2|T2]; [|by right]. destruct T1 as [T1|T1]; [left; congruence|right; by apply K2].
Qed.

Class ConnHandlerFrame {NH : @ConnHandler SKY HKS UK Q F K SK OK W H E} : Prop := {
  on_kex_done_framed nk : framed moves (on_kex_done nk);
  check_server_key_framed k : framed moves (check_server_key k);
}.
Context {NH : @ConnHandler SKY HKS UK Q F K SK OK W H E} {NF : ConnHandlerFrame}.
Context {HF : HandlerFrame keeps_keys} {CF : ClientHandlerFrame same_client}.

(** The same of the part that [ClientSession] has. *)
Definition client_moves (s s' : Cl) : Prop :=
  s'.(cl_session_id) = s.(cl_session_id) /\ keeps_keys s.(core) s'.(core) /\
  (s'.(ClientSession.auth).(c_state) = s.(ClientSession.auth).(c_state) \/ is_Some s'.(core).(ServerSession.encrypted)).

#[local] Instance client_moves_preorder : PreOrder client_moves.
Proof.
  split; [by repeat split; auto|]. intros s1 s2 s3 (A1 & K1 & T1) (A2 & K2 & T2). unfold client_moves, keeps_keys in *.
  split_and!; [congruence|by rewrite K2|]. destruct T2 as [T2|T2]; [|by right].
  destruct T1 as [T1|T1]; [left; congruence|right; by apply K2].
Qed.

Lemma same_client_moves {X A} (m : st Cl X A) : framed same_client m -> framed client_moves m.
Proof. intros Hm s. destruct (Hm s) as (? & ? & ?). by split_and!; [| |left]. Qed.

Lemma on_cl_framed {X A} (m : st Cl X A) : framed client_moves m -> framed moves (on_cl m : st Conn X A).
Proof.
  intros Hm c. unfold on_cl. specialize (Hm (cl c)). destruct (m (cl c)) as [r s].
  destruct Hm as (Hi & Hk & Hs). by split_and!.
Qed.

Lemma on_cl_moves {X A} (m : st Cl X A) : framed same_client m -> framed moves (on_cl m : st Conn X A).
Proof. intros Hm. by apply on_cl_framed, same_client_moves. Qed.

(** Code of the authentication, which runs only with keys. *)
Lemma on_auth_moves {X A} e (m : st (ClientCtx W H) X A) (s : Cl) :
  s.(core).(ServerSession.encrypted) = Some e -> client_moves s (on_auth e m s).2.
Proof.
  intros He. unfold on_auth. destruct (m _) as [r a]. split_and!; [done| |right; by eexists].
  unfold keeps_keys. rewrite He. by split; intros _; eexists.
Qed.

Lemma on_cc_core_moves {X A} (m : st (@Server Q W H) X A) :
  framed keeps_keys m -> framed moves (on_cc_core m : st Conn X A).
Proof. intros Hm. apply on_cl_moves. by apply (on_core_framed same_client keeps_keys). Qed.

Lemma on_cc_sink_moves {A} (m : st W Error.error A) : framed moves (on_cc_sink m : st Conn _ A).
Proof. intros c. unfold on_cc_sink. destruct (m _). by split_and!; try done; left. Qed.

Lemma has_keys_cases c :
  {e | cc_encrypted c = Some e /\ client_has_keys c} + {cc_encrypted c = None /\ ~ client_has_keys c}.
Proof.
  unfold client_has_keys. destruct (cc_encrypted c) as [e|].
  - left. exists e. split; [done|by exists e].
  - right. split; [done|]. by intros [? ?].
Qed.

(** ** Code that keeps the invariant of the key exchange *)

(** The exchange in progress is one of this client: it began with its KEXINIT,
    for the session as it is. *)
Definition ours (cause : KexCause) (kx : ClientKex) : Prop :=
  exists ck (w w' : W) start,
    client_kexinit ck (ClientKex_new kconfig client_id remote_sshid cause) w = (Ok start, w') /\
    client_reach KEXES start kx.

(** [check_server_key] answered so, in some state of the application. *)
Definition vouched (host : Kex.PublicKey) : Prop := exists c c', check_server_key host c = (Ok true, c').

(** The keys come from a first exchange of this client, whose hash - the session
    id - a host key signed that the application accepted; or the peers agreed on
    no exchange at all. *)
Definition trusted c : Prop :=
  exists ck (w w' : W) start host (nk : Keys),
    client_kexinit ck (ClientKex_new kconfig client_id remote_sshid Initial) w = (Ok start, w') /\
    same_ids start nk.(nk_exchange) /\ negotiated start nk.(nk_exchange) nk.(nk_names) /\
    nk.(nk_session_id) = c.(cl).(cl_session_id) /\
    match host with
    | Some host => signed start host nk /\ (host, true) ∈ c.(checked) /\ vouched host
    | None => skip_exchange nk.(nk_kex) = true
    end.

Record sound c : Prop := mkSound {
  so_strict : c.(cc_strict_kex) = true -> client_has_keys c;
  so_kex : match c.(ckex) with
           | Idle => client_has_keys c
           | InProgress kx => ours (client_rekey_cause c) kx
           | Taken => False
           end;
  so_state : cc_state c = InitCompression -> client_has_keys c;
  so_trust : client_has_keys c -> trusted c;
  so_signal : client_has_keys c <-> c.(kex_done_signal) = false;
}.

(** Once there are keys, they and the session id stay. *)
Definition kept c c' : Prop :=
  client_has_keys c -> client_has_keys c' /\ c'.(cl).(cl_session_id) = c.(cl).(cl_session_id).
Definition goes_on c c' : Prop := sound c -> sound c' /\ kept c c'.

Lemma kept_trans c1 c2 c3 : kept c1 c2 -> kept c2 c3 -> kept c1 c3.
Proof.
  intros K1 K2 Hy. destruct (K1 Hy) as [Y1 E1]. destruct (K2 Y1) as [Y2 E2]. split; [done|congruence].
Qed.

#[export] Instance goes_on_preorder : PreOrder goes_on.
Proof.
  split; [by intros c Hc; split|]. intros c1 c2 c3 H1 H2 Hc. destruct (H1 Hc) as [Hc2 K1].
  destruct (H2 Hc2) as [Hc3 K2]. split; [done|by eapply kept_trans].
Qed.

Lemma moves_cause c c' : moves c c' -> client_rekey_cause c' = client_rekey_cause c.
Proof.
  intros (Hi & Hk & _ & Hs & _). unfold client_rekey_cause. rewrite Hi, Hs.
  destruct (has_keys_cases c) as [(e & -> & Hy)|[-> Hn]], (has_keys_cases c') as [(e' & -> & Hy')|[-> Hn']];
    try done; exfalso; by apply Hk in Hy || apply Hn, Hk.
Qed.

Lemma trusted_ext c c' :
  c'.(cl).(cl_session_id) = c.(cl).(cl_session_id) -> (forall a, a ∈ c.(checked) -> a ∈ c'.(checked)) ->
  trusted c -> trusted c'.
Proof.
  intros Hi Hc (ck & w & w' & start & host & nk & T1 & T2 & T3 & T4 & T5).
  exists ck, w, w', start, host, nk. rewrite Hi. split_and!; try done. destruct host; [|done].
  destruct T5 as (T5 & T6 & T7). split_and!; [done|by apply Hc|done].
Qed.

Lemma moves_goes_on c c' : moves c c' -> goes_on c c'.
Proof.
  intros Hm [H1 H2 H3 H4 H5]. pose proof (moves_cause _ _ Hm) as Hca. destruct Hm as (Hi & Hk & Hx & Hs & Hch & Hg & Ht).
  split; [split|].
  - rewrite Hs, Hk. exact H1.
  - rewrite Hx, Hca. destruct (ckex c); [by apply Hk|done|done].
  - destruct Ht as [->|Ht]; [rewrite Hk; exact H3|done].
  - intros Hy. apply (trusted_ext c); [done|by rewrite Hch|]. by apply H4, Hk.
  - by rewrite Hk, Hg.
  - intros Hy. split; [by apply Hk|done].
Qed.

Lemma moves_leads {X A} (m : st Conn X A) : framed moves m -> leads goes_on m.
Proof. apply framed_leads. intros s s'. apply moves_goes_on. Qed.

(** ** The key exchange *)
Abbreviation begin_rekey := (client_begin_rekey kconfig client_id remote_sshid (H := H)).
Abbreviation flush := (client_flush kconfig client_id remote_sshid limits (H := H)).

Lemma set_ckex_sound k c :
  (c.(cc_strict_kex) = true -> client_has_keys c) -> (cc_state c = InitCompression -> client_has_keys c) ->
  (client_has_keys c -> trusted c) -> (client_has_keys c <-> c.(kex_done_signal) = false) ->
  match k with
  | Idle => client_has_keys c
  | InProgress kx => ours (client_rekey_cause c) kx
  | Taken => False
  end -> sound (set_ckex k c).
Proof. by split. Qed.

Lemma client_begin_rekey_ok ck c c' : begin_rekey ck c = (Ok tt, c') ->
  (c.(cc_strict_kex) = true -> client_has_keys c) -> (cc_state c = InitCompression -> client_has_keys c) ->
  (client_has_keys c -> trusted c) -> (client_has_keys c <-> c.(kex_done_signal) = false) -> sound c' /\ kept c c'.
Proof.
  intros H1 Hst Hs Ht Hsg. unfold client_begin_rekey in H1.
  apply st_bind_ok in H1 as (kx & c1 & H2 & H1). injection H1 as <-.
  pose proof (framed_result _ _ _ _ _ (on_cc_sink_moves _) H2) as Hm.
  assert (Ho : ours (client_rekey_cause c1) kx).
  { rewrite (moves_cause _ _ Hm). unfold on_cc_sink in H2. destruct (client_kexinit _ _ _) as [r w] eqn:Hx.
    injection H2 as -> _. do 4 eexists. split; [exact Hx|constructor]. }
  destruct Hm as (Hi & Hk & _ & Hs1 & Hch & Hg & Hst1). split; [|intros Hy; split; [by apply Hk|done]].
  apply set_ckex_sound; [| | | |exact Ho].
  - rewrite Hs1, Hk. exact Hst.
  - destruct Hst1 as [->|?]; [rewrite Hk; exact Hs|done].
  - intros Hy. apply (trusted_ext c); [done|by rewrite Hch|]. by apply Ht, Hk.
  - by rewrite Hk, Hg.
Qed.

Lemma begin_rekey_leads ck : leads goes_on (begin_rekey ck).
Proof. intros c [] c' H1 [S1 S2 S3 S4 S5]. by eapply client_begin_rekey_ok. Qed.

Lemma set_encrypted_moves c w e e' : cc_encrypted c = Some e ->
  moves c (set_cc_core (set_writer w (ServerSession.set_encrypted (Some e') (cc_core c))) c).
Proof.
  intros He. assert (Hy : client_has_keys c) by by eexists. unfold moves. split_and!; try done; [|right; by eexists].
  split; [done|by eexists].
Qed.

(** [flush] goes on, and with an exchange in progress it only writes. *)
Lemma flush_cases now ck c r c' : flush now ck c = (r, c') ->
  moves c c' \/
  exists c1, moves c c1 /\ active c1.(ckex) = false /\ begin_rekey ck c1 = (r, c').
Proof.
  intros H1. unfold client_flush in H1. destruct (has_keys_cases c) as [(e & He & Hy)|[He Hn]]; rewrite He in H1.
  2: { injection H1 as _ <-. by left. }
  destruct (Session.flush _ _ _) as [x [w e']]. cbv zeta in H1.
  pose proof (set_encrypted_moves c w e e' He) as Hm. set (c1 := set_cc_core _ c) in *.
  destruct x as [wanted|x|]; [|injection H1 as _ <-; by left..].
  destruct (wanted && _) eqn:Ha; [|injection H1 as _ <-; by left].
  apply andb_true_iff in Ha as [_ Ha]. apply negb_true_iff in Ha. right. by exists c1.
Qed.

Lemma flush_leads now ck : leads goes_on (flush now ck).
Proof.
  intros c [] c' H1. apply flush_cases in H1 as [Hm|(c1 & Hm & _ & H1)]; [by apply moves_goes_on|].
  transitivity c1; [by apply moves_goes_on|by eapply begin_rekey_leads].
Qed.

Lemma cc_up_leads {A} (m : st Conn Error.error A) : leads goes_on m -> leads goes_on (cc_up m : st Conn E A).
Proof. apply leads_map_err. Qed.

(** *** Packets of the key exchange *)
Lemma client_kexinit_created ck (kx kx' : ClientKex) (w w' : W) :
  client_kexinit ck kx w = (Ok kx', w') -> kx'.(Kex.c_state) = kx.(Kex.c_state) /\ kx'.(c_cause) = kx.(c_cause).
Proof. unfold client_kexinit. intros H1. inv_st H1. by simplify_eq. Qed.

(** What an exchange of this client ends with. *)
Lemma ours_done cause kx rnd pkt host (nk : Keys) w w' :
  ours cause kx -> client_step KEXES rnd (Some pkt) kx w = (Ok (Done host nk), w') ->
  exists ck (w0 w1 : W) start,
    client_kexinit ck (ClientKex_new kconfig client_id remote_sshid cause) w0 = (Ok start, w1) /\
    same_ids start nk.(nk_exchange) /\ negotiated start nk.(nk_exchange) nk.(nk_names) /\
    match host with
    | Some host => signed start host nk
    | None => skip_exchange nk.(nk_kex) = true
    end.
Proof.
  intros (ck & w0 & w1 & start & Hs & Hr) Hd. exists ck, w0, w1, start. split; [done|].
  eapply client_authenticates; [|exact Hr|exact Hd]. by apply client_kexinit_created in Hs as [-> _].
Qed.

Lemma check_host_ok host c c' : (check_host host c : res E unit * Conn) = (Ok tt, c') ->
  exists c1, moves c c1 /\ (c' = c1 /\ host = None \/
    exists k, host = Some k /\ vouched k /\ c' = add_checked (k, true) c1).
Proof.
  unfold check_host. destruct host as [k|].
  - intros H1. apply st_bind_ok in H1 as (b & c1 & H2 & H1).
    pose proof (framed_result _ _ _ _ _ (check_server_key_framed k) H2) as Hm.
    apply st_bind_ok in H1 as ([] & c2 & H3 & H1). injection H3 as <-. destruct b; [|done].
    apply st_ret_ok in H1 as [_ ->]. exists c1. split; [done|]. right. exists k.
    split_and!; [done|by do 2 eexists|done].
  - intros H1. apply st_ret_ok in H1 as [_ ->]. exists c. split; [done|by left].
Qed.

Lemma on_cc_common_ok {A} (m : st (@Common F OK W) Error.error A) c a c' :
  on_cc_common m c = (Ok a, c') -> exists m', m (cc_common c) = (Ok a, m') /\ c' = set_cc_common m' c.
Proof. unfold on_cc_common. destruct (m (cc_common c)) as [r m']. intros [= -> <-]. by exists m'. Qed.

Lemma cc_up_ok {A} (m : st Conn Error.error A) c a c' : (cc_up m : st Conn E A) c = (Ok a, c') -> m c = (Ok a, c').
Proof. unfold cc_up, st_map_err. by destruct (m c) as [[| |] ?]; intros [= <- <-]. Qed.

(** What an exchange that ended came from. *)
Definition ended (cause : KexCause) (host : option Kex.PublicKey) (nk : Keys) : Prop :=
  exists ck (w0 w1 : W) start,
    client_kexinit ck (ClientKex_new kconfig client_id remote_sshid cause) w0 = (Ok start, w1) /\
    same_ids start nk.(nk_exchange) /\ negotiated start nk.(nk_exchange) nk.(nk_names) /\
    match host with
    | Some host => signed start host nk
    | None => skip_exchange nk.(nk_kex) = true
    end.

Lemma finish_rekey_same t (nk : Keys) (m m' : @Common F OK W) a :
  finish_rekey t nk m = (Ok a, m') -> is_Some m.(encrypted) ->
  is_Some m'.(encrypted) /\ m'.(CommonSession.session_id) = m.(CommonSession.session_id).
Proof.
  unfold finish_rekey, CommonSession.newkeys. intros H1 [e He]. rewrite He in H1. cbn in H1.
  destruct (flush_pending_list_with_writer _ _) as [r [w e']]. injection H1 as _ <-. cbn. by split; [eexists|].
Qed.

Lemma client_kex_done_ok i host nk c c' : client_kex_done anonymous i host nk c = (Ok tt, c') ->
  (client_has_keys c -> trusted c) -> (client_has_keys c <-> c.(kex_done_signal) = false) ->
  ended (client_rekey_cause c) host nk -> sound c' /\ kept c c'.
Proof.
  intros H1 Ht Hsg He. unfold client_kex_done in H1.
  apply st_bind_ok in H1 as ([] & c0 & H2 & H1). injection H2 as <-.
  apply st_bind_ok in H1 as ([] & c1 & H2 & H1).
  apply (framed_result _ _ _ _ _ (on_kex_done_framed nk)) in H2 as (Hi & Hk & _ & _ & Hch & Hg & _).
  cbn in Hi, Hch, Hg. change (client_has_keys (set_cc_strict _ c)) with (client_has_keys c) in Hk.
  apply st_bind_ok in H1 as ([] & c2 & H2 & H1). injection H1 as <-.
  destruct (has_keys_cases c1) as [(e & He1 & Hy)|[He1 Hn]]; rewrite He1 in H2.
  - apply cc_up_ok, on_cc_common_ok in H2 as (m' & Hm & ->). apply finish_rekey_same in Hm as [M1 M2]; [|done].
    cbn in M2. split; [|intros _; split; [exact M1|by cbn; rewrite M2]].
    apply set_ckex_sound; try (intros _; exact M1); [| |exact M1].
    + intros _. apply (trusted_ext c); [by cbn; rewrite M2|by cbn; rewrite Hch|]. by apply Ht, Hk.
    + split; intros _; [|exact M1]. cbn. rewrite Hg. by apply Hsg, Hk.
  - apply st_bind_ok in H2 as ([] & c3 & H3 & H2). apply check_host_ok in H3 as (c4 & Hm & Hc).
    apply st_bind_ok in H2 as ([] & c5 & H3 & H2). injection H2 as <-.
    apply cc_up_ok, on_cc_common_ok in H3 as (m' & [= <-] & ->).
    split; [|intros Hy; by apply Hk in Hy].
    apply set_ckex_sound; try (intros _; by eexists); [|split; intros _; [done|by eexists]|by eexists].
    intros _. destruct He as (ck & w0 & w1 & start & T1 & T2 & T3 & T4).
    exists ck, w0, w1, start, host, nk. split_and!; try done.
    + unfold client_rekey_cause in T1. destruct (has_keys_cases c) as [(e & _ & Hy)|[Hc0 _]]; [by apply Hk in Hy|].
      by rewrite Hc0 in T1.
    + destruct Hc as [[-> ->]|(k & -> & Hv & ->)]; [done|]. split_and!; [done| |done]. cbn. apply elem_of_app. right.
      by apply list_elem_of_singleton.
Qed.

Lemma reset_seqn_moves : framed moves (on_cc_common (st_mod CommonSession.reset_seqn) : st Conn _ _).
Proof. intros c. unfold moves. split_and!; try done. by left. Qed.

Abbreviation kex_packet := (client_kex_packet KEXES kconfig client_id remote_sshid limits anonymous (E := E)).

Lemma client_kex_packet_ok i pkt kx c n c' : kex_packet i pkt kx (set_ckex Taken c) = (Ok n, c') ->
  sound c -> c.(ckex) = InProgress kx -> sound c' /\ kept c c'.
Proof.
  intros H1 [S1 S2 S3 S4 S5] Hx. rewrite Hx in S2. unfold client_kex_packet in H1.
  apply st_bind_ok in H1 as (progress & c1 & H2 & H1). apply cc_up_ok in H2.
  pose proof (framed_result _ _ _ _ _ (on_cc_sink_moves _) H2) as Hm.
  apply st_bind_ok in H1 as (seqn & c2 & H3 & H1). apply st_bind_ok in H1 as ([] & c3 & H4 & H1).
  apply st_ret_ok in H1 as [-> ->]. apply cc_up_ok in H4.
  assert (Hstep : client_step KEXES (rnd i) (Some pkt) kx (cc_core c).(writer) = (Ok progress, (cc_core c1).(writer))).
  { unfold on_cc_sink in H2. change (writer (cc_core (set_ckex Taken c))) with (writer (cc_core c)) in H2.
    destruct (client_step _ _ _ _ _) as [r w]. by simplify_eq. }
  pose proof (moves_cause _ _ Hm) as Hca. change (client_rekey_cause (set_ckex Taken c)) with (client_rekey_cause c) in Hca.
  destruct Hm as (Hi & Hk & _ & Hs & Hch & Hg0 & Hst). cbn in Hi, Hs, Hch, Hg0, Hst.
  change (client_has_keys (set_ckex Taken c)) with (client_has_keys c) in Hk.
  assert (Ht1 : client_has_keys c1 -> trusted c1).
  { intros Hy. apply (trusted_ext c); [done|by rewrite Hch|]. by apply S4, Hk. }
  change (kex_done_signal (set_ckex Taken c)) with (kex_done_signal c) in Hg0.
  assert (Hs1 : client_has_keys c1 <-> c1.(kex_done_signal) = false) by (by rewrite Hk, Hg0).
  enough (Hg : sound c2 /\ kept c c2).
  { destruct Hg as [G1 G2]. apply flush_leads in H4. destruct (H4 G1) as [G3 G4]. split; [done|].
    by eapply kept_trans. }
  destruct progress as [kx' b|host nk]; cbn [client_kex_progress] in H3.
  - apply st_bind_ok in H3 as ([] & c4 & H5 & H3). injection H5 as <-.
    apply st_bind_ok in H3 as ([] & c5 & H5 & H3). apply st_ret_ok in H3 as [_ ->].
    assert (Hs2 : moves (set_ckex (InProgress kx') c1) c5).
    { destruct b; [|by apply st_ret_ok in H5 as [_ ->]]. apply cc_up_ok in H5.
      by eapply framed_result; [apply reset_seqn_moves|]. }
    apply moves_goes_on in Hs2. destruct Hs2 as [G1 G2].
    + apply set_ckex_sound; [by rewrite Hs, Hk| |done|done|].
      * destruct Hst as [->|?]; [by rewrite Hk|done].
      * rewrite Hca. destruct S2 as (ck & w0 & w1 & start & T1 & T2). exists ck, w0, w1, start. split; [done|].
        by eapply client_steps.
    + split; [done|]. intros Hy. apply Hk in Hy. destruct (G2 Hy) as [G3 G4]. split; [done|]. rewrite G4. exact Hi.
  - apply st_bind_ok in H3 as ([] & c4 & H5 & H3). injection H3 as _ <-.
    apply client_kex_done_ok in H5 as [G1 G2]; [|done|done|].
    + split; [done|]. intros Hy. apply Hk in Hy. destruct (G2 Hy). split; [done|congruence].
    + rewrite Hca. by eapply ours_done.
Qed.

(** ** The other packets *)
Lemma process_moves sender buf :
  framed client_moves (client_process_packet config window_size maximum_packet_size sender buf (H := H) (E := E)).
Proof.
  intros s. unfold client_process_packet. destruct (ServerSession.encrypted (core s)) as [e|] eqn:He; [|done].
  unfold st_bind. pose proof (on_auth_moves e
    (read_unauthenticated (cl_session_id s) (cl_server_compression s) buf : st (ClientCtx W H) E bool) s He) as Hm.
  destruct (on_auth e _ s) as [[b| |] s1]; cbn [snd] in Hm; try exact Hm. etransitivity; [exact Hm|].
  destruct b, buf as [|m r]; try done. apply same_client_moves. by apply (authenticated_framed same_client keeps_keys).
Qed.

Abbreviation reply := (client_reply KEXES kconfig client_id remote_sshid limits anonymous config window_size
  maximum_packet_size (E := E)).

Lemma reply_leads i pkt : leads goes_on (reply i pkt).
Proof.
  intros c n c' H1 Hs. unfold client_reply in H1. destruct (map_err _ _); [|done..].
  destruct (match head _ with Some m => client_ignored m | None => false end).
  { injection H1 as _ <-. by split. }
  apply st_bind_ok in H1 as ([] & c1 & H2 & H1).
  assert (Hg : sound c1 /\ kept c c1).
  { destruct (_ && _); [|apply st_ret_ok in H2 as [_ ->]; by split].
    apply cc_up_ok, begin_rekey_leads in H2. by apply H2. }
  destruct Hg as [G1 G2]. enough (Hg : sound c' /\ kept c1 c').
  { destruct Hg as [G3 G4]. split; [done|]. by eapply kept_trans. }
  destruct (match head _ with Some m => is_kex_msg m | None => false end); [destruct (ckex c1) as [|kx|] eqn:Hk; cbn in H1|].
  all: try (apply st_bind_ok in H1 as ([] & c2 & H3 & H1); apply st_ret_ok in H1 as [_ ->];
    refine (moves_goes_on _ _ (framed_result _ _ _ _ _ (on_cl_framed _ (process_moves _ _)) H3) G1)).
  by eapply client_kex_packet_ok.
Qed.

(** ** The messages of the application *)
Lemma on_replies_moves m : framed moves (on_replies m : st Conn _ _).
Proof.
  intros c. unfold on_replies. destruct (has_keys_cases c) as [(e & -> & _)|[-> _]].
  - by apply on_cl_moves, (on_copen_framed same_client keeps_keys).
  - unfold moves. split_and!; try done. by left.
Qed.

Lemma on_cc_common_steady (m : st (@Common F OK W) Error.error unit) :
  (forall x, let x' := (m x).2 in
    x'.(CommonSession.session_id) = x.(CommonSession.session_id) /\ x'.(strict_kex) = x.(strict_kex) /\
    x'.(CommonSession.state) = x.(CommonSession.state) /\ (is_Some x'.(encrypted) <-> is_Some x.(encrypted))) ->
  framed moves (on_cc_common m : st Conn _ _).
Proof.
  intros Hm c. unfold on_cc_common. specialize (Hm (cc_common c)). destruct (m (cc_common c)) as [r x].
  destruct Hm as (M1 & M2 & M3 & M4). unfold moves. split_and!; try done. by left.
Qed.

Lemma disconnect_moves r d l : framed moves (on_cc_common (disconnect r d l) : st Conn _ _).
Proof.
  apply on_cc_common_steady. intros x. unfold disconnect, push_early. destruct (negb _); [|done].
  cbn [encrypted set_disconnected]. destruct (encrypted x); [destruct (on_write _ _)|destruct (sink_buffer _ _)]; by split_and!.
Qed.

Lemma authenticate_moves user m : framed moves (handle_authenticate user m : st Conn _ _).
Proof.
  intros c. unfold handle_authenticate. destruct (has_keys_cases c) as [(e & He & _)|[-> _]].
  - rewrite He. unfold st_bind. set (m0 := write_auth_request_if_needed user m).
    assert (Hm : moves c (on_cl (on_auth e m0) c).2).
    { unfold on_cl. pose proof (on_auth_moves e m0 (cl c) He) as Hm. destruct (on_auth e m0 (cl c)) as [r s].
      destruct Hm as (Hi & Hk & Hs). by split_and!. }
    destruct (on_cl _ c) as [[]]; exact Hm.
  - unfold moves. split_and!; try done. by left.
Qed.

Lemma await_moves n r : framed moves (handle_await_extension n r : st Conn _ _).
Proof.
  intros c. unfold handle_await_extension. destruct (cc_encrypted c); [|done]. destruct (_ && _); [|done].
  unfold moves. split_and!; try done. by left.
Qed.

Lemma initiate_rekey_leads now ck :
  leads goes_on (initiate_rekey kconfig client_id remote_sshid limits now ck : st Conn _ _).
Proof.
  intros c [] c' H1. unfold initiate_rekey in H1. destruct (has_keys_cases c) as [(e & He & Hy)|[He _]]; rewrite He in H1.
  2: by injection H1 as <-.
  transitivity (set_cc_core (ServerSession.set_encrypted (Some (set_rekey_wanted true e)) (cc_core c)) c).
  - apply moves_goes_on. unfold moves. split_and!; try done; [|by left]. split; [done|]. by eexists.
  - by eapply flush_leads.
Qed.

Lemma ignore_moves (m : st Conn Error.error unit) : framed moves m -> framed moves (ignore_result m).
Proof. intros Hm c. unfold ignore_result. specialize (Hm c). by destruct (m c) as [[]]. Qed.

Lemma on_core_core {X A} (m : st (@Server Q W H) X A) : framed keeps_keys m -> leads goes_on (on_cc_core m : st Conn X A).
Proof. intros Hm. by apply moves_leads, on_cc_core_moves. Qed.

#[local] Hint Resolve cl_channel_open_framed forward_request_framed own_request_framed : framed.

Abbreviation handle := (handle_msg kconfig client_id remote_sshid limits config window_size maximum_packet_size (H := H)).

Lemma handle_leads i m : leads goes_on (handle i m).
Proof.
  unfold handle_msg. apply leads_bind; [apply _|apply moves_leads, on_replies_moves|]. intros _.
  destruct m; try (apply leads_ret; apply _).
  all: try (apply moves_leads, authenticate_moves).
  all: try (apply moves_leads, disconnect_moves).
  all: try (apply moves_leads, await_moves).
  all: try apply initiate_rekey_leads.
  all: try apply leads_panic.
  all: try (apply moves_leads, ignore_moves, on_cl_moves, (own_request_framed same_client keeps_keys)).
  all: try (apply moves_leads, on_cl_moves, (forward_request_framed same_client keeps_keys)).
  all: try (apply moves_leads, on_cl_moves, (cl_channel_open_framed same_client keeps_keys)).
  all: try (apply on_core_core; first [apply session_data_framed | apply data_acked_framed | apply session_eof_framed
    | apply session_close_framed | apply on_encrypted_framed]; apply _).
  apply leads_mod. intros c. apply moves_goes_on. unfold moves. split_and!; try done. by left.
Qed.

Lemma drain_leads i n : forall q, leads goes_on (drain_messages kconfig client_id remote_sshid limits config
  window_size maximum_packet_size i n q : st Conn _ _).
Proof.
  induction n as [|n IH]; intros [|m q]; try (intros c x c' [= _ <-]; done).
  intros c x c' H1. cbn [drain_messages] in H1. destruct (negb _); [|by injection H1 as _ <-].
  revert H1. apply (leads_bind goes_on (handle i m) (fun _ => drain_messages kconfig client_id remote_sshid limits config
    window_size maximum_packet_size i n q)); [apply handle_leads|]. intros _. apply IH.
Qed.

Lemma batch_leads i q : leads goes_on (handle_batch kconfig client_id remote_sshid limits config
  window_size maximum_packet_size i q : st Conn _ _).
Proof.
  unfold handle_batch. destruct q; [apply leads_ret; apply _|].
  apply leads_bind; [apply _|apply handle_leads|]. intros _. apply drain_leads.
Qed.

(** ** Turns of the loop *)
Abbreviation arm := (arm KEXES kconfig client_id remote_sshid limits anonymous keepalive_max config window_size
  maximum_packet_size (E := E)).
Abbreviation iteration := (iteration KEXES kconfig client_id remote_sshid limits anonymous keepalive_max config
  window_size maximum_packet_size (E := E)).

Lemma state_moves c c' : c'.(cl).(cl_session_id) = c.(cl).(cl_session_id) -> cc_encrypted c' = cc_encrypted c ->
  c'.(ckex) = c.(ckex) -> c'.(cc_strict_kex) = c.(cc_strict_kex) -> c'.(checked) = c.(checked) ->
  c'.(kex_done_signal) = c.(kex_done_signal) -> cc_state c' = cc_state c -> moves c c'.
Proof. intros Hi He ? ? ? ? ?. unfold moves, client_has_keys. rewrite He. by split_and!; try left. Qed.

Lemma steady_leads {X} (f : Conn -> Conn) : (forall c, moves c (f c)) -> leads goes_on (st_mod f : st Conn X unit).
Proof. intros Hf. apply leads_mod. intros c. by apply moves_goes_on. Qed.

Lemma packet_arm_leads i b n : leads goes_on (packet_arm KEXES kconfig client_id remote_sshid limits anonymous config
  window_size maximum_packet_size i b n : st Conn E _).
Proof.
  unfold packet_arm. destruct (_ <? 5); [apply leads_ret; apply _|]. apply leads_bind; [apply _| |].
  { intros c p c' H1. apply moves_goes_on. unfold maybe_decompress in H1. cbv zeta in H1.
    change (encrypted (cc_common c)) with (cc_encrypted c) in H1.
    destruct (has_keys_cases c) as [(e & He & _)|[He _]]; rewrite He in H1; cbn [map_err] in H1.
    - destruct (Compression.decompress _ _) as [[out d]| |]; cbn [res_bind map_err] in H1; try done.
      injection H1 as _ <-. by apply state_moves.
    - injection H1 as _ <-. by apply state_moves. }
  intros [|m p]; [apply leads_ret; apply _|]. destruct (m =? _).
  - apply leads_bind; [apply _|apply steady_leads; intros c; by apply state_moves|]. intros _. apply leads_ret; apply _.
  - apply leads_bind; [apply _|apply steady_leads; intros c; by apply state_moves|]. intros _.
    apply leads_bind; [apply _|apply reply_leads|]. intros x. apply leads_ret; apply _.
Qed.

Lemma keepalive_leads : leads goes_on (keepalive_arm keepalive_max : st Conn E _).
Proof.
  intros c t c' H1. unfold keepalive_arm in H1. destruct (cc_encrypted c); [|by injection H1 as _ <-].
  destruct (cc_state c); try by injection H1 as _ <-. cbv zeta in H1.
  destruct (_ && _); [done|]. set (c1 := set_cc_alive _ c) in H1.
  transitivity c1; [apply moves_goes_on; by apply state_moves|]. revert H1. apply (leads_bind goes_on); [|intros _; apply leads_ret; apply _].
  apply cc_up_leads, moves_leads, on_cl_moves, (own_request_framed same_client keeps_keys).
Qed.

Lemma arm_leads i ev : leads goes_on (arm i ev).
Proof.
  destruct ev; cbn [ClientReply.arm]; [apply packet_arm_leads|..|apply leads_bind; [apply _|apply steady_leads; intros c; by apply state_moves|intros _; apply leads_ret; apply _]].
  - apply leads_bind; [apply _|apply on_core_core, client_pump_framed; apply _|]. intros _. apply leads_ret; apply _.
  - apply leads_bind; [apply _|apply steady_leads; intros c; by apply state_moves|]. intros _. apply leads_ret; apply _.
  - apply leads_bind; [apply _|apply cc_up_leads, moves_leads, on_replies_moves|]. intros _. apply leads_ret; apply _.
  - apply keepalive_leads.
  - apply leads_err.
  - apply leads_bind; [apply _|apply cc_up_leads, batch_leads|]. intros q'. apply leads_ret; apply _.
Qed.

(** After a turn that was not broken off, the authentication is not half done. *)
Definition settled c : Prop := cc_state c <> InitCompression.

Lemma init_compression_ok c : sound c -> sound (init_compression c) /\ kept c (init_compression c) /\ settled (init_compression c).
Proof.
  intros Hs. unfold init_compression, settled. destruct (has_keys_cases c) as [(e & He & Hy)|[He Hn]]; rewrite He.
  - destruct (cc_state c) eqn:Hst; try (split_and!; [done|by intros ?; split|by rewrite Hst]).
    match goal with |- sound ?c' /\ _ /\ _ =>
      assert (Hm : moves c c') by (unfold moves; split_and!; try done; right; exact Hy) end.
    apply moves_goes_on in Hm. destruct (Hm Hs) as [G1 G2]. split_and!; [exact G1|exact G2|done].
  - split_and!; [done|by intros ?; split|]. intros Hst. by apply Hn, (so_state _ Hs).
Qed.

Lemma end_of_turn_ok i c c' :
  end_of_turn kconfig client_id remote_sshid limits i c = (Ok tt, c') ->
  sound c -> sound c' /\ kept c c' /\ settled c'.
Proof.
  intros H1 Hs. unfold end_of_turn in H1. apply st_bind_ok in H1 as ([] & c1 & H2 & H1).
  apply cc_up_ok, flush_leads in H2. destruct (H2 Hs) as [G1 K1].
  apply st_bind_ok in H1 as ([] & c2 & H3 & H1). injection H3 as <-.
  assert (Hm : moves c1 (set_cc_core (release_outbound_acks (cc_core c1)) c1)).
  { pose proof (release_acks_framed keeps_keys (cc_core c1)) as Hr. unfold moves. split_and!; try done. by left. }
  destruct (moves_goes_on _ _ Hm G1) as [G2 K2]. set (c2 := set_cc_core _ c1) in *. clearbody c2.
  apply st_bind_ok in H1 as ([] & c3 & H3 & H1). injection H3 as <-.
  destruct (init_compression_ok c2 G2) as (G3 & K3 & S3). set (c3 := init_compression c2) in *. clearbody c3.
  injection H1 as <-. set (c4 := if cl_received_data (cl c3) then set_cc_alive 0 c3 else c3).
  assert (Hm4 : moves c3 c4) by (unfold c4; destruct (cl_received_data _); by apply state_moves).
  assert (S4 : settled c4) by (unfold settled, c4 in *; by destruct (cl_received_data _)).
  destruct (moves_goes_on _ _ Hm4 G3) as [G4 K4]. split_and!; [done| |done].
  eauto using kept_trans.
Qed.

Lemma broken_off i ev c c' : arm i ev c = (Ok TShort, c') -> cc_state c' = cc_state c.
Proof.
  intros H1. destruct ev; cbn [ClientReply.arm] in H1.
  - unfold packet_arm in H1. destruct (_ <? 5); [by apply st_ret_ok in H1 as [_ ->]|].
    apply st_bind_ok in H1 as (p & c1 & _ & H1). destruct p as [|m p]; [by apply st_ret_ok in H1 as [? _]|].
    destruct (m =? _); apply st_bind_ok in H1 as ([] & c2 & _ & H1); [by apply st_ret_ok in H1 as [? _]|].
    apply st_bind_ok in H1 as (n & c3 & _ & H1). by apply st_ret_ok in H1 as [? _].
  - apply st_bind_ok in H1 as (x & c1 & _ & H1). by apply st_ret_ok in H1 as [? _].
  - apply st_bind_ok in H1 as (x & c1 & _ & H1). by apply st_ret_ok in H1 as [? _].
  - apply st_bind_ok in H1 as (x & c1 & _ & H1). by apply st_ret_ok in H1 as [? _].
  - unfold keepalive_arm in H1. destruct (cc_encrypted c); [|done]. destruct (cc_state c); try done. cbv zeta in H1.
    destruct (_ && _); [done|]. apply st_bind_ok in H1 as (x & c1 & _ & H1). by apply st_ret_ok in H1 as [? _].
  - done.
  - apply st_bind_ok in H1 as (x & c1 & _ & H1). by apply st_ret_ok in H1 as [? _].
  - by injection H1 as <-.
Qed.

Lemma iteration_ok i ev c t c' : iteration i ev c = (Ok t, c') -> sound c -> settled c ->
  sound c' /\ kept c c' /\ settled c'.
Proof.
  intros H1 Hs Hst. unfold ClientReply.iteration in H1. apply st_bind_ok in H1 as ([] & c1 & H2 & H1). injection H2 as <-.
  assert (Hm : moves c (received false c)) by by apply state_moves.
  destruct (moves_goes_on _ _ Hm Hs) as [G1 K1]. apply st_bind_ok in H1 as (t1 & c2 & H2 & H1).
  pose proof (arm_leads i ev _ _ _ H2) as Hg. destruct (Hg G1) as [G2 K2].
  assert (K3 : kept c c2) by by eapply kept_trans.
  destruct t1; try (apply st_bind_ok in H1 as ([] & c3 & H3 & H1); apply st_ret_ok in H1 as [_ ->];
    apply end_of_turn_ok in H3 as (G3 & K4 & S3); [|done]; split_and!; [done| |done];
    by eapply kept_trans).
  apply st_ret_ok in H1 as [_ ->]. split_and!; [done..|]. unfold settled. by rewrite (broken_off _ _ _ _ H2).
Qed.

(** ** A connection, from its KEXINIT on *)
Definition client_started c : Prop :=
  exists w key h cookie, begin_rekey cookie (CConn_new window_size w key h) = (Ok tt, c).

Inductive client_turn c : Conn -> Prop :=
| turn_event i ev t c' : enabled pending_bytes ev c = true -> iteration i ev c = (Ok t, c') -> client_turn c c'.

Lemma started_ok c : client_started c -> sound c /\ settled c.
Proof.
  intros (w & key & h & ck & H1). pose proof H1 as H2. apply client_begin_rekey_ok in H2 as [H2 _]; [|done|done|by intros [? ?]|by split; [intros [? ?]|]].
  split; [done|]. unfold client_begin_rekey in H1. apply st_bind_ok in H1 as (kx & c1 & H3 & H1). injection H1 as <-.
  unfold on_cc_sink in H3. destruct (client_kexinit _ _ _). by injection H3 as _ <-.
Qed.

Lemma turns_ok c c' : rtc client_turn c c' -> sound c -> settled c -> sound c' /\ kept c c' /\ settled c'.
Proof.
  induction 1 as [c|c1 c2 c3 [i ev t c4 _ H1] _ IH]; intros Hs Hst; [by split_and!|].
  apply iteration_ok in H1 as (G1 & K1 & S1); [|done..]. destruct (IH G1 S1) as (G2 & K2 & S2). split_and!; [done| |done].
  by eapply kept_trans.
Qed.

(** C3. A client knows whom it talks to: whatever the server sends and the
    application does, once a connection has keys its session id is the exchange
    hash of the first exchange, over the client's own identification and KEXINIT
    and with the algorithms that they negotiate, and a host key that the
    application accepted in [check_server_key] signed it - unless the peers agreed
    on the method without an exchange. *)
Theorem client_knows_server c0 c : client_started c0 -> rtc client_turn c0 c -> client_has_keys c -> trusted c.
Proof.
  intros H0 Hs Hk. apply started_ok in H0 as [H1 H2]. apply turns_ok in Hs as (Hc & _ & _); [|done..].
  by apply (so_trust _ Hc).
Qed.

(** C14. The state of a client is well formed between any two turns of its loop: no
    exchange is left taken out of its place; without keys the first exchange is
    in progress, it is this client's own, and [strict_kex] is not yet set; and the
    authentication is never seen half done, which is the state for which the
    handling of packets has [unreachable!()]. *)
Theorem client_state_well_formed c0 c : client_started c0 -> rtc client_turn c0 c ->
  cc_state c <> InitCompression /\
  match c.(ckex) with
  | Idle => client_has_keys c
  | InProgress kx => ours (client_rekey_cause c) kx
  | Taken => False
  end /\
  (~ client_has_keys c -> c.(cc_strict_kex) = false /\ active c.(ckex) = true).
Proof.
  intros H0 Hs. apply started_ok in H0 as [H1 H2]. apply turns_ok in Hs as (Hc & _ & Hst); [|done..].
  destruct Hc as [C1 C2 C3 C4 C5]. split_and!; [done|done|]. intros Hn. split.
  - destruct (cc_strict_kex c); [|done]. by destruct (Hn (C1 eq_refl)).
  - by destruct (ckex c).
Qed.

(** Once a client has keys, no packet, no re-exchange and nothing that its
    application does takes them away or changes the session id. *)
Theorem client_session_fixed c0 c c' : client_started c0 -> rtc client_turn c0 c -> rtc client_turn c c' ->
  client_has_keys c -> client_has_keys c' /\ c'.(cl).(cl_session_id) = c.(cl).(cl_session_id).
Proof.
  intros H0 Hs Hs' Hk. apply started_ok in H0 as [H1 H2]. apply turns_ok in Hs as (Hc & _ & Hst); [|done..].
  apply turns_ok in Hs' as (_ & Hkept & _); [|done..]. by apply Hkept.
Qed.
End Connection.

Module Example.
#[local] Existing Instance rfc4251.
#[local] Existing Instance Negotiation.Example.keys.
#[local] Existing Instance Negotiation.Example.encodable_dec.
#[local] Existing Instance KexRun.Example.host_keys.
#[local] Existing Instance KexRun.Example.dh_kex.
#[local] Existing Instance Auth.Example.keys.
#[local] Existing Instance Bounded.mpsc.
#[local] Existing Instance Doubling.flate2.
#[local] Existing Instance ServerEncrypted.Example.bounded_send.
#[local] Existing Instance ServerEncrypted.Example.handler.
#[local] Existing Instance AuthExchange.Example.client.
#[local] Existing Instance Forwarding.Example.client_handler.
#[local] Existing Instance ServerReply.Example.log_keys.
#[local] Existing Instance packet_log.

Abbreviation key := CipherImpls.Example.key.
Abbreviation Conn := (@CConn _ KexRun.Example.host_keys _ Bounded.mpsc _ Dh.DhGroupKex key key (list bytes) unit).

(** The application accepts the host key 1 only. *)
#[local] Instance conn_handler :
  @ConnHandler _ KexRun.Example.host_keys _ Bounded.mpsc _ Dh.DhGroupKex key key (list bytes) unit Error.error := {|
  on_kex_done _ := st_ret tt;
  check_server_key k := st_ret (k =? 1);
|}.
#[local] Instance conn_handler_frame : ConnHandlerFrame.
Proof. split; intros; apply framed_ret; apply _. Qed.
#[local] Instance handler_frame : HandlerFrame keeps_keys.
Proof. by split. Qed.
#[local] Instance client_handler_frame : ClientHandlerFrame same_client.
Proof. split; intros; apply framed_ret; apply _. Qed.

Definition input : Input := mkInput 1000 KexRun.Example.cookie KexRun.Example.cookie 6 7.
Abbreviation turn_of := (iteration KexRun.Example.KEXES KexRun.Example.cc (str "SSH-2.0-c") (str "SSH-2.0-s")
  ServerReply.Example.limits false 3 (mkConfig 100 100) 50 100 (H := unit) (E := Error.error)).
Abbreviation turn_step := (client_turn KexRun.Example.KEXES KexRun.Example.cc (str "SSH-2.0-c") (str "SSH-2.0-s")
  ServerReply.Example.limits false 3 zlen (mkConfig 100 100) 50 100 (H := unit) (E := Error.error)).

Definition begun := client_begin_rekey KexRun.Example.cc (str "SSH-2.0-c") (str "SSH-2.0-s") KexRun.Example.cookie
  (CConn_new 50 [] CipherImpls.Example.k0 tt : Conn).
Definition c0 : Conn := begun.2.
Lemma client_begun_ok : begun = (Ok tt, c0).
Proof. unfold c0. assert (H : begun.1 = Ok tt) by (vm_compute; reflexivity). by destruct begun as [r c], H. Qed.
Lemma client_c0_started : client_started KexRun.Example.cc (str "SSH-2.0-c") (str "SSH-2.0-s") 50 c0.
Proof. do 4 eexists. exact client_begun_ok. Qed.

(** A packet as it leaves the cipher, with its length and padding length. *)
Abbreviation Event := (@event Auth.Example.keys (list bytes)).
Definition packet (n : Z) (payload : bytes) : Event := EPacket (replicate 5 0 ++ payload) n.

Fixpoint run (evs : list Event) (c : Conn) : option Conn :=
  match evs with
  | [] => Some c
  | ev :: evs =>
      if enabled zlen ev c then match turn_of input ev c with (Ok _, c') => run evs c' | _ => None end else None
  end.
Lemma run_turns evs : forall c c', run evs c = Some c' -> rtc turn_step c c'.
Proof.
  induction evs as [|ev evs IH]; intros c c'; cbn [run]; [by intros [= <-]|].
  destruct (enabled zlen ev c) eqn:He; [|done]. destruct (turn_of input ev c) as [[t| |] c1] eqn:Ht; try done.
  intros Hr. eapply rtc_l; [by econstructor|by apply IH].
Qed.
Definition fine (o : option Conn) : bool := match o with Some _ => true | None => false end.
Lemma client_run_fine evs c : fine (run evs c) = true -> rtc turn_step c (default c (run evs c)).
Proof. intros Hf. apply (run_turns evs). by destruct (run evs c). Qed.

(** The server's side of the exchange of [KexRun], and a login. *)
Definition exchange_events : list Event :=
  [packet 1 KexRun.Example.s1.(s_exchange).(server_kex_init);
   packet 2 (default [] (head (drop 1 KexRun.Example.r_s3.2)));
   packet 3 [msg.NEWKEYS]].
Definition keyed : Conn := default c0 (run exchange_events c0).
Definition login_events : list Event :=
  [EMessages [MAuthenticate (str "alice") (MethodPassword (str "secret"))];
   packet 0 (msg.SERVICE_ACCEPT :: prefixed (str "ssh-userauth"));
   packet 1 [msg.USERAUTH_SUCCESS];
   EMessages [MChannelOpen ChannelType.Session 7; MRekey]].
Definition logged_in : Conn := default keyed (run login_events keyed).

Lemma client_keyed_run : rtc turn_step c0 keyed.
Proof. apply client_run_fine. vm_compute. reflexivity. Qed.
Lemma client_login_run : rtc turn_step keyed logged_in.
Proof. apply client_run_fine. vm_compute. reflexivity. Qed.
Lemma keyed_state : client_has_keys keyed /\ keyed.(checked) = [(1, true)].
Proof. split; vm_compute; [by eexists|reflexivity]. Qed.
Lemma logged_in_state : cc_state logged_in = Authenticated /\ active logged_in.(ckex) = true.
Proof. split; vm_compute; reflexivity. Qed.

Lemma client_knows_server_witness :
  trusted KexRun.Example.cc (str "SSH-2.0-c") (str "SSH-2.0-s") keyed.
Proof.
  eapply client_knows_server; [apply _..|exact client_c0_started|exact client_keyed_run|exact (proj1 keyed_state)].
Defined.

Lemma client_state_well_formed_witness :
  cc_state logged_in <> InitCompression /\
  match logged_in.(ckex) with
  | Idle => client_has_keys logged_in
  | InProgress kx => ours KexRun.Example.KEXES KexRun.Example.cc (str "SSH-2.0-c") (str "SSH-2.0-s") (W := list bytes)
      (client_rekey_cause logged_in) kx
  | Taken => False
  end /\
  (~ client_has_keys logged_in -> logged_in.(cc_strict_kex) = false /\ active logged_in.(ckex) = true).
Proof.
  eapply client_state_well_formed; [apply _..|exact client_c0_started|].
  etransitivity; [apply client_keyed_run|apply client_login_run].
Defined.

Lemma client_session_fixed_witness :
  client_has_keys logged_in /\ logged_in.(cl).(cl_session_id) = keyed.(cl).(cl_session_id).
Proof.
  eapply client_session_fixed; [apply _..|exact client_c0_started|exact client_keyed_run|exact client_login_run|exact (proj1 keyed_state)].
Defined.
End Example.
