(* ===== verification/ClientRun.v ===== *)
(** * The whole run of a client ([connect_stream], [Session::run] and [run_inner] of
    [russh/src/client/mod.rs])

    What the loop wakes up for, turn by turn, is a list; when the list ends the loop
    still waits.  [connect_stream] waits for the signal that the first key exchange
    gives, or for the end of the task that runs the session. *)

From stdpp Require Import base list numbers option gmap strings.
From Stdlib Require Import ZArith Lia.
From S2P Require Import Supervisor CipherImpls KexRun AuthExchange ServerReply Forwarding.
From S2P Require Import Prelude Encoding Parsing LibInner Msg NameList PacketWriter Channels PendingInbound Cipher Compression Session.
From S2P Require Import Negotiation KexKeys Dh Kex ServerSession ServerFrames ChannelOpen ChannelRequests.
From S2P Require Import Auth ServerAuth ServerEncrypted ClientAuth ClientSession ClientFrames CommonSession ClientReply ClientConnection.

(** What the application is told when a session ends. *)
Inductive DisconnectReason (E : Type) : Type :=
| ReceivedDisconnect (info : RemoteDisconnectInfo)
| SessionError (e : E).
Arguments ReceivedDisconnect {E} info.
Arguments SessionError {E} e.

Section ClientRun.
Context {enc : SshEncoding} {SKY : SshKeys} {HKS : HostKeys} {UK : UserKeys}.
Context {Q : Mpsc} {QS : MpscSend Q} {F : Flate2}.
Context {K SK OK : Type} {KA : KexAlgorithmImplementor K SK OK} (KEXES : bytes -> option K).
Context {W : Type} {HW : PacketSink W} {KW : KeyedSink W SK}.
Context (kconfig : ClientConfig) (client_id remote_sshid : bytes) (limits : Limits) (anonymous : bool).
Context (keepalive_max : Z) (pending_bytes : W -> Z).
Context (config : Config) (window_size maximum_packet_size : Z).
Context {H E : Type} {HH : @Handler Q W H E} {AH : ClientAuthHandler W H E}.
Context {CH : @ClientHandler SKY HKS UK Q F W H E}.

Abbreviation Conn := (@CConn SKY HKS UK Q F K SK OK W H).
Abbreviation ClientKex := (@ClientKex SKY HKS K SK OK).
Abbreviation Keys := (@NewKeys SKY K SK OK).
Abbreviation Event := (@event UK W).
Abbreviation M A := (st Conn E A).
Implicit Types c : Conn.

Context {NH : @ConnHandler SKY HKS UK Q F K SK OK W H E}.
(** [Handler::disconnected]. *)
Class RunHandler : Type := { handler_disconnected : DisconnectReason E -> M unit }.
Context {RH : RunHandler}.

Abbreviation begin_rekey := (client_begin_rekey kconfig client_id remote_sshid (H := H)).
Abbreviation flush := (client_flush kconfig client_id remote_sshid limits (H := H)).
Abbreviation iteration := (iteration KEXES kconfig client_id remote_sshid limits anonymous keepalive_max config
  window_size maximum_packet_size (E := E)).

(** Besides what [ClientReply] has, reading the next packet or writing can fail. *)
Inductive happening : Type :=
| Happens (i : Input) (ev : Event)
| ReadFails (x : Error.error)
| WriteFails (x : Error.error).

(** The result of the loop, if it has ended; an arm whose condition does not hold is
    not taken. *)
Fixpoint run_loop (result : res E RemoteDisconnectInfo) (script : list happening) c
  : option (res E RemoteDisconnectInfo) * Conn :=
  if c.(cc_disconnected) then (Some result, c)
  else
    match script with
    | [] => (None, c)
    | ReadFails x :: _ | WriteFails x :: _ => (Some (Err (from_error x)), received false c)
    | Happens i ev :: script =>
        if enabled pending_bytes ev c then
          match iteration i ev c with
          | (Ok TShort, c) => (Some result, c)
          | (Ok (TDisconnected info), c) => run_loop info script c
          | (Ok _, c) => run_loop result script c
          | (Err e, c) => (Some (Err e), c)
          | (Panic, c) => (Some Panic, c)
          end
        else run_loop result script c
    end.

(** [written]: what came of writing what there was before the loop. *)
Definition run_inner (i : Input) (written : res Error.error unit) (script : list happening) c
  : option (res E RemoteDisconnectInfo) * Conn :=
  match (cc_up (flush i.(now) i.(flush_cookie)) ;;; st_lift (map_err from_error written)) c with
  | (Ok _, c) => run_loop (Err (from_error Error.Disconnect)) script c
  | (Err e, c) => (Some (Err e), c)
  | (Panic, c) => (Some Panic, c)
  end.

(** The end of [run]; [closed] is what came of closing the socket. *)
Definition report (closed : res Error.error unit) (result : res E RemoteDisconnectInfo) : M unit :=
  match result with
  | Panic => st_panic
  | _ =>
      st_lift (map_err from_error closed) ;;;
      match result with
      | Ok v => handler_disconnected (ReceivedDisconnect v)
      | Err e => fun c =>
          if c.(kex_done_signal) then (Err e, c)
          else (handler_disconnected (SessionError e) ;;; st_err (from_error Error.Disconnect)) c
      | Panic => st_panic
      end
  end.

(** [greeted]: what came of writing the identification and reading that of the
    server.  [None]: the caller still waits. *)
Definition connect_stream (greeted : res Error.error unit) (w : W) (key : OK) (h : H) (cookie : bytes)
    (i : Input) (written : res Error.error unit) (script : list happening) (closed : res Error.error unit)
  : option (res E unit) :=
  match greeted with
  | Err x => Some (Err (from_error x))
  | Panic => Some Panic
  | Ok _ =>
      match begin_rekey cookie (CConn_new window_size w key h) with
      | (Err x, _) => Some (Err (from_error x))
      | (Panic, _) => Some Panic
      | (Ok _, c) =>
          let '(result, c) := run_inner i written script c in
          if negb c.(kex_done_signal) then Some (Ok tt)
          else
            match result with
            | None => None
            | Some result =>
                match (report closed result c).1 with
                | Ok _ => Some (Err (from_error Error.Disconnect))
                | Err e => Some (Err e)
                | Panic => Some (Err (from_error Error.Join))
                end
            end
      end
  end.

(** ** What holds also where a turn fails *)
Context {NF : ConnHandlerFrame (NH := NH)} {HF : HandlerFrame keeps_keys} {CF : ClientHandlerFrame same_client}.
Abbreviation sound := (sound KEXES kconfig client_id remote_sshid (W := W) (H := H) (E := E)).
Abbreviation trusted := (trusted kconfig client_id remote_sshid (W := W) (H := H) (E := E)).
Abbreviation leads_on := (leads (goes_on KEXES kconfig client_id remote_sshid (W := W) (H := H) (E := E))).

(** The signal was given when there were keys, and these come from an accepted host
    key. *)
Definition signalled c : Prop :=
  (client_has_keys c <-> c.(kex_done_signal) = false) /\ (client_has_keys c -> trusted c).
Definition stays c c' : Prop := signalled c -> signalled c'.

#[local] Instance stays_preorder : PreOrder stays.
Proof. split; [by intros c Hc|]. intros c1 c2 c3 H1 H2 Hc. by apply H2, H1. Qed.

Lemma sound_signalled c : sound c -> signalled c.
Proof. intros [? ? ? ? ?]. by split. Qed.

Lemma moves_stays c c' : moves c c' -> stays c c'.
Proof.
  intros (Hi & Hk & _ & _ & Hch & Hg & _) [G1 G2]. split; [by rewrite Hk, Hg|].
  intros Hy. apply (trusted_ext _ _ _ c); [done|by rewrite Hch|]. by apply G2, Hk.
Qed.
Lemma moves_framed {X A} (m : st Conn X A) : framed moves m -> framed stays m.
Proof. intros Hm c. apply moves_stays, Hm. Qed.
Lemma steady_framed {X} (f : Conn -> Conn) : (forall c, moves c (f c)) -> framed stays (st_mod f : st Conn X unit).
Proof. intros Hf c. apply moves_stays, Hf. Qed.

#[local] Hint Resolve moves_framed on_cc_sink_moves on_replies_moves authenticate_moves disconnect_moves await_moves
  ignore_moves : framed.

Lemma begin_rekey_stays ck : framed stays (begin_rekey ck).
Proof.
  intros c. unfold client_begin_rekey. generalize (client_rekey_cause c) as cause. intros cause.
  refine (framed_bind stays _ _ _ _ c); [auto with framed|]. intros kx c1 Hc. exact Hc.
Qed.

Lemma flush_stays now ck : framed stays (flush now ck).
Proof.
  intros c. destruct (flush now ck c) as [r c'] eqn:H1. apply flush_cases in H1 as [Hm|(c1 & Hm & _ & H1)].
  - by apply moves_stays.
  - transitivity c1; [by apply moves_stays|]. pose proof (begin_rekey_stays ck c1) as Hb. by rewrite H1 in Hb.
Qed.
Lemma initiate_stays now ck : framed stays (initiate_rekey kconfig client_id remote_sshid limits now ck : st Conn _ _).
Proof.
  intros c. unfold initiate_rekey. destruct (has_keys_cases c) as [(e & He & Hy)|[-> _]]; [rewrite He|done].
  etransitivity; [|apply flush_stays]. apply moves_stays. unfold moves. split_and!; try done; [|by left].
  split; [done|by eexists].
Qed.

Abbreviation handle := (handle_msg kconfig client_id remote_sshid limits config window_size maximum_packet_size (H := H)).
Lemma handle_stays i m : framed stays (handle i m).
Proof.
  unfold handle_msg. apply framed_bind; [apply _|auto with framed|]. intros _.
  destruct m; try (by intros c Hc); auto with framed.
  all: try (apply moves_framed, ignore_moves, on_cl_moves, (own_request_framed same_client keeps_keys)).
  all: try (apply moves_framed, on_cl_moves, (forward_request_framed same_client keeps_keys)).
  all: try (apply moves_framed, on_cl_moves, (cl_channel_open_framed same_client keeps_keys)).
  all: try apply initiate_stays.
  all: apply moves_framed, on_cc_core_moves; first [apply session_data_framed | apply data_acked_framed
    | apply session_eof_framed | apply session_close_framed | apply on_encrypted_framed]; apply _.
Qed.

Lemma drain_stays i n : forall q, framed stays (drain_messages kconfig client_id remote_sshid limits config
  window_size maximum_packet_size i n q : st Conn _ _).
Proof.
  induction n as [|n IH]; intros [|m q] c; try done. cbn [drain_messages]. destruct (negb _); [|done].
  revert c. apply framed_bind; [apply _|apply handle_stays|]. intros _. apply IH.
Qed.

Lemma batch_stays i q : framed stays (handle_batch kconfig client_id remote_sshid limits config
  window_size maximum_packet_size i q : st Conn _ _).
Proof.
  unfold handle_batch. destruct q; [by intros c|].
  apply framed_bind; [apply _|apply handle_stays|]. intros _. apply drain_stays.
Qed.

(** *** The key exchange, which needs more than that *)
Definition safe {X A} (m : st Conn X A) : Prop := forall c, sound c -> signalled (m c).2.

Lemma framed_safe {X A} (m : st Conn X A) : framed stays m -> safe m.
Proof. intros Hm c Hc. by apply Hm, sound_signalled. Qed.
Lemma safe_bind {X A B} (m : st Conn X A) (k : A -> st Conn X B) :
  leads_on m -> safe m -> (forall a, safe (k a)) -> safe (st_bind m k).
Proof.
  intros Hl Hm Hk c Hc. unfold st_bind. specialize (Hm c Hc). destruct (m c) as [[a| |] c1] eqn:H1; try done.
  apply Hk. by apply (Hl _ _ _ H1).
Qed.

Lemma check_host_stays host : framed stays (check_host host : st Conn E unit).
Proof.
  unfold check_host. destruct host as [k|]; [|by intros c].
  apply framed_bind; [apply _|apply moves_framed, check_server_key_framed|]. intros b.
  apply framed_bind; [apply _| |intros _; destruct b; intros c Hc; exact Hc].
  intros c [G1 G2]. split; [exact G1|]. intros Hy. apply (trusted_ext _ _ _ c); [done| |by apply G2].
  intros a Ha. apply elem_of_app. by left.
Qed.
Lemma client_finish_rekey_keeps t (nk : Keys) (m : @Common F OK W) : is_Some m.(encrypted) ->
  is_Some (finish_rekey t nk m).2.(encrypted) /\
  (finish_rekey t nk m).2.(CommonSession.session_id) = m.(CommonSession.session_id).
Proof.
  unfold finish_rekey, CommonSession.newkeys. intros [e He]. rewrite He. cbn.
  destruct (flush_pending_list_with_writer _ _) as [r [w e']]. cbn. by split; [eexists|].
Qed.

(** Code that leaves the signal and the keys in step at least where it fails. *)
Definition fails_safe {X A} (m : st Conn X A) : Prop := forall c, signalled c ->
  match m c with (Ok _, _) => True | (_, c') => signalled c' end.

Lemma framed_fails {X A} (m : st Conn X A) : framed stays m -> fails_safe m.
Proof. intros Hm c Hc. specialize (Hm c Hc). by destruct (m c) as [[]]. Qed.
Lemma fails_bind {X A B} (m : st Conn X A) (k : A -> st Conn X B) :
  framed stays m -> (forall a, fails_safe (k a)) -> fails_safe (st_bind m k).
Proof. intros Hm Hk c Hc. unfold st_bind. specialize (Hm c Hc). destruct (m c) as [[a| |] c1]; try done. by apply Hk. Qed.
Lemma fails_mod {X A} (m : st Conn X A) f : fails_safe m -> fails_safe (m ;;; st_mod f).
Proof. intros Hm c Hc. unfold st_bind. specialize (Hm c Hc). by destruct (m c) as [[a| |] c1]. Qed.

Lemma finish_stays t nk c : client_has_keys c -> stays c (cc_up (on_cc_common (finish_rekey t nk)) c : res E unit * Conn).2.
Proof.
  intros Hy [G1 G2]. pose proof (client_finish_rekey_keeps t nk (cc_common c) Hy) as [M1 M2].
  unfold cc_up, st_map_err, on_cc_common. destruct (finish_rekey _ _ _) as [r m]. cbn [snd] in *.
  split; [split; [intros _; by apply G1|intros _; exact M1]|]. intros _.
  apply (trusted_ext _ _ _ c); [exact M2|done|by apply G2].
Qed.

Lemma kex_done_fails i host nk : fails_safe (client_kex_done anonymous i host nk : st Conn E unit).
Proof.
  unfold client_kex_done. apply fails_bind; [intros c Hc; exact Hc|]. intros _.
  apply fails_bind; [apply moves_framed, on_kex_done_framed|]. intros _. apply fails_mod.
  intros c Hc. destruct (has_keys_cases c) as [(e & He1 & Hy)|[He1 Hn]]; rewrite He1.
  - pose proof (finish_stays (now i) nk c Hy Hc) as G. by destruct (cc_up _ c) as [[]].
  - revert c Hc He1 Hn. intros c Hc _ _. revert c Hc. apply fails_bind; [apply check_host_stays|]. intros _ c Hc. done.
Qed.

Lemma kex_done_signalled i host nk c : signalled c -> ended kconfig client_id remote_sshid (W := W) (client_rekey_cause c) host nk ->
  signalled (client_kex_done anonymous i host nk c : res E unit * Conn).2.
Proof.
  intros Hc He. pose proof (kex_done_fails i host nk c Hc) as Hf.
  destruct (client_kex_done anonymous i host nk c) as [[[]|x|] c'] eqn:H1; try exact Hf.
  destruct Hc as [G1 G2]. edestruct (client_kex_done_ok KEXES) as [G _]; [exact NF|exact H1|exact G2|exact G1|exact He|].
  exact (sound_signalled _ G).
Qed.
Abbreviation kex_packet := (client_kex_packet KEXES kconfig client_id remote_sshid limits anonymous (E := E)).
Lemma bind_signalled {X A B} (m : st Conn X A) (k : A -> st Conn X B) c :
  signalled (m c).2 -> (forall a, framed stays (k a)) -> signalled (st_bind m k c).2.
Proof. intros Hm Hk. unfold st_bind. destruct (m c) as [[a| |] c1]; try exact Hm. by apply Hk. Qed.

Lemma step_ended i pkt kx c host nk c1 : sound c -> c.(ckex) = InProgress kx ->
  (cc_up (on_cc_sink (client_step KEXES (rnd i) (Some pkt) kx)) : M _) (set_ckex Taken c) = (Ok (Done host nk), c1) ->
  ended kconfig client_id remote_sshid (W := W) (client_rekey_cause c1) host nk.
Proof.
  intros [_ S2 _ _ _] Hx H1. rewrite Hx in S2. apply cc_up_ok in H1.
  pose proof (framed_result _ _ _ _ _ (on_cc_sink_moves _) H1) as Hm.
  rewrite (moves_cause _ _ Hm). change (client_rekey_cause (set_ckex Taken c)) with (client_rekey_cause c).
  unfold on_cc_sink in H1. destruct (client_step KEXES _ _ _ _) as [r w] eqn:Hs. injection H1 as -> _.
  by eapply ours_done.
Qed.

Lemma kex_packet_safe i pkt kx c : sound c -> c.(ckex) = InProgress kx ->
  signalled (kex_packet i pkt kx (set_ckex Taken c)).2.
Proof.
  intros Hs Hx. assert (Hc : signalled (set_ckex Taken c)) by exact (sound_signalled _ Hs).
  unfold client_kex_packet. unfold st_bind at 1.
  pose proof (moves_framed _ (framed_map_err _ from_error _ (on_cc_sink_moves (client_step KEXES (rnd i) (Some pkt) kx)) : framed moves (cc_up _))
    (set_ckex Taken c) Hc) as G.
  destruct (cc_up _ (set_ckex Taken c)) as [[progress| |] c1] eqn:H1; try exact G. cbn [snd] in G.
  apply bind_signalled; [|intros n; apply framed_bind; [apply _|apply framed_map_err, flush_stays|intros _ c2 G2; exact G2]].
  destruct progress as [kx' b|host nk]; cbn [client_kex_progress].
  - revert c1 G H1. intros c1 G _. revert c1 G.
    change (framed stays (st_mod (set_ckex (InProgress kx')) ;;;
      (if b then cc_up (on_cc_common (st_mod CommonSession.reset_seqn)) else st_ret tt) ;;; st_ret (pkt_seqn pkt) : M Z)).
    apply framed_bind; [apply _|intros c1 G; exact G|]. intros _. apply framed_bind; [apply _| |intros _ c1 G; exact G].
    destruct b; [|intros c1 G; exact G]. apply framed_map_err, moves_framed, reset_seqn_moves.
  - apply bind_signalled; [|intros _ c2 G2; exact G2]. apply kex_done_signalled; [exact G|]. by eapply step_ended.
Qed.

(** *** A turn *)
Abbreviation reply := (client_reply KEXES kconfig client_id remote_sshid limits anonymous config window_size
  maximum_packet_size (E := E)).
Lemma reply_safe i pkt : safe (reply i pkt).
Proof.
  intros c Hs. pose proof (sound_signalled _ Hs) as Hc. unfold client_reply. destruct (map_err _ _); try exact Hc.
  destruct (match head _ with Some m => client_ignored m | None => false end); [exact Hc|].
  match goal with |- signalled (st_bind ?m ?k c).2 => apply (safe_bind m k); [| | |exact Hs] end.
  - destruct (_ && _); [apply leads_map_err, begin_rekey_leads|apply leads_ret; apply _].
  - apply framed_safe. destruct (_ && _); [apply framed_map_err, begin_rekey_stays|intros c1 G; exact G].
  - intros _ c1 Hs1.
    destruct (match head _ with Some m => is_kex_msg m | None => false end); [destruct (ckex c1) as [|kx|] eqn:Hk; cbn|].
    all: try by apply kex_packet_safe.
    all: apply bind_signalled; [|intros _ c2 G; exact G].
    all: apply (moves_framed _ (on_cl_framed _ (process_moves _ _ _ _ _))); by apply sound_signalled.
Qed.
#[local] Hint Extern 1 (framed stays (st_ret _)) => intros ? ?; assumption : framed.
#[local] Hint Extern 1 (framed stays (st_mod _)) => apply steady_framed; intros ?; by apply state_moves : framed.

Lemma packet_arm_safe i b n : safe (packet_arm KEXES kconfig client_id remote_sshid limits anonymous config
  window_size maximum_packet_size i b n : st Conn E _).
Proof.
  unfold packet_arm. destruct (_ <? 5); [by intros c Hc; apply sound_signalled|].
  match goal with |- safe (st_bind ?m _) => assert (Hm : framed moves m) end.
  { intros c. unfold maybe_decompress. cbv zeta. change (encrypted (cc_common c)) with (cc_encrypted c).
    destruct (has_keys_cases c) as [(e & He & _)|[He _]]; rewrite He; cbn [map_err]; [|by apply state_moves].
    destruct (Compression.decompress _ _) as [[out d]| |]; cbn [res_bind map_err]; try done. by apply state_moves. }
  apply safe_bind; [by apply moves_leads|by apply framed_safe, moves_framed|].
  intros [|m p]; [by intros c Hc; apply sound_signalled|]. destruct (m =? _).
  - apply framed_safe. auto with framed typeclass_instances.
  - apply safe_bind; [by apply steady_leads; intros c; apply state_moves|by apply framed_safe; auto with framed|]. intros _.
    intros c Hc. apply bind_signalled; [by apply reply_safe|]. auto with framed.
Qed.

Lemma keepalive_stays : framed stays (keepalive_arm keepalive_max : M _).
Proof.
  intros c. unfold keepalive_arm. destruct (cc_encrypted c); [|done]. destruct (cc_state c); try done. cbv zeta.
  transitivity (set_cc_alive (Z.min (cc_alive_timeouts c + 1) (2 ^ 64 - 1)) c); [by apply moves_stays, state_moves|].
  set (c1 := set_cc_alive _ c). clearbody c1. destruct (_ && _); [done|]. revert c1.
  apply framed_bind; [apply _| |auto with framed].
  apply framed_map_err, moves_framed, on_cl_moves, (own_request_framed same_client keeps_keys).
Qed.

Abbreviation arm := (arm KEXES kconfig client_id remote_sshid limits anonymous keepalive_max config window_size
  maximum_packet_size (E := E)).
Lemma arm_safe i ev : safe (arm i ev).
Proof.
  destruct ev; cbn [ClientReply.arm]; [apply packet_arm_safe|apply framed_safe..].
  - apply framed_bind; [apply _| |auto with framed]. apply moves_framed, on_cc_core_moves, client_pump_framed; apply _.
  - apply framed_bind; [apply _| |auto with framed]. auto with framed.
  - apply framed_bind; [apply _| |auto with framed]. apply framed_map_err. auto with framed.
  - apply keepalive_stays.
  - by intros c Hc.
  - apply framed_bind; [apply _| |intros q'; auto with framed]. apply framed_map_err, batch_stays.
  - apply framed_bind; [apply _|auto with framed|auto with framed].
Qed.

Lemma init_compression_stays c : stays c (init_compression c).
Proof.
  unfold init_compression. destruct (has_keys_cases c) as [(e & He & Hy)|[-> _]]; [rewrite He|done].
  destruct (cc_state c); try done. apply moves_stays. unfold moves. split_and!; try done. by right.
Qed.

Lemma end_of_turn_stays i : framed stays (end_of_turn kconfig client_id remote_sshid limits i : M unit).
Proof.
  unfold end_of_turn. apply framed_bind; [apply _|apply framed_map_err, flush_stays|]. intros _.
  apply framed_bind; [apply _| |intros _].
  { apply steady_framed. intros c. pose proof (release_acks_framed keeps_keys (cc_core c)) as Hr.
    unfold moves. split_and!; try done. by left. }
  apply framed_bind; [apply _|apply framed_mod, init_compression_stays|]. intros _.
  apply steady_framed. intros c. destruct (cl_received_data _); by apply state_moves.
Qed.

Lemma iteration_safe i ev : safe (iteration i ev).
Proof.
  unfold ClientReply.iteration. apply safe_bind; [by apply steady_leads; intros c; apply state_moves
    |apply framed_safe; auto with framed|]. intros _ c Hc. apply bind_signalled; [by apply arm_safe|].
  intros t. destruct t; auto with framed.
  all: apply framed_bind; [apply _|apply end_of_turn_stays|auto with framed].
Qed.
Lemma run_loop_signalled script : forall result c, sound c -> settled c -> signalled (run_loop result script c).2.
Proof.
  induction script as [|[i ev|x|x] script IH]; intros result c Hs Hst; pose proof (sound_signalled _ Hs) as Hc;
    cbn [run_loop]; destruct (cc_disconnected c); try exact Hc.
  destruct (enabled _ ev c); [|by apply IH]. pose proof (iteration_safe i ev c Hs) as G.
  destruct (iteration i ev c) as [[t| |] c1] eqn:H1; try exact G.
  eapply iteration_ok in H1 as (G1 & _ & G2); [|done|done..]. destruct t; try (by apply IH). exact G.
Qed.

Lemma run_inner_signalled i written script c : sound c -> settled c -> cc_encrypted c = None ->
  signalled (run_inner i written script c).2.
Proof.
  intros Hs Hst He. unfold run_inner, st_bind, cc_up, st_map_err, client_flush. rewrite He. cbn [map_err]. unfold st_lift.
  destruct (map_err from_error written) as [[]| |]; [by apply run_loop_signalled|by apply sound_signalled..].
Qed.

Lemma begin_rekey_fresh w key h cookie c : begin_rekey cookie (CConn_new window_size w key h) = (Ok tt, c) -> cc_encrypted c = None.
Proof.
  unfold client_begin_rekey. intros H1. apply st_bind_ok in H1 as (kx & c1 & H2 & H1). injection H1 as <-.
  unfold on_cc_sink in H2. destruct (client_kexinit _ _ _) as [r w']. by injection H2 as _ <-.
Qed.

(** C5. If the socket closes without an error: a connection is handed out exactly when it
    has keys, and these come from an
    exchange that a host key signed which the application accepted, unless the peers
    agreed on the method without an exchange ([trusted]).  An error is
    reported once: before that it is what [connect_stream] returns, as it is, and the
    application is not told; afterwards the application is told, and the task ends
    with what it answers, or with [Disconnect].  A disconnection by the server is
    always told to the application; before there are keys [connect_stream] returns
    [Disconnect].  If closing the socket fails, that error takes the
    place of the result, and the application is never told. *)
Theorem connection_handed_out w key h cookie c0 i written script closed result c :
  begin_rekey cookie (CConn_new window_size w key h) = (Ok tt, c0) ->
  run_inner i written script c0 = (result, c) ->
  let connected := connect_stream (Ok tt) w key h cookie i written script closed in
  (connected = Some (Ok tt) <-> client_has_keys c) /\
  (client_has_keys c -> trusted c) /\
  (connected = None <-> result = None /\ ~ client_has_keys c) /\
  forall r, result = Some r -> r <> Panic ->
    match closed, r with
    | Ok _, Err e =>
        (client_has_keys c ->
         report closed r c = (handler_disconnected (SessionError e) ;;; st_err (from_error Error.Disconnect)) c) /\
        (~ client_has_keys c -> connected = Some (Err e) /\ report closed r c = (Err e, c))
    | Ok _, Ok info =>
        report closed r c = handler_disconnected (ReceivedDisconnect info) c /\
        (~ client_has_keys c -> (report closed r c).1 = Ok tt -> connected = Some (Err (from_error Error.Disconnect)))
    | Err x, _ =>
        report closed r c = (Err (from_error x), c) /\
        (~ client_has_keys c -> connected = Some (Err (from_error x)))
    | _, _ => True
    end.
Proof.
  intros Hb Hr. assert (Hst : client_started kconfig client_id remote_sshid window_size (W := W) (H := H) c0) by (by exists w, key, h, cookie).
  assert (Hso : sound c0 /\ settled c0) by (by eapply started_ok). destruct Hso as [H1 H2].
  pose proof (run_inner_signalled i written script c0 H1 H2 (begin_rekey_fresh _ _ _ _ _ Hb)) as [G1 G2].
  rewrite Hr in G1, G2. cbn [snd] in G1, G2. unfold connect_stream. rewrite Hb, Hr. cbv zeta.
  assert (Hn : ~ client_has_keys c -> kex_done_signal c = true) by (rewrite G1; by destruct (kex_done_signal c)).
  destruct (has_keys_cases c) as [(e & _ & Hy)|[_ Hno]].
  - rewrite (proj1 G1 Hy). cbn [negb]. split_and!; [done|done|split; [done|by intros [_ ?]]|].
    intros r -> Hp. destruct closed as [[]|x|], r as [info|e'|]; try done; unfold report, st_bind, st_lift; cbn [map_err].
    rewrite (proj1 G1 Hy). split; [done|by intros []].
  - rewrite (Hn Hno). cbn [negb]. split_and!; [|done| |].
    + split; [|done]. destruct result as [r|]; [|done]. by destruct (report closed r c).1.
    + destruct result as [r|]; [|by split]. split; [by destruct (report closed r c).1|by intros [? _]].
    + intros r -> Hp. destruct closed as [[]|x|], r as [info|e'|]; try done; unfold report, st_bind, st_lift; cbn [map_err fst].
      * split; [done|]. by intros _ ->.
      * split; [done|]. rewrite (Hn Hno). by split.
Qed.
End ClientRun.

(** ** A concrete run *)
Module Example.
#[local] Existing Instance rfc4251.
#[local] Existing Instance Negotiation.Example.keys.
#[local] Existing Instance Negotiation.Example.encodable_dec.
#[local] Existing Instance KexRun.Example.host_keys.
#[local] Existing Instance KexRun.Example.dh_kex.
#[local] Existing Instance Auth.Example.keys.
#[local] Existing Instance Bounded.mpsc.
#[local] Existing Instance Doubling.flate2.
#[local] Existing Instance ServerEncrypted.Example.bounded_send.
#[local] Existing Instance ServerEncrypted.Example.handler.
#[local] Existing Instance AuthExchange.Example.client.
#[local] Existing Instance Forwarding.Example.client_handler.
#[local] Existing Instance ServerReply.Example.log_keys.
#[local] Existing Instance packet_log.
#[local] Existing Instance ClientConnection.Example.conn_handler.
#[local] Existing Instance ClientConnection.Example.conn_handler_frame.
#[local] Existing Instance ClientConnection.Example.handler_frame.
#[local] Existing Instance ClientConnection.Example.client_handler_frame.

Abbreviation key := CipherImpls.Example.key.
Abbreviation Conn := ClientConnection.Example.Conn.

(** The default of the trait. *)
#[local] Instance run_handler : @RunHandler _ KexRun.Example.host_keys _ Bounded.mpsc _ Dh.DhGroupKex key key (list bytes) unit Error.error := {|
  handler_disconnected reason :=
    match reason with ReceivedDisconnect _ => st_ret tt | SessionError e => st_err e end
|}.

Abbreviation happenings := (list (@happening Auth.Example.keys (list bytes))).
Definition exchange : happenings := map (Happens ClientConnection.Example.input) ClientConnection.Example.exchange_events.

Abbreviation inner := (run_inner KexRun.Example.KEXES KexRun.Example.cc (str "SSH-2.0-c") (str "SSH-2.0-s")
  ServerReply.Example.limits false 3 zlen (mkConfig 100 100) 50 100 (H := unit) (E := Error.error)
  ClientConnection.Example.input (Ok tt)).
Abbreviation connecting := (connect_stream KexRun.Example.KEXES KexRun.Example.cc (str "SSH-2.0-c") (str "SSH-2.0-s")
  ServerReply.Example.limits false 3 zlen (mkConfig 100 100) 50 100 (H := unit) (E := Error.error) (Ok tt)
  [] CipherImpls.Example.k0 tt KexRun.Example.cookie ClientConnection.Example.input (Ok tt)).

(** The socket fails in the middle of the exchange; the server goes away before it. *)
Example fails_early : connecting (firstn 1 exchange ++ [ReadFails Error.Disconnect]) (Ok tt) = Some (Err Error.Disconnect).
Proof. vm_compute. reflexivity. Qed.
Example still_waiting : connecting (firstn 1 exchange) (Ok tt) = None.
Proof. vm_compute. reflexivity. Qed.

Definition ended_run := inner (exchange ++ [ReadFails Error.Disconnect]) ClientConnection.Example.c0.
Lemma connection_handed_out_witness :
  connecting (exchange ++ [ReadFails Error.Disconnect]) (Ok tt) = Some (Ok tt) /\
  trusted KexRun.Example.cc (str "SSH-2.0-c") (str "SSH-2.0-s") ended_run.2 /\
  report (Ok tt) (Err Error.Disconnect) ended_run.2 =
    (handler_disconnected (SessionError Error.Disconnect) ;;; st_err Error.Disconnect) ended_run.2.
Proof.
  assert (Hk : client_has_keys ended_run.2) by (vm_compute; by eexists).
  destruct (connection_handed_out KexRun.Example.KEXES KexRun.Example.cc (str "SSH-2.0-c") (str "SSH-2.0-s")
    ServerReply.Example.limits false 3 zlen (mkConfig 100 100) 50 100 (H := unit) (E := Error.error)
    [] CipherImpls.Example.k0 tt KexRun.Example.cookie ClientConnection.Example.c0 ClientConnection.Example.input (Ok tt)
    (exchange ++ [ReadFails Error.Disconnect]) (Ok tt) ended_run.1 ended_run.2) as (H1 & H2 & _ & H4).
  - exact ClientConnection.Example.client_begun_ok.
  - unfold ended_run. by destruct (inner _ _).
  - split_and!; [by apply H1|by apply H2|].
    assert (Hr : ended_run.1 = Some (Err Error.Disconnect)) by (vm_compute; reflexivity).
    by apply (proj1 (H4 _ Hr ltac:(done))).
Defined.
End Example.
