(* ===== verification/SessionMethods.v ===== *)
(** * What a session offers to the callbacks of its application besides what the
    loop uses ([russh/src/server/session.rs], [russh/src/client/session.rs])

    The questions about a channel, and the methods that only pass on.  Three of
    the questions of the server are about the wrong direction, and its refusal of
    a channel names the wrong number. *)

From stdpp Require Import base list numbers option gmap strings.
From Stdlib Require Import ZArith Lia.
From S2P Require Import Prelude Encoding Parsing LibInner Msg Channels PendingInbound Cipher Compression Session.
From S2P Require Import Negotiation Dh Kex CommonSession ServerSession ServerFrames ChannelOpen ChannelRequests Auth ServerAuth ServerEncrypted.
From S2P Require Import ClientAuth ClientSession.

(** ** The server's *)
Module ServerMethods.
Section Server.
Context {enc : SshEncoding} {Q : Mpsc} {W : Type} {HW : PacketSink W} {H : Type}.
Context (config : Config).
Abbreviation Srv := (@Server Q W H).
Abbreviation M A := (st Srv Error.error A).
Implicit Types s : Srv.

(** [self.common.encrypted] and its channel, if they are there. *)
Definition channel_of (channel : Z) s : option ChannelParams :=
  match s.(encrypted) with Some e => e.(Session.channels) !! channel | None => None end.

Definition writable_packet_size (channel : Z) s : Z :=
  match channel_of channel s with
  | Some ch => Z.min ch.(sender_window_size) ch.(sender_maximum_packet_size)
  | None => 0
  end.
Definition window_size (channel : Z) s : Z :=
  match channel_of channel s with Some ch => ch.(sender_window_size) | None => 0 end.
Definition max_packet_size (channel : Z) s : Z :=
  match channel_of channel s with Some ch => ch.(sender_maximum_packet_size) | None => 0 end.
Definition session_sender_window_size (channel : Z) s : Z :=
  match s.(encrypted) with Some e => get_sender_window_size channel e | None => 0 end.
Definition session_has_pending_data (channel : Z) s : bool :=
  match s.(encrypted) with Some e => has_pending_data channel e | None => false end.

(** Into [enc.write], as for the callers that have no packet writer at hand. *)
Definition session_flush_pending (channel : Z) : M Z := fun s =>
  match s.(encrypted) with
  | Some e => let '(r, e') := Session.flush_pending channel e in (r, set_encrypted (Some e') s)
  | None => (Ok 0, s)
  end.

Definition open_failure_body (channel : Z) (reason : ChannelOpenFailure.failure) (description language : bytes)
  : Encoding.writer Error.error :=
  push_byte msg.CHANNEL_OPEN_FAILURE ;;;
  enc_w (encode_u32 channel) ;;;
  enc_w (encode_u32 (ChannelOpenFailure.code reason)) ;;;
  enc_w (encode_bytes description) ;;;
  enc_w (encode_bytes language).
Definition channel_open_failure (channel : Z) (reason : ChannelOpenFailure.failure) (description language : bytes) : M unit :=
  on_encrypted (on_write (push_packet (open_failure_body channel reason description language))).

Definition session_extended_data (channel extended : Z) (data : bytes) : M unit :=
  session_data config channel (Some extended) data.
End Server.
End ServerMethods.

(** ** The client's *)
Module ClientMethods.
Section Client.
Context {enc : SshEncoding} {SKY : SshKeys} {HKS : HostKeys} {UK : UserKeys}.
Context {Q : Mpsc} {F : Flate2} {W : Type} {HW : PacketSink W} {H : Type}.
Context (config : Config) (window_size maximum_packet_size : Z).
Abbreviation Client := (@ClientSession.Client UK Q F W H).
Abbreviation M A := (st Client Error.error A).
Implicit Types c : Client.

(** The number of the channel, which the caller registers. *)
Definition channel_open_generic (kind : bytes) (write_suffix : Encoding.writer Error.error) : M Z := fun c =>
  match c.(core).(encrypted) with
  | None => (Err Error.Inconsistent, c)
  | Some e =>
      match c.(ClientSession.auth).(c_state) with
      | Authenticated =>
          let '(r, e') := (do id <- new_channel window_size maximum_packet_size ;;
            on_write (push_packet (open_body kind id window_size maximum_packet_size write_suffix)) ;;;
            st_ret id) e in
          (r, set_core (set_encrypted (Some e') c.(core)) c)
      | _ => (Err Error.NotAuthenticated, c)
      end
  end.
Definition channel_open_session : M Z := channel_open_generic (str "session") (st_ret tt).
Definition channel_open_x11 (originator_address : bytes) (originator_port : Z) : M Z :=
  channel_open_generic (str "x11")
    (enc_w (encode_bytes originator_address) ;;; enc_w (encode_u32 originator_port)).
Definition channel_open_direct_tcpip (host_to_connect : bytes) (port_to_connect : Z) (originator_address : bytes)
    (originator_port : Z) : M Z :=
  channel_open_generic (str "direct-tcpip")
    (enc_w (encode_bytes host_to_connect) ;;; enc_w (encode_u32 port_to_connect) ;;;
     enc_w (encode_bytes originator_address) ;;; enc_w (encode_u32 originator_port)).
Definition channel_open_direct_streamlocal (socket_path : bytes) : M Z :=
  channel_open_generic (str "direct-streamlocal@openssh.com")
    (enc_w (encode_bytes socket_path) ;;; enc_w (encode_bytes []) ;;; enc_w (encode_u32 0)).

Definition data (channel : Z) (d : bytes) : M unit := on_core (session_data config channel None d).
Definition extended_data (channel ext : Z) (d : bytes) : M unit := on_core (session_data config channel (Some ext) d).
Definition eof (channel : Z) : M unit := on_core (session_eof channel).
Definition close (channel : Z) : M unit := on_core (session_close channel).
Definition client_sender_window_size (channel : Z) c : Z :=
  match c.(core).(encrypted) with Some e => get_sender_window_size channel e | None => 0 end.
Definition client_has_pending_data (channel : Z) c : bool :=
  match c.(core).(encrypted) with Some e => has_pending_data channel e | None => false end.

(** The message of the handle opens the channel that the method opens, and gives the
    number to the application's channel. *)
Definition register (sender id : Z) c : Client :=
  let x := c.(core).(inbox) in
  set_core (set_inbox (mkInbox (<[id := sender]> x.(PendingInbound.channels)) x.(buffers) x.(inbound)
    x.(needs_reserve)) c.(core)) c.

Lemma opened_and_registered t sender c :
  let '(kind, suffix) := channel_open t in
  cl_channel_open window_size maximum_packet_size t sender c =
  (do id <- channel_open_generic kind suffix ;; st_mod (register sender id)) c.
Proof.
  destruct (channel_open t) as [kind suffix] eqn:Ht. unfold cl_channel_open, channel_open_generic, st_bind.
  destruct (encrypted (core c)) as [e|]; [|done]. destruct (c_state _); try done.
  destruct (new_channel _ _ e) as [[id|x|] e1]; try done. rewrite Ht.
  by destruct (on_write _ e1) as [[[]|x|] e2].
Qed.

(** Each kind of channel has its method. *)
Lemma opened_by_method : forall t,
  match t with
  | ChannelType.Session => channel_open_session
  | ChannelType.X11 a p => channel_open_x11 a p
  | ChannelType.DirectTcpip i =>
      channel_open_direct_tcpip i.(host_to_connect) i.(port_to_connect) i.(originator_address) i.(originator_port)
  | ChannelType.DirectStreamLocal i => channel_open_direct_streamlocal i.(socket_path)
  | t => channel_open_generic (channel_open t).1 (channel_open t).2
  end = channel_open_generic (channel_open t).1 (channel_open t).2.
Proof. by destruct t. Qed.
End Client.
End ClientMethods.

(** ** Concrete sessions *)
Module Example.
#[local] Existing Instance rfc4251.
#[local] Existing Instance Bounded.mpsc.
#[local] Existing Instance packet_log.

(** The peer granted nothing yet, and takes 10 bytes at a time; this side granted 1000
    and takes 500 at a time. *)
Definition starved : ChannelParams := mkChannelParams 3 7 0 1000 10 500 true false [] false false.
Definition s : @Server Bounded.mpsc (list bytes) unit :=
  mkServer (mkInbox ∅ ∅ ∅ []) [] (Some (put_channel 7 starved (mkEncrypted ∅ 0 [] 0 0 false false))) false 50 ∅ ∅ tt [] [] [].

(** The questions about writing are answered with what this side granted to the peer:
    500 bytes are said to be writable, and none is sent. *)
Example writable_is_the_wrong_way :
  ServerMethods.writable_packet_size 7 s = 500 /\ ServerMethods.window_size 7 s = 1000 /\
  ServerMethods.max_packet_size 7 s = 500 /\
  let '(r, s') := session_data (mkConfig 2000 2000) 7 None (replicate 500 65) s in
  r = Ok tt /\ s'.(writer) = [] /\ ServerMethods.session_has_pending_data 7 s' = true.
Proof. vm_compute. by split_and!. Qed.

(** A refusal is for a channel of the number that the peer gave it (3 here); the method
    sends the number that it is given, which is this side's (7). *)
Example refusal_names_own_number :
  let '(r, s') := ServerMethods.channel_open_failure 7 ChannelOpenFailure.ConnectFailed [] [] s in
  r = Ok tt /\ option_map enc_write s'.(encrypted) = Some (frame (msg.CHANNEL_OPEN_FAILURE :: be32 7 ++ be32 2 ++ be32 0 ++ be32 0)).
Proof. vm_compute. by split. Qed.
End Example.
