(* ===== verification/Defaults.v ===== *)
(** * An application that overrides nothing (the default methods of the traits
    [Handler] of [russh/src/server/mod.rs] and [russh/src/client/mod.rs], and the
    defaults of their configurations)

    The callbacks are classes elsewhere; here are the instances that a handler gets
    when it leaves a method out.  They fail safe: a server whose application leaves
    the authentication to the defaults lets nobody in, a client whose application
    leaves the host key to them connects to nobody. *)

From stdpp Require Import base list numbers option gmap strings.
From Stdlib Require Import ZArith Lia.
From S2P Require Import Supervisor CipherImpls KexRun AuthExchange Forwarding.
From S2P Require Import Prelude Encoding Parsing LibInner Msg NameList PacketWriter PendingInbound Cipher Compression Session.
From S2P Require Import Negotiation KexKeys Dh Kex ServerSession ServerFrames ChannelOpen ChannelRequests Auth ServerAuth ServerEncrypted CommonSession.
From S2P Require Import ServerReply ServerLoop ServerRun ClientAuth ClientSession ClientFrames ClientReply ClientConnection ClientRun.

(** ** The server's *)
Module ServerDefaults.

(** [Config::default], times in seconds. *)
Definition config : Config := mkConfig (8 * 2000000) (8 * 2000000).
Definition methods : MethodSet := MethodSet.all.
Definition auth_rejection_time : Z := 1.
Definition auth_rejection_time_initial : option Z := None.
Definition window_size : Z := 2097152.
Definition maximum_packet_size : Z := 32768.
Definition inactivity_timeout : option Z := Some 600.
Definition keepalive_interval : option Z := None.
Definition keepalive_max : Z := 3.

Section Server.
Context {enc : SshEncoding} {UK : UserKeys} {Q : Mpsc} {QS : MpscSend Q} {F : Flate2} {W : Type} {HW : PacketSink W}.
Context {H E : Type} (from : Error.error -> E).
Abbreviation Sess := (@ServerEncrypted.Session UK Q F W H).
Abbreviation Srv := (@Server Q W H).

Definition auth_none (user : bytes) : st H E Auth := st_ret Auth_reject.
Definition auth_password (user password : bytes) : st H E Auth := st_ret Auth_reject.
Definition auth_publickey_offered (user : bytes) (public_key : PublicKey) : st H E Auth := st_ret Accept.
Definition auth_publickey (user : bytes) (public_key : PublicKey) : st H E Auth := st_ret Auth_reject.
Definition auth_openssh_certificate (user : bytes) (certificate : Certificate) : st H E Auth := st_ret Auth_reject.
Definition auth_keyboard_interactive (user submethods : bytes) (response : option (list (option bytes))) : st H E Auth :=
  st_ret Auth_reject.
Definition authentication_banner : st H E (option bytes) := st_ret None.
Definition auth_succeeded : st Sess E unit := st_ret tt.

Definition on_data (channel : Z) (d : bytes) : st Srv E unit := st_ret tt.
Definition on_extended_data (channel code : Z) (d : bytes) : st Srv E unit := st_ret tt.
Definition channel_eof (channel : Z) : st Srv E unit := st_ret tt.
Definition channel_close (channel : Z) : st Srv E unit := st_ret tt.
Definition channel_callback (channel : Z) (cb : DeferredCallback) : st Srv E unit :=
  match cb with
  | PendingInbound.Data d => on_data channel d
  | PendingInbound.ExtendedData code d => on_extended_data channel code d
  | PendingInbound.Eof => channel_eof channel
  | PendingInbound.Close => channel_close channel
  end.
(** The reply handle is dropped. *)
Definition channel_open (t : ChannelType.type) : ChannelOpen.action := Ignore.
Definition channel_open_confirmation (id max_packet_size window_size : Z) : st Sess E unit := st_ret tt.
Definition window_adjusted (channel new_size : Z) : st Srv E unit := st_ret tt.
Definition adjust_window (h : H) (channel current : Z) : Z * H := (current, h).
(** [pty_request] to [window_change_request], [signal] *)
Definition channel_request (channel : Z) (req : ChannelRequest) : st Sess E unit := st_ret tt.
Definition agent_request (channel : Z) : st Sess E bool := st_ret false.
Definition tcpip_forward (address : bytes) (port : Z) : st Sess E (bool * Z) := st_ret (false, port).
Definition cancel_tcpip_forward (address : bytes) (port : Z) : st Sess E bool := st_ret false.
Definition streamlocal_forward (socket_path : bytes) : st Sess E bool := st_ret false.
Definition cancel_streamlocal_forward (socket_path : bytes) : st Sess E bool := st_ret false.

Definition handler : @Handler Q W H E := {|
  callback := channel_callback;
  ServerSession.adjust_window := adjust_window;
  ServerSession.window_adjusted := window_adjusted;
  from_error := from
|}.
Definition auth_handler : AuthHandler H E := {|
  ServerAuth.authentication_banner := authentication_banner;
  ServerAuth.auth_none := auth_none;
  ServerAuth.auth_password := auth_password;
  ServerAuth.auth_publickey_offered := auth_publickey_offered;
  ServerAuth.auth_publickey := auth_publickey;
  ServerAuth.auth_openssh_certificate := auth_openssh_certificate;
  ServerAuth.auth_keyboard_interactive := auth_keyboard_interactive;
  auth_error := from
|}.
Definition request_handler : @RequestHandler UK Q F W H E := {|
  ServerEncrypted.auth_succeeded := auth_succeeded;
  ServerEncrypted.channel_request := channel_request;
  ServerEncrypted.agent_request := agent_request;
  ServerEncrypted.channel_open_confirmation := channel_open_confirmation;
  ServerEncrypted.tcpip_forward := tcpip_forward;
  ServerEncrypted.cancel_tcpip_forward := cancel_tcpip_forward;
  ServerEncrypted.streamlocal_forward := streamlocal_forward;
  ServerEncrypted.cancel_streamlocal_forward := cancel_streamlocal_forward;
  open_decision := channel_open
|}.

(** They do nothing to the session. *)
Lemma handler_framed (R : Srv -> Srv -> Prop) `{!PreOrder R} : HandlerFrame R (HH := handler).
Proof. split; intros; intros s; by try destruct cb. Qed.
Lemma request_handler_framed (R : Sess -> Sess -> Prop) `{!PreOrder R} : RequestHandlerFrame R (RH := request_handler).
Proof. by split; intros; intros s. Qed.

(** A channel that is asked for is refused, with one message. *)
Lemma default_open_refused (p : PendingChannelOpen) t : ChannelOpen.act (channel_open t) (OpenHandle.new p) =
  ([(p, inr ChannelOpenFailure.AdministrativelyProhibited)], []).
Proof. done. Qed.

Lemma default_authenticates_nobody sid u tr : ~ authenticated sid u tr (AH := auth_handler).
Proof.
  intros (pre & ev & _ & _ & Hj & Hg). destruct ev as [? a|? ? a|? ? a|? ? a|? ? a|? ? ? a|?]; try done;
    destruct Hg as (h & h' & [= <- <-]); done.
Qed.
End Server.
End ServerDefaults.

Section ServerRuns.
Context {enc : SshEncoding} {SKY : SshKeys} {HKS : HostKeys} {UK : UserKeys}.
Context {Q : Mpsc} {QS : MpscSend Q} {F : Flate2}.
Context {K SK OK : Type} {KA : KexAlgorithmImplementor K SK OK} (KEXES : bytes -> option K).
Context {W : Type} {HW : PacketSink W} {KW : KeyedSink W SK}.
Context (kconfig : ServerConfig) (remote_sshid server_id : bytes) (limits : LibInner.Limits) (rekey_timeout : Z).
Context (config : Config) (window_size maximum_packet_size : Z) (auth_methods : MethodSet).
Context (auth_rejection_time : Z) (auth_rejection_time_initial : option Z) (after_failure : bytes -> bytes).
Context (deadlines : Supervisor.Limits) (keepalive_max : Z) (keepalive_interval inactivity_timeout : option Z).
Context (pending_bytes drained_total : W -> Z).
(** Of the application only the authentication is the default. *)
Context {H E : Type} (from : Error.error -> E) {HH : @Handler Q W H E} {RH : @RequestHandler UK Q F W H E}.
Context {HF : HandlerFrame keeps_keys} {RF : RequestHandlerFrame same_session}.
#[local] Instance default_auth : AuthHandler H E := ServerDefaults.auth_handler from.

Abbreviation run := (run KEXES kconfig remote_sshid server_id limits rekey_timeout config window_size
  maximum_packet_size auth_methods auth_rejection_time auth_rejection_time_initial after_failure deadlines
  keepalive_max keepalive_interval inactivity_timeout pending_bytes drained_total (H := H) (E := E)).
Abbreviation run_stream := (run_stream kconfig remote_sshid server_id rekey_timeout window_size (K := K) (H := H) (E := E)).

(** C17. A server whose application leaves the authentication to the defaults lets nobody
    in: over the whole run of a session, whatever the client sends, the application
    queues and does in its other callbacks, and the socket does, the session never
    counts as authenticated, no callback has let a user in, and no session goes on
    after the deadline of the handshake. *)
Theorem default_server_lets_nobody_in w key h t cookie c0 i written script late ck describe r l :
  run_stream (Some (Ok tt)) (Some (Ok tt)) w key h t cookie = Ok c0 ->
  run i written script late ck describe c0 = (r, l) -> r = None \/ r = Some (Ok tt) ->
  match encrypted_of l.(conn) with
  | None => True
  | Some _ => l.(conn).(app).(ServerEncrypted.state) <> InitCompression /\
      l.(conn).(app).(ServerEncrypted.state) <> Authenticated
  end /\
  ungranted l.(conn).(app).(auth_trace) /\
  (r = None -> ~ Exists (after_deadline deadlines) script).
Proof.
  intros H0 H1 Hr.
  assert (Hst : started kconfig remote_sshid server_id rekey_timeout c0) by (by eapply run_stream_started).
  apply session_run_steps in H1 as (Hs & Hd & Ht); [|exact HF|done].
  assert (Hn : forall c, rtc (conn_step KEXES kconfig remote_sshid server_id limits rekey_timeout config window_size
    maximum_packet_size auth_methods auth_rejection_time auth_rejection_time_initial after_failure (H := H) (E := E)) c0 c ->
    match encrypted_of c with
    | None => c.(app).(auth_trace) = []
    | Some _ => (c.(app).(ServerEncrypted.state) <> InitCompression /\
      c.(app).(ServerEncrypted.state) <> Authenticated) /\ ungranted c.(app).(auth_trace)
    end).
  { intros c Hc. pose proof (steps_nobody_unasked _ _ _ _ _ _ _ _ _ _ _ _ _ _ _ Hst Hc) as Hu. unfold nobody_unasked in Hu.
    destruct (encrypted_of c); [|done]. destruct (ServerEncrypted.state (app c)); try done;
      by apply ServerDefaults.default_authenticates_nobody in Hu. }
  specialize (Hn _ Hs) as Hl. split_and!.
  - destruct (encrypted_of (conn l)); [apply Hl|done].
  - destruct (encrypted_of (conn l)); [apply Hl|]. rewrite Hl. by constructor.
  - intros Hrn He. destruct (Hd (Ht Hrn He)) as (c & S1 & _ & S3). specialize (Hn _ S1). cbn in S3.
    destruct (encrypted_of c); [|done].
    destruct Hn as [[N1 N2] _]. by destruct (ServerEncrypted.state (app c)).
Qed.
End ServerRuns.

(** ** The client's *)
Module ClientDefaults.

(** [Config::default] *)
Definition config : Config := mkConfig (8 * 2000000) (8 * 2000000).
Definition window_size : Z := 2097152.
Definition maximum_packet_size : Z := 32768.
Definition keepalive_max : Z := 3.
Definition anonymous : bool := false.

Section Client.
Context {SKY : SshKeys} {HKS : HostKeys} {UK : UserKeys} {Q : Mpsc} {F : Flate2}.
Context {K SK OK : Type} {W : Type} {HW : PacketSink W} {H E : Type} (from : Error.error -> E).
Abbreviation Client := (@ClientSession.Client UK Q F W H).
Abbreviation Conn := (@CConn SKY HKS UK Q F K SK OK W H).
Abbreviation Srv := (@Server Q W H).
Abbreviation Keys := (@NewKeys SKY K SK OK).

Definition auth_banner (banner : bytes) : st (ClientCtx W H) E unit := st_ret tt.
Definition check_server_key (server_public_key : Kex.PublicKey) : st Conn E bool := st_ret false.
Definition kex_done (keys : Keys) : st Conn E unit := st_ret tt.
Definition channel_open_confirmation (id max_packet_size window_size : Z) : st Client E unit := st_ret tt.
Definition channel_open_failure (channel : Z) (reason : ChannelOpenFailure.failure) (description language : bytes)
  : st Client E unit := st_ret tt.
(** [channel_success], [channel_failure] *)
Definition channel_reply (channel : Z) (success : bool) : st Client E unit := st_ret tt.
Definition on_data (channel : Z) (d : bytes) : st Srv E unit := st_ret tt.
Definition on_extended_data (channel code : Z) (d : bytes) : st Srv E unit := st_ret tt.
Definition channel_eof (channel : Z) : st Srv E unit := st_ret tt.
Definition channel_close (channel : Z) : st Srv E unit := st_ret tt.
Definition channel_callback (channel : Z) (cb : DeferredCallback) : st Srv E unit :=
  match cb with
  | PendingInbound.Data d => on_data channel d
  | PendingInbound.ExtendedData code d => on_extended_data channel code d
  | PendingInbound.Eof => channel_eof channel
  | PendingInbound.Close => channel_close channel
  end.
(** Whatever the server opens is accepted, except a type that is not known. *)
Definition server_channel_open (t : ChannelType.type) : ChannelOpen.action :=
  match t with ChannelType.Unknown _ => Ignore | _ => ChannelOpen.Accept end.
Definition should_accept_unknown_server_channel : bool := false.
(** [xon_xoff], [exit_status], [exit_signal] *)
Definition server_request (channel : Z) (req : ServerRequest) : st Client E unit := st_ret tt.
Definition window_adjusted (channel new_size : Z) : st Srv E unit := st_ret tt.
Definition adjust_window (h : H) (channel window : Z) : Z * H := (window, h).
Definition openssh_ext_host_keys_announced (keys : list Kex.PublicKey) : st Client E unit := st_ret tt.
Definition disconnected (reason : DisconnectReason E) : st Conn E unit :=
  match reason with ReceivedDisconnect _ => st_ret tt | SessionError e => st_err e end.

Definition handler : @Handler Q W H E := {|
  callback := channel_callback;
  ServerSession.adjust_window := adjust_window;
  ServerSession.window_adjusted := window_adjusted;
  from_error := from
|}.
Definition auth_handler : ClientAuthHandler W H E := {| ClientAuth.auth_banner := auth_banner; client_error := from |}.
Definition client_handler : @ClientHandler SKY HKS UK Q F W H E := {|
  cl_open_confirmation := channel_open_confirmation;
  cl_open_failure := channel_open_failure;
  cl_server_request := server_request;
  cl_channel_reply := channel_reply;
  ClientSession.openssh_ext_host_keys_announced := openssh_ext_host_keys_announced;
  cl_open_decision := server_channel_open;
  ClientSession.should_accept_unknown_server_channel := should_accept_unknown_server_channel
|}.
Definition conn_handler : @ConnHandler SKY HKS UK Q F K SK OK W H E := {|
  on_kex_done := kex_done;
  ClientReply.check_server_key := check_server_key
|}.
Definition run_handler : @RunHandler SKY HKS UK Q F K SK OK W H E := {| handler_disconnected := disconnected |}.

Lemma default_vouches_for_nobody host : ~ vouched host (NH := conn_handler).
Proof. by intros (c & c' & [=]). Qed.
End Client.
End ClientDefaults.

Section ClientRuns.
Context {enc : SshEncoding} {SKY : SshKeys} {HKS : HostKeys} {UK : UserKeys}.
Context {Q : Mpsc} {QS : MpscSend Q} {F : Flate2}.
Context {K SK OK : Type} {KA : KexAlgorithmImplementor K SK OK} (KEXES : bytes -> option K).
Context {W : Type} {HW : PacketSink W} {KW : KeyedSink W SK}.
Context (kconfig : ClientConfig) (client_id remote_sshid : bytes) (limits : Limits) (anonymous : bool).
Context (keepalive_max : Z) (pending_bytes : W -> Z).
Context (config : Config) (window_size maximum_packet_size : Z).
Context {H E : Type} {HH : @Handler Q W H E} {AH : ClientAuthHandler W H E}.
Context {CH : @ClientHandler SKY HKS UK Q F W H E} {RH : @RunHandler SKY HKS UK Q F K SK OK W H E}.
Context {HF : HandlerFrame keeps_keys} {CF : ClientHandlerFrame same_client}.
Abbreviation Conn := (@CConn SKY HKS UK Q F K SK OK W H).
#[local] Instance default_conn : @ConnHandler SKY HKS UK Q F K SK OK W H E := ClientDefaults.conn_handler.
#[local] Instance default_conn_frame : ConnHandlerFrame.
Proof. by split; intros; intros c. Qed.

(** A client whose application leaves the host key to the default connects to nobody,
    whatever the server sends and the application does otherwise: [connect_stream]
    never hands out a connection, unless the peers agreed on the method that has no
    exchange and so no host key. *)
Theorem default_client_connects_to_nobody w key h cookie c0 i written script closed :
  client_begin_rekey kconfig client_id remote_sshid cookie (CConn_new window_size w key h : Conn) = (Ok tt, c0) ->
  connect_stream KEXES kconfig client_id remote_sshid limits anonymous keepalive_max pending_bytes config window_size
    maximum_packet_size (H := H) (E := E) (Ok tt) w key h cookie i written script closed = Some (Ok tt) ->
  exists ck (w0 w1 : W) (start : @ClientKex SKY HKS K SK OK) (nk : @NewKeys SKY K SK OK),
    client_kexinit ck (ClientKex_new kconfig client_id remote_sshid Initial) w0 = (Ok start, w1) /\
    negotiated start nk.(nk_exchange) nk.(nk_names) /\ skip_exchange nk.(nk_kex) = true.
Proof.
  intros Hb Hc.
  assert (Hst : client_started kconfig client_id remote_sshid window_size (c0 : Conn)) by (by exists w, key, h, cookie).
  assert (Hso : ClientConnection.sound KEXES kconfig client_id remote_sshid (E := E) (c0 : Conn) /\ settled (c0 : Conn))
    by (by eapply started_ok). destruct Hso as [H1 H2].
  pose proof (begin_rekey_fresh _ _ _ _ _ _ _ _ _ Hb) as He.
  destruct (run_inner KEXES kconfig client_id remote_sshid limits anonymous keepalive_max pending_bytes config window_size
    maximum_packet_size (H := H) (E := E) i written script c0) as [result c] eqn:Hr.
  eapply run_inner_signalled in H1 as [G1 G2]; [|apply _|exact HF|exact CF|exact H2|exact He]. rewrite Hr in G1, G2. cbn [snd] in G1, G2.
  unfold connect_stream in Hc. rewrite Hb, Hr in Hc. destruct (kex_done_signal c) eqn:Hk; cbn [negb] in Hc.
  { destruct result as [r|]; [|done]. by destruct (report closed r c).1. }
  destruct (G2 (proj2 G1 eq_refl)) as (ck & w0 & w1 & start & host & nk & T1 & _ & T3 & _ & T5).
  exists ck, w0, w1, start, nk. split_and!; [done..|]. destruct host; [|done].
  destruct T5 as (_ & _ & Hv). by apply ClientDefaults.default_vouches_for_nobody in Hv.
Qed.
End ClientRuns.

(** ** A login that would succeed elsewhere *)
Module Example.
#[local] Existing Instance rfc4251.
#[local] Existing Instance Negotiation.Example.keys.
#[local] Existing Instance Negotiation.Example.encodable_dec.
#[local] Existing Instance KexRun.Example.host_keys.
#[local] Existing Instance KexRun.Example.dh_kex.
#[local] Existing Instance Auth.Example.keys.
#[local] Existing Instance Bounded.mpsc.
#[local] Existing Instance Doubling.flate2.
#[local] Existing Instance ServerEncrypted.Example.bounded_send.
#[local] Existing Instance ServerReply.Example.log_keys.
#[local] Existing Instance packet_log.
#[local] Instance server_handler : @Handler Bounded.mpsc (list bytes) unit Error.error := ServerDefaults.handler id.
#[local] Instance server_auth : AuthHandler unit Error.error := ServerDefaults.auth_handler id.
#[local] Instance server_requests : @RequestHandler Auth.Example.keys Bounded.mpsc Doubling.flate2 (list bytes) unit Error.error :=
  ServerDefaults.request_handler.
#[local] Instance server_frame : HandlerFrame keeps_keys := ServerDefaults.handler_framed id keeps_keys.
#[local] Instance requests_frame : RequestHandlerFrame same_session := ServerDefaults.request_handler_framed same_session.

Definition login := SessionExample.packets (ServerReply.Example.kex_packets ++ ServerReply.Example.login).
Abbreviation runs := (ServerRun.run KexRun.Example.KEXES KexRun.Example.sc (str "SSH-2.0-c") (str "SSH-2.0-s")
  ServerReply.Example.limits 60 ServerDefaults.config 50 100
  ServerDefaults.methods ServerDefaults.auth_rejection_time ServerDefaults.auth_rejection_time_initial (fun r => r)
  ServerLoop.Example.deadlines ServerDefaults.keepalive_max None None
  (fun _ => 0) (fun _ => 0) (H := unit) (E := Error.error) ServerReply.Example.input (Some (Ok tt)) login 4000
  KexRun.Example.cookie (fun _ => str "supervisor") ServerReply.Example.c0).

Lemma default_server_lets_nobody_in_witness :
  is_Some (encrypted_of (W := list bytes) runs.2.(conn)) /\
  runs.2.(conn).(app).(ServerEncrypted.state) <> InitCompression /\
  runs.2.(conn).(app).(ServerEncrypted.state) <> Authenticated /\
  ungranted runs.2.(conn).(app).(auth_trace).
Proof.
  assert (Hr : runs.1 = None) by (vm_compute; reflexivity).
  assert (He : is_Some (encrypted_of (W := list bytes) runs.2.(conn))) by (vm_compute; by eexists).
  split; [exact He|].
  destruct (default_server_lets_nobody_in KexRun.Example.KEXES KexRun.Example.sc (str "SSH-2.0-c") (str "SSH-2.0-s")
    ServerReply.Example.limits 60 ServerDefaults.config 50 100
    ServerDefaults.methods ServerDefaults.auth_rejection_time ServerDefaults.auth_rejection_time_initial (fun r => r)
    ServerLoop.Example.deadlines ServerDefaults.keepalive_max None None (fun _ => 0) (fun _ => 0) id
    [] CipherImpls.Example.k0 tt 0 KexRun.Example.cookie ServerReply.Example.c0 ServerReply.Example.input (Some (Ok tt)) login 4000
    KexRun.Example.cookie (fun _ => str "supervisor") runs.1 runs.2) as (H1 & H2 & _).
  - unfold run_stream. cbn [map_err res_bind]. pose proof ServerReply.Example.begun_ok as Hb. unfold ServerReply.Example.begun in Hb.
    by rewrite Hb.
  - by destruct runs.
  - by left.
  - destruct He as [e He]. rewrite He in H1. split_and!; [apply H1|apply H1|exact H2].
Defined.
End Example.
