(* ===== verification/Handles.v ===== *)
(** * The handles of a session ([Handle] of [client/mod.rs] and of
    [server/session.rs])

    A handle puts messages into the queue of its session and waits for what the
    session sends back over a channel made for the call.  What comes back is an
    argument of a call here; the theorems say what it is when both sessions and
    their applications have done their part. *)

From stdpp Require Import base list numbers option gmap strings.
From Stdlib Require Import ZArith Lia.
From S2P Require Import Prelude Encoding Parsing LibInner Msg Channels ChannelHandles PendingInbound Cipher Compression Session ChannelIds.
From S2P Require Import Negotiation Dh Kex CommonSession ServerSession ServerFrames ChannelOpen ChannelRequests Auth ServerAuth.
From S2P Require Import KexRun ServerEncrypted ClientAuth AuthExchange ServerReply ServerLoop ClientSession Forwarding ClientReply.

(** ** What both handles share *)

(** [alive]: the session still receives; [next] numbers the channels made for the
    calls. *)
Record Handle (Msg : Type) : Type := mkHandle { alive : bool; queued : list Msg; next : Z }.
#[global] Arguments mkHandle {Msg} _ _ _.
#[global] Arguments alive {Msg} _.
#[global] Arguments queued {Msg} _.
#[global] Arguments next {Msg} _.

Section Calls.
Context {Msg E : Type}.
Abbreviation HM A := (st (Handle Msg) E A).

Definition send (closed : E) (m : Msg) : HM unit := fun h =>
  if h.(alive) then (Ok tt, mkHandle true (h.(queued) ++ [m]) h.(next)) else (Err closed, h).
Definition new_channel_for_call : HM Z := fun h =>
  (Ok h.(next), mkHandle h.(alive) h.(queued) (h.(next) + 1)).

(** A call that gets a [oneshot] channel for its answer; [reply] is [None] when it is
    dropped. *)
Definition ask_for {A B} (closed dropped : E) (m : Z -> Msg) (reply : option A) (k : A -> res E B) : HM B :=
  do r <- new_channel_for_call ;;
  send closed (m r) ;;;
  match reply with
  | Some a => st_lift (k a)
  | None => st_err dropped
  end.
Definition granted (denied : E) (b : bool) : res E unit := if b then Ok tt else Err denied.
Definition granted_port (denied : E) (p : option Z) : res E Z := ok_or p denied.
End Calls.
#[global] Arguments send {Msg E} _ _ _ : assert.

(** Everything but the answer is passed over; the end of the list is that of the
    channel.  What is left of the queue can be read from the channel. *)
Fixpoint wait_channel_confirmation (session_alive : bool) (window_size_ref : WindowSizeRef) (msgs : list ChannelMsg)
  : res Error.error Channel :=
  match msgs with
  | [] => Err Error.Disconnect
  | ChannelMsg.Open id max_packet_size window_size :: rest =>
      Ok (mkChannel (mkReadHalf rest false)
        (mkWriteHalf id [] session_alive max_packet_size (update window_size window_size_ref)))
  | ChannelMsg.OpenFailure reason :: _ => Err (Error.ChannelOpenFailure reason)
  | _ :: rest => wait_channel_confirmation session_alive window_size_ref rest
  end.

(** [Channel::new]'s queue and a call that opens a channel: [received] is what comes
    over the queue. *)
Definition open_call {Msg} (m : Z -> Msg) (received : list ChannelMsg) : st (Handle Msg) Error.error Channel :=
  do channel_ref <- new_channel_for_call ;;
  send Error.SendError (m channel_ref) ;;;
  fun h => (wait_channel_confirmation h.(alive) (WindowSizeRef_new 0) received, h).

(** [send_acked]: the payload comes back when it was not handed over. *)
Definition send_acked {Msg} (m : Z -> Msg) (data : bytes) (acked : bool) : st (Handle Msg) bytes unit :=
  ask_for data [] m (if acked then Some tt else None) (fun _ => Ok tt).

(** ** The client's *)
Module ClientHandle.
Section Client.
Context {UK : UserKeys}.
Abbreviation CM A := (st (Handle ClientMsg) Error.error A).
Implicit Types received : list ChannelMsg.

Definition channel_open_session received : CM Channel := open_call (MChannelOpen ChannelType.Session) received.
Definition channel_open_x11 (originator_address : bytes) (originator_port : Z) received : CM Channel :=
  open_call (MChannelOpen (ChannelType.X11 originator_address originator_port)) received.
Definition channel_open_direct_tcpip (host_to_connect : bytes) (port_to_connect : Z) (originator_address : bytes)
    (originator_port : Z) received : CM Channel :=
  open_call (MChannelOpen (ChannelType.DirectTcpip
    (mkTcp host_to_connect port_to_connect originator_address originator_port))) received.
Definition channel_open_direct_streamlocal (socket_path : bytes) received : CM Channel :=
  open_call (MChannelOpen (ChannelType.DirectStreamLocal (mkStreamLocal socket_path))) received.

Definition tcpip_forward (address : bytes) (port : Z) (reply : option (option Z)) : CM Z :=
  ask_for Error.SendError Error.Disconnect (fun r => MTcpIpForward (Some r) address port) reply
    (granted_port Error.RequestDenied).
Definition cancel_tcpip_forward (address : bytes) (port : Z) (reply : option bool) : CM unit :=
  ask_for Error.SendError Error.Disconnect (fun r => MCancelTcpIpForward (Some r) address port) reply
    (granted Error.RequestDenied).
Definition streamlocal_forward (socket_path : bytes) (reply : option bool) : CM unit :=
  ask_for Error.SendError Error.Disconnect (fun r => MStreamLocalForward (Some r) socket_path) reply
    (granted Error.RequestDenied).
Definition cancel_streamlocal_forward (socket_path : bytes) (reply : option bool) : CM unit :=
  ask_for Error.SendError Error.Disconnect (fun r => MCancelStreamLocalForward (Some r) socket_path) reply
    (granted Error.RequestDenied).

Definition disconnect (reason : Disconnect.disconnect) (description language_tag : bytes) : CM unit :=
  send Error.SendError (MDisconnect reason description language_tag).
Definition data (id : Z) (d : bytes) (acked : bool) : st (Handle ClientMsg) bytes unit :=
  send_acked (MDataAcked id None d) d acked.
Definition extended_data (id ext : Z) (d : bytes) (acked : bool) : st (Handle ClientMsg) bytes unit :=
  send_acked (MDataAcked id (Some ext) d) d acked.
Definition rekey_soon : CM unit := send Error.SendError MRekey.
Definition send_keepalive (want_reply : bool) : CM unit := send Error.SendError (MKeepalive want_reply).
(** The answer, or its absence, makes no difference; nor does the second that
    [await_extension_info] waits. *)
Definition send_ping : CM unit :=
  do r <- new_channel_for_call ;; send Error.SendError (MPing r).
Definition no_more_sessions (want_reply : bool) : CM unit := send Error.SendError (MNoMoreSessions want_reply).
Definition await_extension_info (extension_name : bytes) : CM unit :=
  do r <- new_channel_for_call ;; send Error.SendError (MAwaitExtensionInfo extension_name r).
Definition best_supported_rsa_hash (reply : option (option (list Algorithm)))
    (contains : list Algorithm -> Algorithm -> bool) : CM (option (option HashAlg)) :=
  await_extension_info (str "server-sig-algs") ;;;
  ask_for Error.SendError Error.Inconsistent MGetServerSigAlgs reply
    (fun ssa => Ok (ClientAuth.best_supported_rsa_hash ssa contains)).
End Client.
End ClientHandle.

(** ** The server's *)
Module ServerHandle.
Abbreviation SM A := (st (Handle ServerMsg) unit A).
Abbreviation SE A := (st (Handle ServerMsg) Error.error A).
Implicit Types received : list ChannelMsg.

Definition data (id : Z) (d : bytes) (acked : bool) : st (Handle ServerMsg) bytes unit :=
  send_acked (SDataAcked id None d) d acked.
Definition extended_data (id ext : Z) (d : bytes) (acked : bool) : st (Handle ServerMsg) bytes unit :=
  send_acked (SDataAcked id (Some ext) d) d acked.
Definition eof (id : Z) : SM unit := send tt (SEof id).
Definition channel_success (id : Z) : SM unit := send tt (SReply id true).
Definition channel_failure (id : Z) : SM unit := send tt (SReply id false).
Definition close (id : Z) : SM unit := send tt (SClose id).
Definition xon_xoff_request (id : Z) (client_can_do : bool) : SM unit := send tt (SRequest id (XonXoffReq client_can_do)).
Definition exit_status_request (id exit_status : Z) : SM unit := send tt (SRequest id (ExitStatusReq exit_status)).
Definition exit_signal_request (id : Z) (signal_name : Sig.sig) (core_dumped : bool) (error_message lang_tag : bytes) : SM unit :=
  send tt (SRequest id (ExitSignalReq signal_name core_dumped error_message lang_tag)).
Definition forward_tcpip (address : bytes) (port : Z) (reply : option (option Z)) : SM Z :=
  ask_for tt tt (fun r => STcpIpForward (Some r) address port) reply (granted_port tt).
Definition cancel_forward_tcpip (address : bytes) (port : Z) (reply : option bool) : SM unit :=
  ask_for tt tt (fun r => SCancelTcpIpForward (Some r) address port) reply (granted tt).
Definition disconnect (reason : Disconnect.disconnect) (description language_tag : bytes) : SE unit :=
  send Error.SendError (SDisconnect reason description language_tag).

Definition channel_open_agent received : SE Channel := open_call (SChannelOpen ChannelType.AgentForward) received.
Definition channel_open_session received : SE Channel := open_call (SChannelOpen ChannelType.Session) received.
Definition channel_open_direct_tcpip (host_to_connect : bytes) (port_to_connect : Z) (originator_address : bytes)
    (originator_port : Z) received : SE Channel :=
  open_call (SChannelOpen (ChannelType.DirectTcpip
    (mkTcp host_to_connect port_to_connect originator_address originator_port))) received.
Definition channel_open_direct_streamlocal (socket_path : bytes) received : SE Channel :=
  open_call (SChannelOpen (ChannelType.DirectStreamLocal (mkStreamLocal socket_path))) received.
Definition channel_open_forwarded_tcpip (connected_address : bytes) (connected_port : Z) (originator_address : bytes)
    (originator_port : Z) received : SE Channel :=
  open_call (SChannelOpen (ChannelType.ForwardedTcpIp
    (mkTcp connected_address connected_port originator_address originator_port))) received.
Definition channel_open_forwarded_streamlocal (server_socket_path : bytes) received : SE Channel :=
  open_call (SChannelOpen (ChannelType.ForwardedStreamLocal (mkStreamLocal server_socket_path))) received.
Definition channel_open_x11 (originator_address : bytes) (originator_port : Z) received : SE Channel :=
  open_call (SChannelOpen (ChannelType.X11 originator_address originator_port)) received.
End ServerHandle.

(** ** What becomes of a call *)
Section Served.
Context {enc : SshEncoding} `{!SshEncodingLaws enc} {SKY : SshKeys} {HKS : HostKeys} {UK : UserKeys}.
Context {Q : Mpsc} {QS : MpscSend Q} {F : Flate2}.
Context {K SK OK : Type} {W : Type} {HW : PacketSink W} {KW : KeyedSink W SK}.
(** The client and its application. *)
Context (kconfig : ClientConfig) (client_id remote_sshid : bytes) (limits : Limits).
Context (cconfig : Config) (cwindow cpacket : Z) {HC EC : Type} {HHC : @Handler Q W HC EC}.
Context {AHC : ClientAuthHandler W HC EC} {CHC : @ClientHandler SKY HKS UK Q F W HC EC}.
(** The server and its application. *)
Context (config : Config) (window_size maximum_packet_size : Z) (auth_methods : MethodSet).
Context (auth_rejection_time : Z) (auth_rejection_time_initial : option Z) (after_failure : bytes -> bytes).
Context {H E : Type} {HH : @Handler Q W H E} {AH : AuthHandler H E} {RH : @RequestHandler UK Q F W H E}.

Abbreviation Client := (@ClientSession.Client UK Q F W HC).
Abbreviation Conn := (@ClientReply.CConn SKY HKS UK Q F K SK OK W HC).
Abbreviation Sess := (@ServerEncrypted.Session UK Q F W H).
Implicit Types c : Client.
Implicit Types cc : Conn.
Implicit Types s : Sess.
Implicit Types h : Handle ClientMsg.

Abbreviation handle_message := (handle_msg kconfig client_id remote_sshid limits cconfig cwindow cpacket (H := HC)).
Abbreviation client_process := (client_process_packet cconfig cwindow cpacket (H := HC) (E := EC)).
Abbreviation process := (process_packet config window_size maximum_packet_size auth_methods
  auth_rejection_time auth_rejection_time_initial after_failure (H := H) (E := E)).

(** The flag of the session that says whether an exchange is running tells the
    truth, and no replies to channel opens of the server are waiting. *)
Definition at_rest (e : Encrypted) cc : Prop :=
  cc_encrypted cc = Some e /\ cc.(cl).(cl_open_replies) = [] /\ cc.(cl).(core).(kex_active) = active cc.(ckex).

Lemma set_cl_synced c' cc : c'.(core).(kex_active) = active cc.(ckex) ->
  set_cl (set_core (with_active (active cc.(ckex)) c'.(core)) c') cc = set_cl c' cc.
Proof. destruct c' as [v]. destruct v. cbn. by intros <-. Qed.

Lemma no_replies e cc : at_rest e cc -> on_replies drain_open_replies cc = (Ok tt, cc).
Proof.
  intros (He & Hr & Ha). unfold on_replies. rewrite He. unfold on_cl, on_copen. unfold cc_encrypted, cc_core in He. rewrite He, Hr.
  unfold drain_open_replies. cbn [length ChannelOpen.open_replies drain_loop].
  destruct cc as [[v a i k1 k2 q1 q2 o sa d]]. destruct v as [x]. destruct x. cbn in *. by subst.
Qed.

Lemma handle_on_client e cc (m : st Client Error.error unit) c' :
  at_rest e cc -> m cc.(cl) = (Ok tt, c') -> c'.(core).(kex_active) = cc.(cl).(core).(kex_active) ->
  (on_replies drain_open_replies ;;; on_cl m) cc = (Ok tt, set_cl c' cc).
Proof.
  intros Hat Hm Hk. unfold st_bind. rewrite (no_replies e cc Hat). unfold on_cl. rewrite Hm. cbn [fst snd].
  destruct Hat as (_ & _ & Ha). f_equal. by rewrite ?set_cl_synced by congruence.
Qed.

(** *** Forwarding *)
Definition message (f : forward) (r : Z) : ClientMsg :=
  match f with
  | Tcpip a p => MTcpIpForward (Some r) a p
  | CancelTcpip a p => MCancelTcpIpForward (Some r) a p
  | Streamlocal p => MStreamLocalForward (Some r) p
  | CancelStreamlocal p => MCancelStreamLocalForward (Some r) p
  end.

(** What was sent over a oneshot channel. *)
Definition told (r : Z) (l : list (Z * answer)) : option answer := snd <$> find (fun x => x.1 =? r) l.
Definition told_port (a : option answer) : option (option Z) := match a with Some (GotPort p) => Some p | _ => None end.
Definition told_bool (a : option answer) : option bool := match a with Some (GotBool b) => Some b | _ => None end.

(** The call of the handle, with the number that it returns, if any. *)
Definition call (f : forward) (reply : option answer) : st (Handle ClientMsg) Error.error (option Z) :=
  match f with
  | Tcpip a p => do port <- ClientHandle.tcpip_forward a p (told_port reply) ;; st_ret (Some port)
  | CancelTcpip a p => ClientHandle.cancel_tcpip_forward a p (told_bool reply) ;;; st_ret None
  | Streamlocal p => ClientHandle.streamlocal_forward p (told_bool reply) ;;; st_ret None
  | CancelStreamlocal p => ClientHandle.cancel_streamlocal_forward p (told_bool reply) ;;; st_ret None
  end.
(** What the application of the server decided, as the caller sees it. *)
Definition call_result (f : forward) (result : bool * Z) : res Error.error (option Z) :=
  if result.1
  then Ok (match f with Tcpip _ _ => Some (default 0 (chosen f result.2)) | _ => None end)
  else Err Error.RequestDenied.

Lemma call_ok f reply h : h.(alive) = true -> call f reply h =
  (match f with
   | Tcpip _ _ => match told_port reply with
                  | Some (Some p) => Ok (Some p) | Some None => Err Error.RequestDenied | None => Err Error.Disconnect
                  end
   | _ => match told_bool reply with
          | Some true => Ok None | Some false => Err Error.RequestDenied | None => Err Error.Disconnect
          end
   end, mkHandle true (h.(queued) ++ [message f h.(next)]) (h.(next) + 1)).
Proof.
  destruct h as [al q n]. cbn. intros ->. destruct f as [a p|a p|p|p]; cbn [call];
    unfold ClientHandle.tcpip_forward, ClientHandle.cancel_tcpip_forward, ClientHandle.streamlocal_forward,
      ClientHandle.cancel_streamlocal_forward, ask_for, new_channel_for_call, send, st_bind; cbn.
  1: by destruct (told_port reply) as [[p'|]|].
  all: by destruct (told_bool reply) as [[]|].
Qed.

Lemma told_last r l a : r ∉ map fst l -> told r (l ++ [(r, a)]) = Some a.
Proof.
  unfold told. induction l as [|[x b] l IH]; cbn; [by rewrite Z.eqb_refl|].
  intros Hr. destruct (Z.eqb_spec x r) as [->|_]; [set_solver|]. apply IH. set_solver.
Qed.

(** C20. A call for forwarding is answered by the application of the other side: the
    call puts one message into the queue of the session, the session sends the
    request, the server puts the same question, with the same address and port or
    path, to its application and sends back what it decides, and by that the call
    ends - with success and the port that was chosen, or as denied.  The answer
    settles the oldest request of the client and changes nothing else. *)
Theorem forward_call_served f h cc e i s se s' se' result now sender :
  forward_ok f -> is_u32 result.2 -> h.(alive) = true ->
  at_rest e cc ->
  s.(srv).(encrypted) = Some se -> s.(state) = Authenticated ->
  serve f (set_wants_reply true s) = (Ok result, s') ->
  s'.(srv).(encrypted) = Some se' -> s'.(wants_reply) = true ->
  (forall reply, (call f reply h).2.(queued) = h.(queued) ++ [message f h.(next)]) /\
  handle_message i (message f h.(next)) cc =
    (Ok tt, set_cl (client_staged (payload f) e
      (set_cl_requests (cc.(cl).(cl_requests) ++ [entry f h.(next)]) cc.(cl).(cl_answers) cc.(cl))) cc) /\
  process now sender (payload f) s = (Ok tt, server_staged (reply_payload f result) se' s') /\
  forall c1 e1 rest,
    c1.(core).(encrypted) = Some e1 -> c1.(auth).(c_state) = Authenticated ->
    c1.(cl_requests) = entry f h.(next) :: rest -> h.(next) ∉ map fst c1.(cl_answers) ->
    exists c2, client_process sender (reply_payload f result) c1 = (Ok tt, c2) /\
      c2.(core) = c1.(core) /\ c2.(cl_requests) = rest /\
      (call f (told h.(next) c2.(cl_answers)) h).1 = call_result f result.
Proof.
  intros Hok Hp Hh Hat Hse Hs Hserve Hse' Hw. split_and!.
  - intros reply. by rewrite call_ok.
  - pose proof (proj1 Hat) as He.
    destruct f as [a p|a p|p|p]; (eapply handle_on_client; [exact Hat| |reflexivity]);
      [apply (request_ok (Tcpip a p))|apply (request_ok (CancelTcpip a p))|apply (request_ok (Streamlocal p))
      |apply (request_ok (CancelStreamlocal p))]; done.
  - unfold process_packet. rewrite Hse, Hs. exact (serve_ok _ _ _ _ _ Hok Hserve Hse' Hw Hp).
  - intros c1 e1 rest He1 Ha1 Hr1 Hfresh.
    destruct (answer_ok cconfig cwindow cpacket f result h.(next) rest c1 e1 sender) as (c2 & Hc & Hcore & Hreq & Hans); try done.
    exists c2. split_and!; [done..|]. rewrite call_ok, Hans, told_last by done. cbn [fst].
    unfold call_result. by destruct f, result as [[] ?].
Qed.
(** *** Opening a channel *)
Context {QSL : @MpscSendLaws Q QS}.

(** The client after it has sent the request for channel [id], which the queue [r] of
    the call belongs to. *)
Definition opening (t : ChannelType.type) (id r : Z) (e : Encrypted) c : Client :=
  let x := c.(core).(inbox) in
  set_core (set_inbox (mkInbox (<[id := r]> x.(PendingInbound.channels)) x.(buffers) x.(inbound) x.(needs_reserve))
    (set_encrypted (Some (set_write (e.(enc_write) ++ frame (open_payload t id cwindow cpacket)) e.(write_cursor) e))
      c.(core))) c.

Definition confirmation_packet (id peer window maxpacket : Z) : bytes :=
  msg.CHANNEL_OPEN_CONFIRMATION :: be32 id ++ be32 peer ++ be32 window ++ be32 maxpacket.
Definition refusal_packet (id code : Z) (description language : bytes) : bytes :=
  msg.CHANNEL_OPEN_FAILURE :: be32 id ++ be32 code ++ prefixed description ++ prefixed language.

Lemma opening_ok t r c e id e' : type_ok t -> is_u32 id -> is_u32 cwindow -> is_u32 cpacket ->
  c.(core).(encrypted) = Some e -> c.(auth).(c_state) = Authenticated ->
  new_channel cwindow cpacket e = (Ok id, e') ->
  cl_channel_open cwindow cpacket t r c = (Ok tt, opening t id r e' c).
Proof.
  intros Ht Hid Hw Hp He Ha Hn. unfold cl_channel_open. rewrite He, Ha, Hn.
  destruct (channel_open t) as [kind suffix] eqn:Hk.
  pose proof (open_body_appends t id cwindow cpacket Ht Hid Hw Hp) as Hb. rewrite Hk in Hb. cbn [fst snd] in Hb.
  unfold on_write. by rewrite (appends_push_packet _ _ Hb).
Qed.

(** A packet for an authenticated client goes to [client_read_authenticated]. *)
Lemma authenticated_packet c e sender m r : c.(core).(encrypted) = Some e -> c.(auth).(c_state) = Authenticated ->
  exists c0, client_process sender (m :: r) c = client_read_authenticated cconfig cwindow cpacket sender m r c0 /\
    c0.(core) = c.(core) /\ c0.(cl_requests) = c.(cl_requests) /\ c0.(cl_answers) = c.(cl_answers).
Proof.
  intros He Ha. eexists. split.
  - unfold client_process_packet. rewrite He. unfold st_bind at 1, on_auth, read_unauthenticated.
    cbn [c_state with_shared]. rewrite Ha. reflexivity.
  - split_and!; [|done..]. cbn [core set_auth_part set_core with_shared c_writer c_handler c_write set_writer set_target].
    destruct c as [v]. cbn in *. destruct v, e. cbn in *. by subst.
Qed.

Lemma send_to_app c id r q m :
  c.(core).(inbox).(PendingInbound.channels) !! id = Some r -> c.(core).(inbox).(buffers) !! r = Some q ->
  client_send_app id m c = (Ok tt,
    set_core (set_inbox (set_buffers (<[r := (send_wait q m).1]> c.(core).(inbox).(buffers)) c.(core).(inbox)) c.(core)) c).
Proof. intros Hc Hb. unfold client_send_app. by rewrite Hc, Hb. Qed.

(** What the session knows of a channel that was confirmed. *)
Definition confirmed_params (id peer window maxpacket : Z) (p : ChannelParams) : ChannelParams :=
  confirm {| coc_recipient_channel := id; coc_sender_channel := peer; coc_initial_window_size := window;
             coc_maximum_packet_size := maxpacket |} p.

Section Answers.
Variables (c : Client) (e : Encrypted) (id r : Z) (q : chan) (sender : Z).
Hypothesis encrypted_c : c.(core).(encrypted) = Some e.
Hypothesis authenticated_c : c.(auth).(c_state) = Authenticated.
Hypothesis registered_c : c.(core).(inbox).(PendingInbound.channels) !! id = Some r.
Hypothesis buffer_c : c.(core).(inbox).(buffers) !! r = Some q.

Lemma confirmation_ok peer window maxpacket params :
  is_u32 id -> is_u32 peer -> is_u32 window -> is_u32 maxpacket -> e.(Session.channels) !! id = Some params ->
  exists c2, client_process sender (confirmation_packet id peer window maxpacket) c = cl_open_confirmation id maxpacket window c2 /\
    c2.(core).(inbox).(buffers) !! r = Some (send_wait q (ChannelMsg.Open id maxpacket window)).1 /\
    c2.(core).(encrypted) = Some (put_channel id (confirmed_params id peer window maxpacket params) e).
Proof.
  intros Hid Hpeer Hw Hm Hp. destruct (authenticated_packet c e sender msg.CHANNEL_OPEN_CONFIRMATION
    (be32 id ++ be32 peer ++ be32 window ++ be32 maxpacket) encrypted_c authenticated_c) as (c0 & Hc & Hcore & _).
  unfold confirmation_packet. rewrite Hc. rewrite <- Hcore in *.
  change (client_read_authenticated cconfig cwindow cpacket sender msg.CHANNEL_OPEN_CONFIRMATION)
    with (cl_recv_open_confirmation (HH := HHC)).
  rewrite <- (app_nil_r (be32 maxpacket)). unfold cl_recv_open_confirmation, ChannelOpenConfirmation_decode, cl_dec, st_lift.
  unfold st_bind. decode_fields. cbn [map_err ensure_end coc_recipient_channel coc_maximum_packet_size coc_initial_window_size].
  rewrite encrypted_c, Hp. cbv beta iota. unfold cl_up, st_map_err.
  match goal with |- context [client_send_app id ?m ?c1] =>
    rewrite (send_to_app c1 id r q m registered_c buffer_c) end.
  cbn [map_err]. eexists. split; [reflexivity|]. split; [apply lookup_insert_eq|reflexivity].
Qed.

Lemma refusal_ok code description language :
  is_u32 id -> is_u32 code -> string_ok description -> string_ok language ->
  let reason := default ChannelOpenFailure.AdministrativelyProhibited (ChannelOpenFailure.from_u32 code) in
  exists c2, client_process sender (refusal_packet id code description language) c = cl_open_failure id reason description language c2 /\
    c2.(core).(inbox).(buffers) !! r = Some (send_wait q (ChannelMsg.OpenFailure reason)).1 /\
    exists e2, c2.(core).(encrypted) = Some e2 /\ e2.(Session.channels) = delete id e.(Session.channels).
Proof.
  intros Hid Hcode Hd Hl reason. destruct (authenticated_packet c e sender msg.CHANNEL_OPEN_FAILURE
    (be32 id ++ be32 code ++ prefixed description ++ prefixed language) encrypted_c authenticated_c) as (c0 & Hc & Hcore & _).
  unfold refusal_packet. rewrite Hc. rewrite <- Hcore in *.
  change (client_read_authenticated cconfig cwindow cpacket sender msg.CHANNEL_OPEN_FAILURE)
    with (cl_recv_open_failure (HH := HHC)).
  rewrite <- (app_nil_r (prefixed language)). unfold cl_recv_open_failure, cl_dec, st_lift.
  unfold st_bind at 1 2 3 4 5. decode_fields. cbn [map_err ensure_end]. cbv beta iota. fold reason.
  unfold cl_up, st_map_err, on_cenc, on_core, on_encrypted, st_bind. rewrite encrypted_c. cbn [remove_channel st_mod map_err].
  match goal with |- context [client_send_app id ?m ?c1] =>
    rewrite (send_to_app c1 id r q m registered_c buffer_c) end.
  cbn [map_err]. eexists. split; [reflexivity|]. split; [apply lookup_insert_eq|]. eexists. split; reflexivity.
Qed.
End Answers.
(** What a call gets from the queue made for it. *)
Lemma open_call_ok t received h : h.(alive) = true ->
  open_call (MChannelOpen t) received h =
    (wait_channel_confirmation true (WindowSizeRef_new 0) received,
     mkHandle true (h.(queued) ++ [MChannelOpen t h.(next)]) (h.(next) + 1)).
Proof. destruct h as [al q n]. cbn. by intros ->. Qed.

(** C21. A call that opens a channel gets the answer to the request that it causes: it
    puts one message into the queue of the session, the session picks a number,
    registers the queue of the call under it and sends the request; the
    confirmation for that number makes the call return a channel with that number,
    with the packet size and window that the peer granted, and the session knows
    the same of it; a refusal makes it fail with the reason of the peer, and the
    session forgets the channel. *)
Theorem open_call_answered t h cc e i id e' :
  type_ok t -> is_u32 id -> is_u32 cwindow -> is_u32 cpacket -> h.(alive) = true ->
  at_rest e cc -> cc_state cc = Authenticated -> new_channel cwindow cpacket e = (Ok id, e') ->
  (forall received, (open_call (MChannelOpen t) received h).2.(queued) = h.(queued) ++ [MChannelOpen t h.(next)]) /\
  handle_message i (MChannelOpen t h.(next)) cc = (Ok tt, set_cl (opening t id h.(next) e' cc.(cl)) cc) /\
  forall c1 e1 q1 sender,
    c1.(core).(encrypted) = Some e1 -> c1.(auth).(c_state) = Authenticated ->
    c1.(core).(inbox).(PendingInbound.channels) !! id = Some h.(next) ->
    c1.(core).(inbox).(buffers) !! h.(next) = Some q1 -> accepted q1 = [] ->
    (forall peer window maxpacket params,
      is_u32 peer -> is_u32 window -> is_u32 maxpacket -> e1.(Session.channels) !! id = Some params ->
      (send_wait q1 (ChannelMsg.Open id maxpacket window)).2 = true ->
      exists c2 q2, client_process sender (confirmation_packet id peer window maxpacket) c1 =
          cl_open_confirmation id maxpacket window c2 /\
        c2.(core).(encrypted) = Some (put_channel id (confirmed_params id peer window maxpacket params) e1) /\
        c2.(core).(inbox).(buffers) !! h.(next) = Some q2 /\
        (open_call (MChannelOpen t) (accepted q2) h).1 =
          Ok (mkChannel (mkReadHalf [] false) (mkWriteHalf id [] true maxpacket (mkWindowSizeRef window 1)))) /\
    (forall code description language,
      is_u32 code -> string_ok description -> string_ok language ->
      let reason := default ChannelOpenFailure.AdministrativelyProhibited (ChannelOpenFailure.from_u32 code) in
      (send_wait q1 (ChannelMsg.OpenFailure reason)).2 = true ->
      exists c2 q2 e2, client_process sender (refusal_packet id code description language) c1 =
          cl_open_failure id reason description language c2 /\
        c2.(core).(encrypted) = Some e2 /\ e2.(Session.channels) !! id = None /\
        c2.(core).(inbox).(buffers) !! h.(next) = Some q2 /\
        (open_call (MChannelOpen t) (accepted q2) h).1 = Err (Error.ChannelOpenFailure reason)).
Proof.
  intros Ht Hid Hcw Hcp Hh Hat Ha Hn. split; [intros received; by rewrite open_call_ok|]. split.
  { eapply handle_on_client; [exact Hat| |reflexivity]. apply opening_ok with e; try done. apply Hat. }
  intros c1 e1 q1 sender He1 Ha1 Hr1 Hb1 Hq1.
  assert (Hsent : forall m, (send_wait q1 m).2 = true -> accepted (send_wait q1 m).1 = [m]).
  { intros m Hm. rewrite (send_wait_sent q1 m (send_wait q1 m).1) by (by rewrite (surjective_pairing (send_wait q1 m)), Hm).
    by rewrite Hq1. }
  split.
  - intros peer window maxpacket params Hp Hw Hm Hparams Hs.
    destruct (confirmation_ok c1 e1 id h.(next) q1 sender He1 Ha1 Hr1 Hb1 peer window maxpacket params) as (c2 & H1 & H2 & H3); try done.
    eexists c2, _. split_and!; [exact H1|exact H3|exact H2|]. by rewrite open_call_ok, Hsent.
  - intros code description language Hc Hd Hl reason Hs.
    destruct (refusal_ok c1 e1 id h.(next) q1 sender He1 Ha1 Hr1 Hb1 code description language)
      as (c2 & H1 & H2 & e2 & H3 & H4); try done.
    eexists c2, _, e2. split_and!; [exact H1|exact H3|rewrite H4; apply lookup_delete_eq|exact H2|].
    by rewrite open_call_ok, Hsent.
Qed.
End Served.

(** ** Calls between concrete sessions *)
Module Example.
#[local] Existing Instance rfc4251.
#[local] Existing Instance rfc4251_laws.
#[local] Existing Instance Negotiation.Example.keys.
#[local] Existing Instance KexRun.Example.host_keys.
#[local] Existing Instance Auth.Example.keys.
#[local] Existing Instance Bounded.mpsc.
#[local] Existing Instance Doubling.flate2.
#[local] Existing Instance ServerEncrypted.Example.bounded_send.
#[local] Existing Instance ServerEncrypted.Example.bounded_send_laws.
#[local] Existing Instance ServerEncrypted.Example.handler.
#[local] Existing Instance ServerEncrypted.Example.auth_handler.
#[local] Existing Instance ServerEncrypted.Example.request_handler.
#[local] Existing Instance AuthExchange.Example.client.
#[local] Existing Instance Forwarding.Example.client_handler.
#[local] Existing Instance ServerReply.Example.log_keys.
#[local] Existing Instance packet_log.

Abbreviation key := CipherImpls.Example.key.
Abbreviation Conn := (@CConn _ KexRun.Example.host_keys _ Bounded.mpsc _ Dh.DhGroupKex key key (list bytes) unit).
Definition conn : Conn :=
  mkCConn (Forwarding.Example.client []) Idle None CipherImpls.Example.k0 false false 0 false [] [].
Definition input : Input := mkInput 1000 [] [] 6 7.
Definition handle : Handle ClientMsg := mkHandle true [] 3.

Lemma forward_call_served_witness :
  exists c2, client_process_packet (mkConfig 100 100) 50 100 7 (reply_payload Forwarding.Example.request (true, 8080))
      (Forwarding.Example.client [TcpIpForward 3; Keepalive]) = (Ok tt, c2) /\
    c2.(core) = (Forwarding.Example.client [TcpIpForward 3; Keepalive]).(core) /\ c2.(cl_requests) = [Keepalive] /\
    (call Forwarding.Example.request (told 3 c2.(cl_answers)) handle).1 = Ok (Some 0).
Proof.
  refine (proj2 (proj2 (proj2 (forward_call_served KexRun.Example.cc [] [] ServerReply.Example.limits (mkConfig 100 100) 50 100
    (mkConfig 100 100) 50 100 MethodSet.all 3 (Some 1) (fun r => r) Forwarding.Example.request handle conn
    ServerEncrypted.Example.enc0 input Forwarding.Example.server ServerEncrypted.Example.enc0
    (set_wants_reply true Forwarding.Example.server) ServerEncrypted.Example.enc0 (true, 8080) 1000 7 _ _ _ _ _ _ _ _ _)))
    _ _ [Keepalive] _ _ _ _).
  all: try reflexivity; try (by split).
  cbn. set_solver.
Defined.

(** The client after its request, with the queue of the call. *)
Definition opened : @ClientSession.Client Auth.Example.keys Bounded.mpsc Doubling.flate2 (list bytes) unit :=
  let c := Forwarding.Example.client [] in
  set_core (set_inbox (mkInbox {[1 := 3]} {[3 := Bounded.mkBounded 9 false [] []]} ∅ [])
    (set_encrypted (Some (new_channel 50 100 ServerEncrypted.Example.enc0).2) c.(core))) c.

Lemma open_call_answered_witness :
  exists c2 q2, client_process_packet (mkConfig 100 100) 50 100 7 (confirmation_packet 1 8 1000 500) opened =
      cl_open_confirmation 1 500 1000 c2 /\
    c2.(core).(encrypted) = Some (put_channel 1 (confirmed_params 1 8 1000 500 (fresh_channel 1 50 100))
      (new_channel 50 100 ServerEncrypted.Example.enc0).2) /\
    c2.(core).(inbox).(buffers) !! handle.(next) = Some q2 /\
    (open_call (MChannelOpen ChannelType.Session) (accepted q2) handle).1 =
      Ok (mkChannel (mkReadHalf [] false) (mkWriteHalf 1 [] true 500 (mkWindowSizeRef 1000 1))).
Proof.
  refine (proj1 (proj2 (proj2 (open_call_answered KexRun.Example.cc [] [] ServerReply.Example.limits (mkConfig 100 100) 50 100
    ChannelType.Session handle conn ServerEncrypted.Example.enc0 input 1 (new_channel 50 100 ServerEncrypted.Example.enc0).2
    _ _ _ _ _ _ _ _)) opened (new_channel 50 100 ServerEncrypted.Example.enc0).2 (Bounded.mkBounded 9 false [] []) 7 _ _ _ _ _)
    8 1000 500 _ _ _ _ _ _).
  all: try reflexivity; try (by split).
Defined.
End Example.
