(* ===== verification/Agent.v ===== *)
(** * The SSH agent: messages and server ([russh/src/keys/agent/mod.rs],
    [agent/msg.rs] and [agent/server.rs]; the errors are those of [keys/mod.rs])

    All connections share the keys, the passphrase that locks the agent, and the
    tasks that remove keys when their lifetime is over; [Agent] is that state, and
    [respond] what a connection does with a request.  The locks are never held by
    code that panics, so they are never poisoned.

    What a client makes of the answers is in [AgentClient]. *)

From stdpp Require Import base list numbers option gmap strings.
From Stdlib Require Import ZArith Lia.
From S2P Require Import Prelude Encoding LibInner Auth.

(** ** Errors ([keys::Error]); errors of other crates are opaque codes *)
Module KeysError.
Inductive error : Type :=
| CouldNotReadKey
| UnsupportedKeyType (key_type_string key_type_raw : bytes)
| Ed25519KeyError (code : Z)
| EcdsaKeyError (code : Z)
| KeyIsEncrypted
| KeyIsCorrupt
| NoHomeDir
| KeyChanged (line : Z)
| UnknownAlgorithm (oid : bytes)
| IndexOutOfBounds
| UnknownSignatureType (sig_type : bytes)
| InvalidSignature
| InvalidParameters
| AgentProtocolError
| AgentFailure
| IO (kind : Z)
| Rsa (code : Z)
| Pad (code : Z)
| Unpad (code : Z)
| Decode (code : Z)
| Der (code : Z)
| Spki (code : Z)
| Pkcs1 (code : Z)
| Pkcs8 (code : Z)
| Sec1 (code : Z)
| SshKey (e : KeyError)
| SshEncoding (e : EncError)
| EnvVar (name : bytes)
| BadAuthSock
| Utf8
| LegacyASN1 (code : Z).
End KeysError.

Abbreviation KResult A := (res KeysError.error A).
Abbreviation KM S A := (st S KeysError.error A).

(** [?] on results of [ssh_encoding] and of [ssh_key]. *)
Definition k_enc {S A} (r : res EncError A) : KM S A := st_lift (map_err KeysError.SshEncoding r).
Definition k_key {S A} (r : res KeyError A) : KM S A := st_lift (map_err KeysError.SshKey r).

(** ** Message numbers *)
Module msg.
Definition FAILURE : Z := 5.
Definition SUCCESS : Z := 6.
Definition IDENTITIES_ANSWER : Z := 12.
Definition SIGN_RESPONSE : Z := 14.
Definition REQUEST_IDENTITIES : Z := 11.
Definition SIGN_REQUEST : Z := 13.
Definition ADD_IDENTITY : Z := 17.
Definition REMOVE_IDENTITY : Z := 18.
Definition REMOVE_ALL_IDENTITIES : Z := 19.
Definition ADD_ID_CONSTRAINED : Z := 25.
Definition ADD_SMARTCARD_KEY : Z := 20.
Definition REMOVE_SMARTCARD_KEY : Z := 21.
Definition LOCK : Z := 22.
Definition UNLOCK : Z := 23.
Definition ADD_SMARTCARD_KEY_CONSTRAINED : Z := 26.
Definition EXTENSION : Z := 27.
Definition CONSTRAIN_LIFETIME : Z := 1.
Definition CONSTRAIN_CONFIRM : Z := 2.
Definition CONSTRAIN_EXTENSION : Z := 255.
End msg.

Definition MAX_AGENT_FRAME_LEN : Z := 256 * 1024.

Inductive Constraint : Type :=
| KeyLifetime (seconds : Z)
| Confirm
| Extensions (name details : bytes).
#[global] Instance Constraint_eq_dec : EqDecision Constraint.
Proof. solve_decision. Defined.

(** ** Key pairs, from [ssh_key] *)
Class AgentKeys {UK : UserKeys} : Type := {
  (** [key.key_data().encode(..)] *)
  encode_key_data : PrivateKey -> writer EncError;
  (** [KeypairData::decode] and [PrivateKey::new(_, "")] *)
  decode_key_pair : bytes -> res KeyError (PrivateKey * bytes);
  (** the key without its comment *)
  uncommented : PrivateKey -> PrivateKey;
}.

(** ** The server *)
Inductive MessageType : Type :=
| RequestKeys | AddKeys | RemoveKeys | RemoveAllKeys | Sign | Lock | Unlock.

Section Server.
Context {enc : SshEncoding} {UK : UserKeys} {AK : AgentKeys}.

Record Entry : Type := mkEntry { key : PrivateKey; added : Z; constraints : list Constraint }.

(** A task that sleeps until the lifetime of a key ends; it knows the key by its
    public part and the time when it was added. *)
Record Timer : Type := mkTimer { fires_at : Z; t_blob : bytes; t_added : Z }.

Record Agent : Type := mkAgent {
  keys : gmap bytes Entry;
  lock : bytes;
  timers : list Timer;
}.

(** The order in which a [HashMap] is iterated, which is not specified. *)
Context (iter : gmap bytes Entry -> list (bytes * Entry)).
(** [Agent::confirm_request] of the application. *)
Context (confirm_request : MessageType -> bool).

Definition set_keys k a : Agent := mkAgent k a.(lock) a.(timers).
Definition set_lock p a : Agent := mkAgent a.(keys) p a.(timers).
Definition add_timer t a : Agent := mkAgent a.(keys) a.(lock) (a.(timers) ++ [t]).

(** The clock counts nanoseconds. *)
Definition SECOND : Z := 1000000000.

Definition expires (now seconds : Z) (blob : bytes) : Timer := mkTimer (now + seconds * SECOND) blob now.

Fixpoint remove_timer (t : Timer) (l : list Timer) : list Timer :=
  match l with
  | [] => []
  | u :: l =>
      if bool_decide (u.(fires_at) = t.(fires_at)) && beq u.(t_blob) t.(t_blob) &&
         bool_decide (u.(t_added) = t.(t_added))
      then l else u :: remove_timer t l
  end.

(** The task wakes up. *)
Definition expire (t : Timer) (a : Agent) : Agent :=
  let rest := remove_timer t a.(timers) in
  match a.(keys) !! t.(t_blob) with
  | Some e =>
      if e.(added) =? t.(t_added) then mkAgent (delete t.(t_blob) a.(keys)) a.(lock) rest
      else mkAgent a.(keys) a.(lock) rest
  | None => mkAgent a.(keys) a.(lock) rest
  end.

(** *** A request: the agent and [writebuf] *)
Definition Ctx : Type := (Agent * bytes)%type.
Abbreviation M A := (KM Ctx A).

Definition on_agent (f : Agent -> Agent) : M unit := st_mod (fun c => (f c.1, c.2)).
Definition push (v : Z) : M unit := st_mod (fun c => (c.1, c.2 ++ [v])).
Definition out (m : writer EncError) : M unit := fun c =>
  let '(r, w) := m c.2 in (map_err KeysError.SshEncoding r, (c.1, w)).

(** [BigEndian::write_u32(&mut writebuf, len - 4)]. *)
Definition patch_len : M unit := fun c =>
  match write_u32_at 0 (to_u32 (zlen c.2 - 4)) c.2 with
  | Some w => (Ok tt, (c.1, w))
  | None => (Panic, c)
  end.

Definition server_lock (r : bytes) : M unit :=
  do (password, _) <- k_enc (decode_bytes r) ;;
  on_agent (fun a => set_lock (a.(lock) ++ password) a).

Definition server_unlock (r : bytes) : M bool :=
  do (password, _) <- k_enc (decode_bytes r) ;;
  fun c =>
    if beq c.1.(lock) password then (Ok true, (set_lock [] c.1, c.2)) else (Ok false, c).

Definition server_remove_identity (r : bytes) : M bool :=
  do (blob, _) <- k_enc (decode_bytes r) ;;
  fun c =>
    match c.1.(keys) !! blob with
    | Some _ => (Ok true, (set_keys (delete blob c.1.(keys)) c.1, c.2))
    | None => (Ok false, c)
    end.

(** The constraints up to the end of the message; [None] when one is unknown. *)
Fixpoint read_constraints (fuel : nat) (now : Z) (blob r : bytes) (c : list Constraint)
  : M (option (list Constraint)) :=
  match fuel with
  | O => st_panic
  | S fuel =>
      match decode_u8 r with
      | Ok (t, r) =>
          if t =? msg.CONSTRAIN_LIFETIME then
            do (seconds, r) <- k_enc (decode_u32 r) ;;
            on_agent (add_timer (expires now seconds blob)) ;;;
            read_constraints fuel now blob r (c ++ [KeyLifetime seconds])
          else if t =? msg.CONSTRAIN_CONFIRM then read_constraints fuel now blob r (c ++ [Confirm])
          else st_ret None
      | Err _ => st_ret (Some c)
      | Panic => st_panic
      end
  end.

Definition insert_key (blob : bytes) (e : Entry) : M unit :=
  on_agent (fun a => set_keys (<[blob := e]> a.(keys)) a).

Definition add_key (now : Z) (r : bytes) (constrained : bool) : M bool :=
  do (key, r) <- k_key (decode_key_pair r) ;;
  do (_, r) <- k_enc (decode_string r) ;;
  do blob <- k_key (PublicKey_to_bytes (public_key key)) ;;
  push msg.SUCCESS ;;;
  if constrained then
    do c <- read_constraints (S (length r)) now blob r [] ;;
    match c with
    | Some c => insert_key blob (mkEntry key now c) ;;; st_ret true
    | None => st_ret false
    end
  else insert_key blob (mkEntry key now []) ;;; st_ret true.

(** The confirmation that a key may require is not asked for. *)
Definition server_try_sign (r : bytes) : M bool :=
  do (blob, r) <- k_enc (decode_bytes r) ;;
  fun c =>
    match c.1.(keys) !! blob with
    | None => (Ok false, c)
    | Some e =>
        (push msg.SIGN_RESPONSE ;;;
         do (data, _) <- k_enc (decode_bytes r) ;;
         do s <- k_key (sign_with_hash_alg (PrivateKeyWithHashAlg_new e.(key) None) data) ;;
         out (encode_bytes s) ;;;
         patch_len ;;;
         st_ret true) c
    end.

(** [if let Ok(true) = ..]: an error is a refusal. *)
Definition attempt (m : M bool) : M bool := fun c =>
  match m c with
  | (Err _, c') => (Ok false, c')
  | x => x
  end.
Definition push_result (ok : bool) : M unit := push (if ok then msg.SUCCESS else msg.FAILURE).

Fixpoint list_keys (l : list (bytes * Entry)) : M unit :=
  match l with
  | [] => st_ret tt
  | (k, _) :: l => out (encode_bytes k) ;;; out (encode_bytes []) ;;; list_keys l
  end.

(** What is done for a request; [true] when the answer has its length already.
    [is_locked] was read before the application was asked. *)
Definition serve_request (is_locked : bool) (now : Z) (buf : bytes) : M bool :=
  let may t := negb is_locked && confirm_request t in
  match buf with
  | [] => push msg.FAILURE ;;; st_ret false
  | m :: r =>
      if (m =? 11) && may RequestKeys then
        (fun c =>
           (out (encode_u8 msg.IDENTITIES_ANSWER) ;;;
            out (encode_u32 (to_u32 (Z.of_nat (size c.1.(keys))))) ;;;
            list_keys (iter c.1.(keys))) c) ;;; st_ret false
      else if (m =? 13) && may Sign then
        do signed <- server_try_sign r ;;
        if signed : bool then st_ret true
        else st_mod (fun c => (c.1, vec_resize 4 0 c.2)) ;;; push msg.FAILURE ;;; st_ret false
      else if (m =? 17) && may AddKeys then
        do ok <- attempt (add_key now r false) ;;
        (if ok : bool then st_ret tt else push msg.FAILURE) ;;; st_ret false
      else if (m =? 18) && may RemoveKeys then
        do ok <- attempt (server_remove_identity r) ;; push_result ok ;;; st_ret false
      else if (m =? 19) && may RemoveAllKeys then
        on_agent (set_keys ∅) ;;; push msg.SUCCESS ;;; st_ret false
      else if (m =? 22) && may Lock then
        do ok <- attempt (server_lock r ;;; st_ret true) ;; push_result ok ;;; st_ret false
      else if (m =? 23) && is_locked && confirm_request Unlock then
        do ok <- attempt (server_unlock r) ;; push_result ok ;;; st_ret false
      else if (m =? 25) && may AddKeys then
        do ok <- attempt (add_key now r true) ;;
        (if ok : bool then st_ret tt else push msg.FAILURE) ;;; st_ret false
      else push msg.FAILURE ;;; st_ret false
  end.

(** [respond]: the answer.  After an error the connection ends. *)
Definition respond (is_locked : bool) (now : Z) (buf : bytes) : KM Agent bytes := fun a =>
  let '(r, c) := (do done <- serve_request is_locked now buf ;;
                  (if done : bool then st_ret tt else patch_len)) (a, [0; 0; 0; 0]) in
  match r with
  | Ok _ => (Ok c.2, c.1)
  | Err x => (Err x, c.1)
  | Panic => (Panic, c.1)
  end.

Definition is_locked (a : Agent) : bool := negb (beq a.(lock) []).
End Server.

(** ** Locked agents *)
Section Locked.
Context {enc : SshEncoding} {UK : UserKeys} {AK : AgentKeys} `{!SshEncodingLaws enc}.
Context (iter : gmap bytes Entry -> list (bytes * Entry)) (confirm_request : MessageType -> bool).
Implicit Types a : Agent.

Lemma patch_len_frame a p : patch_len (a, [0; 0; 0; 0] ++ p) = (Ok tt, (a, frame p)).
Proof.
  unfold patch_len. cbn [fst snd]. pose proof (write_u32_at_app 0 (to_u32 (zlen ([0; 0; 0; 0] ++ p) - 4)) [] [0; 0; 0; 0] p) as H.
  cbn [app] in *. rewrite H by done. unfold frame. rewrite be32_to_u32. do 4 f_equal. zlia.
Qed.

Lemma respond_plain locked now buf a a' p :
  serve_request iter confirm_request locked now buf (a, [0; 0; 0; 0]) = (Ok false, (a', [0; 0; 0; 0] ++ p)) ->
  respond iter confirm_request locked now buf a = (Ok (frame p), a').
Proof.
  intros Hs. unfold respond, st_bind. rewrite Hs, patch_len_frame. done.
Qed.

Lemma locked_respond now buf a : is_locked a = true ->
  respond iter confirm_request (is_locked a) now buf a =
    let unlocks := match buf with
                   | m :: r => (m =? msg.UNLOCK) && confirm_request Unlock &&
                               match decode_bytes r with Ok (p, _) => beq a.(lock) p | _ => false end
                   | [] => false
                   end in
    if unlocks then (Ok (frame [msg.SUCCESS]), set_lock [] a) else (Ok (frame [msg.FAILURE]), a).
Proof.
  intros ->. cbv zeta. destruct buf as [|m r]; [by apply respond_plain|].
  assert (Hr : serve_request iter confirm_request true now (m :: r) (a, [0; 0; 0; 0]) =
    if (m =? 23) && confirm_request Unlock
    then (do ok <- attempt (server_unlock r) ;; push_result ok ;;; st_ret false) (a, [0; 0; 0; 0])
    else (push msg.FAILURE ;;; st_ret false) (a, [0; 0; 0; 0])).
  { unfold serve_request. cbn [negb]. rewrite !andb_false_r, andb_true_r. cbn. by destruct (_ && _). }
  change msg.UNLOCK with 23. destruct ((m =? 23) && confirm_request Unlock); [|by apply respond_plain; rewrite Hr].
  cbn [andb]. pose proof (decode_bytes_no_panic r) as Hp.
  destruct (decode_bytes r) as [[p r']|x|] eqn:Hd; [destruct (beq (lock a) p) eqn:Hb| |done]; apply respond_plain;
    rewrite Hr; unfold attempt, server_unlock, k_enc, st_lift, st_bind; rewrite Hd; cbn; by rewrite ?Hb.
Qed.

(** C26. A locked agent does nothing but be unlocked: whatever request arrives, it is
    refused and leaves the keys, the passphrase and the timers as they are, except
    the one that gives the very passphrase, when the application agrees; that one
    removes the lock and nothing else. *)
Theorem locked_agent_inert now buf a : is_locked a = true ->
  respond iter confirm_request (is_locked a) now buf a =
    let unlocks := match buf with
                   | m :: r => (m =? msg.UNLOCK) && confirm_request Unlock &&
                               match decode_bytes r with Ok (p, _) => beq a.(lock) p | _ => false end
                   | [] => false
                   end in
    if unlocks then (Ok (frame [msg.SUCCESS]), set_lock [] a) else (Ok (frame [msg.FAILURE]), a).
Proof. apply locked_respond. Qed.
End Locked.

(** ** Lifetimes *)
Section Lifetimes.
Context {enc : SshEncoding} {UK : UserKeys} {AK : AgentKeys}.
Implicit Types a : Agent.

(** Every key with a lifetime has a task that is going to remove it. *)
Definition expiring a : Prop := forall blob e s,
  a.(keys) !! blob = Some e -> KeyLifetime s ∈ e.(constraints) -> expires e.(added) s blob ∈ a.(timers).

(** Keys are only taken away, and timers only added. *)
Definition fewer_keys (c c' : Ctx) : Prop :=
  (forall blob e, c'.1.(keys) !! blob = Some e -> c.1.(keys) !! blob = Some e) /\ c.1.(timers) ⊆ c'.1.(timers).

#[local] Instance fewer_keys_preorder : PreOrder fewer_keys.
Proof.
  split; [by intros c; split|]. intros c1 c2 c3 [K1 T1] [K2 T2]. split; [auto|]. by etransitivity.
Qed.

Lemma fewer_expiring c c' : fewer_keys c c' -> expiring c.1 -> expiring c'.1.
Proof. intros [Hk Ht] He blob e s H1 H2. apply Ht. by apply He; [apply Hk|]. Qed.

Lemma push_fewer v : framed fewer_keys (push v).
Proof. intros c. by split. Qed.
Lemma out_fewer m : framed fewer_keys (out m).
Proof. intros c. unfold out. destruct (m c.2). by split. Qed.
Lemma patch_fewer : framed fewer_keys patch_len.
Proof. intros c. unfold patch_len. destruct (write_u32_at _ _ _); by split. Qed.
Lemma lift_fewer {A} (r : KResult A) : framed fewer_keys (st_lift r).
Proof. intros c. by split. Qed.

Lemma list_keys_fewer l : framed fewer_keys (list_keys l).
Proof.
  induction l as [|[k e] l IH]; [by intros c; split|].
  repeat (apply framed_bind; [apply _|apply out_fewer|intros _]). exact IH.
Qed.

Lemma read_constraints_fewer now blob fuel : forall r c, framed fewer_keys (read_constraints fuel now blob r c).
Proof.
  induction fuel as [|fuel IH]; intros r c; cbn [read_constraints]; [by intros x; split|].
  destruct (decode_u8 r) as [[t r']| |]; [|by intros x; split..].
  destruct (_ =? _).
  - apply framed_bind; [apply _|apply lift_fewer|]. intros [seconds r'']. apply framed_bind; [apply _| |intros _; apply IH].
    apply framed_mod. intros x. split; [done|]. cbn. set_solver.
  - destruct (_ =? _); [apply IH|by intros x; split].
Qed.

(** A lifetime that was read has its timer. *)
Lemma read_constraints_timers now blob fuel : forall r c x l x',
  read_constraints fuel now blob r c x = (Ok (Some l), x') ->
  forall s, KeyLifetime s ∈ l -> KeyLifetime s ∈ c \/ expires now s blob ∈ x'.1.(timers).
Proof.
  induction fuel as [|fuel IH]; intros r c x l x'; cbn [read_constraints]; [done|].
  destruct (decode_u8 r) as [[t r']| |]; [|by intros [= -> <-]; left|done].
  destruct (_ =? _); [|destruct (_ =? _); [|done]].
  - intros H1. apply st_bind_ok in H1 as ([seconds r''] & x1 & H2 & H1). apply st_bind_ok in H1 as ([] & x2 & H3 & H1).
    injection H3 as <-. pose proof (framed_result _ _ _ _ _ (read_constraints_fewer _ _ _ _ _) H1) as [_ Ht].
    intros s Hs. destruct (IH _ _ _ _ _ H1 s Hs) as [Hc|?]; [|by right].
    apply elem_of_app in Hc as [?|Hc]; [by left|right]. apply list_elem_of_singleton in Hc as [= ->].
    apply Ht. cbn. set_solver.
  - intros H1 s Hs. destruct (IH _ _ _ _ _ H1 s Hs) as [Hc|?]; [|by right].
    apply elem_of_app in Hc as [?|Hc]; [by left|]. by apply list_elem_of_singleton in Hc.
Qed.

Definition stays_expiring (c c' : Ctx) : Prop := expiring c.1 -> expiring c'.1.
#[local] Instance stays_expiring_preorder : PreOrder stays_expiring.
Proof. split; [by intros c H|]. intros c1 c2 c3. unfold stays_expiring. auto. Qed.

Lemma fewer_stays {A} (m : KM Ctx A) : framed fewer_keys m -> framed stays_expiring m.
Proof. intros Hm c. exact (fewer_expiring _ _ (Hm c)). Qed.

(** A key goes in only after its timers. *)
Lemma insert_expiring blob e c : (forall s, KeyLifetime s ∈ e.(constraints) -> expires e.(added) s blob ∈ c.1.(timers)) ->
  stays_expiring c (insert_key blob e c).2.
Proof.
  intros Ht He b e' s. cbn. destruct (decide (b = blob)) as [->|Hb].
  - rewrite lookup_insert_eq. intros [= <-]. apply Ht.
  - rewrite lookup_insert_ne by done. apply He.
Qed.

Lemma add_key_expiring now r b : framed stays_expiring (add_key now r b).
Proof.
  unfold add_key. apply framed_bind; [apply _|by apply fewer_stays, lift_fewer|]. intros [key r1].
  apply framed_bind; [apply _|by apply fewer_stays, lift_fewer|]. intros [comment r2].
  apply framed_bind; [apply _|by apply fewer_stays, lift_fewer|]. intros blob.
  apply framed_bind; [apply _|by apply fewer_stays, push_fewer|]. intros _. destruct b.
  - intros c. unfold st_bind. pose proof (read_constraints_fewer now blob (S (length r2)) r2 [] c) as Hf.
    pose proof (read_constraints_timers now blob (S (length r2)) r2 [] c) as Ht.
    destruct (read_constraints _ _ _ _ _ c) as [[[l|]| |] c1]; cbn in *; try exact (fewer_expiring _ _ Hf).
    transitivity c1; [exact (fewer_expiring _ _ Hf)|].
    apply (insert_expiring blob (mkEntry key now l)). intros s Hs. by destruct (Ht _ _ eq_refl s Hs) as [?%elem_of_nil|?].
  - intros c. apply (insert_expiring blob (mkEntry key now [])). by intros s ?%elem_of_nil.
Qed.

Context (iter : gmap bytes Entry -> list (bytes * Entry)).

Lemma serve_request_expiring confirm locked now buf : framed stays_expiring (serve_request iter confirm locked now buf).
Proof.
  assert (Hp : forall v b, framed stays_expiring (push v ;;; st_ret b : KM Ctx bool)).
  { intros v b. apply fewer_stays. apply framed_bind; [apply _|apply push_fewer|intros _ c; by split]. }
  assert (Ha : forall m k, framed stays_expiring m -> (forall ok, framed stays_expiring (k ok)) ->
    framed stays_expiring (st_bind (attempt m) k : KM Ctx bool)).
  { intros m k Hm Hk. apply framed_bind; [apply _| |done]. intros c. unfold attempt. specialize (Hm c).
    by destruct (m c) as [[]]. }
  unfold serve_request. destruct buf as [|m r]; [apply Hp|].
  repeat (destruct (_ && _); [|]); try apply Hp.
  - apply fewer_stays, framed_bind; [apply _| |intros _ c; by split]. intros c.
    refine ((_ : framed fewer_keys (out _ ;;; out _ ;;; list_keys _)) c).
    do 2 (apply framed_bind; [apply _|apply out_fewer|intros _]). apply list_keys_fewer.
  - apply fewer_stays, framed_bind; [apply _| |].
    + unfold server_try_sign. apply framed_bind; [apply _|apply lift_fewer|]. intros [blob r'] c.
      destruct (keys c.1 !! blob); [|by split]. refine ((_ : framed fewer_keys (push _ ;;; _)) c).
      apply framed_bind; [apply _|apply push_fewer|intros _]. apply framed_bind; [apply _|apply lift_fewer|intros [data r'']].
      apply framed_bind; [apply _|apply lift_fewer|intros s]. apply framed_bind; [apply _|apply out_fewer|intros _].
      apply framed_bind; [apply _|apply patch_fewer|intros _ x; by split].
    + intros [|]; [by intros c; split|]. apply framed_bind; [apply _|by intros c; split|intros _].
      apply framed_bind; [apply _|apply push_fewer|intros _ c; by split].
  - apply Ha; [apply add_key_expiring|]. intros [|]; [by intros c H|apply Hp].
  - apply Ha; [|intros ok; apply Hp]. apply fewer_stays, framed_bind; [apply _|apply lift_fewer|]. intros [blob r'] c.
    destruct (keys c.1 !! blob); [|by split]. split; [|done]. cbn. intros b e' [_ Hb]%lookup_delete_Some. exact Hb.
  - apply framed_bind; [apply _| |intros _; apply Hp]. intros c H b e s. cbn. by rewrite lookup_empty.
  - apply Ha; [|intros ok; apply Hp]. apply fewer_stays. apply framed_bind; [apply _| |intros _ c; by split].
    apply framed_bind; [apply _|apply lift_fewer|]. intros [p r'] c. by split.
  - apply Ha; [|intros ok; apply Hp]. apply fewer_stays, framed_bind; [apply _|apply lift_fewer|]. intros [p r'] c.
    destruct (beq _ _); by split.
  - apply Ha; [apply add_key_expiring|]. intros [|]; [by intros c H|apply Hp].
Qed.

Lemma respond_expiring confirm locked now buf : framed (fun a a' => expiring a -> expiring a') (respond iter confirm locked now buf).
Proof.
  intros a. unfold respond. set (m := st_bind _ _).
  assert (Hm : framed stays_expiring m).
  { apply framed_bind; [apply _|apply serve_request_expiring|]. intros [|]; [by intros c H|].
    apply fewer_stays, patch_fewer. }
  clearbody m. specialize (Hm (a, [0; 0; 0; 0])). destruct (m (a, [0; 0; 0; 0])) as [[] c]; exact Hm.
Qed.

Lemma remove_timer_other t u l : u ∈ l -> u <> t -> u ∈ remove_timer t l.
Proof.
  intros Hu Hn. induction l as [|v l IH]; [done|]. cbn [remove_timer].
  apply elem_of_cons in Hu as [<-|Hu].
  - destruct (_ && _) eqn:Hb; [|left]. exfalso. apply andb_true_iff in Hb as [[H1%bool_decide_eq_true H2%beq_true]%andb_true_iff H3%bool_decide_eq_true].
    apply Hn. destruct u, t; cbn in *; congruence.
  - destruct (_ && _); [done|right]. by apply IH.
Qed.

Lemma expire_expiring t a : expiring a -> expiring (expire t a).
Proof.
  intros He. unfold expire. destruct (keys a !! t_blob t) as [e|] eqn:Hk; [destruct (Z.eqb_spec (added e) (t_added t)) as [Ht|Ht]|].
  all: intros b e' s; cbn.
  - intros [Hb Hl]%lookup_delete_Some Hs. apply remove_timer_other; [by apply He|]. intros <-. by apply Hb.
  - intros Hl Hs. apply remove_timer_other; [by apply He|]. intros <-. cbn in *. rewrite Hk in Hl. injection Hl as ->. done.
  - intros Hl Hs. apply remove_timer_other; [by apply He|]. intros <-. cbn in *. by rewrite Hk in Hl.
Qed.

(** What happens to an agent: a request on any connection, with any answers of the
    application and a view of the lock that may be out of date; a task that wakes up,
    not before its time; and time. *)
Inductive agent_step : Z * Agent -> Z * Agent -> Prop :=
| step_request confirm locked now buf a r a' :
    respond iter confirm locked now buf a = (r, a') -> agent_step (now, a) (now, a')
| step_expire t now a : t ∈ a.(timers) -> t.(fires_at) <= now -> agent_step (now, a) (now, expire t a)
| step_clock now now' a : now <= now' -> agent_step (now, a) (now', a).

Definition agent_new : Agent := mkAgent ∅ [] [].

(** C25. Lifetimes are kept: whatever requests arrive on whatever connections, for
    every key that was added with a lifetime a task is waiting that will remove it
    when the lifetime is over; so at no time when the tasks that are due have run
    does the agent still have a key whose lifetime is over. *)
Theorem lifetimes_enforced now0 now a blob e s :
  rtc agent_step (now0, agent_new) (now, a) ->
  a.(keys) !! blob = Some e -> KeyLifetime s ∈ e.(constraints) ->
  (exists t, t ∈ a.(timers) /\ t.(fires_at) = e.(added) + s * SECOND /\ (expire t a).(keys) !! blob = None) /\
  ((forall t, t ∈ a.(timers) -> now < t.(fires_at)) -> now < e.(added) + s * SECOND).
Proof.
  intros Hr Hk Hs.
  assert (He : expiring a).
  { change a with (now, a).2. revert Hr. generalize (now, a). intros y Hr.
    assert (H0 : expiring (now0, agent_new).2) by (intros b e' s'; cbn; by rewrite lookup_empty).
    induction Hr as [|x y z Hxy _ IH]; [done|]. apply IH. destruct Hxy as [confirm locked t buf b r b' H1|t n b _ _|]; [|by apply expire_expiring|done].
    pose proof (respond_expiring confirm locked t buf b H0) as H2. by rewrite H1 in H2. }
  pose proof (He _ _ _ Hk Hs) as Ht. split.
  - eexists. split; [exact Ht|]. split; [done|]. unfold expire. cbn [t_blob expires t_added]. rewrite Hk, Z.eqb_refl.
    apply lookup_delete_eq.
  - intros Hall. apply (Hall _ Ht).
Qed.
End Lifetimes.
