(* ===== verification/AgentClient.v ===== *)
(** * The client of an SSH agent ([russh/src/keys/agent/client.rs], and
    [AgentIdentity] of [agent/mod.rs])

    A client is a stream and the buffer in which it builds requests and reads
    answers.  The stream is a parameter ([AgentStream]); [AgentExchange] has one
    with the server of [Agent] at its other end. *)

From stdpp Require Import base list numbers option strings.
From Stdlib Require Import ZArith Lia.
From S2P Require Import Prelude Encoding LibInner Auth Agent.

(** ** Identities *)
Section Identities.
Context {UK : UserKeys}.

Inductive AgentIdentity : Type :=
| IdPublicKey (key : PublicKey) (comment : bytes)
| IdCertificate (certificate : Certificate) (comment : bytes).

Definition identity_of_key (key : PublicKey) : AgentIdentity := IdPublicKey key [].
Definition identity_of_certificate (cert : Certificate) : AgentIdentity := IdCertificate cert [].
Definition identity_public_key (i : AgentIdentity) : PublicKey :=
  match i with IdPublicKey key _ => key | IdCertificate cert _ => cert_public_key cert end.
Definition identity_comment (i : AgentIdentity) : bytes :=
  match i with IdPublicKey _ comment | IdCertificate _ comment => comment end.
End Identities.

Definition has_suffix (p b : bytes) : bool := beq (zdrop (zlen b - zlen p) b) p && (zlen p <=? zlen b).
Definition has_prefix (p b : bytes) : bool := beq (ztake (zlen p) b) p.

(** Whether the name at the head of the blob is that of a certificate. *)
Definition is_certificate_blob (blob : bytes) : bool :=
  match read_u32 blob with
  | None => false
  | Some alg_len =>
      let rest := zdrop 4 blob in
      if zlen rest <? alg_len then false
      else
        let alg := ztake alg_len rest in
        is_utf8 alg && has_suffix (str "-cert-v01@openssh.com") alg
  end.

(** ** The stream *)
Class AgentStream (S : Type) : Type := {
  (** [write_all] and [flush] *)
  write_all : bytes -> KM S unit;
  read_exact : Z -> KM S bytes;
}.

Section Client.
Context {enc : SshEncoding} {UK : UserKeys} {AK : AgentKeys} {S : Type} {AS : AgentStream S}.

Record Client : Type := mkClient { stream : S; buf : bytes }.
Definition connect (s : S) : Client := mkClient s [].

Abbreviation M A := (KM Client A).

Definition on_stream {A} (m : KM S A) : M A := fun c =>
  let '(r, s) := m c.(stream) in (r, mkClient s c.(buf)).
Definition on_buf (m : writer KeysError.error) : M unit := fun c =>
  let '(r, b) := m c.(buf) in (r, mkClient c.(stream) b).
Definition set_buf (b : bytes) : M unit := st_mod (fun c => mkClient c.(stream) b).

Definition read_frame : M unit :=
  do header <- on_stream (read_exact 4) ;;
  set_buf header ;;;
  let len := default 0 (read_u32 header) in
  if MAX_AGENT_FRAME_LEN <? len then st_err KeysError.AgentProtocolError
  else
    do body <- on_stream (read_exact len) ;;
    set_buf body.

Definition read_response : M unit := fun c =>
  (on_stream (write_all c.(buf)) ;;; read_frame) c.

Definition read_success : M unit :=
  read_response ;;;
  fun c => if bool_decide (head c.(buf) = Some msg.SUCCESS) then (Ok tt, c) else (Err KeysError.AgentFailure, c).

(** ** Requests *)
Definition kw (m : writer EncError) : writer KeysError.error := st_map_err KeysError.SshEncoding m.
Definition kw_key {A} (r : res KeyError A) : KM bytes A := st_lift (map_err KeysError.SshKey r).

(** [buf.clear(); buf.resize(4, 0)], and the length at the end. *)
Definition begin_request : M unit := set_buf [0; 0; 0; 0].
Definition put_len : M unit := fun c =>
  match write_u32_at 0 (to_u32 (zlen c.(buf) - 4)) c.(buf) with
  | Some b => (Ok tt, mkClient c.(stream) b)
  | None => (Panic, c)
  end.
Definition request (body : writer KeysError.error) : M unit :=
  begin_request ;;; on_buf body ;;; put_len.

Definition encode_constraint (c : Constraint) : writer KeysError.error :=
  match c with
  | KeyLifetime seconds => kw (encode_u8 msg.CONSTRAIN_LIFETIME) ;;; kw (encode_u32 seconds)
  | Confirm => push_byte msg.CONSTRAIN_CONFIRM
  | Extensions name details =>
      kw (encode_u8 msg.CONSTRAIN_EXTENSION) ;;; kw (encode_bytes name) ;;; kw (encode_bytes details)
  end.
Fixpoint encode_constraints (l : list Constraint) : writer KeysError.error :=
  match l with
  | [] => st_ret tt
  | c :: l => encode_constraint c ;;; encode_constraints l
  end.

Definition nonempty {A} (l : list A) : bool := match l with [] => false | _ => true end.

Definition add_identity (key : PrivateKey) (constraints : list Constraint) : M unit :=
  request (
    push_byte (if nonempty constraints then msg.ADD_ID_CONSTRAINED else msg.ADD_IDENTITY) ;;;
    kw (encode_key_data key) ;;;
    kw (encode_bytes []) ;;;
    encode_constraints constraints) ;;;
  read_success.

Definition add_smartcard_key (id pin : bytes) (constraints : list Constraint) : M unit :=
  request (
    push_byte (if nonempty constraints then msg.ADD_SMARTCARD_KEY_CONSTRAINED else msg.ADD_SMARTCARD_KEY) ;;;
    kw (encode_bytes id) ;;;
    kw (encode_bytes pin) ;;;
    (if nonempty constraints then
       kw (encode_u32 (to_u32 (zlen constraints))) ;;; encode_constraints constraints
     else st_ret tt)) ;;;
  read_response.

Definition lock_agent (passphrase : bytes) : M unit :=
  request (push_byte msg.LOCK ;;; kw (encode_bytes passphrase)) ;;; read_response.
Definition unlock_agent (passphrase : bytes) : M unit :=
  request (kw (encode_u8 msg.UNLOCK) ;;; kw (encode_bytes passphrase)) ;;; read_response.
Definition remove_identity (public : PublicKey) : M unit :=
  request (
    push_byte msg.REMOVE_IDENTITY ;;;
    do blob <- kw_key (PublicKey_to_bytes public) ;; kw (encode_bytes blob)) ;;;
  read_response.
Definition remove_smartcard_key (id pin : bytes) : M unit :=
  request (kw (encode_u8 msg.REMOVE_SMARTCARD_KEY) ;;; kw (encode_bytes id) ;;; kw (encode_bytes pin)) ;;;
  read_response.

(** The length is never put in front of the next requests. *)
Definition remove_all_identities : M unit :=
  begin_request ;;;
  on_buf (kw (encode_u8 msg.REMOVE_ALL_IDENTITIES) ;;; kw (encode_u32 1)) ;;;
  read_success.

Definition append_len : M unit := fun c =>
  on_buf (kw (encode_u32 (to_u32 (zlen c.(buf) - 4)))) c.
Definition extension (typ ext : bytes) : M unit :=
  begin_request ;;;
  on_buf (kw (encode_u8 msg.EXTENSION) ;;; kw (encode_bytes typ) ;;; kw (encode_bytes ext)) ;;;
  append_len ;;;
  read_response.
(** What is read into the argument [ext] is lost: the function owns it. *)
Definition query_extension (typ : bytes) : M bool :=
  begin_request ;;;
  on_buf (kw (encode_u8 msg.EXTENSION) ;;; kw (encode_bytes typ)) ;;;
  append_len ;;;
  read_response ;;;
  fun c =>
    match c.(buf) with
    | m :: r =>
        if m =? msg.SUCCESS then
          match decode_bytes r with
          | Ok _ => (Ok true, c)
          | Err x => (Err (KeysError.SshEncoding x), c)
          | Panic => (Panic, c)
          end
        else (Ok false, c)
    | [] => (Ok false, c)
    end.

(** ** The list of identities *)
Definition read_identity (key_blob comment : bytes) : KResult AgentIdentity :=
  let plain :=
    let? key := map_err KeysError.SshKey (PublicKey_decode key_blob) in Ok (IdPublicKey key comment) in
  if is_certificate_blob key_blob then
    match Certificate_decode key_blob with
    | Ok cert => Ok (IdCertificate cert comment)
    | Err _ => plain
    | Panic => Panic
    end
  else plain.

Fixpoint read_identities (n : nat) (r : bytes) : KResult (list AgentIdentity) :=
  match n with
  | O => Ok []
  | Datatypes.S n =>
      let? (key_blob, r) := map_err KeysError.SshEncoding (decode_bytes r) in
      let? (comment, r) := map_err KeysError.SshEncoding (decode_string r) in
      let? identity := read_identity key_blob comment in
      let? l := read_identities n r in
      Ok (identity :: l)
  end.

Definition parse_identities (b : bytes) : KResult (list AgentIdentity) :=
  match b with
  | m :: r =>
      if m =? msg.IDENTITIES_ANSWER then
        let? (n, r) := map_err KeysError.SshEncoding (decode_u32 r) in
        read_identities (Z.to_nat n) r
      else Ok []
  | [] => Ok []
  end.

Definition request_identities : M (list AgentIdentity) :=
  request (kw (encode_u8 msg.REQUEST_IDENTITIES)) ;;;
  read_response ;;;
  fun c => (parse_identities c.(buf), c).

(** ** Signatures *)
Definition hash_flags (a : Algorithm) (h : option HashAlg) : Z :=
  if is_rsa a then match h with Some Sha256 => 2 | Some Sha512 => 4 | None => 0 end else 0.

Definition sign_body (blob : res KeyError bytes) (data : bytes) (hash : Z) : writer KeysError.error :=
  kw (encode_u8 msg.SIGN_REQUEST) ;;;
  do blob <- kw_key blob ;;
  kw (encode_bytes blob) ;;;
  kw (encode_bytes data) ;;;
  kw (encode_u32 hash).

Definition prepare_sign_request (public : PublicKey) (h : option HashAlg) (data : bytes) : M Z :=
  let hash := hash_flags (public_algorithm public) h in
  request (sign_body (PublicKey_to_bytes public) data hash) ;;; st_ret hash.

(** The signature is appended to the data; the type that was asked for is
    checked. *)
Definition write_signature (r : bytes) (hash : Z) (data : bytes) : KResult bytes :=
  let? (resp, _) := map_err KeysError.SshEncoding (decode_bytes r) in
  let? (t, resp) := map_err KeysError.SshEncoding (decode_string resp) in
  if ((hash =? 2) && beq t (str "rsa-sha2-256")) || ((hash =? 4) && beq t (str "rsa-sha2-512")) || (hash =? 0) then
    let? (sig, resp) := map_err KeysError.SshEncoding (decode_bytes resp) in
    let is_sk_signature := has_prefix (str "sk-") t in
    let '(x, data) :=
      (kw (encode_usize (zlen t + zlen sig + 8 + if is_sk_signature then 5 else 0)) ;;;
       kw (encode_bytes t) ;;;
       kw (encode_bytes sig) ;;;
       if is_sk_signature then
         do (flags, resp) <- k_enc (decode_u8 resp) ;;
         do (counter, _) <- k_enc (decode_u32 resp) ;;
         kw (encode_u8 flags) ;;; kw (encode_u32 counter)
       else st_ret tt) data in
    let? _ := x in
    Ok data
  else Err KeysError.AgentProtocolError.

Definition signed_answer (hash : Z) (data b : bytes) : KResult bytes :=
  match b with
  | m :: r =>
      if m =? msg.SIGN_RESPONSE then write_signature r hash data
      else if m =? msg.FAILURE then Err KeysError.AgentFailure
      else Err KeysError.AgentProtocolError
  | [] => Err KeysError.AgentProtocolError
  end.

Definition sign_request_pk (public : PublicKey) (h : option HashAlg) (data : bytes) : M bytes :=
  do hash <- prepare_sign_request public h data ;;
  read_response ;;;
  fun c => (signed_answer hash data c.(buf), c).

Definition sign_request_cert (cert : Certificate) (h : option HashAlg) (data : bytes) : M bytes :=
  let hash := hash_flags (cert_algorithm cert) h in
  request (sign_body (Certificate_to_bytes cert) data hash) ;;;
  read_response ;;;
  fun c => (signed_answer hash data c.(buf), c).

Definition sign_request (identity : AgentIdentity) (h : option HashAlg) (data : bytes) : M bytes :=
  match identity with
  | IdPublicKey key _ => sign_request_pk key h data
  | IdCertificate cert _ => sign_request_cert cert h data
  end.

Definition sign_request_signature (public : PublicKey) (h : option HashAlg) (data : bytes) : M Signature :=
  prepare_sign_request public h data ;;;
  read_response ;;;
  fun c =>
    match c.(buf) with
    | m :: r =>
        if m =? msg.SIGN_RESPONSE then
          (let? (resp, _) := map_err KeysError.SshEncoding (decode_bytes r) in
           let? (sig, _) := map_err KeysError.SshKey (Signature_decode resp) in
           Ok sig, c)
        else (Err KeysError.AgentProtocolError, c)
    | [] => (Err KeysError.AgentProtocolError, c)
    end.

(** The answer in base 64 ([data_encoding]), or nothing. *)
Definition sign_request_base64 (base64 : bytes -> bytes) (public : PublicKey) (h : option HashAlg) (data : bytes)
  : M bytes :=
  prepare_sign_request public h data ;;;
  read_response ;;;
  fun c =>
    match c.(buf) with
    | m :: r => if m =? msg.SIGN_RESPONSE then (Ok (base64 r), c) else (Ok [], c)
    | [] => (Ok [], c)
    end.
End Client.
