(* ===== verification/AgentExchange.v ===== *)
(** * A client of an SSH agent and the agent

    [Link] is a connection between the two: the bytes on the way in both directions,
    and the agent at its end, which answers one request after the other
    ([Connection::run] of [keys/agent/server.rs]).  The theorem of this file is that
    the protocol carries out the operations of [spec] on the keys of the agent. *)

From stdpp Require Import base list numbers option gmap strings.
From Stdlib Require Import ZArith Lia.
From S2P Require Import Prelude Encoding LibInner Auth Parsing Agent AgentClient.

(** ** The connection *)
Section Link.
Context {enc : SshEncoding} {UK : UserKeys} {AK : AgentKeys}.
Context (iter : gmap bytes Entry -> list (bytes * Entry)) (confirm_request : MessageType -> bool) (now : Z).

Record Link : Type := mkLink {
  agent : Agent;
  to_agent : bytes;
  from_agent : bytes;
  alive : bool;
}.

(** The first frame and the rest; [None] when more bytes are needed. *)
Definition split_frame (input : bytes) : option (KResult (bytes * bytes)) :=
  match read_u32 input with
  | None => None
  | Some len =>
      let rest := zdrop 4 input in
      if MAX_AGENT_FRAME_LEN <? len then Some (Err KeysError.AgentProtocolError)
      else if zlen rest <? len then None
      else Some (Ok (ztake len rest, zdrop len rest))
  end.

(** One turn of [run]; an error ends the connection. *)
Definition serve_one (l : Link) : option Link :=
  if alive l then
    match split_frame l.(to_agent) with
    | None => None
    | Some (Ok (buf, rest)) =>
        match respond iter confirm_request (is_locked l.(agent)) now buf l.(agent) with
        | (Ok w, a) => Some (mkLink a rest (l.(from_agent) ++ w) true)
        | (_, a) => Some (mkLink a rest l.(from_agent) false)
        end
    | Some _ => Some (mkLink l.(agent) l.(to_agent) l.(from_agent) false)
    end
  else None.

(** Until it waits.  A frame has at least four bytes. *)
Fixpoint serve_all (fuel : nat) (l : Link) : Link :=
  match fuel with
  | O => l
  | S fuel => match serve_one l with Some l => serve_all fuel l | None => l end
  end.

(** What the client gets when the connection was closed, and when it would wait
    for ever. *)
Definition EOF : Z := 0.
Definition NEVER : Z := 1.

#[export] Instance link_stream : AgentStream Link := {|
  write_all b := fun l =>
    if alive l then
      let input := l.(to_agent) ++ b in
      (Ok tt, serve_all (length input) (mkLink l.(agent) input l.(from_agent) true))
    else (Err (KeysError.IO EOF), l);
  read_exact n := fun l =>
    if n <=? zlen l.(from_agent)
    then (Ok (ztake n l.(from_agent)), mkLink l.(agent) l.(to_agent) (zdrop n l.(from_agent)) l.(alive))
    else (Err (KeysError.IO (if alive l then NEVER else EOF)), l);
|}.

(** Nothing is on its way. *)
Definition quiet (a : Agent) : Link := mkLink a [] [] true.
End Link.

(** ** What an agent is for *)
#[global] Instance MessageType_eq_dec : EqDecision MessageType.
Proof. solve_decision. Defined.

Section Spec.
Context {enc : SshEncoding} {UK : UserKeys} {AK : AgentKeys}.
Context (iter : gmap bytes Entry -> list (bytes * Entry)) (may : MessageType -> bool) (now : Z).

Inductive op : Type :=
| OAdd (key : PrivateKey) (constraints : list Constraint)
| ORemove (public : PublicKey)
| OSign (public : PublicKey) (h : option HashAlg) (data : bytes)
| OList
| OLock (passphrase : bytes)
| OUnlock (passphrase : bytes).

Inductive answer : Type :=
| Done
| Signed (data : bytes)
| Identities (l : list AgentIdentity).

Definition lifetimes (blob : bytes) (c : list Constraint) : list Timer :=
  omap (fun x => match x with KeyLifetime s => Some (expires now s blob) | _ => None end) c.

(** An extension is no constraint that the agent knows; it ends the reading. *)
Definition extends (c : Constraint) : bool := match c with Extensions _ _ => true | _ => false end.
Fixpoint recognised (l : list Constraint) : list Constraint :=
  match l with
  | [] => []
  | c :: l => if extends c then [] else c :: recognised l
  end.

(** What the application is asked. *)
Definition asks (o : op) : MessageType :=
  match o with
  | OAdd _ _ => AddKeys | ORemove _ => RemoveKeys | OSign _ _ _ => Sign
  | OList => RequestKeys | OLock _ => Lock | OUnlock _ => Unlock
  end.
Definition refuses (o : op) (a : Agent) : bool := is_locked a || negb (may (asks o)).

(** Only adding a key, signing and listing tell the client how it went - and
    adding a key with an extension tells it wrongly.  A signature with SHA-2 is
    asked for in vain: it is made without, and then not accepted. *)
Definition spec (o : op) (a : Agent) : KResult answer * Agent :=
  match o with
  | OAdd key c =>
      if refuses o a then (Err KeysError.AgentFailure, a)
      else
        match PublicKey_to_bytes (public_key key) with
        | Ok blob =>
            (Ok Done, mkAgent (if existsb extends c then a.(keys) else <[blob := mkEntry (uncommented key) now c]> a.(keys))
                        a.(lock) (a.(timers) ++ lifetimes blob (recognised c)))
        | _ => (Err KeysError.AgentFailure, a)
        end
  | ORemove public =>
      (Ok Done, if refuses o a then a
                else match PublicKey_to_bytes public with
                     | Ok blob => set_keys (delete blob a.(keys)) a
                     | _ => a
                     end)
  | OSign public h data =>
      (if refuses o a then Err KeysError.AgentFailure
       else
         match PublicKey_to_bytes public with
         | Ok blob =>
             match a.(keys) !! blob with
             | Some e =>
                 match sign_with_hash_alg (PrivateKeyWithHashAlg_new e.(key) None) data with
                 | Ok s => if hash_flags (public_algorithm public) h =? 0 then Ok (Signed (data ++ prefixed s))
                           else Err KeysError.AgentProtocolError
                 | _ => Err KeysError.AgentFailure
                 end
             | None => Err KeysError.AgentFailure
             end
         | _ => Err KeysError.AgentFailure
         end, a)
  | OList =>
      (Ok (Identities (if refuses o a then []
                       else map (fun '(_, e) => IdPublicKey (public_key e.(key)) []) (iter a.(keys)))), a)
  | OLock p => (Ok Done, if refuses o a then a else set_lock p a)
  | OUnlock p => (Ok Done, if is_locked a && may Unlock && beq a.(lock) p then set_lock [] a else a)
  end.

(** The call of the client. *)
Definition run_op {S} `{AgentStream S} (o : op) : KM Client answer :=
  match o with
  | OAdd key c => add_identity key c ;;; st_ret Done
  | ORemove public => remove_identity public ;;; st_ret Done
  | OSign public h data => do d <- sign_request_pk public h data ;; st_ret (Signed d)
  | OList => do l <- request_identities ;; st_ret (Identities l)
  | OLock p => lock_agent p ;;; st_ret Done
  | OUnlock p => unlock_agent p ;;; st_ret Done
  end.
End Spec.

(** What [ssh_key] promises: the format of a signature (RFC 4253, section 6.6), that
    without a hash algorithm an RSA key makes no signature of SHA-2, and that the algorithm of a plain key is not that of a certificate. *)
Class AgentKeysLaws {UK : UserKeys} (AK : AgentKeys) : Prop := {
  uncommented_public key :
    PublicKey_to_bytes (public_key (uncommented key)) = PublicKey_to_bytes (public_key key);
  signature_format k data s : sign_with_hash_alg k data = Ok s ->
    exists t sig, s = prefixed t ++ prefixed sig /\ is_utf8 t = true /\ has_prefix (str "sk-") t = false;
  unhashed_format k data t sig :
    sign_with_hash_alg (PrivateKeyWithHashAlg_new k None) data = Ok (prefixed t ++ prefixed sig) ->
    beq t (str "rsa-sha2-256") = false /\ beq t (str "rsa-sha2-512") = false;
  public_blob_plain key b : PublicKey_to_bytes key = Ok b -> is_certificate_blob b = false;
}.

Section Exchange.
Context {enc : SshEncoding} {UK : UserKeys} {AK : AgentKeys}.
Context `{!SshEncodingLaws enc} `{!UserKeysLaws UK} `{!AgentKeysLaws AK}.
Context (iter : gmap bytes Entry -> list (bytes * Entry)) (may : MessageType -> bool) (now : Z).
Context (iter_keys : forall k, iter k ≡ₚ map_to_list k).
Implicit Types a : Agent.

Abbreviation respond := (respond iter may).
Abbreviation spec := (spec iter may now).
#[local] Existing Instance link_stream.
Abbreviation Client := (AgentClient.Client (S := Link)).
#[local] Instance the_stream : AgentStream Link := link_stream iter may now.

(** ** One request *)
Lemma agent_request_ok {S} (body : writer KeysError.error) p (s : S) b : appends body p ->
  request body (mkClient s b) = (Ok tt, mkClient s (frame p)).
Proof.
  intros Hb. unfold request, begin_request, set_buf, on_buf, put_len, st_bind, st_mod. cbn [stream buf].
  rewrite Hb. cbn [stream buf]. pose proof (write_u32_at_app 0 (to_u32 (zlen ([0; 0; 0; 0] ++ p) - 4)) [] [0; 0; 0; 0] p) as H.
  cbn [app] in *. rewrite H by done. unfold frame. rewrite be32_to_u32. do 4 f_equal. zlia.
Qed.

Lemma split_frame_ok p rest : zlen p <= MAX_AGENT_FRAME_LEN -> split_frame (frame p ++ rest) = Some (Ok (p, rest)).
Proof.
  intros Hp. unfold split_frame, frame. rewrite <- app_assoc, read_u32_be32.
  pose proof (zlen_nonneg p). rewrite to_u32_small by (unfold is_u32, U32_MOD, MAX_AGENT_FRAME_LEN in *; lia).
  rewrite zdrop_app_exact by (by rewrite zlen_be32). destruct (Z.ltb_spec MAX_AGENT_FRAME_LEN (zlen p)); [lia|].
  destruct (Z.ltb_spec (zlen (p ++ rest)) (zlen p)); [revert H1; zlia|].
  by rewrite ztake_app_exact, zdrop_app_exact.
Qed.

Lemma serve_frame a a' p q : respond (is_locked a) now p a = (Ok q, a') -> zlen p <= MAX_AGENT_FRAME_LEN ->
  write_all (frame p) (quiet a) = (Ok tt, mkLink a' [] q true).
Proof.
  intros Hr Hp. unfold write_all, the_stream, link_stream, quiet. cbn [alive to_agent from_agent agent app].
  f_equal. assert (Hl : exists n, length (frame p) = Datatypes.S (Datatypes.S n)) by (unfold frame; by eexists).
  destruct Hl as [n ->]. cbn [serve_all]. unfold serve_one at 1. cbn [alive to_agent agent from_agent].
  pose proof (split_frame_ok p [] Hp) as Hs. rewrite app_nil_r in Hs. rewrite Hs, Hr. cbn [app]. done.
Qed.

Lemma exchange a a' p q : respond (is_locked a) now p a = (Ok (frame q), a') ->
  zlen p <= MAX_AGENT_FRAME_LEN -> zlen q <= MAX_AGENT_FRAME_LEN ->
  read_response (mkClient (quiet a) (frame p)) = (Ok tt, mkClient (quiet a') q).
Proof.
  intros Hr Hp Hq. unfold read_response, st_bind, on_stream. cbn [stream buf]. rewrite (serve_frame _ _ _ _ Hr Hp).
  unfold read_frame, st_bind, on_stream, set_buf, st_mod. cbn [stream buf read_exact the_stream link_stream from_agent].
  pose proof (zlen_nonneg q) as H0. assert (Hz : zlen (frame q) = 4 + zlen q) by apply zlen_frame.
  destruct (Z.leb_spec 4 (zlen (frame q))); [|lia]. cbn [stream buf alive agent to_agent].
  replace (ztake 4 (frame q)) with (be32 (zlen q) ++ []) by (unfold frame; by rewrite ztake_app_exact, app_nil_r).
  replace (zdrop 4 (frame q)) with q by (unfold frame; by rewrite zdrop_app_exact).
  rewrite read_u32_be32. cbn [from_option]. unfold id.
  rewrite to_u32_small by (unfold is_u32, U32_MOD, MAX_AGENT_FRAME_LEN in *; lia).
  destruct (Z.ltb_spec MAX_AGENT_FRAME_LEN (zlen q)); [lia|]. cbn [from_agent stream buf alive agent to_agent].
  rewrite Z.leb_refl. by rewrite (ztake_all (zlen q)), (zdrop_all (zlen q)) by lia.
Qed.

(** ** What the agent answers *)
Abbreviation serve := (serve_request iter may).
Definition ZEROS : bytes := [0; 0; 0; 0].

Lemma prefixed_decoded b r : zlen b <= MAX_ENCODED_LEN -> decode_bytes (prefixed b ++ r) = Ok (b, r).
Proof. intros Hb. unfold prefixed. rewrite <- app_assoc. by apply decode_bytes_prefixed. Qed.
Lemma prefixed_string_decoded b r : zlen b <= MAX_ENCODED_LEN -> is_utf8 b = true ->
  decode_string (prefixed b ++ r) = Ok (b, r).
Proof. intros Hb Hu. unfold prefixed. rewrite <- app_assoc. by apply decode_string_prefixed. Qed.

Lemma respond_refuses a p : is_locked a = true -> hd 0 p <> msg.UNLOCK ->
  respond true now p a = (Ok (frame [msg.FAILURE]), a).
Proof.
  intros Hl Hp. rewrite <- Hl at 1. rewrite locked_respond by done. destruct p as [|m r]; [done|]. cbn in Hp.
  by rewrite (proj2 (Z.eqb_neq m msg.UNLOCK) Hp).
Qed.

(** *** Adding a key *)
Definition constraint_bytes (c : Constraint) : bytes :=
  match c with
  | KeyLifetime s => msg.CONSTRAIN_LIFETIME :: be32 s
  | Confirm => [msg.CONSTRAIN_CONFIRM]
  | Extensions name details => msg.CONSTRAIN_EXTENSION :: prefixed name ++ prefixed details
  end.
Definition constraints_bytes (l : list Constraint) : bytes := concat (map constraint_bytes l).
Definition encodable (c : Constraint) : Prop :=
  match c with
  | KeyLifetime s => is_u32 s
  | Confirm => True
  | Extensions name details => zlen name < U32_MOD /\ zlen details < U32_MOD
  end.

Lemma read_constraints_ok blob l : Forall encodable l -> forall fuel acc c, (length (constraints_bytes l) < fuel)%nat ->
  read_constraints fuel now blob (constraints_bytes l) acc c =
    (Ok (if existsb extends l then None else Some (acc ++ l)),
     (mkAgent c.1.(keys) c.1.(lock) (c.1.(timers) ++ lifetimes now blob (recognised l)), c.2)).
Proof.
  induction 1 as [|x l Hx _ IH]; intros [|fuel] acc [[k p t] w] Hf; try (cbn in Hf; lia).
  - cbn [read_constraints constraints_bytes concat map]. destruct decode_u8_nil as [e ->]. cbn. by rewrite !app_nil_r.
  - cbn [constraints_bytes concat map] in *. fold (constraints_bytes l) in *. rewrite length_app in Hf.
    destruct x as [s| |]; cbn [constraint_bytes app] in *; cbn [read_constraints length] in *; rewrite decode_u8_cons.
    + change (msg.CONSTRAIN_LIFETIME =? msg.CONSTRAIN_LIFETIME) with true. cbn match.
      unfold k_enc, st_bind, st_lift. rewrite decode_u32_be32 by done. cbn [map_err on_agent st_mod fst snd].
      rewrite IH by (cbn in Hf; lia). cbn. by rewrite <- !app_assoc.
    + change (msg.CONSTRAIN_CONFIRM =? msg.CONSTRAIN_LIFETIME) with false.
      change (msg.CONSTRAIN_CONFIRM =? msg.CONSTRAIN_CONFIRM) with true. cbn match.
      rewrite IH by lia. cbn. by rewrite <- !app_assoc.
    + change (msg.CONSTRAIN_EXTENSION =? msg.CONSTRAIN_LIFETIME) with false.
      change (msg.CONSTRAIN_EXTENSION =? msg.CONSTRAIN_CONFIRM) with false. cbn. by rewrite app_nil_r.
Qed.

(** A key that is written in the clear and read back. *)
Definition plain_key (key : PrivateKey) (p : bytes) : Prop :=
  appends (encode_key_data key) p /\ forall r, decode_key_pair (p ++ r) = Ok (uncommented key, r).

Lemma add_key_ok key p blob l a w : plain_key key p -> PublicKey_to_bytes (public_key key) = Ok blob ->
  Forall encodable l ->
  add_key now (p ++ prefixed [] ++ constraints_bytes l) (nonempty l) (a, w) =
    (Ok (negb (existsb extends l)),
     (mkAgent (if existsb extends l then a.(keys) else <[blob := mkEntry (uncommented key) now l]> a.(keys)) a.(lock)
        (a.(timers) ++ lifetimes now blob (recognised l)), w ++ [msg.SUCCESS])).
Proof.
  intros [_ Hd] Hb Hl. unfold add_key, k_key, k_enc, st_bind, st_lift. rewrite Hd. cbn [map_err].
  rewrite prefixed_string_decoded by done. cbn [map_err]. rewrite uncommented_public, Hb. cbn [map_err].
  unfold push, st_mod. cbn [fst snd]. destruct l as [|x l]; cbn [nonempty].
  - cbn. destruct a. by rewrite app_nil_r.
  - rewrite (read_constraints_ok blob) by (done || lia). by destruct (existsb extends (x :: l)).
Qed.

(** *** The requests *)
Definition request_bytes (o : op) (p : bytes) : Prop :=
  match o with
  | OAdd key l => exists k, plain_key key k /\
      p = (if nonempty l then msg.ADD_ID_CONSTRAINED else msg.ADD_IDENTITY) :: k ++ prefixed [] ++ constraints_bytes l
  | ORemove public => exists blob, PublicKey_to_bytes public = Ok blob /\ p = msg.REMOVE_IDENTITY :: prefixed blob
  | OSign public h data => exists blob, PublicKey_to_bytes public = Ok blob /\
      p = msg.SIGN_REQUEST :: prefixed blob ++ prefixed data ++ be32 (hash_flags (public_algorithm public) h)
  | OList => p = [msg.REQUEST_IDENTITIES]
  | OLock pass => p = msg.LOCK :: prefixed pass
  | OUnlock pass => p = msg.UNLOCK :: prefixed pass
  end.

Fixpoint identities_bytes (l : list (bytes * Entry)) : bytes :=
  match l with [] => [] | (k, _) :: l => prefixed k ++ prefixed [] ++ identities_bytes l end.

(** The answer, when the agent is not locked and the application agrees. *)
Definition answer_bytes (o : op) a (q : bytes) : Prop :=
  match o with
  | OAdd key l => q = msg.SUCCESS :: (if existsb extends l then [msg.FAILURE] else []) /\ is_ok (PublicKey_to_bytes (public_key key)) = true
  | ORemove public =>
      match PublicKey_to_bytes public with
      | Ok blob => q = [if bool_decide (is_Some (a.(keys) !! blob)) then msg.SUCCESS else msg.FAILURE]
      | _ => False
      end
  | OSign public _ data =>
      match PublicKey_to_bytes public with
      | Ok blob =>
          match a.(keys) !! blob with
          | Some e => exists s, sign_with_hash_alg (PrivateKeyWithHashAlg_new e.(key) None) data = Ok s /\
              q = msg.SIGN_RESPONSE :: prefixed s
          | None => q = [msg.FAILURE]
          end
      | _ => False
      end
  | OList => q = msg.IDENTITIES_ANSWER :: be32 (Z.of_nat (size a.(keys))) ++ identities_bytes (iter a.(keys))
  | OLock _ => q = [msg.SUCCESS]
  | OUnlock _ => q = [msg.FAILURE]
  end.

(** A request that fits into a frame, on an agent whose keys are under the name of
    their public part. *)
Definition wf a : Prop := forall blob e, a.(keys) !! blob = Some e -> PublicKey_to_bytes (public_key e.(key)) = Ok blob.

Lemma frame_max : MAX_AGENT_FRAME_LEN <= MAX_ENCODED_LEN.
Proof. done. Qed.

Lemma plain_answer p a a' q : serve false now p (a, ZEROS) = (Ok false, (a', ZEROS ++ q)) ->
  respond false now p a = (Ok (frame q), a').
Proof. apply respond_plain. Qed.

(** The arms of [serve_request] when the agent is not locked and the application
    agrees; otherwise there is a refusal. *)
Lemma serve_sign r : may Sign = true -> serve false now (msg.SIGN_REQUEST :: r) =
  (do signed <- server_try_sign r ;;
   if signed : bool then st_ret true
   else st_mod (fun c : Ctx => (c.1, vec_resize 4 0 c.2)) ;;; push msg.FAILURE ;;; st_ret false).
Proof. intros Hm. unfold serve_request. cbv zeta beta. by rewrite Hm. Qed.
Lemma serve_add (b : bool) r : may AddKeys = true ->
  serve false now ((if b then msg.ADD_ID_CONSTRAINED else msg.ADD_IDENTITY) :: r) =
  (do ok <- attempt (add_key now r b) ;; (if ok : bool then st_ret tt else push msg.FAILURE) ;;; st_ret false).
Proof. intros Hm. unfold serve_request. cbv zeta beta. rewrite Hm. by destruct b. Qed.
Lemma serve_remove_arm r : may RemoveKeys = true -> serve false now (msg.REMOVE_IDENTITY :: r) =
  (do ok <- attempt (server_remove_identity r) ;; push_result ok ;;; st_ret false).
Proof. intros Hm. unfold serve_request. cbv zeta beta. by rewrite Hm. Qed.
Lemma serve_lock_arm r : may Lock = true -> serve false now (msg.LOCK :: r) =
  (do ok <- attempt (server_lock r ;;; st_ret true) ;; push_result ok ;;; st_ret false).
Proof. intros Hm. unfold serve_request. cbv zeta beta. by rewrite Hm. Qed.
Lemma serve_list_arm : may RequestKeys = true -> serve false now [msg.REQUEST_IDENTITIES] =
  ((fun c : Ctx =>
      (out (encode_u8 msg.IDENTITIES_ANSWER) ;;;
       out (encode_u32 (to_u32 (Z.of_nat (size c.1.(keys))))) ;;;
       list_keys (iter c.1.(keys))) c) ;;; st_ret false).
Proof. intros Hm. unfold serve_request. cbv zeta beta. by rewrite Hm. Qed.

Lemma serve_refused o p a : request_bytes o p -> may (asks o) = false ->
  respond false now p a = (Ok (frame [msg.FAILURE]), a).
Proof.
  intros Hp Hm. apply plain_answer. unfold serve_request. cbv zeta beta.
  destruct o as [key l|public|public h data| |pass|pass]; cbn [request_bytes asks] in *.
  - destruct Hp as (k & _ & ->). rewrite Hm. by destruct l.
  - destruct Hp as (blob & _ & ->). by rewrite Hm.
  - destruct Hp as (blob & _ & ->). by rewrite Hm.
  - subst p. by rewrite Hm.
  - subst p. by rewrite Hm.
  - by subst p.
Qed.

Lemma list_keys_ok l a w : Forall (fun x : bytes * Entry => zlen x.1 < U32_MOD) l ->
  list_keys l (a, w) = (Ok tt, (a, w ++ identities_bytes l)).
Proof.
  intros Hl. revert w. induction Hl as [|[k e] l Hk _ IH]; intros w; cbn [list_keys identities_bytes]; [by rewrite app_nil_r|].
  cbn in Hk. unfold out, st_bind. cbn [fst snd]. rewrite (encode_bytes_appends k Hk). cbn [fst snd map_err].
  rewrite (encode_bytes_appends []) by done. cbn [fst snd map_err]. rewrite IH. by rewrite <- !app_assoc.
Qed.

Lemma identities_bytes_bound l : 0 <= zlen (identities_bytes l) /\
  Forall (fun x => zlen x.1 <= zlen (identities_bytes l)) l /\ zlen l <= zlen (identities_bytes l).
Proof.
  induction l as [|[k e] l (H0 & IH & Hl)]; [done|]. cbn [identities_bytes].
  assert (zlen (prefixed k ++ prefixed [] ++ identities_bytes l) = 8 + zlen k + zlen (identities_bytes l)) as -> by (unfold prefixed; zlia).
  pose proof (zlen_nonneg k). split_and!; [lia| |zlia]. constructor; [cbn; lia|].
  eapply Forall_impl; [exact IH|]. cbn. intros x Hx. lia.
Qed.

Lemma size_iter k : Z.of_nat (size k) = zlen (iter k).
Proof. rewrite <- (length_map_to_list k). unfold zlen. by rewrite (Permutation_length (iter_keys k)). Qed.

Lemma sign_answer_ok public data f blob e s a : may Sign = true ->
  PublicKey_to_bytes public = Ok blob -> a.(keys) !! blob = Some e ->
  sign_with_hash_alg (PrivateKeyWithHashAlg_new e.(key) None) data = Ok s ->
  zlen blob <= MAX_ENCODED_LEN -> zlen data <= MAX_ENCODED_LEN ->
  respond false now (msg.SIGN_REQUEST :: prefixed blob ++ prefixed data ++ f) a =
    (Ok (frame (msg.SIGN_RESPONSE :: prefixed s)), a).
Proof.
  intros Hmay Hb Hk Hs Hl1 Hl2. apply sign_verifies in Hs as Hs2. destruct Hs2 as [Hs2 _].
  assert (Ht : server_try_sign (prefixed blob ++ prefixed data ++ f) (a, ZEROS) =
    (Ok true, (a, frame (msg.SIGN_RESPONSE :: prefixed s)))).
  { unfold server_try_sign, k_enc, k_key, st_bind, st_lift. rewrite prefixed_decoded by done. cbn [map_err fst snd].
    rewrite Hk. unfold push, st_mod. cbn [fst snd]. rewrite prefixed_decoded by done. cbn [map_err]. rewrite Hs. cbn [map_err].
    unfold out. cbn [fst snd].
    rewrite (encode_bytes_appends s) by (unfold MAX_ENCODED_LEN, U32_MOD in *; lia). cbn [map_err fst snd].
    fold (prefixed s). replace ((ZEROS ++ [msg.SIGN_RESPONSE]) ++ prefixed s) with ([0; 0; 0; 0] ++ (msg.SIGN_RESPONSE :: prefixed s)) by (by rewrite <- app_assoc).
    by rewrite patch_len_frame. }
  unfold Agent.respond. rewrite serve_sign by done. fold ZEROS. unfold st_bind. rewrite Ht. done.
Qed.

Lemma serve_lock pass a : may Lock = true -> zlen pass <= MAX_ENCODED_LEN ->
  respond false now (msg.LOCK :: prefixed pass) a = (Ok (frame [msg.SUCCESS]), set_lock (a.(lock) ++ pass) a).
Proof.
  intros Hm Hp. apply plain_answer. rewrite serve_lock_arm by done.
  unfold attempt, server_lock, k_enc, st_bind, st_lift. pose proof (prefixed_decoded pass [] Hp) as H. rewrite app_nil_r in H.
  rewrite H. done.
Qed.

Lemma serve_remove blob a : may RemoveKeys = true -> zlen blob <= MAX_ENCODED_LEN ->
  respond false now (msg.REMOVE_IDENTITY :: prefixed blob) a =
    (Ok (frame [if bool_decide (is_Some (a.(keys) !! blob)) then msg.SUCCESS else msg.FAILURE]), set_keys (delete blob a.(keys)) a).
Proof.
  intros Hm Hp. apply plain_answer. rewrite serve_remove_arm by done.
  unfold attempt, server_remove_identity, k_enc, st_bind, st_lift. pose proof (prefixed_decoded blob [] Hp) as H. rewrite app_nil_r in H.
  rewrite H. cbn [map_err fst snd]. destruct (keys a !! blob) as [e|] eqn:Hk.
  - rewrite bool_decide_true by (by eexists). done.
  - rewrite bool_decide_false by (by intros [? ?]). cbn. do 2 f_equal. unfold set_keys. destruct a as [k l t]. cbn in *.
    f_equal. symmetry. by apply delete_id.
Qed.

Lemma serves o a p q : is_locked a = false -> may (asks o) = true -> request_bytes o p -> answer_bytes o a q ->
  match o with OAdd _ l => Forall encodable l | _ => True end ->
  zlen p <= MAX_AGENT_FRAME_LEN -> zlen q <= MAX_AGENT_FRAME_LEN ->
  respond false now p a = (Ok (frame q), (spec o a).2).
Proof.
  intros Hl Hmay Hp Hq Hen Hzp Hzq. pose proof frame_max as Hm.
  destruct o as [key l|public|public h data| |pass|pass]; cbn [request_bytes answer_bytes asks AgentExchange.spec] in *;
    unfold refuses; cbn [asks]; rewrite ?Hl, ?Hmay; cbn [orb negb andb].
  - destruct Hp as (k & Hk & ->). destruct Hq as (-> & (blob & Hb)%is_ok_inv). rewrite Hb.
    apply plain_answer. rewrite serve_add by done. unfold attempt, st_bind. rewrite (add_key_ok key k blob) by done.
    by destruct (existsb extends l).
  - destruct Hp as (blob & Hb & ->). rewrite Hb in *. subst q. apply serve_remove; [done|]. revert Hzp. unfold prefixed. zlia.
  - destruct Hp as (blob & Hb & ->). rewrite Hb in *.
    assert (zlen blob <= MAX_ENCODED_LEN /\ zlen data <= MAX_ENCODED_LEN) as [H1 H2].
    { revert Hzp. unfold prefixed. pose proof (zlen_nonneg blob). pose proof (zlen_nonneg data). zlia. }
    destruct (keys a !! blob) as [e|] eqn:Hk; [destruct Hq as (s & Hs & ->); by eapply sign_answer_ok|]. subst q.
    apply plain_answer. rewrite serve_sign by done. unfold server_try_sign, k_enc, st_bind, st_lift.
    rewrite prefixed_decoded by done. cbn [map_err fst snd]. by rewrite Hk.
  - subst p q. apply plain_answer. rewrite serve_list_arm by done. unfold out, st_bind. cbn [fst snd].
    assert (Hz : zlen (identities_bytes (iter (keys a))) + 5 <= MAX_AGENT_FRAME_LEN) by (revert Hzq; zlia).
    destruct (identities_bytes_bound (iter (keys a))) as (H0 & Hf & Hc). rewrite size_iter.
    pose proof (zlen_nonneg (iter (keys a))) as Hn.
    rewrite (encode_u8_appends msg.IDENTITIES_ANSWER) by done. cbn [fst snd map_err].
    rewrite to_u32_small by (unfold is_u32, U32_MOD, MAX_AGENT_FRAME_LEN in *; lia).
    rewrite (encode_u32_appends (zlen (iter (keys a)))) by (unfold is_u32, U32_MOD, MAX_AGENT_FRAME_LEN in *; lia).
    cbn [fst snd map_err]. rewrite list_keys_ok; [done|]. eapply Forall_impl; [exact Hf|]. intros x Hx. cbn in Hx.
    unfold U32_MOD, MAX_AGENT_FRAME_LEN in *. lia.
  - subst p q. rewrite serve_lock; [|done|revert Hzp; unfold prefixed; zlia].
    do 2 f_equal. unfold is_locked in Hl. apply negb_false_iff, beq_true in Hl. by rewrite Hl.
  - subst p q. apply plain_answer. unfold serve_request. done.
Qed.

(** ** What the client makes of it *)
Definition understood (o : op) (q : bytes) : KResult answer :=
  match o with
  | OAdd _ _ => if bool_decide (head q = Some msg.SUCCESS) then Ok Done else Err KeysError.AgentFailure
  | OSign public h data => let? d := signed_answer (hash_flags (public_algorithm public) h) data q in Ok (Signed d)
  | OList => let? l := parse_identities q in Ok (Identities l)
  | _ => Ok Done
  end.

Lemma constraints_appends l : Forall encodable l -> appends (encode_constraints l) (constraints_bytes l).
Proof.
  induction 1 as [|c l Hc _ IH]; [apply appends_ret|]. cbn [encode_constraints constraints_bytes map concat].
  apply appends_bind; [|exact IH]. destruct c as [s| |name details]; cbn [encode_constraint constraint_bytes].
  - apply (appends_bind _ _ [msg.CONSTRAIN_LIFETIME]); apply appends_map_err; [by apply encode_u8_appends|by apply encode_u32_appends].
  - apply appends_push_byte.
  - destruct Hc. apply (appends_bind _ _ [msg.CONSTRAIN_EXTENSION]); [by apply appends_map_err, encode_u8_appends|].
    apply appends_bind; by apply appends_map_err, encode_bytes_appends.
Qed.

Lemma kw_bytes_appends b : zlen b <= MAX_ENCODED_LEN -> appends (kw (encode_bytes b)) (prefixed b).
Proof. intros Hb. apply appends_map_err, encode_bytes_appends. unfold MAX_ENCODED_LEN, U32_MOD in *. lia. Qed.
Lemma kw_u8_appends v : is_u8 v -> appends (kw (encode_u8 v)) [v].
Proof. intros Hv. by apply appends_map_err, encode_u8_appends. Qed.

Lemma sign_body_appends public blob data f : PublicKey_to_bytes public = Ok blob -> is_u32 f ->
  zlen blob <= MAX_ENCODED_LEN -> zlen data <= MAX_ENCODED_LEN ->
  appends (sign_body (PublicKey_to_bytes public) data f) (msg.SIGN_REQUEST :: prefixed blob ++ prefixed data ++ be32 f).
Proof.
  intros Hb Hf H1 H2. unfold sign_body. apply (appends_bind _ _ [msg.SIGN_REQUEST]); [by apply kw_u8_appends|].
  intros w. unfold st_bind at 1, kw_key, st_lift. rewrite Hb. cbn [map_err]. revert w.
  apply appends_bind; [by apply kw_bytes_appends|]. apply appends_bind; [by apply kw_bytes_appends|].
  by apply appends_map_err, encode_u32_appends.
Qed.

Lemma hash_flags_cases key h : hash_flags key h = 0 \/ hash_flags key h = 2 \/ hash_flags key h = 4.
Proof. unfold hash_flags. destruct (is_rsa key), h as [[]|]; auto. Qed.
Lemma hash_flags_u32 key h : is_u32 (hash_flags key h).
Proof. by destruct (hash_flags_cases key h) as [->|[->| ->]]. Qed.

(** The body of the request appends what it should; then the request is made. *)
Ltac client_request Hreq He :=
  match goal with |- context [request ?body] =>
    let Hb := fresh "Hb" in
    match type of He with read_response {| stream := _; buf := frame ?p |} = _ => assert (Hb : appends body p) end;
    [|revert Hb; generalize body; intros ? Hb; unfold st_bind; rewrite (Hreq _ Hb); cbn [fst snd]]
  end.

Lemma client_ok o a a' p q b : request_bytes o p -> match o with OAdd _ l => Forall encodable l | _ => True end ->
  respond (is_locked a) now p a = (Ok (frame q), a') ->
  zlen p <= MAX_AGENT_FRAME_LEN -> zlen q <= MAX_AGENT_FRAME_LEN ->
  run_op o (mkClient (quiet a) b) = (understood o q, mkClient (quiet a') q).
Proof.
  intros Hp Hk Hr Hzp Hzq. pose proof (exchange _ _ _ _ Hr Hzp Hzq) as He. pose proof frame_max as Hm.
  assert (Hreq : forall body, appends body p -> request body (mkClient (quiet a) b) = (Ok tt, mkClient (quiet a) (frame p)))
    by (intros; by apply agent_request_ok).
  destruct o as [key l|public|public h data| |pass|pass]; cbn [request_bytes run_op understood] in *.
  - destruct Hp as (k & [Hkey _] & ->). unfold add_identity. client_request Hreq He.
    + apply (appends_bind _ _ [_]); [apply appends_push_byte|]. apply appends_bind; [by apply appends_map_err|].
      apply appends_bind; [by apply kw_bytes_appends|]. by apply constraints_appends.
    + unfold read_success, st_bind. rewrite He. cbn [buf]. by destruct (bool_decide _).
  - destruct Hp as (blob & Hb & ->). unfold remove_identity. client_request Hreq He; [|by rewrite He].
    apply (appends_bind _ _ [_]); [apply appends_push_byte|]. intros w. unfold st_bind, kw_key, st_lift. rewrite Hb. cbn [map_err].
    apply kw_bytes_appends. revert Hzp. unfold prefixed. zlia.
  - destruct Hp as (blob & Hb & ->). unfold sign_request_pk, prepare_sign_request. client_request Hreq He.
    + apply sign_body_appends; [done|apply hash_flags_u32|..]; revert Hzp; unfold prefixed; pose proof (zlen_nonneg blob); pose proof (zlen_nonneg data); zlia.
    + unfold st_ret. rewrite He. cbn [buf]. by destruct (signed_answer _ _ _).
  - subst p. unfold request_identities. client_request Hreq He; [by apply kw_u8_appends|].
    rewrite He. cbn [buf]. by destruct (parse_identities q).
  - subst p. unfold lock_agent. client_request Hreq He; [|by rewrite He]. apply (appends_bind _ _ [_]); [apply appends_push_byte|].
    apply kw_bytes_appends. revert Hzp. unfold prefixed. zlia.
  - subst p. unfold unlock_agent. client_request Hreq He; [|by rewrite He]. apply (appends_bind _ _ [_]); [by apply kw_u8_appends|].
    apply kw_bytes_appends. revert Hzp. unfold prefixed. zlia.
Qed.

(** A signature, and the list of keys. *)
Lemma signed_answer_ok k data f s : sign_with_hash_alg (PrivateKeyWithHashAlg_new k None) data = Ok s ->
  f = 0 \/ f = 2 \/ f = 4 ->
  signed_answer f data (msg.SIGN_RESPONSE :: prefixed s) =
    if f =? 0 then Ok (data ++ prefixed s) else Err KeysError.AgentProtocolError.
Proof.
  intros Hs Hf. pose proof (sign_verifies _ _ _ Hs) as [Hz _].
  pose proof (signature_format _ _ _ Hs) as (t & sig & -> & Hu & Hsk). apply unhashed_format in Hs as [Ht2 Ht5].
  unfold signed_answer. change (msg.SIGN_RESPONSE =? msg.SIGN_RESPONSE) with true. cbn match. unfold write_signature.
  pose proof (prefixed_decoded _ [] Hz) as Hd. rewrite app_nil_r in Hd. rewrite Hd. cbn [map_err res_bind].
  assert (Hzs : zlen (prefixed t ++ prefixed sig) = zlen t + zlen sig + 8) by (unfold prefixed; zlia).
  pose proof (zlen_nonneg t) as Ht. pose proof (zlen_nonneg sig) as Hsig. rewrite Hzs in Hz.
  rewrite prefixed_string_decoded by (done || lia). cbn [map_err res_bind].
  rewrite Ht2, Ht5, !andb_false_r. cbn [orb]. destruct Hf as [->|[->| ->]]; [|done..].
  pose proof (prefixed_decoded sig [] ltac:(lia)) as Hd2. rewrite app_nil_r in Hd2.
  change (0 =? 0) with true. cbn match. rewrite Hd2.
  cbn [map_err res_bind]. rewrite Hsk. unfold st_bind, kw, st_map_err, st_ret.
  cbn match. rewrite (encode_usize_appends (zlen t + zlen sig + 8 + 0) ltac:(unfold is_u32, U32_MOD, MAX_ENCODED_LEN in *; lia)). cbn [map_err].
  rewrite (encode_bytes_appends t ltac:(unfold U32_MOD, MAX_ENCODED_LEN in *; lia)). cbn [map_err].
  rewrite (encode_bytes_appends sig ltac:(unfold U32_MOD, MAX_ENCODED_LEN in *; lia)). cbn [map_err res_bind].
  f_equal. rewrite <- !app_assoc. f_equal. unfold prefixed at 1. rewrite Hzs, Z.add_0_r. unfold prefixed. by rewrite <- !app_assoc.
Qed.

Lemma read_identities_ok l : Forall (fun x : bytes * Entry =>
    PublicKey_to_bytes (public_key x.2.(key)) = Ok x.1 /\ zlen x.1 <= MAX_ENCODED_LEN) l ->
  read_identities (length l) (identities_bytes l) = Ok (map (fun '(_, e) => IdPublicKey (public_key e.(key)) []) l).
Proof.
  induction 1 as [|[k e] l [Hk Hz] _ IH]; [done|]. cbn [length read_identities identities_bytes map]. cbn in Hk, Hz.
  rewrite prefixed_decoded by done. cbn [map_err res_bind]. rewrite prefixed_string_decoded by done. cbn [map_err res_bind].
  unfold read_identity. rewrite (public_blob_plain _ _ Hk). apply PublicKey_roundtrip in Hk as [-> _].
  cbn [map_err res_bind]. by rewrite IH.
Qed.

(** ** The protocol carries out the operations *)
Definition fits (o : op) a : Prop :=
  exists p, request_bytes o p /\ zlen p <= MAX_AGENT_FRAME_LEN /\
    match o with OAdd _ l => Forall encodable l | _ => True end /\
    (is_locked a = false -> may (asks o) = true -> exists q, answer_bytes o a q /\ zlen q <= MAX_AGENT_FRAME_LEN).

Lemma spec_wf o a : wf a -> wf (spec o a).2.
Proof.
  intros Hw blob e. destruct o as [key l|public|public h data| |pass|pass]; cbn [AgentExchange.spec]; try (apply Hw).
  - destruct (refuses _ _ a); [apply Hw|]. destruct (PublicKey_to_bytes (public_key key)) as [b| |] eqn:Hb; [|apply Hw..]. cbn.
    destruct (existsb extends l); [apply Hw|].
    destruct (decide (blob = b)) as [->|Hn]; [rewrite lookup_insert_eq; intros [= <-]; cbn; by rewrite uncommented_public|].
    rewrite lookup_insert_ne by done. apply Hw.
  - cbn [snd]. destruct (refuses _ _ a); [apply Hw|]. destruct (PublicKey_to_bytes public); [|apply Hw..]. cbn.
    intros [_ Hb]%lookup_delete_Some. by apply Hw.
  - cbn [snd]. by destruct (refuses _ _ a); apply Hw.
  - cbn [snd]. by destruct (is_locked a && may Unlock && beq (lock a) pass); apply Hw.
Qed.

Lemma understood_ok o a p q : wf a -> is_locked a = false -> may (asks o) = true -> request_bytes o p -> answer_bytes o a q ->
  zlen q <= MAX_AGENT_FRAME_LEN -> understood o q = (spec o a).1.
Proof.
  intros Hw Hl Hmay Hp Hq Hz. pose proof frame_max as Hm.
  destruct o as [key l|public|public h data| |pass|pass]; cbn [request_bytes answer_bytes asks understood AgentExchange.spec] in *;
    unfold refuses; cbn [asks]; rewrite ?Hl, ?Hmay; try done; cbn [orb negb].
  - destruct Hq as (-> & [b ->]%is_ok_inv). done.
  - destruct Hp as (blob & Hb & _). rewrite Hb in *. destruct (keys a !! blob) as [e|]; [|by subst q].
    destruct Hq as (s & Hs & ->). rewrite Hs, (signed_answer_ok _ _ _ _ Hs) by apply hash_flags_cases.
    by destruct (hash_flags _ _ =? 0).
  - subst q. unfold parse_identities. change (msg.IDENTITIES_ANSWER =? msg.IDENTITIES_ANSWER) with true. cbn match.
    destruct (identities_bytes_bound (iter (keys a))) as (H0 & Hf & Hc). pose proof (zlen_nonneg (iter (keys a))) as Hn.
    assert (Hz' : zlen (identities_bytes (iter (keys a))) + 5 <= MAX_AGENT_FRAME_LEN) by (revert Hz; zlia).
    rewrite size_iter, decode_u32_be32 by (unfold is_u32, U32_MOD, MAX_AGENT_FRAME_LEN in *; lia). cbn [map_err res_bind].
    unfold zlen at 1. rewrite Nat2Z.id, read_identities_ok; [done|]. rewrite Forall_forall in *. intros [k e] Hin. split.
    + apply Hw. apply elem_of_map_to_list. by rewrite <- (iter_keys (keys a)).
    + specialize (Hf _ Hin). cbn in *. lia.
Qed.

(** A refusal is understood as one. *)
Lemma refusal_understood o a : (asks o = Unlock -> is_locked a = false \/ may Unlock = false) -> refuses may o a = true \/ asks o = Unlock ->
  understood o [msg.FAILURE] = (spec o a).1 /\ (spec o a).2 = a.
Proof.
  intros Hu Hr. destruct o as [key l|public|public h data| |pass|pass]; cbn [understood AgentExchange.spec asks] in *;
    try (destruct Hr as [->|Hr]; [done|discriminate Hr]).
  destruct (Hu eq_refl) as [-> | ->]; [done|by rewrite andb_false_r].
Qed.

Lemma unlock_served pass a : is_locked a = true -> may Unlock = true -> zlen pass <= MAX_ENCODED_LEN ->
  respond true now (msg.UNLOCK :: prefixed pass) a =
    (Ok (frame [if beq a.(lock) pass then msg.SUCCESS else msg.FAILURE]), if beq a.(lock) pass then set_lock [] a else a).
Proof.
  intros Hl Hm Hz. rewrite <- Hl at 1. rewrite locked_respond by done. rewrite Hm.
  change (msg.UNLOCK =? msg.UNLOCK) with true. cbn [andb].
  pose proof (prefixed_decoded pass [] Hz) as Hd. rewrite app_nil_r in Hd. rewrite Hd. by destruct (beq (lock a) pass).
Qed.

Lemma locked_refuses o p a : is_locked a = true -> request_bytes o p ->
  (asks o = Unlock -> may Unlock = false) -> respond true now p a = (Ok (frame [msg.FAILURE]), a).
Proof.
  intros Hl Hp Hu. destruct o as [key l|public|public h data| |pass|pass]; cbn [request_bytes asks] in *;
    [apply respond_refuses; [done|]..|].
  - destruct Hp as (k & _ & ->). by destruct l.
  - by destruct Hp as (blob & _ & ->).
  - by destruct Hp as (blob & _ & ->).
  - by subst p.
  - by subst p.
  - subst p. rewrite <- Hl at 1. rewrite locked_respond by done. by rewrite (Hu eq_refl), andb_false_r.
Qed.

(** C22. Talking to an agent is operating on its keys: adding a key with any
    constraints, removing one, signing with or without a SHA-2 hash, listing, locking
    and unlocking over the protocol give
    the client the result that [spec] gives for the keys of the agent and leave
    the agent as [spec] does, nothing being left on the way, as long as request and
    answer can be encoded and fit into a frame (the key is not encrypted, and can sign what is asked).
    The application may agree or refuse.  A signature is that of the
    very key over the very data; the keys that are listed are the ones that are
    there.  [spec] says also where the two sides misunderstand each other: a key
    with an extension is not added although the client is told so, and a signature
    with SHA-2 by an RSA key is refused by the client. *)
Theorem agent_refines o a b : wf a -> fits o a ->
  exists b', run_op o (mkClient (quiet a) b) = ((spec o a).1, mkClient (quiet (spec o a).2) b') /\
    wf (spec o a).2.
Proof.
  intros Hw (p & Hp & Hz & Hk & Hq). cut (exists q, understood o q = (spec o a).1 /\ zlen q <= MAX_AGENT_FRAME_LEN /\
    respond (is_locked a) now p a = (Ok (frame q), (spec o a).2)).
  { intros (q & Hu & Hzq & Hr). exists q. split; [|by apply spec_wf].
    rewrite (client_ok o a (spec o a).2 p q b) by done. by rewrite Hu. }
  destruct (is_locked a) eqn:Hl; [destruct (decide (asks o = Unlock /\ may Unlock = true)) as [[Ho Hm]|Hn]|].
  - destruct o as [| | | | |pass]; try discriminate Ho. cbn [request_bytes] in Hp. subst p.
    exists [if beq a.(lock) pass then msg.SUCCESS else msg.FAILURE].
    rewrite unlock_served; [|done|done|revert Hz; unfold prefixed; pose proof frame_max; zlia].
    cbn [AgentExchange.spec understood fst snd]. by rewrite Hl, Hm.
  - assert (Hm : asks o = Unlock -> may Unlock = false) by (intros Ho; destruct (may Unlock) eqn:E; [by destruct Hn|done]).
    exists [msg.FAILURE]. rewrite (locked_refuses o p a) by done.
    destruct (refusal_understood o a) as [-> ->]; [naive_solver|left; unfold refuses; by rewrite Hl|done].
  - destruct (may (asks o)) eqn:Hm.
    + destruct (Hq eq_refl eq_refl) as (q & Ha & Hzq). exists q. rewrite (understood_ok o a p q), (serves o a p q) by done. done.
    + exists [msg.FAILURE]. rewrite (serve_refused o p a) by done.
      destruct (refusal_understood o a) as [-> ->]; [naive_solver|left; unfold refuses; by rewrite Hl, Hm|done].
Qed.

(** ** Where the two sides do not understand each other *)

(** The request to remove all keys has no length: the agent reads an empty request,
    which it refuses, and takes what follows for the length of the next, which is
    too large.  The connection ends and no key is removed. *)
Lemma remove_all_identities_fails a b : exists b',
  remove_all_identities (mkClient (quiet a) b) =
    (Err KeysError.AgentFailure, mkClient (mkLink a [msg.REMOVE_ALL_IDENTITIES; 0; 0; 0; 1] [] false) b').
Proof.
  exists [msg.FAILURE].
  assert (Hb : appends (kw (encode_u8 msg.REMOVE_ALL_IDENTITIES) ;;; kw (encode_u32 1)) (msg.REMOVE_ALL_IDENTITIES :: be32 1)).
  { apply (appends_bind _ _ [_]); [by apply kw_u8_appends|]. by apply appends_map_err, encode_u32_appends. }
  unfold remove_all_identities. revert Hb. generalize (kw (encode_u8 msg.REMOVE_ALL_IDENTITIES) ;;; kw (encode_u32 1)).
  intros m Hb. unfold begin_request, set_buf, on_buf, read_success, st_bind, st_mod. cbn [stream buf].
  rewrite (Hb [0; 0; 0; 0]). destruct a as [k l t]. reflexivity.
Qed.

(** A key with a constraint that the server does not know is not added, but the
    client is told that it is: the refusal comes after the byte for success. *)
Lemma unknown_constraint_reported key k blob name details a b :
  is_locked a = false -> may AddKeys = true -> plain_key key k -> PublicKey_to_bytes (public_key key) = Ok blob ->
  zlen name + zlen details + zlen k + 14 <= MAX_AGENT_FRAME_LEN ->
  exists b', add_identity key [Extensions name details] (mkClient (quiet a) b) = (Ok tt, mkClient (quiet a) b').
Proof.
  intros Hl Hmay Hk Hb Hz. exists [msg.SUCCESS; msg.FAILURE].
  set (p := msg.ADD_ID_CONSTRAINED :: k ++ prefixed [] ++ constraint_bytes (Extensions name details)).
  pose proof (zlen_nonneg name). pose proof (zlen_nonneg details). pose proof (zlen_nonneg k). pose proof frame_max as Hm.
  assert (Hr : respond (is_locked a) now p a = (Ok (frame [msg.SUCCESS; msg.FAILURE]), a)).
  { rewrite Hl. apply plain_answer. unfold p. rewrite (serve_add true) by done. destruct Hk as [_ Hd].
    unfold attempt, add_key, k_key, k_enc, st_bind, st_lift. rewrite Hd. cbn [map_err].
    rewrite prefixed_string_decoded by done. cbn [map_err]. rewrite uncommented_public, Hb. cbn [map_err].
    cbn [read_constraints constraint_bytes]. rewrite decode_u8_cons. done. }
  assert (He : read_response (mkClient (quiet a) (frame p)) = (Ok tt, mkClient (quiet a) [msg.SUCCESS; msg.FAILURE])).
  { apply exchange; [exact Hr| |done]. unfold p, constraint_bytes, prefixed. zlia. }
  unfold add_identity. assert (Hreq : forall body, appends body p -> request body (mkClient (quiet a) b) = (Ok tt, mkClient (quiet a) (frame p)))
    by (intros; by apply agent_request_ok).
  client_request Hreq He.
  - apply (appends_bind _ _ [_]); [apply appends_push_byte|]. apply appends_bind; [by apply appends_map_err, Hk|].
    apply appends_bind; [by apply kw_bytes_appends|]. cbn [encode_constraints encode_constraint constraint_bytes].
    rewrite <- (app_nil_r (msg.CONSTRAIN_EXTENSION :: _)). apply appends_bind; [|apply appends_ret].
    apply (appends_bind _ _ [_]); [by apply kw_u8_appends|]. apply appends_bind; apply kw_bytes_appends; lia.
  - unfold read_success, st_bind. by rewrite He.
Qed.
End Exchange.

(** ** An agent with a key *)
Module Example.
#[local] Existing Instance rfc4251.

(** The keys of [Auth.Example], with signatures in their format. *)
Definition signature (k : Auth.Example.key) (h : option HashAlg) (data : bytes) : bytes :=
  prefixed (Auth.Example.alg_str (if k.1 then Auth.Example.RsaAlg h else Auth.Example.Ed25519)) ++
  prefixed (Auth.Example.signature k data).

Definition keys : UserKeys :=
  let k := Auth.Example.keys in {|
  Algorithm := @Algorithm k; PublicKey := @PublicKey k; PrivateKey := @PrivateKey k;
  Certificate := @Certificate k; Signature := bytes;
  Rsa := @Rsa k; as_rsa := @as_rsa k; is_other := @is_other k; alg_as_str := @alg_as_str k;
  to_certificate_type := @to_certificate_type k; Algorithm_new := @Algorithm_new k;
  Algorithm_new_certificate := @Algorithm_new_certificate k;
  PublicKey_decode := @PublicKey_decode k; Certificate_decode := @Certificate_decode k;
  PublicKey_to_bytes := @PublicKey_to_bytes k; Certificate_to_bytes := @Certificate_to_bytes k;
  public_algorithm := @public_algorithm k; private_algorithm := @private_algorithm k; public_key := @public_key k;
  cert_algorithm := @cert_algorithm k; cert_public_key := @cert_public_key k;
  valid_after_time := @valid_after_time k; valid_before_time := @valid_before_time k;
  verify_signature := @verify_signature k;
  Signature_decode b := Ok (b, []);
  verify key data s := existsb (fun h => beq s (signature key h data)) [None; Some Sha256; Some Sha512];
  try_sign key data := Ok (signature key None data);
  try_sign_rsa key h data := Ok (signature key h data);
|}.
#[local] Existing Instance keys.

Lemma signature_short k h data : zlen (signature k h data) <= MAX_ENCODED_LEN.
Proof. destruct k as [[] n], h as [[]|]; vm_compute; done. Qed.

#[local] Instance user_keys_laws : UserKeysLaws keys.
Proof.
  destruct Auth.Example.keys_laws. split; try assumption.
  - intros k data s [= <-]. split; [apply signature_short|]. eexists. split; [done|]. cbn. by rewrite beq_refl.
  - intros k h data s [= <-]. split; [apply signature_short|]. eexists. split; [done|].
    destruct h as [[]|]; cbn; rewrite beq_refl; by rewrite ?orb_true_r.
Qed.

#[local] Instance agent_keys : AgentKeys := {|
  encode_key_data k := push_bytes [if (k : Auth.Example.key).1 then 1 else 0; (k : Auth.Example.key).2];
  decode_key_pair r := match r with f :: n :: r => Ok ((f =? 1, n), r) | _ => Err (KeyOther 0) end;
  uncommented k := k;
|}.
#[local] Instance agent_keys_laws : AgentKeysLaws agent_keys.
Proof.
  split; [done| | |].
  - intros k data s Hs. assert (exists key h, s = signature key h data) as (key & h & ->).
    { unfold sign_with_hash_alg in Hs. destruct (is_rsa _); [destruct (as_rsa _); [|done]|]; injection Hs as <-; by eexists _, _. }
    eexists _, _. split; [reflexivity|]. destruct key as [[] n], h as [[]|]; split; vm_compute; reflexivity.
  - intros k data t sig Hs. assert (Ht : take 4 (signature k None data) = take 4 (prefixed t ++ prefixed sig)).
    { destruct k as [[] n]; exact (f_equal (fun r => match r with Ok x => take 4 x | _ => [] end) Hs). }
    split; apply beq_false; intros ->; destruct k as [[] n]; vm_compute in Ht; discriminate Ht.
  - intros [[] n] b [= <-]; vm_compute; reflexivity.
Qed.

Definition iter (k : gmap bytes Entry) : list (bytes * Entry) := map_to_list k.
Lemma map_to_list_perm k : iter k ≡ₚ map_to_list k.
Proof. done. Qed.
Definition carol : PrivateKey := (false, 9).
Definition rsa : PrivateKey := (true, 4).
Abbreviation yes := (fun _ : MessageType => true).
#[local] Instance the_stream : AgentStream Link := link_stream iter yes 1000.

(** Add a key for a minute, look at the list, sign, lock, and fail to sign. *)
Definition ops : list op :=
  [OAdd carol [KeyLifetime 60; Confirm]; OAdd rsa []; OList; OSign (public_key carol) None [1; 2]; OLock [7]; OSign (public_key carol) None [1; 2];
   OUnlock [7]; ORemove (public_key rsa)].
Fixpoint run (l : list op) (c : Client (S := Link)) : list (KResult answer) * Client (S := Link) :=
  match l with
  | [] => ([], c)
  | o :: l => let '(r, c) := run_op o c in let '(rs, c) := run l c in (r :: rs, c)
  end.
Example session : (run ops (mkClient (quiet agent_new) [])).1 =
  [Ok Done; Ok Done; Ok (Identities [IdPublicKey (public_key carol) []; IdPublicKey (public_key rsa) []]); Ok (Signed ([1; 2] ++ prefixed (signature carol None [1; 2])));
   Ok Done; Err KeysError.AgentFailure; Ok Done; Ok Done].
Proof. match goal with |- _ = ?r => vm_cast_no_check (eq_refl r) end. Qed.

(** A signature with SHA-2 by an RSA key is refused by the client: the server does
    not read the flags. *)
Example sha2_refused :
  (sign_request_pk (public_key rsa) (Some Sha256) [1] (run [OAdd rsa []] (mkClient (quiet agent_new) [])).2).1 =
    Err KeysError.AgentProtocolError.
Proof. match goal with |- _ = ?r => vm_cast_no_check (eq_refl r) end. Qed.

Definition holding : Agent := (spec iter yes 1000 (OAdd carol [KeyLifetime 60; Confirm]) agent_new).2.
Lemma holding_wf : wf holding.
Proof. apply (spec_wf iter yes 1000). intros b e. cbn. by rewrite lookup_empty. Qed.
Lemma holding_fits : fits iter yes (OSign (public_key carol) None [1; 2]) holding.
Proof.
  eexists. split; [eexists; split; [reflexivity|reflexivity]|]. split; [by vm_compute|]. split; [done|]. intros _ _.
  exists (msg.SIGN_RESPONSE :: prefixed (signature carol None [1; 2])). split; [|by vm_compute].
  cbn. eexists. split; [|reflexivity]. reflexivity.
Qed.

(** With an extension, to an agent that is asked first. *)
Definition limited : op := OAdd rsa [KeyLifetime 60; Extensions [1] []].
Lemma limited_fits may : fits iter may limited holding.
Proof.
  eexists. split; [eexists; split; [split; [by vm_compute|done]|reflexivity]|]. split; [by vm_compute|].
  split; [by repeat constructor|]. intros _ _. by eexists.
Qed.

Lemma agent_refines_witness :
  (exists b',
    run_op (OSign (public_key carol) None [1; 2]) (mkClient (quiet holding) []) =
      (Ok (Signed ([1; 2] ++ prefixed (signature carol None [1; 2]))), mkClient (quiet holding) b')) /\
  (exists b',
    run_op limited (mkClient (quiet holding) []) =
      (Ok Done, mkClient (quiet (mkAgent holding.(Agent.keys) [] (holding.(timers) ++ [expires 1000 60 [1; 4]]))) b')) /\
  exists b',
    (@run_op _ _ _ _ (link_stream iter (fun _ => false) 1000) limited (mkClient (quiet holding) [])) =
      (Err KeysError.AgentFailure, mkClient (quiet holding) b').
Proof.
  split; [|split].
  - destruct (agent_refines iter yes 1000 map_to_list_perm (OSign (public_key carol) None [1; 2]) holding [] holding_wf holding_fits)
      as (b' & H1 & _).
    exists b'. exact H1.
  - destruct (agent_refines iter yes 1000 map_to_list_perm limited holding [] holding_wf (limited_fits yes)) as (b' & H1 & _).
    exists b'. exact H1.
  - destruct (agent_refines iter (fun _ => false) 1000 map_to_list_perm limited holding [] holding_wf (limited_fits _))
      as (b' & H1 & _).
    exists b'. exact H1.
Defined.

Lemma locked_agent_inert_witness :
  respond iter yes (is_locked (set_lock [7] holding)) 5 (msg.UNLOCK :: prefixed [7]) (set_lock [7] holding) =
    (Ok (frame [msg.SUCCESS]), set_lock [] (set_lock [7] holding)) /\
  respond iter yes (is_locked (set_lock [7] holding)) 5 [msg.REMOVE_ALL_IDENTITIES] (set_lock [7] holding) =
    (Ok (frame [msg.FAILURE]), set_lock [7] holding).
Proof.
  split; exact (locked_agent_inert iter yes 5 _ (set_lock [7] holding) eq_refl).
Defined.

Lemma holding_reached : rtc (agent_step iter) (0, agent_new) (1000, holding).
Proof.
  eapply rtc_l; [by apply (step_clock iter 0 1000)|]. apply rtc_once.
  eapply (step_request iter yes false 1000 (msg.ADD_ID_CONSTRAINED :: [0; 9] ++ prefixed [] ++
    constraints_bytes [KeyLifetime 60; Confirm])).
  apply (serves iter yes 1000 map_to_list_perm (OAdd carol [KeyLifetime 60; Confirm]) agent_new _ [msg.SUCCESS]); try done.
  - exists [0; 9]. split; [|done]. by split.
  - by repeat constructor.
Qed.

Lemma lifetimes_enforced_witness :
  (exists t, t ∈ holding.(timers) /\ t.(fires_at) = 1000 + 60 * SECOND /\ (expire t holding).(Agent.keys) !! [0; 9] = None) /\
  ((forall t, t ∈ holding.(timers) -> 1000 < t.(fires_at)) -> 1000 < 1000 + 60 * SECOND).
Proof.
  exact (lifetimes_enforced iter 0 1000 holding [0; 9] (mkEntry carol 1000 [KeyLifetime 60; Confirm]) 60
    holding_reached eq_refl ltac:(left)).
Defined.
End Example.
