(* ===== verification/Pageant.v ===== *)
(** * Talking to Pageant (the crate [pageant])

    [PageantStream] of [wmmessage.rs] is a task that takes the requests of an agent's
    client out of a pipe, puts each one into memory that it shares with Pageant and
    sends the answer back; [namedpipes.rs] finds the name of Pageant's pipe and opens
    it; [interface.rs] tries one and then the other.  What Windows does is a
    parameter ([Windows], [Pipes]).

    Reading or writing past the memory that is mapped is undefined in Rust; in the
    model it is a panic. *)

From stdpp Require Import base list numbers option strings.
From Stdlib Require Import ZArith Lia.
From S2P Require Import Prelude Encoding LibInner Auth Agent AgentClient AgentExchange.

(** [Error] of [error.rs]; codes are those of the system. *)
Inductive PageantError : Type :=
| NotFound
| Overflow
| NoResponse
| InvalidCookie
| PipeBusy
| InvalidUsername
| WindowsError (code : Z)
| IoError (code : Z)
| Multiple (errors : list PageantError).

Abbreviation P D A := (st D PageantError A).

(** ** Windows, in a state [D] *)
Class Windows (D : Type) : Type := {
  Owner : Type;
  (** [FindWindowW]; whether the window that it returns is valid *)
  FindWindow : P D bool;
  (** [OpenProcessToken], [GetTokenInformation] *)
  get_current_process_user : P D Owner;
  (** [InitializeSecurityDescriptor], [SetSecurityDescriptorOwner] *)
  security_descriptor : Owner -> P D unit;
  (** [CreateFileMappingW], by name and length; whether the handle is valid *)
  CreateFileMapping : bytes -> Z -> P D bool;
  (** [MapViewOfFile]; [None] is a null pointer *)
  MapViewOfFile : bytes -> D -> option bytes * D;
  (** [SendMessageA] with the name of the mapping, which Pageant reads and writes *)
  SendMessage : bytes -> option bytes -> D -> Z * option bytes * D;
  (** [UnmapViewOfFile] and [CloseHandle], when the mapping goes out of scope *)
  CloseMapping : bytes -> D -> D;
  last_error : D -> Z;
}.

Section Messages.
Context {D : Type} {OS : Windows D}.

(** ** Shared memory *)
Record MemoryMap : Type := mkMemoryMap { view : option bytes; length_ : Z; pos : Z }.

Definition MemoryMap_new (name : bytes) (length : Z) : P D MemoryMap :=
  do valid <- CreateFileMapping name length ;;
  if valid : bool then fun d => let '(v, d) := MapViewOfFile name d in (Ok (mkMemoryMap v length 0), d)
  else fun d => (Err (WindowsError (last_error d)), d).

Definition seek (pos : Z) (m : MemoryMap) : MemoryMap := mkMemoryMap m.(view) m.(length_) pos.

Definition write (data : bytes) (m : MemoryMap) : res PageantError MemoryMap :=
  if m.(length_) <? m.(pos) + zlen data then Err Overflow
  else
    match data with
    | [] => Ok m
    | _ =>
        match m.(view) with
        | Some v =>
            if m.(pos) + zlen data <=? zlen v
            then Ok (mkMemoryMap (Some (ztake m.(pos) v ++ data ++ zdrop (m.(pos) + zlen data) v)) m.(length_) (m.(pos) + zlen data))
            else Panic
        | None => Panic
        end
    end.

Definition read (n : Z) (m : MemoryMap) : res PageantError (bytes * MemoryMap) :=
  match m.(view) with
  | Some v =>
      if m.(pos) + n <=? zlen v
      then Ok (ztake n (zdrop m.(pos) v), mkMemoryMap (Some v) m.(length_) (m.(pos) + n))
      else Panic
  | None => if n =? 0 then Ok ([], m) else Panic
  end.

(** ** One query *)
Definition AGENT_MAX_MSGLEN : Z := 8192.

Definition find_pageant_window : P D unit :=
  do valid <- FindWindow ;; if valid : bool then st_ret tt else st_err NotFound.
Definition is_pageant_running (d : D) : bool := is_ok (find_pageant_window d).1.

(** What is done with the mapping. *)
Definition ask_over (map_name msg : bytes) (map : MemoryMap) : P D bytes :=
  do map <- st_lift (write msg map) ;;
  (if existsb (Z.eqb 0) map_name then st_err InvalidCookie else st_ret tt) ;;;
  do (response, map) <- (fun d =>
    let '(r, v, d) := SendMessage map_name map.(view) d in (Ok (r, mkMemoryMap v map.(length_) map.(pos)), d)) ;;
  if response =? 0 then st_err NoResponse
  else
    do (buf, map) <- st_lift (read 4 (seek 0 map)) ;;
    if zlen buf <? 4 then st_err NoResponse
    else
      let size := default 0 (read_u32 buf) in
      do (body, map) <- st_lift (read size map) ;;
      st_ret (buf ++ body).

(** What comes before: the window, the user and the mapping. *)
Definition prepare (map_name : bytes) : P D MemoryMap :=
  find_pageant_window ;;;
  do user <- get_current_process_user ;;
  security_descriptor user ;;;
  MemoryMap_new map_name AGENT_MAX_MSGLEN.

Definition query_pageant_direct (cookie msg : bytes) : P D bytes :=
  let map_name := str "PageantRequest" ++ cookie in
  do map <- prepare map_name ;;
  fun d => let '(r, d) := ask_over map_name msg map d in (r, CloseMapping map_name d).

Lemma read_u32_front a b : 4 <= zlen a -> read_u32 (a ++ b) = read_u32 a.
Proof. intros Ha. destruct a as [|x0 [|x1 [|x2 [|x3 a]]]]; try done; unfold zlen in Ha; cbn in Ha; lia. Qed.

(** Reading the answer back: the length that it has decides what is read. *)
Lemma read_back w d : 4 <= zlen w -> let n := default 0 (read_u32 w) in 0 <= n ->
  (do (buf, map) <- st_lift (read 4 (mkMemoryMap (Some w) AGENT_MAX_MSGLEN 0)) ;;
   if zlen buf <? 4 then st_err NoResponse
   else do (body, _) <- st_lift (read (default 0 (read_u32 buf)) map) ;; st_ret (buf ++ body) : P D bytes) d =
  (if zlen w <? 4 + n then Panic else Ok (ztake (4 + n) w), d).
Proof.
  intros Hw n Hn. unfold st_bind at 1. unfold read at 1, st_lift at 1. cbn [view pos length_].
  destruct (Z.leb_spec (0 + 4) (zlen w)); [|lia]. rewrite zdrop_0.
  assert (H4 : zlen (ztake 4 w) = 4) by (rewrite zlen_ztake; lia). rewrite H4. cbn [Z.ltb Z.compare Pos.compare Pos.compare_cont].
  rewrite <- (read_u32_front _ (zdrop 4 w)), ztake_zdrop by lia. fold n. unfold st_bind, read, st_lift. cbn [view pos].
  destruct (Z.leb_spec (0 + 4 + n) (zlen w)), (Z.ltb_spec (zlen w) (4 + n)); try lia; [|done].
  unfold st_ret. do 2 f_equal. rewrite <- (ztake_zdrop 4 w) at 3. rewrite ztake_app_ge by lia. by rewrite H4, (Z.add_simpl_l 4 n).
Qed.

(** ** The task behind the stream *)

(** [buf] is what the task has read; [unread] is still in the pipe; [answers] is what
    the client has not read yet; [running] ends with the task. *)
Record PageantStream : Type := mkStream {
  cookie : bytes;
  tbuf : bytes;
  unread : bytes;
  answers : bytes;
  running : bool;
  desk : D;
}.
Definition PageantStream_new (cookie : bytes) (d : D) : PageantStream := mkStream cookie [] [] [] true d.

(** One turn of the task: it reads a chunk, and answers a request if it has one. *)
Definition on_chunk (chunk rest : bytes) (s : PageantStream) : res PageantError PageantStream :=
  let buf := s.(tbuf) ++ chunk in
  let waiting := mkStream s.(cookie) buf rest s.(answers) s.(running) s.(desk) in
  if zlen buf <? 4 then Ok waiting
  else
    let len := default 0 (read_u32 buf) in
    if zlen buf <? len + 4 then Ok waiting
    else
      let msg := ztake (len + 4) buf in
      let buf := zdrop (len + 4) buf in
      match query_pageant_direct s.(cookie) msg s.(desk) with
      | (Ok response, d) => Ok (mkStream s.(cookie) buf rest (s.(answers) ++ response) true d)
      | (Err _, d) => Ok (mkStream s.(cookie) buf rest s.(answers) false d)
      | (Panic, _) => Panic
      end.

(** How much one read takes out of the pipe is up to the runtime: [grain]. *)
Context (grain : bytes -> bytes -> Z).
Definition chunk_size (s : PageantStream) : Z := Z.max 1 (Z.min (grain s.(tbuf) s.(unread)) (zlen s.(unread))).

(** The task runs until the pipe is empty; each turn takes at least a byte. *)
Fixpoint run_task (fuel : nat) (s : PageantStream) : res PageantError PageantStream :=
  match fuel, s.(unread) with
  | Datatypes.S fuel, _ :: _ =>
      if s.(running) then
        let n := chunk_size s in
        let? s := on_chunk (ztake n s.(unread)) (zdrop n s.(unread)) s in
        run_task fuel s
      else Ok s
  | _, _ => Ok s
  end.
Definition serve (s : PageantStream) : res PageantError PageantStream := run_task (length s.(unread)) s.

(** What [AgentClient] sees.  As with the link of [AgentExchange], reading what does
    not come ends with [NEVER] while the task runs. *)
#[local] Instance pageant_stream : AgentStream PageantStream := {|
  write_all b := fun s =>
    if s.(running) then
      match serve (mkStream s.(cookie) s.(tbuf) (s.(unread) ++ b) s.(answers) true s.(desk)) with
      | Ok s' => (Ok tt, s')
      | _ => (Panic, s)
      end
    else (Err (KeysError.IO EOF), s);
  read_exact n := fun s =>
    if n <=? zlen s.(answers)
    then (Ok (ztake n s.(answers)), mkStream s.(cookie) s.(tbuf) s.(unread) (zdrop n s.(answers)) s.(running) s.(desk))
    else (Err (KeysError.IO (if s.(running) then NEVER else EOF)), s);
|}.

(** ** A request *)

Definition after (s : PageantStream) (r : res PageantError bytes * D) : res PageantError PageantStream :=
  match r with
  | (Ok q, d) => Ok (mkStream s.(cookie) [] [] (s.(answers) ++ q) true d)
  | (Err _, d) => Ok (mkStream s.(cookie) [] [] s.(answers) false d)
  | (Panic, _) => Panic
  end.

(** A part of a request is kept; the last part makes the task ask Pageant. *)
Lemma on_chunk_partial p s chunk rest : s.(tbuf) ++ chunk ++ rest = frame p -> is_u32 (zlen p) -> rest <> [] ->
  on_chunk chunk rest s = Ok (mkStream s.(cookie) (s.(tbuf) ++ chunk) rest s.(answers) s.(running) s.(desk)).
Proof.
  intros Hp Hu Hne. unfold on_chunk. destruct (Z.ltb_spec (zlen (tbuf s ++ chunk)) 4) as [|Hl]; [done|].
  rewrite <- (read_u32_front _ rest Hl), <- app_assoc, Hp. unfold frame. rewrite read_u32_be32, to_u32_small by done. cbn [default from_option].
  assert (zlen (frame p) = zlen (tbuf s ++ chunk) + zlen rest) by (rewrite <- Hp; zlia).
  assert (0 < zlen rest) by (destruct rest; [done|unfold zlen; cbn; lia]). rewrite zlen_frame in *.
  unfold id. destruct (Z.ltb_spec (zlen (tbuf s ++ chunk)) (zlen p + 4)); [done|lia].
Qed.
Lemma on_chunk_last p s chunk : s.(tbuf) ++ chunk = frame p -> is_u32 (zlen p) ->
  on_chunk chunk [] s = after s (query_pageant_direct s.(cookie) (frame p) s.(desk)).
Proof.
  intros Hp Hu. unfold on_chunk. rewrite Hp. pose proof (zlen_nonneg p). pose proof (zlen_frame p) as Hz.
  destruct (Z.ltb_spec (zlen (frame p)) 4); [lia|].
  assert (read_u32 (frame p) = Some (zlen p)) as -> by (unfold frame; by rewrite read_u32_be32, to_u32_small).
  cbn [default from_option]. unfold id. destruct (Z.ltb_spec (zlen (frame p)) (zlen p + 4)); [lia|].
  rewrite ztake_all, zdrop_all by lia. by destruct (query_pageant_direct _ _ _) as [[]].
Qed.

(** However the request is cut into reads. *)
Lemma run_task_frame p : forall fuel s, (length s.(unread) <= fuel)%nat -> s.(running) = true ->
  s.(tbuf) ++ s.(unread) = frame p -> is_u32 (zlen p) -> s.(unread) <> [] ->
  run_task fuel s = after s (query_pageant_direct s.(cookie) (frame p) s.(desk)).
Proof.
  induction fuel as [|fuel IH]; intros s Hf Hr Hp Hu Hne; destruct (unread s) as [|x ur] eqn:Hs; try done; [cbn in Hf; lia|].
  cbn [run_task]. rewrite Hs, Hr. cbv zeta. set (n := chunk_size s).
  assert (Hn : 1 <= n <= zlen (x :: ur)).
  { unfold n, chunk_size. rewrite Hs, zlen_cons. pose proof (zlen_nonneg ur). lia. }
  rewrite <- (ztake_zdrop n (x :: ur)) in Hp.
  assert (Hl : zlen (zdrop n (x :: ur)) = zlen (x :: ur) - n) by (rewrite zlen_zdrop; lia).
  destruct (zdrop n (x :: ur)) as [|y ur'].
  - rewrite app_nil_r in Hp. rewrite (on_chunk_last p) by done. destruct (query_pageant_direct _ _ _) as [[q|e|] d]; cbn [after res_bind]; [..|done].
    all: by destruct fuel.
  - rewrite (on_chunk_partial p) by done. cbn [res_bind]. rewrite IH; try done; cbn [unread tbuf].
    + unfold zlen in *. lia.
    + by rewrite <- app_assoc.
Qed.

(** ** The client over the stream *)
#[local] Existing Instance pageant_stream.

(** Between two requests. *)
Definition idle (ck : bytes) (d : D) : PageantStream := PageantStream_new ck d.

Lemma write_request ck p d : is_u32 (zlen p) ->
  write_all (frame p) (idle ck d) =
    match after (idle ck d) (query_pageant_direct ck (frame p) d) with Ok s => (Ok tt, s) | _ => (Panic, idle ck d) end.
Proof.
  intros Hu. cbn [write_all pageant_stream idle PageantStream_new running unread app cookie tbuf answers desk]. unfold serve.
  cbn [unread]. rewrite (run_task_frame p) by (done || by unfold frame). done.
Qed.

(** What a query comes to, by what is in the memory when Pageant has been asked. *)
Section Query.
Variables (ck p v : bytes) (d d1 : D).
Let name := str "PageantRequest" ++ ck.
Hypothesis prepared : prepare name d = (Ok (mkMemoryMap (Some v) AGENT_MAX_MSGLEN 0), d1).
Hypothesis mapped : AGENT_MAX_MSGLEN <= zlen v.
Hypothesis named : existsb (Z.eqb 0) name = false.

Lemma query_too_large : AGENT_MAX_MSGLEN < zlen (frame p) ->
  query_pageant_direct ck (frame p) d = (Err Overflow, CloseMapping name d1).
Proof.
  intros Hp. unfold query_pageant_direct. unfold st_bind at 1. fold name. rewrite prepared.
  unfold ask_over, write, st_bind, st_lift. cbn [length_ pos]. destruct (Z.ltb_spec AGENT_MAX_MSGLEN (0 + zlen (frame p))); [done|lia].
Qed.

Definition asked : Z * option bytes * D := SendMessage name (Some (frame p ++ zdrop (zlen (frame p)) v)) d1.

Lemma query_asked : zlen (frame p) <= AGENT_MAX_MSGLEN ->
  query_pageant_direct ck (frame p) d =
    let '(r, v', d2) := asked in
    let '(res, d3) :=
      (if r =? 0 then st_err NoResponse
       else do (buf, map) <- st_lift (read 4 (mkMemoryMap v' AGENT_MAX_MSGLEN 0)) ;;
         if zlen buf <? 4 then st_err NoResponse
         else do (body, _) <- st_lift (read (default 0 (read_u32 buf)) map) ;; st_ret (buf ++ body)) d2 in
    (res, CloseMapping name d3).
Proof.
  intros Hp. unfold query_pageant_direct. unfold st_bind at 1. fold name. rewrite prepared.
  unfold ask_over at 1. unfold st_bind at 1. unfold write, st_lift at 1. cbn [length_ pos view].
  destruct (Z.ltb_spec AGENT_MAX_MSGLEN (0 + zlen (frame p))); [lia|].
  destruct (frame p) as [|x f] eqn:Hf; [by unfold frame in Hf|]. rewrite <- Hf in *.
  destruct (Z.leb_spec (0 + zlen (frame p)) (zlen v)); [|lia]. rewrite ztake_0, Z.add_0_l. cbn [app].
  unfold st_bind at 1. rewrite named. cbn [st_ret]. unfold st_bind at 1. cbn [view length_ pos]. fold asked.
  destruct asked as [[r v'] d2]. cbv beta iota. destruct (r =? 0); [done|]. unfold seek. cbn [view length_].
  destruct (st_bind _ _ d2) as [res d3] eqn:H1 at 1. by rewrite H1.
Qed.

(** What the client of an agent gets. *)
Abbreviation Client := (AgentClient.Client (S := PageantStream)).
Abbreviation ask_pageant := (read_response (mkClient (idle ck d) (frame p) : Client)).

Lemma answer_read q d' : is_u32 (zlen p) -> zlen q <= MAX_AGENT_FRAME_LEN ->
  query_pageant_direct ck (frame p) d = (Ok (frame q), d') -> ask_pageant = (Ok tt, mkClient (idle ck d') q).
Proof.
  intros Hu Hq Hask. unfold read_response, st_bind, on_stream. cbn [stream buf]. rewrite write_request, Hask by done.
  cbn [after idle PageantStream_new cookie answers app stream buf]. unfold read_frame, st_bind, on_stream, set_buf, st_mod.
  cbn [stream buf read_exact pageant_stream answers]. pose proof (zlen_nonneg q). pose proof (zlen_frame q) as Hz.
  destruct (Z.leb_spec 4 (zlen (frame q))); [|lia]. cbn [stream buf cookie tbuf unread running desk].
  replace (ztake 4 (frame q)) with (be32 (zlen q) ++ []) by (unfold frame; by rewrite ztake_app_exact, app_nil_r).
  replace (zdrop 4 (frame q)) with q by (unfold frame; by rewrite zdrop_app_exact).
  rewrite read_u32_be32. cbn [from_option]. unfold id.
  rewrite to_u32_small by (unfold is_u32, U32_MOD, MAX_AGENT_FRAME_LEN in *; lia).
  destruct (Z.ltb_spec MAX_AGENT_FRAME_LEN (zlen q)); [lia|]. cbn [stream buf answers cookie tbuf unread running desk].
  rewrite Z.leb_refl. by rewrite (ztake_all (zlen q)), (zdrop_all (zlen q)) by lia.
Qed.

Lemma no_answer_read e d' : is_u32 (zlen p) -> query_pageant_direct ck (frame p) d = (Err e, d') ->
  ask_pageant = (Err (KeysError.IO EOF), mkClient (mkStream ck [] [] [] false d') (frame p)).
Proof.
  intros Hu Hask. unfold read_response, st_bind, on_stream. cbn [stream buf]. by rewrite write_request, Hask by done.
Qed.

(** C34. A request to Pageant over shared memory is answered as Pageant answers it: a
    request of at most 8188 bytes, however it is cut into reads, is put into the
    memory as one message, and the client of the agent gets exactly the body of the
    message that Pageant left there, and can ask again; if Pageant does not answer,
    or the request is larger, in which case Pageant is not asked, the client gets an
    end of file; and an answer that claims to be longer than the memory is read past
    its end. *)
Theorem pageant_answers : is_u32 (zlen p) ->
  if zlen p + 4 <=? AGENT_MAX_MSGLEN then
    let '(r, v', d2) := asked in
    let d' := CloseMapping name d2 in
    (r = 0 -> ask_pageant = (Err (KeysError.IO EOF), mkClient (mkStream ck [] [] [] false d') (frame p))) /\
    (forall q rest, r <> 0 -> v' = Some (frame q ++ rest) -> zlen q <= MAX_AGENT_FRAME_LEN ->
      ask_pageant = (Ok tt, mkClient (idle ck d') q)) /\
    (forall w, r <> 0 -> v' = Some w -> 4 <= zlen w -> zlen w < 4 + default 0 (read_u32 w) -> ask_pageant.1 = Panic)
  else ask_pageant = (Err (KeysError.IO EOF), mkClient (mkStream ck [] [] [] false (CloseMapping name d1)) (frame p)).
Proof.
  intros Hu. pose proof (zlen_frame p) as Hz. destruct (Z.leb_spec (zlen p + 4) AGENT_MAX_MSGLEN) as [Hp|Hp].
  2: { eapply no_answer_read; [done|]. apply query_too_large. lia. }
  pose proof (query_asked ltac:(lia)) as Hq. destruct asked as [[r v'] d2]. split_and!.
  - intros ->. eapply no_answer_read; [done|exact Hq].
  - intros q rest Hr -> Hl. rewrite (proj2 (Z.eqb_neq r 0) Hr) in Hq. apply answer_read; try done. rewrite Hq.
    pose proof (zlen_nonneg q). pose proof (zlen_nonneg rest). pose proof (zlen_frame q) as Hzq.
    assert (Hn : default 0 (read_u32 (frame q ++ rest)) = zlen q).
    { unfold frame. rewrite <- app_assoc, read_u32_be32. apply to_u32_small. unfold is_u32, U32_MOD, MAX_AGENT_FRAME_LEN in *. lia. }
    rewrite read_back; rewrite ?Hn; try (rewrite zlen_app; lia); [|done].
    destruct (Z.ltb_spec (zlen (frame q ++ rest)) (4 + zlen q)); [rewrite zlen_app in *; lia|]. by rewrite ztake_app_exact.
  - intros w Hr -> Hw Hlong. rewrite (proj2 (Z.eqb_neq r 0) Hr), read_back in Hq by (done || lia).
    destruct (Z.ltb_spec (zlen w) (4 + default 0 (read_u32 w))); [|lia].
    unfold read_response, st_bind, on_stream. cbn [stream buf]. by rewrite write_request, Hq by done.
Qed.
End Query.

(** A second request that arrives with the first stays in the buffer of the task,
    which looks at it only when it has read more. *)
Lemma second_request_waits ck p q d a d' : is_u32 (zlen p) ->
  query_pageant_direct ck (frame p) d = (Ok a, d') ->
  on_chunk (frame p ++ frame q) [] (idle ck d) = Ok (mkStream ck (frame q) [] a true d').
Proof.
  intros Hu Hask. unfold on_chunk. cbn [idle PageantStream_new tbuf cookie answers running desk app].
  pose proof (zlen_nonneg p). pose proof (zlen_frame p) as Hz. pose proof (zlen_nonneg (frame q)).
  destruct (Z.ltb_spec (zlen (frame p ++ frame q)) 4); [rewrite zlen_app in *; lia|].
  assert (read_u32 (frame p ++ frame q) = Some (zlen p)) as ->.
  { rewrite read_u32_front by lia. unfold frame. by rewrite read_u32_be32, to_u32_small. }
  cbn [default from_option]. unfold id. destruct (Z.ltb_spec (zlen (frame p ++ frame q)) (zlen p + 4)); [rewrite zlen_app in *; lia|].
  rewrite ztake_app_exact, zdrop_app_exact by lia. by rewrite Hask.
Qed.
End Messages.

(** ** Pageant's pipe *)
Inductive opened (Pipe : Type) : Type :=
| Opened (p : Pipe)
| IsBusy
| OpenFails (code : Z).
Arguments Opened {Pipe} p.
Arguments IsBusy {Pipe}.
Arguments OpenFails {Pipe} code.

Class Pipes (D : Type) : Type := {
  Pipe : Type;
  (** [GetUserNameExA] without and with a buffer; [None]: it fails *)
  name_length : D -> Z * D;
  GetUserName : Z -> D -> option bytes * D;
  name_error : D -> Z;
  CRYPTPROTECTMEMORY_BLOCK_SIZE : Z;
  (** [CryptProtectMemory] in place; it may fail *)
  CryptProtectMemory : bytes -> D -> bytes * D;
  (** SHA-256, in lower-case hexadecimal *)
  sha256_hex : bytes -> bytes;
  open_pipe : bytes -> D -> opened Pipe * D;
  sleep_50ms : D -> D;
}.

Section NamedPipes.
Context {D : Type} {PD : Pipes D}.

(** [name.find('@')] and [drain]. *)
Fixpoint before_at (name : bytes) : bytes :=
  match name with
  | [] => []
  | x :: name => if x =? 64 then [] else x :: before_at name
  end.

Definition get_username : P D bytes := fun d =>
  let '(n, d) := name_length d in
  match GetUserName n d with
  | (None, d) => (Err (WindowsError (name_error d)), d)
  | (Some name_buf, d) =>
      match last name_buf with
      | Some 0 =>
          let name := removelast name_buf in
          if is_utf8 name then (Ok (before_at name), d) else (Err InvalidUsername, d)
      | _ => (Err InvalidUsername, d)
      end
  end.

Definition next_multiple_of (x b : Z) : Z := (x + b - 1) / b * b.
Definition cryptdata (input : bytes) : bytes :=
  let cryptlen := next_multiple_of (zlen input + 1) CRYPTPROTECTMEMORY_BLOCK_SIZE in
  ztake cryptlen input ++ replicate (Z.to_nat (cryptlen - zlen input)) 0.
Definition capi_obfuscate_string (input : bytes) : P D bytes := fun d =>
  let '(c, d) := CryptProtectMemory (cryptdata input) d in
  (Ok (sha256_hex (be32 (to_u32 (zlen c)) ++ c)), d).

Definition determine_pipe_name : P D bytes :=
  do username <- get_username ;;
  do suffix <- capi_obfuscate_string (str "Pageant") ;;
  st_ret (str "\\.\pipe\pageant." ++ username ++ str "." ++ suffix).

(** [timeout_counter] counts up to 40. *)
Fixpoint open_loop (tries : nat) (name : bytes) : P D Pipe := fun d =>
  match open_pipe name d with
  | (Opened p, d) => (Ok p, d)
  | (OpenFails e, d) => (Err (IoError e), d)
  | (IsBusy, d) =>
      match tries with
      | O => (Err PipeBusy, d)
      | Datatypes.S tries => open_loop tries name (sleep_50ms d)
      end
  end.
Definition NamedPipe_new : P D Pipe :=
  do pipe_name <- determine_pipe_name ;; open_loop 40 pipe_name.

(** What is encrypted and hashed is the name, ended by a zero, padded to whole
    blocks. *)
Lemma cryptdata_padded input : 0 < CRYPTPROTECTMEMORY_BLOCK_SIZE ->
  exists n, 0 < n /\ cryptdata input = input ++ replicate (Z.to_nat n) 0 /\
    zlen (cryptdata input) mod CRYPTPROTECTMEMORY_BLOCK_SIZE = 0 /\
    n <= CRYPTPROTECTMEMORY_BLOCK_SIZE.
Proof.
  intros Hb. unfold cryptdata. set (b := CRYPTPROTECTMEMORY_BLOCK_SIZE) in *. set (c := next_multiple_of _ _).
  pose proof (zlen_nonneg input).
  assert (Hc : zlen input + 1 <= c <= zlen input + b /\ c mod b = 0).
  { unfold c, next_multiple_of. split; [|by apply Z_mod_mult].
    pose proof (Z.mod_pos_bound (zlen input + 1 + b - 1) b Hb). pose proof (Z.div_mod (zlen input + 1 + b - 1) b ltac:(lia)). lia. }
  exists (c - zlen input). split; [lia|]. rewrite (ztake_all c) by lia. split_and!; [done| |lia].
  rewrite zlen_app, zlen_replicate. replace (zlen input + Z.max 0 (c - zlen input)) with c by lia. apply Hc.
Qed.

(** ** Either way *)
Inductive Stream {OS : Windows D} : Type :=
| NamedPipes (p : Pipe)
| WmMessage (s : PageantStream (D := D)).

(** [named_pipes], [wm_message]: what was compiled in. *)
Definition Stream_new {OS : Windows D} (named_pipes wm_message : bool) (cookie : bytes) : P D Stream := fun d =>
  let '(by_pipe, d) := if named_pipes
    then match NamedPipe_new d with
         | (Ok p, d) => (Some (Ok p), d) | (Err e, d) => (Some (Err e), d) | (Panic, d) => (Some Panic, d)
         end
    else (None, d) in
  match by_pipe with
  | Some (Ok p) => (Ok (NamedPipes p), d)
  | Some Panic => (Panic, d)
  | _ =>
      let errors := match by_pipe with Some (Err e) => [e] | _ => [] end in
      if wm_message then (Ok (WmMessage (PageantStream_new cookie d)), d)
      else (Err (match errors with [e] => e | _ => Multiple errors end), d)
  end.
End NamedPipes.

(** ** A Pageant that answers with the request, turned around *)
Module Example.
#[local] Instance windows : Windows unit := {|
  Owner := unit;
  FindWindow := st_ret true;
  get_current_process_user := st_ret tt;
  security_descriptor _ := st_ret tt;
  CreateFileMapping _ _ := st_ret true;
  MapViewOfFile _ d := (Some (replicate (Z.to_nat 8192) 0), d);
  SendMessage _ v d :=
    match v with
    | Some v => let n := default 0 (read_u32 v) in
                (1, Some (frame (rev (ztake n (zdrop 4 v))) ++ zdrop (4 + n) v), d)
    | None => (0, None, d)
    end;
  CloseMapping _ d := d;
  last_error _ := 0;
|}.

(** Three bytes at a time. *)
Definition grain : bytes -> bytes -> Z := fun _ _ => 3.
#[local] Instance stream : AgentStream (PageantStream (D := unit)) := pageant_stream grain.

Lemma pageant_answers_witness :
  read_response (mkClient (idle (str "7") tt) (frame [11; 12; 13; 14])) = (Ok tt, mkClient (idle (str "7") tt) [14; 13; 12; 11]).
Proof.
  pose proof (pageant_answers grain (str "7") [11; 12; 13; 14] (replicate (Z.to_nat 8192) 0) tt tt) as H.
  assert (Hp : prepare (str "PageantRequest" ++ str "7") tt = (Ok (mkMemoryMap (Some (replicate (Z.to_nat 8192) 0)) AGENT_MAX_MSGLEN 0), tt)) by reflexivity.
  specialize (H Hp). assert (Hv : AGENT_MAX_MSGLEN <= zlen (replicate (Z.to_nat 8192) (0 : Z))) by (vm_compute; discriminate).
  specialize (H Hv eq_refl ltac:(vm_compute; split; done)). cbn [Z.leb] in H.
  change (zlen [11; 12; 13; 14] + 4 <=? AGENT_MAX_MSGLEN) with true in H. cbv iota in H.
  destruct (asked (str "7") [11; 12; 13; 14] (replicate (Z.to_nat 8192) 0) tt) as [[r v'] d2] eqn:Ha. destruct d2.
  destruct H as (_ & H & _). apply (H [14; 13; 12; 11] (replicate (Z.to_nat 8184) 0)).
  - intros ->. vm_compute in Ha. discriminate Ha.
  - vm_compute in Ha. injection Ha as _ <-. vm_compute. reflexivity.
  - vm_compute. discriminate.
Defined.
End Example.
