(* ===== verification/KnownHosts.v ===== *)
(** * Known hosts ([russh/src/keys/known_hosts.rs], and the base 64 functions of
    [keys/mod.rs] that it uses)

    A file is [Some] content, or [None] when there is none; the functions for the
    standard location are these applied to the path under the home directory. *)

From stdpp Require Import base list numbers option sets strings.
From Stdlib Require Import ZArith Lia.
From S2P Require Import Prelude Encoding Text LibInner Auth Agent.

(** ** Parameters: [data_encoding], [hmac] and [ssh_key] *)
Class KnownKeys {UK : UserKeys} : Type := {
  (** [BASE64_MIME] *)
  base64_decode : bytes -> option bytes;
  base64_encode : bytes -> bytes;
  (** HMAC-SHA1 under a key, of a message, against a tag; a key of any length will
      do *)
  hmac_verify : bytes -> bytes -> bytes -> bool;
  to_openssh : PublicKey -> res KeyError bytes;
  same_key : PublicKey -> PublicKey -> bool;
  same_algorithm : Algorithm -> Algorithm -> bool;
}.

Section KnownHosts.
Context {UK : UserKeys} {KK : KnownKeys}.

(** ** Keys in base 64 *)
Definition parse_public_key_base64 (key : bytes) : KResult PublicKey :=
  match base64_decode key with
  | Some base => map_err KeysError.SshKey (PublicKey_decode base)
  | None => Err (KeysError.Decode 0)
  end.

(** [load_public_key]: of the content of the file, which may start with the name of
    the algorithm. *)
Definition load_public_key (content : bytes) : KResult PublicKey :=
  if negb (is_utf8 content) then Err (KeysError.IO 0)
  else
    match split_whitespace content with
    | _ :: key :: _ => parse_public_key_base64 key
    | [key] => parse_public_key_base64 key
    | [] => Err KeysError.CouldNotReadKey
    end.

(** ** Reading the file *)
Definition host_port (host : bytes) (port : Z) : bytes :=
  if port =? 22 then host else str "[" ++ host ++ str "]:" ++ decimal16 port.

Definition match_entry (host entry : bytes) : bool :=
  if starts_with (str "|1|") entry then
    match split 124 entry with
    | _ :: _ :: salt :: hash :: _ =>
        match base64_decode salt, base64_decode hash with
        | Some salt, Some hash => hmac_verify salt host hash
        | _, _ => false
        end
    | _ => false
    end
  else beq host entry.
Definition match_hostname (host pattern : bytes) : bool := existsb (match_entry host) (split 44 pattern).

(** What a line says of the host; [None] for a comment. *)
Definition read_entry (host l : bytes) : KResult (option PublicKey) :=
  match split SPACE l with
  | h :: _ :: k :: _ =>
      if match_hostname host h then let? key := parse_public_key_base64 k in Ok (Some key) else Ok None
  | _ => Ok None
  end.

(** The number of a line counts the lines before it that are no comments. *)
Fixpoint scan (host : bytes) (line : Z) (ls : list bytes) : KResult (list (Z * PublicKey)) :=
  match ls with
  | [] => Ok []
  | l :: ls =>
      if negb (is_utf8 l) then Err (KeysError.IO 0)
      else if bool_decide (head l = Some 35) then scan host line ls
      else
        let? e := read_entry host l in
        let? rest := scan host (line + 1) ls in
        Ok (match e with Some key => (line, key) :: rest | None => rest end)
  end.

Definition known_host_keys_path (host : bytes) (port : Z) (file : option bytes) : KResult (list (Z * PublicKey)) :=
  match file with
  | None => Ok []
  | Some content => scan (host_port host port) 1 (split_lines content)
  end.

(** ** Checking *)
Fixpoint compare_keys (pubkey : PublicKey) (l : list (Z * PublicKey)) : KResult (list bool) :=
  match l with
  | [] => Ok []
  | (line, recorded) :: l =>
      let? b :=
        match same_algorithm (public_algorithm pubkey) (public_algorithm recorded), same_key pubkey recorded with
        | true, true => Ok true
        | true, false => Err (KeysError.KeyChanged line)
        | _, _ => Ok false
        end in
      let? bs := compare_keys pubkey l in
      Ok (b :: bs)
  end.

Definition check_known_hosts_path (host : bytes) (port : Z) (pubkey : PublicKey) (file : option bytes) : KResult bool :=
  let? l := known_host_keys_path host port file in
  let? bs := compare_keys pubkey l in
  Ok (existsb (fun b => b) bs).

(** ** Learning: the result and the file, which may be left with half a line *)
Definition ends_in_newline (content : bytes) : bool := bool_decide (list.last content = Some NEWLINE).

Definition learn_known_hosts_path (host : bytes) (port : Z) (pubkey : PublicKey) (file : option bytes)
  : KResult unit * option bytes :=
  let content := default [] file in
  let content := if ends_in_newline content then content else content ++ [NEWLINE] in
  let content := content ++ host_port host port ++ [SPACE] in
  match to_openssh pubkey with
  | Ok s => (Ok tt, Some (content ++ s ++ [NEWLINE]))
  | Err x => (Err (KeysError.SshKey x), Some content)
  | Panic => (Panic, Some content)
  end.
End KnownHosts.

(** ** What is learned is known *)

(** Base 64 is one word, and line ends in it do not matter; a key is written as
    the name of its algorithm and its blob, perhaps with a comment, on one line. *)
Definition word (b : bytes) : Prop := (SPACE ∉ b) /\ (NEWLINE ∉ b).

Class KnownKeysLaws {UK : UserKeys} (KK : KnownKeys) : Prop := {
  base64_roundtrip b : base64_decode (base64_encode b) = Some b;
  base64_newline b : base64_decode (b ++ [NEWLINE]) = base64_decode b;
  openssh_format key s : to_openssh key = Ok s -> is_utf8 s = true /\
    exists alg blob rest, s = alg ++ [SPACE] ++ base64_encode blob ++ rest /\ PublicKey_to_bytes key = Ok blob /\
      word alg /\ word (base64_encode blob) /\ (NEWLINE ∉ rest) /\ (rest = [] \/ exists comment, rest = SPACE :: comment);
  same_key_spec k1 k2 : same_key k1 k2 = true <-> k1 = k2;
  same_algorithm_spec a1 a2 : same_algorithm a1 a2 = true <-> a1 = a2;
}.

(** A host that can be named in the file: one word, not taken for a comment, a list
    or a hash. *)
Definition nameable (host : bytes) : Prop :=
  host <> [] /\ is_utf8 host = true /\ word host /\ (44 ∉ host) /\ head host <> Some 35 /\
  starts_with (str "|1|") host = false.

Section Learning.
Context {UK : UserKeys} {KK : KnownKeys} `{!UserKeysLaws UK} `{!KnownKeysLaws KK}.

(** Lines that are added are read after the others, whose first error stays. *)
Lemma scan_app host ls : exists m, forall n ls', scan host n (ls ++ ls') =
  let? l := scan host n ls in let? l' := scan host (n + m) ls' in Ok (l ++ l').
Proof.
  induction ls as [|x ls [m IH]].
  - exists 0. intros n ls'. cbn. rewrite Z.add_0_r. by destruct (scan host n ls').
  - exists (if bool_decide (head x = Some 35) then m else 1 + m). intros n ls'. cbn [scan app].
    destruct (negb (is_utf8 x)); [done|]. destruct (bool_decide _); [apply IH|].
    destruct (read_entry host x) as [e| |]; cbn [res_bind]; [|done..]. rewrite IH.
    destruct (scan host (n + 1) ls) as [r| |]; cbn [res_bind]; [|done..].
    replace (n + (1 + m)) with (n + 1 + m) by lia.
    destruct (scan host (n + 1 + m) ls') as [r'| |]; cbn [res_bind]; [|done..]. by destruct e.
Qed.

(** A newline at the end of the last line makes no difference. *)
Lemma read_entry_newline host l : read_entry host (l ++ [NEWLINE]) = read_entry host l.
Proof.
  unfold read_entry. destruct (split_snoc SPACE l NEWLINE) as (ps & p & -> & ->); [done|].
  destruct ps as [|h [|a [|k ps]]]; try done. cbn. unfold parse_public_key_base64. by rewrite base64_newline.
Qed.

Lemma scan_last_newline host ls l : l <> [] -> forall n,
  scan host n (ls ++ [l ++ [NEWLINE]]) = scan host n (ls ++ [l]).
Proof.
  intros Hl. induction ls as [|x ls IH]; intros n; cbn [scan app].
  - rewrite is_utf8_newline, read_entry_newline. destruct l as [|y l]; [done|]. done.
  - by rewrite !IH.
Qed.

(** The line that is written. *)
Lemma read_entry_learned h hp key s : nameable hp -> to_openssh key = Ok s ->
  read_entry h (hp ++ [SPACE] ++ s ++ [NEWLINE]) = Ok (if beq h hp then Some key else None).
Proof.
  intros (_ & _ & [Hw _] & Hc & _ & Hp) (_ & alg & blob & rest & -> & Hb & [Ha _] & [Hk _] & _ & Hr)%openssh_format.
  assert (Hh : match_hostname h hp = beq h hp).
  { unfold match_hostname. rewrite split_notin by done. cbn [existsb]. unfold match_entry. rewrite Hp. by rewrite orb_false_r. }
  apply PublicKey_roundtrip in Hb as [Hb _].
  assert (Hd : parse_public_key_base64 (base64_encode blob) = Ok key)
    by (unfold parse_public_key_base64; by rewrite base64_roundtrip, Hb).
  unfold read_entry. rewrite <- !app_assoc. cbn [app]. rewrite split_sep, split_sep by done. rewrite Hh.
  destruct Hr as [->|[comment ->]]; cbn [app].
  - rewrite split_notin by (rewrite elem_of_app, list_elem_of_singleton; intros [?|?]; done).
    unfold parse_public_key_base64 in *. rewrite base64_newline, Hd. by destruct (beq h hp).
  - rewrite split_sep, Hd by done. by destruct (beq h hp).
Qed.

Lemma scan_learned h hp key s n : nameable hp -> to_openssh key = Ok s ->
  scan h n [hp ++ [SPACE] ++ s ++ [NEWLINE]] = Ok (if beq h hp then [(n, key)] else []).
Proof.
  intros Hn Hs. cbn [scan]. rewrite (read_entry_learned h hp key s) by done.
  pose proof (openssh_format _ _ Hs) as [Hu _]. destruct Hn as (Hne & Hhu & _ & _ & Hc & _).
  rewrite (is_utf8_app _ _ Hhu), (is_utf8_app [SPACE] _ eq_refl), (is_utf8_app _ _ Hu). cbn [negb is_utf8 in_range andb].
  rewrite bool_decide_false by (by destruct hp). cbn [res_bind]. by destruct (beq h hp).
Qed.

Lemma learned_one_line hp key s : nameable hp -> to_openssh key = Ok s ->
  split_lines (hp ++ [SPACE] ++ s ++ [NEWLINE]) = [hp ++ [SPACE] ++ s ++ [NEWLINE]].
Proof.
  intros (_ & _ & [_ Hn] & _) (_ & alg & blob & rest & -> & _ & [_ Ha] & [_ Hk] & Hr & _)%openssh_format.
  rewrite !app_assoc. apply split_lines_one. rewrite !elem_of_app, !list_elem_of_singleton. intuition done.
Qed.

Lemma learned_keys host port key s file h p : nameable (host_port host port) -> to_openssh key = Ok s ->
  exists n, known_host_keys_path h p (learn_known_hosts_path host port key file).2 =
    let? l := known_host_keys_path h p file in
    Ok (l ++ if beq (host_port h p) (host_port host port) then [(n, key)] else []).
Proof.
  intros Hn Hs. set (hp := host_port host port) in *. set (line := hp ++ [SPACE] ++ s ++ [NEWLINE]).
  set (content := default [] file).
  assert (Hc : (learn_known_hosts_path host port key file).2 =
    Some ((if ends_in_newline content then content else content ++ [NEWLINE]) ++ line)).
  { unfold learn_known_hosts_path. rewrite Hs. cbn [snd]. unfold line. fold hp. fold content. by rewrite <- !app_assoc. }
  rewrite Hc. cbn [known_host_keys_path]. assert (Hline : split_lines line = [line]) by by apply learned_one_line with key.
  assert (Hscan : forall n, scan (host_port h p) n (split_lines line) = Ok (if beq (host_port h p) hp then [(n, key)] else [])).
  { intros n. rewrite Hline. by apply scan_learned. }
  assert (Hold : known_host_keys_path h p file = scan (host_port h p) 1 (split_lines content)) by (by destruct file).
  rewrite Hold. unfold ends_in_newline. case_bool_decide as Hnl; [|destruct (decide (content = [])) as [He|He]].
  - rewrite split_lines_app by done. destruct (scan_app (host_port h p) (split_lines content)) as [m Hm]. exists (1 + m).
    by rewrite Hm, Hscan.
  - rewrite He. exists 2. cbn [app]. rewrite split_lines_step. cbn.
    rewrite bool_decide_false by done. change (1 + 1) with 2. by rewrite Hscan.
  - rewrite <- app_assoc. cbn [app]. destruct (split_lines_end content line He Hnl) as (ls & k & Hk & Hk0 & _ & ->).
    rewrite Hk, app_assoc. destruct (scan_app (host_port h p) (ls ++ [k ++ [NEWLINE]])) as [m Hm]. exists (1 + m).
    by rewrite Hm, Hscan, scan_last_newline.
Qed.

Lemma compare_keys_app k l l' :
  compare_keys k (l ++ l') = let? bs := compare_keys k l in let? bs' := compare_keys k l' in Ok (bs ++ bs').
Proof.
  induction l as [|[n r] l IH]; cbn [compare_keys app]; [by destruct (compare_keys k l')|].
  destruct (same_algorithm (public_algorithm k) _), (same_key k r); cbn [res_bind]; try done; rewrite IH;
    destruct (compare_keys k l); cbn [res_bind]; try done; by destruct (compare_keys k l').
Qed.

(** C30. A host key that is learned is known. When the host can be named in the file
    (one word of text without a comma, that is not taken for a comment or a hash) and the key can
    be written ([to_openssh]; keys are those of the wire, without a comment),
    [learn_known_hosts] succeeds, and of every host, port and key the
    check then says what it said of the file before, but that for this host and
    port a key of the algorithm of the learned key is now accepted if it is the
    learned key and reported as changed if it is another. A check that failed before -
    a line that is no text, an entry for the host that is no key, another key of
    the algorithm - fails as before. This is so whatever was in the file, with or
    without a newline at its end, and if there was no file. *)
Theorem learned_key_known host port key s file h p k :
  nameable (host_port host port) -> to_openssh key = Ok s ->
  let learned := learn_known_hosts_path host port key file in
  learned.1 = Ok tt /\
  exists n, check_known_hosts_path h p k learned.2 =
    let? b := check_known_hosts_path h p k file in
    if beq (host_port h p) (host_port host port) && same_algorithm (public_algorithm k) (public_algorithm key)
    then if same_key k key then Ok true else Err (KeysError.KeyChanged n)
    else Ok b.
Proof.
  intros Hn Hs. cbv zeta. split; [unfold learn_known_hosts_path; by rewrite Hs|].
  destruct (learned_keys host port key s file h p Hn Hs) as [n Hk]. exists n.
  unfold check_known_hosts_path. rewrite Hk. destruct (known_host_keys_path h p file) as [l| |]; cbn [res_bind]; [|done..].
  rewrite compare_keys_app. destruct (compare_keys k l) as [bs| |]; cbn [res_bind]; [|done..].
  destruct (beq _ _); cbn [andb compare_keys]; [|cbn; by rewrite app_nil_r].
  destruct (same_algorithm _ _) eqn:Ha, (same_key k key) eqn:Hkey; cbn; try done.
  - by rewrite existsb_app, orb_true_r.
  - apply same_key_spec in Hkey as ->. by rewrite (proj2 (same_algorithm_spec _ _) eq_refl) in Ha.
  - by rewrite existsb_app, orb_false_r.
Qed.
End Learning.

(** ** A file *)
Module Example.
#[local] Existing Instances Auth.Example.keys Auth.Example.keys_laws.

#[local] Instance HashAlg_eq_dec : EqDecision HashAlg.
Proof. solve_decision. Defined.
#[local] Instance alg_eq_dec : EqDecision Auth.Example.alg.
Proof. solve_decision. Defined.

(** In place of base 64: odd numbers, so neither spaces nor newlines. *)
Definition encode (b : bytes) : bytes := map (fun x => 2 * x + 1) b.
Definition decode (b : bytes) : bytes := map (fun x => (x - 1) / 2) (List.filter (fun x => negb (x =? NEWLINE)) b).

#[local] Instance known_keys : KnownKeys := {|
  base64_decode b := Some (decode b);
  base64_encode := encode;
  hmac_verify salt host hash := beq hash (salt ++ host);
  to_openssh pk :=
    let k : Auth.Example.key := pk in
    if (0 <=? k.2) && (k.2 <? 60)
    then Ok (Auth.Example.alg_str (Auth.Example.key_alg k) ++ [SPACE] ++ encode [if k.1 then 1 else 0; k.2])
    else Err (KeyOther 0);
  same_key k1 k2 := bool_decide ((k1 : Auth.Example.key) = k2);
  same_algorithm a1 a2 := bool_decide ((a1 : Auth.Example.alg) = a2);
|}.

Lemma encode_word b : word (encode b).
Proof. split; unfold encode, SPACE, NEWLINE; rewrite list_elem_of_In, in_map_iff; intros (x & ? & _); lia. Qed.

Lemma decode_encode b : decode (encode b) = b.
Proof.
  unfold decode, encode. induction b as [|x b IH]; [done|]. cbn [map List.filter].
  destruct (Z.eqb_spec (2 * x + 1) NEWLINE) as [H|_]; [unfold NEWLINE in H; lia|]. cbn [negb map]. rewrite IH. f_equal.
  replace (2 * x + 1 - 1) with (x * 2) by lia. by rewrite Z.div_mul.
Qed.

#[local] Instance known_keys_laws : KnownKeysLaws known_keys.
Proof.
  split.
  - intros b. exact (f_equal Some (decode_encode b)).
  - intros b. cbn. unfold decode. rewrite List.filter_app. cbn. by rewrite app_nil_r.
  - intros [r k] s. cbn. destruct (_ && _) eqn:Hk; [|done]. intros [= <-]. apply andb_true_iff in Hk as [H1 H2].
    split.
    + rewrite is_utf8_app by by destruct r. cbn [app is_utf8 encode map]. unfold in_range.
      destruct r; cbn; repeat match goal with |- context [if ?b then _ else _] => replace b with true by (symmetry; repeat (apply andb_true_iff; split); apply Z.leb_le; lia) end; done.
    + eexists _, [if r then 1 else 0; k], []. rewrite app_nil_r. split; [done|]. split; [done|].
      split_and!; [|apply encode_word|apply not_elem_of_nil|by left].
      unfold word, SPACE, NEWLINE. destruct r; cbn; set_solver.
  - intros k1 k2. cbn. by rewrite bool_decide_eq_true.
  - intros a1 a2. cbn. by rewrite bool_decide_eq_true.
Qed.

Definition k9 : PublicKey := (false, 9).
Definition k8 : PublicKey := (false, 8).
(** A file without a newline at its end; a comment comes first. *)
Definition file : option bytes := Some (str "# old" ++ [NEWLINE] ++ str "other.org,h ssh-ed25519 " ++ encode [0; 8]).
Definition host : bytes := str "h".

Lemma learned_key_known_witness :
  (exists n, check_known_hosts_path host 2222 k8 (learn_known_hosts_path host 2222 k9 file).2 = Err (KeysError.KeyChanged n)) /\
  check_known_hosts_path host 22 k9 (learn_known_hosts_path host 2222 k9 file).2 = Err (KeysError.KeyChanged 1).
Proof.
  assert (Hn : nameable (host_port host 2222)) by (unfold nameable, word; split_and!; vm_compute; try done; set_solver).
  assert (Hs : to_openssh k9 = Ok (str "ssh-ed25519 " ++ encode [0; 9])) by reflexivity.
  split.
  - destruct (learned_key_known host 2222 k9 (str "ssh-ed25519 " ++ encode [0; 9]) file host 2222 k8 Hn Hs) as [_ [n H]].
    exists n. rewrite H. vm_compute. reflexivity.
  - destruct (learned_key_known host 2222 k9 (str "ssh-ed25519 " ++ encode [0; 9]) file host 22 k9 Hn Hs) as [_ [n H]].
    rewrite H. vm_compute. reflexivity.
Defined.

(** The key is on the second line. *)
Example comments_not_counted : check_known_hosts_path host 22 k9 file = Err (KeysError.KeyChanged 1).
Proof. vm_compute. reflexivity. Qed.
End Example.
