(* ===== verification/SshConfig.v ===== *)
(** * The configuration file ([russh-config/src/lib.rs])

    Strings and paths are bytes; [globset], the name of the user and the
    environment are parameters. *)

From stdpp Require Import base list numbers option sets strings.
From Stdlib Require Import ZArith Lia.
From S2P Require Import Prelude Encoding Text.

(** ** Parameters *)
Class Environment : Type := {
  (** [Glob::new] and [GlobMatcher::is_match]; [None] for a pattern that is no glob *)
  glob : bytes -> option (bytes -> bool);
  (** [whoami::username] *)
  username : bytes;
  (** [env::home_dir] *)
  home_dir : option bytes;
}.

(** ** Data *)
Module ConfigError.
Inductive Error : Type := HostNotFound | NoHome | Io (e : Z).
End ConfigError.

Inductive AddKeysToAgent : Type := Yes | Confirm | Ask | No.

Record HostConfig : Type := {
  hc_user : option bytes;
  hc_hostname : option bytes;
  hc_port : option Z;
  hc_identity_file : option (list bytes);
  hc_proxy_command : option bytes;
  hc_proxy_jump : option bytes;
  hc_add_keys_to_agent : option AddKeysToAgent;
  hc_user_known_hosts_file : option bytes;
  hc_strict_host_key_checking : option bool;
}.
Definition HostConfig_default : HostConfig := {|
  hc_user := None; hc_hostname := None; hc_port := None; hc_identity_file := None; hc_proxy_command := None;
  hc_proxy_jump := None; hc_add_keys_to_agent := None; hc_user_known_hosts_file := None;
  hc_strict_host_key_checking := None |}.

Record HostPattern : Type := { hp_pattern : bytes; hp_negated : bool }.
Record HostEntry : Type := { host_patterns : list HostPattern; host_config : HostConfig }.

Record Config : Type := {
  cfg_host_name : bytes;
  cfg_user : option bytes;
  cfg_port : option Z;
  cfg_host_config : HostConfig;
}.
Definition Config_default (host : bytes) : Config :=
  {| cfg_host_name := host; cfg_user := None; cfg_port := None; cfg_host_config := HostConfig_default |}.

(** A setting of the file. *)
Inductive Setting : Type :=
  | SetUser (v : bytes) | SetHostname (v : bytes) | SetPort (v : Z) | AddIdentityFile (v : bytes)
  | SetProxyCommand (v : bytes) | SetProxyJump (v : bytes) | SetAddKeysToAgent (v : AddKeysToAgent)
  | SetUserKnownHostsFile (v : bytes) | SetStrictHostKeyChecking (v : bool).

Definition set_setting (x : Setting) (c : HostConfig) : HostConfig := {|
  hc_user := match x with SetUser v => Some v | _ => hc_user c end;
  hc_hostname := match x with SetHostname v => Some v | _ => hc_hostname c end;
  hc_port := match x with SetPort v => Some v | _ => hc_port c end;
  hc_identity_file :=
    match x, hc_identity_file c with
    | AddIdentityFile v, Some files => Some (files ++ [v])
    | AddIdentityFile v, None => Some [v]
    | _, files => files
    end;
  hc_proxy_command := match x with SetProxyCommand v => Some v | _ => hc_proxy_command c end;
  hc_proxy_jump := match x with SetProxyJump v => Some v | _ => hc_proxy_jump c end;
  hc_add_keys_to_agent := match x with SetAddKeysToAgent v => Some v | _ => hc_add_keys_to_agent c end;
  hc_user_known_hosts_file := match x with SetUserKnownHostsFile v => Some v | _ => hc_user_known_hosts_file c end;
  hc_strict_host_key_checking :=
    match x with SetStrictHostKeyChecking v => Some v | _ => hc_strict_host_key_checking c end;
|}.

(** ** Strings and paths *)
Definition strip_quotes (b : bytes) : bytes :=
  if (1 <? zlen b)
     && ((starts_with [39] b && ends_with [39] b) || (starts_with [34] b && ends_with [34] b))
  then zdrop 1 (ztake (zlen b - 1) b)
  else b.

(** [PathBuf::push] on Unix. *)
Definition path_push (p q : bytes) : bytes :=
  if starts_with [47] q then q
  else if bool_decide (p = []) || ends_with [47] p then p ++ q
  else p ++ [47] ++ q.

Section Config.
Context {E : Environment}.

Definition expand_home (b : bytes) : res ConfigError.Error bytes :=
  if starts_with (str "~/") b then
    match home_dir with
    | Some home => Ok (path_push home (zdrop 2 b))
    | None => Err ConfigError.NoHome
    end
  else Ok b.

(** ** Looking up a host *)
Definition check_host_against_glob_pattern (candidate glob_pattern : bytes) : bool :=
  match glob glob_pattern with
  | Some is_match => is_match candidate
  | None => false
  end.

Fixpoint matches_from (host : bytes) (matched : bool) (ps : list HostPattern) : bool :=
  match ps with
  | [] => matched
  | p :: ps =>
      if check_host_against_glob_pattern host (hp_pattern p) then
        if hp_negated p then false else matches_from host true ps
      else matches_from host matched ps
  end.
Definition matches (e : HostEntry) (host : bytes) : bool := matches_from host false (host_patterns e).

Definition clone_if_none {A} (left right : option A) : option A :=
  match left with Some _ => left | None => right end.

Definition merge (left right : HostConfig) : HostConfig := {|
  hc_user := clone_if_none (hc_user left) (hc_user right);
  hc_hostname := clone_if_none (hc_hostname left) (hc_hostname right);
  hc_port := clone_if_none (hc_port left) (hc_port right);
  hc_identity_file :=
    match hc_identity_file right with
    | Some right_identity_files =>
        match hc_identity_file left with
        | Some identity_files => Some (identity_files ++ right_identity_files)
        | None => Some right_identity_files
        end
    | None => hc_identity_file left
    end;
  hc_proxy_command := clone_if_none (hc_proxy_command left) (hc_proxy_command right);
  hc_proxy_jump := clone_if_none (hc_proxy_jump left) (hc_proxy_jump right);
  hc_add_keys_to_agent := clone_if_none (hc_add_keys_to_agent left) (hc_add_keys_to_agent right);
  hc_user_known_hosts_file := clone_if_none (hc_user_known_hosts_file left) (hc_user_known_hosts_file right);
  hc_strict_host_key_checking := clone_if_none (hc_strict_host_key_checking left) (hc_strict_host_key_checking right);
|}.

Definition query (entries : list HostEntry) (host : bytes) : HostConfig :=
  fold_left merge (omap (fun e => if matches e host then Some (host_config e) else None) entries) HostConfig_default.

(** ** Reading the file *)
Record Parser : Type := {
  entries : list HostEntry;
  patterns : option (list HostPattern);
  config : HostConfig;
  found_params : bool;
}.
Definition Parser_new : Parser :=
  {| entries := []; patterns := None; config := HostConfig_default; found_params := false |}.

Definition parse_pattern (w : bytes) : HostPattern :=
  match w with
  | 33 :: w => {| hp_pattern := w; hp_negated := true |}
  | _ => {| hp_pattern := w; hp_negated := false |}
  end.

(** The end of an entry: at the next one, or at the end of the file. *)
Definition close_entry (p : Parser) : res ConfigError.Error Parser :=
  match patterns p with
  | Some ps =>
      Ok {| entries := entries p ++ [{| host_patterns := ps; host_config := config p |}];
            patterns := None; config := HostConfig_default; found_params := found_params p |}
  | None => if found_params p then Err ConfigError.HostNotFound else Ok p
  end.

Definition parse_host (value : bytes) (p : Parser) : res ConfigError.Error Parser :=
  let? p := close_entry p in
  Ok {| entries := entries p; patterns := Some (map parse_pattern (split_ascii_whitespace value));
        config := config p; found_params := false |}.

(** The setting of a line; [None] for an unknown key, or for a port that is no
    number. *)
Definition parse_setting (lower value : bytes) : res ConfigError.Error (option Setting) :=
  if beq lower (str "user") then Ok (Some (SetUser (trim_start value)))
  else if beq lower (str "hostname") then Ok (Some (SetHostname (trim_start value)))
  else if beq lower (str "port") then
    match parse_u16 (trim_start value) with Some port => Ok (Some (SetPort port)) | None => Ok None end
  else if beq lower (str "identityfile") then
    let? f := expand_home (strip_quotes (trim_start value)) in Ok (Some (AddIdentityFile f))
  else if beq lower (str "proxycommand") then Ok (Some (SetProxyCommand (trim_start value)))
  else if beq lower (str "proxyjump") then Ok (Some (SetProxyJump (trim_start value)))
  else if beq lower (str "addkeystoagent") then
    let v := to_lowercase value in
    Ok (Some (SetAddKeysToAgent
      (if beq v (str "yes") then Yes else if beq v (str "confirm") then Confirm
       else if beq v (str "ask") then Ask else No)))
  else if beq lower (str "userknownhostsfile") then
    let? f := expand_home (strip_quotes (trim_start value)) in Ok (Some (SetUserKnownHostsFile f))
  else if beq lower (str "stricthostkeychecking") then
    Ok (Some (SetStrictHostKeyChecking (negb (beq (to_lowercase value) (str "no")))))
  else Ok None.

Definition parse_line (line : bytes) (p : Parser) : res ConfigError.Error Parser :=
  if bool_decide (line = []) || starts_with [35] line then Ok p
  else
    match split_once SPACE line with
    | None => Ok p
    | Some (key, value) =>
        let lower := to_lowercase key in
        if beq lower (str "host") then parse_host value p
        else
          let? x := parse_setting lower value in
          Ok {| entries := entries p; patterns := patterns p;
                config := match x with Some x => set_setting x (config p) | None => config p end;
                found_params := true |}
    end.

Fixpoint parse_lines (ls : list bytes) (p : Parser) : res ConfigError.Error Parser :=
  match ls with
  | [] => Ok p
  | l :: ls => let? p := parse_line (trim l) p in parse_lines ls p
  end.

Definition parse_ssh_config (contents : bytes) : res ConfigError.Error (list HostEntry) :=
  let? p := parse_lines (lines contents) Parser_new in
  let? p := close_entry p in
  Ok (entries p).

Definition parse (file host : bytes) : res ConfigError.Error Config :=
  let? es := parse_ssh_config file in
  Ok {| cfg_host_name := host; cfg_user := None; cfg_port := None; cfg_host_config := query es host |}.

(** A file is its content, [None] when it cannot be read. *)
Definition parse_path (content : option bytes) (host : bytes) : res ConfigError.Error Config :=
  match content with
  | Some s => if is_utf8 s then parse s host else Err (ConfigError.Io 0)
  | None => Err (ConfigError.Io 0)
  end.
Definition parse_home (read_file : bytes -> option bytes) (host : bytes) : res ConfigError.Error Config :=
  match home_dir with
  | Some home => parse_path (read_file (path_push (path_push home (str ".ssh")) (str "config"))) host
  | None => Err ConfigError.NoHome
  end.

(** ** The resulting configuration *)
Definition user (c : Config) : bytes :=
  default username (clone_if_none (cfg_user c) (hc_user (cfg_host_config c))).
Definition port (c : Config) : Z := default 22 (clone_if_none (hc_port (cfg_host_config c)) (cfg_port c)).
Definition host (c : Config) : bytes := default (cfg_host_name c) (hc_hostname (cfg_host_config c)).

Definition expand_tokens (c : Config) (original : bytes) : bytes :=
  let s := replace (str "%u") (user c) original in
  let s := replace (str "%h") (host c) s in
  let s := replace (str "%H") (host c) s in
  let s := replace (str "%p") (decimal16 (port c)) s in
  replace (str "%%") (str "%") s.

(** What [stream] connects to. *)
Inductive Target : Type :=
  | ProxyCommand (cmd : bytes) (args : list bytes)
  | TcpConnect (host : bytes) (port : Z).
Definition stream (c : Config) : Target :=
  match hc_proxy_command (cfg_host_config c) with
  | Some proxy_command =>
      let cmd := split SPACE (expand_tokens c proxy_command) in
      ProxyCommand (default [] (head cmd)) (tail cmd)
  | None => TcpConnect (host c) (port c)
  end.
End Config.

(** ** What the settings of several entries come to *)

(** The first that is given. *)
Definition first_of {A} (l : list (option A)) : option A := head (omap id l).
(** The files of all, in order. *)
Definition all_of {A} (l : list (option (list A))) : option (list A) :=
  match omap id l with [] => None | fs => Some (concat fs) end.

Definition effective (l : list HostConfig) : HostConfig := {|
  hc_user := first_of (map hc_user l);
  hc_hostname := first_of (map hc_hostname l);
  hc_port := first_of (map hc_port l);
  hc_identity_file := all_of (map hc_identity_file l);
  hc_proxy_command := first_of (map hc_proxy_command l);
  hc_proxy_jump := first_of (map hc_proxy_jump l);
  hc_add_keys_to_agent := first_of (map hc_add_keys_to_agent l);
  hc_user_known_hosts_file := first_of (map hc_user_known_hosts_file l);
  hc_strict_host_key_checking := first_of (map hc_strict_host_key_checking l);
|}.

Lemma first_of_cons {A} (x y : option A) l : first_of (clone_if_none x y :: l) = first_of (x :: y :: l).
Proof. by destruct x, y. Qed.

Lemma fold_first {A} (f : HostConfig -> option A) :
  (forall l r, f (merge l r) = clone_if_none (f l) (f r)) ->
  forall l c, f (fold_left merge l c) = first_of (map f (c :: l)).
Proof.
  intros Hf. induction l as [|r l IH]; intros c; cbn [fold_left map]; [unfold first_of; cbn; by destruct (f c)|].
  rewrite IH. cbn [map]. by rewrite Hf, first_of_cons.
Qed.

Lemma fold_identity_files l : forall c,
  hc_identity_file (fold_left merge l c) = all_of (map hc_identity_file (c :: l)).
Proof.
  induction l as [|r l IH]; intros c; cbn [fold_left map].
  - unfold all_of. cbn. destruct (hc_identity_file c); cbn; [by rewrite app_nil_r|done].
  - rewrite IH. unfold all_of. cbn [map merge hc_identity_file omap list_omap].
    destruct (hc_identity_file c), (hc_identity_file r); cbn; [by rewrite app_assoc|done..].
Qed.

Lemma fold_merge l : fold_left merge l HostConfig_default = effective l.
Proof.
  pose proof (fold_first hc_user (fun _ _ => eq_refl) l HostConfig_default) as H1.
  pose proof (fold_first hc_hostname (fun _ _ => eq_refl) l HostConfig_default) as H2.
  pose proof (fold_first hc_port (fun _ _ => eq_refl) l HostConfig_default) as H3.
  pose proof (fold_identity_files l HostConfig_default) as H4.
  pose proof (fold_first hc_proxy_command (fun _ _ => eq_refl) l HostConfig_default) as H5.
  pose proof (fold_first hc_proxy_jump (fun _ _ => eq_refl) l HostConfig_default) as H6.
  pose proof (fold_first hc_add_keys_to_agent (fun _ _ => eq_refl) l HostConfig_default) as H7.
  pose proof (fold_first hc_user_known_hosts_file (fun _ _ => eq_refl) l HostConfig_default) as H8.
  pose proof (fold_first hc_strict_host_key_checking (fun _ _ => eq_refl) l HostConfig_default) as H9.
  destruct (fold_left merge l HostConfig_default); cbn in H1, H2, H3, H4, H5, H6, H7, H8, H9; subst. done.
Qed.

(** An entry is for a host when a pattern matches that is not negated, and no
    negated one does. *)
Definition applies {E : Environment} (h : bytes) (e : HostEntry) : bool :=
  let hit p := check_host_against_glob_pattern h (hp_pattern p) in
  existsb (fun p => hit p && negb (hp_negated p)) (host_patterns e)
  && negb (existsb (fun p => hit p && hp_negated p) (host_patterns e)).

Lemma matches_from_spec {E : Environment} h ps : forall b,
  matches_from h b ps =
  (b || existsb (fun p => check_host_against_glob_pattern h (hp_pattern p) && negb (hp_negated p)) ps)
  && negb (existsb (fun p => check_host_against_glob_pattern h (hp_pattern p) && hp_negated p) ps).
Proof.
  induction ps as [|p ps IH]; intros b; cbn [matches_from existsb]; [by destruct b|].
  destruct (check_host_against_glob_pattern h (hp_pattern p)), (hp_negated p); cbn; rewrite ?IH; cbn.
  - by rewrite andb_false_r.
  - by rewrite orb_true_r.
  - done.
  - done.
Qed.

Lemma matches_spec {E : Environment} e h : matches e h = applies h e.
Proof. unfold matches, applies. by rewrite matches_from_spec. Qed.

Lemma query_spec {E : Environment} es h :
  query es h = effective (map host_config (List.filter (applies h) es)).
Proof.
  unfold query. rewrite fold_merge. f_equal. induction es as [|e es IH]; [done|]. cbn [omap list_omap List.filter].
  rewrite matches_spec. destruct (applies h e); cbn [map]; [f_equal|]; exact IH.
Qed.

(** ** Writing a file down *)
Definition settings_of (c : HostConfig) : list Setting :=
  option_list (SetUser <$> hc_user c) ++ option_list (SetHostname <$> hc_hostname c) ++
  option_list (SetPort <$> hc_port c) ++ map AddIdentityFile (default [] (hc_identity_file c)) ++
  option_list (SetProxyCommand <$> hc_proxy_command c) ++ option_list (SetProxyJump <$> hc_proxy_jump c) ++
  option_list (SetAddKeysToAgent <$> hc_add_keys_to_agent c) ++
  option_list (SetUserKnownHostsFile <$> hc_user_known_hosts_file c) ++
  option_list (SetStrictHostKeyChecking <$> hc_strict_host_key_checking c).

Definition print_setting (x : Setting) : bytes * bytes :=
  match x with
  | SetUser v => (str "User", v)
  | SetHostname v => (str "Hostname", v)
  | SetPort v => (str "Port", decimal16 v)
  | AddIdentityFile v => (str "IdentityFile", v)
  | SetProxyCommand v => (str "ProxyCommand", v)
  | SetProxyJump v => (str "ProxyJump", v)
  | SetAddKeysToAgent v =>
      (str "AddKeysToAgent",
       match v with Yes => str "yes" | Confirm => str "confirm" | Ask => str "ask" | No => str "no" end)
  | SetUserKnownHostsFile v => (str "UserKnownHostsFile", v)
  | SetStrictHostKeyChecking v => (str "StrictHostKeyChecking", if v then str "yes" else str "no")
  end.
Definition setting_line (x : Setting) : bytes := let '(key, value) := print_setting x in key ++ SPACE :: value.

Definition print_pattern (p : HostPattern) : bytes := (if hp_negated p then [33] else []) ++ hp_pattern p.
Fixpoint print_words (w : bytes) (ws : list bytes) : bytes :=
  match ws with [] => w | w' :: ws => w ++ SPACE :: print_words w' ws end.
Definition host_line (e : HostEntry) : bytes :=
  str "Host" ++ SPACE :: match map print_pattern (host_patterns e) with [] => [] | w :: ws => print_words w ws end.

(** Settings are indented by two spaces. *)
Definition entry_lines (e : HostEntry) : list bytes :=
  host_line e :: map (fun x => [SPACE; SPACE] ++ setting_line x) (settings_of (host_config e)).
Definition print_config (es : list HostEntry) : bytes :=
  concat (map (fun l => l ++ [NEWLINE]) (concat (map entry_lines es))).

(** What can be written down: values of one line, paths that are taken as they
    are, patterns of one word. *)
Definition clean (v : bytes) : Prop := trimmed v /\ (NEWLINE ∉ v).
Definition plain_path (v : bytes) : Prop := clean v /\ strip_quotes v = v /\ starts_with (str "~/") v = false.
Definition printable_setting (x : Setting) : Prop :=
  match x with
  | SetUser v | SetHostname v | SetProxyCommand v | SetProxyJump v => clean v
  | SetPort v => 0 <= v <= 65535
  | AddIdentityFile v | SetUserKnownHostsFile v => plain_path v
  | SetAddKeysToAgent _ | SetStrictHostKeyChecking _ => True
  end.
Definition printable_pattern (p : HostPattern) : Prop :=
  Forall (fun x => is_space x = false) (hp_pattern p) /\
  (hp_negated p = false -> hp_pattern p <> [] /\ head (hp_pattern p) <> Some 33).
(** White space outside ASCII may be in a pattern, but not at the end of the line. *)
Definition ends_well (p : HostPattern) : Prop := trim_end (hp_pattern p) = hp_pattern p.
Definition printable (e : HostEntry) : Prop :=
  host_patterns e <> [] /\ Forall printable_pattern (host_patterns e) /\ (forall p, list.last (host_patterns e) = Some p -> ends_well p) /\
  hc_identity_file (host_config e) <> Some [] /\ Forall printable_setting (settings_of (host_config e)).

(** *** The settings of an entry *)
Abbreviation apply_settings := (fold_left (fun c x => set_setting x c)).

Lemma apply_files fs c : apply_settings (map AddIdentityFile fs) c =
  match fs with [] => c | _ => {|
    hc_user := hc_user c; hc_hostname := hc_hostname c; hc_port := hc_port c;
    hc_identity_file := Some (default [] (hc_identity_file c) ++ fs);
    hc_proxy_command := hc_proxy_command c; hc_proxy_jump := hc_proxy_jump c;
    hc_add_keys_to_agent := hc_add_keys_to_agent c; hc_user_known_hosts_file := hc_user_known_hosts_file c;
    hc_strict_host_key_checking := hc_strict_host_key_checking c |} end.
Proof.
  revert c. induction fs as [|f fs IH]; intros c; [done|]. cbn [map fold_left]. rewrite IH.
  destruct fs as [|g fs], c as [? ? ? [gs|] ? ? ? ? ?]; cbn; rewrite <- ?app_assoc; done.
Qed.

Lemma apply_settings_of c : hc_identity_file c <> Some [] -> apply_settings (settings_of c) HostConfig_default = c.
Proof.
  intros Hc. unfold settings_of. rewrite !fold_left_app.
  set (c1 := apply_settings (option_list (SetPort <$> _)) _). rewrite apply_files. subst c1.
  destruct c as [u h p fs pc pj ak kh sh]. cbn in Hc |- *.
  destruct u, h, p, fs as [[|f fs]|]; try done; cbn; destruct pc, pj, ak; cbn; destruct kh, sh; done.
Qed.

(** *** Its lines *)
Lemma space_trimmed_end w v : v <> [] -> trim_end v = v -> trim_end (w ++ SPACE :: v) = w ++ SPACE :: v.
Proof. intros Hn Hv. by apply trim_end_after. Qed.

Lemma clean_trimmed_line key v : key <> [] -> Forall printed key -> v <> [] -> trim_end v = v ->
  trimmed (key ++ SPACE :: v).
Proof.
  intros Hn Hk Hv Ht. split; [by destruct key|]. split; [|by apply space_trimmed_end].
  destruct Hk; [done|by apply trim_start_word].
Qed.

Lemma no_hash_line l : is_Some (head l) -> head l <> Some 35 ->
  bool_decide (l = []) || starts_with [35] l = false.
Proof.
  destruct l as [|x l]; [by intros [? ?]|]. intros _ Hx. cbn [head] in Hx. unfold starts_with, beq. cbn.
  apply bool_decide_eq_false. intros H. apply Hx. by injection H as ->.
Qed.

Lemma word_no_newline b : Forall (fun x => is_space x = false) b -> NEWLINE ∉ b.
Proof. rewrite Forall_forall. intros H Hin. by specialize (H _ Hin). Qed.

Lemma printed_no_newline b : Forall printed b -> NEWLINE ∉ b.
Proof. intros Hb. apply word_no_newline. eapply Forall_impl; [exact Hb|exact printed_no_space]. Qed.

Lemma decimal16_word n : Forall printed (decimal16 n).
Proof.
  eapply Forall_impl; [by apply (digits_range 5 n [])|]. intros x Hx.
  apply Is_true_true, andb_true_iff in Hx as [H1 H2]. apply Z.leb_le in H1, H2. unfold printed. lia.
Qed.

Lemma print_setting_key x : printable_setting x -> exists key v, print_setting x = (key, v) /\ key <> [] /\
  Forall printed key /\ (SPACE ∉ key) /\ head key <> Some 35 /\ clean v.
Proof.
  assert (Hd : forall n, clean (decimal16 n)).
  { intros n. split; [apply word_trimmed; [apply digits_nonempty|]|apply printed_no_newline]; apply decimal16_word. }
  intros Hx. destruct x as [v|v|v|v|v|v|[]|v|[]]; cbn in Hx |- *; eexists _, _; (split; [done|]);
    (split_and!; [done|by repeat constructor|by vm_compute; set_solver|done|]);
    try done; try apply Hx; try apply Hd; by vm_compute; split; set_solver.
Qed.

Lemma setting_line_trimmed x : printable_setting x -> trimmed (setting_line x) /\ (NEWLINE ∉ setting_line x).
Proof.
  intros Hx. destruct (print_setting_key x Hx) as (key & v & Hp & Hn & Hk & Hs & Hh & [Ht Hv]).
  unfold setting_line. rewrite Hp. split; [apply clean_trimmed_line; [done|done|apply Ht|apply Ht]|].
  apply printed_no_newline in Hk. set_solver.
Qed.

Section Printed.
Context {E : Environment}.

Ltac compare_words :=
  repeat match goal with
  | |- context [beq (to_lowercase (str ?a)) (str ?b)] =>
      let r := eval vm_compute in (beq (to_lowercase (str a)) (str b)) in
      replace (beq (to_lowercase (str a)) (str b)) with r by (vm_compute; reflexivity); cbv iota
  end.

Lemma parse_printed_setting x : printable_setting x ->
  parse_setting (to_lowercase (print_setting x).1) (print_setting x).2 = Ok (Some x).
Proof.
  destruct x as [v|v|v|v|v|v|v|v|v]; cbn [print_setting fst snd printable_setting]; intros Hx; unfold parse_setting;
    compare_words; try (rewrite trimmed_start by apply Hx; reflexivity).
  - rewrite trimmed_start by (apply word_trimmed; [apply digits_nonempty|apply decimal16_word]).
    by rewrite parse_decimal16.
  - destruct Hx as ([Ht _] & Hq & Hh). rewrite trimmed_start, Hq by done. unfold expand_home. by rewrite Hh.
  - destruct v; compare_words; reflexivity.
  - destruct Hx as ([Ht _] & Hq & Hh). rewrite trimmed_start, Hq by done. unfold expand_home. by rewrite Hh.
  - destruct v; compare_words; reflexivity.
Qed.

Lemma parse_setting_line x p : printable_setting x -> parse_line (setting_line x) p =
  Ok {| entries := entries p; patterns := patterns p; config := set_setting x (config p); found_params := true |}.
Proof.
  intros Hx. pose proof (parse_printed_setting x Hx) as Hparse.
  destruct (print_setting_key x Hx) as (key & v & Hp & Hn & Hk & Hs & Hh & Hv). rewrite Hp in Hparse. cbn [fst snd] in Hparse.
  unfold parse_line, setting_line. rewrite Hp, no_hash_line, split_once_sep by (done || by destruct key).
  replace (beq (to_lowercase key) (str "host")) with false; [by rewrite Hparse|].
  symmetry. apply bool_decide_eq_false. intros Hl. rewrite Hl in Hparse. by vm_compute in Hparse.
Qed.

Lemma parse_settings xs ls p : Forall printable_setting xs ->
  exists f, parse_lines (map (fun x => [SPACE; SPACE] ++ setting_line x) xs ++ ls) p =
    parse_lines ls {| entries := entries p; patterns := patterns p; config := apply_settings xs (config p);
                      found_params := f |}.
Proof.
  intros Hxs. revert p. induction Hxs as [|x xs Hx Hxs IH]; intros p.
  - exists (found_params p). by destruct p.
  - cbn [map app parse_lines fold_left]. change (SPACE :: SPACE :: setting_line x) with ([SPACE; SPACE] ++ setting_line x).
    rewrite trim_indented, parse_setting_line by (done || by apply setting_line_trimmed || by repeat constructor).
    cbn [res_bind]. destruct (IH {| entries := entries p; patterns := patterns p; config := set_setting x (config p);
      found_params := true |}) as [f Hf]. exists f. exact Hf.
Qed.

(** *** Its patterns *)
Lemma space_ascii x : is_space x = false -> is_ascii_space x = false.
Proof. unfold is_ascii_space. by intros ->. Qed.

Lemma print_pattern_word p : printable_pattern p ->
  Forall (fun x => is_space x = false) (print_pattern p) /\ print_pattern p <> [] /\ parse_pattern (print_pattern p) = p.
Proof.
  destruct p as [w []]; intros [Hw Hn]; cbn in *; [by split; [constructor|]|].
  destruct (Hn eq_refl) as [Hne Hh]. split_and!; [done..|]. destruct w as [|x w]; [done|]. cbn.
  destruct (decide (x = 33)) as [->|Hx]; [done|]. destruct x as [|q|q]; try done.
  repeat (done || match goal with q : positive |- _ => destruct q end).
Qed.

Lemma print_pattern_ends p : ends_well p -> trim_end (print_pattern p) = print_pattern p.
Proof. destruct p as [w []]; intros Hw; [|done]. by apply (trim_end_after [] 33 w). Qed.

Lemma print_words_spec w ws : Forall (fun w => w <> [] /\ Forall (fun x => is_space x = false) w) (w :: ws) ->
  (forall u, list.last (w :: ws) = Some u -> trim_end u = u) ->
  split_ascii_whitespace (print_words w ws) = w :: ws /\ print_words w ws <> [] /\
    trim_end (print_words w ws) = print_words w ws /\ (NEWLINE ∉ print_words w ws).
Proof.
  revert w. induction ws as [|w' ws IH]; intros w Hws Hu; apply Forall_cons in Hws as [[Hn Hw] Hws];
    assert (Ha : Forall (fun x => is_ascii_space x = false) w) by (eapply Forall_impl; [exact Hw|exact space_ascii]);
    cbn [print_words].
  - split_and!; [by apply split_ascii_whitespace_word|done|by apply Hu|by apply word_no_newline].
  - destruct (IH w' Hws Hu) as (IH1 & IH2 & IH3 & IH4). split_and!.
    + by rewrite split_ascii_whitespace_cons, IH1.
    + by destruct w.
    + by apply space_trimmed_end.
    + apply word_no_newline in Hw. set_solver.
Qed.

Lemma host_line_spec e : printable e -> exists value,
  host_line e = str "Host" ++ SPACE :: value /\ map parse_pattern (split_ascii_whitespace value) = host_patterns e /\
  value <> [] /\ trim_end value = value /\ (NEWLINE ∉ value).
Proof.
  intros (Hn & Hp & Hu & _). unfold host_line. eexists. split; [done|].
  assert (Hw : Forall (fun w => w <> [] /\ Forall (fun x => is_space x = false) w) (map print_pattern (host_patterns e))).
  { apply Forall_map. eapply Forall_impl; [exact Hp|]. intros p H. cbn. by apply print_pattern_word in H as (? & ? & ?). }
  assert (Hm : map parse_pattern (map print_pattern (host_patterns e)) = host_patterns e).
  { clear Hn Hw Hu. induction Hp as [|p ps H Hp IH]; [done|]. cbn. f_equal; [by apply print_pattern_word|exact IH]. }
  assert (Ht : forall u, list.last (map print_pattern (host_patterns e)) = Some u -> trim_end u = u).
  { intros u. change (map ?f ?l) with (f <$> l). rewrite fmap_last. destruct (list.last _) as [p|]; [|done].
    intros [= <-]. by apply print_pattern_ends, Hu. }
  destruct (map print_pattern (host_patterns e)) as [|w ws] eqn:Hl; [by destruct (host_patterns e)|].
  destruct (print_words_spec w ws Hw Ht) as (-> & H2 & H3 & H4). done.
Qed.

Lemma host_line_trimmed e : printable e -> trimmed (host_line e).
Proof.
  intros He. destruct (host_line_spec e He) as (v & -> & _ & Hn & Ht & _).
  apply clean_trimmed_line; [done| |done|done]. repeat constructor; done.
Qed.

Lemma entry_lines_whole e : printable e -> Forall whole_line (entry_lines e).
Proof.
  intros He. destruct (host_line_spec e He) as (v & Hl & _ & _ & _ & Hv). constructor.
  - destruct (host_line_trimmed e He) as (Hn & _ & Ht). split; [|by apply trimmed_last].
    rewrite Hl. apply not_elem_of_app; split; [vm_compute|]; set_solver.
  - destruct He as (_ & _ & _ & _ & Hs). apply Forall_map. eapply Forall_impl; [exact Hs|]. intros x Hx.
    destruct (setting_line_trimmed x Hx) as [(H0 & _ & H1) H2].
    split; [set_solver|]. cbn beta. destruct (setting_line x) as [|y l] eqn:Hy; [done|].
    rewrite last_app_cons. by apply trimmed_last.
Qed.

Lemma print_config_lines es : Forall printable es -> lines (print_config es) = concat (map entry_lines es).
Proof.
  intros Hes. apply lines_of, Forall_concat, Forall_map. eapply Forall_impl; [exact Hes|exact entry_lines_whole].
Qed.

(** After the entries [acc], the last of which may still be open. *)
Definition closes (p : Parser) (acc : list HostEntry) : Prop := exists f, close_entry p =
  Ok {| entries := acc; patterns := None; config := HostConfig_default; found_params := f |}.

Lemma parse_entry e ls p acc : printable e -> closes p acc ->
  exists p', parse_lines (entry_lines e ++ ls) p = parse_lines ls p' /\ closes p' (acc ++ [e]).
Proof.
  intros He [f Hc]. destruct (host_line_spec e He) as (v & Hl & Hv & _).
  pose proof (host_line_trimmed e He) as Ht. destruct He as (_ & _ & _ & Hf & Hs).
  unfold entry_lines. cbn [app parse_lines].
  assert (Htr : trim (host_line e) = host_line e) by (apply (trim_indented []); [done|constructor]).
  rewrite Htr.
  unfold parse_line. rewrite Hl, no_hash_line, split_once_sep by (done || by vm_compute; set_solver). compare_words.
  unfold parse_host. rewrite Hc. cbn [res_bind entries patterns config]. rewrite Hv.
  edestruct (parse_settings (settings_of (host_config e)) ls) as [g ->]; [exact Hs|]. eexists. split; [done|].
  exists g. unfold close_entry. cbn [patterns entries config found_params]. rewrite apply_settings_of by done. by destruct e.
Qed.

Lemma parse_entries es : Forall printable es -> forall p acc, closes p acc ->
  exists p', parse_lines (concat (map entry_lines es)) p = Ok p' /\ closes p' (acc ++ es).
Proof.
  induction 1 as [|e es He Hes IH]; intros p acc Hp; cbn [map concat].
  - exists p. by rewrite app_nil_r.
  - destruct (parse_entry e (concat (map entry_lines es)) p acc He Hp) as (p1 & -> & H1).
    destruct (IH p1 _ H1) as (p2 & -> & H2). exists p2. split; [done|]. by rewrite <- app_assoc in H2.
Qed.

Lemma parse_print_config es : Forall printable es -> parse_ssh_config (print_config es) = Ok es.
Proof.
  intros Hes. unfold parse_ssh_config. rewrite print_config_lines by done.
  destruct (parse_entries es Hes Parser_new []) as (p & -> & f & Hp); [by exists false|]. cbn [res_bind]. by rewrite Hp.
Qed.

(** C32. A configuration file that lists entries (whose values and patterns can be
    written down, [printable]) comes out of the parser as these
    entries, and the settings of a host are those of the entries that are for it:
    for each setting the first that is given, of the identity files all, in the
    order of the file. *)
Theorem written_config_found es h : Forall printable es ->
  parse_ssh_config (print_config es) = Ok es /\
  parse (print_config es) h = Ok {| cfg_host_name := h; cfg_user := None; cfg_port := None;
    cfg_host_config := effective (map host_config (List.filter (applies h) es)) |}.
Proof.
  intros Hes. unfold parse. rewrite parse_print_config by done. split; [done|]. cbn [res_bind]. by rewrite query_spec.
Qed.
End Printed.

(** ** Tokens *)

(** What [ssh_config(5)] says: from left to right, each token once, [%%] being a
    percent sign. *)
Definition PERCENT : Z := 37.
Fixpoint substitute (token : Z -> option bytes) (b : bytes) : bytes :=
  match b with
  | [] => []
  | x :: b' =>
      match b' with
      | [] => [x]
      | t :: b'' =>
          if x =? PERCENT then
            match token t with
            | Some v => v ++ substitute token b''
            | None => x :: t :: substitute token b''
            end
          else x :: substitute token b'
      end
  end.
Definition with_token (t : Z) (v : bytes) (token : Z -> option bytes) (u : Z) : option bytes :=
  if u =? t then Some v else token u.
Definition config_tokens {E : Environment} (c : Config) : Z -> option bytes :=
  with_token PERCENT [PERCENT] (with_token 112 (decimal16 (port c)) (with_token 72 (host c)
    (with_token 104 (host c) (with_token 117 (user c) (fun _ => None))))).

Fixpoint doubled (b : bytes) : bool :=
  match b with
  | x :: b' => match b' with y :: _ => (x =? PERCENT) && (y =? PERCENT) | [] => false end || doubled b'
  | [] => false
  end.

Lemma bytes_ind2 (P : bytes -> Prop) :
  P [] -> (forall x, P [x]) -> (forall x y b, P (y :: b) -> P b -> P (x :: y :: b)) -> forall b, P b.
Proof.
  intros H0 H1 H2 b. cut (P b /\ forall x, P (x :: b)); [by intros [? _]|].
  induction b as [|y b [IH1 IH2]]; split; auto.
Qed.

Lemma starts_with_two x t y b : starts_with [x; t] (y :: b) =
  (y =? x) && match b with z :: _ => z =? t | [] => false end.
Proof.
  unfold starts_with, beq. change (zlen [x; t]) with 2. destruct b as [|z b].
  - rewrite andb_false_r. by apply bool_decide_eq_false.
  - apply eq_true_iff_eq. rewrite bool_decide_eq_true, andb_true_iff, !Z.eqb_eq.
    change (ztake 2 (y :: z :: b)) with [y; z]. split; [by intros [= -> ->]|by intros [-> ->]].
Qed.

Lemma replace_step x t v y b : replace [x; t] v (y :: b) =
  if (y =? x) && match b with z :: _ => z =? t | [] => false end
  then v ++ replace [x; t] v (tail b) else y :: replace [x; t] v b.
Proof.
  unfold replace. cbn [replace_from]. rewrite starts_with_two. destruct (y =? x); cbn [andb]; [|done].
  destruct b as [|z b]; [done|]. by destruct (z =? t).
Qed.

Lemma replace_clean t v w b : PERCENT ∉ w -> replace [PERCENT; t] v (w ++ b) = w ++ replace [PERCENT; t] v b.
Proof.
  induction w as [|x w IH]; intros Hw; [done|]. cbn [app]. rewrite replace_step.
  destruct (Z.eqb_spec x PERCENT) as [->|_]; [set_solver|]. cbn [andb]. rewrite IH by set_solver. done.
Qed.

Section Tokens.
Variable token : Z -> option bytes.
Hypothesis token_clean : forall u w, token u = Some w -> PERCENT ∉ w.
Hypothesis token_percent : token PERCENT = None.

Lemma replace_substitute t v b : token t = None -> doubled b = false ->
  replace [PERCENT; t] v (substitute token b) = substitute (with_token t v token) b.
Proof.
  intros Ht. induction b as [|x|x y b IH1 IH2] using bytes_ind2; intros Hb; [done| |].
  - cbn [substitute]. rewrite replace_step. by destruct (x =? PERCENT).
  - cbn [doubled] in Hb. apply orb_false_iff in Hb as [Hxy Hb]. pose proof Hb as Hb'. apply orb_false_iff in Hb' as [_ Hb'].
    change (substitute ?f (x :: y :: b)) with
      (if x =? PERCENT then match f y with Some v => v ++ substitute f b | None => x :: y :: substitute f b end
       else x :: substitute f (y :: b)).
    destruct (Z.eqb_spec x PERCENT) as [->|Hx].
    + cbn [andb] in Hxy. unfold with_token at 1. destruct (Z.eqb_spec y t) as [->|Hy].
      * rewrite Ht, replace_step, !Z.eqb_refl. cbn [andb tail]. by rewrite IH2.
      * destruct (token y) as [w|] eqn:Hw.
        -- rewrite replace_clean by (by eapply token_clean). by rewrite IH2.
        -- rewrite replace_step, Z.eqb_refl, (proj2 (Z.eqb_neq y t) Hy). cbn [andb]. rewrite replace_step, Hxy.
           cbn [andb]. by rewrite IH2.
    + rewrite replace_step, (proj2 (Z.eqb_neq x PERCENT) Hx). cbn [andb]. by rewrite IH1.
Qed.
End Tokens.

Lemma substitute_none b : substitute (fun _ => None) b = b.
Proof.
  induction b as [|x|x y b IH1 IH2] using bytes_ind2; [done..|]. cbn [substitute] in *.
  destruct (x =? PERCENT); [by rewrite IH2|by rewrite IH1].
Qed.

(** Replacing the tokens one kind after the other comes to what the manual
    says, provided that no percent sign is escaped and that the name of the user
    and of the host have none. *)
Theorem tokens_in_one_pass {E : Environment} c original :
  PERCENT ∉ user c -> PERCENT ∉ host c -> doubled original = false ->
  expand_tokens c original = substitute (config_tokens c) original.
Proof.
  intros Hu Hh Hd. unfold expand_tokens.
  assert (Hp' : PERCENT ∉ decimal16 (port c)).
  { pose proof (digits_range 5 (port c) [] ltac:(constructor)) as Hr. rewrite Forall_forall in Hr. intros Hin.
    by specialize (Hr _ Hin). }
  rewrite <- (substitute_none original) at 1.
  change (str "%u") with [PERCENT; 117]. change (str "%h") with [PERCENT; 104]. change (str "%H") with [PERCENT; 72].
  change (str "%p") with [PERCENT; 112]. change (str "%%") with [PERCENT; PERCENT]. change (str "%") with [PERCENT].
  rewrite !replace_substitute; try done; unfold with_token;
    intros u w Hw; repeat (destruct (_ =? _) in Hw; [injection Hw as <-; done|]); done.
Qed.

(** ** On concrete files *)
Module Example.

(** Globs with no more than a star in front. *)
#[export] Instance stars : Environment := {|
  glob p := Some (fun h => match p with 42 :: q => ends_with q h | _ => beq p h end);
  username := str "me";
  home_dir := Some (str "/home/me");
|}.

Definition pat (s : string) : HostPattern := {| hp_pattern := str s; hp_negated := false |}.
Definition nopat (s : string) : HostPattern := {| hp_pattern := str s; hp_negated := true |}.
Definition settings (xs : list Setting) : HostConfig := apply_settings xs HostConfig_default.
Definition entry (ps : list HostPattern) (xs : list Setting) : HostEntry :=
  {| host_patterns := ps; host_config := settings xs |}.

Definition sample : list HostEntry :=
  [entry [pat "a.test"] [SetPort 42; AddIdentityFile (str "/path/to/id_ed25519")];
   entry [pat "*.test"; nopat "a.test"] [SetUser (str "invalid"); SetStrictHostKeyChecking false];
   entry [pat "*"] [SetUser (str "trinity"); SetHostname (str "foo.com"); SetProxyCommand (str "ssh -W %h:%p jump");
                    SetAddKeysToAgent Confirm; AddIdentityFile (str "/path/to/id_rsa")]].
Definition text (ls : list string) : bytes := concat (map (fun l => str l ++ [NEWLINE]) ls).

Example sample_text : print_config sample = text
  ["Host a.test"; "  Port 42"; "  IdentityFile /path/to/id_ed25519";
   "Host *.test !a.test"; "  User invalid"; "  StrictHostKeyChecking no";
   "Host *"; "  User trinity"; "  Hostname foo.com"; "  IdentityFile /path/to/id_rsa";
   "  ProxyCommand ssh -W %h:%p jump"; "  AddKeysToAgent confirm"].
Proof. vm_compute. reflexivity. Qed.

Definition found : HostConfig := {|
  hc_user := Some (str "trinity"); hc_hostname := Some (str "foo.com"); hc_port := Some 42;
  hc_identity_file := Some [str "/path/to/id_ed25519"; str "/path/to/id_rsa"];
  hc_proxy_command := Some (str "ssh -W %h:%p jump"); hc_proxy_jump := None; hc_add_keys_to_agent := Some Confirm;
  hc_user_known_hosts_file := None; hc_strict_host_key_checking := None |}.
Definition sample_config : Config :=
  {| cfg_host_name := str "a.test"; cfg_user := None; cfg_port := None; cfg_host_config := found |}.

Example sample_printable : Forall printable sample.
Proof.
  repeat (apply Forall_cons; split); try apply Forall_nil; try exact I;
    (split; [discriminate|split; [|split; [intros p [= <-]; by vm_compute|split; [discriminate|]]]]);
    repeat (apply Forall_cons; split); try apply Forall_nil; try exact I;
    try (split; [vm_compute; by repeat constructor|intros; by vm_compute]);
    try (cbn; lia); try (split; [by vm_compute|by vm_compute; set_solver]);
    (split; [split; [by vm_compute|by vm_compute; set_solver]|split; by vm_compute]).
Qed.

Lemma written_config_found_witness :
  Forall printable sample /\ parse (print_config sample) (str "a.test") = Ok sample_config.
Proof. split; [exact sample_printable|]. exact (proj2 (written_config_found sample (str "a.test") sample_printable)). Defined.

Lemma tokens_in_one_pass_witness :
  expand_tokens sample_config (str "ssh -W %h:%p jump") = str "ssh -W foo.com:42 jump" /\
  stream sample_config = ProxyCommand (str "ssh") [str "-W"; str "foo.com:42"; str "jump"].
Proof.
  split; [|vm_compute; reflexivity].
  rewrite (tokens_in_one_pass sample_config (str "ssh -W %h:%p jump")); [vm_compute; reflexivity|..].
  - vm_compute. set_solver.
  - vm_compute. set_solver.
  - vm_compute. reflexivity.
Defined.

(** An escaped percent sign does not keep what follows it from being a token. *)
Example escape_ignored :
  expand_tokens sample_config (str "date +%%h") = str "date +%foo.com" /\
  substitute (config_tokens sample_config) (str "date +%%h") = str "date +%h".
Proof. split; vm_compute; reflexivity. Qed.

(** White space outside ASCII is trimmed like any other: a no-break space, a
    line separator and an ideographic space. *)
Example wide_space_trimmed :
  match parse (str "Host a" ++ [NEWLINE; 227; 128; 128] ++ str "User " ++ [226; 128; 168] ++ str "me" ++ [194; 160]) (str "a") with
  | Ok c => hc_user (cfg_host_config c)
  | _ => None
  end = Some (str "me").
Proof. vm_compute. reflexivity. Qed.

(** A second space before the value is part of it. *)
Example second_space :
  hc_strict_host_key_checking <$> (cfg_host_config <$> match parse (text ["Host a"; "StrictHostKeyChecking no"]) (str "a") with Ok c => Some c | _ => None end) = Some (Some false) /\
  hc_strict_host_key_checking <$> (cfg_host_config <$> match parse (text ["Host a"; "StrictHostKeyChecking  no"]) (str "a") with Ok c => Some c | _ => None end) = Some (Some true).
Proof. split; vm_compute; reflexivity. Qed.

(** What stands in a [Match] block belongs to the host before it. *)
Example match_block :
  match parse (text ["Host a"; "  User me"; "Match host b"; "  StrictHostKeyChecking no"]) (str "a") with
  | Ok c => hc_strict_host_key_checking (cfg_host_config c)
  | _ => None
  end = Some false.
Proof. vm_compute. reflexivity. Qed.

(** Settings before the first host are an error, comments are not. *)
Example malformed :
  parse (text ["Hostname foo.com"; "Host foo"]) (str "foo") = Err ConfigError.HostNotFound /\
  parse (text ["# Hostname foo.com"; ""]) (str "foo") = Ok (Config_default (str "foo")).
Proof. split; vm_compute; reflexivity. Qed.
End Example.
